(* ===== verification/_CoqProject ===== *)
-Q . S2P
Prelude.v
GoBytes.v
GoStrings.v
Revision.v
OrderedTree.v
KeyValue.v
KeyIndex.v
MemoryStore.v
MvccSpec.v
MvccRefine.v
MvccOps.v
MvccTheorems.v
Compactor.v
KvTypes.v
ShardedMap.v
MemoryEtcd.v
EtcdFacts.v
EtcdOps.v
EtcdTheorems.v
BatchApply.v
BatchTheorems.v
RaftCodec.v
MemoryRaft.v
MemorySystem.v
MemoryTheorems.v
EtcdReplica.v
RaftExamples.v
LeaseRead.v
ReadIndex.v
ProposalBatcher.v
ByteDB.v
RaftLog.v
RaftLogRefine.v
RaftLogTheorems.v
MvccRocks.v
MvccRocksSpec.v
MvccRocksRefine.v
MvccRocksRestart.v
MvccRocksTheorems.v
RocksCodec.v
RocksEtcd.v
RocksRaft.v
RocksEtcdSpec.v
RocksEtcdRefine.v
RocksEtcdTheorems.v
RocksBatch.v
RocksEngines.v
StoreApi.v
EtcdApi.v
Auth.v
AuthRefine.v
AuthTheorems.v
AuthServer.v
AuthServerTheorems.v
AuthExamples.v
LeaseServer.v
WatchServer.v
WatchDelivery.v
Program.v
RaftNode.v
RaftNodeMemory.v
RaftNodeRocks.v
RaftNodeRuns.v
RaftNodeTheorems.v
RaftNodeStorage.v
RaftNodeExamples.v
Config.v
ConfigTheorems.v
Reliability.v
LogRotation.v
Cluster.v
HttpServer.v
Concurrency.v
ConcurrencyTheorems.v
ConcurrencyServers.v
MysqlHandler.v
MysqlServer.v
MysqlTransactions.v
MysqlStatements.v
MysqlExamples.v
