(* ===== verification/Prelude.v ===== *)
(** * MetaStore: a verified model of its storage core

    MetaStore is an etcd-compatible key-value store in Go.  Client requests reach
    a store through gRPC, HTTP or MySQL front ends; writes go through Raft and are
    applied, in log order, to a state machine on every node.  This library models
    the storage core and proves what it promises.

    ** The parts of the program

    - [internal/mvcc] keeps every version of every key: revisions, an index from
      keys to generations of revisions, and the records by revision, in a tree
      ([memory_store.go]) or in RocksDB ([rocksdb_store.go]); a compactor forgets
      old versions in the background ([compaction.go]).
    - [internal/memory] is the state machine of the in-memory deployment: a map
      sharded by hash, a global revision counter, leases and watches
      ([store.go], [store_direct.go], [watch.go], [sharded_map.go]); the parallel
      application of committed batches ([batch_apply.go]); and the wrapper that
      proposes client calls to Raft, waits for their commit and takes snapshots
      ([kvstore.go]), with its wire formats ([protobuf_converter.go],
      [snapshot_converter.go], [internal/common/lease_converter.go]).
    - [internal/rocksdb] is the persistent deployment: the same state machine over
      a database ([kvstore.go], [pools.go], [raft_proto.go]) and the Raft log
      ([raftlog.go]).
    - [internal/kvstore] holds the types and the store interface they share.
    - [internal/lease] decides when a leader answers reads from its own state: by
      an unexpired lease ([smart_config.go], [lease_manager.go]) or once the read
      index is applied ([readindex_manager.go]); a checker watches over both
      ([health_checker.go]).
    - [internal/batch] collects proposals on their way to Raft into batches
      ([codec.go], [proposal_batcher.go]).
    - [internal/raft] has the Raft nodes of the two deployments, between the
      proposals, the etcd Raft library, the stable storage and the store
      ([node_memory.go], [node_rocksdb.go]).
    - [pkg/config] reads, completes and checks the configuration ([config.go]).
    - [api/etcd] serves etcd's gRPC API over a store: keys ([kv.go], [errors.go]),
      leases and alarms ([lease.go], [lease_manager.go], [alarm_manager.go]), users,
      roles and tokens ([auth_manager.go], [auth.go]), and the interceptor that
      checks every unary call ([auth_interceptor.go]).
    - [api/mysql] answers SQL statements over the MySQL protocol from the same
      store, with a transaction per connection ([handler.go], [query.go],
      [parser.go], [auth.go], [server.go]).
    - [pkg/log] writes log files and rotates them ([rotation.go]).
    - [pkg/concurrency] is the client's side: sessions, locks and elections made
      of keys of an etcd server ([session.go], [mutex.go], [election.go]).

    ** The files

    - [Prelude]: machine integers, the error type, tactics, generic list lemmas.
    - [GoBytes]: Go's byte strings as Rocq strings: comparison, slicing,
      fixed-width integers.
    - MVCC.  [Revision] ([revision.go]), [OrderedTree] (the interface of the
      B-tree library and a sorted-list instance), [KeyValue] ([key_value.go] and
      its codec), [KeyIndex] ([key_index.go]), [MemoryStore] ([memory_store.go]
      with the types of [store.go]): one definition per operation, the
      transactions included.  [MvccSpec] is the abstract store, a log of events
      with a compaction mark; [MvccRefine] relates the two states, [MvccOps] shows
      that every operation preserves the relation, and [MvccTheorems] states the
      refinement for all runs and what follows from it about reads, writes,
      deletions, transactions and compaction.  [Compactor] is the background
      compactor, over the class [CompactStore].
    - State machine.  [KvTypes] ([types.go]; lease expiry computes in float64),
      [ShardedMap] (the class [KvMap] of maps with its laws [KvMapLaws], and the
      sharded map as an instance), [MemoryEtcd] (all operations of the store,
      over any [KvMap]), [EtcdFacts] and [EtcdOps] (its invariant and the effect
      of each operation), [EtcdTheorems] (its properties).
    - Batches.  [BatchApply]: the goroutines of [batchApplyPut] and
      [batchApplyDeleteSingleKey] as a step relation with one step per access of
      the shared state, with the invariant of all interleavings; [BatchTheorems]
      compares them with the log order.
    - Raft wrapper.  [RaftCodec] (converters and formats, over the classes
      [ProtoWire] and [TextWire] for the encoders), [MemoryRaft] (the state
      [Memory] and its methods), [MemorySystem] (client calls and commits
      interleaved, as a step relation with its invariant), [MemoryTheorems] (its
      properties), [EtcdReplica] (the state replicas have to agree on, what an
      operation does to it, and that a node that reads its commit channel follows
      it), [RaftExamples] (concrete encoders and runs).
    - Reads and proposals.  [LeaseRead] (leases over a run of renewals, checks and
      role changes with their times), [ReadIndex] (readers and notifications
      interleaved, as a step relation; their statistics and the health checks, with
      rates in float64), [ProposalBatcher] (the codec over the class [BatchJson],
      whose law is that JSON keeps text and replaces bytes that are not UTF-8, the
      loop as a step relation, the load in float64).
    - Persistence.  [ByteDB] is the interface of the database: reads, iteration in
      key order and atomic batches that may fail, with its laws [ByteDBLaws] and
      instances that work and that fail.  [RaftLog] has the methods of
      [raftlog.go], [RaftLogRefine] the abstract log and the refinement,
      [RaftLogTheorems] what follows from it and crash atomicity.  [MvccRocks],
      [MvccRocksSpec], [MvccRocksRefine], [MvccRocksRestart] and
      [MvccRocksTheorems] do the same for [rocksdb_store.go].  [RocksCodec] (the
      binary records and the messages), [RocksEtcd] (the operations of
      [kvstore.go]), [RocksRaft] (its commit loop, batches, snapshots and
      client calls), [RocksEtcdSpec] (the abstract store, whose commits read the
      state before them and write at their end), [RocksEtcdRefine] (with encoders
      for concrete runs) and [RocksEtcdTheorems] for the persistent state machine;
      [RocksBatch] compares a commit written as one batch with a commit for each of
      its operations, [RocksEngines] the two deployments.  Commits go through
      [applyOperationsBatch]; [applyOperation], which nothing calls, is a definition
      that no theorem rests on.
    - Raft nodes.  [Program] is the monad of their handlers, which may halt.
      [RaftNode] has the methods the two nodes share, over the classes
      [RaftLibrary] and [LogStorage]; [RaftNodeMemory] and [RaftNodeRocks] their
      start-up and their handling of a Ready.  [RaftNodeRuns] is a node as a step
      relation over any [NodeEngine] with the laws [NodeEngineLaws], and what it
      hands to the store; [RaftNodeTheorems] has the engines and the order of
      their writes, [RaftNodeStorage] what is on disk, [RaftNodeExamples] concrete
      runs, and the database the Raft log shares with the store.
    - Configuration.  [Config] and [ConfigTheorems]: the settings, and what they
      make of a node.
    - Around the handlers.  [Reliability] has [pkg/reliability], [pkg/health] and
      [pkg/grpc]: checksums, limits as counters that calls step through, the
      chain of interceptors, panics, shutdown and health reports; the class [Gate]
      is the counter with a limit they share.  [LogRotation] has the writer of log
      files over a file system whose calls may fail, the compression of backups as a
      step of its own, and the log the files should hold.
    - gRPC API.  [StoreApi] is the store interface as a class [Store] with its
      laws [StoreLaws] and the in-memory store as an instance.  [EtcdApi] has the
      messages, the error codes and the KV service, [LeaseServer] the lease
      service and the alarms.  [Auth] is the
      authentication manager, [AuthRefine] what it promises without a store, and
      the refinement with [AuthTheorems]; [AuthServer] is the
      interceptor with the Auth and KV services behind it,
      [AuthServerTheorems] what it lets through; [AuthExamples] has encoders,
      runs and a store that refuses writes.  [WatchServer] is the watch service
      ([watch.go], [watch_manager.go]) over the class [WatchStore] with the laws
      [WatchStoreLaws]: the handlers of the streams, the goroutines that send events
      and the store as steps that interleave; [WatchDelivery] shows which
      events they send, and has the in-memory store as an instance.  [Cluster] is
      the manager of the members ([cluster_manager.go]) and the Maintenance and
      Cluster services ([maintenance.go]).
    - HTTP.  [HttpServer] has the handlers of [api/http] and [internal/http], and
      the parsing of numbers they tell node IDs from keys with.
    - MySQL.  [GoStrings] has the functions on strings it parses with, UTF-8 and
      upper case included.  [MysqlHandler] turns the trees of the TiDB parser (the
      class [TidbParser]) into plans, and is the handler of a connection with its
      own parsing of statements, [MysqlTransactions] what a transaction promises
      over any store with the laws [SerialStore], which the in-memory store has,
      [MysqlStatements] what statements do, [MysqlExamples] where they go wrong
      and concrete runs.  [MysqlServer] is the life of the server: its calls and
      its goroutines as steps that interleave.
    - Client recipes.  [Concurrency] has sessions, locks and elections over the
      class [EtcdServer], a step for each call of the client;
      [ConcurrencyTheorems] states the laws of such a server and interleaves any
      number of owners and candidates with everybody else's writes, who may do
      anything but create the keys of two of the sessions in one transaction;
      [ConcurrencyServers] has a server with these laws, and this one.

    ** How code becomes definitions

    A Go struct is a [Record], a method a function from the old state to the new
    one and a result; [result] is Go's [(value, error)] pair, [option] with [None]
    a panic or the end of the process where the code can do that.  An operation
    that holds a lock while it runs is one step.  Integers are [Z] with their
    wrap-around written out ([wrap_i64] and the like); theorems that need the
    counters not to wrap say so with a bound on the revision.  Byte slices and
    strings are Rocq strings; where the code tells nil from empty, an [option].
    The order in which Go ranges over a map is the class [MapOrder], of which
    only the set of entries is known.  The clock, the branches of [select], the
    scheduler, random numbers and everything the libraries do are arguments,
    classes with laws, or left open by relations.

    ** What the theorems show

    - MVCC: both stores refine the event log; history does not change; the
      persistent one gives the log before an operation whose write failed when it
      is opened again; the background compactor never touches what is read at a
      retained revision of a key written since.
    - State machine: its invariant and the effect of its operations.
    - Batches: every interleaving terminates, keeps the invariant and matches the
      log order in everything but the revisions inside the records, and these do
      depend on the schedule.
    - Replicas: nodes that read the same entries agree on the revision, on values,
      leases and versions and on what leases hold, however the entries are cut into
      commits and the batches scheduled.
    - Raft wrapper: no lost wake-up, no double close, a successful reply belongs to
      an applied operation with the sequence number of the call; snapshots and
      operations survive their encoding.
    - Persistent state machine: it refines an abstract store, commit by commit; a
      commit written as one batch equals a commit for each operation when none
      reads what an earlier one writes, and not otherwise; under that condition it
      agrees with the in-memory one on puts, bounded deletions and grants.
    - Raft log: it refines the abstract log, restarts included, while no append
      shortens it, and what goes wrong when one does; a call on a failing disk
      leaves all of its effect or nothing.
    - Reads and proposals: a valid lease has a recent renewal behind it, by more
      than half of the nodes if more than one was counted; a read that is let
      through is applied; what the batcher sends decodes, in order, to what it
      received, but for bytes in larger batches that are not UTF-8.
    - Raft nodes: the store of a node is given the committed log, each proposal
      once and in order, as the batcher of the leader got them; the persistent
      node has a Ready without snapshot on disk before it sends, the in-memory node sends
      whatever became of its writes; what goes wrong at restarts and snapshots.
    - Configuration: what is loaded is complete and in range; the leases it
      makes; witnesses stop at once.
    - gRPC API: the authentication manager refines its specification, restarts
      included, and from an empty start its cache stays well formed under calls that
      do not overlap, whatever the store answers (the manager holds no lock); a KV
      call passes the interceptor exactly when its token is valid and its user may
      use the key; a tick revokes exactly the expired leases.
    - Watches: under every interleaving the manager, the store and the streams
      agree on what is watched, and when the streams have ended nothing is left but
      watches with IDs that are not positive and those whose client could not be
      told; a stream is sent only events it asked for, unless clients number
      their watches themselves: then one can take over the watch of another.
    - Members and maintenance: the list of members is what the changes that were
      sent make of it; a snapshot is sent whole, or for ever with chunks of no
      bytes; what the hashes and the checks before a removal miss.
    - Around the handlers: a checksum finds every change of one byte; calls keep
      within their limits and are counted out whatever they do; no panic leaves
      the chain of interceptors; every hook of a shutdown runs; the health endpoint
      fails exactly when a check does; the log files hold what was written, in
      order, if no two rotations share a second.
    - HTTP: keys behave like entries of a map, but for those that are numbers:
      their deletion removes a node of the cluster instead.
    - MySQL: a transaction that commits finds the records it has read unchanged
      and writes at once; statements with plain words do what they say; LIKE reads
      the keys with a prefix; what is not isolated, dropped or panics.  A Stop of the
      server returns once the commands under way end and leaves nothing behind; a
      server started again serves nobody.
    - Client recipes: under the laws of etcd at most one owner holds a lock and at
      most one candidate leads, unless a failed Lock is tried again; against this
      server a Lock is never granted.
    - Encodings: round trips of records, revisions, operations and snapshots.
    - Behaviours that contradict the evident intent of the code are theorems
      about concrete runs (the last properties of each file).

    ** Bounds

    The recursions are structural but for the binary search of the key index: its
    loop has [S (length revs)] rounds, and [binarySearchRevision_spec] shows that
    they are enough, so it always returns.  The map order, the schedules and the
    number of goroutines are not bounded.  Restrictions of single theorems, each stated with the theorem: the
    Raft log is followed while appends do not shorten it; the MVCC stores
    while range deletions come last in a transaction and no deletion stands at or
    after the revision of a compaction, the persistent one also for transactions
    whose operations do not touch what they wrote and for restarts while each
    deletion has a live record before it; the persistent state machine on records
    below 4 GiB and leases its encoder keeps; files rotated without compression, at
    most once a second; Raft nodes for logs of fewer than
    [2 ^ 64 - 1] entries; authentication for names in UTF-8
    and a store with room for [authWrites] calls; SQL statements with keys and
    values of letters, digits and [-./:_].

    ** What is not modelled

    The ticker goroutines (their ticks are); opening, closing and statistics of
    the RocksDB library; the etcd Raft library, its transport and write-ahead log,
    and the timers of the nodes (what they answer is data); listening, the options
    handed to gRPC and the routing of [net/http]; the program entry, which wires
    the parts; what is logged, metrics and the pool of records, which nothing
    reads back; constructors and converters nothing calls; the memory monitor,
    the rate limiter of a library and the free space of disks; the code [protoc]
    generates. *)

From stdpp Require Export prelude gmap strings list sorting fin_maps.
From Stdlib Require Export Ascii ZArith Lia.

Global Open Scope Z_scope.

(** ** Machine integers

    Go's [int64], [uint64], [uint32] and [int32] are kept as [Z] with their
    two's-complement wrap-around written out. *)

Definition int64_max : Z := 2 ^ 63 - 1.
Definition int64_min : Z := - 2 ^ 63.

Definition wrap_u64 (z : Z) : Z := z mod 2 ^ 64.
Definition wrap_u32 (z : Z) : Z := z mod 2 ^ 32.
Definition wrap_i64 (z : Z) : Z := (z + 2 ^ 63) mod 2 ^ 64 - 2 ^ 63.
Definition wrap_i32 (z : Z) : Z := (z + 2 ^ 31) mod 2 ^ 32 - 2 ^ 31.

Definition is_i64 (z : Z) : Prop := int64_min <= z <= int64_max.
Definition is_u64 (z : Z) : Prop := 0 <= z < 2 ^ 64.

#[global] Instance is_i64_dec z : Decision (is_i64 z).
Proof. unfold is_i64. apply _. Defined.
#[global] Instance is_u64_dec z : Decision (is_u64 z).
Proof. unfold is_u64. apply _. Defined.

Ltac unfold_ints := unfold is_i64, is_u64, wrap_i64, wrap_u64, wrap_u32, wrap_i32,
  int64_min, int64_max in *.

Lemma wrap_i64_id z : is_i64 z -> wrap_i64 z = z.
Proof. unfold_ints. intros H. rewrite Z.mod_small; lia. Qed.

Lemma wrap_u64_id z : is_u64 z -> wrap_u64 z = z.
Proof. unfold_ints. intros H. apply Z.mod_small. lia. Qed.

Lemma wrap_i64_range z : is_i64 (wrap_i64 z).
Proof.
  unfold_ints. pose proof (Z.mod_pos_bound (z + 2 ^ 63) (2 ^ 64) ltac:(lia)). lia.
Qed.

(** Reading an [int64] back from its unsigned image. *)
Lemma wrap_i64_u64 z : is_i64 z -> wrap_i64 (wrap_u64 z) = z.
Proof.
  intros H. rewrite <- (wrap_i64_id z H) at 2. unfold_ints.
  by rewrite Zplus_mod_idemp_l.
Qed.

(** ** Fallible code: Go's [(value, error)] pairs *)

Inductive result (E A : Type) : Type :=
  | Ok (a : A)
  | Err (e : E).
Arguments Ok {E A} a.
Arguments Err {E A} e.

Declare Scope go_scope.
Delimit Scope go_scope with go.

(** [x, err := c; if err != nil { return err }; k] *)
Definition result_bind {E A B} (c : result E A) (k : A -> result E B) : result E B :=
  match c with Ok a => k a | Err e => Err e end.

Notation "x <-! c ; k" := (result_bind c (fun x => k))
  (at level 100, c at next level, right associativity) : go_scope.

(** [if b { return err }; k] *)
Notation "'fail_if' b 'with' e ; k" := (if b then Err e else k)
  (at level 100, b at next level, e at next level, right associativity) : go_scope.

(** ** Automation *)

Create HintDb metastore.
Create Rewrite HintDb metastore.
#[export] Hint Resolve wrap_i64_id wrap_u64_id wrap_i64_range : metastore.

(** Turns the boolean tests of the code into propositions [lia] understands. *)
Ltac bool_to_prop :=
  repeat match goal with
  | H : (_ && _) = true |- _ => apply andb_true_iff in H as [? ?]
  | H : (_ || _) = false |- _ => apply orb_false_iff in H as [? ?]
  | H : negb _ = true |- _ => apply negb_true_iff in H
  | H : negb _ = false |- _ => apply negb_false_iff in H
  | H : (_ <? _) = true |- _ => apply Z.ltb_lt in H
  | H : (_ <? _) = false |- _ => apply Z.ltb_ge in H
  | H : (_ <=? _) = true |- _ => apply Z.leb_le in H
  | H : (_ <=? _) = false |- _ => apply Z.leb_gt in H
  | H : (_ =? _) = true |- _ => apply Z.eqb_eq in H
  | H : (_ =? _) = false |- _ => apply Z.eqb_neq in H
  | H : (_ >? _) = _ |- _ => rewrite Z.gtb_ltb in H
  | H : (_ >=? _) = _ |- _ => rewrite Z.geb_leb in H
  end.

(** Splits on every [if]/[match] scrutinee left in the goal, keeping equations. *)
Ltac split_matches :=
  repeat (case_match; simplify_eq/=; try done).

(** ** Lists *)

(** Go's [for _, x := range xs { if !f(x) { break } }]: the callback threads a
    state and says whether the iteration goes on. *)
Fixpoint iter_while {A S} (f : S -> A -> S * bool) (s : S) (l : list A) : S :=
  match l with
  | [] => s
  | x :: l' => let '(s', continue) := f s x in if continue then iter_while f s' l' else s'
  end.

(** The last element satisfying a boolean test. *)
Fixpoint last_such {A} (p : A -> bool) (l : list A) : option A :=
  match l with
  | [] => None
  | x :: l' =>
      match last_such p l' with
      | Some y => Some y
      | None => if p x then Some x else None
      end
  end.

Lemma last_such_app {A} (p : A -> bool) (l1 l2 : list A) :
  last_such p (l1 ++ l2) =
    match last_such p l2 with Some y => Some y | None => last_such p l1 end.
Proof. induction l1 as [|x l1 IH]; simpl; [by destruct last_such|]. rewrite IH. by destruct (last_such p l2). Qed.

Lemma last_such_None {A} (p : A -> bool) (l : list A) :
  last_such p l = None <-> Forall (fun x => p x = false) l.
Proof.
  induction l as [|x l IH]; simpl; [done|]. rewrite Forall_cons, <- IH.
  destruct (last_such p l), (p x); split; try done; by intros [??].
Qed.

Lemma last_such_Some {A} (p : A -> bool) (l : list A) y :
  last_such p l = Some y -> y ∈ l /\ p y = true.
Proof.
  induction l as [|x l IH]; simpl; [done|].
  destruct (last_such p l) as [z|] eqn:E; intros; simplify_eq.
  - destruct (IH eq_refl). split; [by right|done].
  - destruct (p x) eqn:?; simplify_eq. split; [by left|done].
Qed.

Lemma last_such_ext {A} (p q : A -> bool) (l : list A) :
  (forall x, x ∈ l -> p x = q x) -> last_such p l = last_such q l.
Proof.
  induction l as [|x l IH]; simpl; intros H; [done|].
  rewrite IH by (intros; apply H; by right). rewrite (H x) by (by left). done.
Qed.


Lemma last_such_fmap {A B} (f : A -> B) (p : B -> bool) (l : list A) :
  last_such p (f <$> l) = f <$> last_such (fun x => p (f x)) l.
Proof.
  induction l as [|x l IH]; [done|]. cbn. change (list_fmap A B f l) with (f <$> l). rewrite IH.
  destruct (last_such _ l); [done|]. by destruct (p (f x)).
Qed.

Lemma last_such_filter {A} (p q : A -> bool) (l : list A) :
  last_such p (List.filter q l) = last_such (fun x => q x && p x) l.
Proof.
  induction l as [|x l IH]; simpl; [done|]. destruct (q x) eqn:E; simpl; rewrite IH; [done|].
  by destruct (last_such _ l).
Qed.

Lemma last_such_last {A} (q : A -> bool) (l : list A) : last (List.filter q l) = last_such q l.
Proof.
  induction l as [|x l IH] using rev_ind; simpl; [done|].
  rewrite List.filter_app, last_app, last_such_app. simpl. destruct (q x); simpl; [done|]. by rewrite IH.
Qed.

Lemma last_such_filter_id {A} (p q : A -> bool) (l : list A) :
  (forall x, p x = true -> q x = true) -> last_such p (List.filter q l) = last_such p l.
Proof.
  intros H. rewrite last_such_filter. apply last_such_ext. intros x _.
  destruct (p x) eqn:E; [by rewrite H|by destruct (q x)].
Qed.

(** In a strictly sorted list of keys the last hit of a downward-closed test
    does not see what is appended above it. *)
Lemma last_such_app_none {A} (p : A -> bool) (l1 l2 : list A) :
  Forall (fun x => p x = false) l2 -> last_such p (l1 ++ l2) = last_such p l1.
Proof. intros H%last_such_None. by rewrite last_such_app, H. Qed.

Lemma length_omap_le {A B} (f : A -> option B) (l : list A) : (length (omap f l) <= length l)%nat.
Proof.
  induction l as [|x l IH]; [done|]. cbn. change (list_omap A B f l) with (omap f l).
  destruct (f x); cbn; lia.
Qed.

Lemma iter_collect {A B} (f : A -> list B) (l : list A) acc :
  iter_while (fun acc x => (acc ++ f x, true)) acc l = acc ++ concat (f <$> l).
Proof.
  revert acc. induction l as [|x l IH]; intros acc; simpl; [by rewrite app_nil_r|].
  by rewrite IH, <- app_assoc.
Qed.

Lemma iter_while_ext_in {A S} (f g : S -> A -> S * bool) s0 (l : list A) :
  (forall s x, x ∈ l -> f s x = g s x) -> iter_while f s0 l = iter_while g s0 l.
Proof.
  revert s0. induction l as [|x l IH]; intros s0 H; simpl; [done|].
  rewrite H by set_solver. destruct (g s0 x) as [s1 []]; [|done]. apply IH. set_solver.
Qed.

Lemma iter_while_ext {A S} (f g : S -> A -> S * bool) s0 (l : list A) :
  (forall s x, f s x = g s x) -> iter_while f s0 l = iter_while g s0 l.
Proof. intros H. by apply iter_while_ext_in. Qed.

(** ** Sums over lists of processes *)

Fixpoint totalOf {A} (f : A -> Z) (l : list A) : Z := match l with [] => 0 | x :: l' => f x + totalOf f l' end.

Lemma totalOf_app {A} (f : A -> Z) l m : totalOf f (l ++ m) = totalOf f l + totalOf f m.
Proof. induction l as [|x l IH]; [done|]. cbn. rewrite IH. lia. Qed.

Lemma totalOf_insert {A} (f : A -> Z) l : forall i x y, l !! i = Some x -> totalOf f (<[i := y]> l) = totalOf f l - f x + f y.
Proof.
  induction l as [|z l IH]; intros [|i] x y Hi; simplify_eq/=; [lia|].
  change (f z + totalOf f (<[i := y]> l) = f z + totalOf f l - f x + f y). rewrite (IH i x y Hi). lia.
Qed.

Lemma totalOf_bounds {A} (f : A -> Z) l : (forall x, 0 <= f x <= 1) -> 0 <= totalOf f l <= Z.of_nat (length l).
Proof. intros Hf. induction l as [|x l IH]; cbn; [lia|]. specialize (Hf x). lia. Qed.

(** If a sum of summands that are not negative is 0 all of them are. *)
Lemma totalOf_zero {A} (f : A -> Z) l : (forall x, 0 <= f x) -> 0 <= totalOf f l /\ (totalOf f l = 0 -> Forall (fun x => f x = 0) l).
Proof.
  intros Hf. induction l as [|x l [IH0 IH]]; cbn; [done|]. specialize (Hf x). split; [lia|]. intros H. constructor; [lia|]. apply IH. lia.
Qed.

(** A filtered list keeps its order. *)
Lemma filter_sorted {A} (R : relation A) f (l : list A) :
  StronglySorted R l -> StronglySorted R (List.filter f l).
Proof.
  induction 1 as [|p l _ IH Hall]; simpl; [constructor|].
  destruct (f p); [|done]. constructor; [done|].
  apply Forall_forall. intros q Hq%list_elem_of_In%filter_In.
  rewrite Forall_forall in Hall. apply Hall, list_elem_of_In, Hq.
Qed.

Lemma elem_of_concat {A} (ls : list (list A)) (x : A) :
  x ∈ concat ls <-> exists l, x ∈ l /\ l ∈ ls.
Proof. setoid_rewrite list_elem_of_In. rewrite in_concat. naive_solver. Qed.

Lemma size_insert_le {A} (m : gmap string A) k v : (size (<[k := v]> m) <= Datatypes.S (size m))%nat.
Proof. rewrite map_size_insert. destruct (m !! k); simpl; lia. Qed.
