(* ===== verification/GoBytes.v ===== *)
(** * Byte strings

    A Go [string] and a Go [[]byte] are both a [string] here: a sequence of
    8-bit [ascii] codes compared bytewise.  This file has what the components
    use of Go's [bytes], [strings] and [encoding/binary] packages: the
    lexicographic order, slicing, prefix tests and the fixed-width big- and
    little-endian encodings. *)

From S2P Require Import Prelude.

#[local] Arguments String.append : simpl nomatch.

(** ** Lexicographic order ([bytes.Compare], [<] on strings) *)

Definition str_ltb (s t : string) : bool := String.ltb s t.
Definition str_leb (s t : string) : bool := String.leb s t.

Lemma str_leb_iff s t : str_leb s t = true <-> String.le s t.
Proof. unfold str_leb, String.le. by rewrite Is_true_true. Qed.

Lemma str_ltb_leb s t : str_ltb s t = negb (str_leb t s).
Proof.
  unfold str_ltb, str_leb, String.ltb, String.leb.
  rewrite (String.compare_antisym s t). by destruct (String.compare t s).
Qed.

Lemma str_leb_refl s : str_leb s s = true.
Proof. by apply str_leb_iff. Qed.

Lemma str_leb_trans s t u : str_leb s t = true -> str_leb t u = true -> str_leb s u = true.
Proof. rewrite !str_leb_iff. by intros; etrans. Qed.

Lemma str_leb_antisym s t : str_leb s t = true -> str_leb t s = true -> s = t.
Proof. rewrite !str_leb_iff. apply (anti_symm String.le). Qed.

Lemma str_leb_total s t : str_leb s t = true \/ str_leb t s = true.
Proof. rewrite !str_leb_iff. apply (total String.le). Qed.

Lemma str_ltb_irrefl s : str_ltb s s = false.
Proof. by rewrite str_ltb_leb, str_leb_refl. Qed.

Lemma str_ltb_trans s t u : str_ltb s t = true -> str_ltb t u = true -> str_ltb s u = true.
Proof.
  rewrite !str_ltb_leb, !negb_true_iff. intros H1 H2.
  destruct (str_leb u s) eqn:H3; [|done].
  destruct (str_leb_total s t) as [H4|H4]; [|congruence].
  rewrite (str_leb_trans u s t) in H2; congruence.
Qed.

Lemma str_ltb_total s t : str_ltb s t = false -> str_ltb t s = false -> s = t.
Proof.
  rewrite !str_ltb_leb, !negb_false_iff. intros. by apply str_leb_antisym.
Qed.

(** ** Slices *)

(** [s[:n]] and [s[n:]], for an [n] within bounds (the callers' guards). *)
Fixpoint str_take (n : nat) (s : string) : string :=
  match n, s with
  | O, _ => EmptyString
  | S m, EmptyString => EmptyString
  | S m, String a s' => String a (str_take m s')
  end.

Fixpoint str_drop (n : nat) (s : string) : string :=
  match n, s with
  | O, _ => s
  | S m, EmptyString => EmptyString
  | S m, String a s' => str_drop m s'
  end.

(** [len(s)] *)
Definition str_len (s : string) : Z := Z.of_nat (String.length s).

Lemma str_len_nonneg s : 0 <= str_len s.
Proof. unfold str_len. lia. Qed.

(** [s[i]], [None] when Go panics *)
Definition str_at (i : nat) (s : string) : option ascii := String.get i s.

(** [bytes.HasPrefix] / [strings.HasPrefix] *)
Definition has_prefix (p s : string) : bool := String.prefix p s.

Lemma str_length_app s t : String.length (s +:+ t) = (String.length s + String.length t)%nat.
Proof. induction s as [|a s IH]; simpl; [done|]. by rewrite IH. Qed.

Lemma str_len_app s t : str_len (s +:+ t) = str_len s + str_len t.
Proof. unfold str_len. rewrite str_length_app. lia. Qed.

Lemma str_app_nil_r s : s +:+ "" = s.
Proof. induction s as [|a s IH]; simpl; [done|]. by rewrite IH. Qed.

Lemma str_app_assoc s t u : (s +:+ t) +:+ u = s +:+ (t +:+ u).
Proof. induction s as [|a s IH]; simpl; [done|]. by rewrite IH. Qed.

Lemma str_take_app s t : str_take (String.length s) (s +:+ t) = s.
Proof. induction s as [|a s IH]; simpl; [done|]. by rewrite IH. Qed.

Lemma str_drop_app s t : str_drop (String.length s) (s +:+ t) = t.
Proof. by induction s. Qed.

Lemma str_take_app_n n s t : String.length s = n -> str_take n (s +:+ t) = s.
Proof. intros <-. apply str_take_app. Qed.

Lemma str_drop_app_n n s t : String.length s = n -> str_drop n (s +:+ t) = t.
Proof. intros <-. apply str_drop_app. Qed.

Lemma str_take_all n s : String.length s = n -> str_take n s = s.
Proof. intros <-. rewrite <- (str_app_nil_r s) at 2. apply str_take_app. Qed.

Lemma str_take_drop n s : str_take n s +:+ str_drop n s = s.
Proof.
  revert s. induction n as [|n IH]; intros [|a s]; simpl; try done. by rewrite IH.
Qed.

Lemma str_drop_drop n m s : str_drop n (str_drop m s) = str_drop (m + n) s.
Proof.
  revert s. induction m as [|m IH]; intros [|a s]; simpl; try done. by destruct n.
Qed.

Lemma str_take_length n s : (n <= String.length s)%nat -> String.length (str_take n s) = n.
Proof.
  revert s. induction n as [|n IH]; intros [|a s]; simpl; try lia.
  intros. rewrite IH; lia.
Qed.

Lemma str_drop_length n s : String.length (str_drop n s) = (String.length s - n)%nat.
Proof. revert s. induction n as [|n IH]; intros [|a s]; simpl; try done. Qed.

Lemma has_prefix_app p s : has_prefix p (p +:+ s) = true.
Proof.
  unfold has_prefix. induction p as [|a p IH]; simpl; [by destruct s|].
  destruct (ascii_dec a a); done.
Qed.

Lemma str_app_inj_l s1 s2 t1 t2 :
  String.length s1 = String.length s2 -> s1 +:+ t1 = s2 +:+ t2 -> s1 = s2 /\ t1 = t2.
Proof.
  revert s2. induction s1 as [|a s1 IH]; intros [|b s2]; simpl; try lia; [done|].
  intros Hl Heq. injection Heq as -> Heq. injection Hl as Hl.
  destruct (IH _ Hl Heq). by subst.
Qed.

#[export] Hint Rewrite str_len_app str_length_app str_take_app str_drop_app : metastore.

(** ** Fixed-width encodings ([encoding/binary]) *)

Definition byte_val (a : ascii) : Z := Z.of_N (N_of_ascii a).
Definition byte_of (z : Z) : ascii := ascii_of_N (Z.to_N (z mod 256)).

(** [BigEndian.PutUint32]/[PutUint64] with [n] = 4 or 8 *)
Fixpoint put_be (n : nat) (z : Z) : string :=
  match n with
  | O => EmptyString
  | S m => String (byte_of (Z.shiftr z (8 * Z.of_nat m))) (put_be m z)
  end.

Fixpoint get_be_acc (acc : Z) (s : string) : Z :=
  match s with
  | EmptyString => acc
  | String a s' => get_be_acc (Z.shiftl acc 8 + byte_val a) s'
  end.

(** [BigEndian.Uint32]/[Uint64] of exactly the bytes of [s] *)
Definition get_be (s : string) : Z := get_be_acc 0 s.

(** [LittleEndian.PutUint32]/[PutUint64] *)
Fixpoint put_le (n : nat) (z : Z) : string :=
  match n with
  | O => EmptyString
  | S m => String (byte_of z) (put_le m (Z.shiftr z 8))
  end.

Fixpoint get_le (s : string) : Z :=
  match s with
  | EmptyString => 0
  | String a s' => byte_val a + Z.shiftl (get_le s') 8
  end.

Lemma byte_val_range a : 0 <= byte_val a < 256.
Proof. unfold byte_val. pose proof (N_ascii_bounded a). lia. Qed.

Lemma byte_val_of z : byte_val (byte_of z) = z mod 256.
Proof.
  unfold byte_val, byte_of. pose proof (Z.mod_pos_bound z 256 ltac:(lia)).
  rewrite N_ascii_embedding by lia. lia.
Qed.

Lemma byte_of_mod z : byte_of (z mod 256) = byte_of z.
Proof. unfold byte_of. by rewrite Z.mod_mod by lia. Qed.

Lemma byte_of_val a : byte_of (byte_val a) = a.
Proof.
  unfold byte_of. rewrite Z.mod_small by apply byte_val_range.
  unfold byte_val. by rewrite N2Z.id, ascii_N_embedding.
Qed.

Lemma put_be_length n z : String.length (put_be n z) = n.
Proof. revert z. induction n as [|n IH]; intros; simpl; [done|]. by rewrite IH. Qed.

Lemma put_le_length n z : String.length (put_le n z) = n.
Proof. revert z. induction n as [|n IH]; intros; simpl; [done|]. by rewrite IH. Qed.

#[export] Hint Rewrite put_be_length put_le_length : metastore.

Lemma pow256_succ m : 2 ^ (8 * Z.of_nat (S m)) = 2 ^ (8 * Z.of_nat m) * 256.
Proof.
  replace (8 * Z.of_nat (S m)) with (8 * Z.of_nat m + 8) by lia.
  rewrite Z.pow_add_r by lia. done.
Qed.

Lemma pow256_pos m : 0 < 2 ^ (8 * Z.of_nat m).
Proof. apply Z.pow_pos_nonneg; lia. Qed.

Lemma get_be_acc_put_be n acc z :
  get_be_acc acc (put_be n z) = acc * 2 ^ (8 * Z.of_nat n) + z mod 2 ^ (8 * Z.of_nat n).
Proof.
  revert acc. induction n as [|n IH]; intros acc.
  - cbn. rewrite Z.mod_1_r. lia.
  - cbn [put_be get_be_acc]. rewrite IH, byte_val_of, pow256_succ.
    pose proof (pow256_pos n).
    rewrite Z.rem_mul_r by lia. rewrite Z.shiftr_div_pow2, Z.shiftl_mul_pow2 by lia.
    change (2 ^ 8) with 256. lia.
Qed.

Lemma get_put_be n z : get_be (put_be n z) = z mod 2 ^ (8 * Z.of_nat n).
Proof. unfold get_be. rewrite get_be_acc_put_be. lia. Qed.

Lemma get_put_le n z : get_le (put_le n z) = z mod 2 ^ (8 * Z.of_nat n).
Proof.
  revert z. induction n as [|n IH]; intros z; [by rewrite Z.mod_1_r|].
  cbn [put_le get_le]. rewrite IH, byte_val_of, pow256_succ.
  pose proof (pow256_pos n).
  rewrite (Z.mul_comm _ 256), (Z.rem_mul_r z 256) by lia.
  rewrite Z.shiftr_div_pow2, Z.shiftl_mul_pow2 by lia. change (2 ^ 8) with 256. lia.
Qed.

Lemma put_be_mod n z : put_be n (z mod 2 ^ (8 * Z.of_nat n)) = put_be n z.
Proof.
  enough (H : forall k, (n <= k)%nat -> put_be n (z mod 2 ^ (8 * Z.of_nat k)) = put_be n z)
    by (by apply H).
  induction n as [|n IH]; intros k Hk; simpl; [done|].
  rewrite IH by lia. f_equal.
  unfold byte_of. do 2 f_equal.
  rewrite !Z.shiftr_div_pow2 by lia.
  replace k with (n + 1 + (k - n - 1))%nat by lia.
  rewrite (Z.mod_eq z) by (pose proof (pow256_pos (n + 1 + (k - n - 1))); lia).
  set (q := z / _).
  replace (2 ^ (8 * Z.of_nat (n + 1 + (k - n - 1))))
    with (2 ^ (8 * Z.of_nat n) * (256 * 2 ^ (8 * Z.of_nat (k - n - 1)))).
  2:{ change 256 with (2 ^ 8). rewrite <- !Z.pow_add_r by lia. f_equal. lia. }
  pose proof (pow256_pos n).
  replace (z - 2 ^ (8 * Z.of_nat n) * (256 * 2 ^ (8 * Z.of_nat (k - n - 1))) * q)
    with (z + (- (256 * 2 ^ (8 * Z.of_nat (k - n - 1)) * q)) * 2 ^ (8 * Z.of_nat n)) by lia.
  rewrite Z.div_add by lia.
  replace (- (256 * 2 ^ (8 * Z.of_nat (k - n - 1)) * q))
    with ((- (2 ^ (8 * Z.of_nat (k - n - 1)) * q)) * 256) by lia.
  by rewrite Z.mod_add by lia.
Qed.

(** Encoding what was decoded gives the bytes back. *)
Lemma get_be_acc_bound acc s :
  get_be_acc acc s = acc * 2 ^ (8 * Z.of_nat (String.length s)) + get_be s
  /\ 0 <= get_be s < 2 ^ (8 * Z.of_nat (String.length s)).
Proof.
  revert acc. induction s as [|a s IH]; intros acc; [unfold get_be; cbn; lia|].
  cbn [get_be_acc String.length]. rewrite pow256_succ.
  destruct (IH (Z.shiftl acc 8 + byte_val a)) as [-> Hb].
  unfold get_be. cbn [get_be_acc]. destruct (IH (Z.shiftl 0 8 + byte_val a)) as [-> _].
  rewrite !Z.shiftl_mul_pow2 by lia. pose proof (byte_val_range a).
  pose proof (pow256_pos (String.length s)). change (2 ^ 8) with 256. fold (get_be s). split; [ring|nia].
Qed.

Lemma put_get_be s : put_be (String.length s) (get_be s) = s.
Proof.
  induction s as [|a s IH]; [done|].
  unfold get_be. cbn [get_be_acc String.length put_be].
  destruct (get_be_acc_bound (Z.shiftl 0 8 + byte_val a) s) as [-> Hb].
  change (Z.shiftl 0 8) with 0. rewrite Z.add_0_l.
  pose proof (pow256_pos (String.length s)). f_equal.
  - rewrite Z.shiftr_div_pow2, Z.div_add_l, (Z.div_small (get_be s)) by lia.
    rewrite Z.add_0_r. apply byte_of_val.
  - rewrite <- put_be_mod, Z.add_comm, Z.mod_add, Z.mod_small by lia. done.
Qed.

(** Round trip of an [int64] through its unsigned big-endian image. *)
Lemma be_i64_roundtrip z : is_i64 z -> wrap_i64 (get_be (put_be 8 (wrap_u64 z))) = z.
Proof.
  intros H. rewrite get_put_be. change (8 * Z.of_nat 8) with 64.
  rewrite Z.mod_small; [by apply wrap_i64_u64|].
  unfold wrap_u64. apply Z.mod_pos_bound. lia.
Qed.

Lemma le_i64_roundtrip z : is_i64 z -> wrap_i64 (get_le (put_le 8 (wrap_u64 z))) = z.
Proof.
  intros H. rewrite get_put_le. change (8 * Z.of_nat 8) with 64.
  rewrite Z.mod_small; [by apply wrap_i64_u64|].
  unfold wrap_u64. apply Z.mod_pos_bound. lia.
Qed.

(** ** Big-endian encoding preserves the order of unsigned integers *)

Lemma ascii_compare_val a b : Ascii.compare a b = Z.compare (byte_val a) (byte_val b).
Proof. unfold Ascii.compare, byte_val. by rewrite N2Z.inj_compare. Qed.

Lemma str_compare_app s1 s2 t1 t2 :
  String.length s1 = String.length s2 ->
  String.compare (s1 +:+ t1) (s2 +:+ t2) =
    match String.compare s1 s2 with Eq => String.compare t1 t2 | c => c end.
Proof.
  revert s2. induction s1 as [|a s1 IH]; intros [|b s2]; simpl; try lia; [done|].
  intros [= Hl]. rewrite IH by done. by destruct (Ascii.compare a b).
Qed.

Lemma put_be_compare n a b :
  0 <= a < 2 ^ (8 * Z.of_nat n) -> 0 <= b < 2 ^ (8 * Z.of_nat n) ->
  String.compare (put_be n a) (put_be n b) = Z.compare a b.
Proof.
  revert a b. induction n as [|n IH]; intros a b Ha Hb.
  - cbn in *. replace a with 0 by lia. by replace b with 0 by lia.
  - rewrite pow256_succ in Ha, Hb. pose proof (pow256_pos n) as Hp.
    cbn [put_be String.compare]. rewrite ascii_compare_val, !byte_val_of.
    rewrite !Z.shiftr_div_pow2 by lia.
    set (p := 2 ^ (8 * Z.of_nat n)) in *.
    rewrite !(Z.mod_small (_ / p)) by
      (split; [apply Z.div_pos; lia | apply Z.div_lt_upper_bound; lia]).
    rewrite <- (put_be_mod n a), <- (put_be_mod n b). fold p.
    rewrite IH by (apply Z.mod_pos_bound; lia).
    pose proof (Z.div_mod a p ltac:(lia)). pose proof (Z.div_mod b p ltac:(lia)).
    pose proof (Z.mod_pos_bound a p Hp). pose proof (Z.mod_pos_bound b p Hp).
    set (qa := a / p) in *. set (qb := b / p) in *.
    destruct (Z.compare_spec qa qb) as [E|E|E].
    + destruct (Z.compare_spec (a mod p) (b mod p)), (Z.compare_spec a b); try done; nia.
    + symmetry. apply Z.compare_lt_iff. nia.
    + symmetry. apply Z.compare_gt_iff. nia.
Qed.

(** ** Common prefixes *)

Lemma ascii_compare_refl c : Ascii.compare c c = Eq.
Proof. apply N.compare_refl. Qed.

Lemma str_compare_prefix (p s t : string) : String.compare (p +:+ s) (p +:+ t) = String.compare s t.
Proof. induction p as [|c p IH]; [done|]. simpl. by rewrite ascii_compare_refl. Qed.

Lemma str_leb_prefix (p s : string) : str_leb p (p +:+ s) = true.
Proof.
  induction p as [|c p IH]; [by destruct s|]. unfold str_leb, String.leb in *.
  simpl. by rewrite ascii_compare_refl.
Qed.

#[global] Arguments str_take : simpl never.
#[global] Arguments str_drop : simpl never.
#[global] Arguments put_be : simpl never.
#[global] Arguments put_le : simpl never.
#[global] Arguments get_be : simpl never.
#[global] Arguments get_le : simpl never.
