(* ===== verification/GoStrings.v ===== *)
(** * The functions of Go's [strings] and [unicode/utf8] that the SQL front end uses

    Strings are byte strings that need not be UTF-8.  The case tables of Unicode
    are the class [UnicodeCase]; its laws fix them on ASCII. *)

From S2P Require Import Prelude GoBytes.

(** ** UTF-8 ([unicode/utf8]) *)

Definition RuneError : Z := 65533.

(** The payload of byte [i] if it lies in the range. *)
Definition contByte (lo hi : Z) (i : nat) (s : string) : option Z :=
  c ← str_at i s;
  let b := byte_val c in if (lo <=? b) && (b <=? hi) then Some (b - 128) else None.

(** [DecodeRuneInString]: the rune and its width; [(RuneError, 1)] for bytes that
    are not the shortest encoding of a scalar value. *)
Definition decodeRune (s : string) : Z * nat :=
  match s with
  | EmptyString => (RuneError, 0%nat)
  | String c _ =>
      let b := byte_val c in
      if b <? 128 then (b, 1%nat)
      else
        default (RuneError, 1%nat)
          (if (194 <=? b) && (b <=? 223) then
             x ← contByte 128 191 1 s; Some ((b - 192) * 64 + x, 2%nat)
           else if (224 <=? b) && (b <=? 239) then
             x ← contByte (if b =? 224 then 160 else 128) (if b =? 237 then 159 else 191) 1 s;
             y ← contByte 128 191 2 s; Some ((b - 224) * 4096 + x * 64 + y, 3%nat)
           else if (240 <=? b) && (b <=? 244) then
             x ← contByte (if b =? 240 then 144 else 128) (if b =? 244 then 143 else 191) 1 s;
             y ← contByte 128 191 2 s; z ← contByte 128 191 3 s;
             Some ((b - 240) * 262144 + x * 4096 + y * 64 + z, 4%nat)
           else None)
  end.

Definition bytes_of (zs : list Z) : string := foldr (fun z s => String (byte_of z) s) "" zs.

Definition encodeRune (r : Z) : string :=
  if (r <? 0) || (1114111 <? r) || (55296 <=? r) && (r <=? 57343) then bytes_of [239; 191; 189]
  else if r <? 128 then bytes_of [r]
  else if r <? 2048 then bytes_of [192 + r / 64; 128 + r mod 64]
  else if r <? 65536 then bytes_of [224 + r / 4096; 128 + r / 64 mod 64; 128 + r mod 64]
  else bytes_of [240 + r / 262144; 128 + r / 4096 mod 64; 128 + r / 64 mod 64; 128 + r mod 64].

(** ** Case *)

Class UnicodeCase := { unicode_ToUpper : Z -> Z; unicode_ToLower : Z -> Z }.

Class UnicodeCaseLaws `{!UnicodeCase} : Prop := {
  ascii_upper r : 0 <= r < 128 -> unicode_ToUpper r = if (97 <=? r) && (r <=? 122) then r - 32 else r;
  ascii_lower r : 0 <= r < 128 -> unicode_ToLower r = if (65 <=? r) && (r <=? 90) then r + 32 else r;
}.

(** [strings.Map]: bytes that are no rune become [RuneError], negative runes go.
    [skip] counts the bytes of the last rune still to pass. *)
Fixpoint goMap (f : Z -> Z) (skip : nat) (s : string) : string :=
  match s with
  | EmptyString => ""
  | String _ s' =>
      match skip with
      | S skip' => goMap f skip' s'
      | O =>
          let '(r, width) := decodeRune s in
          (if f r <? 0 then "" else encodeRune (f r)) +:+ goMap f (width - 1) s'
      end
  end.

(** The loops over ASCII strings of [ToUpper] and [ToLower] do the same. *)
Definition ToUpper `{!UnicodeCase} (s : string) : string := goMap unicode_ToUpper 0 s.
Definition ToLower `{!UnicodeCase} (s : string) : string := goMap unicode_ToLower 0 s.

(** ** Searching and slicing *)

(** [strings.Index]; [None] is -1.  The substrings are not empty. *)
Definition Index (s sub : string) : option nat := String.index 0 sub s.
Definition Contains (s sub : string) : bool := match Index s sub with Some _ => true | None => false end.

(** [s[i:j]] and [s[i:]]; [None] is the panic of an index out of range. *)
Definition slice (i j : nat) (s : string) : option string :=
  if (i <=? j)%nat && (j <=? String.length s)%nat then Some (str_take (j - i) (str_drop i s)) else None.
Definition sliceFrom (i : nat) (s : string) : option string := slice i (String.length s) s.

(** [strings.Split] at one byte *)
Fixpoint Split (s : string) (c : ascii) : list string :=
  match s with
  | EmptyString => [""]
  | String d s' =>
      match Split s' c with
      | part :: parts => if Ascii.eqb d c then "" :: part :: parts else String d part :: parts
      | [] => []
      end
  end.

(** ** Trimming *)

Fixpoint str_rev (s : string) : string :=
  match s with EmptyString => "" | String c s' => str_rev s' +:+ String c "" end.

(** Removes patterns at the front as long as one is there. *)
Fixpoint strip (pats : list string) (skip : nat) (s : string) : string :=
  match s with
  | EmptyString => ""
  | String _ s' =>
      match skip with
      | S skip' => strip pats skip' s'
      | O =>
          match List.find (fun p => has_prefix p s) pats with
          | Some p => strip pats (String.length p - 1) s'
          | None => s
          end
      end
  end.

(** The runes of [unicode.IsSpace], encoded. *)
Definition spaces : list string :=
  encodeRune <$> [9; 10; 11; 12; 13; 32; 133; 160; 5760; 8192; 8193; 8194; 8195; 8196; 8197; 8198; 8199; 8200; 8201;
                  8202; 8232; 8233; 8239; 8287; 12288].

(** A space at the end is found by its whole encoding, which no other rune's
    encoding ends with. *)
Definition TrimSpace (s : string) : string :=
  str_rev (strip (str_rev <$> spaces) 0 (str_rev (strip spaces 0 s))).

(** [strings.TrimRight] with a cutset of ASCII bytes, given as strings *)
Definition TrimRight (s : string) (cutset : list string) : string := str_rev (strip cutset 0 (str_rev s)).

(** ** ASCII strings *)

Fixpoint all_bytes (p : ascii -> bool) (s : string) : bool :=
  match s with EmptyString => true | String c s' => p c && all_bytes p s' end.

Definition isAscii (c : ascii) : bool := byte_val c <? 128.
Definition isNot (c d : ascii) : bool := negb (Ascii.eqb c d).

Fixpoint str_map (f : ascii -> ascii) (s : string) : string :=
  match s with EmptyString => "" | String c s' => String (f c) (str_map f s') end.

Definition upperByte (c : ascii) : ascii :=
  let b := byte_val c in byte_of (if (97 <=? b) && (b <=? 122) then b - 32 else b).

Lemma all_bytes_app p s t : all_bytes p (s +:+ t) = all_bytes p s && all_bytes p t.
Proof. induction s as [|c s IH]; [done|]. simpl. by rewrite IH, andb_assoc. Qed.

Lemma all_bytes_cons p c s : all_bytes p (String c s) = p c && all_bytes p s.
Proof. done. Qed.

Lemma all_bytes_impl (p q : ascii -> bool) s :
  (forall c, p c = true -> q c = true) -> all_bytes p s = true -> all_bytes q s = true.
Proof.
  intros Hpq. induction s as [|c s IH]; [done|]. rewrite !all_bytes_cons. intros [Hc Hs]%andb_true_iff.
  by rewrite (Hpq c Hc), IH.
Qed.

Lemma all_bytes_map p f s : all_bytes p (str_map f s) = all_bytes (fun c => p (f c)) s.
Proof. induction s as [|c s IH]; [done|]. simpl. by rewrite IH. Qed.

Lemma str_map_app f s t : str_map f (s +:+ t) = str_map f s +:+ str_map f t.
Proof. induction s as [|c s IH]; [done|]. simpl. by rewrite IH. Qed.

Lemma str_map_length f s : String.length (str_map f s) = String.length s.
Proof. induction s as [|c s IH]; [done|]. simpl. by rewrite IH. Qed.

Lemma encodeRune_ascii r : 0 <= r < 128 -> encodeRune r = String (byte_of r) "".
Proof.
  intros Hr. unfold encodeRune. destruct (Z.ltb_spec r 0); [lia|]. destruct (Z.ltb_spec 1114111 r); [lia|].
  destruct (Z.leb_spec 55296 r); [lia|]. simpl. by destruct (Z.ltb_spec r 128); [|lia].
Qed.

Lemma decodeRune_ascii c s : isAscii c = true -> decodeRune (String c s) = (byte_val c, 1%nat).
Proof. unfold isAscii, decodeRune. intros ->. done. Qed.

(** A mapping of runes that stays in ASCII works byte by byte. *)
Lemma goMap_app f (g : ascii -> ascii) s t :
  (forall c, isAscii c = true -> 0 <= f (byte_val c) < 128 /\ byte_of (f (byte_val c)) = g c) ->
  all_bytes isAscii s = true -> goMap f 0 (s +:+ t) = str_map g s +:+ goMap f 0 t.
Proof.
  intros Hf. induction s as [|c s IH]; [done|]. rewrite all_bytes_cons. intros [Hc Hs]%andb_true_iff.
  change (String c s +:+ t) with (String c (s +:+ t)). cbn [goMap str_map]. rewrite decodeRune_ascii by done. cbn [Nat.sub].
  rewrite (IH Hs). destruct (Hf c Hc) as [Hr Hg]. destruct (Z.ltb_spec (f (byte_val c)) 0); [lia|].
  by rewrite encodeRune_ascii, Hg by lia.
Qed.

Definition lowerByte (c : ascii) : ascii :=
  let b := byte_val c in byte_of (if (65 <=? b) && (b <=? 90) then b + 32 else b).

Section case.
Context `{!UnicodeCase, !UnicodeCaseLaws}.

Lemma ToUpper_app s t : all_bytes isAscii s = true -> ToUpper (s +:+ t) = str_map upperByte s +:+ ToUpper t.
Proof.
  apply goMap_app. intros c Hc%Z.ltb_lt. pose proof (byte_val_range c) as Hr. rewrite ascii_upper by lia. unfold upperByte.
  destruct ((97 <=? byte_val c) && (byte_val c <=? 122)) eqn:E; [|split; [lia|done]].
  apply andb_true_iff in E as [E1%Z.leb_le E2%Z.leb_le]. split; [lia|done].
Qed.

Lemma ToLower_app s t : all_bytes isAscii s = true -> ToLower (s +:+ t) = str_map lowerByte s +:+ ToLower t.
Proof.
  apply goMap_app. intros c Hc%Z.ltb_lt. pose proof (byte_val_range c) as Hr. rewrite ascii_lower by lia. unfold lowerByte.
  destruct ((65 <=? byte_val c) && (byte_val c <=? 90)) eqn:E; [|split; [lia|done]].
  apply andb_true_iff in E as [E1%Z.leb_le E2%Z.leb_le]. split; [lia|done].
Qed.

Lemma ToUpper_ascii s : all_bytes isAscii s = true -> ToUpper s = str_map upperByte s.
Proof. intros Hs. pose proof (ToUpper_app s "" Hs) as E. by rewrite !str_app_nil_r in E. Qed.

Lemma ToLower_ascii s : all_bytes isAscii s = true -> ToLower s = str_map lowerByte s.
Proof. intros Hs. pose proof (ToLower_app s "" Hs) as E. by rewrite !str_app_nil_r in E. Qed.

End case.

(** ** Searching for a byte that is or is not there *)

Lemma prefix_missing c sub s : all_bytes (isNot c) sub = false -> all_bytes (isNot c) s = true -> String.prefix sub s = false.
Proof.
  revert s. induction sub as [|d sub IH]; intros [|e s] Hsub Hs; try done.
  rewrite all_bytes_cons in *. apply andb_true_iff in Hs as [He Hs]. simpl.
  destruct (Ascii.ascii_dec d e) as [->|]; [|done]. apply IH; [|done]. by rewrite He in Hsub.
Qed.

Lemma Index_missing c sub s : all_bytes (isNot c) sub = false -> all_bytes (isNot c) s = true -> Index s sub = None.
Proof.
  unfold Index. intros Hsub. induction s as [|d s IH]; intros Hs.
  - destruct sub as [|e sub]; [done|]. done.
  - cbn [String.index]. rewrite (prefix_missing c) by done. rewrite all_bytes_cons in Hs.
    apply andb_true_iff in Hs as [_ Hs]. by rewrite (IH Hs).
Qed.

Lemma Index_byte c s t : all_bytes (isNot c) s = true -> Index (s +:+ String c t) (String c "") = Some (String.length s).
Proof.
  unfold Index. induction s as [|d s IH].
  - intros _. change ("" +:+ String c t) with (String c t). simpl. by destruct (Ascii.ascii_dec c c); destruct t.
  - rewrite all_bytes_cons. intros [Hd Hs]%andb_true_iff. specialize (IH Hs).
    change (String d s +:+ String c t) with (String d (s +:+ String c t)). cbn [String.index String.length]. rewrite IH.
    unfold isNot in Hd. simpl. destruct (Ascii.ascii_dec c d) as [->|]; [by rewrite Ascii.eqb_refl in Hd|done].
Qed.

Lemma Split_none s c : all_bytes (isNot c) s = true -> Split s c = [s].
Proof.
  induction s as [|d s IH]; [done|]. rewrite all_bytes_cons. intros [Hd Hs]%andb_true_iff. simpl. rewrite (IH Hs).
  unfold isNot in Hd. rewrite Ascii.eqb_sym. by destruct (Ascii.eqb c d).
Qed.

Lemma Split_nonempty s c : exists part parts, Split s c = part :: parts.
Proof.
  induction s as [|d s (part & parts & IH)]; simpl; [by eexists _, _|]. rewrite IH. destruct (Ascii.eqb d c); by eexists _, _.
Qed.

Lemma Split_app s c t : all_bytes (isNot c) s = true -> Split (s +:+ String c t) c = s :: Split t c.
Proof.
  induction s as [|d s IH].
  - intros _. change ("" +:+ String c t) with (String c t). cbn [Split]. rewrite Ascii.eqb_refl.
    by destruct (Split_nonempty t c) as (part & parts & ->).
  - rewrite all_bytes_cons. intros [Hd Hs]%andb_true_iff.
    change (String d s +:+ String c t) with (String d (s +:+ String c t)). cbn [Split]. rewrite (IH Hs).
    unfold isNot in Hd. rewrite Ascii.eqb_sym. by destruct (Ascii.eqb c d).
Qed.

(** ** Slices at known lengths *)

Lemma slice_mid a b c : slice (String.length a) (String.length a + String.length b) (a +:+ b +:+ c) = Some b.
Proof.
  unfold slice. rewrite !str_length_app.
  replace (String.length a <=? String.length a + String.length b)%nat with true by (symmetry; apply Nat.leb_le; lia).
  replace (String.length a + String.length b <=? String.length a + (String.length b + String.length c))%nat
    with true by (symmetry; apply Nat.leb_le; lia).
  cbn [andb]. rewrite str_drop_app. f_equal. apply str_take_app_n. lia.
Qed.

Lemma sliceFrom_app a b : sliceFrom (String.length a) (a +:+ b) = Some b.
Proof.
  unfold sliceFrom. rewrite str_length_app. rewrite <- (str_app_nil_r b) at 2. apply slice_mid.
Qed.

(** ** Trimming what is framed *)

Lemma str_rev_app s t : str_rev (s +:+ t) = str_rev t +:+ str_rev s.
Proof. induction s as [|c s IH]; simpl; [by rewrite str_app_nil_r|]. by rewrite IH, str_app_assoc. Qed.

Lemma str_rev_involutive s : str_rev (str_rev s) = s.
Proof. induction s as [|c s IH]; [done|]. simpl. by rewrite str_rev_app, IH. Qed.

Definition startsWith (c : ascii) (p : string) : bool :=
  match p with EmptyString => true | String d _ => Ascii.eqb c d end.

Lemma strip_none pats c s : existsb (startsWith c) pats = false -> strip pats 0 (String c s) = String c s.
Proof.
  intros Hn. cbn [strip]. destruct (List.find _ pats) as [p|] eqn:E; [|done].
  apply List.find_some in E as [Hin Hp]. assert (existsb (startsWith c) pats = true); [|congruence].
  apply existsb_exists. exists p. split; [done|]. destruct p as [|d p]; [done|]. cbn in *.
  destruct (Ascii.ascii_dec d c) as [->|]; [by rewrite Ascii.eqb_refl|done].
Qed.

(** No space starts with the first byte or ends with the last one. *)
Definition frames (c d : ascii) : bool := negb (existsb (startsWith c) spaces) && negb (existsb (startsWith d) (str_rev <$> spaces)).

Lemma strip_rev pats s d : existsb (startsWith d) pats = false ->
  str_rev (strip pats 0 (str_rev (s +:+ String d ""))) = s +:+ String d "".
Proof.
  intros Hd. rewrite str_rev_app. change (str_rev (String d "") +:+ str_rev s) with (String d (str_rev s)).
  rewrite strip_none by done. cbn [str_rev]. by rewrite str_rev_involutive.
Qed.

Lemma TrimSpace_framed c s d : frames c d = true -> TrimSpace (String c (s +:+ String d "")) = String c (s +:+ String d "").
Proof.
  intros [Hc%negb_true_iff Hd%negb_true_iff]%andb_true_iff. unfold TrimSpace. rewrite strip_none by done.
  change (String c (s +:+ String d "")) with (String c s +:+ String d ""). by apply strip_rev.
Qed.

(** [s] ends with no byte of the cutset. *)
Lemma TrimRight_keep s c cutset : existsb (startsWith c) cutset = false -> TrimRight (s +:+ String c "") cutset = s +:+ String c "".
Proof. apply strip_rev. Qed.

Lemma TrimSpace_lead s : TrimSpace (String " " s) = TrimSpace s.
Proof.
  unfold TrimSpace. do 3 f_equal. cbn [strip].
  by replace (List.find (fun p => has_prefix p (String " " s)) spaces) with (Some " ") by (destruct s; vm_compute; reflexivity).
Qed.
