(* ===== verification/Revision.v ===== *)
(** * MVCC revisions ([internal/mvcc/revision.go])

    A revision is a pair of a main number, bumped once per transaction, and a
    sub number, bumped per operation of a transaction.  Both are [int64]. *)

From S2P Require Import Prelude GoBytes.

Record Revision := mkRevision { Main : Z; Sub : Z }.

#[global] Instance Revision_eq_dec : EqDecision Revision.
Proof. solve_decision. Defined.
#[global] Instance Revision_inhabited : Inhabited Revision := populate (mkRevision 0 0).

Definition RevisionSize : Z := 16.

Definition Zero : Revision := mkRevision 0 0.

(** ** Comparison *)

Definition Compare (r other : Revision) : Z :=
  if Main r <? Main other then -1
  else if Main r >? Main other then 1
  else if Sub r <? Sub other then -1
  else if Sub r >? Sub other then 1
  else 0.

Definition GreaterThan (r other : Revision) : bool := Compare r other >? 0.
Definition GreaterThanOrEqual (r other : Revision) : bool := Compare r other >=? 0.
Definition LessThan (r other : Revision) : bool := Compare r other <? 0.
Definition LessThanOrEqual (r other : Revision) : bool := Compare r other <=? 0.
Definition IsZero (r : Revision) : bool := (Main r =? 0) && (Sub r =? 0).

(** ** Encoding *)

Definition Bytes (r : Revision) : string :=
  put_be 8 (wrap_u64 (Main r)) +:+ put_be 8 (wrap_u64 (Sub r)).

(** [EncodeTo] overwrites the first 16 bytes of the buffer; [None] is the panic
    on a buffer that is too short. *)
Definition EncodeTo (r : Revision) (buf : string) : option string :=
  if str_len buf <? RevisionSize then None
  else Some (put_be 8 (wrap_u64 (Main r)) +:+ put_be 8 (wrap_u64 (Sub r)) +:+ str_drop 16 buf).

Definition ParseRevision (b : string) : Revision :=
  if str_len b <? RevisionSize then Zero
  else mkRevision (wrap_i64 (get_be (str_take 8 b)))
                  (wrap_i64 (get_be (str_take 8 (str_drop 8 b)))).

Definition NewRevision (main sub : Z) : Revision := mkRevision main sub.

(** ** Ranges and the generator *)

Record RevisionRange := mkRevisionRange { Start : Revision; End : Revision }.

Definition Contains (rr : RevisionRange) (r : Revision) : bool :=
  GreaterThanOrEqual r (Start rr) && LessThan r (End rr).

Record RevisionGenerator := mkRevisionGenerator { current : Revision }.

Definition NewRevisionGenerator (start : Revision) : RevisionGenerator :=
  mkRevisionGenerator start.
Definition Current (g : RevisionGenerator) : Revision := current g.
Definition Next (g : RevisionGenerator) : RevisionGenerator * Revision :=
  let r := mkRevision (wrap_i64 (Main (current g) + 1)) 0 in
  (mkRevisionGenerator r, r).
Definition NextSub (g : RevisionGenerator) : RevisionGenerator * Revision :=
  let r := mkRevision (Main (current g)) (wrap_i64 (Sub (current g) + 1)) in
  (mkRevisionGenerator r, r).
Definition SetMain (g : RevisionGenerator) (main : Z) : RevisionGenerator :=
  mkRevisionGenerator (mkRevision main 0).

(** ** The order

    [rev_lt] and [rev_le] are what [Compare] decides: the lexicographic order. *)

Definition rev_lt (r s : Revision) : Prop :=
  Main r < Main s \/ (Main r = Main s /\ Sub r < Sub s).
Definition rev_le (r s : Revision) : Prop :=
  Main r < Main s \/ (Main r = Main s /\ Sub r <= Sub s).
Definition rev_ok (r : Revision) : Prop := is_i64 (Main r) /\ is_i64 (Sub r).

(** [Compare] returns -1, 0 or 1, and says which way the order goes. *)
Lemma Compare_cases r s :
  (Compare r s = -1 /\ rev_lt r s) \/ (Compare r s = 0 /\ r = s) \/ (Compare r s = 1 /\ rev_lt s r).
Proof.
  destruct r as [m1 s1], s as [m2 s2]. unfold Compare, rev_lt. simpl. rewrite !Z.gtb_ltb.
  destruct (Z.ltb_spec m1 m2); [lia|]. destruct (Z.ltb_spec m2 m1); [lia|].
  destruct (Z.ltb_spec s1 s2); [lia|]. destruct (Z.ltb_spec s2 s1); [lia|].
  right; left. split; [done|]. f_equal; lia.
Qed.

(** Settles a goal about the boolean comparisons of two revisions. *)
Ltac rev_solve r s :=
  unfold LessThan, LessThanOrEqual, GreaterThan, GreaterThanOrEqual, rev_le, rev_lt in *;
  let E := fresh "E" in
  destruct (Compare_cases r s) as [[E ?]|[[E ?]|[E ?]]]; unfold rev_lt in *;
  rewrite ?E; simpl; try subst; split; intros; try done; lia.

Lemma LessThan_iff r s : LessThan r s = true <-> rev_lt r s.
Proof. rev_solve r s. Qed.

Lemma LessThanOrEqual_iff r s : LessThanOrEqual r s = true <-> rev_le r s.
Proof. rev_solve r s. Qed.

Lemma LessThan_false r s : LessThan r s = false <-> rev_le s r.
Proof. rev_solve r s. Qed.

Lemma LessThanOrEqual_false r s : LessThanOrEqual r s = false <-> rev_lt s r.
Proof. rev_solve r s. Qed.

Lemma Compare_antisym r s : Compare s r = - Compare r s.
Proof.
  destruct (Compare_cases r s) as [[E ?]|[[E ?]|[E ?]]],
    (Compare_cases s r) as [[E' ?]|[[E' ?]|[E' ?]]]; unfold rev_lt in *; subst; lia.
Qed.

Lemma GreaterThan_lt r s : GreaterThan r s = LessThan s r.
Proof.
  unfold GreaterThan, LessThan. rewrite (Compare_antisym r s).
  destruct (Z.ltb_spec (- Compare r s) 0), (Z.gtb_spec (Compare r s) 0); lia.
Qed.

Lemma GreaterThanOrEqual_le r s : GreaterThanOrEqual r s = LessThanOrEqual s r.
Proof.
  unfold GreaterThanOrEqual, LessThanOrEqual. rewrite (Compare_antisym r s).
  destruct (Z.leb_spec (- Compare r s) 0), (Z.geb_spec (Compare r s) 0); lia.
Qed.

Lemma IsZero_iff r : IsZero r = true <-> r = Zero.
Proof.
  unfold IsZero, Zero. rewrite andb_true_iff, !Z.eqb_eq. destruct r; simpl.
  split; [by intros [-> ->]|by intros [= -> ->]].
Qed.

Lemma IsZero_false r : IsZero r = false <-> r <> Zero.
Proof. rewrite <- IsZero_iff. by destruct (IsZero r). Qed.

Lemma rev_le_lteq r s : rev_le r s <-> rev_lt r s \/ r = s.
Proof.
  destruct r, s; unfold rev_le, rev_lt; simpl. split.
  - intros [?|[-> H]]; [lia|]. apply Z.lt_eq_cases in H as [?| ->]; [lia|by right].
  - intros [?|[= -> ->]]; lia.
Qed.

Lemma rev_lt_irrefl r : ~ rev_lt r r.
Proof. unfold rev_lt. lia. Qed.
Lemma rev_lt_trans r s t : rev_lt r s -> rev_lt s t -> rev_lt r t.
Proof. unfold rev_lt. lia. Qed.
Lemma rev_le_refl r : rev_le r r.
Proof. unfold rev_le. lia. Qed.
Lemma rev_le_trans r s t : rev_le r s -> rev_le s t -> rev_le r t.
Proof. unfold rev_le. lia. Qed.
Lemma rev_lt_le_trans r s t : rev_lt r s -> rev_le s t -> rev_lt r t.
Proof. unfold rev_le, rev_lt. lia. Qed.
Lemma rev_le_lt_trans r s t : rev_le r s -> rev_lt s t -> rev_lt r t.
Proof. unfold rev_le, rev_lt. lia. Qed.
Lemma rev_not_le r s : ~ rev_le r s <-> rev_lt s r.
Proof. unfold rev_le, rev_lt. lia. Qed.
Lemma rev_lt_total r s : ~ rev_lt r s -> ~ rev_lt s r -> r = s.
Proof. destruct r, s; unfold rev_lt; simpl. intros. f_equal; lia. Qed.

#[global] Instance rev_lt_transitive : Transitive rev_lt.
Proof. intros ???. apply rev_lt_trans. Qed.
#[global] Instance rev_lt_dec r s : Decision (rev_lt r s).
Proof. unfold rev_lt. apply _. Defined.
#[global] Instance rev_le_dec r s : Decision (rev_le r s).
Proof. unfold rev_le. apply _. Defined.

#[export] Hint Resolve rev_le_refl rev_lt_trans rev_lt_le_trans rev_le_lt_trans : metastore.

(** ** Generator *)

Lemma Next_main g :
  Main (current g) < int64_max -> int64_min <= Main (current g) ->
  (Next g).2 = mkRevision (Main (current g) + 1) 0.
Proof.
  intros. unfold Next. simpl. f_equal. apply wrap_i64_id. unfold_ints. lia.
Qed.

(** ** Encoding properties *)

Lemma Bytes_length r : str_len (Bytes r) = RevisionSize.
Proof. unfold Bytes. autorewrite with metastore. unfold str_len. by rewrite !put_be_length. Qed.

(** Decoding an encoded revision gives it back, whatever follows it. *)
Lemma ParseRevision_Bytes_app r rest :
  rev_ok r -> ParseRevision (Bytes r +:+ rest) = r.
Proof.
  intros [Hm Hs]. unfold ParseRevision.
  rewrite str_len_app, Bytes_length.
  destruct (Z.ltb_spec (RevisionSize + str_len rest) RevisionSize); [unfold str_len in *; lia|].
  unfold Bytes. rewrite str_app_assoc.
  rewrite str_take_app_n, str_drop_app_n by apply put_be_length.
  rewrite str_take_app_n by apply put_be_length.
  rewrite !be_i64_roundtrip by done. by destruct r.
Qed.

(** Big-endian encoding keeps revisions in their order in a byte-ordered store. *)
Lemma Bytes_compare r s :
  0 <= Main r <= int64_max -> 0 <= Sub r <= int64_max ->
  0 <= Main s <= int64_max -> 0 <= Sub s <= int64_max ->
  String.compare (Bytes r) (Bytes s) =
    match Main r ?= Main s with Eq => Sub r ?= Sub s | c => c end.
Proof.
  intros. unfold Bytes. rewrite str_compare_app by (by rewrite !put_be_length).
  rewrite !put_be_compare by (unfold_ints; change (8 * Z.of_nat 8) with 64;
    apply Z.mod_pos_bound; lia).
  rewrite !wrap_u64_id by (unfold_ints; lia). done.
Qed.

Lemma Bytes_ltb r s :
  0 <= Main r <= int64_max -> 0 <= Sub r <= int64_max ->
  0 <= Main s <= int64_max -> 0 <= Sub s <= int64_max ->
  str_ltb (Bytes r) (Bytes s) = LessThan r s.
Proof.
  intros. unfold str_ltb, String.ltb. rewrite Bytes_compare by done.
  destruct (LessThan r s) eqn:E; [apply LessThan_iff in E|apply LessThan_false in E];
    unfold rev_lt, rev_le in E;
    destruct (Z.compare_spec (Main r) (Main s)), (Z.compare_spec (Sub r) (Sub s)); try done; lia.
Qed.

(** Revisions decode to themselves, and non-negative ones keep their order when
    their encodings are compared as bytes, as a key-value store does. *)
Theorem revision_encoding_ordered (r s : Revision)
    (Hr : 0 <= Main r <= int64_max /\ 0 <= Sub r <= int64_max)
    (Hs : 0 <= Main s <= int64_max /\ 0 <= Sub s <= int64_max) :
  ParseRevision (Bytes r) = r /\ str_ltb (Bytes r) (Bytes s) = LessThan r s.
Proof.
  destruct Hr, Hs. split; [|by apply Bytes_ltb].
  rewrite <- (str_app_nil_r (Bytes r)). apply ParseRevision_Bytes_app. split; unfold_ints; lia.
Qed.

Lemma revision_encoding_ordered_witness :
  ParseRevision (Bytes (mkRevision 255 1)) = mkRevision 255 1 /\
  str_ltb (Bytes (mkRevision 255 1)) (Bytes (mkRevision 256 0)) = true.
Proof.
  destruct (revision_encoding_ordered (mkRevision 255 1) (mkRevision 256 0)) as [H1 H2].
  - split; split; vm_compute; discriminate.
  - split; split; vm_compute; discriminate.
  - split; [exact H1|]. rewrite H2. vm_compute. reflexivity.
Defined.
