(* ===== verification/OrderedTree.v ===== *)
(** * Ordered trees: the interface of [github.com/google/btree]

    The MVCC index and the in-memory revision store sit on the third-party
    B-tree.  Its code is not part of the repository, so it is an interface:
    [BTree] lists the methods the code calls and [BTreeLaws] what they are
    documented to do.  The client files are proved against the interface;
    [sorted_gmap] shows that it can be implemented. *)

From S2P Require Import Prelude GoBytes Revision.

(** ** Keys ordered by a strict boolean [Less] *)

Class Less (K : Type) := lessb : K -> K -> bool.

Class LessOrder (K : Type) `{Less K} : Prop := {
  lessb_irrefl k : lessb k k = false;
  lessb_trans k1 k2 k3 : lessb k1 k2 = true -> lessb k2 k3 = true -> lessb k1 k3 = true;
  lessb_total k1 k2 : lessb k1 k2 = false -> lessb k2 k1 = false -> k1 = k2;
}.

#[global] Instance string_less : Less string := str_ltb.
#[global] Instance string_less_order : LessOrder string.
Proof. split; [apply str_ltb_irrefl|apply str_ltb_trans|apply str_ltb_total]. Qed.

#[global] Instance revision_less : Less Revision := LessThan.
#[global] Instance revision_less_order : LessOrder Revision.
Proof.
  split; unfold lessb, revision_less.
  - intros k. apply LessThan_false. apply rev_le_refl.
  - intros k1 k2 k3. rewrite !LessThan_iff. apply rev_lt_trans.
  - intros k1 k2. rewrite !LessThan_false. intros. apply rev_lt_total; by rewrite <- rev_not_le; intros [].
Qed.

#[global] Instance Revision_countable : Countable Revision.
Proof.
  apply (inj_countable' (fun r => (Main r, Sub r)) (fun p => mkRevision p.1 p.2)).
  by intros [].
Defined.

(** ** The tree *)

Class BTree (K : Type) `{Less K} (T : Type -> Type) := {
  bt_new V : T V;
  bt_get {V} : K -> T V -> option V;
  bt_replace_or_insert {V} : K -> V -> T V -> T V;
  bt_delete {V} : K -> T V -> T V;
  bt_ascend {V} : T V -> list (K * V);
  bt_ascend_ge {V} : K -> T V -> list (K * V);
  bt_len {V} : T V -> Z;
}.

Class BTreeLaws (K : Type) `{EqDecision K, Less K} (T : Type -> Type) `{!BTree K T} : Prop := {
  bt_get_new V k : bt_get k (bt_new V) = None;
  bt_get_insert {V} k k' (v : V) t :
    bt_get k' (bt_replace_or_insert k v t) = if decide (k = k') then Some v else bt_get k' t;
  bt_get_delete {V} k k' (t : T V) :
    bt_get k' (bt_delete k t) = if decide (k = k') then None else bt_get k' t;
  bt_ascend_sorted {V} (t : T V) :
    StronglySorted (fun p q => lessb p.1 q.1 = true) (bt_ascend t);
  bt_ascend_elem {V} (t : T V) k v : (k, v) ∈ bt_ascend t <-> bt_get k t = Some v;
  bt_ascend_ge_filter {V} k (t : T V) :
    bt_ascend_ge k t = List.filter (fun p => negb (lessb p.1 k)) (bt_ascend t);
  bt_len_ascend {V} (t : T V) : bt_len t = Z.of_nat (length (bt_ascend t));
}.

Section tree_facts.
Context {K : Type} `{EqDecision K, LessOrder K} {T : Type -> Type} `{!BTree K T, !BTreeLaws K T}.

Lemma bt_get_insert_eq {V} k (v : V) (t : T V) : bt_get k (bt_replace_or_insert k v t) = Some v.
Proof. rewrite bt_get_insert. by rewrite decide_True. Qed.

Lemma bt_get_insert_ne {V} k k' (v : V) (t : T V) :
  k <> k' -> bt_get k' (bt_replace_or_insert k v t) = bt_get k' t.
Proof. intros. rewrite bt_get_insert. by rewrite decide_False. Qed.

(** Deleting a batch of keys. *)
Lemma bt_get_deletes {A V} (f : A -> K) (l : list A) (t : T V) k :
  bt_get k (fold_left (fun t x => bt_delete (f x) t) l t) =
    if decide (k ∈ f <$> l) then None else bt_get k t.
Proof.
  revert t. induction l as [|x l IH]; intros t; simpl; [done|]. rewrite IH, bt_get_delete.
  change (list_fmap A K f l) with (f <$> l).
  destruct (decide (k ∈ f <$> l)), (decide (f x = k)), (decide (k ∈ f x :: (f <$> l))); set_solver.
Qed.

(** Two strictly ordered lists with the same elements are the same list: the
    order in which [Ascend] visits a tree is determined by its contents. *)
Lemma strictly_sorted_unique {V} (l1 l2 : list (K * V)) :
  StronglySorted (fun p q => lessb p.1 q.1 = true) l1 ->
  StronglySorted (fun p q => lessb p.1 q.1 = true) l2 ->
  (forall p, p ∈ l1 <-> p ∈ l2) -> l1 = l2.
Proof.
  intros H1 H2 Heq.
  assert (Hnd : forall l : list (K * V),
    StronglySorted (fun p q => lessb p.1 q.1 = true) l -> NoDup l).
  { intros l. induction 1 as [|p l _ IH Hall]; constructor; [|done].
    intros Hin. rewrite Forall_forall in Hall. specialize (Hall _ Hin).
    rewrite lessb_irrefl in Hall. done. }
  apply (StronglySorted_unique_strong (fun p q => lessb p.1 q.1 = true)); try done.
  - intros p q _ _ Hpq Hqp. pose proof (lessb_trans _ _ _ Hpq Hqp) as Hpp.
    rewrite lessb_irrefl in Hpp. done.
  - apply NoDup_Permutation; auto.
Qed.

End tree_facts.

(** ** An implementation: finite maps, sorted when visited *)

Section sorted_gmap.
Context {K : Type} `{EqDecision K, !Countable K, Less K, !LessOrder K}.

Definition key_le {V} (p q : K * V) : Prop := lessb q.1 p.1 = false.

#[local] Instance key_le_dec {V} (p q : K * V) : Decision (key_le p q).
Proof. unfold key_le. apply _. Defined.

#[local] Instance key_le_total {V} : Total (@key_le V).
Proof.
  intros p q. unfold key_le.
  destruct (lessb q.1 p.1) eqn:E1; [|by left]. right.
  destruct (lessb p.1 q.1) eqn:E2; [|done].
  pose proof (lessb_trans _ _ _ E1 E2) as E3. rewrite lessb_irrefl in E3. done.
Qed.

#[local] Instance key_le_trans {V} : Transitive (@key_le V).
Proof.
  intros p q r. unfold key_le. intros H1 H2.
  destruct (lessb r.1 p.1) eqn:E; [|done].
  destruct (lessb p.1 q.1) eqn:E1.
  - rewrite (lessb_trans _ _ _ E E1) in H2. done.
  - rewrite (lessb_total _ _ E1 H1) in E. congruence.
Qed.

Definition sorted_entries {V} (m : gmap K V) : list (K * V) :=
  merge_sort key_le (map_to_list m).

#[global] Instance sorted_gmap_tree : BTree K (gmap K) := {
  bt_new V := ∅;
  bt_get V k m := m !! k;
  bt_replace_or_insert V k v m := <[k := v]> m;
  bt_delete V k m := delete k m;
  bt_ascend V m := sorted_entries m;
  bt_ascend_ge V k m := List.filter (fun p => negb (lessb p.1 k)) (sorted_entries m);
  bt_len V m := Z.of_nat (size m);
}.

Lemma sorted_entries_perm {V} (m : gmap K V) : sorted_entries m ≡ₚ map_to_list m.
Proof. apply merge_sort_Permutation. Qed.

Lemma sorted_entries_sorted {V} (m : gmap K V) :
  StronglySorted (fun p q => lessb p.1 q.1 = true) (sorted_entries m).
Proof.
  assert (Hs : StronglySorted key_le (sorted_entries m)).
  { apply StronglySorted_merge_sort; apply _. }
  assert (Hnd : NoDup (sorted_entries m).*1).
  { rewrite (fmap_Permutation fst _ _ (sorted_entries_perm m)). apply NoDup_fst_map_to_list. }
  induction Hs as [|p l Hl IH Hall]; constructor.
  - apply IH. by inv Hnd.
  - rewrite Forall_forall in Hall |- *. intros q Hq. specialize (Hall _ Hq). unfold key_le in Hall.
    destruct (lessb p.1 q.1) eqn:E; [done|]. exfalso.
    cbn in Hnd. apply NoDup_cons in Hnd as [Hnin _]. apply Hnin.
    rewrite (lessb_total _ _ E Hall). by apply list_elem_of_fmap_2.
Qed.

#[global] Instance sorted_gmap_laws : BTreeLaws K (gmap K).
Proof.
  split; intros; cbn.
  - apply lookup_empty.
  - rewrite lookup_insert. done.
  - rewrite lookup_delete. done.
  - apply sorted_entries_sorted.
  - rewrite sorted_entries_perm. apply elem_of_map_to_list.
  - done.
  - rewrite (Permutation_length (sorted_entries_perm t)), length_map_to_list. done.
Qed.

End sorted_gmap.
