(* ===== verification/KeyValue.v ===== *)
(** * MVCC key-value records and their codec ([internal/mvcc/key_value.go],
    [internal/mvcc/errors.go]) *)

From S2P Require Import Prelude GoBytes.
Local Open Scope go_scope.

(** ** Errors of the package *)

Inductive MvccError : Set :=
  | ErrKeyNotFound | ErrRevisionNotFound | ErrCompacted | ErrFutureRevision
  | ErrInvalidData | ErrEmptyKey | ErrTxnTooBig | ErrClosed.

#[global] Instance MvccError_eq_dec : EqDecision MvccError.
Proof. solve_decision. Defined.

(** ** The record *)

Record KeyValue := mkKeyValue {
  Key : string;
  Value : string;
  CreateRevision : Z;
  ModRevision : Z;
  Version : Z;
  Lease : Z;
}.

#[global] Instance KeyValue_eq_dec : EqDecision KeyValue.
Proof. solve_decision. Defined.

(** A deep copy: records here are values, so it is the same record. *)
Definition Clone (kv : option KeyValue) : option KeyValue :=
  match kv with
  | None => None
  | Some kv => Some (mkKeyValue (Key kv) (Value kv) (CreateRevision kv) (ModRevision kv)
                       (Version kv) (Lease kv))
  end.

Definition Size (kv : KeyValue) : Z := str_len (Key kv) + str_len (Value kv) + 32.

Inductive EventType : Set := EventTypePut | EventTypeDelete.

Definition EventType_String (t : EventType) : string :=
  match t with EventTypePut => "PUT" | EventTypeDelete => "DELETE" end.

(** ** Codec

    Format: [keyLen:4][valueLen:4][createRev:8][modRev:8][version:8][lease:8][key][value] *)

Definition Encode (kv : KeyValue) : string :=
  put_be 4 (wrap_u32 (str_len (Key kv))) +:+
  put_be 4 (wrap_u32 (str_len (Value kv))) +:+
  put_be 8 (wrap_u64 (CreateRevision kv)) +:+
  put_be 8 (wrap_u64 (ModRevision kv)) +:+
  put_be 8 (wrap_u64 (Version kv)) +:+
  put_be 8 (wrap_u64 (Lease kv)) +:+
  Key kv +:+ Value kv.

(** [binary.BigEndian.Uint32(data[offset:])] *)
Definition be_u32_at (offset : nat) (data : string) : Z := get_be (str_take 4 (str_drop offset data)).
(** [int64(binary.BigEndian.Uint64(data[offset:]))] *)
Definition be_i64_at (offset : nat) (data : string) : Z :=
  wrap_i64 (get_be (str_take 8 (str_drop offset data))).

Definition Decode (data : string) : result MvccError KeyValue :=
  fail_if str_len data <? 40 with ErrInvalidData;
  let keyLen := be_u32_at 0 data in
  let valueLen := be_u32_at 4 data in
  fail_if str_len data <? 40 + keyLen + valueLen with ErrInvalidData;
  Ok {| CreateRevision := be_i64_at 8 data;
        ModRevision := be_i64_at 16 data;
        Version := be_i64_at 24 data;
        Lease := be_i64_at 32 data;
        Key := str_take (Z.to_nat keyLen) (str_drop 40 data);
        Value := str_take (Z.to_nat valueLen) (str_drop (40 + Z.to_nat keyLen) data) |}.

(** ** Properties *)

(** What Go's types and slice lengths guarantee of a record that is encoded. *)
Definition encodable (kv : KeyValue) : Prop :=
  str_len (Key kv) < 2 ^ 32 /\ str_len (Value kv) < 2 ^ 32 /\
  is_i64 (CreateRevision kv) /\ is_i64 (ModRevision kv) /\
  is_i64 (Version kv) /\ is_i64 (Lease kv).

Definition encode_header (kv : KeyValue) : string :=
  put_be 4 (wrap_u32 (str_len (Key kv))) +:+
  put_be 4 (wrap_u32 (str_len (Value kv))) +:+
  put_be 8 (wrap_u64 (CreateRevision kv)) +:+
  put_be 8 (wrap_u64 (ModRevision kv)) +:+
  put_be 8 (wrap_u64 (Version kv)) +:+
  put_be 8 (wrap_u64 (Lease kv)).

Lemma encode_header_length kv : String.length (encode_header kv) = 40%nat.
Proof. unfold encode_header. autorewrite with metastore. done. Qed.

Lemma Encode_split kv : Encode kv = encode_header kv +:+ (Key kv +:+ Value kv).
Proof. unfold Encode, encode_header. by rewrite !str_app_assoc. Qed.

(** Drops whole fields of known width off the front of the encoded record. *)
Ltac drop_fields :=
  repeat match goal with
  | |- context [str_drop ?n (put_be ?m ?z +:+ ?t)] =>
      match n with
      | m => rewrite (str_drop_app_n m (put_be m z) t) by apply put_be_length
      | _ =>
          replace (str_drop n (put_be m z +:+ t)) with (str_drop (n - m) t) by
            (rewrite <- (str_drop_app_n m (put_be m z) t) at 1 by apply put_be_length;
             rewrite str_drop_drop; reflexivity);
          simpl Nat.sub
      end
  end; rewrite ?str_take_app_n by apply put_be_length.

Lemma be_u32_put z : 0 <= z < 2 ^ 32 -> get_be (put_be 4 (wrap_u32 z)) = z.
Proof.
  intros. rewrite get_put_be. change (8 * Z.of_nat 4) with 32. unfold wrap_u32.
  by rewrite Z.mod_mod, Z.mod_small by lia.
Qed.

Lemma Decode_Encode_app kv rest :
  encodable kv -> Decode (Encode kv +:+ rest) = Ok kv.
Proof.
  intros (Hk & Hv & Hc & Hm & Hver & Hl).
  pose proof (str_len_nonneg (Key kv)). pose proof (str_len_nonneg (Value kv)).
  pose proof (str_len_nonneg rest).
  assert (Hlen : str_len (Encode kv +:+ rest)
                 = 40 + str_len (Key kv) + str_len (Value kv) + str_len rest).
  { rewrite Encode_split, !str_len_app. unfold str_len at 1. rewrite encode_header_length. lia. }
  unfold Decode. rewrite Hlen.
  destruct (Z.ltb_spec (40 + str_len (Key kv) + str_len (Value kv) + str_len rest) 40); [lia|].
  assert (E0 : be_u32_at 0 (Encode kv +:+ rest) = str_len (Key kv)).
  { unfold be_u32_at, Encode. rewrite !str_app_assoc. change (str_drop 0) with (fun s : string => s). cbv beta. drop_fields.
    by apply be_u32_put. }
  assert (E4 : be_u32_at 4 (Encode kv +:+ rest) = str_len (Value kv)).
  { unfold be_u32_at, Encode. rewrite !str_app_assoc. drop_fields. by apply be_u32_put. }
  rewrite E0, E4.
  destruct (Z.ltb_spec (40 + str_len (Key kv) + str_len (Value kv) + str_len rest)
              (40 + str_len (Key kv) + str_len (Value kv))); [lia|].
  f_equal. destruct kv as [k v c m ver l].
  cbn [Key Value CreateRevision ModRevision Version Lease] in *.
  assert (Hd : str_drop 40 (Encode (mkKeyValue k v c m ver l) +:+ rest) = k +:+ v +:+ rest).
  { rewrite Encode_split, !str_app_assoc. apply str_drop_app_n. apply encode_header_length. }
  f_equal.
  - rewrite Hd. unfold str_len. rewrite Nat2Z.id. apply str_take_app.
  - unfold str_len. rewrite !Nat2Z.id, <- str_drop_drop, Hd, str_drop_app. apply str_take_app.
  - unfold be_i64_at, Encode. rewrite !str_app_assoc. drop_fields. by apply be_i64_roundtrip.
  - unfold be_i64_at, Encode. rewrite !str_app_assoc. drop_fields. by apply be_i64_roundtrip.
  - unfold be_i64_at, Encode. rewrite !str_app_assoc. drop_fields. by apply be_i64_roundtrip.
  - unfold be_i64_at, Encode. rewrite !str_app_assoc. drop_fields. by apply be_i64_roundtrip.
Qed.

(** Conversely, [Decode] only accepts a frame that [Encode] could have written. *)

Lemma be_i64_back s : String.length s = 8%nat -> put_be 8 (wrap_u64 (wrap_i64 (get_be s))) = s.
Proof.
  intros Hl. destruct (get_be_acc_bound 0 s) as [_ Hb]. rewrite Hl in Hb.
  change (8 * Z.of_nat 8) with 64 in Hb.
  replace (wrap_u64 (wrap_i64 (get_be s))) with (get_be s).
  - rewrite <- Hl. apply put_get_be.
  - unfold wrap_u64, wrap_i64. rewrite Zminus_mod_idemp_l, Z.add_simpl_r, Z.mod_small by lia. done.
Qed.

Lemma be_u32_back s : String.length s = 4%nat -> put_be 4 (wrap_u32 (get_be s)) = s.
Proof.
  intros Hl. destruct (get_be_acc_bound 0 s) as [_ Hb]. rewrite Hl in Hb.
  change (8 * Z.of_nat 4) with 32 in Hb.
  unfold wrap_u32. rewrite Z.mod_small by lia. rewrite <- Hl. apply put_get_be.
Qed.

Lemma str_slice_length n m s :
  (n + m <= String.length s)%nat -> String.length (str_take m (str_drop n s)) = m.
Proof. intros. apply str_take_length. rewrite str_drop_length. lia. Qed.

Lemma str_cons_slice n m s : str_take m (str_drop n s) +:+ str_drop (n + m) s = str_drop n s.
Proof. rewrite <- str_drop_drop. apply str_take_drop. Qed.

Lemma Decode_inv data kv :
  Decode data = Ok kv -> exists rest, data = Encode kv +:+ rest.
Proof.
  unfold Decode. destruct (Z.ltb_spec (str_len data) 40) as [|Hl]; [done|].
  set (kl := be_u32_at 0 data). set (vl := be_u32_at 4 data).
  destruct (Z.ltb_spec (str_len data) (40 + kl + vl)) as [|Hl2]; [done|].
  intros Heq. match type of Heq with Ok ?x = _ => assert (kv = x) as -> by congruence end.
  clear Heq. unfold str_len in Hl, Hl2.
  assert (Hkl : 0 <= kl) by (unfold kl, be_u32_at; apply (get_be_acc_bound 0)).
  assert (Hvl : 0 <= vl) by (unfold vl, be_u32_at; apply (get_be_acc_bound 0)).
  exists (str_drop (40 + Z.to_nat kl + Z.to_nat vl) data).
  unfold Encode. cbn [Key Value CreateRevision ModRevision Version Lease].
  rewrite !str_app_assoc.
  assert (Ek : str_len (str_take (Z.to_nat kl) (str_drop 40 data)) = kl).
  { unfold str_len. rewrite str_slice_length; lia. }
  assert (Ev : str_len (str_take (Z.to_nat vl) (str_drop (40 + Z.to_nat kl) data)) = vl).
  { unfold str_len. rewrite str_slice_length; lia. }
  rewrite Ek, Ev. unfold kl at 1, vl at 1, be_u32_at, be_i64_at.
  rewrite !be_u32_back, !be_i64_back by (apply str_slice_length; lia).
  rewrite (str_cons_slice (40 + Z.to_nat kl)), (str_cons_slice 40).
  rewrite (str_cons_slice 32 8), (str_cons_slice 24 8), (str_cons_slice 16 8),
    (str_cons_slice 8 8), (str_cons_slice 4 4), (str_cons_slice 0 4). done.
Qed.

(** Whatever follows it, an encoded record decodes to itself, and a
    byte string decodes only if an encoded record is its prefix. *)
Theorem mvcc_codec_roundtrip (kv kv' : KeyValue) (rest data : string) :
  (encodable kv -> Decode (Encode kv +:+ rest) = Ok kv) /\
  (Decode data = Ok kv' -> exists tail, data = Encode kv' +:+ tail).
Proof. split; [apply Decode_Encode_app|apply Decode_inv]. Qed.

Lemma mvcc_codec_roundtrip_witness :
  let kv := mkKeyValue "key" "value" 2 3 2 7 in
  Decode (Encode kv +:+ "more") = Ok kv.
Proof.
  cbn zeta. refine (proj1 (mvcc_codec_roundtrip (mkKeyValue "key" "value" 2 3 2 7)
    (mkKeyValue "key" "value" 2 3 2 7) "more" "") _).
  repeat split; vm_compute; discriminate.
Defined.
