(* ===== verification/KeyIndex.v ===== *)
(** * The MVCC key index ([internal/mvcc/key_index.go])

    For each key, the index keeps the revisions at which it was written, split
    into generations: a generation ends with the revision of the deletion and
    an empty one is opened behind it.  The index is a B-tree of [KeyItem]s; the
    code mutates items in place behind the index lock, which is replacing the
    item under its key here.  The [RWMutex] is held for the whole of every
    operation, so each operation is one step. *)

From S2P Require Import Prelude GoBytes Revision OrderedTree.

(** ** Items and generations *)

Record Generation := mkGeneration { Created : Revision; Revisions : list Revision }.

Definition IsEmpty (g : Generation) : bool := Nat.eqb (length (Revisions g)) 0.

Definition LastRevision (g : Generation) : Revision :=
  if Nat.eqb (length (Revisions g)) 0 then Zero else default Zero (last (Revisions g)).

Record KeyItem := mkKeyItem {
  ki_Key : string;
  Generations : list Generation;
  Modified : Revision;
}.

Definition KeyItem_Less (ki other : KeyItem) : bool := str_ltb (ki_Key ki) (ki_Key other).

Definition CurrentGeneration (ki : KeyItem) : option Generation := last (Generations ki).

Definition IsDeleted (ki : KeyItem) : bool :=
  match CurrentGeneration ki with
  | None => true
  | Some gen => IsEmpty gen
  end.

(** ** Lookup at a revision *)

(** The loop of [binarySearchRevision].  [None] is an index out of range or an
    iteration budget that is used up; [binarySearchRevision_spec] shows that
    neither happens. *)
Fixpoint binarySearchLoop (fuel : nat) (revs : list Revision) (target : Revision)
    (left right result : Z) : option Z :=
  match fuel with
  | O => None
  | S fuel' =>
      if left <=? right then
        let mid := Z.quot (left + right) 2 in
        match revs !! Z.to_nat mid with
        | None => None
        | Some r =>
            if LessThanOrEqual r target
            then binarySearchLoop fuel' revs target (mid + 1) right mid
            else binarySearchLoop fuel' revs target left (mid - 1) result
        end
      else Some result
  end.

Definition binarySearchRevision (revs : list Revision) (target : Revision) : option Z :=
  binarySearchLoop (S (length revs)) revs target 0 (Z.of_nat (length revs) - 1) (-1).

(** The loop of [FindRevision], on the generations last first. *)
Fixpoint findInGenerations (gens : list Generation) (atRev : Revision) : Revision :=
  match gens with
  | [] => Zero
  | gen :: gens' =>
      if GreaterThan (Created gen) atRev then findInGenerations gens' atRev
      else
        match binarySearchRevision (Revisions gen) atRev with
        | Some idx =>
            if idx >=? 0 then default Zero (Revisions gen !! Z.to_nat idx)
            else findInGenerations gens' atRev
        | None => Zero
        end
  end.

Definition FindRevision (ki : KeyItem) (atRev : Revision) : Revision :=
  findInGenerations (reverse (Generations ki)) atRev.

(** ** Index operations *)

(** [&gens[len(gens)-1]] assigned through the pointer *)
Definition setLast (gens : list Generation) (g : Generation) : list Generation :=
  removelast gens ++ [g].

(** The inner loop of [Compact] over one generation: (keepFrom, removed). *)
Fixpoint compactScan (atRev : Revision) (revs : list Revision) (j keepFrom removed : Z) : Z * Z :=
  match revs with
  | [] => (keepFrom, removed)
  | r :: revs' =>
      if GreaterThanOrEqual r atRev then (j, removed)
      else compactScan atRev revs' (j + 1) (j + 1) (removed + 1)
  end.

(** One generation: the revisions that stay, if any, and the count removed. *)
Definition compactGeneration (atRev : Revision) (gen : Generation) : option Generation * Z :=
  let '(keepFrom, removed) := compactScan atRev (Revisions gen) 0 0 0 in
  if keepFrom <? Z.of_nat (length (Revisions gen))
  then (Some (mkGeneration (Created gen) (drop (Z.to_nat keepFrom) (Revisions gen))), removed)
  else (None, removed).

Fixpoint compactGenerations (atRev : Revision) (gens : list Generation) : list Generation * Z :=
  match gens with
  | [] => ([], 0)
  | gen :: gens' =>
      let '(kept, n) := compactGeneration atRev gen in
      let '(rest, m) := compactGenerations atRev gens' in
      (match kept with Some g => g :: rest | None => rest end, n + m)
  end.

Section index.
Context {T : Type -> Type} `{!BTree string T}.

Definition NewKeyIndex : T KeyItem := bt_new KeyItem.

Definition Get (idx : T KeyItem) (key : string) : option KeyItem := bt_get key idx.

Definition GetRevision (idx : T KeyItem) (key : string) (atRev : Revision) : Revision :=
  match Get idx key with
  | None => Zero
  | Some ki => FindRevision ki atRev
  end.

Definition Put (idx : T KeyItem) (key : string) (rev : Revision) : T KeyItem :=
  match bt_get key idx with
  | None =>
      bt_replace_or_insert key (mkKeyItem key [mkGeneration rev [rev]] rev) idx
  | Some ki =>
      let gens :=
        match CurrentGeneration ki with
        | None => Generations ki ++ [mkGeneration rev [rev]]
        | Some gen =>
            if IsEmpty gen then Generations ki ++ [mkGeneration rev [rev]]
            else setLast (Generations ki) (mkGeneration (Created gen) (Revisions gen ++ [rev]))
        end in
      bt_replace_or_insert key (mkKeyItem (ki_Key ki) gens rev) idx
  end.

Definition Delete (idx : T KeyItem) (key : string) (rev : Revision) : T KeyItem * bool :=
  match bt_get key idx with
  | None => (idx, false)
  | Some ki =>
      match CurrentGeneration ki with
      | None => (idx, false)
      | Some gen =>
          if IsEmpty gen then (idx, false)
          else
            let gens := setLast (Generations ki)
                          (mkGeneration (Created gen) (Revisions gen ++ [rev])) in
            (bt_replace_or_insert key
               (mkKeyItem (ki_Key ki) (gens ++ [mkGeneration rev []]) rev) idx, true)
      end
  end.

(** The revision [Range] reports for an item; [Zero] means it is skipped. *)
Definition rangeRevision (atRev : Revision) (ki : KeyItem) : Revision :=
  if IsZero atRev then
    match CurrentGeneration ki with
    | Some gen => if IsEmpty gen then Zero else LastRevision gen
    | None => Zero
    end
  else FindRevision ki atRev.

Definition Range {S} (idx : T KeyItem) (start : string) (end_ : option string) (atRev : Revision)
    (fn : S -> string -> Revision -> S * bool) (s0 : S) : S :=
  iter_while (fun s p =>
    let ki := p.2 in
    if match end_ with Some e => negb (str_ltb (ki_Key ki) e) | None => false end
    then (s, false)
    else
      let rev := rangeRevision atRev ki in
      if IsZero rev then (s, true) else fn s (ki_Key ki) rev)
    s0 (bt_ascend_ge start idx).

(** State of the [Ascend] callback of [Compact]. *)
Record compactState := mkCompactState {
  cs_idx : T KeyItem;
  cs_removed : Z;
  cs_keysToDelete : list string;
}.

Definition compactItem (atRev : Revision) (st : compactState) (p : string * KeyItem) : compactState :=
  let ki := p.2 in
  let '(newGens, n) := compactGenerations atRev (Generations ki) in
  match newGens with
  | [] => mkCompactState (cs_idx st) (cs_removed st + n) (cs_keysToDelete st ++ [p.1])
  | _ => mkCompactState
           (bt_replace_or_insert p.1 (mkKeyItem (ki_Key ki) newGens (Modified ki)) (cs_idx st))
           (cs_removed st + n) (cs_keysToDelete st)
  end.

Definition Compact (idx : T KeyItem) (atRev : Revision) : T KeyItem * Z :=
  let st := fold_left (compactItem atRev) (bt_ascend idx) (mkCompactState idx 0 []) in
  (fold_left (fun t k => bt_delete k t) (cs_keysToDelete st) (cs_idx st), cs_removed st).

Definition Len (idx : T KeyItem) : Z := bt_len idx.

Definition RevisionCount (idx : T KeyItem) : Z :=
  fold_left (fun count p =>
    fold_left (fun count gen => count + Z.of_nat (length (Revisions gen))) (Generations p.2) count)
    (bt_ascend idx) 0.

End index.

(** ** Binary search *)

(** [rev_leb target] splits a sorted list in a prefix that satisfies it and a
    rest that does not; [k] is the length of the prefix. *)
Definition splits_at (target : Revision) (revs : list Revision) (k : nat) : Prop :=
  (k <= length revs)%nat /\
  Forall (fun r => LessThanOrEqual r target = true) (take k revs) /\
  Forall (fun r => LessThanOrEqual r target = false) (drop k revs).

Lemma sorted_lookup_lt revs i j r s :
  StronglySorted rev_lt revs -> revs !! i = Some r -> revs !! j = Some s -> (i < j)%nat -> rev_lt r s.
Proof.
  intros Hs Hi Hj Hij.
  rewrite <- (take_drop j revs) in Hs.
  apply (StronglySorted_app_1_elem_of _ _ _ _ _ Hs).
  - apply list_elem_of_lookup. exists i. by rewrite lookup_take_lt.
  - apply list_elem_of_lookup. exists 0%nat. by rewrite lookup_drop, Nat.add_0_r.
Qed.

Lemma binarySearchLoop_spec fuel revs target left right result :
  StronglySorted rev_lt revs ->
  (Z.to_nat (right - left + 1) < fuel)%nat ->
  0 <= left <= right + 1 -> right < Z.of_nat (length revs) -> result = left - 1 ->
  (forall i r, revs !! i = Some r -> Z.of_nat i < left -> LessThanOrEqual r target = true) ->
  (forall i r, revs !! i = Some r -> right < Z.of_nat i -> LessThanOrEqual r target = false) ->
  exists k, binarySearchLoop fuel revs target left right result = Some (Z.of_nat k - 1)
            /\ splits_at target revs k.
Proof.
  intros Hs. revert left right result.
  induction fuel as [|fuel IH]; intros left right result Hf Hlr Hr -> Hlo Hhi; [lia|].
  simpl. destruct (Z.leb_spec left right) as [Hle|Hgt].
  - assert (Hmid : left <= Z.quot (left + right) 2 <= right).
    { rewrite Z.quot_div_nonneg by lia. split.
      - apply Z.div_le_lower_bound; lia.
      - apply Z.div_le_upper_bound; lia. }
    set (mid := Z.quot (left + right) 2) in *.
    destruct (lookup_lt_is_Some_2 revs (Z.to_nat mid)) as [r Hrr]; [lia|].
    rewrite Hrr. destruct (LessThanOrEqual r target) eqn:Hc.
    + apply IH; try lia; [|done].
      intros i s Hi Hlt. destruct (decide (i = Z.to_nat mid)) as [->|Hne]; [congruence|].
      apply LessThanOrEqual_iff in Hc. apply LessThanOrEqual_iff.
      apply rev_le_trans with r; [|done]. apply rev_le_lteq. left.
      eapply sorted_lookup_lt; [done..|lia].
    + apply IH; try lia; [done|].
      intros i s Hi Hlt. destruct (decide (i = Z.to_nat mid)) as [->|Hne]; [congruence|].
      apply LessThanOrEqual_false in Hc. apply LessThanOrEqual_false.
      apply rev_lt_trans with r; [done|]. eapply sorted_lookup_lt; [done..|lia].
  - exists (Z.to_nat left). split; [f_equal; lia|]. split; [lia|]. split.
    + apply Forall_lookup. intros i s Hi. apply lookup_take_Some in Hi as [Hi ?].
      eapply Hlo; [done|lia].
    + apply Forall_lookup. intros i s Hi. rewrite lookup_drop in Hi.
      eapply Hhi; [done|lia].
Qed.

(** The search always returns, in range, the length of the prefix minus one. *)
Lemma binarySearchRevision_spec revs target :
  StronglySorted rev_lt revs ->
  exists k, binarySearchRevision revs target = Some (Z.of_nat k - 1) /\ splits_at target revs k.
Proof.
  intros Hs. apply binarySearchLoop_spec; [done|lia|lia|lia|done|..].
  - intros i r Hi ?. lia.
  - intros i r Hi%lookup_lt_Some ?. lia.
Qed.

Lemma splits_at_last_such target revs k :
  splits_at target revs k ->
  last_such (fun r => LessThanOrEqual r target) revs =
    match k with O => None | S k' => revs !! k' end.
Proof.
  intros (Hk & Ht & Hd).
  assert (Hn : last_such (fun r => LessThanOrEqual r target) (drop k revs) = None)
    by (by apply last_such_None).
  rewrite <- (take_drop k revs) at 1. rewrite last_such_app, Hn.
  destruct k as [|k]; [done|].
  destruct (lookup_lt_is_Some_2 revs k) as [r Hr]; [lia|].
  rewrite (take_S_r _ _ _ Hr) in Ht |- *. rewrite last_such_app. simpl.
  apply Forall_app in Ht as [_ Ht]. inv Ht. rewrite H1. done.
Qed.

(** ** Well-formed items *)

Definition itemRevs (ki : KeyItem) : list Revision := concat (Revisions <$> Generations ki).

Record wf_item (ki : KeyItem) : Prop := {
  wi_sorted : StronglySorted rev_lt (itemRevs ki);
  wi_created : Forall (fun g => Forall (rev_le (Created g)) (Revisions g)) (Generations ki);
}.

(** [FindRevision] is the last revision of the history at or before [atRev]. *)
Lemma FindRevision_spec ki atRev :
  wf_item ki ->
  FindRevision ki atRev =
    default Zero (last_such (fun r => LessThanOrEqual r atRev) (itemRevs ki)).
Proof.
  intros [Hs Hc]. unfold FindRevision, itemRevs in *.
  induction (Generations ki) as [|g gens IH] using rev_ind; [done|].
  rewrite reverse_snoc. rewrite fmap_app, concat_app in Hs |- *. simpl in *.
  rewrite app_nil_r in Hs |- *. apply Forall_app in Hc as [Hc Hg]. inv Hg as [|? ? Hg0 _].
  rewrite last_such_app. specialize (IH (StronglySorted_app_1_l _ _ _ Hs) Hc).
  rewrite GreaterThan_lt. destruct (LessThan atRev (Created g)) eqn:E.
  - replace (last_such _ (Revisions g)) with (@None Revision); [done|]. symmetry.
    apply last_such_None. apply (Forall_impl _ _ _ Hg0). intros r Hr.
    apply LessThanOrEqual_false. apply LessThan_iff in E. eauto with metastore.
  - destruct (binarySearchRevision_spec (Revisions g) atRev) as (k & -> & Hk);
      [by eapply StronglySorted_app_1_r|].
    rewrite (splits_at_last_such _ _ _ Hk). destruct Hk as [Hk _]. destruct k as [|k].
    + done.
    + destruct (Z.geb_spec (Z.of_nat (S k) - 1) 0); [|lia].
      replace (Z.to_nat (Z.of_nat (S k) - 1)) with k by lia.
      destruct (lookup_lt_is_Some_2 (Revisions g) k) as [r ->]; [lia|done].
Qed.

(** ** [Put] and [Delete] on one item *)

Lemma concat_setLast gens g rev :
  last gens = Some g ->
  concat (Revisions <$> setLast gens (mkGeneration (Created g) (Revisions g ++ [rev])))
  = concat (Revisions <$> gens) ++ [rev].
Proof.
  intros Hl. apply last_Some in Hl as [gens' ->]. unfold setLast.
  rewrite removelast_last, !fmap_app, !concat_app. simpl. rewrite !app_nil_r, app_assoc. done.
Qed.

Lemma created_setLast gens g rev :
  last gens = Some g ->
  Forall (fun r => rev_lt r rev) (concat (Revisions <$> gens)) ->
  Revisions g <> [] ->
  Forall (fun g => Forall (rev_le (Created g)) (Revisions g)) gens ->
  Forall (fun g => Forall (rev_le (Created g)) (Revisions g))
    (setLast gens (mkGeneration (Created g) (Revisions g ++ [rev]))).
Proof.
  intros Hl Hlt Hne Hc. apply last_Some in Hl as [gens' ->]. unfold setLast.
  rewrite removelast_last. apply Forall_app in Hc as [Hc Hg]. inv Hg as [|? ? Hg0 _].
  apply Forall_app. split; [done|]. constructor; [|done]. simpl.
  apply Forall_app. split; [done|]. constructor; [|done].
  rewrite fmap_app, concat_app in Hlt. simpl in Hlt. rewrite app_nil_r in Hlt.
  apply Forall_app in Hlt as [_ Hlt].
  destruct (Revisions g) as [|r rs]; [done|]. inv Hlt. inv Hg0.
  apply rev_le_lteq. left. eauto with metastore.
Qed.

Lemma created_single rev :
  Forall (fun g => Forall (rev_le (Created g)) (Revisions g)) [mkGeneration rev [rev]].
Proof. constructor; [|done]. constructor; [apply rev_le_refl|done]. Qed.

Lemma sorted_snoc revs rev :
  StronglySorted rev_lt revs -> Forall (fun r => rev_lt r rev) revs ->
  StronglySorted rev_lt (revs ++ [rev]).
Proof.
  intros Hs Hf. apply StronglySorted_app_2; [|done|by repeat constructor].
  rewrite Forall_forall in Hf. intros r s Hr Hs'. apply list_elem_of_singleton in Hs' as ->. auto.
Qed.

(** ** Compaction of one item *)

Definition keptBy (atRev r : Revision) : bool := LessThanOrEqual atRev r.

(** The number of leading revisions before [atRev]. *)
Fixpoint leading (atRev : Revision) (revs : list Revision) : nat :=
  match revs with
  | [] => 0
  | r :: revs' => if keptBy atRev r then 0 else S (leading atRev revs')
  end.

Lemma compactScan_leading atRev revs j removed :
  compactScan atRev revs j j removed =
    (j + Z.of_nat (leading atRev revs), removed + Z.of_nat (leading atRev revs)).
Proof.
  revert j removed. induction revs as [|r revs IH]; intros j removed; simpl.
  - f_equal; lia.
  - rewrite GreaterThanOrEqual_le. fold (keptBy atRev r). destruct (keptBy atRev r).
    + f_equal; lia.
    + rewrite IH. f_equal; lia.
Qed.

Lemma keptBy_mono atRev r s : keptBy atRev r = true -> rev_lt r s -> keptBy atRev s = true.
Proof.
  unfold keptBy. rewrite !LessThanOrEqual_iff, (rev_le_lteq atRev s). eauto with metastore.
Qed.

Lemma keptBy_sorted_tail atRev r revs :
  Forall (rev_lt r) revs -> keptBy atRev r = true ->
  List.filter (keptBy atRev) revs = revs /\ List.filter (fun r => negb (keptBy atRev r)) revs = [].
Proof.
  intros Hall Hr. induction Hall as [|s revs Hs _ [IH1 IH2]]; simpl; [done|].
  rewrite (keptBy_mono _ _ _ Hr Hs). simpl. by rewrite IH1.
Qed.

Lemma leading_spec atRev revs :
  StronglySorted rev_lt revs ->
  drop (leading atRev revs) revs = List.filter (keptBy atRev) revs /\
  leading atRev revs = length (List.filter (fun r => negb (keptBy atRev r)) revs).
Proof.
  induction 1 as [|r revs _ [IH1 IH2] Hall]; simpl; [done|].
  destruct (keptBy atRev r) eqn:E; simpl; [|by rewrite IH1, IH2].
  destruct (keptBy_sorted_tail _ _ _ Hall E) as [-> ->]. done.
Qed.

Lemma filter_all_nil {A} (f : A -> bool) l :
  length (List.filter (fun x => negb (f x)) l) = length l -> List.filter f l = [].
Proof.
  induction l as [|x l IH]; simpl; [done|]. destruct (f x); simpl; intros H; [|apply IH; lia].
  pose proof (filter_length_le (fun x => negb (f x)) l). lia.
Qed.

Lemma compactGeneration_spec atRev gen :
  StronglySorted rev_lt (Revisions gen) ->
  compactGeneration atRev gen =
    (match List.filter (keptBy atRev) (Revisions gen) with
     | [] => None | revs => Some (mkGeneration (Created gen) revs) end,
     Z.of_nat (length (List.filter (fun r => negb (keptBy atRev r)) (Revisions gen)))).
Proof.
  intros Hs. unfold compactGeneration. rewrite compactScan_leading.
  destruct (leading_spec atRev _ Hs) as [H1 H2]. rewrite !Z.add_0_l, Nat2Z.id, H1, H2.
  destruct (Z.ltb_spec
    (Z.of_nat (length (List.filter (fun r => negb (keptBy atRev r)) (Revisions gen))))
    (Z.of_nat (length (Revisions gen)))) as [Hlt|Hge].
  - destruct (List.filter (keptBy atRev) (Revisions gen)) eqn:E; [|done].
    pose proof (f_equal length H1) as Hl. rewrite length_drop in Hl. simpl in Hl. lia.
  - rewrite (filter_all_nil (keptBy atRev)); [done|].
    pose proof (filter_length_le (fun r => negb (keptBy atRev r)) (Revisions gen)). lia.
Qed.

Lemma sorted_concat_each gens :
  StronglySorted rev_lt (concat (Revisions <$> gens)) ->
  Forall (fun g => StronglySorted rev_lt (Revisions g)) gens.
Proof.
  induction gens as [|g gens IH]; simpl; intros Hs; constructor.
  - by eapply StronglySorted_app_1_l.
  - by eapply IH, StronglySorted_app_1_r.
Qed.

(** Compacting keeps exactly the revisions at or above the target, in
    generations that are never empty, and counts the others. *)
Lemma compactGenerations_spec atRev gens :
  Forall (fun g => StronglySorted rev_lt (Revisions g)) gens ->
  concat (Revisions <$> (compactGenerations atRev gens).1)
    = List.filter (keptBy atRev) (concat (Revisions <$> gens)) /\
  (compactGenerations atRev gens).2
    = Z.of_nat (length (List.filter (fun r => negb (keptBy atRev r)) (concat (Revisions <$> gens)))) /\
  Forall (fun g => Revisions g <> []) (compactGenerations atRev gens).1 /\
  (forall g, g ∈ (compactGenerations atRev gens).1 ->
     exists g0, g0 ∈ gens /\ Created g = Created g0 /\
       Revisions g = List.filter (keptBy atRev) (Revisions g0)).
Proof.
  induction 1 as [|g gens Hg _ IH]; simpl; [by repeat split; set_solver|].
  rewrite compactGeneration_spec by done.
  destruct (compactGenerations atRev gens) as [rest m]. destruct IH as (IH1 & IH2 & IH3 & IH4).
  simpl in *. rewrite !List.filter_app, length_app.
  change (list_fmap Generation (list Revision) Revisions gens) with (Revisions <$> gens).
  rewrite <- IH1, IH2.
  destruct (List.filter (keptBy atRev) (Revisions g)) as [|r rs] eqn:E; simpl.
  - split_and!; [done|lia|done|]. intros g' Hg'. destruct (IH4 g' Hg') as (g0 & ? & ?).
    exists g0. split; [by right|done].
  - split_and!; [done|lia|by constructor|]. intros g' [->|Hg']%elem_of_cons.
    + exists g. split_and!; [by left|done|done].
    + destruct (IH4 g' Hg') as (g0 & ? & ?). exists g0. split; [by right|done].
Qed.

(** [Compact] on one item: [None] when no revision is left. *)
Definition compactedItem (atRev : Revision) (ki : KeyItem) : option KeyItem :=
  match (compactGenerations atRev (Generations ki)).1 with
  | [] => None
  | gens => Some (mkKeyItem (ki_Key ki) gens (Modified ki))
  end.

Lemma compactedItem_None atRev ki :
  wf_item ki -> compactedItem atRev ki = None -> List.filter (keptBy atRev) (itemRevs ki) = [].
Proof.
  intros [Hs _] H. unfold compactedItem in H.
  destruct (compactGenerations_spec atRev _ (sorted_concat_each _ Hs)) as (H1 & _).
  unfold itemRevs. rewrite <- H1. by destruct (compactGenerations atRev (Generations ki)).1.
Qed.

Lemma compactedItem_Some atRev ki ki' :
  wf_item ki -> compactedItem atRev ki = Some ki' ->
  ki_Key ki' = ki_Key ki /\ wf_item ki' /\
  itemRevs ki' = List.filter (keptBy atRev) (itemRevs ki) /\ itemRevs ki' <> [] /\
  IsDeleted ki' = false.
Proof.
  intros [Hs Hc] H. unfold compactedItem in H.
  destruct (compactGenerations_spec atRev _ (sorted_concat_each _ Hs)) as (H1 & _ & H3 & H4).
  destruct (compactGenerations atRev (Generations ki)).1 as [|g gens] eqn:E; simplify_eq.
  unfold itemRevs. simpl in *. rewrite H1. inv H3 as [|? ? Hg Hgens].
  split_and!; [done|constructor|done| |].
  - unfold itemRevs. simpl. rewrite H1. by apply filter_sorted.
  - apply Forall_forall. intros g' Hg'. simpl in Hg'. destruct (H4 _ Hg') as (g0 & Hin & -> & ->).
    rewrite Forall_forall in Hc. specialize (Hc _ Hin). rewrite Forall_forall in Hc |- *.
    intros r Hr%list_elem_of_In%filter_In. apply Hc, list_elem_of_In, Hr.
  - rewrite <- H1. by destruct (Revisions g).
  - unfold IsDeleted, CurrentGeneration. simpl Generations.
    assert (Hl : forall g0, last (g :: gens) = Some g0 -> Revisions g0 <> []).
    { intros g0 [l' Hl']%last_Some. assert (Hin : g0 ∈ g :: gens) by (rewrite Hl'; set_solver).
      apply elem_of_cons in Hin as [->|Hin]; [done|]. rewrite Forall_forall in Hgens. by apply Hgens. }
    destruct (last (g :: gens)) as [g0|] eqn:El.
    + specialize (Hl g0 eq_refl). unfold IsEmpty. by destruct (Revisions g0).
    + by apply last_None in El.
Qed.

Section index_facts.
Context {T : Type -> Type} `{!BTree string T, !BTreeLaws string T}.

(** The history of a key in the index. *)
Definition idxRevs (idx : T KeyItem) (key : string) : list Revision :=
  match Get idx key with Some ki => itemRevs ki | None => [] end.

Definition idxDeleted (idx : T KeyItem) (key : string) : bool :=
  match Get idx key with Some ki => IsDeleted ki | None => true end.

Definition wf_index (idx : T KeyItem) : Prop :=
  forall key ki, Get idx key = Some ki -> ki_Key ki = key /\ wf_item ki.

Lemma wf_new : wf_index NewKeyIndex.
Proof. intros key ki. unfold Get, NewKeyIndex. by rewrite bt_get_new. Qed.

Lemma GetRevision_spec idx key atRev :
  wf_index idx ->
  GetRevision idx key atRev =
    default Zero (last_such (fun r => LessThanOrEqual r atRev) (idxRevs idx key)).
Proof.
  intros Hwf. unfold GetRevision, idxRevs. destruct (Get idx key) as [ki|] eqn:E; [|done].
  apply FindRevision_spec. by eapply Hwf.
Qed.

Lemma Put_spec idx key rev :
  wf_index idx -> Forall (fun r => rev_lt r rev) (idxRevs idx key) ->
  wf_index (Put idx key rev) /\
  idxRevs (Put idx key rev) key = idxRevs idx key ++ [rev] /\
  idxDeleted (Put idx key rev) key = false /\
  (forall key', key <> key' -> Get (Put idx key rev) key' = Get idx key').
Proof.
  intros Hwf Hlt.
  assert (Hne : forall key', key <> key' -> Get (Put idx key rev) key' = Get idx key').
  { intros key' Hk. unfold Get, Put. destruct (bt_get key idx); by rewrite bt_get_insert_ne. }
  enough (exists ki, Get (Put idx key rev) key = Some ki /\ ki_Key ki = key /\ wf_item ki /\
            itemRevs ki = idxRevs idx key ++ [rev] /\ IsDeleted ki = false)
    as (ki & Hg & Hk & Hw & Hr & Hd).
  { split_and!; [|unfold idxRevs at 1; by rewrite Hg|unfold idxDeleted; by rewrite Hg|done].
    intros key' ki' Hg'. destruct (decide (key = key')) as [<-|]; [naive_solver|].
    rewrite Hne in Hg' by done. by apply Hwf. }
  unfold Put, idxRevs in *. unfold Get in *.
  destruct (bt_get key idx) as [ki|] eqn:E; rewrite bt_get_insert_eq.
  - destruct (Hwf key ki E) as [Hkey [Hs Hc]].
    destruct (CurrentGeneration ki) as [gen|] eqn:Eg; [destruct (IsEmpty gen) eqn:Ee|].
    2:{ eexists. split; [done|]. unfold CurrentGeneration in Eg.
        assert (Revisions gen <> []) by (intros Hnil; unfold IsEmpty in Ee; by rewrite Hnil in Ee).
        split_and!; [done|constructor|..]; unfold itemRevs; simpl.
        - rewrite concat_setLast by done. by apply sorted_snoc.
        - by apply created_setLast.
        - by apply concat_setLast.
        - unfold IsDeleted, CurrentGeneration, setLast. simpl. rewrite last_snoc.
          unfold IsEmpty. simpl. rewrite length_app. simpl. by rewrite Nat.add_1_r. }
    all: eexists; split; [done|]; split_and!; [done|constructor|..]; unfold itemRevs; simpl;
      rewrite ?fmap_app, ?concat_app; simpl.
    all: try (by apply sorted_snoc).
    all: try done.
    all: try (unfold IsDeleted, CurrentGeneration; simpl; by rewrite last_snoc).
    all: apply Forall_app; split; [done|apply created_single].
  - eexists; split; [done|]. split_and!; [done|constructor|..]; unfold itemRevs; simpl; try done.
    + by repeat constructor.
    + apply created_single.
Qed.

Lemma Delete_spec idx key rev :
  wf_index idx -> Forall (fun r => rev_lt r rev) (idxRevs idx key) ->
  idxDeleted idx key = false ->
  wf_index (Delete idx key rev).1 /\
  idxRevs (Delete idx key rev).1 key = idxRevs idx key ++ [rev] /\
  idxDeleted (Delete idx key rev).1 key = true /\
  (Delete idx key rev).2 = true /\
  (forall key', key <> key' -> Get (Delete idx key rev).1 key' = Get idx key').
Proof.
  intros Hwf Hlt Hdel.
  unfold idxDeleted, idxRevs, IsDeleted in Hdel, Hlt. unfold Get in Hdel, Hlt.
  destruct (bt_get key idx) as [ki|] eqn:E; [|done].
  destruct (CurrentGeneration ki) as [gen|] eqn:Eg; [|done].
  destruct (Hwf key ki E) as [Hkey [Hs Hc]].
  assert (Revisions gen <> []) by (intros Hnil; unfold IsEmpty in Hdel; by rewrite Hnil in Hdel).
  unfold Delete at 1 2 3 4 5. rewrite E, Eg, Hdel. simpl.
  set (gens := setLast _ _ ++ _).
  assert (Hrevs : concat (Revisions <$> gens) = itemRevs ki ++ [rev]).
  { unfold gens. rewrite fmap_app, concat_app, concat_setLast by done. simpl. by rewrite app_nil_r. }
  split_and!.
  - intros key' ki'. unfold Get. rewrite bt_get_insert.
    destruct (decide (key = key')) as [<-|]; [|by apply Hwf].
    intros [= <-]. split; [done|]. constructor; simpl.
    + unfold itemRevs. simpl. rewrite Hrevs. by apply sorted_snoc.
    + unfold gens. apply Forall_app. split; [by apply created_setLast|by repeat constructor].
  - unfold idxRevs, Get. rewrite bt_get_insert_eq, E. unfold itemRevs at 1. simpl. done.
  - unfold idxDeleted, Get. rewrite bt_get_insert_eq. unfold IsDeleted, CurrentGeneration. simpl.
    unfold gens. by rewrite last_snoc.
  - done.
  - intros key' Hk. unfold Get. by rewrite bt_get_insert_ne.
Qed.

(** ** Range iteration *)

Definition inRange (start : string) (end_ : option string) (key : string) : bool :=
  negb (str_ltb key start) && match end_ with Some e => str_ltb key e | None => true end.

(** What [Range] hands to its callback, in order. *)
Definition rangeEntry (atRev : Revision) (p : string * KeyItem) : option (string * Revision) :=
  let rev := rangeRevision atRev p.2 in if IsZero rev then None else Some (p.1, rev).

Definition rangeList (idx : T KeyItem) (start : string) (end_ : option string) (atRev : Revision) :
    list (string * Revision) :=
  omap (rangeEntry atRev) (List.filter (fun p => inRange start end_ p.1) (bt_ascend idx)).

Lemma filter_sorted_nil {V} (l : list (string * V)) k e :
  str_ltb k e = false -> Forall (fun p => lessb k p.1 = true) l ->
  List.filter (fun p => str_ltb p.1 e) l = [].
Proof.
  intros Hk Hl. induction Hl as [|p l Hp _ IH]; simpl; [done|].
  destruct (str_ltb p.1 e) eqn:E; [|done].
  unfold lessb, string_less in Hp. rewrite (str_ltb_trans _ _ _ Hp E) in Hk. done.
Qed.

Lemma Range_rangeList {S} idx start end_ atRev (fn : S -> string -> Revision -> S * bool) s0 :
  wf_index idx ->
  Range idx start end_ atRev fn s0 =
    iter_while (fun s p => fn s p.1 p.2) s0 (rangeList idx start end_ atRev).
Proof.
  intros Hwf. unfold Range, rangeList. rewrite bt_ascend_ge_filter.
  assert (Hkeys : Forall (fun p => ki_Key p.2 = p.1) (bt_ascend idx)).
  { apply Forall_forall. intros [k ki] Hin. apply bt_ascend_elem in Hin. by apply Hwf. }
  pose proof (bt_ascend_sorted idx) as Hs. revert s0.
  induction Hs as [|p l _ IH Hall]; intros s0; [done|].
  inv Hkeys as [|? ? Hkey Hkeys']. simpl. unfold inRange at 1.
  unfold lessb, string_less in *. destruct (str_ltb p.1 start) eqn:Es; simpl; [by apply IH|].
  rewrite Hkey. destruct end_ as [e|]; simpl.
  - destruct (str_ltb p.1 e) eqn:Ee; simpl.
    + unfold rangeEntry at 1. destruct (IsZero (rangeRevision atRev p.2)); [by apply IH|].
      simpl. destruct (fn s0 p.1 _) as [s1 []]; [by apply IH|done].
    + rewrite (filter_ext_in _ (fun q => str_ltb q.1 e)).
      * by rewrite (filter_sorted_nil _ _ _ Ee Hall).
      * intros q Hq%list_elem_of_In. unfold inRange. rewrite Forall_forall in Hall.
        specialize (Hall _ Hq). destruct (str_ltb q.1 start) eqn:Eq; [|done].
        by rewrite (str_ltb_trans _ _ _ Hall Eq) in Es.
  - unfold rangeEntry at 1. destruct (IsZero (rangeRevision atRev p.2)); [by apply IH|].
    simpl. destruct (fn s0 p.1 _) as [s1 []]; [by apply IH|done].
Qed.

Lemma elem_of_rangeList idx start end_ atRev k r :
  (k, r) ∈ rangeList idx start end_ atRev <->
  inRange start end_ k = true /\ r <> Zero /\
  exists ki, Get idx k = Some ki /\ rangeRevision atRev ki = r.
Proof.
  unfold rangeList. rewrite list_elem_of_omap. setoid_rewrite list_elem_of_In.
  setoid_rewrite filter_In. setoid_rewrite <- list_elem_of_In. split.
  - intros ([k' ki] & [Hin Hr] & He). unfold rangeEntry in He. simpl in *.
    destruct (IsZero (rangeRevision atRev ki)) eqn:Ez; simplify_eq.
    apply bt_ascend_elem in Hin. split_and!; [done|by apply IsZero_false|by exists ki].
  - intros (Hr & Hz & ki & Hg & <-). exists (k, ki). split_and!; [by apply bt_ascend_elem|done|].
    unfold rangeEntry. simpl. apply IsZero_false in Hz. by rewrite Hz.
Qed.

Lemma omap_sorted_keys {V W} (f : string * V -> option (string * W)) l :
  (forall p q, f p = Some q -> q.1 = p.1) ->
  StronglySorted (fun p q => lessb p.1 q.1 = true) l ->
  StronglySorted (fun p q => lessb p.1 q.1 = true) (omap f l).
Proof.
  intros Hf. induction 1 as [|p l _ IH Hall]; simpl; [constructor|].
  destruct (f p) as [q|] eqn:E; [|done]. constructor; [done|].
  apply Forall_forall. intros q' Hq'. apply list_elem_of_omap in Hq' as (p' & Hp' & E').
  rewrite (Hf _ _ E), (Hf _ _ E'). rewrite Forall_forall in Hall. by apply Hall.
Qed.

Lemma rangeList_sorted idx start end_ atRev :
  StronglySorted (fun p q => lessb p.1 q.1 = true) (rangeList idx start end_ atRev).
Proof.
  apply omap_sorted_keys; [|apply filter_sorted, bt_ascend_sorted].
  intros p q. unfold rangeEntry. simpl. destruct (IsZero _); [done|]. by intros [= <-].
Qed.

(** ** Compaction *)

Definition compactSpec (atRev : Revision) (idx : T KeyItem) (key : string) : option KeyItem :=
  bt_get key idx ≫= compactedItem atRev.

(** The state of the [Ascend] loop after visiting [l]. *)
Lemma compactItem_fold atRev idx st l :
  NoDup l.*1 -> (forall k ki, (k, ki) ∈ l -> bt_get k idx = Some ki) ->
  let st' := fold_left (compactItem atRev) l st in
  (forall key, key ∈ cs_keysToDelete st' <->
     key ∈ cs_keysToDelete st \/ (key ∈ l.*1 /\ compactSpec atRev idx key = None)) /\
  (forall key, key ∉ l.*1 -> bt_get key (cs_idx st') = bt_get key (cs_idx st)) /\
  (forall key ki, key ∈ l.*1 -> compactSpec atRev idx key = Some ki -> bt_get key (cs_idx st') = Some ki).
Proof.
  revert st. induction l as [|[k ki] l IH]; intros st Hnd Hget; simpl; [set_solver|].
  cbn in Hnd. apply NoDup_cons in Hnd as [Hk Hnd].
  assert (Hki : bt_get k idx = Some ki) by (apply Hget; by left).
  destruct (IH (compactItem atRev st (k, ki)) Hnd) as (IH1 & IH2 & IH3);
    [intros; apply Hget; by right|]. clear IH.
  assert (Hspec : compactSpec atRev idx k = compactedItem atRev ki) by (unfold compactSpec; by rewrite Hki).
  assert (Hst : compactedItem atRev ki = None /\
      cs_keysToDelete (compactItem atRev st (k, ki)) = cs_keysToDelete st ++ [k] /\
      cs_idx (compactItem atRev st (k, ki)) = cs_idx st \/
    exists ki', compactedItem atRev ki = Some ki' /\
      cs_keysToDelete (compactItem atRev st (k, ki)) = cs_keysToDelete st /\
      cs_idx (compactItem atRev st (k, ki)) = bt_replace_or_insert k ki' (cs_idx st)).
  { unfold compactItem, compactedItem. simpl.
    destruct (compactGenerations atRev (Generations ki)) as [[|g gens] n]; simpl; [by left|].
    right. eexists; done. }
  destruct Hst as [(Hc & Hd & Hi)|(ki' & Hc & Hd & Hi)]; rewrite Hc in Hspec; split_and!; intros key.
  - rewrite IH1, Hd, elem_of_app, list_elem_of_singleton, elem_of_cons. naive_solver.
  - rewrite not_elem_of_cons. intros [? ?]. by rewrite IH2, Hi.
  - intros ki0 [->|Hin]%elem_of_cons Hs; [congruence|by eapply IH3].
  - rewrite IH1, Hd, elem_of_cons. naive_solver.
  - rewrite not_elem_of_cons. intros [? ?]. rewrite IH2, Hi by done. by rewrite bt_get_insert_ne.
  - intros ki0 [->|Hin]%elem_of_cons Hs; [|by eapply IH3].
    rewrite IH2, Hi by done. rewrite bt_get_insert_eq. congruence.
Qed.

Lemma ascend_nodup {V} (t : T V) : NoDup (bt_ascend t).*1.
Proof.
  induction (bt_ascend_sorted t) as [|p l _ IH Hall]; cbn; constructor; [|done].
  intros (q & Hq & Hin)%list_elem_of_fmap. rewrite Forall_forall in Hall. specialize (Hall _ Hin).
  rewrite Hq in Hall. by rewrite lessb_irrefl in Hall.
Qed.

Lemma ascend_key {V} (t : T V) key : key ∈ (bt_ascend t).*1 <-> is_Some (bt_get key t).
Proof.
  rewrite list_elem_of_fmap. split.
  - intros ([k v] & -> & Hin). apply bt_ascend_elem in Hin. by exists v.
  - intros [v Hv]. exists (key, v). split; [done|]. by apply bt_ascend_elem.
Qed.

(** [Compact] acts on every key of the index independently. *)
Lemma Compact_get idx atRev key :
  Get (Compact idx atRev).1 key = compactSpec atRev idx key.
Proof.
  unfold Compact, Get. simpl. rewrite (bt_get_deletes (fun k => k)), list_fmap_id.
  destruct (compactItem_fold atRev idx (mkCompactState idx 0 []) (bt_ascend idx)) as (H1 & H2 & H3).
  { apply ascend_nodup. } { intros k ki. apply bt_ascend_elem. }
  simpl in *. case_decide as Hd.
  - apply H1 in Hd as [Hd|[_ Hd]]; [by apply elem_of_nil in Hd|done].
  - destruct (compactSpec atRev idx key) as [ki|] eqn:Es.
    + apply H3; [|done]. apply ascend_key. unfold compactSpec in Es.
      destruct (bt_get key idx); [by eexists|done].
    + destruct (decide (key ∈ (bt_ascend idx).*1)) as [Hin|Hin]; [naive_solver|].
      rewrite H2 by done. rewrite ascend_key in Hin. by apply eq_None_not_Some.
Qed.

Lemma Compact_spec idx atRev :
  wf_index idx ->
  wf_index (Compact idx atRev).1 /\
  (forall key, idxRevs (Compact idx atRev).1 key = List.filter (keptBy atRev) (idxRevs idx key)) /\
  (forall key, idxDeleted (Compact idx atRev).1 key =
     match List.filter (keptBy atRev) (idxRevs idx key) with [] => true | _ => false end).
Proof.
  intros Hwf.
  assert (Hkey : forall key, Get (Compact idx atRev).1 key = None /\ List.filter (keptBy atRev) (idxRevs idx key) = []
    \/ exists ki, Get (Compact idx atRev).1 key = Some ki /\ ki_Key ki = key /\ wf_item ki /\
          itemRevs ki = List.filter (keptBy atRev) (idxRevs idx key) /\ itemRevs ki <> [] /\
          IsDeleted ki = false).
  { intros key. rewrite Compact_get. unfold compactSpec, idxRevs, Get.
    destruct (bt_get key idx) as [ki|] eqn:E; simpl; [|by left].
    destruct (Hwf _ _ E) as [Hk Hw].
    destruct (compactedItem atRev ki) as [ki'|] eqn:Ec.
    - right. apply compactedItem_Some in Ec; [|done]. exists ki'. naive_solver.
    - left. split; [done|]. by apply compactedItem_None. }
  split_and!.
  - intros key ki Hg. destruct (Hkey key) as [[? _]|(ki' & ? & ? & ? & _)]; naive_solver.
  - intros key. unfold idxRevs at 1. destruct (Hkey key) as [[-> ->]|(ki' & -> & _ & _ & H & _)]; done.
  - intros key. unfold idxDeleted. destruct (Hkey key) as [[-> ->]|(ki' & -> & _ & _ & <- & Hne & ->)]; [done|].
    by destruct (itemRevs ki').
Qed.

(** The number [Compact] returns: the revisions of the index below the target. *)
Lemma Compact_removed idx atRev :
  wf_index idx ->
  (Compact idx atRev).2 =
    fold_left (fun n p => n + Z.of_nat (length (List.filter (fun r => negb (keptBy atRev r)) (itemRevs p.2))))
      (bt_ascend idx) 0.
Proof.
  intros Hwf. unfold Compact. simpl.
  assert (Hw : Forall (fun p => wf_item p.2) (bt_ascend idx)).
  { apply Forall_forall. intros [k ki] Hin. apply bt_ascend_elem in Hin. by apply (Hwf k). }
  change 0 with (cs_removed (mkCompactState idx 0 [])) at 2.
  generalize (mkCompactState idx 0 []). induction Hw as [|[k ki] l [Hs _] _ IH]; intros st; simpl; [done|].
  rewrite IH. f_equal. unfold compactItem. simpl.
  destruct (compactGenerations_spec atRev _ (sorted_concat_each _ Hs)) as (_ & H2 & _).
  simpl in H2. unfold itemRevs. rewrite <- H2.
  by destruct (compactGenerations atRev (Generations ki)) as [[|] n].
Qed.

End index_facts.
