(* ===== verification/MemoryStore.v ===== *)
(** * The in-memory MVCC store ([internal/mvcc/memory_store.go], with the types
    of [internal/mvcc/store.go])

    The store is a key index, a B-tree from revisions to records and a revision
    generator.  Every exported method holds the store's mutex from its first
    line to its return, so a method is one step on the state.  A method that
    returns an error leaves the store as it was: its result is [Err e], and
    [Ok (s', x)] otherwise.  [putAt], [prevKvOf] and [tombstoneAt] are the
    statements the source repeats in [Put]/[executePut] and in the four
    deletions. *)

From S2P Require Import Prelude GoBytes Revision OrderedTree KeyValue KeyIndex.
Local Open Scope go_scope.

(** ** Transaction types *)

(** [ConditionTarget] and [CompareType] are Go integers: the last constructor
    is any value that is not one of the named constants. *)
Inductive ConditionTarget : Set :=
  | ConditionTargetVersion | ConditionTargetCreateRevision | ConditionTargetModRevision
  | ConditionTargetValue | ConditionTargetOther (n : Z).

Inductive CompareType : Set :=
  | CompareEqual | CompareNotEqual | CompareLess | CompareGreater | CompareOther (n : Z).

(** The dynamic values an [interface{}] operand holds. *)
Inductive CondValue : Set :=
  | CondInt (n : Z)
  | CondBytes (b : string)
  | CondNil.

Record Condition := mkCondition {
  c_Key : string;
  c_Target : ConditionTarget;
  c_Compare : CompareType;
  c_Value : CondValue;
}.

Inductive OpType : Set :=
  | OpTypePut | OpTypeGet | OpTypeDelete | OpTypeDeleteRange | OpTypeOther (n : Z).

Record Op := mkOp {
  op_Type : OpType;
  op_Key : string;
  op_End : option string;
  op_Value : string;
  op_Lease : Z;
}.

Record OpResponse := mkOpResponse {
  or_Type : OpType;
  or_Kvs : list KeyValue;
  or_Deleted : Z;
}.

Record TxnResponse := mkTxnResponse {
  tr_Succeeded : bool;
  tr_Revision : Z;
  tr_Responses : list OpResponse;
}.

Record memoryTxn := mkMemoryTxn {
  conditions : list Condition;
  thenOps : list Op;
  elseOps : list Op;
}.

Definition newTxn : memoryTxn := mkMemoryTxn [] [] [].
Definition txnIf (t : memoryTxn) (conds : list Condition) : memoryTxn :=
  mkMemoryTxn (conditions t ++ conds) (thenOps t) (elseOps t).
Definition txnThen (t : memoryTxn) (ops : list Op) : memoryTxn :=
  mkMemoryTxn (conditions t) (thenOps t ++ ops) (elseOps t).
Definition txnElse (t : memoryTxn) (ops : list Op) : memoryTxn :=
  mkMemoryTxn (conditions t) (thenOps t) (elseOps t ++ ops).

(** [compare]; [None] is the panic of a failed type assertion on [expected]. *)
Definition compare (actual : CondValue) (cmp : CompareType) (expected : CondValue) : option bool :=
  match actual with
  | CondInt a =>
      match expected with
      | CondInt e =>
          Some match cmp with
               | CompareEqual => a =? e
               | CompareNotEqual => negb (a =? e)
               | CompareLess => a <? e
               | CompareGreater => a >? e
               | CompareOther _ => false
               end
      | _ => None
      end
  | CondBytes a =>
      match expected with
      | CondBytes e =>
          Some match cmp with
               | CompareEqual => String.eqb a e
               | CompareNotEqual => negb (String.eqb a e)
               | CompareLess => str_ltb a e
               | CompareGreater => str_ltb e a
               | CompareOther _ => false
               end
      | _ => None
      end
  | CondNil => Some false
  end.

(** What [evaluateCondition] compares, from the record it found. *)
Definition condActual (kv : option KeyValue) (target : ConditionTarget) : CondValue :=
  match target with
  | ConditionTargetVersion => CondInt match kv with Some kv => Version kv | None => 0 end
  | ConditionTargetCreateRevision =>
      CondInt match kv with Some kv => CreateRevision kv | None => 0 end
  | ConditionTargetModRevision => CondInt match kv with Some kv => ModRevision kv | None => 0 end
  | ConditionTargetValue => CondBytes match kv with Some kv => Value kv | None => "" end
  | ConditionTargetOther _ => CondNil
  end.

(** ** The store *)

Section store.
Context {TI TR : Type -> Type} `{!BTree string TI, !BTree Revision TR}.

Record MemoryStore := mkMemoryStore {
  keyIndex : TI KeyItem;
  revisionStore : TR KeyValue;
  revisionGen : RevisionGenerator;
  compactedRev : Revision;
  closed : bool;
}.

Definition NewMemoryStore : MemoryStore :=
  mkMemoryStore NewKeyIndex (bt_new KeyValue) (NewRevisionGenerator (mkRevision 0 0)) Zero false.

Definition setGen (s : MemoryStore) (g : RevisionGenerator) : MemoryStore :=
  mkMemoryStore (keyIndex s) (revisionStore s) g (compactedRev s) (closed s).

(** [ki != nil && !ki.IsDeleted()] *)
Definition liveItem (s : MemoryStore) (key : string) : option KeyItem :=
  match KeyIndex.Get (keyIndex s) key with
  | Some ki => if IsDeleted ki then None else Some ki
  | None => None
  end.

(** The record of [ki.CurrentGeneration().LastRevision()], if it is there. *)
Definition prevKvOf (s : MemoryStore) (ki : KeyItem) : option KeyValue :=
  match CurrentGeneration ki with
  | Some gen =>
      let prevRev := LastRevision gen in
      if IsZero prevRev then None else bt_get prevRev (revisionStore s)
  | None => None
  end.

Definition putAt (s : MemoryStore) (key value : string) (lease : Z) (rev : Revision) : MemoryStore :=
  let '(createRev, version) :=
    match liveItem s key with
    | Some ki =>
        match prevKvOf s ki with
        | Some prevKv => (CreateRevision prevKv, wrap_i64 (Version prevKv + 1))
        | None => (0, 1)
        end
    | None => (Main rev, 1)
    end in
  let kv := mkKeyValue key value createRev (Main rev) version lease in
  mkMemoryStore (KeyIndex.Put (keyIndex s) key rev)
    (bt_replace_or_insert rev kv (revisionStore s)) (revisionGen s) (compactedRev s) (closed s).

Definition tombstoneAt (s : MemoryStore) (key : string) (ki : KeyItem) (rev : Revision) : MemoryStore :=
  let createRev := match prevKvOf s ki with Some kv => CreateRevision kv | None => 0 end in
  let tombstone := mkKeyValue key "" createRev (Main rev) 0 0 in
  mkMemoryStore (KeyIndex.Delete (keyIndex s) key rev).1
    (bt_replace_or_insert rev tombstone (revisionStore s)) (revisionGen s) (compactedRev s) (closed s).

Definition Put (s : MemoryStore) (key value : string) (lease : Z) :
    result MvccError (MemoryStore * Z) :=
  fail_if str_len key =? 0 with ErrEmptyKey;
  fail_if closed s with ErrClosed;
  let '(g, rev) := Next (revisionGen s) in
  Ok (putAt (setGen s g) key value lease rev, Main rev).

Definition readRevision (s : MemoryStore) (rev : Z) : Revision :=
  if rev =? 0 then Current (revisionGen s) else mkRevision rev 0.

Definition Get (s : MemoryStore) (key : string) (rev : Z) : result MvccError KeyValue :=
  fail_if str_len key =? 0 with ErrEmptyKey;
  fail_if closed s with ErrClosed;
  let atRev := readRevision s rev in
  fail_if LessThan atRev (compactedRev s) with ErrCompacted;
  fail_if GreaterThan atRev (Current (revisionGen s)) with ErrFutureRevision;
  let keyRev := GetRevision (keyIndex s) key atRev in
  fail_if IsZero keyRev with ErrKeyNotFound;
  match bt_get keyRev (revisionStore s) with
  | None => Err ErrKeyNotFound
  | Some kv => fail_if Version kv =? 0 with ErrKeyNotFound; Ok kv
  end.

(** The callback of [Range], on the result list and its count. *)
Definition rangeCallback (s : MemoryStore) (limit : Z) (st : list KeyValue * Z)
    (key : string) (keyRev : Revision) : (list KeyValue * Z) * bool :=
  let '(res, count) := st in
  if (limit >? 0) && (count >=? limit) then (st, false)
  else
    match bt_get keyRev (revisionStore s) with
    | None => (st, true)
    | Some kv => if Version kv =? 0 then (st, true) else ((res ++ [kv], wrap_i64 (count + 1)), true)
    end.

Definition Range (s : MemoryStore) (start : string) (end_ : option string) (rev limit : Z) :
    result MvccError (list KeyValue * Z) :=
  fail_if str_len start =? 0 with ErrEmptyKey;
  fail_if closed s with ErrClosed;
  let atRev := readRevision s rev in
  fail_if LessThan atRev (compactedRev s) with ErrCompacted;
  fail_if GreaterThan atRev (Current (revisionGen s)) with ErrFutureRevision;
  Ok (KeyIndex.Range (keyIndex s) start end_ atRev (rangeCallback s limit) ([], 0)).

Definition Delete (s : MemoryStore) (key : string) : result MvccError (MemoryStore * (Z * Z)) :=
  fail_if str_len key =? 0 with ErrEmptyKey;
  fail_if closed s with ErrClosed;
  match liveItem s key with
  | None => Ok (s, (Main (Current (revisionGen s)), 0))
  | Some ki =>
      let '(g, rev) := Next (revisionGen s) in
      Ok (tombstoneAt (setGen s g) key ki rev, (Main rev, 1))
  end.

(** The keys [DeleteRange] collects: the live ones of the range. *)
Definition collectKeys (s : MemoryStore) (start : string) (end_ : option string) : list string :=
  KeyIndex.Range (keyIndex s) start end_ Zero (fun keys key _ => (keys ++ [key], true)) [].

(** The loop over [keysToDelete]: the store, [deleted] and [lastSubRev]. *)
Fixpoint deleteKeys (revOf : Z -> Revision) (i : Z) (keys : list string)
    (st : MemoryStore * Z * Z) : MemoryStore * Z * Z :=
  match keys with
  | [] => st
  | key :: keys' =>
      let '(s, deleted, lastSubRev) := st in
      match liveItem s key with
      | None => deleteKeys revOf (i + 1) keys' st
      | Some ki =>
          deleteKeys revOf (i + 1) keys' (tombstoneAt s key ki (revOf i), wrap_i64 (deleted + 1), i)
      end
  end.

Definition DeleteRange (s : MemoryStore) (start : string) (end_ : option string) :
    result MvccError (MemoryStore * (Z * Z)) :=
  fail_if str_len start =? 0 with ErrEmptyKey;
  fail_if closed s with ErrClosed;
  match collectKeys s start end_ with
  | [] => Ok (s, (Main (Current (revisionGen s)), 0))
  | keysToDelete =>
      let '(g, rev) := Next (revisionGen s) in
      let '(s', deleted, lastSubRev) :=
        deleteKeys (fun i => mkRevision (Main rev) i) 0 keysToDelete (setGen s g, 0, 0) in
      let s'' :=
        if (deleted >? 0) && (lastSubRev >? 0)
        then setGen s' (mkRevisionGenerator (mkRevision (Main (current (revisionGen s'))) lastSubRev))
        else s' in
      Ok (s'', (Main rev, deleted))
  end.

Definition CurrentRevision (s : MemoryStore) : Z := Main (Current (revisionGen s)).
Definition CompactedRevision (s : MemoryStore) : Z := Main (compactedRev s).

Definition Compact (s : MemoryStore) (rev : Z) : result MvccError MemoryStore :=
  fail_if closed s with ErrClosed;
  let targetRev := mkRevision rev 0 in
  fail_if LessThanOrEqual targetRev (compactedRev s) with ErrCompacted;
  fail_if GreaterThan targetRev (Current (revisionGen s)) with ErrFutureRevision;
  let toDelete := List.filter (fun p => LessThan p.1 targetRev) (bt_ascend (revisionStore s)) in
  Ok (mkMemoryStore (KeyIndex.Compact (keyIndex s) targetRev).1
        (fold_left (fun t p => bt_delete p.1 t) toDelete (revisionStore s))
        (revisionGen s) targetRev (closed s)).

Definition Close (s : MemoryStore) : result MvccError MemoryStore :=
  fail_if closed s with ErrClosed;
  Ok (mkMemoryStore (keyIndex s) (revisionStore s) (revisionGen s) (compactedRev s) true).

(** ** Transactions *)

Definition evaluateCondition (s : MemoryStore) (cond : Condition) : option bool :=
  let kv := match liveItem s (c_Key cond) with Some ki => prevKvOf s ki | None => None end in
  compare (condActual kv (c_Target cond)) (c_Compare cond) (c_Value cond).

(** The loop over the conditions, which stops at the first that is false. *)
Fixpoint evaluateConditions (s : MemoryStore) (conds : list Condition) : option bool :=
  match conds with
  | [] => Some true
  | cond :: conds' =>
      match evaluateCondition s cond with
      | Some true => evaluateConditions s conds'
      | r => r
      end
  end.

Definition executePut (s : MemoryStore) (op : Op) (rev : Revision) : MemoryStore * OpResponse :=
  (putAt s (op_Key op) (op_Value op) (op_Lease op) rev, mkOpResponse OpTypePut [] 0).

Definition executeGet (s : MemoryStore) (op : Op) : OpResponse :=
  mkOpResponse OpTypeGet
    match op_End op with
    | None =>
        match liveItem s (op_Key op) with
        | Some ki => match prevKvOf s ki with Some kv => [kv] | None => [] end
        | None => []
        end
    | Some _ =>
        KeyIndex.Range (keyIndex s) (op_Key op) (op_End op) Zero
          (fun kvs _ keyRev =>
             match bt_get keyRev (revisionStore s) with
             | Some kv => if Version kv >? 0 then (kvs ++ [kv], true) else (kvs, true)
             | None => (kvs, true)
             end) []
    end 0.

Definition executeDelete (s : MemoryStore) (op : Op) (rev : Revision) : MemoryStore * OpResponse :=
  match liveItem s (op_Key op) with
  | None => (s, mkOpResponse OpTypeDelete [] 0)
  | Some ki => (tombstoneAt s (op_Key op) ki rev, mkOpResponse OpTypeDelete [] 1)
  end.

Definition executeDeleteRange (s : MemoryStore) (op : Op) (baseRev : Revision) :
    MemoryStore * OpResponse :=
  let keysToDelete := collectKeys s (op_Key op) (op_End op) in
  let '(s', deleted, _) :=
    deleteKeys (fun i => mkRevision (Main baseRev) (wrap_i64 (Sub baseRev + i))) 0 keysToDelete
      (s, 0, 0) in
  (s', mkOpResponse OpTypeDeleteRange [] deleted).

Definition executeOp (s : MemoryStore) (op : Op) (txnRev : Revision) (subIndex : Z) :
    MemoryStore * OpResponse :=
  let opRev := mkRevision (Main txnRev) subIndex in
  match op_Type op with
  | OpTypePut => executePut s op opRev
  | OpTypeGet => (s, executeGet s op)
  | OpTypeDelete => executeDelete s op opRev
  | OpTypeDeleteRange => executeDeleteRange s op opRev
  | OpTypeOther n => (s, mkOpResponse (OpTypeOther n) [] 0)
  end.

Fixpoint executeOps (s : MemoryStore) (ops : list Op) (txnRev : Revision) (i : Z) :
    MemoryStore * list OpResponse :=
  match ops with
  | [] => (s, [])
  | op :: ops' =>
      let '(s1, resp) := executeOp s op txnRev i in
      let '(s2, resps) := executeOps s1 ops' txnRev (i + 1) in
      (s2, resp :: resps)
  end.

(** [Commit]; [None] is the panic of an ill-typed condition, which is raised
    before the store is changed. *)
Definition Commit (s : MemoryStore) (t : memoryTxn) :
    option (result MvccError (MemoryStore * TxnResponse)) :=
  if closed s then Some (Err ErrClosed)
  else
    match evaluateConditions s (conditions t) with
    | None => None
    | Some succeeded =>
        let ops := if succeeded then thenOps t else elseOps t in
        let '(g, rev) := Next (revisionGen s) in
        let '(s', responses) := executeOps (setGen s g) ops rev 0 in
        Some (Ok (s', mkTxnResponse succeeded (Main rev) responses))
    end.

End store.

Arguments MemoryStore : clear implicits.
