(* ===== verification/MvccSpec.v ===== *)
(** * What the MVCC store promises: a log of events

    The abstract state is the log of all events in revision order; an event is
    a revision and the record written there, a record of version 0 being a
    deletion.  Each operation appends to the log or reads it.  [MvccRefine]
    shows that [MemoryStore] implements these operations. *)

From S2P Require Import Prelude GoBytes Revision OrderedTree KeyValue KeyIndex MemoryStore.
Local Open Scope go_scope.

Abbreviation Event := (Revision * KeyValue)%type.

Record Spec := mkSpec {
  log : list Event;
  events : Z;  (** events ever appended *)
  cur : Revision;
  compacted : Revision;
  isClosed : bool;
}.

Definition spec_init : Spec := mkSpec [] 0 Zero Zero false.

(** ** Reading a log *)

Definition ofKey (key : string) (e : Event) : bool := String.eqb (Key e.2) key.

Definition keyLog (l : list Event) (key : string) : list Event := List.filter (ofKey key) l.

Definition latest (l : list Event) (key : string) : option Event := last_such (ofKey key) l.

(** An event shows its record unless it is a deletion. *)
Definition shown (e : option Event) : option KeyValue :=
  match e with
  | Some e => if Version e.2 =? 0 then None else Some e.2
  | None => None
  end.

Definition live (l : list Event) (key : string) : option KeyValue := shown (latest l key).

Definition upTo (atRev : Revision) (l : list Event) : list Event :=
  List.filter (fun e => LessThanOrEqual e.1 atRev) l.

(** The value of [key] as of [atRev]. *)
Definition visible (l : list Event) (atRev : Revision) (key : string) : option KeyValue :=
  live (upTo atRev l) key.

Definition latestMap (l : list Event) : gmap string Event :=
  foldl (fun m e => <[Key e.2 := e]> m) ∅ l.

(** The live records of a range of keys, in key order. *)
Definition liveRange (l : list Event) (start : string) (end_ : option string) : list (string * KeyValue) :=
  omap (fun p => pair p.1 <$> shown (Some p.2))
    (List.filter (fun p => inRange start end_ p.1) (sorted_entries (latestMap l))).

(** ** Writing *)

Definition append (a : Spec) (rev : Revision) (kv : KeyValue) : Spec :=
  mkSpec (log a ++ [(rev, kv)]) (events a + 1) (cur a) (compacted a) (isClosed a).

Definition setCur (a : Spec) (r : Revision) : Spec :=
  mkSpec (log a) (events a) r (compacted a) (isClosed a).

Definition spec_putAt (a : Spec) (key value : string) (lease : Z) (rev : Revision) : Spec :=
  append a rev
    match live (log a) key with
    | Some prev => mkKeyValue key value (CreateRevision prev) (Main rev) (Version prev + 1) lease
    | None => mkKeyValue key value (Main rev) (Main rev) 1 lease
    end.

Definition spec_deleteAt (a : Spec) (key : string) (rev : Revision) : Spec :=
  match live (log a) key with
  | Some prev => append a rev (mkKeyValue key "" (CreateRevision prev) (Main rev) 0 0)
  | None => a
  end.

Fixpoint spec_deleteKeys (a : Spec) (keys : list string) (rev : Revision) : Spec :=
  match keys with
  | [] => a
  | key :: keys' =>
      spec_deleteKeys (spec_deleteAt a key rev) keys' (mkRevision (Main rev) (Sub rev + 1))
  end.

(** ** Operations *)

Definition nextRev (a : Spec) : Revision := mkRevision (Main (cur a) + 1) 0.

Definition spec_put (a : Spec) (key value : string) (lease : Z) : result MvccError (Spec * Z) :=
  fail_if String.eqb key "" with ErrEmptyKey;
  fail_if isClosed a with ErrClosed;
  let rev := nextRev a in
  Ok (spec_putAt (setCur a rev) key value lease rev, Main rev).

Definition spec_delete (a : Spec) (key : string) : result MvccError (Spec * (Z * Z)) :=
  fail_if String.eqb key "" with ErrEmptyKey;
  fail_if isClosed a with ErrClosed;
  match live (log a) key with
  | None => Ok (a, (Main (cur a), 0))
  | Some _ =>
      let rev := nextRev a in
      Ok (spec_deleteAt (setCur a rev) key rev, (Main rev, 1))
  end.

Definition spec_deleteRange (a : Spec) (start : string) (end_ : option string) :
    result MvccError (Spec * (Z * Z)) :=
  fail_if String.eqb start "" with ErrEmptyKey;
  fail_if isClosed a with ErrClosed;
  match (liveRange (log a) start end_).*1 with
  | [] => Ok (a, (Main (cur a), 0))
  | keys =>
      let rev := nextRev a in
      let n := Z.of_nat (length keys) in
      Ok (spec_deleteKeys (setCur a (mkRevision (Main rev) (n - 1))) keys rev, (Main rev, n))
  end.

Definition readAt (a : Spec) (rev : Z) : result MvccError Revision :=
  fail_if isClosed a with ErrClosed;
  let atRev := if rev =? 0 then cur a else mkRevision rev 0 in
  fail_if bool_decide (rev_lt atRev (compacted a)) with ErrCompacted;
  fail_if bool_decide (rev_lt (cur a) atRev) with ErrFutureRevision;
  Ok atRev.

Definition spec_get (a : Spec) (key : string) (rev : Z) : result MvccError KeyValue :=
  fail_if String.eqb key "" with ErrEmptyKey;
  atRev <-! readAt a rev;
  match visible (log a) atRev key with
  | Some kv => Ok kv
  | None => Err ErrKeyNotFound
  end.

Definition limited {A} (limit : Z) (l : list A) : list A :=
  if limit >? 0 then take (Z.to_nat limit) l else l.

Definition spec_range (a : Spec) (start : string) (end_ : option string) (rev limit : Z) :
    result MvccError (list KeyValue * Z) :=
  fail_if String.eqb start "" with ErrEmptyKey;
  atRev <-! readAt a rev;
  let kvs := limited limit (liveRange (upTo atRev (log a)) start end_).*2 in
  Ok (kvs, Z.of_nat (length kvs)).

(** ** Transactions *)

Fixpoint spec_conditions (l : list Event) (conds : list Condition) : option bool :=
  match conds with
  | [] => Some true
  | c :: conds' =>
      match compare (condActual (live l (c_Key c)) (c_Target c)) (c_Compare c) (c_Value c) with
      | Some true => spec_conditions l conds'
      | r => r
      end
  end.

Definition spec_op (a : Spec) (op : Op) (rev : Revision) : Spec * OpResponse :=
  match op_Type op with
  | OpTypePut =>
      (spec_putAt a (op_Key op) (op_Value op) (op_Lease op) rev, mkOpResponse OpTypePut [] 0)
  | OpTypeGet =>
      (a, mkOpResponse OpTypeGet
            match op_End op with
            | None => option_list (live (log a) (op_Key op))
            | Some _ => (liveRange (log a) (op_Key op) (op_End op)).*2
            end 0)
  | OpTypeDelete =>
      (spec_deleteAt a (op_Key op) rev,
       mkOpResponse OpTypeDelete [] match live (log a) (op_Key op) with Some _ => 1 | None => 0 end)
  | OpTypeDeleteRange =>
      let keys := (liveRange (log a) (op_Key op) (op_End op)).*1 in
      (spec_deleteKeys a keys rev, mkOpResponse OpTypeDeleteRange [] (Z.of_nat (length keys)))
  | OpTypeOther n => (a, mkOpResponse (OpTypeOther n) [] 0)
  end.

Fixpoint spec_ops (a : Spec) (ops : list Op) (rev : Revision) : Spec * list OpResponse :=
  match ops with
  | [] => (a, [])
  | op :: ops' =>
      let '(a1, resp) := spec_op a op rev in
      let '(a2, resps) := spec_ops a1 ops' (mkRevision (Main rev) (Sub rev + 1)) in
      (a2, resp :: resps)
  end.

Definition spec_commit (a : Spec) (t : memoryTxn) :
    option (result MvccError (Spec * TxnResponse)) :=
  if isClosed a then Some (Err ErrClosed)
  else
    match spec_conditions (log a) (conditions t) with
    | None => None
    | Some succeeded =>
        let rev := nextRev a in
        let '(a', resps) := spec_ops (setCur a rev) (if succeeded then thenOps t else elseOps t) rev in
        Some (Ok (a', mkTxnResponse succeeded (Main rev) resps))
    end.

Definition spec_compact (a : Spec) (rev : Z) : result MvccError Spec :=
  fail_if isClosed a with ErrClosed;
  let target := mkRevision rev 0 in
  fail_if bool_decide (rev_le target (compacted a)) with ErrCompacted;
  fail_if bool_decide (rev_lt (cur a) target) with ErrFutureRevision;
  Ok (mkSpec (List.filter (fun e => keptBy target e.1) (log a)) (events a) (cur a) target (isClosed a)).
