(* ===== verification/MvccRefine.v ===== *)
(** * The in-memory MVCC store implements the event log

    [R b s a] relates a store to an abstract state whose events are all below
    the revision [b]. *)

From S2P Require Import Prelude GoBytes Revision OrderedTree KeyValue KeyIndex MemoryStore.
From S2P Require Import MvccSpec.
Local Open Scope go_scope.

(** ** Facts about logs *)

Lemma keyLog_snoc l rev kv key :
  keyLog (l ++ [(rev, kv)]) key = keyLog l key ++ (if String.eqb (Key kv) key then [(rev, kv)] else []).
Proof. unfold keyLog. rewrite List.filter_app. simpl. unfold ofKey at 2. simpl. by destruct String.eqb. Qed.

Lemma latest_snoc l rev kv key :
  latest (l ++ [(rev, kv)]) key = if String.eqb (Key kv) key then Some (rev, kv) else latest l key.
Proof. unfold latest. rewrite last_such_app. simpl. unfold ofKey at 1. simpl. by destruct String.eqb. Qed.

Lemma latest_elem l key e : latest l key = Some e -> e ∈ l /\ Key e.2 = key.
Proof. intros [? H]%last_such_Some. split; [done|]. by apply String.eqb_eq. Qed.

Lemma live_elem l key kv : live l key = Some kv -> exists r, (r, kv) ∈ l /\ Key kv = key.
Proof.
  unfold live, shown. destruct (latest l key) as [[r kv']|] eqn:E; [|done]. simpl.
  destruct (Version kv' =? 0); [done|]. intros [= <-]. apply latest_elem in E as [? ?]. by exists r.
Qed.

Lemma latestMap_lookup l key : latestMap l !! key = latest l key.
Proof.
  unfold latestMap. induction l as [|[r kv] l IH] using rev_ind; [apply lookup_empty|].
  rewrite foldl_snoc, latest_snoc. simpl. rewrite lookup_insert, IH.
  destruct (String.eqb_spec (Key kv) key), (decide (Key kv = key)); done.
Qed.

Lemma elem_of_liveRange l start end_ k kv :
  (k, kv) ∈ liveRange l start end_ <-> inRange start end_ k = true /\ live l k = Some kv.
Proof.
  unfold liveRange. rewrite list_elem_of_omap. setoid_rewrite list_elem_of_In.
  setoid_rewrite filter_In. setoid_rewrite <- list_elem_of_In. unfold live. split.
  - intros ([k' e] & [Hin Hr] & Hs). simpl in *. change (sorted_entries (latestMap l)) with
      (bt_ascend (latestMap l)) in Hin. apply bt_ascend_elem in Hin. simpl in Hin.
    rewrite latestMap_lookup in Hin. destruct (Version e.2 =? 0) eqn:E; simplify_eq/=.
    rewrite Hin. simpl. by rewrite E.
  - intros [Hr Hs]. destruct (latest l k) as [e|] eqn:E; [|done].
    exists (k, e). split_and!; [|done|simpl in *; by destruct (Version e.2 =? 0); simplify_eq/=].
    change (sorted_entries (latestMap l)) with (bt_ascend (latestMap l)).
    apply bt_ascend_elem. simpl. by rewrite latestMap_lookup.
Qed.

Lemma liveRange_sorted l start end_ :
  StronglySorted (fun p q => lessb p.1 q.1 = true) (liveRange l start end_).
Proof.
  apply omap_sorted_keys; [|apply filter_sorted, sorted_entries_sorted].
  intros p q. simpl. destruct (Version p.2.2 =? 0); [done|]. by intros [= <-].
Qed.

Lemma liveRange_keys l start end_ k :
  k ∈ (liveRange l start end_).*1 <-> inRange start end_ k = true /\ is_Some (live l k).
Proof.
  rewrite list_elem_of_fmap. split.
  - intros ([k' kv] & -> & Hin). apply elem_of_liveRange in Hin as [? ?]. split; [done|by eexists].
  - intros [Hr [kv Hl]]. exists (k, kv). split; [done|]. by apply elem_of_liveRange.
Qed.

Lemma sorted_keys_NoDup {V} (l : list (string * V)) :
  StronglySorted (fun p q => lessb p.1 q.1 = true) l -> NoDup l.*1.
Proof.
  induction 1 as [|p l _ IH Hall]; cbn; constructor; [|done].
  intros (q & Hq & Hin)%list_elem_of_fmap. rewrite Forall_forall in Hall. specialize (Hall _ Hin).
  rewrite Hq in Hall. by rewrite lessb_irrefl in Hall.
Qed.

Lemma latestMap_size l : (size (latestMap l) <= length l)%nat.
Proof.
  unfold latestMap. induction l as [|e l IH] using rev_ind; [simpl; rewrite ?map_size_empty; lia|].
  rewrite foldl_snoc, length_app. simpl. rewrite map_size_insert.
  destruct (_ !! Key e.2); unfold id; lia.
Qed.

Lemma live_keys_length l start end_ : (length (liveRange l start end_) <= length l)%nat.
Proof.
  transitivity (size (latestMap l)); [|apply latestMap_size].
  transitivity (length (sorted_entries (latestMap l))).
  - unfold liveRange. etransitivity; [apply length_omap_le|apply filter_length_le].
  - by rewrite (Permutation_length (sorted_entries_perm _)), length_map_to_list.
Qed.

(** ** The relation *)

Section refinement.
Context {TI TR : Type -> Type} `{!BTree string TI, !BTree Revision TR}
  `{!BTreeLaws string TI, !BTreeLaws Revision TR}.

Implicit Types (s : MemoryStore TI TR) (a : Spec).

Record R (b : Revision) s a : Prop := {
  R_index : wf_index (keyIndex s);
  R_revs key : idxRevs (keyIndex s) key = (keyLog (log a) key).*1;
  R_deleted key : idxDeleted (keyIndex s) key =
    match live (log a) key with Some _ => false | None => true end;
  R_store r kv : bt_get r (revisionStore s) = Some kv <-> (r, kv) ∈ log a;
  R_sorted : StronglySorted rev_lt (log a).*1;
  R_bound : Forall (fun e => rev_lt e.1 b) (log a);
  R_event : Forall (fun e => 0 < Main e.1 /\ 0 <= Sub e.1 /\ 0 <= Version e.2 <= events a) (log a);
  R_count : Z.of_nat (length (log a)) <= events a;
  R_cur : Current (revisionGen s) = cur a;
  R_compacted : compactedRev s = compacted a;
  R_order : rev_le Zero (compacted a) /\ rev_le (compacted a) (cur a);
  R_sub : 0 <= Sub (cur a);
  R_closed : closed s = isClosed a;
}.

Lemma R_init : R (mkRevision 1 0) NewMemoryStore spec_init.
Proof.
  assert (Hget : forall key, KeyIndex.Get (keyIndex (TI:=TI) (TR:=TR) NewMemoryStore) key = None).
  { intros key. apply bt_get_new. }
  constructor; simpl; try done.
  - apply wf_new.
  - intros key. unfold idxRevs. by rewrite Hget.
  - intros key. unfold idxDeleted. by rewrite Hget.
  - intros r kv. rewrite bt_get_new. set_solver.
  - constructor.
  - split; apply rev_le_refl.
Qed.

Lemma R_weaken b b' s a : rev_le b b' -> R b s a -> R b' s a.
Proof.
  intros Hb HR. constructor; try apply HR.
  eapply Forall_impl; [apply (R_bound _ _ _ HR)|]. simpl. eauto with metastore.
Qed.

(** The generator and the abstract current revision move together. *)
Lemma R_setGen b s a r :
  R b s a -> rev_le (compacted a) r -> 0 <= Sub r -> R b (setGen s (mkRevisionGenerator r)) (setCur a r).
Proof. intros [] Hr Hs. constructor; try done. simpl. naive_solver. Qed.

(** The last revision of a live item is the one of the latest event. *)
Lemma LastRevision_itemRevs ki gen :
  CurrentGeneration ki = Some gen -> IsEmpty gen = false ->
  last (itemRevs ki) = Some (LastRevision gen).
Proof.
  unfold CurrentGeneration, IsEmpty, itemRevs, LastRevision. intros [gens ->]%last_Some Hne.
  rewrite fmap_app, concat_app, last_app. simpl. rewrite app_nil_r, Hne.
  destruct (last (Revisions gen)) eqn:E; [done|]. apply last_None in E. by rewrite E in Hne.
Qed.

Lemma liveItem_spec b s a key :
  R b s a ->
  liveItem s key = None /\ live (log a) key = None \/
  exists ki kv, KeyIndex.Get (keyIndex s) key = Some ki /\ liveItem s key = Some ki /\
    prevKvOf s ki = Some kv /\ live (log a) key = Some kv.
Proof.
  intros HR. pose proof (R_deleted _ _ _ HR key) as Hd. pose proof (R_revs _ _ _ HR key) as Hr.
  unfold idxDeleted, idxRevs, liveItem in *.
  destruct (KeyIndex.Get (keyIndex s) key) as [ki|] eqn:Eg;
    [|left; split; [done|]; by destruct (live (log a) key)].
  rewrite Hd. destruct (live (log a) key) as [kv|] eqn:El; [right|by left].
  exists ki, kv. split_and!; try done. unfold IsDeleted in Hd. unfold prevKvOf.
  destruct (CurrentGeneration ki) as [gen|] eqn:Ec; [|done].
  pose proof (LastRevision_itemRevs ki gen Ec Hd) as Hl. rewrite Hr, fmap_last in Hl.
  unfold keyLog in Hl. rewrite last_such_last in Hl. fold (latest (log a) key) in Hl.
  unfold live, shown in El. destruct (latest (log a) key) as [[r kv']|] eqn:Elt; [|done].
  simpl in *. destruct (Version kv' =? 0); simplify_eq.
  apply latest_elem in Elt as [Hin _].
  pose proof (R_event _ _ _ HR) as He. rewrite Forall_forall in He. destruct (He _ Hin) as [Hm _].
  replace (IsZero (LastRevision gen)) with false.
  - by apply (R_store _ _ _ HR).
  - symmetry. apply IsZero_false. intros Hz. rewrite Hz in Hm. simpl in Hm. lia.
Qed.

(** ** Appending an event *)

Lemma live_snoc l rev kv key :
  live (l ++ [(rev, kv)]) key =
    if String.eqb (Key kv) key then (if Version kv =? 0 then None else Some kv) else live l key.
Proof. unfold live. rewrite latest_snoc. by destruct String.eqb. Qed.

Lemma R_store_fresh b s a rev : R b s a -> rev_le b rev -> forall e, e ∈ log a -> e.1 <> rev.
Proof.
  intros HR Hb e Hin Heq. pose proof (R_bound _ _ _ HR) as Hf. rewrite Forall_forall in Hf.
  specialize (Hf _ Hin). rewrite Heq in Hf. by apply (rev_lt_irrefl rev); eauto with metastore.
Qed.

Lemma R_revs_below b s a rev key :
  R b s a -> rev_le b rev -> Forall (fun r => rev_lt r rev) (idxRevs (keyIndex s) key).
Proof.
  intros HR Hb. rewrite (R_revs _ _ _ HR). apply Forall_fmap. apply Forall_forall.
  intros e He. unfold keyLog in He. apply list_elem_of_In, filter_In in He as [He _].
  pose proof (R_bound _ _ _ HR) as Hf. rewrite Forall_forall in Hf. simpl.
  specialize (Hf e (proj2 (list_elem_of_In _ _) He)). eauto with metastore.
Qed.

(** Writing a fresh record [kv] and telling the index about it is appending
    the event, whichever of [KeyIndex.Put] and [KeyIndex.Delete] is used. *)
Lemma R_append b b' s a rev kv idx' :
  R b s a -> rev_le b rev -> rev_lt rev b' -> 0 < Main rev -> 0 <= Sub rev -> 0 <= Version kv <= events a + 1 ->
  wf_index idx' ->
  idxRevs idx' (Key kv) = idxRevs (keyIndex s) (Key kv) ++ [rev] ->
  idxDeleted idx' (Key kv) = (Version kv =? 0) ->
  (forall key, Key kv <> key -> KeyIndex.Get idx' key = KeyIndex.Get (keyIndex s) key) ->
  R b' (mkMemoryStore idx' (bt_replace_or_insert rev kv (revisionStore s)) (revisionGen s)
          (compactedRev s) (closed s)) (append a rev kv).
Proof.
  intros HR Hb Hb' Hm Hsub Hv Hwf Hrevs Hdel Hne.
  assert (Hne' : forall key, Key kv <> key ->
    idxRevs idx' key = idxRevs (keyIndex s) key /\ idxDeleted idx' key = idxDeleted (keyIndex s) key).
  { intros key Hk. unfold idxRevs, idxDeleted. by rewrite Hne. }
  constructor; simpl; try apply HR; try done.
  - intros key. rewrite keyLog_snoc, fmap_app.
    destruct (String.eqb_spec (Key kv) key) as [<-|Hk]; simpl.
    + by rewrite Hrevs, (R_revs _ _ _ HR).
    + rewrite (proj1 (Hne' _ Hk)), app_nil_r. apply HR.
  - intros key. rewrite live_snoc. destruct (String.eqb_spec (Key kv) key) as [<-|Hk].
    + rewrite Hdel. by destruct (Version kv =? 0).
    + rewrite (proj2 (Hne' _ Hk)). apply HR.
  - intros r kv'. rewrite bt_get_insert, elem_of_app, list_elem_of_singleton.
    pose proof (R_store_fresh _ _ _ _ HR Hb) as Hfresh. destruct (decide (rev = r)) as [<-|Hr].
    + split; [intros [= <-]; by right|]. intros [Hin|[= ->]]; [|done].
      by destruct (Hfresh _ Hin).
    + rewrite (R_store _ _ _ HR). split; [by left|]. by intros [?|[= ??]].
  - rewrite fmap_app. simpl. apply sorted_snoc; [apply HR|]. apply Forall_fmap.
    eapply Forall_impl; [apply (R_bound _ _ _ HR)|]. simpl. eauto with metastore.
  - apply Forall_app. split; [|by apply Forall_singleton].
    eapply Forall_impl; [apply (R_bound _ _ _ HR)|]. simpl. eauto with metastore.
  - apply Forall_app. split; [|by apply Forall_singleton].
    eapply Forall_impl; [apply (R_event _ _ _ HR)|]. simpl. lia.
  - rewrite length_app. simpl. pose proof (R_count _ _ _ HR). lia.
Qed.

Lemma putAt_refines b b' s a key value lease rev :
  R b s a -> rev_le b rev -> rev_lt rev b' -> 0 < Main rev -> 0 <= Sub rev -> events a < int64_max ->
  R b' (putAt s key value lease rev) (spec_putAt a key value lease rev).
Proof.
  intros HR Hb Hb' Hm Hsub He. unfold putAt, spec_putAt.
  destruct (KeyIndex.Put_spec (keyIndex s) key rev (R_index _ _ _ HR) (R_revs_below _ _ _ _ key HR Hb))
    as (Hwf & Hr & Hd & Hne).
  destruct (liveItem_spec _ _ _ key HR) as [[-> ->]|(ki & prev & _ & -> & -> & Hl)].
  - apply R_append with b; simpl; try done. pose proof (R_count _ _ _ HR). lia.
  - rewrite Hl. apply live_elem in Hl as (r & Hin & _).
    pose proof (R_event _ _ _ HR) as Hf. rewrite Forall_forall in Hf. destruct (Hf _ Hin) as (_ & _ & Hv).
    simpl in Hv. rewrite wrap_i64_id by (unfold_ints; lia).
    apply R_append with b; simpl; try done; [lia|].
    rewrite Hd. symmetry. apply Z.eqb_neq. lia.
Qed.

Lemma tombstoneAt_refines b b' s a key ki rev :
  R b s a -> rev_le b rev -> rev_lt rev b' -> 0 < Main rev -> 0 <= Sub rev -> liveItem s key = Some ki ->
  R b' (tombstoneAt s key ki rev) (spec_deleteAt a key rev).
Proof.
  intros HR Hb Hb' Hm Hsub Hki. unfold tombstoneAt, spec_deleteAt.
  destruct (liveItem_spec _ _ _ key HR) as [[? ?]|(ki' & prev & _ & Hki' & Hp & Hl)]; [congruence|].
  rewrite Hki in Hki'. inv Hki'. rewrite Hp, Hl.
  assert (Hdel : idxDeleted (keyIndex s) key = false) by (by rewrite (R_deleted _ _ _ HR), Hl).
  destruct (KeyIndex.Delete_spec (keyIndex s) key rev (R_index _ _ _ HR)
              (R_revs_below _ _ _ _ key HR Hb) Hdel) as (Hwf & Hr & Hd & _ & Hne).
  apply R_append with b; simpl; try done. pose proof (R_count _ _ _ HR). lia.
Qed.

(** ** Reading *)

Lemma last_keyLog l key at_ :
  last_such (fun r => LessThanOrEqual r at_) (keyLog l key).*1 = fst <$> latest (upTo at_ l) key.
Proof.
  rewrite last_such_fmap. unfold keyLog, latest, upTo. rewrite !last_such_filter. f_equal.
  apply last_such_ext. intros e _. apply andb_comm.
Qed.

Lemma R_event_in b s a e :
  R b s a -> e ∈ log a -> 0 < Main e.1 /\ 0 <= Sub e.1 /\ 0 <= Version e.2 <= events a.
Proof. intros HR Hin. pose proof (R_event _ _ _ HR) as H. rewrite Forall_forall in H. by apply H. Qed.

Lemma R_nonzero b s a e : R b s a -> e ∈ log a -> IsZero e.1 = false.
Proof.
  intros HR Hin. apply IsZero_false. intros Hz. destruct (R_event_in _ _ _ _ HR Hin) as [Hm _].
  rewrite Hz in Hm. simpl in Hm. lia.
Qed.

Lemma elem_of_upTo at_ l e : e ∈ upTo at_ l -> e ∈ l.
Proof. unfold upTo. rewrite !list_elem_of_In, filter_In. naive_solver. Qed.

Lemma GetRevision_latest b s a key at_ :
  R b s a ->
  match latest (upTo at_ (log a)) key with
  | None => GetRevision (keyIndex s) key at_ = Zero
  | Some (r, kv) => GetRevision (keyIndex s) key at_ = r /\ IsZero r = false /\
                    bt_get r (revisionStore s) = Some kv
  end.
Proof.
  intros HR. rewrite GetRevision_spec by apply HR. rewrite (R_revs _ _ _ HR), last_keyLog.
  destruct (latest (upTo at_ (log a)) key) as [[r kv]|] eqn:E; [|done]. simpl.
  apply latest_elem in E as [Hin%elem_of_upTo _]. split_and!; [done| |by apply (R_store _ _ _ HR)].
  by apply (R_nonzero _ _ _ _ HR Hin).
Qed.

(** The records [Range] finds: the keys it visits, less the deletion markers. *)
Definition foundAt s (p : string * Revision) : option (string * KeyValue) :=
  match bt_get p.2 (revisionStore s) with
  | Some kv => if Version kv =? 0 then None else Some (p.1, kv)
  | None => None
  end.

Definition rangeKvs s start end_ at_ : list (string * KeyValue) :=
  omap (foundAt s) (rangeList (keyIndex s) start end_ at_).

Lemma rangeKvs_sorted s start end_ at_ :
  StronglySorted (fun p q => lessb p.1 q.1 = true) (rangeKvs s start end_ at_).
Proof.
  apply omap_sorted_keys; [|apply rangeList_sorted]. intros p q. unfold foundAt.
  destruct (bt_get p.2 _) as [kv|]; [|done]. destruct (Version kv =? 0); [done|]. by intros [= <-].
Qed.

Lemma elem_of_rangeKvs s start end_ at_ k kv :
  (k, kv) ∈ rangeKvs s start end_ at_ <->
  inRange start end_ k = true /\ exists ki, KeyIndex.Get (keyIndex s) k = Some ki /\
    IsZero (rangeRevision at_ ki) = false /\
    bt_get (rangeRevision at_ ki) (revisionStore s) = Some kv /\ (Version kv =? 0) = false.
Proof.
  unfold rangeKvs. rewrite list_elem_of_omap. split.
  - intros ([k' r] & (Hr & Hz & ki & Hg & <-)%elem_of_rangeList & Hs).
    unfold foundAt in Hs. simpl in Hs.
    destruct (bt_get _ (revisionStore s)) as [kv'|] eqn:E; [|done].
    destruct (Version kv' =? 0) eqn:Ev; simplify_eq. split; [done|]. exists ki.
    split_and!; [done|by apply IsZero_false|done|done].
  - intros (Hr & ki & Hg & Hz & Hs & Hv). exists (k, rangeRevision at_ ki). split.
    + apply elem_of_rangeList. split_and!; [done|by apply IsZero_false|by exists ki].
    + unfold foundAt. simpl. by rewrite Hs, Hv.
Qed.

Lemma rangeRevision_at b s a k ki at_ :
  R b s a -> at_ <> Zero -> KeyIndex.Get (keyIndex s) k = Some ki ->
  rangeRevision at_ ki = GetRevision (keyIndex s) k at_.
Proof.
  intros HR Hz%IsZero_false Hg. unfold rangeRevision, GetRevision. by rewrite Hz, Hg.
Qed.

Lemma rangeKvs_at b s a start end_ at_ :
  R b s a -> at_ <> Zero -> rangeKvs s start end_ at_ = liveRange (upTo at_ (log a)) start end_.
Proof.
  intros HR Hz. apply strictly_sorted_unique; [apply rangeKvs_sorted|apply liveRange_sorted|].
  intros [k kv]. rewrite elem_of_rangeKvs, elem_of_liveRange.
  pose proof (GetRevision_latest _ _ _ k at_ HR) as Hl. unfold live, shown. split.
  - intros (Hr & ki & Hg & Hnz & Hs & Hv). split; [done|].
    rewrite (rangeRevision_at _ _ _ _ _ _ HR Hz Hg) in *.
    destruct (latest (upTo at_ (log a)) k) as [[r kv']|]; [|by rewrite Hl in Hnz].
    destruct Hl as (Hgr & _ & Hst). rewrite Hgr, Hst in Hs. simplify_eq. simpl. by rewrite Hv.
  - intros [Hr Hv]. split; [done|]. destruct (latest (upTo at_ (log a)) k) as [[r kv']|]; [|done].
    destruct Hl as (Hgr & Hnz & Hst). simpl in Hv. destruct (Version kv' =? 0) eqn:E; simplify_eq.
    destruct (KeyIndex.Get (keyIndex s) k) as [ki|] eqn:Hg;
      [|unfold GetRevision in Hnz; by rewrite Hg in Hnz].
    exists ki. rewrite (rangeRevision_at _ _ _ _ _ _ HR Hz Hg). done.
Qed.

(** With [Zero] the index reports the last revision of every live key. *)
Lemma rangeRevision_live b s a k ki :
  R b s a -> KeyIndex.Get (keyIndex s) k = Some ki ->
  match live (log a) k with
  | None => IsZero (rangeRevision Zero ki) = true
  | Some kv => IsZero (rangeRevision Zero ki) = false /\
               bt_get (rangeRevision Zero ki) (revisionStore s) = Some kv
  end.
Proof.
  intros HR Hg. unfold rangeRevision. simpl.
  destruct (liveItem_spec _ _ _ k HR) as [[Hi ->]|(ki' & kv & Hg' & Hi & Hp & ->)];
    unfold liveItem in Hi; rewrite Hg in Hi.
  - unfold IsDeleted in Hi. destruct (CurrentGeneration ki) as [gen|]; [|done].
    by destruct (IsEmpty gen).
  - rewrite Hg in Hg'. inv Hg'. unfold IsDeleted in Hi. unfold prevKvOf in Hp.
    destruct (CurrentGeneration ki') as [gen|]; [|done]. destruct (IsEmpty gen); [done|].
    by destruct (IsZero (LastRevision gen)).
Qed.

Lemma live_version l k kv : live l k = Some kv -> (Version kv =? 0) = false.
Proof.
  unfold live, shown. destruct (latest l k) as [e|]; [|done].
  destruct (Version e.2 =? 0) eqn:E; [done|]. by intros [= <-].
Qed.

Lemma rangeKvs_zero b s a start end_ :
  R b s a -> rangeKvs s start end_ Zero = liveRange (log a) start end_.
Proof.
  intros HR. apply strictly_sorted_unique; [apply rangeKvs_sorted|apply liveRange_sorted|].
  intros [k kv]. rewrite elem_of_rangeKvs, elem_of_liveRange. split.
  - intros (Hr & ki & Hg & Hnz & Hs & Hv). split; [done|].
    pose proof (rangeRevision_live _ _ _ _ _ HR Hg) as Hl.
    destruct (live (log a) k); [|congruence]. destruct Hl. congruence.
  - intros [Hr Hv]. split; [done|].
    destruct (liveItem_spec _ _ _ k HR) as [[_ ?]|(ki & kv' & Hg & _)]; [congruence|].
    pose proof (rangeRevision_live _ _ _ _ _ HR Hg) as Hl. rewrite Hv in Hl. destruct Hl as [Hz Hs].
    exists ki. split_and!; try done. by apply live_version in Hv.
Qed.

(** ** Loops of the operations *)

Lemma sorted_same_keys {V W} (l1 : list (string * V)) (l2 : list (string * W)) :
  StronglySorted (fun p q => lessb p.1 q.1 = true) l1 ->
  StronglySorted (fun p q => lessb p.1 q.1 = true) l2 ->
  (forall k, k ∈ l1.*1 <-> k ∈ l2.*1) -> l1.*1 = l2.*1.
Proof.
  intros H1 H2 Heq.
  assert (Hs : forall X (l : list (string * X)), StronglySorted (fun p q => lessb p.1 q.1 = true) l ->
    StronglySorted (fun p q => lessb p.1 q.1 = true) ((fun k => (k, tt)) <$> l.*1)).
  { intros X l. induction 1 as [|p l _ IH Hall]; cbn; constructor; [done|].
    apply Forall_fmap, Forall_fmap. eapply Forall_impl; [apply Hall|]. done. }
  apply (inj (fmap (fun k => (k, tt)))).
  apply strictly_sorted_unique; [by apply Hs..|].
  intros [k []]. rewrite !list_elem_of_fmap. setoid_rewrite Heq. done.
Qed.

Lemma collectKeys_live b s a start end_ :
  R b s a -> collectKeys s start end_ = (liveRange (log a) start end_).*1.
Proof.
  intros HR. unfold collectKeys. rewrite Range_rangeList by apply HR.
  rewrite (iter_collect (fun p => [p.1])). simpl.
  transitivity (rangeList (keyIndex s) start end_ Zero).*1.
  { generalize (rangeList (keyIndex s) start end_ Zero). intros l.
    induction l as [|p l IH]; [done|]. cbn in *. by f_equal. }
  apply sorted_same_keys; [apply rangeList_sorted|apply liveRange_sorted|].
  intros k. rewrite liveRange_keys, list_elem_of_fmap. split.
  - intros ([k' r] & -> & (Hr & Hz%IsZero_false & ki & Hg & <-)%elem_of_rangeList). split; [done|].
    pose proof (rangeRevision_live _ _ _ _ _ HR Hg) as Hl. simpl in *.
    destruct (live (log a) k'); [by eexists|congruence].
  - intros [Hr [kv Hv]].
    destruct (liveItem_spec _ _ _ k HR) as [[_ ?]|(ki & kv' & Hg & _)]; [congruence|].
    pose proof (rangeRevision_live _ _ _ _ _ HR Hg) as Hl. rewrite Hv in Hl. destruct Hl as [Hz _].
    exists (k, rangeRevision Zero ki). split; [done|]. apply elem_of_rangeList.
    split_and!; [done|by apply IsZero_false|by exists ki].
Qed.

(** What the limit leaves once [count] records have been collected. *)
Definition limitedFrom {A} (limit count : Z) (kvs : list A) : list A :=
  if limit >? 0 then take (Z.to_nat (limit - count)) kvs else kvs.

Lemma rangeCallback_loop s limit l res count :
  count = Z.of_nat (length res) -> count + Z.of_nat (length l) <= int64_max ->
  (0 < limit -> count <= limit) ->
  iter_while (fun st p => rangeCallback s limit st p.1 p.2) (res, count) l =
    (res ++ limitedFrom limit count (omap (foundAt s) l).*2,
     Z.of_nat (length (res ++ limitedFrom limit count (omap (foundAt s) l).*2))).
Proof.
  revert res count. induction l as [|p l IH]; intros res count -> Hmax Hlim.
  { unfold limitedFrom. simpl. rewrite take_nil. destruct (limit >? 0); by rewrite app_nil_r. }
  simpl length in Hmax. cbn [iter_while]. unfold rangeCallback at 1.
  destruct ((limit >? 0) && (Z.of_nat (length res) >=? limit)) eqn:E.
  - unfold limitedFrom. apply andb_true_iff in E as [E1 E2]. rewrite E1. bool_to_prop.
    replace (Z.to_nat (limit - Z.of_nat (length res))) with 0%nat by lia.
    by rewrite take_0, app_nil_r.
  - assert (Hlt : 0 < limit -> Z.of_nat (length res) + 1 <= limit).
    { intros Hp. rewrite (proj2 (Z.gtb_lt limit 0) Hp) in E. simpl in E. bool_to_prop. lia. }
    cbn [omap list_omap].
    assert (Hf : foundAt s p = match bt_get p.2 (revisionStore s) with
      | Some kv => if Version kv =? 0 then None else Some (p.1, kv) | None => None end) by done.
    destruct (bt_get p.2 (revisionStore s)) as [kv|]; [|rewrite !Hf; by apply IH; [|lia|]].
    destruct (Version kv =? 0); [rewrite !Hf; by apply IH; [|lia|]|]. rewrite !Hf.
    rewrite wrap_i64_id by (unfold_ints; lia).
    rewrite IH; [|rewrite length_app; simpl; lia|lia|done].
    replace (limitedFrom limit (Z.of_nat (length res)) _)
      with (kv :: limitedFrom limit (Z.of_nat (length res) + 1) (omap (foundAt s) l).*2);
      [by rewrite <- app_assoc|].
    unfold limitedFrom. destruct (Z.gtb_spec limit 0); [|done].
    by replace (Z.to_nat (limit - Z.of_nat (length res)))
      with (S (Z.to_nat (limit - (Z.of_nat (length res) + 1)))) by lia.
Qed.

Lemma live_deleteAt a key rev k :
  key <> k -> live (log (spec_deleteAt a key rev)) k = live (log a) k.
Proof.
  intros Hk. unfold spec_deleteAt. destruct (live (log a) key); [|done].
  simpl. rewrite live_snoc. simpl. by destruct (String.eqb_spec key k).
Qed.

Lemma deleteKeys_refines revOf m keys i sub s a d ls :
  R (mkRevision m sub) s a -> 0 < m -> 0 <= sub ->
  (forall j, 0 <= j < Z.of_nat (length keys) -> revOf (i + j) = mkRevision m (sub + j)) ->
  NoDup keys -> Forall (fun k => is_Some (live (log a) k)) keys ->
  0 <= d -> d + Z.of_nat (length keys) <= int64_max ->
  exists s', deleteKeys revOf i keys (s, d, ls) =
      (s', d + Z.of_nat (length keys),
       match keys with [] => ls | _ => i + Z.of_nat (length keys) - 1 end) /\
    R (mkRevision m (sub + Z.of_nat (length keys))) s' (spec_deleteKeys a keys (mkRevision m sub)).
Proof.
  revert i sub s a d ls. induction keys as [|key keys IH]; intros i sub s a d ls HR Hm Hsub Hrev Hnd Hlive Hd Hmax.
  { exists s. simpl. rewrite !Z.add_0_r. done. }
  simpl length in *. apply NoDup_cons in Hnd as [Hnin Hnd]. inv Hlive as [|? ? [kv Hkv] Hlive'].
  destruct (liveItem_spec _ _ _ key HR) as [[_ ?]|(ki & kv' & _ & Hki & _ & _)]; [congruence|].
  cbn [deleteKeys]. rewrite Hki. rewrite wrap_i64_id by (unfold_ints; lia).
  assert (Hr0 : revOf i = mkRevision m sub) by (rewrite <- (Z.add_0_r i), Hrev by lia; f_equal; lia).
  destruct (IH (i + 1) (sub + 1) (tombstoneAt s key ki (revOf i)) (spec_deleteAt a key (mkRevision m sub))
              (d + 1) i) as (s' & Hs' & HR'); try done; try lia.
  - rewrite Hr0. eapply tombstoneAt_refines; eauto with metastore; unfold rev_lt; simpl; lia.
  - intros j Hj. replace (i + 1 + j) with (i + (1 + j)) by lia. rewrite Hrev by lia. f_equal; lia.
  - apply Forall_forall. intros k Hk. rewrite live_deleteAt by (intros ->; done).
    rewrite Forall_forall in Hlive'. by apply Hlive'.
  - exists s'. rewrite Hs'. split.
    + f_equal; [f_equal; lia|]. destruct keys; simpl length; lia.
    + cbn [spec_deleteKeys]. simpl in *. by replace (sub + Z.of_nat (S (length keys)))
        with (sub + 1 + Z.of_nat (length keys)) by lia.
Qed.

End refinement.
