(* ===== verification/MvccOps.v ===== *)
(** * Every operation of the MVCC store refines its specification

    One lemma per operation of [MemoryStore], on all its branches; [step] and
    [spec_step] collect them, and [MvccTheorems] states what follows. *)

From S2P Require Import Prelude GoBytes Revision OrderedTree KeyValue KeyIndex MemoryStore.
From S2P Require Import MvccSpec MvccRefine.
Local Open Scope go_scope.

(** ** Commands and traces *)

Inductive Cmd :=
  | CmdPut (key value : string) (lease : Z)
  | CmdGet (key : string) (rev : Z)
  | CmdRange (start : string) (end_ : option string) (rev limit : Z)
  | CmdDelete (key : string)
  | CmdDeleteRange (start : string) (end_ : option string)
  | CmdCommit (t : memoryTxn)
  | CmdCompact (rev : Z)
  | CmdClose
  | CmdCurrentRevision
  | CmdCompactedRevision.

Inductive Resp :=
  | RespErr (e : MvccError)
  | RespPanic
  | RespRev (rev : Z)
  | RespKv (kv : KeyValue)
  | RespKvs (kvs : list KeyValue) (count : Z)
  | RespDeleted (rev deleted : Z)
  | RespTxn (r : TxnResponse)
  | RespDone.

Definition write {S A} (s : S) (f : A -> Resp) (r : result MvccError (S * A)) : S * Resp :=
  match r with Ok (s', x) => (s', f x) | Err e => (s, RespErr e) end.
Definition read {S A} (s : S) (f : A -> Resp) (r : result MvccError A) : S * Resp :=
  match r with Ok x => (s, f x) | Err e => (s, RespErr e) end.
Definition update {S} (s : S) (r : result MvccError S) : S * Resp :=
  match r with Ok s' => (s', RespDone) | Err e => (s, RespErr e) end.
Definition commit {S} (s : S) (r : option (result MvccError (S * TxnResponse))) : S * Resp :=
  match r with Some r => write s RespTxn r | None => (s, RespPanic) end.

Definition spec_close (a : Spec) : result MvccError Spec :=
  fail_if isClosed a with ErrClosed;
  Ok (mkSpec (log a) (events a) (cur a) (compacted a) true).

Definition spec_step (a : Spec) (c : Cmd) : Spec * Resp :=
  match c with
  | CmdPut key value lease => write a RespRev (spec_put a key value lease)
  | CmdGet key rev => read a RespKv (spec_get a key rev)
  | CmdRange start end_ rev limit =>
      read a (fun p => RespKvs p.1 p.2) (spec_range a start end_ rev limit)
  | CmdDelete key => write a (fun p => RespDeleted p.1 p.2) (spec_delete a key)
  | CmdDeleteRange start end_ => write a (fun p => RespDeleted p.1 p.2) (spec_deleteRange a start end_)
  | CmdCommit t => commit a (spec_commit a t)
  | CmdCompact rev => update a (spec_compact a rev)
  | CmdClose => update a (spec_close a)
  | CmdCurrentRevision => (a, RespRev (Main (cur a)))
  | CmdCompactedRevision => (a, RespRev (Main (compacted a)))
  end.

(** Range deletions stand last in the branches of a transaction. *)
Fixpoint rangeDeleteLast (ops : list Op) : bool :=
  match ops with
  | [] => true
  | [_] => true
  | op :: ops' =>
      match op_Type op with OpTypeDeleteRange => false | _ => rangeDeleteLast ops' end
  end.

(** A key whose latest event is a deletion was deleted before the target. *)
Definition noTombstoneFrom (target : Revision) (l : list Event) : Prop :=
  forall key e, latest l key = Some e -> Version e.2 = 0 -> rev_lt e.1 target.

(** The counters of [n] more operations stay within [int64]. *)
Definition fits (a : Spec) (n : nat) : Prop :=
  Main (cur a) < int64_max /\ events a + 2 * Z.of_nat n < int64_max.

Definition cmdOk (a : Spec) (c : Cmd) : Prop :=
  match c with
  | CmdCommit t =>
      rangeDeleteLast (thenOps t) = true /\ rangeDeleteLast (elseOps t) = true /\
      fits a (S (length (thenOps t) + length (elseOps t)))
  | CmdCompact rev => noTombstoneFrom (mkRevision rev 0) (log a)
  | _ => fits a 1
  end.

Section ops.
Context {TI TR : Type -> Type} `{!BTree string TI, !BTree Revision TR}
  `{!BTreeLaws string TI, !BTreeLaws Revision TR}.

Implicit Types (s : MemoryStore TI TR) (a : Spec).

Definition step s (c : Cmd) : MemoryStore TI TR * Resp :=
  match c with
  | CmdPut key value lease => write s RespRev (Put s key value lease)
  | CmdGet key rev => read s RespKv (Get s key rev)
  | CmdRange start end_ rev limit => read s (fun p => RespKvs p.1 p.2) (Range s start end_ rev limit)
  | CmdDelete key => write s (fun p => RespDeleted p.1 p.2) (Delete s key)
  | CmdDeleteRange start end_ => write s (fun p => RespDeleted p.1 p.2) (DeleteRange s start end_)
  | CmdCommit t => commit s (Commit s t)
  | CmdCompact rev => update s (Compact s rev)
  | CmdClose => update s (Close s)
  | CmdCurrentRevision => (s, RespRev (CurrentRevision s))
  | CmdCompactedRevision => (s, RespRev (CompactedRevision s))
  end.

(** Between operations all events are below the next main revision. *)
Definition Implements s a : Prop := R (nextRev a) s a.

(** Same answer, related states. *)
Definition simulates (p : MemoryStore TI TR * Resp) (q : Spec * Resp) : Prop :=
  Implements p.1 q.1 /\ p.2 = q.2.

Lemma str_len_eqb key : (str_len key =? 0) = String.eqb key "".
Proof. by destruct key. Qed.

Lemma cur_nonneg b s a : R b s a -> 0 <= Main (cur a).
Proof. intros HR. destruct (R_order _ _ _ HR) as [H1 H2]. unfold rev_le, Zero in *. simpl in *. lia. Qed.

Lemma Next_nextRev s a :
  Implements s a -> Main (cur a) < int64_max ->
  Next (revisionGen s) = (mkRevisionGenerator (nextRev a), nextRev a).
Proof.
  intros HR Hm. pose proof (cur_nonneg _ _ _ HR). pose proof (R_cur _ _ _ HR) as Hc.
  unfold Next, nextRev, Current in *. rewrite Hc.
  rewrite wrap_i64_id by (unfold_ints; lia). done.
Qed.

(** The generator at the next revision, nothing written yet. *)
Lemma Implements_next s a r :
  Implements s a -> Main (nextRev a) = Main r -> 0 <= Sub r ->
  R (nextRev a) (setGen s (mkRevisionGenerator r)) (setCur a r).
Proof.
  intros HR Hm Hs. apply R_setGen; [done| |done]. destruct (R_order _ _ _ HR) as [_ Ho].
  unfold nextRev, rev_le in *. simpl in *. lia.
Qed.

Lemma nextRev_lt r : rev_lt r (mkRevision (Main r + 1) 0).
Proof. unfold rev_lt. simpl. lia. Qed.

(** ** Writes *)

Lemma Put_refines s a key value lease :
  Implements s a -> fits a 1 ->
  simulates (step s (CmdPut key value lease)) (spec_step a (CmdPut key value lease)).
Proof.
  intros HR [Hm He]. unfold step, spec_step, Put, spec_put.
  rewrite str_len_eqb, (R_closed _ _ _ HR), (Next_nextRev _ _ HR Hm).
  destruct (String.eqb key ""); [done|]. destruct (isClosed a); [done|].
  split; [|done]. simpl. pose proof (cur_nonneg _ _ _ HR).
  eapply putAt_refines; [by apply Implements_next|apply rev_le_refl|..]; simpl; try lia.
  apply (nextRev_lt (nextRev a)).
Qed.

Lemma Delete_refines s a key :
  Implements s a -> fits a 1 ->
  simulates (step s (CmdDelete key)) (spec_step a (CmdDelete key)).
Proof.
  intros HR [Hm He]. unfold step, spec_step, Delete, spec_delete.
  rewrite str_len_eqb, (R_closed _ _ _ HR), (Next_nextRev _ _ HR Hm), (R_cur _ _ _ HR).
  destruct (String.eqb key ""); [done|]. destruct (isClosed a); [done|].
  pose proof (cur_nonneg _ _ _ HR).
  destruct (liveItem_spec _ _ _ key HR) as [[-> ->]|(ki & kv & _ & Hi & _ & Hl)]; [done|].
  rewrite Hi, Hl. split; [|done]. simpl.
  pose proof (Implements_next _ _ (nextRev a) HR eq_refl (Z.le_refl 0)) as HR'.
  assert (Hc : cur (spec_deleteAt (setCur a (nextRev a)) key (nextRev a)) = nextRev a)
    by (unfold spec_deleteAt; simpl; by rewrite Hl).
  unfold Implements, nextRev at 1. rewrite Hc.
  eapply tombstoneAt_refines; [done|apply rev_le_refl|apply nextRev_lt|simpl; lia|simpl; lia|done].
Qed.

Lemma spec_deleteKeys_cur a keys rev : cur (spec_deleteKeys a keys rev) = cur a.
Proof.
  revert a rev. induction keys as [|k keys IH]; intros a rev; simpl; [done|].
  rewrite IH. unfold spec_deleteAt. by destruct (live (log a) k).
Qed.

Lemma spec_deleteKeys_setCur a r keys rev :
  spec_deleteKeys (setCur a r) keys rev = setCur (spec_deleteKeys a keys rev) r.
Proof.
  revert a rev. induction keys as [|k keys IH]; intros a rev; simpl; [done|].
  rewrite <- IH. f_equal. unfold spec_deleteAt. simpl. by destruct (live (log a) k).
Qed.

Lemma liveRange_all_live l start end_ :
  Forall (fun k => is_Some (live l k)) (liveRange l start end_).*1.
Proof. apply Forall_forall. intros k Hk. by apply liveRange_keys in Hk as [_ ?]. Qed.

(** The deletion loop of [DeleteRange] and [executeDeleteRange]. *)
Lemma deleteRange_loop revOf m sub s a start end_ :
  R (mkRevision m sub) s a -> 0 < m -> 0 <= sub -> events a < int64_max ->
  (forall j, 0 <= j < Z.of_nat (length (liveRange (log a) start end_)) -> revOf j = mkRevision m (sub + j)) ->
  let keys := (liveRange (log a) start end_).*1 in
  exists s', deleteKeys revOf 0 keys (s, 0, 0) =
      (s', Z.of_nat (length keys), match keys with [] => 0 | _ => Z.of_nat (length keys) - 1 end) /\
    R (mkRevision m (sub + Z.of_nat (length keys))) s' (spec_deleteKeys a keys (mkRevision m sub)).
Proof.
  intros HR Hm Hsub He Hrev keys. subst keys.
  pose proof (live_keys_length (log a) start end_). pose proof (R_count _ _ _ HR).
  destruct (deleteKeys_refines revOf m (liveRange (log a) start end_).*1 0 sub s a 0 0 HR)
    as (s' & Hs' & HR'); try done.
  - rewrite length_fmap. done.
  - apply sorted_keys_NoDup, liveRange_sorted.
  - apply liveRange_all_live.
  - rewrite length_fmap. lia.
  - exists s'. done.
Qed.

Lemma setGen_noop s : setGen s (mkRevisionGenerator (current (revisionGen s))) = s.
Proof. by destruct s as [? ? [] ? ?]. Qed.

Lemma DeleteRange_refines s a start end_ :
  Implements s a -> fits a 1 ->
  simulates (step s (CmdDeleteRange start end_)) (spec_step a (CmdDeleteRange start end_)).
Proof.
  intros HR [Hm He]. unfold step, spec_step, DeleteRange, spec_deleteRange.
  rewrite str_len_eqb, (R_closed _ _ _ HR), (Next_nextRev _ _ HR Hm), (R_cur _ _ _ HR).
  destruct (String.eqb start ""); [done|]. destruct (isClosed a); [done|].
  pose proof (cur_nonneg _ _ _ HR). rewrite (collectKeys_live _ _ _ _ _ HR).
  pose proof (Implements_next _ _ (nextRev a) HR eq_refl (Z.le_refl 0)) as HR'.
  destruct (deleteRange_loop (fun i => mkRevision (Main (nextRev a)) i) (Main (nextRev a)) 0
              _ _ start end_ HR') as (s' & Hs' & HRs); [simpl; lia|lia|simpl; lia|done|].
  simpl log in *. destruct (liveRange (log a) start end_).*1 as [|k keys] eqn:Ek; [done|].
  rewrite Hs'. cbn zeta. split; [|done]. unfold write, Implements.
  set (n := Z.of_nat (length (k :: keys))) in *.
  assert (Hn : 1 <= n) by (unfold n; simpl length; lia).
  rewrite (spec_deleteKeys_setCur a) in HRs |- *.
  assert (Hgen : R (mkRevision (Main (nextRev a)) (0 + n))
    (setGen s' (mkRevisionGenerator (mkRevision (Main (nextRev a)) (n - 1))))
    (setCur (setCur (spec_deleteKeys a (k :: keys) (nextRev a)) (nextRev a))
       (mkRevision (Main (nextRev a)) (n - 1)))).
  { apply R_setGen; [done| |simpl; lia]. destruct (R_order _ _ _ HRs) as [_ Ho].
    eapply rev_le_trans; [apply Ho|]. unfold rev_le. simpl. lia. }
  apply (R_weaken _ (mkRevision (Main (nextRev a) + 1) 0)) in Hgen; [|unfold rev_le; simpl; lia].
  simpl fst. unfold nextRev at 1. simpl cur.
  match goal with |- R _ ?x _ => replace x with
    (setGen s' (mkRevisionGenerator (mkRevision (Main (nextRev a)) (n - 1)))) end; [done|].
  assert (Hg : current (revisionGen s') = nextRev a) by apply (R_cur _ _ _ HRs).
  rewrite Hg. destruct (Z.gtb_spec n 0); [|lia]. destruct (Z.gtb_spec (n - 1) 0); [done|].
  replace (n - 1) with 0 by lia. simpl.
  rewrite <- (setGen_noop s') at 2. by rewrite Hg.
Qed.

(** ** Reads *)

Lemma LessThan_decide r t : LessThan r t = bool_decide (rev_lt r t).
Proof. apply eq_true_iff_eq. by rewrite LessThan_iff, bool_decide_eq_true. Qed.
Lemma LessThanOrEqual_decide r t : LessThanOrEqual r t = bool_decide (rev_le r t).
Proof. apply eq_true_iff_eq. by rewrite LessThanOrEqual_iff, bool_decide_eq_true. Qed.
Lemma GreaterThan_decide r t : GreaterThan r t = bool_decide (rev_lt t r).
Proof. by rewrite GreaterThan_lt, LessThan_decide. Qed.

(** At revision [Zero] there is nothing to see: the store is still empty. *)
Lemma upTo_zero s a : Implements s a -> cur a = Zero -> log a = [].
Proof.
  intros HR Hc. destruct (log a) as [|e l] eqn:El; [done|]. exfalso.
  assert (Hin : e ∈ log a) by (rewrite El; by left).
  pose proof (R_event_in _ _ _ _ HR Hin) as (Hm & Hs & _).
  pose proof (R_bound _ _ _ HR) as Hb. rewrite Forall_forall in Hb. specialize (Hb _ Hin).
  unfold nextRev, rev_lt in Hb. rewrite Hc in Hb. simpl in Hb. lia.
Qed.

Lemma Get_refines s a key rev :
  Implements s a -> simulates (step s (CmdGet key rev)) (spec_step a (CmdGet key rev)).
Proof.
  intros HR. unfold step, spec_step, Get, spec_get, readAt, readRevision.
  rewrite str_len_eqb, (R_closed _ _ _ HR), (R_cur _ _ _ HR), (R_compacted _ _ _ HR).
  rewrite LessThan_decide, GreaterThan_decide.
  destruct (String.eqb key ""); [done|]. destruct (isClosed a); [done|]. cbn zeta.
  set (at_ := if rev =? 0 then cur a else mkRevision rev 0).
  destruct (bool_decide (rev_lt at_ (compacted a))); [done|].
  destruct (bool_decide (rev_lt (cur a) at_)); [done|]. simpl.
  pose proof (GetRevision_latest _ _ _ key at_ HR) as Hl. unfold visible, live, shown.
  destruct (latest (upTo at_ (log a)) key) as [[r kv]|].
  - destruct Hl as (-> & -> & ->). simpl. by destruct (Version kv =? 0).
  - by rewrite Hl.
Qed.

Lemma rangeList_length b s a start end_ at_ :
  R b s a -> at_ <> Zero ->
  (length (rangeList (keyIndex s) start end_ at_) <= length (log a))%nat.
Proof.
  intros HR Hz. transitivity (length (elements (dom (latestMap (log a))))).
  - rewrite <- (length_fmap fst). apply submseteq_length, NoDup_submseteq.
    { apply sorted_keys_NoDup, rangeList_sorted. }
    intros k ([k' r] & -> & (_ & Hnz & ki & Hg & <-)%elem_of_rangeList)%list_elem_of_fmap.
    apply elem_of_elements, elem_of_dom. simpl. rewrite latestMap_lookup.
    rewrite (rangeRevision_at _ _ _ _ _ _ HR Hz Hg) in Hnz.
    pose proof (GetRevision_latest _ _ _ k' at_ HR) as Hl.
    destruct (latest (upTo at_ (log a)) k') as [e|] eqn:E; [|done].
    apply latest_elem in E as [Hin%elem_of_upTo Hk].
    destruct (latest (log a) k') eqn:E'; [by eexists|].
    apply last_such_None in E'. rewrite Forall_forall in E'. specialize (E' _ Hin).
    unfold ofKey in E'. rewrite Hk, String.eqb_refl in E'. done.
  - change (length (elements (dom (latestMap (log a))))) with (size (dom (latestMap (log a)))).
    rewrite size_dom. apply latestMap_size.
Qed.

Lemma limitedFrom_0 {A} limit (kvs : list A) : limitedFrom limit 0 kvs = limited limit kvs.
Proof. unfold limitedFrom, limited. by rewrite Z.sub_0_r. Qed.

Lemma Range_at s a start end_ limit at_ :
  Implements s a -> events a < int64_max -> (at_ = Zero -> cur a = Zero) ->
  KeyIndex.Range (keyIndex s) start end_ at_ (rangeCallback s limit) ([], 0) =
    let kvs := limited limit (liveRange (upTo at_ (log a)) start end_).*2 in
    (kvs, Z.of_nat (length kvs)).
Proof.
  intros HR He Hz. rewrite Range_rangeList by apply HR.
  pose proof (R_count _ _ _ HR). cbn zeta. destruct (decide (at_ = Zero)) as [->|Hnz].
  - pose proof (upTo_zero _ _ HR (Hz eq_refl)) as Hl.
    assert (Hr : rangeList (keyIndex s) start end_ Zero = []).
    { destruct (rangeList _ _ _ _) as [|[k r] l] eqn:E; [done|].
      assert (Hin : (k, r) ∈ rangeList (keyIndex s) start end_ Zero) by (rewrite E; by left).
      apply elem_of_rangeList in Hin as (_ & Hnz%IsZero_false & ki & Hg & <-).
      pose proof (rangeRevision_live _ _ _ _ _ HR Hg) as Hlv. rewrite Hl in Hlv. simpl in Hlv. congruence. }
    rewrite Hr, Hl. change (liveRange (upTo Zero []) start end_) with (@nil (string * KeyValue)).
    unfold limited. simpl. rewrite take_nil. by destruct (limit >? 0).
  - pose proof (rangeList_length _ _ _ start end_ at_ HR Hnz).
    rewrite rangeCallback_loop; [|done|simpl; lia|lia].
    rewrite limitedFrom_0. fold (rangeKvs s start end_ at_).
    by rewrite (rangeKvs_at _ _ _ _ _ _ HR Hnz).
Qed.

Lemma Range_refines s a start end_ rev limit :
  Implements s a -> fits a 1 ->
  simulates (step s (CmdRange start end_ rev limit)) (spec_step a (CmdRange start end_ rev limit)).
Proof.
  intros HR [Hm He]. unfold step, spec_step, Range, spec_range, readAt, readRevision.
  rewrite str_len_eqb, (R_closed _ _ _ HR), (R_cur _ _ _ HR), (R_compacted _ _ _ HR).
  rewrite LessThan_decide, GreaterThan_decide.
  destruct (String.eqb start ""); [done|]. destruct (isClosed a); [done|]. cbn zeta.
  set (at_ := if rev =? 0 then cur a else mkRevision rev 0).
  destruct (bool_decide (rev_lt at_ (compacted a))); [done|].
  destruct (bool_decide (rev_lt (cur a) at_)); [done|]. simpl.
  rewrite (Range_at _ a); [done|done|lia|]. unfold at_.
  destruct (Z.eqb_spec rev 0); [done|]. by intros [= ->].
Qed.

(** ** Transactions *)

Lemma evaluateConditions_refines b s a conds :
  R b s a -> evaluateConditions s conds = spec_conditions (log a) conds.
Proof.
  intros HR. induction conds as [|c conds IH]; simpl; [done|]. unfold evaluateCondition.
  destruct (liveItem_spec _ _ _ (c_Key c) HR) as [[-> ->]|(ki & kv & _ & -> & -> & ->)]; by rewrite IH.
Qed.

Lemma concat_omap {A B C} (f : A -> option (B * C)) (l : list A) :
  concat ((fun x => match f x with Some q => [q.2] | None => [] end) <$> l) = (omap f l).*2.
Proof.
  induction l as [|x l IH]; [done|]. cbn [fmap list_fmap omap list_omap concat].
  cbn in IH |- *. destruct (f x); cbn; by rewrite IH.
Qed.

Lemma executeGet_refines b s a op :
  R b s a -> op_Type op = OpTypeGet -> executeGet s op = (spec_op a op Zero).2.
Proof.
  intros HR Ht. unfold executeGet, spec_op. rewrite Ht. simpl. f_equal. destruct (op_End op) as [e|].
  - rewrite Range_rangeList by apply HR.
    rewrite (iter_while_ext _ (fun kvs p =>
      (kvs ++ match foundAt s p with Some q => [q.2] | None => [] end, true))).
    + rewrite iter_collect, concat_omap. simpl.
      by rewrite <- (rangeKvs_zero _ _ _ _ _ HR).
    + intros kvs p. unfold foundAt. destruct (bt_get p.2 (revisionStore s)) as [kv|] eqn:E;
        [|by rewrite app_nil_r].
      apply (R_store _ _ _ HR) in E. destruct (R_event_in _ _ _ _ HR E) as (_ & _ & Hv). simpl in Hv.
      destruct (Z.gtb_spec (Version kv) 0), (Z.eqb_spec (Version kv) 0); try lia; [done|].
      by rewrite app_nil_r.
  - by destruct (liveItem_spec _ _ _ (op_Key op) HR) as [[-> ->]|(ki & kv & _ & -> & -> & ->)].
Qed.

Lemma executeOp_refines s a op txnRev i :
  R (mkRevision (Main txnRev) i) s a -> 0 < Main txnRev -> 0 <= i -> events a < int64_max ->
  op_Type op <> OpTypeDeleteRange ->
  let '(s', r) := executeOp s op txnRev i in
  let '(a', r') := spec_op a op (mkRevision (Main txnRev) i) in
  R (mkRevision (Main txnRev) (i + 1)) s' a' /\ r = r' /\ cur a' = cur a /\ events a' <= events a + 1.
Proof.
  intros HR Hm Hi He Ht.
  assert (Hlt : rev_lt (mkRevision (Main txnRev) i) (mkRevision (Main txnRev) (i + 1)))
    by (unfold rev_lt; simpl; lia).
  assert (HRw : R (mkRevision (Main txnRev) (i + 1)) s a)
    by (eapply R_weaken; [|done]; apply rev_le_lteq; by left).
  unfold executeOp. destruct (op_Type op) eqn:Et; try done.
  - unfold executePut, spec_op. rewrite Et. simpl. split_and!; [|done|done|done].
    by eapply putAt_refines; [apply HR|apply rev_le_refl|..].
  - rewrite (executeGet_refines _ _ _ _ HR Et). unfold spec_op. rewrite Et. split_and!; [done|done|done|lia].
  - unfold executeDelete, spec_op. rewrite Et.
    destruct (liveItem_spec _ _ _ (op_Key op) HR) as [[Hn Hl]|(ki & kv & _ & Hs & _ & Hl)];
      rewrite Hl; rewrite ?Hn, ?Hs.
    + unfold spec_deleteAt. rewrite Hl. split_and!; [done|done|done|lia].
    + split_and!; [by eapply tombstoneAt_refines; [apply HR|apply rev_le_refl|..]|done|..];
        unfold spec_deleteAt; rewrite Hl; simpl; [done|lia].
  - unfold spec_op. rewrite Et. split_and!; [done|done|done|lia].
Qed.

Lemma executeDeleteRange_refines s a op txnRev i :
  R (mkRevision (Main txnRev) i) s a -> 0 < Main txnRev -> 0 <= i -> events a + i < int64_max ->
  op_Type op = OpTypeDeleteRange ->
  let '(s', r) := executeOp s op txnRev i in
  let '(a', r') := spec_op a op (mkRevision (Main txnRev) i) in
  R (mkRevision (Main txnRev + 1) 0) s' a' /\ r = r' /\ cur a' = cur a.
Proof.
  intros HR Hm Hi He Ht. unfold executeOp, spec_op. rewrite Ht. unfold executeDeleteRange.
  rewrite (collectKeys_live _ _ _ _ _ HR).
  pose proof (live_keys_length (log a) (op_Key op) (op_End op)). pose proof (R_count _ _ _ HR).
  simpl Main. simpl Sub.
  destruct (deleteRange_loop (fun j => mkRevision (Main txnRev) (wrap_i64 (i + j))) (Main txnRev) i
              _ _ (op_Key op) (op_End op) HR) as (s' & -> & HRs); [done|done|lia| |].
  { intros j Hj. rewrite wrap_i64_id by (unfold_ints; lia). done. }
  split_and!; [|done|apply spec_deleteKeys_cur].
  eapply R_weaken; [|apply HRs]. unfold rev_le. simpl. lia.
Qed.

Lemma executeOps_refines ops : forall s a txnRev i,
  R (mkRevision (Main txnRev) i) s a -> 0 < Main txnRev -> 0 <= i ->
  events a + i + 2 * Z.of_nat (length ops) < int64_max -> rangeDeleteLast ops = true ->
  let '(s', rs) := executeOps s ops txnRev i in
  let '(a', rs') := spec_ops a ops (mkRevision (Main txnRev) i) in
  R (mkRevision (Main txnRev + 1) 0) s' a' /\ rs = rs' /\ cur a' = cur a.
Proof.
  induction ops as [|op ops IH]; intros s a txnRev i HR Hm Hi He Hok; simpl.
  { split_and!; [|done|done]. eapply R_weaken; [|done]. unfold rev_le. simpl. lia. }
  simpl length in He.
  assert (Hcase : op_Type op <> OpTypeDeleteRange /\ rangeDeleteLast ops = true \/
    op_Type op = OpTypeDeleteRange /\ ops = []).
  { destruct ops as [|op' ops].
    - destruct (op_Type op); [left..|by right|left]; by split.
    - left. cbn [rangeDeleteLast] in Hok. by destruct (op_Type op). }
  destruct Hcase as [[Hne Hok']|[Heq ->]].
  - pose proof (executeOp_refines s a op txnRev i HR Hm Hi ltac:(lia) Hne) as H1.
    destruct (executeOp s op txnRev i) as [s1 r1], (spec_op a op _) as [a1 r1'].
    destruct H1 as (HR1 & -> & Hc1 & He1).
    specialize (IH s1 a1 txnRev (i + 1) HR1 Hm ltac:(lia) ltac:(lia) Hok').
    destruct (executeOps s1 ops txnRev (i + 1)) as [s2 rs2], (spec_ops a1 ops _) as [a2 rs2'].
    destruct IH as (? & -> & ?). split_and!; [done|done|congruence].
  - pose proof (executeDeleteRange_refines s a op txnRev i HR Hm Hi ltac:(lia) Heq) as H1.
    destruct (executeOp s op txnRev i) as [s1 r1], (spec_op a op _) as [a1 r1']. simpl.
    by destruct H1 as (? & -> & ?).
Qed.

Lemma Commit_refines s a t :
  Implements s a -> cmdOk a (CmdCommit t) ->
  simulates (step s (CmdCommit t)) (spec_step a (CmdCommit t)).
Proof.
  intros HR (Ht & Hel & Hm & He). unfold step, spec_step, Commit, spec_commit.
  rewrite (R_closed _ _ _ HR), (Next_nextRev _ _ HR Hm), (evaluateConditions_refines _ _ _ _ HR).
  destruct (isClosed a); [done|].
  destruct (spec_conditions (log a) (conditions t)) as [succ|]; [|done].
  pose proof (cur_nonneg _ _ _ HR).
  pose proof (Implements_next _ _ (nextRev a) HR eq_refl (Z.le_refl 0)) as HR'.
  pose proof (executeOps_refines (if succ then thenOps t else elseOps t) _ _ (nextRev a) 0 HR') as Hops.
  change (mkRevision (Main (nextRev a)) 0) with (nextRev a) in Hops.
  destruct (executeOps _ _ _ _) as [s' rs], (spec_ops _ _ _) as [a' rs'].
  destruct Hops as (HRn & -> & Hc); [simpl; lia|lia|simpl events; destruct succ; lia|by destruct succ|].
  split; [|done]. simpl. unfold Implements, nextRev. by rewrite Hc.
Qed.

(** ** Compaction and closing *)

Lemma last_such_kept target (q : Event -> bool) (l : list Event) e :
  StronglySorted rev_lt l.*1 ->
  last_such q (List.filter (fun e => keptBy target e.1) l) = Some e -> last_such q l = Some e.
Proof.
  rewrite last_such_filter. revert e. induction l as [|x l IH]; intros e Hs; [done|].
  cbn in Hs |- *. inv Hs as [|? ? Hs' Hall]. rewrite Forall_fmap in Hall.
  destruct (last_such (fun e => keptBy target e.1 && q e) l) as [y|] eqn:E.
  - intros [= <-]. by rewrite (IH y Hs' eq_refl).
  - destruct (keptBy target x.1 && q x) eqn:Ex; [|done]. intros [= <-].
    apply andb_true_iff in Ex as [Hk Hq]. rewrite Hq.
    replace (last_such q l) with (@None Event); [done|]. symmetry. apply last_such_None.
    apply last_such_None in E. rewrite Forall_forall in E, Hall |- *. intros y Hy.
    specialize (E y Hy). specialize (Hall y Hy). simpl in Hall.
    by rewrite (keptBy_mono _ _ _ Hk Hall) in E.
Qed.

Lemma filter_comm {A} (p q : A -> bool) (l : list A) :
  List.filter p (List.filter q l) = List.filter q (List.filter p l).
Proof.
  induction l as [|x l IH]; simpl; [done|].
  destruct (p x) eqn:Ep, (q x) eqn:Eq; simpl; rewrite ?Ep, ?Eq, IH; done.
Qed.

Lemma filter_fst (p : Revision -> bool) (l : list Event) :
  List.filter p l.*1 = (List.filter (fun e => p e.1) l).*1.
Proof. induction l as [|x l IH]; [done|]. cbn in *. destruct (p x.1); cbn; by rewrite IH. Qed.

Lemma live_kept target l key :
  StronglySorted rev_lt l.*1 -> noTombstoneFrom target l ->
  match live (List.filter (fun e => keptBy target e.1) l) key with Some _ => false | None => true end =
  match keyLog (List.filter (fun e => keptBy target e.1) l) key with [] => true | _ => false end.
Proof.
  intros Hs Hnt. unfold live.
  destruct (latest (List.filter (fun e => keptBy target e.1) l) key) as [e|] eqn:E.
  - pose proof (latest_elem _ _ _ E) as [Hin Hk].
    apply list_elem_of_In, filter_In in Hin as Hin'. destruct Hin' as [_ Hkept].
    apply (last_such_kept _ _ _ _ Hs) in E. simpl.
    destruct (Z.eqb_spec (Version e.2) 0) as [Hv|_].
    { specialize (Hnt _ _ E Hv). unfold keptBy in Hkept. apply LessThanOrEqual_iff in Hkept.
      destruct (rev_lt_irrefl e.1). eauto with metastore. }
    assert (Hkl : e ∈ keyLog (List.filter (fun e => keptBy target e.1) l) key).
    { unfold keyLog. apply list_elem_of_In, filter_In. split; [done|].
      by apply String.eqb_eq. }
    destruct (keyLog _ key); [by apply elem_of_nil in Hkl|done].
  - unfold latest in E. rewrite <- last_such_last in E. apply last_None in E.
    unfold keyLog. by rewrite E.
Qed.

Lemma keptBy_not_lt target r : keptBy target r = negb (LessThan r target).
Proof.
  unfold keptBy. destruct (LessThan r target) eqn:E; simpl.
  - apply LessThanOrEqual_false. by apply LessThan_iff.
  - apply LessThanOrEqual_iff. by apply LessThan_false.
Qed.

(** What stays in the revision store. *)
Lemma Compact_store b s a target r kv :
  R b s a ->
  bt_get r (fold_left (fun t p => bt_delete p.1 t)
     (List.filter (fun p => LessThan p.1 target) (bt_ascend (revisionStore s))) (revisionStore s)) = Some kv
  <-> (r, kv) ∈ List.filter (fun e => keptBy target e.1) (log a).
Proof.
  intros HR.
  assert (Hrhs : (r, kv) ∈ List.filter (fun e => keptBy target e.1) (log a) <->
                 bt_get r (revisionStore s) = Some kv /\ LessThan r target = false).
  { rewrite list_elem_of_In, filter_In, <- list_elem_of_In. simpl.
    by rewrite <- (R_store _ _ _ HR), keptBy_not_lt, negb_true_iff. }
  rewrite Hrhs, (bt_get_deletes fst).
  assert (Hin : r ∈ (List.filter (fun p => LessThan p.1 target) (bt_ascend (revisionStore s))).*1 <->
                is_Some (bt_get r (revisionStore s)) /\ LessThan r target = true).
  { rewrite list_elem_of_fmap. setoid_rewrite list_elem_of_In. setoid_rewrite filter_In.
    setoid_rewrite <- list_elem_of_In. split.
    - intros ([r' kv'] & -> & Hin & Hlt). apply bt_ascend_elem in Hin. split; [by eexists|done].
    - intros [[kv' Hkv] Hlt]. exists (r, kv'). split_and!; [done|by apply bt_ascend_elem|done]. }
  case_decide as Hd; rewrite Hin in Hd.
  - destruct Hd as [_ ->]. naive_solver.
  - destruct (LessThan r target); [|naive_solver].
    split; [|naive_solver]. intros Hg. destruct Hd. split; [by eexists|done].
Qed.

Lemma Compact_refines s a rev :
  Implements s a -> cmdOk a (CmdCompact rev) ->
  simulates (step s (CmdCompact rev)) (spec_step a (CmdCompact rev)).
Proof.
  intros HR Hnt. unfold step, spec_step, Compact, spec_compact.
  rewrite (R_closed _ _ _ HR), (R_cur _ _ _ HR), (R_compacted _ _ _ HR).
  rewrite LessThanOrEqual_decide, GreaterThan_decide. cbn zeta. simpl in Hnt.
  set (target := mkRevision rev 0) in *. destruct (isClosed a) eqn:Ec; [done|].
  destruct (bool_decide_reflect (rev_le target (compacted a))) as [|Hc]; [done|].
  destruct (bool_decide_reflect (rev_lt (cur a) target)) as [|Hf]; [done|].
  split; [|done]. destruct (Compact_spec (keyIndex s) target (R_index _ _ _ HR)) as (Hwf & Hrevs & Hdel).
  assert (Hsub : forall P, Forall P (log a) -> Forall P (List.filter (fun e => keptBy target e.1) (log a))).
  { intros P. rewrite !Forall_forall. intros H e He%list_elem_of_In%filter_In. apply H, list_elem_of_In, He. }
  assert (Hkl : forall key, List.filter (keptBy target) (idxRevs (keyIndex s) key) =
    (keyLog (List.filter (fun e => keptBy target e.1) (log a)) key).*1).
  { intros key. rewrite (R_revs _ _ _ HR), filter_fst. unfold keyLog. by rewrite filter_comm. }
  constructor; simpl; try done; try (by apply Hsub, HR).
  - intros key. by rewrite Hrevs, Hkl.
  - intros key. rewrite Hdel, Hkl, live_kept; [|apply HR|done].
    by destruct (keyLog _ key).
  - intros r kv. by apply Compact_store with (nextRev a).
  - rewrite <- filter_fst. by apply filter_sorted, HR.
  - pose proof (R_count _ _ _ HR).
    pose proof (filter_length_le (fun e : Event => keptBy target e.1) (log a)). lia.
  - apply HR.
  - apply rev_not_le in Hc. destruct (R_order _ _ _ HR) as [Hz _].
    split; [apply rev_le_lteq; left; eauto with metastore|].
    apply dec_stable. by rewrite rev_not_le.
  - apply HR.
Qed.

Lemma Close_refines s a :
  Implements s a -> simulates (step s CmdClose) (spec_step a CmdClose).
Proof.
  intros HR. unfold step, spec_step, Close, spec_close. rewrite (R_closed _ _ _ HR).
  destruct (isClosed a); [done|]. split; [|done]. constructor; try apply HR. done.
Qed.

(** ** All commands *)

Lemma step_refines s a c :
  Implements s a -> cmdOk a c -> simulates (step s c) (spec_step a c).
Proof.
  intros HR Hok. destruct c.
  - by apply Put_refines.
  - by apply Get_refines.
  - by apply Range_refines.
  - by apply Delete_refines.
  - by apply DeleteRange_refines.
  - by apply Commit_refines.
  - by apply Compact_refines.
  - by apply Close_refines.
  - split; [done|]. simpl. unfold CurrentRevision. by rewrite (R_cur _ _ _ HR).
  - split; [done|]. simpl. unfold CompactedRevision. by rewrite (R_compacted _ _ _ HR).
Qed.

Fixpoint run s (cs : list Cmd) : MemoryStore TI TR * list Resp :=
  match cs with
  | [] => (s, [])
  | c :: cs' => let '(s1, r) := step s c in let '(s2, rs) := run s1 cs' in (s2, r :: rs)
  end.

End ops.

Fixpoint spec_run (a : Spec) (cs : list Cmd) : Spec * list Resp :=
  match cs with
  | [] => (a, [])
  | c :: cs' => let '(a1, r) := spec_step a c in let '(a2, rs) := spec_run a1 cs' in (a2, r :: rs)
  end.

(** Every command of the trace is acceptable where it is run. *)
Fixpoint traceOk (a : Spec) (cs : list Cmd) : Prop :=
  match cs with
  | [] => True
  | c :: cs' => cmdOk a c /\ traceOk (spec_step a c).1 cs'
  end.

Lemma run_simulates {TI TR : Type -> Type} `{!BTree string TI, !BTree Revision TR}
    `{!BTreeLaws string TI, !BTreeLaws Revision TR} cs : forall (s : MemoryStore TI TR) a,
  Implements s a -> traceOk a cs ->
  Implements (run s cs).1 (spec_run a cs).1 /\ (run s cs).2 = (spec_run a cs).2.
Proof.
  induction cs as [|c cs IH]; intros s a HR Hok; simpl; [done|].
  destruct Hok as [Hc Hcs]. destruct (step_refines s a c HR Hc) as [HR1 Hr].
  destruct (step s c) as [s1 r], (spec_step a c) as [a1 r']. simpl in *. subst r'.
  destruct (IH s1 a1 HR1 Hcs) as [HR2 Hrs].
  destruct (run s1 cs) as [s2 rs], (spec_run a1 cs) as [a2 rs']. simpl in *. by subst rs'.
Qed.
