(* ===== verification/MvccTheorems.v ===== *)
(** * Properties of the MVCC store

    Consequences of the refinement for a caller of [MemoryStore], stated on the
    code's own operations, and the concrete runs where the code does something
    its interface does not promise. *)

From S2P Require Import Prelude GoBytes Revision OrderedTree KeyValue KeyIndex MemoryStore.
From S2P Require Import MvccSpec MvccRefine MvccOps.
Local Open Scope go_scope.

(** ** Logs only grow *)

(** [a'] comes from [a] by events at or above [b] and by moving [cur]. *)
Record extends (b : Revision) (a a' : Spec) : Prop := {
  ex_log : exists es, log a' = log a ++ es /\ Forall (fun e => rev_le b e.1) es;
  ex_compacted : compacted a' = compacted a;
  ex_closed : isClosed a' = isClosed a;
}.

Lemma extends_refl b a : extends b a a.
Proof. split; [exists []; by rewrite app_nil_r|done|done]. Qed.

Lemma extends_trans b b' a a1 a2 : rev_le b b' -> extends b a a1 -> extends b' a1 a2 -> extends b a a2.
Proof.
  intros Hb [(es1 & H1 & F1) ? ?] [(es2 & H2 & F2) ? ?]. split; [|congruence..].
  exists (es1 ++ es2). rewrite H2, H1, <- app_assoc. split; [done|]. apply Forall_app. split; [done|].
  eapply Forall_impl; [exact F2|]. simpl. eauto using rev_le_trans.
Qed.

Lemma extends_append b a rev kv : rev_le b rev -> extends b a (append a rev kv).
Proof. intros. split; [|done..]. exists [(rev, kv)]. split; [done|]. by apply Forall_singleton. Qed.

Lemma extends_setCur b a r : extends b a (setCur a r).
Proof. split; [exists []; by rewrite app_nil_r|done|done]. Qed.

Lemma extends_deleteAt b a key rev : rev_le b rev -> extends b a (spec_deleteAt a key rev).
Proof.
  intros. unfold spec_deleteAt. destruct (live (log a) key); [by apply extends_append|apply extends_refl].
Qed.

Lemma extends_deleteKeys b keys : forall a rev, rev_le b rev -> extends b a (spec_deleteKeys a keys rev).
Proof.
  induction keys as [|k keys IH]; intros a rev Hb; simpl; [apply extends_refl|].
  eapply extends_trans; [apply rev_le_refl|by apply extends_deleteAt|]. apply IH.
  unfold rev_le in *. simpl. lia.
Qed.

Lemma extends_op b a op rev : rev_le b rev -> extends b a (spec_op a op rev).1.
Proof.
  intros Hb. unfold spec_op. destruct (op_Type op); simpl;
    eauto using extends_append, extends_deleteAt, extends_deleteKeys, extends_refl.
Qed.

Lemma extends_ops b ops : forall a rev, rev_le b rev -> extends b a (spec_ops a ops rev).1.
Proof.
  induction ops as [|op ops IH]; intros a rev Hb; simpl; [apply extends_refl|].
  pose proof (extends_op b a op rev Hb) as H1. destruct (spec_op a op rev) as [a1 r].
  pose proof (IH a1 (mkRevision (Main rev) (Sub rev + 1))) as H2.
  destruct (spec_ops a1 ops _) as [a2 rs]. simpl in *.
  eapply extends_trans; [apply rev_le_refl|done|]. apply H2. unfold rev_le in *. simpl. lia.
Qed.

Lemma spec_ops_cur ops : forall a rev, cur (spec_ops a ops rev).1 = cur a.
Proof.
  induction ops as [|op ops IH]; intros a rev; simpl; [done|].
  assert (Hop : cur (spec_op a op rev).1 = cur a).
  { unfold spec_op. destruct (op_Type op); simpl; try done; [|apply spec_deleteKeys_cur].
    unfold spec_deleteAt. by destruct (live (log a) (op_Key op)). }
  destruct (spec_op a op rev) as [a1 r]. specialize (IH a1 (mkRevision (Main rev) (Sub rev + 1))).
  destruct (spec_ops a1 ops _) as [a2 rs]. simpl in *. congruence.
Qed.

(** Commands other than [Compact] and [Close]. *)
Definition keepsHistory (c : Cmd) : bool :=
  match c with CmdCompact _ | CmdClose => false | _ => true end.

Lemma extends_step a c :
  keepsHistory c = true ->
  extends (nextRev a) a (spec_step a c).1 /\ Main (cur a) <= Main (cur (spec_step a c).1).
Proof.
  intros Hc. pose proof (rev_le_refl (nextRev a)) as Hr.
  assert (Hid : extends (nextRev a) a a /\ Main (cur a) <= Main (cur a)) by (split; [apply extends_refl|lia]).
  assert (Hnext : forall r a', extends (nextRev a) (setCur a r) a' -> extends (nextRev a) a a').
  { intros r a'. apply extends_trans; [done|apply extends_setCur]. }
  destruct c; try done; simpl.
  - unfold spec_put. destruct (String.eqb key ""); [done|]. destruct (isClosed a) eqn:?; [done|].
    simpl. split; [|lia]. eapply Hnext. by apply extends_append.
  - unfold spec_get. destruct (String.eqb key ""); [done|].
    destruct (readAt a rev) as [r|]; simpl; [|done]. by destruct (visible (log a) r key).
  - unfold spec_range. destruct (String.eqb start ""); [done|]. by destruct (readAt a rev).
  - unfold spec_delete. destruct (String.eqb key ""); [done|]. destruct (isClosed a); [done|].
    destruct (live (log a) key) eqn:El; [|done]. simpl. split.
    + eapply Hnext. by apply extends_deleteAt.
    + unfold spec_deleteAt. simpl. rewrite El. simpl. lia.
  - unfold spec_deleteRange. destruct (String.eqb start ""); [done|]. destruct (isClosed a); [done|].
    destruct (liveRange (log a) start end_).*1 as [|k keys]; [done|]. cbn [write fst snd]. split.
    + eapply Hnext. by apply extends_deleteKeys.
    + rewrite spec_deleteKeys_cur. simpl. lia.
  - unfold spec_commit. destruct (isClosed a); [done|].
    destruct (spec_conditions (log a) (conditions t)) as [succ|]; [|done]. cbn zeta.
    pose proof (extends_ops (nextRev a) (if succ then thenOps t else elseOps t)
      (setCur a (nextRev a)) (nextRev a) Hr) as He.
    pose proof (spec_ops_cur (if succ then thenOps t else elseOps t)
      (setCur a (nextRev a)) (nextRev a)) as Hcur.
    destruct (spec_ops _ _ _) as [a' rs]. cbn in He, Hcur |- *. split; [by eapply Hnext|].
    rewrite Hcur. simpl. lia.
Qed.

Lemma extends_run cs : forall a,
  forallb keepsHistory cs = true ->
  extends (nextRev a) a (spec_run a cs).1 /\ Main (cur a) <= Main (cur (spec_run a cs).1).
Proof.
  induction cs as [|c cs IH]; intros a Hcs; simpl; [split; [apply extends_refl|lia]|].
  simpl in Hcs. apply andb_true_iff in Hcs as [Hc Hcs].
  destruct (extends_step a c Hc) as [H1 H2]. destruct (spec_step a c) as [a1 r].
  destruct (IH a1 Hcs) as [H3 H4]. destruct (spec_run a1 cs) as [a2 rs]. simpl in *.
  split; [|lia]. eapply extends_trans; [|done|done]. unfold nextRev, rev_le. simpl. lia.
Qed.

(** Events above a revision do not change what is read there. *)
Lemma visible_app l es at_ key :
  Forall (fun e => rev_lt at_ e.1) es -> visible (l ++ es) at_ key = visible l at_ key.
Proof.
  intros Hes. unfold visible, upTo. rewrite List.filter_app.
  replace (List.filter _ es) with (@nil Event); [by rewrite app_nil_r|].
  induction Hes as [|e es He _ IH]; simpl; [done|]. apply LessThanOrEqual_false in He. by rewrite He.
Qed.

Lemma spec_get_stable a a' key rev :
  extends (nextRev a) a a' -> Main (cur a) <= Main (cur a') ->
  0 < rev <= Main (cur a) -> 0 <= Sub (cur a) -> 0 <= Sub (cur a') ->
  spec_get a' key rev = spec_get a key rev.
Proof.
  intros [(es & Hlog & Hes) Hc Hcl] Hm Hrev Hs Hs'. unfold spec_get, readAt.
  rewrite Hc, Hcl, Hlog. destruct (String.eqb key ""); [done|]. destruct (isClosed a); [done|].
  destruct (Z.eqb_spec rev 0); [lia|]. cbn zeta.
  destruct (bool_decide (rev_lt (mkRevision rev 0) (compacted a))); [done|].
  rewrite !bool_decide_false by (unfold rev_lt; simpl; lia). simpl.
  rewrite visible_app; [done|]. eapply Forall_impl; [exact Hes|]. simpl. intros e.
  unfold nextRev, rev_le, rev_lt. simpl. lia.
Qed.

(** ** From the specification back to the code *)

Section facts.
Context {TI TR : Type -> Type} `{!BTree string TI, !BTree Revision TR}
  `{!BTreeLaws string TI, !BTreeLaws Revision TR}.

Implicit Types (s : MemoryStore TI TR) (a : Spec).

Lemma Get_eq s a key rev : Implements s a -> Get s key rev = spec_get a key rev.
Proof.
  intros HR. pose proof (Get_refines s a key rev HR) as [_ H]. simpl in H. unfold read in H.
  destruct (Get s key rev), (spec_get a key rev); simpl in H; congruence.
Qed.

Lemma Range_eq s a start end_ rev limit :
  Implements s a -> fits a 1 -> Range s start end_ rev limit = spec_range a start end_ rev limit.
Proof.
  intros HR Hf. pose proof (Range_refines s a start end_ rev limit HR Hf) as [_ H]. simpl in H.
  unfold read in H.
  destruct (Range s start end_ rev limit) as [[]|], (spec_range a start end_ rev limit) as [[]|];
    simpl in H; congruence.
Qed.

(** The current revision covers the whole log. *)
Definition covers a : Prop := Forall (fun e => rev_le e.1 (cur a)) (log a).

Lemma upTo_all l at_ : Forall (fun e => rev_le e.1 at_) l -> upTo at_ l = l.
Proof.
  induction 1 as [|e l He _ IH]; simpl; [done|]. apply LessThanOrEqual_iff in He. by rewrite He, IH.
Qed.

(** A read of the latest revision, when the current one covers the log. *)
Lemma spec_get_current a key :
  covers a -> rev_le (compacted a) (cur a) -> isClosed a = false -> key <> "" ->
  spec_get a key 0 = match live (log a) key with Some kv => Ok kv | None => Err ErrKeyNotFound end.
Proof.
  intros Hc Ho Hcl Hk. unfold spec_get, readAt. rewrite Hcl. apply String.eqb_neq in Hk. rewrite Hk. simpl.
  rewrite !bool_decide_false by (by rewrite ?rev_not_le; first [apply rev_lt_irrefl|
    intros Hlt; apply (rev_lt_irrefl (cur a)); eauto with metastore]).
  simpl. unfold visible. by rewrite upTo_all.
Qed.

Lemma spec_range_current a start end_ limit :
  covers a -> rev_le (compacted a) (cur a) -> isClosed a = false -> start <> "" ->
  spec_range a start end_ 0 limit =
    Ok (limited limit (liveRange (log a) start end_).*2,
        Z.of_nat (length (limited limit (liveRange (log a) start end_).*2))).
Proof.
  intros Hc Ho Hcl Hk. unfold spec_range, readAt. rewrite Hcl. apply String.eqb_neq in Hk. rewrite Hk. simpl.
  rewrite !bool_decide_false by (by rewrite ?rev_not_le; first [apply rev_lt_irrefl|
    intros Hlt; apply (rev_lt_irrefl (cur a)); eauto with metastore]).
  simpl. by rewrite upTo_all.
Qed.

(** Events at the new revision, on a log of an implemented state. *)
Lemma covers_next s a r es :
  Implements s a -> Main r = Main (nextRev a) -> 0 <= Sub r ->
  Forall (fun e => rev_le e.1 r) es -> Forall (fun e => rev_le e.1 r) (log a ++ es).
Proof.
  intros HR Hm Hs Hes. apply Forall_app. split; [|done].
  eapply Forall_impl; [apply (R_bound _ _ _ HR)|]. simpl. intros e.
  unfold nextRev, rev_lt, rev_le in *. simpl in *. lia.
Qed.

(** C1: the in-memory store is a log of events, for the sequences of puts, gets,
    ranges, deletions, transactions, compactions and closing that [traceOk]
    admits: in each branch of a transaction a range deletion is the last operation,
    a compaction finds no key whose latest event is a deletion at or after its
    revision, and the counters stay within [int64].  Over these the store gives the
    same answers, errors and panics included, as the log, and ends in a state that
    represents it.  Outside of them it does not: see [txn_range_delete_collides]
    and [compaction_revives_deleted_key]. *)
Theorem mvcc_refines_event_log (cs : list Cmd) (Hok : traceOk spec_init cs) :
  (run (TI:=TI) (TR:=TR) NewMemoryStore cs).2 = (spec_run spec_init cs).2 /\
  Implements (run (TI:=TI) (TR:=TR) NewMemoryStore cs).1 (spec_run spec_init cs).1.
Proof. destruct (run_simulates cs NewMemoryStore spec_init R_init Hok). done. Qed.

(** C3: what a read at a given revision returns never changes: later puts,
    deletions and transactions leave every past revision as it was. *)
Theorem mvcc_history_immutable s a (cs : list Cmd) (key : string) (rev : Z)
    (HI : Implements s a) (Hok : traceOk a cs) (Hcs : forallb keepsHistory cs = true)
    (Hrev : 0 < rev <= CurrentRevision s) :
  Get (run s cs).1 key rev = Get s key rev.
Proof.
  destruct (run_simulates cs s a HI Hok) as [HI' _]. destruct (extends_run cs a Hcs) as [He Hm].
  rewrite (Get_eq _ _ _ _ HI'), (Get_eq _ _ _ _ HI).
  unfold CurrentRevision in Hrev. rewrite (R_cur _ _ _ HI) in Hrev.
  by apply spec_get_stable; [| |apply Hrev|apply (R_sub _ _ _ HI)|apply (R_sub _ _ _ HI')].
Qed.

(** A put on an open store succeeds at the next revision; the key then
    reads as the new record, with the creation revision kept and the version
    bumped if it was live and a fresh record otherwise, and every other key
    reads as its latest live record. *)
Theorem mvcc_put_then_get s a (key value : string) (lease : Z)
    (HI : Implements s a) (Hf : fits a 1) (Hkey : key <> "") (Hopen : closed s = false) :
  exists s' a', Put s key value lease = Ok (s', CurrentRevision s + 1) /\ Implements s' a' /\
    Get s' key 0 = Ok
      match live (log a) key with
      | Some prev =>
          mkKeyValue key value (CreateRevision prev) (CurrentRevision s + 1) (Version prev + 1) lease
      | None => mkKeyValue key value (CurrentRevision s + 1) (CurrentRevision s + 1) 1 lease
      end /\
    forall key', key' <> key -> key' <> "" ->
      Get s' key' 0 = match live (log a) key' with Some kv => Ok kv | None => Err ErrKeyNotFound end.
Proof.
  destruct (Put_refines s a key value lease HI Hf) as [HI' Hr]. simpl in HI', Hr.
  rewrite (R_closed _ _ _ HI) in Hopen. pose proof Hkey as Hkeyb. apply String.eqb_neq in Hkeyb.
  unfold CurrentRevision. rewrite (R_cur _ _ _ HI). unfold spec_put in *. rewrite Hopen, Hkeyb in *.
  destruct (Put s key value lease) as [[s' rev]|]; [|done]. cbn in HI', Hr.
  set (a' := spec_putAt (setCur a (nextRev a)) key value lease (nextRev a)) in *.
  assert (Hrev : rev = Main (cur a) + 1) by congruence. subst rev.
  assert (Hcov : covers a').
  { apply (covers_next s a (nextRev a)); [done|done|done|]. apply Forall_singleton, rev_le_refl. }
  assert (Hord : rev_le (compacted a') (cur a')) by apply HI'.
  exists s', a'. split_and!; [done|done|..].
  - rewrite (Get_eq _ _ _ _ HI'), spec_get_current by done. simpl. rewrite live_snoc.
    pose proof (R_event _ _ _ HI) as Hev. rewrite Forall_forall in Hev.
    destruct (live (log a) key) as [prev|] eqn:El; simpl; rewrite String.eqb_refl; [|done].
    apply live_elem in El as (r & Hin & _). destruct (Hev _ Hin) as (_ & _ & Hv). simpl in Hv.
    by destruct (Z.eqb_spec (Version prev + 1) 0); [lia|].
  - intros key' Hne Hk'. rewrite (Get_eq _ _ _ _ HI'), spec_get_current by done. simpl.
    rewrite live_snoc. destruct (live (log a) key); simpl;
      by destruct (String.eqb_spec key key'); [congruence|].
Qed.

(** A delete on an open store reports 1 and takes a new revision exactly
    when the key is live, and the key then reads as not found; otherwise it
    reports 0 and leaves the store untouched. *)
Theorem mvcc_delete_then_get s a (key : string)
    (HI : Implements s a) (Hf : fits a 1) (Hkey : key <> "") (Hopen : closed s = false) :
  match live (log a) key with
  | None => Delete s key = Ok (s, (CurrentRevision s, 0))
  | Some _ => exists s' a', Delete s key = Ok (s', (CurrentRevision s + 1, 1)) /\ Implements s' a' /\
      Get s' key 0 = Err ErrKeyNotFound /\ Delete s' key = Ok (s', (CurrentRevision s + 1, 0))
  end.
Proof.
  destruct (Delete_refines s a key HI Hf) as [HI' Hr]. simpl in HI', Hr.
  pose proof Hopen as Hopen'. rewrite (R_closed _ _ _ HI) in Hopen'.
  pose proof Hkey as Hkeyb. apply String.eqb_neq in Hkeyb.
  unfold CurrentRevision. rewrite (R_cur _ _ _ HI). destruct (live (log a) key) as [prev|] eqn:El.
  - unfold spec_delete in *. rewrite Hopen', Hkeyb, El in *.
    destruct (Delete s key) as [[s' [rev n]]|] eqn:Ed; [|done]. cbn in HI', Hr.
    set (a' := spec_deleteAt (setCur a (nextRev a)) key (nextRev a)) in *.
    assert (rev = Main (cur a) + 1 /\ n = 1) as [-> ->] by (split; congruence).
    assert (Hlog : a' = append (setCur a (nextRev a)) (nextRev a)
      (mkKeyValue key "" (CreateRevision prev) (Main (nextRev a)) 0 0))
      by (unfold a', spec_deleteAt; simpl; by rewrite El).
    assert (Hlive : live (log a') key = None)
      by (rewrite Hlog; simpl; rewrite live_snoc; simpl; by rewrite String.eqb_refl).
    assert (Hcl : isClosed a' = false) by (by rewrite Hlog).
    exists s', a'. split_and!; [done|done|..].
    + rewrite (Get_eq _ _ _ _ HI'), spec_get_current; [by rewrite Hlive| |apply HI'|done|done].
      rewrite Hlog. apply (covers_next s a (nextRev a)); [done|done|done|]. apply Forall_singleton, rev_le_refl.
    + unfold Delete. rewrite str_len_eqb, Hkeyb, (R_closed _ _ _ HI'), Hcl, (R_cur _ _ _ HI').
      destruct (liveItem_spec _ _ _ key HI') as [[-> _]|(? & ? & _ & _ & _ & ?)]; [|congruence].
      by rewrite Hlog.
  - unfold Delete. rewrite str_len_eqb, Hkeyb, Hopen, (R_cur _ _ _ HI).
    by destruct (liveItem_spec _ _ _ key HI) as [[-> _]|(? & ? & _ & _ & _ & ?)]; [|congruence].
Qed.

Lemma spec_range_limit a start end_ rev limit kvs count :
  spec_range a start end_ rev limit = Ok (kvs, count) ->
  exists at_, readAt a rev = Ok at_ /\ start <> "" /\
    kvs = limited limit (liveRange (upTo at_ (log a)) start end_).*2 /\ count = Z.of_nat (length kvs).
Proof.
  unfold spec_range. destruct (String.eqb_spec start ""); [done|].
  destruct (readAt a rev) as [at_|]; simpl; [|done]. intros [= <- <-]. by exists at_.
Qed.

Lemma liveRange_kvs_sorted l start end_ :
  StronglySorted (fun x y => str_ltb (Key x) (Key y) = true) (liveRange l start end_).*2.
Proof.
  assert (Hk : Forall (fun p => Key p.2 = p.1) (liveRange l start end_)).
  { apply Forall_forall. intros [k kv] [_ Hl]%elem_of_liveRange. by apply live_elem in Hl as (? & _ & ?). }
  induction (liveRange_sorted l start end_) as [|p ps _ IH Hall]; cbn; [constructor|].
  inv Hk as [|? ? Hp Hps]. constructor; [by apply IH|]. apply Forall_fmap.
  rewrite Forall_forall in Hall, Hps |- *. intros q Hq. simpl. rewrite Hp, (Hps q Hq). by apply Hall.
Qed.

(** A range read returns the records of the range at that revision in
    strictly increasing key order: without a limit exactly those that [Get]
    returns one by one, with a limit a prefix of them of at most that length. *)
Theorem mvcc_range_correct s a (start : string) (end_ : option string) (rev limit : Z)
    (kvs : list KeyValue) (count : Z) (HI : Implements s a) (Hf : fits a 1)
    (Hr : Range s start end_ rev limit = Ok (kvs, count)) :
  StronglySorted (fun x y => str_ltb (Key x) (Key y) = true) kvs /\
  count = Z.of_nat (length kvs) /\
  exists all, Range s start end_ rev 0 = Ok (all, Z.of_nat (length all)) /\
    kvs = (if limit >? 0 then take (Z.to_nat limit) all else all) /\
    forall kv, Key kv <> "" ->
      (kv ∈ all <-> inRange start end_ (Key kv) = true /\ Get s (Key kv) rev = Ok kv).
Proof.
  rewrite (Range_eq s a) in Hr |- * by done.
  destruct (spec_range_limit _ _ _ _ _ _ _ Hr) as (at_ & Hat & Hst & Hkvs & ->).
  assert (Hall : spec_range a start end_ rev 0 =
    Ok ((liveRange (upTo at_ (log a)) start end_).*2,
        Z.of_nat (length (liveRange (upTo at_ (log a)) start end_).*2))).
  { unfold spec_range. apply String.eqb_neq in Hst. by rewrite Hst, Hat. }
  split_and!; [|done|eexists; split_and!; [exact Hall|exact Hkvs|]].
  - rewrite Hkvs. pose proof (liveRange_kvs_sorted (upTo at_ (log a)) start end_) as Hs.
    unfold limited. destruct (limit >? 0); [|done].
    rewrite <- (take_drop (Z.to_nat limit)) in Hs. by apply StronglySorted_app_1_l in Hs.
  - intros kv Hne. rewrite (Get_eq s a) by done. unfold spec_get.
    apply String.eqb_neq in Hne. rewrite Hne, Hat. simpl. unfold visible. rewrite list_elem_of_fmap. split.
    + intros ([k kv'] & -> & [Hin Hl]%elem_of_liveRange). simpl in *.
      pose proof (live_elem _ _ _ Hl) as (? & _ & ->). by rewrite Hl.
    + intros [Hin Hg]. exists (Key kv, kv). split; [done|]. apply elem_of_liveRange. split; [done|].
      by destruct (live (upTo at_ (log a)) (Key kv)); simplify_eq.
Qed.

(** ** Range deletion *)

Lemma live_deleteAt_eq a key rev : live (log (spec_deleteAt a key rev)) key = None.
Proof.
  unfold spec_deleteAt. destruct (live (log a) key) eqn:E; [|done]. simpl. rewrite live_snoc. simpl.
  by rewrite String.eqb_refl.
Qed.

Lemma live_deleteKeys keys : forall a rev k,
  live (log (spec_deleteKeys a keys rev)) k = if decide (k ∈ keys) then None else live (log a) k.
Proof.
  induction keys as [|key keys IH]; intros a rev k; simpl; [done|]. rewrite IH.
  destruct (decide (k ∈ keys)) as [Hin|Hin].
  - by rewrite decide_True by (by right).
  - destruct (decide (k = key)) as [->|Hne].
    + by rewrite live_deleteAt_eq, decide_True by (by left).
    + rewrite live_deleteAt by done. by rewrite decide_False by set_solver.
Qed.

Lemma deleteKeys_events keys : forall a rev,
  exists es, log (spec_deleteKeys a keys rev) = log a ++ es /\
    Forall (fun e => Main e.1 = Main rev /\ Sub e.1 < Sub rev + Z.of_nat (length keys)) es.
Proof.
  induction keys as [|key keys IH]; intros a rev; simpl; [exists []; by rewrite app_nil_r|].
  destruct (IH (spec_deleteAt a key rev) (mkRevision (Main rev) (Sub rev + 1))) as (es & Hes & Hf).
  rewrite Hes. simpl in Hf. unfold spec_deleteAt.
  destruct (live (log a) key); simpl.
  - eexists (_ :: es). rewrite <- app_assoc. simpl. split; [done|]. constructor; [simpl; lia|].
    eapply Forall_impl; [exact Hf|]. simpl. lia.
  - exists es. split; [done|]. eapply Forall_impl; [exact Hf|]. simpl. lia.
Qed.

(** A range deletion reports the number of live keys of the range; the range
    then reads as empty and every key outside it as its latest live record. *)
Theorem mvcc_delete_range_then_range s a (start : string) (end_ : option string)
    (HI : Implements s a) (Hf : fits a 1) (Hstart : start <> "") (Hopen : closed s = false)
    (Hsome : liveRange (log a) start end_ <> []) :
  exists s' a', DeleteRange s start end_ =
      Ok (s', (CurrentRevision s + 1, Z.of_nat (length (liveRange (log a) start end_)))) /\
    Implements s' a' /\
    (fits a' 1 -> Range s' start end_ 0 0 = Ok ([], 0)) /\
    forall key, key <> "" -> Get s' key 0 =
      if inRange start end_ key then Err ErrKeyNotFound
      else match live (log a) key with Some kv => Ok kv | None => Err ErrKeyNotFound end.
Proof.
  destruct (DeleteRange_refines s a start end_ HI Hf) as [HI' Hr]. simpl in HI', Hr.
  pose proof Hopen as Hopen'. rewrite (R_closed _ _ _ HI) in Hopen'.
  unfold CurrentRevision. rewrite (R_cur _ _ _ HI). unfold spec_deleteRange in *.
  pose proof Hstart as Hsb. apply String.eqb_neq in Hsb. rewrite Hopen', Hsb in *.
  rewrite <- (length_fmap fst (liveRange (log a) start end_)).
  assert (Hlk : forall k, k ∈ (liveRange (log a) start end_).*1 <->
    inRange start end_ k = true /\ is_Some (live (log a) k)) by (intros; apply liveRange_keys).
  assert (Hne : (liveRange (log a) start end_).*1 <> []) by (by destruct (liveRange (log a) start end_)).
  destruct (liveRange (log a) start end_).*1 as [|k0 keys0]; [done|]. clear Hne.
  set (keys := k0 :: keys0) in *. set (n := Z.of_nat (length keys)) in *.
  assert (Hn : 1 <= n) by (unfold n, keys; simpl length; lia).
  destruct (DeleteRange s start end_) as [[s' [rev m]]|]; [|done]. cbn [write fst snd] in HI', Hr.
  set (a' := spec_deleteKeys _ keys (nextRev a)) in *.
  assert (rev = Main (cur a) + 1 /\ m = n) as [-> ->] by (split; simpl in Hr; congruence).
  assert (Hlive : forall k, live (log a') k = if inRange start end_ k then None else live (log a) k).
  { intros k. unfold a'. rewrite live_deleteKeys. simpl log. case_decide as Hd; rewrite Hlk in Hd.
    - by destruct Hd as [-> _].
    - destruct (inRange start end_ k); [|done]. destruct (live (log a) k) eqn:E; [|done].
      destruct Hd. split; [done|by eexists]. }
  assert (Hcov : covers a').
  { destruct (deleteKeys_events keys (setCur a (mkRevision (Main (nextRev a)) (n - 1))) (nextRev a))
      as (es & Hes & Hfe). unfold covers. unfold a' at 2. rewrite Hes. unfold a'.
    rewrite spec_deleteKeys_cur. simpl cur. apply (covers_next s a (mkRevision (Main (nextRev a)) (n - 1))); [done|done|simpl; lia|].
    eapply Forall_impl; [exact Hfe|]. intros e. fold n. unfold rev_le. simpl. lia. }
  assert (Hcl : isClosed a' = false).
  { unfold a'. by rewrite (ex_closed _ _ _ (extends_deleteKeys _ _ _ _ (rev_le_refl _))). }
  exists s', a'. split_and!; [done|done|..].
  - intros Hf'. rewrite (Range_eq _ _ _ _ _ _ HI' Hf'), spec_range_current; [|done|apply HI'|done|done].
    replace (liveRange (log a') start end_) with (@nil (string * KeyValue)); [done|].
    symmetry. apply elem_of_nil_inv. intros [k kv] [Hin Hl]%elem_of_liveRange.
    by rewrite Hlive, Hin in Hl.
  - intros key Hk. rewrite (Get_eq _ _ _ _ HI'), spec_get_current; [|done|apply HI'|done|done].
    rewrite Hlive. by destruct (inRange start end_ key).
Qed.

(** ** Compaction *)

Lemma latest_kept target at_ l key :
  StronglySorted rev_lt l.*1 ->
  latest (upTo at_ (List.filter (fun e => keptBy target e.1) l)) key =
    match latest (upTo at_ l) key with
    | Some e => if keptBy target e.1 then Some e else None
    | None => None
    end.
Proof.
  intros Hs. unfold upTo. rewrite filter_comm.
  assert (Hs' : StronglySorted rev_lt (List.filter (fun e => LessThanOrEqual e.1 at_) l).*1).
  { rewrite <- (filter_fst (fun r => LessThanOrEqual r at_)). by apply filter_sorted. }
  set (l' := List.filter (fun e => LessThanOrEqual e.1 at_) l) in *.
  destruct (latest (List.filter (fun e => keptBy target e.1) l') key) as [e|] eqn:E.
  - pose proof (latest_elem _ _ _ E) as [Hin _]. apply list_elem_of_In, filter_In in Hin as [_ Hk].
    apply (last_such_kept _ _ _ _ Hs') in E. unfold latest. by rewrite E, Hk.
  - destruct (latest l' key) as [e|] eqn:El; [|done]. apply latest_elem in El as [Hin Hk].
    destruct (keptBy target e.1) eqn:Ek; [|done].
    apply last_such_None in E. rewrite Forall_forall in E.
    assert (Hf : ofKey key e = false).
    { apply E, list_elem_of_In, filter_In. split; [by apply list_elem_of_In|done]. }
    unfold ofKey in Hf. by rewrite Hk, String.eqb_refl in Hf.
Qed.

(** After a compaction at [target], reads below it are refused, and a read at
    or above it returns what it returned before if the key was written at or
    after [target]; a key whose last write is older reads as not found. *)
Theorem mvcc_compact_reads s a s' (target rev : Z) (key : string)
    (HI : Implements s a) (Hnt : noTombstoneFrom (mkRevision target 0) (log a))
    (Hc : Compact s target = Ok s') (Hkey : key <> "") (Hrev : 0 < rev <= CurrentRevision s) :
  Get s' key rev =
    if rev <? target then Err ErrCompacted
    else
      match latest (upTo (mkRevision rev 0) (log a)) key with
      | Some e => if keptBy (mkRevision target 0) e.1 then Get s key rev else Err ErrKeyNotFound
      | None => Err ErrKeyNotFound
      end.
Proof.
  pose proof (Compact_refines s a target HI Hnt) as [HI' Hr]. simpl in HI', Hr. rewrite Hc in HI', Hr.
  unfold CurrentRevision in Hrev. rewrite (R_cur _ _ _ HI) in Hrev. pose proof (R_sub _ _ _ HI) as Hsub.
  destruct (spec_compact a target) as [a'|] eqn:Es; [|done]. cbn in HI'.
  unfold spec_compact in Es. destruct (isClosed a) eqn:Ecl; [done|].
  destruct (bool_decide_reflect (rev_le (mkRevision target 0) (compacted a))) as [|Hlt]; [done|].
  destruct (bool_decide (rev_lt (cur a) (mkRevision target 0))); [done|].
  apply rev_not_le in Hlt. destruct (R_order _ _ _ HI) as [Hz _].
  assert (Hfut : bool_decide (rev_lt (cur a) (mkRevision rev 0)) = false)
    by (apply bool_decide_false; unfold rev_lt; simpl; lia).
  assert (Ha' : a' = mkSpec (List.filter (fun e => keptBy (mkRevision target 0) e.1) (log a)) (events a)
    (cur a) (mkRevision target 0) (isClosed a)) by congruence.
  rewrite (Get_eq _ _ _ _ HI'), (Get_eq _ _ _ _ HI), Ha'. unfold spec_get, readAt. simpl.
  apply String.eqb_neq in Hkey. rewrite Hkey, Ecl. destruct (Z.eqb_spec rev 0); [lia|].
  rewrite Hfut. destruct (Z.ltb_spec rev target).
  - by rewrite bool_decide_true by (unfold rev_lt; simpl; lia).
  - rewrite bool_decide_false by (unfold rev_lt; simpl; lia).
    rewrite bool_decide_false by (unfold rev_lt in *; simpl in *; lia). simpl.
    unfold visible, live. rewrite latest_kept by apply HI.
    destruct (latest _ key) as [e|]; [|done]. by destruct (keptBy _ e.1).
Qed.

(** ** Compare-and-swap *)

Definition casTxn (key value : string) (lease expected : Z) : memoryTxn :=
  txnElse (txnThen (txnIf newTxn
    [mkCondition key ConditionTargetModRevision CompareEqual (CondInt expected)])
    [mkOp OpTypePut key None value lease]) [mkOp OpTypeGet key None "" 0].

(** A compare-and-swap on the modification revision (0 standing for a key
    that is not live) succeeds exactly when the revision matches; then the key
    reads as the new value, and otherwise the answer holds the current record
    and the key still reads as it. *)
Theorem mvcc_compare_and_swap s a (key value : string) (lease expected : Z)
    (HI : Implements s a) (Hf : fits a 3) (Hkey : key <> "") (Hopen : closed s = false) :
  exists s' resp, Commit s (casTxn key value lease expected) = Some (Ok (s', resp)) /\
    tr_Revision resp = CurrentRevision s + 1 /\
    tr_Succeeded resp =
      (match live (log a) key with Some kv => ModRevision kv | None => 0 end =? expected) /\
    if tr_Succeeded resp
    then exists kv, Get s' key 0 = Ok kv /\ Value kv = value /\ Lease kv = lease /\
           ModRevision kv = tr_Revision resp
    else tr_Responses resp = [mkOpResponse OpTypeGet (option_list (live (log a) key)) 0] /\
         Get s' key 0 = match live (log a) key with Some kv => Ok kv | None => Err ErrKeyNotFound end.
Proof.
  pose proof (Commit_refines s a (casTxn key value lease expected) HI (conj eq_refl (conj eq_refl Hf)))
    as [HI' Hr]. unfold step, spec_step in HI', Hr.
  rewrite (R_closed _ _ _ HI) in Hopen. unfold CurrentRevision. rewrite (R_cur _ _ _ HI).
  assert (Hcov : covers (setCur a (nextRev a))).
  { unfold covers. simpl. rewrite <- (app_nil_r (log a)).
    by apply (covers_next s a (nextRev a)); [done|done|simpl; lia|]. }
  assert (Hcov' : forall kv, covers (append (setCur a (nextRev a)) (nextRev a) kv)).
  { intros kv. apply (covers_next s a (nextRev a)); [done|done|simpl; lia|].
    apply Forall_singleton, rev_le_refl. }
  unfold spec_commit, casTxn in HI', Hr. rewrite Hopen in HI', Hr. simpl in HI', Hr.
  destruct (_ =? expected) eqn:Ecmp; simpl in HI', Hr.
  all: destruct (Commit s _) as [[[s' resp]|e]|] eqn:Ec; simpl in HI', Hr; try done; simplify_eq.
  all: exists s'; eexists; split_and!; [done|done|done|]; simpl.
  - unfold spec_putAt in HI'. simpl in HI'.
    rewrite (Get_eq _ _ _ _ HI'), spec_get_current; [|apply Hcov'|apply HI'|done|done].
    simpl. rewrite live_snoc. destruct (live (log a) key) as [prev|] eqn:El; simpl;
      rewrite String.eqb_refl; [|by eexists].
    apply live_elem in El as (r & Hin & _). pose proof (R_event_in _ _ _ _ HI Hin) as (_ & _ & Hv).
    simpl in Hv. destruct (Z.eqb_spec (Version prev + 1) 0); [lia|]. by eexists.
  - split; [done|]. rewrite (Get_eq _ _ _ _ HI'), spec_get_current; [done|done|apply HI'|done|done].
Qed.

End facts.

(** ** Concrete runs

    The trees are finite maps here. *)

Abbreviation gstore := (MemoryStore (gmap string) (gmap Revision)).

Definition answers (cs : list Cmd) : list Resp := (run (NewMemoryStore : gstore) cs).2.

Definition put (k v : string) : Op := mkOp OpTypePut k None v 0.
Definition sampleTrace : list Cmd :=
  [CmdPut "a" "1" 0; CmdPut "b" "2" 7; CmdPut "a" "3" 0; CmdCompact 2;
   CmdCommit (casTxn "b" "4" 0 2); CmdDeleteRange "a" (Some "b"); CmdRange "a" None 0 1; CmdGet "b" 2].

Lemma fits_small a n :
  (Main (cur a) <? int64_max) && (events a + 2 * Z.of_nat n <? int64_max) = true -> fits a n.
Proof. intros H. bool_to_prop. by split. Qed.

(** A boolean test for [noTombstoneFrom]. *)
Lemma noTombstone_test target l :
  forallb (fun e => negb (Version e.2 =? 0)) l = true -> noTombstoneFrom target l.
Proof.
  intros H key e [Hin _]%latest_elem Hv. rewrite forallb_forall in H.
  specialize (H e (proj1 (list_elem_of_In _ _) Hin)). by rewrite Hv in H.
Qed.

(** Discharges [traceOk] and [fits] on concrete data. *)
Ltac concrete_ok :=
  repeat match goal with
  | |- True => exact I
  | |- traceOk _ _ => cbn [traceOk]
  | |- _ /\ _ => split
  | |- cmdOk _ _ => cbn [cmdOk]
  | |- fits _ _ => apply fits_small; vm_compute; reflexivity
  | |- noTombstoneFrom _ _ => apply noTombstone_test; vm_compute; reflexivity
  | |- _ = _ => vm_compute; reflexivity
  end.

Lemma sampleTrace_ok : traceOk spec_init sampleTrace.
Proof. unfold sampleTrace. concrete_ok. Qed.

Lemma mvcc_refines_event_log_witness :
  answers sampleTrace = (spec_run spec_init sampleTrace).2.
Proof. exact (proj1 (mvcc_refines_event_log sampleTrace sampleTrace_ok)). Defined.

Definition state1 : gstore := (run (NewMemoryStore : gstore) [CmdPut "a" "1" 0; CmdPut "b" "2" 7]).1.
Definition spec1 : Spec := (spec_run spec_init [CmdPut "a" "1" 0; CmdPut "b" "2" 7]).1.

Lemma state1_implements : Implements state1 spec1.
Proof. apply (run_simulates _ NewMemoryStore spec_init R_init). concrete_ok. Qed.

Lemma mvcc_history_immutable_witness :
  Get (run state1 [CmdPut "a" "3" 0; CmdDelete "b"]).1 "a" 2 = Get state1 "a" 2.
Proof.
  apply (mvcc_history_immutable state1 spec1 [CmdPut "a" "3" 0; CmdDelete "b"] "a" 2 state1_implements).
  - concrete_ok.
  - reflexivity.
  - vm_compute. split; [reflexivity|discriminate].
Defined.

Lemma mvcc_put_then_get_witness :
  exists s', Put state1 "b" "5" 0 = Ok (s', 3) /\ Get s' "b" 0 = Ok (mkKeyValue "b" "5" 2 3 2 0).
Proof.
  destruct (mvcc_put_then_get state1 spec1 "b" "5" 0 state1_implements) as (s' & a' & Hp & _ & Hg & _);
    [concrete_ok|discriminate|reflexivity|].
  exists s'. split; [exact Hp|exact Hg].
Defined.

Lemma mvcc_delete_then_get_witness :
  exists s' a', Delete state1 "a" = Ok (s', (3, 1)) /\ Implements s' a' /\
    Get s' "a" 0 = Err ErrKeyNotFound /\ Delete s' "a" = Ok (s', (3, 0)).
Proof.
  exact (mvcc_delete_then_get state1 spec1 "a" state1_implements
    ltac:(concrete_ok) ltac:(discriminate) ltac:(reflexivity)).
Defined.

Lemma mvcc_range_correct_witness :
  exists all, Range state1 "a" None 0 0 = Ok (all, Z.of_nat (length all)) /\
    [mkKeyValue "a" "1" 1 1 1 0] = take 1 all.
Proof.
  destruct (mvcc_range_correct state1 spec1 "a" None 0 1 [mkKeyValue "a" "1" 1 1 1 0] 1
    state1_implements ltac:(concrete_ok) ltac:(vm_compute; reflexivity)) as (_ & _ & all & H1 & H2 & _).
  exists all. split; [exact H1|exact H2].
Defined.

Lemma mvcc_delete_range_then_range_witness :
  exists s', DeleteRange state1 "a" (Some "b") = Ok (s', (3, 1)) /\
    Get s' "b" 0 = Ok (mkKeyValue "b" "2" 2 2 1 7).
Proof.
  destruct (mvcc_delete_range_then_range state1 spec1 "a" (Some "b") state1_implements
    ltac:(concrete_ok) ltac:(discriminate) ltac:(reflexivity) ltac:(vm_compute; discriminate))
    as (s' & a' & Hd & _ & _ & Hg).
  exists s'. split; [exact Hd|]. rewrite (Hg "b") by discriminate. reflexivity.
Defined.

Lemma mvcc_compact_reads_witness :
  exists s', Compact state1 2 = Ok s' /\ Get s' "a" 2 = Err ErrKeyNotFound.
Proof.
  destruct (Compact state1 2) as [s'|e] eqn:Hc; [|vm_compute in Hc; discriminate].
  exists s'. split; [reflexivity|].
  exact (mvcc_compact_reads state1 spec1 s' 2 2 "a" state1_implements
    ltac:(concrete_ok) Hc ltac:(discriminate) ltac:(vm_compute; split; [reflexivity|discriminate])).
Defined.

Lemma mvcc_compare_and_swap_witness :
  exists s' resp, Commit state1 (casTxn "b" "9" 0 2) = Some (Ok (s', resp)) /\ tr_Succeeded resp = true.
Proof.
  destruct (mvcc_compare_and_swap state1 spec1 "b" "9" 0 2 state1_implements
    ltac:(concrete_ok) ltac:(discriminate) ltac:(reflexivity)) as (s' & resp & Hc & _ & Hs & _).
  exists s', resp. split; [exact Hc|exact Hs].
Defined.

(** ** Where the code surprises its callers *)

(** Compaction drops the only revision of a live key: a key written before the
    target and never deleted reads as not found afterwards. *)
Example compaction_loses_live_key :
  answers [CmdPut "a" "1" 0; CmdPut "b" "2" 0; CmdGet "a" 0; CmdCompact 2; CmdGet "a" 0] =
  [RespRev 1; RespRev 2; RespKv (mkKeyValue "a" "1" 1 1 1 0); RespDone; RespErr ErrKeyNotFound].
Proof. vm_compute. reflexivity. Qed.

(** The second write of a committed transaction is not visible to a read of
    the latest revision until another revision is taken. *)
Example txn_write_invisible_at_latest :
  answers [CmdCommit (txnThen newTxn [put "a" "1"; put "b" "2"]); CmdGet "b" 0;
           CmdPut "c" "3" 0; CmdGet "b" 0] =
  [RespTxn (mkTxnResponse true 1 [mkOpResponse OpTypePut [] 0; mkOpResponse OpTypePut [] 0]);
   RespErr ErrKeyNotFound; RespRev 2; RespKv (mkKeyValue "b" "2" 1 1 1 0)].
Proof. vm_compute. reflexivity. Qed.

(** A range deletion that is not the last operation of a transaction shares
    sub-revisions with the operations after it: the deletion marker of [b] is
    overwritten by the record of [d], which [b] then reads as. *)
Example txn_range_delete_collides :
  answers [CmdPut "a" "1" 0; CmdPut "b" "2" 0;
           CmdCommit (txnThen newTxn [mkOp OpTypeDeleteRange "a" (Some "c") "" 0; put "d" "4"]);
           CmdPut "e" "5" 0; CmdGet "b" 0] =
  [RespRev 1; RespRev 2;
   RespTxn (mkTxnResponse true 3 [mkOpResponse OpTypeDeleteRange [] 2; mkOpResponse OpTypePut [] 0]);
   RespRev 4; RespKv (mkKeyValue "d" "4" 3 3 1 0)].
Proof. vm_compute. reflexivity. Qed.

(** A read at the revision of a range deletion still sees every deleted key but
    the first. *)
Example range_delete_visible_at_its_revision :
  answers [CmdPut "a" "1" 0; CmdPut "b" "2" 0; CmdDeleteRange "a" (Some "c"); CmdGet "b" 3; CmdGet "b" 0] =
  [RespRev 1; RespRev 2; RespDeleted 3 2; RespKv (mkKeyValue "b" "2" 2 2 1 0); RespErr ErrKeyNotFound].
Proof. vm_compute. reflexivity. Qed.

(** A key whose deletion marker survives a compaction counts as live again: it
    can be deleted a second time. *)
Example compaction_revives_deleted_key :
  answers [CmdPut "a" "1" 0; CmdDelete "a"; CmdCompact 2; CmdGet "a" 0; CmdDelete "a"] =
  [RespRev 1; RespDeleted 2 1; RespDone; RespErr ErrKeyNotFound; RespDeleted 3 1].
Proof. vm_compute. reflexivity. Qed.
