(* ===== verification/Compactor.v ===== *)
(** * The background compactor of the MVCC stores ([internal/mvcc/compaction.go])

    Every so often the compactor asks its store to forget old revisions.  The
    three calls it makes are the class [CompactStore]; the store may be written
    between them, and the clock is an argument. *)

From S2P Require Import Prelude GoBytes Revision OrderedTree KeyValue KeyIndex MemoryStore MvccSpec MvccRefine MvccOps MvccTheorems.
Local Open Scope go_scope.

(** ** Configuration *)

(** A mode other than the two is kept as it is. *)
Inductive CompactionMode := CompactionModeRevision | CompactionModePeriodic | CompactionModeOther (mode : string).

Record CompactorConfig := mkCompactorConfig {
  Enable : bool; Mode : CompactionMode; Retention : Z; Period : Z; BatchSize : Z; BatchInterval : Z;
}.

Definition millisecond : Z := 1000000.
Definition minute : Z := 60 * 1000 * millisecond.
Definition hour : Z := 60 * minute.

Definition DefaultCompactorConfig : CompactorConfig :=
  mkCompactorConfig true CompactionModeRevision 1000 hour 1000 (10 * millisecond).

(** ** The compactor *)

(** The store's part of [Store], with the two kinds of error [doCompact] tells
    apart. *)
Class CompactStore (S : Type) := {
  CsError : Type;
  cs_CurrentRevision : S -> Z;
  cs_CompactedRevision : S -> Z;
  cs_Compact : S -> Z -> S * result CsError unit;
  cs_isErrCompacted : CsError -> bool;
}.

Record Compactor (E : Type) := mkCompactor {
  config : CompactorConfig;
  running : bool;
  lastCompact : Z;
  lastRevision : Z;
  compactCount : Z;
  compactDuration : Z;
  compactRevisions : Z;
  lastError : option E;
}.
Arguments mkCompactor {E}. Arguments config {E}. Arguments running {E}. Arguments lastCompact {E}. Arguments lastRevision {E}.
Arguments compactCount {E}. Arguments compactDuration {E}. Arguments compactRevisions {E}. Arguments lastError {E}.

Definition positiveOr (x d : Z) : Z := if x <=? 0 then d else x.

Section compactor.
Context {S : Type} `{!CompactStore S}.
#[local] Abbreviation Compactor := (Compactor CsError).

Definition NewCompactor (c : CompactorConfig) : Compactor :=
  mkCompactor (mkCompactorConfig (Enable c) (Mode c) (positiveOr (Retention c) 1000) (positiveOr (Period c) hour)
                 (positiveOr (BatchSize c) 1000) (positiveOr (BatchInterval c) (10 * millisecond)))
    false 0 0 0 0 0 None.

Definition setRunning (c : Compactor) (r : bool) : Compactor :=
  mkCompactor (config c) r (lastCompact c) (lastRevision c) (compactCount c) (compactDuration c) (compactRevisions c) (lastError c).

Definition setLastError (c : Compactor) (e : CsError) : Compactor :=
  mkCompactor (config c) (running c) (lastCompact c) (lastRevision c) (compactCount c) (compactDuration c) (compactRevisions c) (Some e).

Definition Start (c : Compactor) : Compactor :=
  if running c then c else if negb (Enable (config c)) then c else setRunning c true.

(** [Stop] waits for [run] to return. *)
Definition Stop (c : Compactor) : Compactor := if running c then setRunning c false else c.

Definition IsRunning (c : Compactor) : bool := running c.

Definition checkInterval (c : Compactor) : Z :=
  match Mode (config c) with
  | CompactionModePeriodic => Period (config c)
  | CompactionModeRevision | CompactionModeOther _ => minute
  end.

(** The revision to compact at, if any. *)
Definition compactTarget (cfg : CompactorConfig) (currentRev compactedRev : Z) : option Z :=
  let target :=
    match Mode cfg with
    | CompactionModeRevision => Some (wrap_i64 (currentRev - Retention cfg))
    | CompactionModePeriodic => Some (wrap_i64 (currentRev - 1))
    | CompactionModeOther _ => None
    end in
  match target with
  | Some targetRev => if targetRev <=? compactedRev then None else if targetRev <=? 0 then None else Some targetRev
  | None => None
  end.

(** [currentRev] and [compactedRev] were read earlier, [s] is the store when
    [Compact] is called; [start] and [stop] are the clock before and after. *)
Definition doCompact (start stop : Z) (c : Compactor) (currentRev compactedRev : Z) (s : S) : Compactor * S * result CsError unit :=
  match compactTarget (config c) currentRev compactedRev with
  | None => (c, s, Ok tt)
  | Some targetRev =>
      match cs_Compact s targetRev with
      | (s', Err e) => (c, s', if cs_isErrCompacted e then Ok tt else Err e)
      | (s', Ok _) =>
          (mkCompactor (config c) (running c) stop targetRev (wrap_i64 (compactCount c + 1)) (wrap_i64 (compactDuration c + (stop - start)))
             (wrap_i64 (compactRevisions c + (targetRev - compactedRev))) (lastError c), s', Ok tt)
      end
  end.

(** A tick of [run], which keeps the last error. *)
Definition compactTick (start stop : Z) (c : Compactor) (currentRev compactedRev : Z) (s : S) : Compactor * S :=
  let '(c', s', r) := doCompact start stop c currentRev compactedRev s in
  (match r with Ok _ => c' | Err e => setLastError c' e end, s').

Definition ForceCompact (start stop : Z) (c : Compactor) (s : S) : Compactor * S * result CsError unit :=
  doCompact start stop c (cs_CurrentRevision s) (cs_CompactedRevision s) s.

Record CompactorMetrics := mkMetrics { cmCount : Z; cmDuration : Z; cmRevisions : Z; cmLast : Z; cmError : option CsError }.

Definition Metrics (c : Compactor) : CompactorMetrics :=
  mkMetrics (compactCount c) (compactDuration c) (compactRevisions c) (lastCompact c) (lastError c).

Definition withMode (m : CompactionMode) (period retention : Z) : CompactorConfig :=
  let d := DefaultCompactorConfig in mkCompactorConfig (Enable d) m retention period (BatchSize d) (BatchInterval d).

Definition NewPeriodicCompactor (period retention : Z) : Compactor := NewCompactor (withMode CompactionModePeriodic period retention).
Definition NewRevisionCompactor (retention : Z) : Compactor := NewCompactor (withMode CompactionModeRevision hour retention).

End compactor.

(** ** Over the in-memory store *)

Section memory.
Context {TI TR : Type -> Type} `{!BTree string TI, !BTree Revision TR}
  `{!BTreeLaws string TI, !BTreeLaws Revision TR}.
Implicit Types (s : MemoryStore TI TR) (a : Spec).

#[export] Instance memoryCompactStore : CompactStore (MemoryStore TI TR) := {
  CsError := MvccError;
  cs_CurrentRevision := CurrentRevision;
  cs_CompactedRevision := CompactedRevision;
  cs_Compact s rev := match Compact s rev with Ok s' => (s', Ok tt) | Err e => (s, Err e) end;
  cs_isErrCompacted e := bool_decide (e = ErrCompacted);
}.

Lemma compactTarget_revision cfg currentRev compactedRev target :
  Mode cfg = CompactionModeRevision -> 0 <= currentRev <= int64_max -> 0 < Retention cfg <= int64_max ->
  compactTarget cfg currentRev compactedRev = Some target -> target = currentRev - Retention cfg /\ 0 < target.
Proof.
  intros Hm Hc Hr. unfold compactTarget. rewrite Hm. rewrite wrap_i64_id by (unfold_ints; lia). cbn zeta.
  destruct (Z.leb_spec (currentRev - Retention cfg) compactedRev); [done|]. destruct (Z.leb_spec (currentRev - Retention cfg) 0); [done|].
  intros [= <-]. lia.
Qed.

Lemma Compact_cases s a target : Implements s a -> closed s = false -> target <= CurrentRevision s ->
  Compact s target = Err ErrCompacted \/
  exists s', Compact s target = Ok s' /\ CurrentRevision s' = CurrentRevision s /\ CompactedRevision s' = target.
Proof.
  intros HI Hcl Ht. unfold Compact. rewrite Hcl. cbn zeta. destruct (LessThanOrEqual (mkRevision target 0) (compactedRev s)); [by left|].
  right. assert (Hg : GreaterThan (mkRevision target 0) (Current (revisionGen s)) = false).
  { rewrite GreaterThan_lt. apply LessThan_false. pose proof (R_sub _ _ _ HI) as Hsub. revert Ht Hsub.
    unfold CurrentRevision, rev_le. rewrite (R_cur _ _ _ HI). simpl. lia. }
  rewrite Hg. by eexists.
Qed.

(** Whether the revision of [key] that a read at [rev] sees was written at or
    after [target]. *)
Definition writtenSince (target rev : Z) (key : string) (l : list Event) : bool :=
  match latest (upTo (mkRevision rev 0) l) key with
  | Some e => keptBy (mkRevision target 0) e.1
  | None => false
  end.

Lemma Compact_reads s a s' target rev key : Implements s a -> noTombstoneFrom (mkRevision target 0) (log a) ->
  Compact s target = Ok s' -> key <> "" -> 0 < rev <= CurrentRevision s -> target <= rev ->
  Get s' key rev = if writtenSince target rev key (log a) then Get s key rev else Err ErrKeyNotFound.
Proof.
  intros HI Hn Hc Hk Hr Ht. rewrite (mvcc_compact_reads s a s' target rev key HI Hn Hc Hk Hr).
  destruct (Z.ltb_spec rev target); [lia|]. unfold writtenSince. by destruct (latest _ key).
Qed.

(** A compaction by the background compactor in revision mode, with the
    current revision read beforehand and the store possibly written since,
    never fails on an open store and never moves the current revision.  Either
    it does nothing, or the store is compacted at the current revision less
    the retention, the count of compactions grows by one, and no read at a
    revision that is retained is refused as compacted: a key written within
    the retained revisions reads as before, any other key as not found. *)
Theorem auto_compaction s a (c : Compactor MvccError) (start stop currentRev compacted : Z)
    (HI : Implements s a) (Hopen : closed s = false) (Hmode : Mode (config c) = CompactionModeRevision)
    (Hret : 0 < Retention (config c) <= int64_max) (Hcur : 0 <= currentRev <= CurrentRevision s)
    (Hmax : CurrentRevision s <= int64_max)
    (Hlive : noTombstoneFrom (mkRevision (currentRev - Retention (config c)) 0) (log a)) :
  let target := currentRev - Retention (config c) in
  let '(c', s', r) := doCompact start stop c currentRev compacted s in
  r = Ok tt /\ CurrentRevision s' = CurrentRevision s /\
  (c' = c /\ s' = s \/
   CompactedRevision s' = target /\ lastRevision c' = target /\ compactCount c' = wrap_i64 (compactCount c + 1) /\
   forall rev key, key <> "" -> target <= rev <= CurrentRevision s ->
     Get s' key rev = if writtenSince target rev key (log a) then Get s key rev else Err ErrKeyNotFound).
Proof.
  cbv zeta. unfold doCompact. destruct (compactTarget _ _ _) as [target|] eqn:Et; [|by split_and!; [..|left]].
  apply compactTarget_revision in Et as [-> Hpos]; [|done|lia|done]. cbn [CsError cs_Compact memoryCompactStore] in *.
  destruct (Compact_cases s a (currentRev - Retention (config c)) HI Hopen) as [Hc|(s' & Hc & Hk & Hd)]; [lia|..]; rewrite Hc; simpl.
  - by split_and!; [..|left].
  - split_and!; [done|done|right]. split_and!; [done..|]. intros rev key Hkey Hr.
    apply (Compact_reads s a s'); [done..|lia|lia].
Qed.

End memory.

(** A compactor that keeps one revision, over the store of the sample run. *)
Definition compactor1 : Compactor MvccError := NewRevisionCompactor 1.

Lemma auto_compaction_witness :
  exists s', Compact state1 1 = Ok s' /\ doCompact 0 5 compactor1 2 0 state1 =
    (mkCompactor (config compactor1) false 5 1 1 5 1 None, s', Ok tt) /\ CurrentRevision s' = 2.
Proof.
  pose proof (auto_compaction state1 spec1 compactor1 0 5 2 0 state1_implements ltac:(reflexivity) ltac:(reflexivity)
    ltac:(vm_compute; split; [reflexivity|discriminate]) ltac:(vm_compute; split; discriminate)
    ltac:(vm_compute; discriminate) ltac:(concrete_ok)) as H.
  destruct (Compact state1 1) as [s'|e] eqn:Hc; [|vm_compute in Hc; discriminate].
  exists s'. split; [reflexivity|].
  assert (E : doCompact 0 5 compactor1 2 0 state1 =
    (mkCompactor (config compactor1) false 5 1 1 5 1 None, s', Ok tt)).
  { unfold doCompact. replace (compactTarget _ 2 0) with (Some 1) by reflexivity.
    cbn [cs_Compact memoryCompactStore]. rewrite Hc. reflexivity. }
  rewrite E in H. split; [exact E|exact (proj1 (proj2 H))].
Defined.

(** Periodic compaction takes no account of the period: whatever it is, all
    revisions but the last two are dropped. *)
Example periodic_ignores_period : forall period,
  compactTarget (config (NewPeriodicCompactor period 500 : Compactor MvccError)) 1000 0 = Some 999.
Proof. intros period. reflexivity. Qed.
