(* ===== verification/KvTypes.v ===== *)
(** * Types of the etcd-style store ([internal/kvstore/types.go])

    Records, watch events, transactions and leases, with the arithmetic of
    lease expiry.  Times are nanoseconds; a [time.Duration] is an [int64] number
    of nanoseconds and [Duration.Seconds] is a [float64], computed here with the
    IEEE 754 operations of the Standard Library. *)

From S2P Require Import Prelude GoBytes.
From Stdlib Require Import Floats.SpecFloat.

(** ** Records and events *)

Record KeyValue := mkKeyValue {
  Key : string;
  Value : string;
  CreateRevision : Z;
  ModRevision : Z;
  Version : Z;
  Lease : Z;
}.

#[global] Instance KeyValue_eq_dec : EqDecision KeyValue.
Proof. solve_decision. Defined.

Inductive EventType : Set := EventTypePut | EventTypeDelete.

#[global] Instance EventType_eq_dec : EqDecision EventType.
Proof. solve_decision. Defined.

Record WatchEvent := mkWatchEvent {
  we_Type : EventType;
  we_Kv : option KeyValue;
  we_PrevKv : option KeyValue;
  we_Revision : Z;
}.

Inductive WatchFilterType : Set := FilterNone | FilterNoPut | FilterNoDelete | FilterOther (n : Z).

Record WatchOptions := mkWatchOptions {
  wo_PrevKV : bool;
  wo_ProgressNotify : bool;
  wo_Filters : list WatchFilterType;
  wo_Fragment : bool;
}.

(** ** Transactions

    The enumerations are Go integers: the last constructor stands for a value
    that is not one of the named constants. *)

Inductive CompareTarget : Set :=
  | CompareVersion | CompareCreate | CompareMod | CompareValue | CompareLease
  | CompareTargetOther (n : Z).

Inductive CompareResult : Set :=
  | CompareEqual | CompareGreater | CompareLess | CompareNotEqual | CompareResultOther (n : Z).

Record CompareUnion := mkCompareUnion {
  cu_Version : Z;
  cu_CreateRevision : Z;
  cu_ModRevision : Z;
  cu_Value : string;
  cu_Lease : Z;
}.

Record Compare := mkCompare {
  cmp_Target : CompareTarget;
  cmp_Result : CompareResult;
  cmp_Key : string;
  cmp_TargetUnion : CompareUnion;
}.

Inductive OpType : Set := OpRange | OpPut | OpDelete | OpTxn | OpOther (n : Z).

Record Op := mkOp {
  op_Type : OpType;
  op_Key : string;
  op_RangeEnd : string;
  op_Value : string;
  op_Limit : Z;
  op_LeaseID : Z;
}.

Record RangeResponse := mkRangeResponse {
  rr_Kvs : list KeyValue;
  rr_More : bool;
  rr_Count : Z;
  rr_Revision : Z;
}.

Record PutResponse := mkPutResponse { pr_PrevKv : option KeyValue; pr_Revision : Z }.

Record DeleteResponse := mkDeleteResponse {
  dr_Deleted : Z;
  dr_PrevKvs : list KeyValue;
  dr_Revision : Z;
}.

(** [OpResponse] has a type tag and at most one of three pointers set;
    [RespEmpty] is the zero value left for an operation of an unknown type. *)
Inductive OpResponse :=
  | RespRange (r : RangeResponse)
  | RespPut (r : PutResponse)
  | RespDelete (r : DeleteResponse)
  | RespEmpty.

Record TxnResponse := mkTxnResponse {
  tr_Succeeded : bool;
  tr_Responses : list OpResponse;
  tr_Revision : Z;
}.

(** ** Leases *)

(** [Keys] is Go's [map[string]bool]; every lease the program builds has one. *)
Record LeaseInfo := mkLease {
  l_ID : Z;
  l_TTL : Z;
  l_GrantTime : Z;
  l_Keys : gmap string bool;
}.

(** [float64]: 53 bits of precision, exponents below 1024. *)
Definition f64_of_int (z : Z) : spec_float := binary_normalize 53 1024 z 0 false.
Definition f64_add : spec_float -> spec_float -> spec_float := SFadd 53 1024.
Definition f64_sub : spec_float -> spec_float -> spec_float := SFsub 53 1024.
Definition f64_div : spec_float -> spec_float -> spec_float := SFdiv 53 1024.

(** The saturating subtraction of [time.Since]. *)
Definition timeSince (now t : Z) : Z := Z.max int64_min (Z.min int64_max (now - t)).

(** [Duration.Seconds] *)
Definition Seconds (d : Z) : spec_float :=
  f64_add (f64_of_int (Z.quot d 1000000000))
          (f64_div (f64_of_int (Z.rem d 1000000000)) (f64_of_int 1000000000)).

(** [int64(f)] for a finite [f] in range: truncation toward zero. *)
Definition int64_of_f64 (f : spec_float) : Z :=
  match f with
  | S754_finite s m e =>
      let a := if 0 <=? e then Z.pos m * 2 ^ e else Z.pos m / 2 ^ (- e) in
      if s then - a else a
  | _ => 0
  end.

(** [IsExpired] at the time [now]; [None] is the nil lease. *)
Definition IsExpired (now : Z) (l : option LeaseInfo) : bool :=
  match l with
  | None => true
  | Some l => SFleb (f64_of_int (l_TTL l)) (Seconds (timeSince now (l_GrantTime l)))
  end.

Definition Remaining (now : Z) (l : option LeaseInfo) : Z :=
  match l with
  | None => 0
  | Some l =>
      let remaining := f64_sub (f64_of_int (l_TTL l)) (Seconds (timeSince now (l_GrantTime l))) in
      if SFltb remaining (f64_of_int 0) then 0 else int64_of_f64 remaining
  end.

(** [Renew]: the lease after it and the returned TTL. *)
Definition Renew (now : Z) (l : option LeaseInfo) (ttl : Z) : option LeaseInfo * Z :=
  match l with
  | None => (None, 0)
  | Some l => (Some (mkLease (l_ID l) ttl now (l_Keys l)), ttl)
  end.

(** ** Ranging over Go maps

    Go's [range] over a map visits it in an order that is not specified: it is
    a parameter, of which only the set of entries is known. *)

Class MapOrder := {
  range_map {V : Type} : gmap string V -> list (string * V);
  range_map_perm {V : Type} (m : gmap string V) : range_map m ≡ₚ map_to_list m;
}.

#[global] Instance default_order : MapOrder := {
  range_map V m := map_to_list m;
  range_map_perm V m := Permutation_refl _;
}.

Lemma elem_of_range_map `{MapOrder} {V} (m : gmap string V) k v :
  (k, v) ∈ range_map m <-> m !! k = Some v.
Proof. rewrite range_map_perm. apply elem_of_map_to_list. Qed.

Lemma range_map_nodup `{MapOrder} {V} (m : gmap string V) : NoDup (range_map m).*1.
Proof. rewrite (fmap_Permutation fst _ _ (range_map_perm m)). apply NoDup_fst_map_to_list. Qed.

(** ** Expiry on concrete times *)

Definition secondsNs (s : Z) : Z := s * 1000000000.

Example expiry_at_ttl :
  let l := Some (mkLease 1 10 (secondsNs 100) ∅) in
  (IsExpired (secondsNs 110) l, IsExpired (secondsNs 110 - 1) l,
   Remaining (secondsNs 103) l, Remaining (secondsNs 103 + 1) l, Remaining (secondsNs 200) l)
  = (true, false, 7, 6, 0).
Proof. vm_compute. reflexivity. Qed.
