(* ===== verification/ShardedMap.v ===== *)
(** * The sharded map ([internal/memory/sharded_map.go])

    512 Go maps, a key living in the one its FNV-1a hash selects.  The methods
    that touch several shards hold all their locks, the others the lock of their
    shard, so each method is one step.  [KvMap] is the interface the store on
    top uses; [ShardedMap] is shown to implement it for every iteration order of
    the underlying maps. *)

From S2P Require Import Prelude GoBytes OrderedTree KvTypes.

(** ** The interface *)

Class KvMap (M : Type) := {
  NewMap : M;
  Get : M -> string -> option KeyValue;
  Set_ : M -> string -> KeyValue -> M;
  Delete : M -> string -> M;
  Range : M -> string -> string -> Z -> list KeyValue;
  GetAll : M -> gmap string KeyValue;
  SetAll : M -> gmap string KeyValue -> M;
}.

(** The key range the code writes [[startKey, endKey)], a NUL byte as the end
    standing for no upper bound. *)
Definition nulKey : string := String Ascii.zero EmptyString.

Definition inKeyRange (startKey endKey k : string) : bool :=
  str_leb startKey k && (String.eqb endKey nulKey || str_ltb k endKey).

Definition kv_le (p q : KeyValue) : Prop := str_ltb (Key q) (Key p) = false.

#[global] Instance kv_le_dec p q : Decision (kv_le p q).
Proof. unfold kv_le. apply _. Defined.

(** [sort.Slice] by key *)
Definition sortByKey (kvs : list KeyValue) : list KeyValue := merge_sort kv_le kvs.

(** [allKvs[:limit]] when there are more *)
Definition applyLimit {A} (limit : Z) (l : list A) : list A :=
  if (limit >? 0) && (Z.of_nat (length l) >? limit) then take (Z.to_nat limit) l else l.

(** What a map holds in a range of keys, sorted. *)
Definition entriesIn (m : gmap string KeyValue) (startKey endKey : string) : list KeyValue :=
  (List.filter (fun p => inKeyRange startKey endKey p.1) (sorted_entries m)).*2.

(** Records are stored under their own key. *)
Definition keyed (m : gmap string KeyValue) : Prop := map_Forall (fun k kv => Key kv = k) m.

Class KvMapLaws (M : Type) `{KvMap M} := {
  wf_map : M -> Prop;
  contents : M -> gmap string KeyValue;
  wf_new_map : wf_map NewMap;
  contents_new : contents NewMap = ∅;
  Get_contents m k : wf_map m -> Get m k = contents m !! k;
  wf_Set m k kv : wf_map m -> wf_map (Set_ m k kv);
  contents_Set m k kv : wf_map m -> contents (Set_ m k kv) = <[k := kv]> (contents m);
  wf_Delete m k : wf_map m -> wf_map (Delete m k);
  contents_Delete m k : wf_map m -> contents (Delete m k) = delete k (contents m);
  Range_contents m startKey endKey limit : wf_map m -> keyed (contents m) ->
    Range m startKey endKey limit = applyLimit limit (entriesIn (contents m) startKey endKey);
  GetAll_contents m : wf_map m -> GetAll m = contents m;
  wf_SetAll m d : wf_map m -> wf_map (SetAll m d);
  contents_SetAll m d : wf_map m -> contents (SetAll m d) = d;
}.

(** ** Hashing: FNV-1a, 32 bits *)

Definition numShards : Z := 512.
Definition shardMask : Z := numShards - 1.

Definition fnv_offset32 : Z := 2166136261.
Definition fnv_prime32 : Z := 16777619.

Fixpoint fnv32a (h : Z) (data : string) : Z :=
  match data with
  | EmptyString => h
  | String c data' => fnv32a (wrap_u32 (Z.lxor h (byte_val c) * fnv_prime32)) data'
  end.

Definition getShard (key : string) : Z := Z.land (fnv32a fnv_offset32 key) shardMask.

(** ** The sharded map *)

Record ShardedMap := mkShardedMap { shards : list (gmap string KeyValue) }.

Definition shardAt (sm : ShardedMap) (key : string) : gmap string KeyValue :=
  default ∅ (shards sm !! Z.to_nat (getShard key)).

Definition updateShard (f : gmap string KeyValue -> gmap string KeyValue) (key : string)
    (sm : ShardedMap) : ShardedMap :=
  mkShardedMap (alter f (Z.to_nat (getShard key)) (shards sm)).

Definition sm_New : ShardedMap := mkShardedMap (replicate (Z.to_nat numShards) ∅).

Definition sm_Get (sm : ShardedMap) (key : string) : option KeyValue := shardAt sm key !! key.

Definition sm_Set (sm : ShardedMap) (key : string) (kv : KeyValue) : ShardedMap :=
  updateShard <[key := kv]> key sm.

Definition sm_Delete (sm : ShardedMap) (key : string) : ShardedMap :=
  updateShard (delete key) key sm.

Section iteration.
Context `{MapOrder}.

(** All the entries in the order the loops over the shards visit them. *)
Definition visit (sm : ShardedMap) : list (string * KeyValue) :=
  concat (range_map <$> shards sm).

Definition collectRange (sm : ShardedMap) (startKey endKey : string) : list KeyValue :=
  (List.filter (fun p => inKeyRange startKey endKey p.1) (visit sm)).*2.

Definition sm_Range (sm : ShardedMap) (startKey endKey : string) (limit : Z) : list KeyValue :=
  applyLimit limit (sortByKey (collectRange sm startKey endKey)).

(** [RangeFunc], the callback threading a state. *)
Fixpoint rangeFuncLoop {S} (limit count : Z) (fn : S -> KeyValue -> S * bool) (kvs : list KeyValue)
    (s : S) : S :=
  match kvs with
  | [] => s
  | kv :: kvs' =>
      if (limit >? 0) && (count >=? limit) then s
      else
        let '(s', continue) := fn s kv in
        if continue then rangeFuncLoop limit (count + 1) fn kvs' s' else s'
  end.

Definition sm_RangeFunc {S} (sm : ShardedMap) (startKey endKey : string) (limit : Z)
    (fn : S -> KeyValue -> S * bool) (s : S) : S :=
  rangeFuncLoop limit 0 fn (sortByKey (collectRange sm startKey endKey)) s.

Definition sm_Len (sm : ShardedMap) : Z :=
  fold_left (fun total m => total + Z.of_nat (size m)) (shards sm) 0.

Definition sm_Clear (sm : ShardedMap) : ShardedMap := mkShardedMap ((fun _ => ∅) <$> shards sm).

Definition sm_GetAll (sm : ShardedMap) : gmap string KeyValue :=
  fold_left (fun res p => <[p.1 := p.2]> res) (visit sm) ∅.

Definition sm_SetAll (sm : ShardedMap) (data : gmap string KeyValue) : ShardedMap :=
  fold_left (fun sm p => updateShard <[p.1 := p.2]> p.1 sm) (range_map data) (sm_Clear sm).

#[global] Instance sharded_KvMap : KvMap ShardedMap := {
  NewMap := sm_New;
  Get := sm_Get;
  Set_ := sm_Set;
  Delete := sm_Delete;
  Range := sm_Range;
  GetAll := sm_GetAll;
  SetAll := sm_SetAll;
}.

End iteration.

(** ** Facts *)

Lemma getShard_range key : 0 <= getShard key < numShards.
Proof.
  unfold getShard, shardMask. change (numShards - 1) with (Z.ones 9).
  rewrite Z.land_ones by lia. apply Z.mod_pos_bound. reflexivity.
Qed.

(** The shards are in place and every key is in the shard of its hash. *)
Record wf_sharded (sm : ShardedMap) : Prop := {
  ws_length : length (shards sm) = Z.to_nat numShards;
  ws_placed i m k : shards sm !! i = Some m -> is_Some (m !! k) -> i = Z.to_nat (getShard k);
}.

Lemma shardAt_lookup sm key :
  wf_sharded sm -> shards sm !! Z.to_nat (getShard key) = Some (shardAt sm key).
Proof.
  intros [Hl _]. unfold shardAt. pose proof (getShard_range key).
  destruct (lookup_lt_is_Some_2 (shards sm) (Z.to_nat (getShard key))) as [m Hm]; [lia|].
  by rewrite Hm.
Qed.

Lemma wf_sm_New : wf_sharded sm_New.
Proof.
  split; [apply length_replicate|]. intros i m k [-> _]%lookup_replicate [kv Hkv].
  by rewrite lookup_empty in Hkv.
Qed.

(** Changing only the entry of [key] keeps keys in their shards. *)
Lemma wf_updateShard f key sm :
  (forall m k, is_Some (f m !! k) -> k = key \/ is_Some (m !! k)) ->
  wf_sharded sm -> wf_sharded (updateShard f key sm).
Proof.
  intros Hf [Hl Hp]. split; [simpl; by rewrite length_alter|]. intros i m k Hi Hk. simpl in Hi.
  rewrite list_lookup_alter in Hi. case_decide as Hd; [subst i|by eapply Hp].
  destruct (shards sm !! Z.to_nat (getShard key)) as [m0|] eqn:E; [|done]. simpl in Hi. simplify_eq.
  destruct (Hf _ _ Hk) as [->|Hk0]; [done|]. by eapply Hp.
Qed.

Definition sm_contents (sm : ShardedMap) : gmap string KeyValue :=
  list_to_map (concat (map_to_list <$> shards sm)).

Lemma concat_nodup_keys (ms : list (gmap string KeyValue)) (off : nat) :
  (forall i m k, ms !! i = Some m -> is_Some (m !! k) -> (off + i)%nat = Z.to_nat (getShard k)) ->
  NoDup (concat (map_to_list <$> ms)).*1.
Proof.
  revert off. induction ms as [|m ms IH]; intros off Hp; [constructor|]. cbn. rewrite fmap_app.
  apply NoDup_app. split_and!.
  - apply NoDup_fst_map_to_list.
  - intros k Hk Hk'. rewrite list_elem_of_fmap in Hk, Hk'.
    destruct Hk as ([k0 v] & -> & Hin%elem_of_map_to_list). simpl in *.
    destruct Hk' as ([k1 v1] & -> & Hin1). simpl in *.
    apply elem_of_concat in Hin1 as (l & Hl & (m1 & -> & Hm1)%list_elem_of_fmap).
    apply elem_of_map_to_list in Hl. apply list_elem_of_lookup in Hm1 as [i Hi].
    pose proof (Hp 0%nat m k1 eq_refl ltac:(by eexists)).
    pose proof (Hp (S i) m1 k1 Hi ltac:(by eexists)). lia.
  - apply (IH (S off)). intros i m' k Hi Hk. rewrite <- (Hp (S i) m' k Hi Hk). lia.
Qed.

Lemma wf_nodup sm : wf_sharded sm -> NoDup (concat (map_to_list <$> shards sm)).*1.
Proof. intros [_ Hp]. by apply (concat_nodup_keys _ 0). Qed.

Lemma sm_contents_lookup sm k : wf_sharded sm -> sm_contents sm !! k = sm_Get sm k.
Proof.
  intros Hwf. unfold sm_contents, sm_Get. apply option_eq. intros kv.
  rewrite <- elem_of_list_to_map by (by apply wf_nodup). rewrite elem_of_concat. split.
  - intros (l & Hl & (m & -> & Hm)%list_elem_of_fmap). apply elem_of_map_to_list in Hl.
    apply list_elem_of_lookup in Hm as [i Hi].
    pose proof (ws_placed _ Hwf i m k Hi ltac:(by eexists)) as ->.
    rewrite (shardAt_lookup _ _ Hwf) in Hi. by simplify_eq.
  - intros Hk. exists (map_to_list (shardAt sm k)). split; [by apply elem_of_map_to_list|].
    apply list_elem_of_fmap_2. eapply list_elem_of_lookup_2. by apply shardAt_lookup.
Qed.

(** Looking a key up after an update of the shard of [key]. *)
Lemma sm_Get_update f key sm k :
  wf_sharded sm -> (forall m, k <> key -> f m !! k = m !! k) ->
  sm_Get (updateShard f key sm) k =
    if decide (k = key) then f (shardAt sm key) !! key else sm_Get sm k.
Proof.
  intros Hwf Hf. unfold sm_Get, shardAt at 1, updateShard. simpl.
  rewrite list_lookup_alter. rewrite !(shardAt_lookup _ _ Hwf).
  destruct (decide (k = key)) as [->|Hne]; [by rewrite decide_True|].
  case_decide as Hd; simpl; [|done]. rewrite Hf by done. unfold shardAt. by rewrite Hd.
Qed.

Lemma wf_sm_Set sm k kv : wf_sharded sm -> wf_sharded (sm_Set sm k kv).
Proof.
  apply wf_updateShard. intros m k' [v Hv]. apply lookup_insert_Some in Hv as [[-> _]|[_ Hv]];
    [by left|right; by eexists].
Qed.

Lemma wf_sm_Delete sm k : wf_sharded sm -> wf_sharded (sm_Delete sm k).
Proof.
  apply wf_updateShard. intros m k' [v Hv]. apply lookup_delete_Some in Hv as [_ Hv].
  right. by eexists.
Qed.

Lemma contents_sm_Set sm k kv :
  wf_sharded sm -> sm_contents (sm_Set sm k kv) = <[k := kv]> (sm_contents sm).
Proof.
  intros Hwf. apply map_eq. intros k'. rewrite sm_contents_lookup by (by apply wf_sm_Set).
  unfold sm_Set. rewrite sm_Get_update; [|done|intros; by rewrite lookup_insert_ne].
  rewrite !lookup_insert, sm_contents_lookup by done.
  destruct (decide (k' = k)) as [->|]; [by rewrite !decide_True by done|by rewrite decide_False by done].
Qed.

Lemma contents_sm_Delete sm k :
  wf_sharded sm -> sm_contents (sm_Delete sm k) = delete k (sm_contents sm).
Proof.
  intros Hwf. apply map_eq. intros k'. rewrite sm_contents_lookup by (by apply wf_sm_Delete).
  unfold sm_Delete. rewrite sm_Get_update; [|done|intros; by rewrite lookup_delete_ne].
  rewrite !lookup_delete, sm_contents_lookup by done.
  destruct (decide (k' = k)) as [->|]; [by rewrite !decide_True by done|by rewrite decide_False by done].
Qed.

Lemma wf_sm_Clear sm : wf_sharded sm -> wf_sharded (sm_Clear sm).
Proof.
  intros [Hl _]. split; [simpl; by rewrite length_fmap|]. intros i m k Hi [v Hv]. simpl in Hi.
  rewrite list_lookup_fmap in Hi. destruct (shards sm !! i); simplify_eq/=.
Qed.

Lemma contents_sm_Clear sm : wf_sharded sm -> sm_contents (sm_Clear sm) = ∅.
Proof.
  intros Hwf. apply map_eq. intros k. rewrite sm_contents_lookup by (by apply wf_sm_Clear).
  unfold sm_Get, shardAt. simpl. rewrite list_lookup_fmap, (shardAt_lookup _ _ Hwf).
  by rewrite !lookup_empty.
Qed.

Lemma contents_sm_New : sm_contents sm_New = ∅.
Proof.
  apply map_eq. intros k. rewrite sm_contents_lookup by apply wf_sm_New.
  pose proof (shardAt_lookup _ k wf_sm_New) as Hs. apply lookup_replicate in Hs as [Hs _].
  unfold sm_Get. by rewrite Hs, !lookup_empty.
Qed.

Section order.
Context `{MapOrder}.

Lemma visit_perm sm : visit sm ≡ₚ concat (map_to_list <$> shards sm).
Proof.
  unfold visit. induction (shards sm) as [|m ms IH]; [done|]. cbn. by rewrite range_map_perm, IH.
Qed.

Lemma visit_contents sm : wf_sharded sm -> visit sm ≡ₚ map_to_list (sm_contents sm).
Proof.
  intros Hwf. rewrite visit_perm. unfold sm_contents. symmetry.
  apply map_to_list_to_map. by apply wf_nodup.
Qed.

(** Inserting a list of entries with distinct keys. *)
Lemma fold_insert_lookup (l : list (string * KeyValue)) (acc : gmap string KeyValue) k :
  NoDup l.*1 ->
  fold_left (fun res p => <[p.1 := p.2]> res) l acc !! k =
    match (list_to_map l : gmap string KeyValue) !! k with Some v => Some v | None => acc !! k end.
Proof.
  revert acc. induction l as [|[k0 v0] l IH]; intros acc Hnd; [done|].
  cbn in Hnd. apply NoDup_cons in Hnd as [Hnin Hnd]. simpl. rewrite IH by done. rewrite !lookup_insert.
  case_decide as Hd; [subst k0|done]. by rewrite not_elem_of_list_to_map_1.
Qed.

Lemma sm_GetAll_contents sm : wf_sharded sm -> sm_GetAll sm = sm_contents sm.
Proof.
  intros Hwf. apply map_eq. intros k. unfold sm_GetAll.
  assert (Hnd : NoDup (visit sm).*1)
    by (rewrite (fmap_Permutation fst _ _ (visit_perm sm)); by apply wf_nodup).
  rewrite fold_insert_lookup by done. rewrite lookup_empty.
  replace (list_to_map (visit sm)) with (sm_contents sm); [by destruct (sm_contents sm !! k)|].
  unfold sm_contents. apply list_to_map_proper; [by apply wf_nodup|]. symmetry. apply visit_perm.
Qed.

Lemma sm_SetAll_spec sm d :
  wf_sharded sm -> wf_sharded (sm_SetAll sm d) /\ sm_contents (sm_SetAll sm d) = d.
Proof.
  intros Hwf. unfold sm_SetAll.
  assert (Hgen : forall l sm0, wf_sharded sm0 ->
    wf_sharded (fold_left (fun sm p => updateShard <[p.1 := p.2]> p.1 sm) l sm0) /\
    sm_contents (fold_left (fun sm p => updateShard <[p.1 := p.2]> p.1 sm) l sm0) =
      fold_left (fun res p => <[p.1 := p.2]> res) l (sm_contents sm0)).
  { induction l as [|[k v] l IH]; intros sm0 Hwf0; simpl; [done|].
    destruct (IH (sm_Set sm0 k v) (wf_sm_Set _ _ _ Hwf0)) as [H1 H2]. split; [done|].
    unfold sm_Set in H2. rewrite H2. f_equal. by apply contents_sm_Set. }
  destruct (Hgen (range_map d) (sm_Clear sm) (wf_sm_Clear _ Hwf)) as [H1 H2]. split; [done|].
  rewrite H2, (contents_sm_Clear _ Hwf). apply map_eq. intros k.
  rewrite fold_insert_lookup by apply range_map_nodup. rewrite lookup_empty.
  replace (list_to_map (range_map d)) with d; [by destruct (d !! k)|].
  rewrite <- (list_to_map_to_list d) at 1.
  apply list_to_map_proper; [apply NoDup_fst_map_to_list|]. symmetry. apply range_map_perm.
Qed.

#[local] Instance kv_le_total : Total kv_le.
Proof.
  intros p q. unfold kv_le. destruct (str_ltb (Key q) (Key p)) eqn:E1; [|by left]. right.
  destruct (str_ltb (Key p) (Key q)) eqn:E2; [|done].
  pose proof (str_ltb_trans _ _ _ E1 E2) as E3. by rewrite str_ltb_irrefl in E3.
Qed.

#[local] Instance kv_le_trans : Transitive kv_le.
Proof.
  intros p q r. unfold kv_le. intros H1 H2. destruct (str_ltb (Key r) (Key p)) eqn:E; [|done].
  destruct (str_ltb (Key p) (Key q)) eqn:E1.
  - by rewrite (str_ltb_trans _ _ _ E E1) in H2.
  - rewrite (str_ltb_total _ _ E1 H1) in E. congruence.
Qed.

Lemma elem_of_entriesIn m a b kv :
  kv ∈ entriesIn m a b <-> exists k, m !! k = Some kv /\ inKeyRange a b k = true.
Proof.
  unfold entriesIn. rewrite list_elem_of_fmap. setoid_rewrite list_elem_of_In.
  setoid_rewrite filter_In. setoid_rewrite <- list_elem_of_In. split.
  - intros ([k v] & -> & Hin & Hr). exists k. split; [|done].
    by rewrite sorted_entries_perm, elem_of_map_to_list in Hin.
  - intros (k & Hk & Hr). exists (k, kv). split_and!; [done| |done].
    by rewrite sorted_entries_perm, elem_of_map_to_list.
Qed.

(** In key order, strictly. *)
Lemma entriesIn_sorted m a b :
  keyed m -> StronglySorted (fun p q => str_ltb (Key p) (Key q) = true) (entriesIn m a b).
Proof.
  intros Hk. unfold entriesIn.
  assert (Hall : Forall (fun p => Key p.2 = p.1) (List.filter (fun p => inKeyRange a b p.1) (sorted_entries m))).
  { apply Forall_forall. intros [k v] [Hin _]%list_elem_of_In%filter_In. apply list_elem_of_In in Hin.
    rewrite sorted_entries_perm, elem_of_map_to_list in Hin. by apply Hk. }
  assert (Hs : StronglySorted (fun p q => lessb p.1 q.1 = true)
    (List.filter (fun p => inKeyRange a b p.1) (sorted_entries m))).
  { pose proof (sorted_entries_sorted m) as Hs. induction Hs as [|p l _ IH Hf]; simpl; [constructor|].
    simpl in Hall. destruct (inKeyRange a b p.1); [|by apply IH]. inv Hall. constructor; [by apply IH|].
    rewrite Forall_forall in Hf |- *. intros q [Hq _]%list_elem_of_In%filter_In.
    by apply Hf, list_elem_of_In. }
  induction Hs as [|p l _ IH Hf]; cbn; [constructor|]. inv Hall as [|? ? Hp Hl].
  constructor; [by apply IH|]. apply Forall_fmap. rewrite Forall_forall in Hf, Hl |- *.
  intros q Hq. simpl. rewrite Hp, (Hl q Hq). by apply Hf.
Qed.

Lemma filter_permutation {A} (f : A -> bool) l1 l2 :
  l1 ≡ₚ l2 -> List.filter f l1 ≡ₚ List.filter f l2.
Proof.
  induction 1 as [|x l1 l2 _ IH|x y l|l1 l2 l3 _ IH1 _ IH2]; simpl.
  - done.
  - destruct (f x); by rewrite IH.
  - destruct (f x), (f y); try done. apply Permutation_swap.
  - by rewrite IH1.
Qed.

Lemma sm_Range_contents sm a b limit :
  wf_sharded sm -> keyed (sm_contents sm) ->
  sm_Range sm a b limit = applyLimit limit (entriesIn (sm_contents sm) a b).
Proof.
  intros Hwf Hk. unfold sm_Range. f_equal. unfold sortByKey.
  assert (Hperm : collectRange sm a b ≡ₚ entriesIn (sm_contents sm) a b).
  { unfold collectRange, entriesIn. apply fmap_Permutation, filter_permutation.
    by rewrite (visit_contents _ Hwf), sorted_entries_perm. }
  pose proof (merge_sort_Permutation kv_le (collectRange sm a b)) as Hms.
  apply (StronglySorted_unique_strong kv_le).
  - intros x y Hx Hy Hxy Hyx. rewrite Hms, Hperm in Hx.
    apply elem_of_entriesIn in Hx as (k1 & Hk1 & _). apply elem_of_entriesIn in Hy as (k2 & Hk2 & _).
    pose proof (Hk _ _ Hk1) as HK1. pose proof (Hk _ _ Hk2) as HK2. simpl in HK1, HK2.
    unfold kv_le in Hxy, Hyx. pose proof (str_ltb_total _ _ Hyx Hxy). congruence.
  - apply StronglySorted_merge_sort; apply _.
  - pose proof (entriesIn_sorted _ a b Hk) as Hs.
    clear Hperm. induction Hs as [|p l _ IH Hf]; [constructor|]. constructor; [done|].
    eapply Forall_impl; [exact Hf|]. simpl. intros q Hpq. unfold kv_le. destruct (str_ltb (Key q) (Key p)) eqn:E; [|done].
    pose proof (str_ltb_trans _ _ _ Hpq E) as E2. by rewrite str_ltb_irrefl in E2.
  - by rewrite Hms.
Qed.

#[global, refine] Instance sharded_laws : KvMapLaws ShardedMap := {
  wf_map := wf_sharded;
  contents := sm_contents;
}.
Proof.
  - apply wf_sm_New.
  - apply contents_sm_New.
  - intros m k Hwf. symmetry. by apply sm_contents_lookup.
  - apply wf_sm_Set.
  - apply contents_sm_Set.
  - apply wf_sm_Delete.
  - apply contents_sm_Delete.
  - apply sm_Range_contents.
  - apply sm_GetAll_contents.
  - intros m d Hwf. by apply sm_SetAll_spec.
  - intros m d Hwf. by apply sm_SetAll_spec.
Defined.

End order.
