(* ===== verification/MemoryEtcd.v ===== *)
(** * The etcd-style in-memory store ([internal/memory/store.go],
    [store_direct.go] and [watch.go])

    [MemoryEtcd] keeps the records in a [KvMap], a global revision counter, the
    leases and the watch subscriptions.  An operation is one step of the state,
    as when the commands arrive one at a time from the Raft log.  Operations
    return the new state together with a result, since a transaction that fails
    half-way keeps the effects it already had.  The clock is an argument [now].
    A Go channel of capacity 100 is the list of its buffered events, and
    [ws_slow] holds the events of the [slowSendEvent] goroutines that wait for
    room in it. *)

From S2P Require Import Prelude GoBytes KvTypes ShardedMap.

Inductive EtcdError : Set :=
  | LeaseNotFound (id : Z) | LeaseExpired (id : Z) | InvalidLease | LeaseExists (id : Z)
  | WatchExists (id : Z) | WatchNotFound (id : Z) | TransferNotSupported.

Record watchSubscription := mkWatch {
  ws_watchID : Z;
  ws_key : string;
  ws_rangeEnd : string;
  ws_startRev : Z;
  ws_eventCh : list WatchEvent;
  ws_slow : list WatchEvent;
  ws_closed : bool;
  ws_prevKV : bool;
  ws_progressNotify : bool;
  ws_filters : list WatchFilterType;
  ws_fragment : bool;
}.

Definition eventChCap : Z := 100.

Definition setEvents (sub : watchSubscription) (ch slow : list WatchEvent) : watchSubscription :=
  mkWatch (ws_watchID sub) (ws_key sub) (ws_rangeEnd sub) (ws_startRev sub) ch slow (ws_closed sub)
    (ws_prevKV sub) (ws_progressNotify sub) (ws_filters sub) (ws_fragment sub).

(** ** Comparisons *)

Definition compareInt (a b : Z) (result : CompareResult) : bool :=
  match result with
  | CompareEqual => a =? b
  | CompareGreater => a >? b
  | CompareLess => a <? b
  | CompareNotEqual => negb (a =? b)
  | CompareResultOther _ => false
  end.

Definition compareBytes (a b : string) (result : CompareResult) : bool :=
  match result with
  | CompareEqual => String.eqb a b
  | CompareGreater => str_ltb b a
  | CompareLess => str_ltb a b
  | CompareNotEqual => negb (String.eqb a b)
  | CompareResultOther _ => false
  end.

(** The switch of [evaluateCompare], on the record that was found. *)
Definition compareRecord (kv : option KeyValue) (cmp : Compare) : bool :=
  let u := cmp_TargetUnion cmp in
  match cmp_Target cmp with
  | CompareVersion =>
      compareInt match kv with Some kv => Version kv | None => 0 end (cu_Version u) (cmp_Result cmp)
  | CompareCreate =>
      compareInt match kv with Some kv => CreateRevision kv | None => 0 end (cu_CreateRevision u)
        (cmp_Result cmp)
  | CompareMod =>
      compareInt match kv with Some kv => ModRevision kv | None => 0 end (cu_ModRevision u)
        (cmp_Result cmp)
  | CompareValue =>
      compareBytes match kv with Some kv => Value kv | None => "" end (cu_Value u) (cmp_Result cmp)
  | CompareLease =>
      compareInt match kv with Some kv => Lease kv | None => 0 end (cu_Lease u) (cmp_Result cmp)
  | CompareTargetOther _ => false
  end.

(** ** Watches *)

Definition matchWatch (key watchKey rangeEnd : string) : bool :=
  if String.eqb rangeEnd "" then String.eqb key watchKey
  else str_leb watchKey key && (String.eqb rangeEnd nulKey || str_ltb key rangeEnd).

Definition watchMatches (sub : watchSubscription) (key : string) : bool :=
  if String.eqb (ws_rangeEnd sub) "" then String.eqb key (ws_key sub)
  else str_leb (ws_key sub) key &&
       (String.eqb (ws_rangeEnd sub) nulKey || str_ltb key (ws_rangeEnd sub)).

Fixpoint shouldFilter (eventType : EventType) (filters : list WatchFilterType) : bool :=
  match filters with
  | [] => false
  | FilterNoPut :: fs => if decide (eventType = EventTypePut) then true else shouldFilter eventType fs
  | FilterNoDelete :: fs =>
      if decide (eventType = EventTypeDelete) then true else shouldFilter eventType fs
  | _ :: fs => shouldFilter eventType fs
  end.

Definition hasRoom (sub : watchSubscription) : bool :=
  Z.of_nat (length (ws_eventCh sub)) <? eventChCap.

(** [notifyWatches] on one subscription. *)
Definition notifySub (event : WatchEvent) (sub : watchSubscription) : watchSubscription :=
  let key :=
    match we_Kv event with
    | Some kv => Key kv
    | None => match we_PrevKv event with Some kv => Key kv | None => "" end
    end in
  if ws_closed sub then sub
  else if negb (matchWatch key (ws_key sub) (ws_rangeEnd sub)) then sub
  else if shouldFilter (we_Type event) (ws_filters sub) then sub
  else
    let eventToSend :=
      if ws_prevKV sub then event
      else mkWatchEvent (we_Type event) (we_Kv event) None (we_Revision event) in
    if hasRoom sub then setEvents sub (ws_eventCh sub ++ [eventToSend]) (ws_slow sub)
    else setEvents sub (ws_eventCh sub) (ws_slow sub ++ [eventToSend]).

(** [notifyWatchers] (the direct path) on one subscription. *)
Definition notifySubDirect (key : string) (kv : KeyValue) (eventType : EventType)
    (sub : watchSubscription) : watchSubscription :=
  if watchMatches sub key then
    if hasRoom sub
    then setEvents sub (ws_eventCh sub ++ [mkWatchEvent eventType (Some kv) None 0]) (ws_slow sub)
    else sub
  else sub.

(** ** Leases and keys *)

Definition attachKey (leaseID : Z) (key : string) (leases : gmap Z LeaseInfo) : gmap Z LeaseInfo :=
  if leaseID =? 0 then leases
  else
    match leases !! leaseID with
    | Some l => <[leaseID := mkLease (l_ID l) (l_TTL l) (l_GrantTime l) (<[key := true]> (l_Keys l))]> leases
    | None => leases
    end.

Definition detachKey (leaseID : Z) (key : string) (leases : gmap Z LeaseInfo) : gmap Z LeaseInfo :=
  if leaseID =? 0 then leases
  else
    match leases !! leaseID with
    | Some l => <[leaseID := mkLease (l_ID l) (l_TTL l) (l_GrantTime l) (delete key (l_Keys l))]> leases
    | None => leases
    end.

(** The record a put writes over [prevKv]. *)
Definition nextKv (prevKv : option KeyValue) (key value : string) (leaseID newRevision : Z) : KeyValue :=
  match prevKv with
  | Some p => mkKeyValue key value (CreateRevision p) newRevision (wrap_i64 (Version p + 1)) leaseID
  | None => mkKeyValue key value newRevision newRevision 1 leaseID
  end.

(** The record of a deletion event. *)
Definition deletedKv (kv : KeyValue) (newRevision : Z) : KeyValue :=
  mkKeyValue (Key kv) "" (CreateRevision kv) newRevision 0 0.

Record RaftStatus := mkRaftStatus {
  rs_NodeID : Z; rs_Term : Z; rs_LeaderID : Z; rs_State : string; rs_Applied : Z; rs_Commit : Z;
}.

(** ** The store *)

Section etcd.
Context {M : Type} `{!KvMap M} `{!MapOrder}.

Record MemoryEtcd := mkMemoryEtcd {
  kvData : M;
  revision : Z;
  leases : gmap Z LeaseInfo;
  watches : gmap Z watchSubscription;
}.

Definition NewMemoryEtcd : MemoryEtcd := mkMemoryEtcd NewMap 0 ∅ ∅.

Definition CurrentRevision (m : MemoryEtcd) : Z := revision m.

Definition setData (m : MemoryEtcd) (d : M) (rev : Z) (ls : gmap Z LeaseInfo) : MemoryEtcd :=
  mkMemoryEtcd d rev ls (watches m).
Definition setWatches (m : MemoryEtcd) (ws : gmap Z watchSubscription) : MemoryEtcd :=
  mkMemoryEtcd (kvData m) (revision m) (leases m) ws.
Definition setLeases (m : MemoryEtcd) (ls : gmap Z LeaseInfo) : MemoryEtcd :=
  mkMemoryEtcd (kvData m) (revision m) ls (watches m).

(** [m.revision.Add(1)] *)
Definition nextRevision (m : MemoryEtcd) : Z := wrap_i64 (revision m + 1).

Definition notifyWatches (m : MemoryEtcd) (event : WatchEvent) : MemoryEtcd :=
  setWatches m (notifySub event <$> watches m).

Definition notifyWatchers (m : MemoryEtcd) (key : string) (kv : KeyValue) (t : EventType) : MemoryEtcd :=
  setWatches m (notifySubDirect key kv t <$> watches m).

(** ** Reads *)

(** The records a range names: one key when [rangeEnd] is empty. *)
Definition selectRange (m : MemoryEtcd) (key rangeEnd : string) (limit : Z) : list KeyValue :=
  if String.eqb rangeEnd "" then option_list (Get (kvData m) key)
  else Range (kvData m) key rangeEnd limit.

Definition rangeUnlocked (m : MemoryEtcd) (key rangeEnd : string) (limit : Z) : RangeResponse :=
  let kvs := selectRange m key rangeEnd limit in
  let count := Z.of_nat (length kvs) in
  if (limit >? 0) && (Z.of_nat (length kvs) >? limit)
  then mkRangeResponse (take (Z.to_nat limit) kvs) true count (revision m)
  else mkRangeResponse kvs false count (revision m).

(** The [revision] argument is accepted and ignored. *)
Definition RangeQuery (m : MemoryEtcd) (key rangeEnd : string) (limit rev : Z) : RangeResponse :=
  rangeUnlocked m key rangeEnd limit.

Definition Lookup (m : MemoryEtcd) (key : string) : string * bool :=
  match Get (kvData m) key with
  | Some kv => (Value kv, true)
  | None => ("", false)
  end.

Definition GetSnapshot (m : MemoryEtcd) : string :=
  fold_left (fun buf p => buf +:+ p.1 +:+ "=" +:+ Value p.2 +:+ String (Ascii.ascii_of_nat 10) "")
    (range_map (GetAll (kvData m))) "".

Definition Compact (m : MemoryEtcd) (rev : Z) : MemoryEtcd * result EtcdError unit := (m, Ok tt).

Definition GetRaftStatus (m : MemoryEtcd) : RaftStatus :=
  mkRaftStatus 1 1 1 "leader" (wrap_u64 (revision m)) (wrap_u64 (revision m)).

Definition TransferLeadership (m : MemoryEtcd) (targetID : Z) : result EtcdError unit :=
  Err TransferNotSupported.

(** ** Puts *)

(** The statements all the puts share: bump the revision, write the record over
    the old one and attach the key to its lease. *)
Definition storeKv (m : MemoryEtcd) (key value : string) (leaseID : Z) :
    MemoryEtcd * KeyValue * option KeyValue * Z :=
  let prevKv := Get (kvData m) key in
  let newRevision := nextRevision m in
  let kv := nextKv prevKv key value leaseID newRevision in
  (setData m (Set_ (kvData m) key kv) newRevision (attachKey leaseID key (leases m)),
   kv, prevKv, newRevision).

Definition PutWithLease (now : Z) (m : MemoryEtcd) (key value : string) (leaseID : Z) :
    MemoryEtcd * result EtcdError (Z * option KeyValue) :=
  let write :=
    let '(m', kv, prevKv, newRevision) := storeKv m key value leaseID in
    (notifyWatches m' (mkWatchEvent EventTypePut (Some kv) prevKv newRevision),
     Ok (newRevision, prevKv)) in
  if leaseID =? 0 then write
  else
    match leases m !! leaseID with
    | None => (m, Err (LeaseNotFound leaseID))
    | Some l => if IsExpired now (Some l) then (m, Err (LeaseExpired leaseID)) else write
    end.

Definition putUnlocked (now : Z) (m : MemoryEtcd) (key value : string) (leaseID : Z) :
    MemoryEtcd * result EtcdError (Z * option KeyValue) :=
  let write :=
    let '(m', _, prevKv, newRevision) := storeKv m key value leaseID in
    (m', Ok (newRevision, prevKv)) in
  if leaseID =? 0 then write
  else
    match leases m !! leaseID with
    | None => (m, Err InvalidLease)
    | Some l => if IsExpired now (Some l) then (m, Err InvalidLease) else write
    end.

Definition Propose (now : Z) (m : MemoryEtcd) (k v : string) : MemoryEtcd :=
  (PutWithLease now m k v 0).1.

(** [putDirect] does not look at the lease before it writes. *)
Definition putDirect (m : MemoryEtcd) (key value : string) (leaseID : Z) :
    MemoryEtcd * (Z * option KeyValue) :=
  let '(m', kv, prevKv, newRevision) := storeKv m key value leaseID in
  (notifyWatchers m' key kv EventTypePut, (newRevision, prevKv)).

(** ** Deletions *)

(** Removing one key: the map, and the leases if the record named one. *)
Definition removeKey (m : MemoryEtcd) (k : string) (prevKv : option KeyValue) : MemoryEtcd :=
  setData m (Delete (kvData m) k) (revision m)
    match prevKv with Some p => detachKey (Lease p) k (leases m) | None => leases m end.

(** The loop over [keysToDelete] of [DeleteRange] and [deleteUnlocked], with the
    events [DeleteRange] prepares. *)
Fixpoint deleteLoop (m : MemoryEtcd) (keys : list string) (newRevision : Z) :
    MemoryEtcd * list WatchEvent :=
  match keys with
  | [] => (m, [])
  | k :: keys' =>
      let prevKv := Get (kvData m) k in
      let '(m', events) := deleteLoop (removeKey m k prevKv) keys' newRevision in
      (m', match prevKv with
           | Some p =>
               mkWatchEvent EventTypeDelete (Some (deletedKv p newRevision)) (Some p) newRevision
                 :: events
           | None => events
           end)
  end.

Definition deleteUnlockedEvents (m : MemoryEtcd) (key rangeEnd : string) :
    MemoryEtcd * (Z * list KeyValue * Z) * list WatchEvent :=
  let prevKvs := selectRange m key rangeEnd 0 in
  let keysToDelete := if String.eqb rangeEnd "" then (fun _ => key) <$> prevKvs else Key <$> prevKvs in
  match keysToDelete with
  | [] => (m, (0, [], revision m), [])
  | _ =>
      let newRevision := nextRevision m in
      let '(m', events) :=
        deleteLoop (setData m (kvData m) newRevision (leases m)) keysToDelete newRevision in
      (m', (Z.of_nat (length keysToDelete), prevKvs, newRevision), events)
  end.

Definition deleteUnlocked (m : MemoryEtcd) (key rangeEnd : string) :
    MemoryEtcd * (Z * list KeyValue * Z) :=
  (deleteUnlockedEvents m key rangeEnd).1.

Definition DeleteRange (m : MemoryEtcd) (key rangeEnd : string) :
    MemoryEtcd * (Z * list KeyValue * Z) :=
  let '(m', res, events) := deleteUnlockedEvents m key rangeEnd in
  (fold_left notifyWatches events m', res).

(** One deletion of the direct path: its own revision, then the watchers. *)
Definition deleteOneDirect (m : MemoryEtcd) (k : string) (kv : KeyValue) : MemoryEtcd :=
  notifyWatchers
    (removeKey (setData m (kvData m) (nextRevision m) (leases m)) k (Some kv)) k kv EventTypeDelete.

Definition deleteDirect (m : MemoryEtcd) (key rangeEnd : string) :
    MemoryEtcd * (Z * list KeyValue * Z) :=
  if String.eqb rangeEnd "" then
    match Get (kvData m) key with
    | Some kv => let m' := deleteOneDirect m key kv in (m', (1, [kv], revision m'))
    | None => (m, (0, [], revision m))
    end
  else
    match Range (kvData m) key rangeEnd 0 with
    | [] => (m, (0, [], revision m))
    | kvs =>
        let m' := fold_left (fun m kv => deleteOneDirect m (Key kv) kv) kvs m in
        (m', (Z.of_nat (length kvs), kvs, revision m'))
    end.

(** ** Transactions *)

Definition evaluateCompare (m : MemoryEtcd) (cmp : Compare) : bool :=
  compareRecord (Get (kvData m) (cmp_Key cmp)) cmp.

Definition txnOp (now : Z) (m : MemoryEtcd) (op : Op) : MemoryEtcd * result EtcdError OpResponse :=
  match op_Type op with
  | OpRange => (m, Ok (RespRange (rangeUnlocked m (op_Key op) (op_RangeEnd op) (op_Limit op))))
  | OpPut =>
      let '(m', r) := putUnlocked now m (op_Key op) (op_Value op) (op_LeaseID op) in
      (m', match r with
           | Ok (rev, prevKv) => Ok (RespPut (mkPutResponse prevKv rev))
           | Err e => Err e
           end)
  | OpDelete =>
      let '(m', (deleted, prevKvs, rev)) := deleteUnlocked m (op_Key op) (op_RangeEnd op) in
      (m', Ok (RespDelete (mkDeleteResponse deleted prevKvs rev)))
  | _ => (m, Ok RespEmpty)
  end.

(** The loop over the operations: the first error ends it. *)
Fixpoint txnOps (now : Z) (m : MemoryEtcd) (ops : list Op) :
    MemoryEtcd * result EtcdError (list OpResponse) :=
  match ops with
  | [] => (m, Ok [])
  | op :: ops' =>
      let '(m1, r) := txnOp now m op in
      match r with
      | Err e => (m1, Err e)
      | Ok resp =>
          let '(m2, rs) := txnOps now m1 ops' in
          (m2, match rs with Ok resps => Ok (resp :: resps) | Err e => Err e end)
      end
  end.

Definition txnUnlocked (now : Z) (m : MemoryEtcd) (cmps : list Compare) (thenOps elseOps : list Op) :
    MemoryEtcd * result EtcdError TxnResponse :=
  let succeeded := forallb (evaluateCompare m) cmps in
  let '(m', rs) := txnOps now m (if succeeded then thenOps else elseOps) in
  (m', match rs with
       | Ok resps => Ok (mkTxnResponse succeeded resps (revision m'))
       | Err e => Err e
       end).

Definition Txn := txnUnlocked.
Definition applyTxnWithShardLocks := txnUnlocked.

(** ** Leases *)

Definition LeaseGrant (now : Z) (m : MemoryEtcd) (id ttl : Z) : MemoryEtcd * result EtcdError LeaseInfo :=
  match leases m !! id with
  | Some _ => (m, Err (LeaseExists id))
  | None => let l := mkLease id ttl now ∅ in (setLeases m (<[id := l]> (leases m)), Ok l)
  end.

(** The loop over [lease.Keys]: each key that is still there goes, at a revision
    of its own. *)
Fixpoint revokeLoop (m : MemoryEtcd) (keys : list string) : MemoryEtcd * list WatchEvent :=
  match keys with
  | [] => (m, [])
  | key :: keys' =>
      match Get (kvData m) key with
      | None => revokeLoop m keys'
      | Some kv =>
          let newRevision := nextRevision m in
          let m1 := setData m (Delete (kvData m) key) newRevision (leases m) in
          let '(m2, events) := revokeLoop m1 keys' in
          (m2, mkWatchEvent EventTypeDelete (Some (deletedKv kv newRevision)) (Some kv) newRevision
                 :: events)
      end
  end.

Definition LeaseRevoke (m : MemoryEtcd) (id : Z) : MemoryEtcd * result EtcdError unit :=
  match leases m !! id with
  | None => (m, Err (LeaseNotFound id))
  | Some l =>
      let '(m1, events) := revokeLoop m (range_map (l_Keys l)).*1 in
      (fold_left notifyWatches events (setLeases m1 (delete id (leases m1))), Ok tt)
  end.

Definition LeaseRenew (now : Z) (m : MemoryEtcd) (id : Z) : MemoryEtcd * result EtcdError LeaseInfo :=
  match leases m !! id with
  | None => (m, Err (LeaseNotFound id))
  | Some l =>
      let l' := default l (Renew now (Some l) (l_TTL l)).1 in
      (setLeases m (<[id := l']> (leases m)), Ok l')
  end.

Definition LeaseTimeToLive (m : MemoryEtcd) (id : Z) : result EtcdError LeaseInfo :=
  match leases m !! id with
  | None => Err (LeaseNotFound id)
  | Some l => Ok (mkLease (l_ID l) (l_TTL l) (l_GrantTime l) ((fun _ => true) <$> l_Keys l))
  end.

(** In no particular order. *)
Definition Leases (m : MemoryEtcd) : list LeaseInfo :=
  (fun p => mkLease (l_ID p.2) (l_TTL p.2) (l_GrantTime p.2) ((fun _ => true) <$> l_Keys p.2))
    <$> map_to_list (leases m).

Inductive LeaseOp : Set := LEASE_GRANT | LEASE_REVOKE.

Definition applyLeaseOperationDirect (now : Z) (m : MemoryEtcd) (opType : LeaseOp) (leaseID ttl : Z) :
    MemoryEtcd :=
  match opType with
  | LEASE_GRANT => setLeases m (<[leaseID := mkLease leaseID ttl now ∅]> (leases m))
  | LEASE_REVOKE =>
      match leases m !! leaseID with
      | None => m
      | Some l =>
          fold_left (fun m key => (deleteDirect m key "").1) (range_map (l_Keys l)).*1
            (setLeases m (delete leaseID (leases m)))
      end
  end.

(** ** Watch operations *)

(** The second component says whether the goroutine that replays the current
    records was started. *)
Definition WatchWithOptions (m : MemoryEtcd) (key rangeEnd : string) (startRevision watchID : Z)
    (opts : option WatchOptions) : MemoryEtcd * result EtcdError bool :=
  match watches m !! watchID with
  | Some _ => (m, Err (WatchExists watchID))
  | None =>
      let o := default (mkWatchOptions false false [] false) opts in
      let sub := mkWatch watchID key rangeEnd startRevision [] [] false (wo_PrevKV o)
                   (wo_ProgressNotify o) (wo_Filters o) (wo_Fragment o) in
      (setWatches m (<[watchID := sub]> (watches m)),
       Ok ((startRevision >? 0) && (startRevision <? revision m)))
  end.

Definition Watch (m : MemoryEtcd) (key rangeEnd : string) (startRevision watchID : Z) :
    MemoryEtcd * result EtcdError bool :=
  WatchWithOptions m key rangeEnd startRevision watchID None.

(** Sends into the channel of one subscription while there is room. *)
Definition sendHistorical (kvs : list (string * KeyValue)) (sub : watchSubscription) : watchSubscription :=
  fold_left (fun sub p =>
    if matchWatch p.1 (ws_key sub) (ws_rangeEnd sub) && hasRoom sub
    then setEvents sub
           (ws_eventCh sub ++ [mkWatchEvent EventTypePut (Some p.2) None (ModRevision p.2)])
           (ws_slow sub)
    else sub) kvs sub.

Definition sendHistoricalEvents (m : MemoryEtcd) (watchID : Z) : MemoryEtcd :=
  setWatches m (alter (sendHistorical (range_map (GetAll (kvData m)))) watchID (watches m)).

Definition CancelWatch (m : MemoryEtcd) (watchID : Z) : MemoryEtcd * result EtcdError unit :=
  match watches m !! watchID with
  | None => (m, Err (WatchNotFound watchID))
  | Some sub => if ws_closed sub then (m, Ok tt) else (setWatches m (delete watchID (watches m)), Ok tt)
  end.

(** A waiting [slowSendEvent] finds room: the [i]-th of them, as the scheduler
    picks. *)
Definition slowSend (i : nat) (sub : watchSubscription) : watchSubscription :=
  match ws_slow sub !! i with
  | Some ev =>
      if hasRoom sub then setEvents sub (ws_eventCh sub ++ [ev]) (delete i (ws_slow sub)) else sub
  | None => sub
  end.

Definition slowSendEvent (m : MemoryEtcd) (watchID : Z) (i : nat) : MemoryEtcd :=
  setWatches m (alter (slowSend i) watchID (watches m)).

(** ... or its timer fires first. *)
Definition slowSendTimeout (m : MemoryEtcd) (watchID : Z) : MemoryEtcd := (CancelWatch m watchID).1.

(** The client takes the oldest buffered event. *)
Definition receive (m : MemoryEtcd) (watchID : Z) : MemoryEtcd * option WatchEvent :=
  match watches m !! watchID with
  | Some sub =>
      match ws_eventCh sub with
      | ev :: ch => (setWatches m (<[watchID := setEvents sub ch (ws_slow sub)]> (watches m)), Some ev)
      | [] => (m, None)
      end
  | None => (m, None)
  end.

End etcd.

Arguments MemoryEtcd : clear implicits.
