(* ===== verification/EtcdFacts.v ===== *)
(** * Invariants and effects of the operations of [MemoryEtcd]

    Proved against the [KvMap] interface: [contents] is the map a store holds,
    and each operation is described by what it does to it. *)

From S2P Require Import Prelude GoBytes OrderedTree KvTypes ShardedMap MemoryEtcd.

(** ** Sets of keys leaving a map *)

Definition without (ks : list string) (m : gmap string KeyValue) : gmap string KeyValue :=
  filter (fun p => p.1 ∉ ks) m.

Lemma without_lookup ks m k : without ks m !! k = if decide (k ∈ ks) then None else m !! k.
Proof.
  unfold without. case_decide as Hd.
  - apply map_lookup_filter_None. right. intros v _ Hn. by apply Hn.
  - destruct (m !! k) as [v|] eqn:E.
    + by apply map_lookup_filter_Some.
    + apply map_lookup_filter_None. by left.
Qed.

Lemma without_cons k ks m : without (k :: ks) m = without ks (delete k m).
Proof.
  apply map_eq. intros k'. rewrite !without_lookup, lookup_delete.
  destruct (decide (k' ∈ ks)), (decide (k' ∈ k :: ks)), (decide (k = k')); set_solver.
Qed.

Lemma without_nil m : without [] m = m.
Proof. apply map_eq. intros k. rewrite without_lookup. by rewrite decide_False by set_solver. Qed.

Lemma without_perm ks ks' m : ks ≡ₚ ks' -> without ks m = without ks' m.
Proof.
  intros Hp. apply map_eq. intros k. rewrite !without_lookup.
  destruct (decide (k ∈ ks)) as [H|H], (decide (k ∈ ks')) as [H'|H']; try done;
    rewrite Hp in H; done.
Qed.

(** ** Data invariant *)

Section facts.
Context {M : Type} `{!KvMap M, !KvMapLaws M} `{!MapOrder}.

Implicit Types (m : MemoryEtcd M).

(** Every record has a history that fits the revision counter: it was created
    and last modified at revisions taken so far, no two records share a
    modification revision, and the version counts no more writes than there
    were revisions. *)
Record wf_data (d : M) (rev : Z) : Prop := {
  wd_map : wf_map d;
  wd_keyed : keyed (contents d);
  wd_rev : 0 <= rev <= int64_max;
  wd_kv k kv : contents d !! k = Some kv ->
    1 <= CreateRevision kv <= ModRevision kv /\ ModRevision kv <= rev /\
    1 <= Version kv <= ModRevision kv - CreateRevision kv + 1;
  wd_unique k k' kv kv' : contents d !! k = Some kv -> contents d !! k' = Some kv' ->
    ModRevision kv = ModRevision kv' -> k = k';
}.

Lemma wf_data_new : wf_data NewMap 0.
Proof.
  assert (He : forall k, contents NewMap !! k = @None KeyValue) by (intros; by rewrite contents_new, lookup_empty).
  split; [apply wf_new_map| |unfold_ints; lia|..].
  - rewrite contents_new. apply map_Forall_empty.
  - intros k kv Hk. by rewrite He in Hk.
  - intros k k' kv kv' Hk. by rewrite He in Hk.
Qed.

Lemma wf_data_rev d rev rev' : wf_data d rev -> rev <= rev' <= int64_max -> wf_data d rev'.
Proof.
  intros Hwf Hr. pose proof (wd_rev _ _ Hwf).
  split; [apply Hwf|apply Hwf|lia| |apply Hwf].
  intros k kv Hk. destruct (wd_kv _ _ Hwf k kv Hk) as (? & ? & ?). lia.
Qed.

(** Writing a record at a revision no other record has. *)
Lemma wf_data_write d rev r key value lease :
  wf_data d rev -> 1 <= r <= rev ->
  (forall k kv, contents d !! k = Some kv -> ModRevision kv <> r) ->
  (forall p, contents d !! key = Some p -> ModRevision p < r) ->
  wf_data (Set_ d key (nextKv (Get d key) key value lease r)) rev.
Proof.
  intros Hwf Hr Hfresh Hlt. pose proof (wd_rev _ _ Hwf). rewrite (Get_contents _ _ (wd_map _ _ Hwf)).
  set (kv := nextKv _ _ _ _ _).
  assert (Hmod : ModRevision kv = r) by (unfold kv, nextKv; by destruct (contents d !! key)).
  assert (Hkey : Key kv = key) by (unfold kv, nextKv; by destruct (contents d !! key)).
  assert (Hkv : 1 <= CreateRevision kv <= r /\ 1 <= Version kv <= r - CreateRevision kv + 1).
  { unfold kv, nextKv. destruct (contents d !! key) as [p|] eqn:E; simpl; [|lia].
    destruct (wd_kv _ _ Hwf _ _ E) as (? & ? & ?). specialize (Hlt p eq_refl).
    rewrite wrap_i64_id by (unfold_ints; lia). lia. }
  split; rewrite ?contents_Set by apply Hwf.
  - apply wf_Set, Hwf.
  - apply map_Forall_insert_2; [done|apply Hwf].
  - lia.
  - intros k kv' [[<- <-]|[_ Hk]]%lookup_insert_Some; [lia|].
    destruct (wd_kv _ _ Hwf _ _ Hk) as (? & ? & ?). lia.
  - intros k k' kv1 kv2. rewrite !lookup_insert_Some.
    intros [[<- <-]|[Hne Hk]] [[<- <-]|[Hne' Hk']] Heq; [done|..].
    + destruct (Hfresh _ _ Hk'). congruence.
    + destruct (Hfresh _ _ Hk). congruence.
    + by eapply (wd_unique _ _ Hwf).
Qed.

Lemma wf_data_put d rev key value lease :
  wf_data d rev -> rev + 1 <= int64_max ->
  wf_data (Set_ d key (nextKv (Get d key) key value lease (rev + 1))) (rev + 1).
Proof.
  intros Hwf Hr. pose proof (wd_rev _ _ Hwf).
  assert (Hold : forall k kv, contents d !! k = Some kv -> ModRevision kv < rev + 1).
  { intros k kv Hk. destruct (wd_kv _ _ Hwf k kv Hk) as (? & ? & ?). lia. }
  apply wf_data_write; [by apply (wf_data_rev _ rev); [|lia]|lia| |by apply Hold].
  intros k kv Hk. specialize (Hold k kv Hk). lia.
Qed.

Lemma wf_data_Delete d rev k : wf_data d rev -> wf_data (Delete d k) rev.
Proof.
  intros Hwf. split; rewrite ?contents_Delete by apply Hwf.
  - apply wf_Delete, Hwf.
  - apply map_Forall_delete, Hwf.
  - apply Hwf.
  - intros k' kv [_ Hk]%lookup_delete_Some. by apply (wd_kv _ _ Hwf _ _ Hk).
  - intros k1 k2 kv1 kv2 [_ H1]%lookup_delete_Some [_ H2]%lookup_delete_Some.
    by eapply (wd_unique _ _ Hwf).
Qed.

(** ** The whole state *)

Record wf_etcd m : Prop := {
  we_data : wf_data (kvData m) (revision m);
  we_leases id l : leases m !! id = Some l -> l_ID l = id;
  we_watches id sub : watches m !! id = Some sub ->
    ws_watchID sub = id /\ Z.of_nat (length (ws_eventCh sub)) <= eventChCap;
}.

Lemma wf_NewMemoryEtcd : wf_etcd NewMemoryEtcd.
Proof. split; simpl; [apply wf_data_new|done|done]. Qed.

Abbreviation data m := (contents (kvData m)).

(** A change to the watches that respects channels. *)
Definition sub_ok (sub : watchSubscription) : Prop := Z.of_nat (length (ws_eventCh sub)) <= eventChCap.

Lemma wf_watches_fmap m f :
  (forall sub, ws_watchID (f sub) = ws_watchID sub /\ (sub_ok sub -> sub_ok (f sub))) ->
  wf_etcd m -> wf_etcd (setWatches m (f <$> watches m)).
Proof.
  intros Hf [Hd Hl Hw]. split; [done|done|]. intros id sub Hs. simpl in Hs.
  rewrite lookup_fmap in Hs. destruct (watches m !! id) as [sub0|] eqn:E; simplify_eq/=.
  destruct (Hw _ _ E) as [<- Hok]. destruct (Hf sub0) as [? Hs]. split; [done|by apply Hs].
Qed.

Lemma wf_watches_alter m f id :
  (forall sub, ws_watchID (f sub) = ws_watchID sub /\ (sub_ok sub -> sub_ok (f sub))) ->
  wf_etcd m -> wf_etcd (setWatches m (alter f id (watches m))).
Proof.
  intros Hf [Hd Hl Hw]. split; [done|done|]. intros id' sub Hs. simpl in Hs.
  rewrite lookup_alter in Hs. case_decide as Hd'; [subst id'|by apply Hw].
  destruct (watches m !! id) as [sub0|] eqn:E; simplify_eq/=.
  destruct (Hw _ _ E) as [<- Hok]. destruct (Hf sub0) as [? Hs]. split; [done|by apply Hs].
Qed.

(** Appending under the test for room keeps the channel within its capacity. *)
Lemma sub_ok_send sub ev slow : hasRoom sub = true -> sub_ok (setEvents sub (ws_eventCh sub ++ [ev]) slow).
Proof. unfold hasRoom, sub_ok. simpl. rewrite length_app. simpl. intros Hr. bool_to_prop. lia. Qed.

Lemma notifySub_ok ev sub :
  ws_watchID (notifySub ev sub) = ws_watchID sub /\ (sub_ok sub -> sub_ok (notifySub ev sub)).
Proof.
  unfold notifySub. destruct (ws_closed sub); [done|]. case_match; [done|].
  destruct (shouldFilter _ _); [done|]. destruct (hasRoom sub) eqn:E; [|done].
  split; [done|]. intros _. by apply sub_ok_send.
Qed.

Lemma notifySubDirect_ok key kv t sub :
  ws_watchID (notifySubDirect key kv t sub) = ws_watchID sub /\
  (sub_ok sub -> sub_ok (notifySubDirect key kv t sub)).
Proof.
  unfold notifySubDirect. destruct (watchMatches sub key); [|done]. destruct (hasRoom sub) eqn:E; [|done].
  split; [done|]. intros _. by apply sub_ok_send.
Qed.

Lemma sendHistorical_ok kvs : forall sub,
  ws_watchID (sendHistorical kvs sub) = ws_watchID sub /\ (sub_ok sub -> sub_ok (sendHistorical kvs sub)).
Proof.
  induction kvs as [|p kvs IH]; intros sub; [done|]. cbn [sendHistorical fold_left].
  destruct (matchWatch p.1 (ws_key sub) (ws_rangeEnd sub) && hasRoom sub) eqn:E; [|apply IH].
  apply andb_true_iff in E as [_ E].
  destruct (IH (setEvents sub (ws_eventCh sub ++ [mkWatchEvent EventTypePut (Some p.2) None (ModRevision p.2)])
                  (ws_slow sub))) as [H1 H2].
  split; [exact H1|]. intros _. by apply H2, sub_ok_send.
Qed.

Lemma slowSend_ok i sub :
  ws_watchID (slowSend i sub) = ws_watchID sub /\ (sub_ok sub -> sub_ok (slowSend i sub)).
Proof.
  unfold slowSend. destruct (ws_slow sub !! i); [|done]. destruct (hasRoom sub) eqn:E; [|done].
  split; [done|]. intros _. by apply sub_ok_send.
Qed.

Lemma wf_notifyWatches m ev : wf_etcd m -> wf_etcd (notifyWatches m ev).
Proof. apply wf_watches_fmap. intros sub. apply notifySub_ok. Qed.

Lemma wf_notifyAll evs : forall m, wf_etcd m -> wf_etcd (fold_left notifyWatches evs m).
Proof. induction evs as [|ev evs IH]; intros m Hm; simpl; [done|]. by apply IH, wf_notifyWatches. Qed.

Lemma wf_notifyWatchers m key kv t : wf_etcd m -> wf_etcd (notifyWatchers m key kv t).
Proof. apply wf_watches_fmap. intros sub. apply notifySubDirect_ok. Qed.

(** Notifications change nothing but the watches. *)
Lemma notifyAll_data evs : forall m,
  kvData (fold_left notifyWatches evs m) = kvData m /\
  revision (fold_left notifyWatches evs m) = revision m /\
  leases (fold_left notifyWatches evs m) = leases m.
Proof. induction evs as [|ev evs IH]; intros m; simpl; [done|]. apply (IH (notifyWatches m ev)). Qed.

Lemma nextRevision_eq m n :
  wf_etcd m -> 1 <= n -> revision m + n <= int64_max -> nextRevision m = revision m + 1.
Proof.
  intros Hwf ? ?. pose proof (wd_rev _ _ (we_data _ Hwf)). apply wrap_i64_id. unfold_ints. lia.
Qed.

(** ** Leases *)

Lemma attachKey_lookup lid key ls id l' :
  attachKey lid key ls !! id = Some l' ->
  exists l, ls !! id = Some l /\ l_ID l' = l_ID l /\ l_TTL l' = l_TTL l /\ l_GrantTime l' = l_GrantTime l /\
    l_Keys l' = if decide (id = lid /\ lid <> 0) then <[key := true]> (l_Keys l) else l_Keys l.
Proof.
  unfold attachKey. destruct (Z.eqb_spec lid 0) as [->|Hz].
  - intros Hl. exists l'. rewrite decide_False by naive_solver. done.
  - destruct (ls !! lid) as [l|] eqn:E.
    + rewrite lookup_insert_Some. intros [[<- <-]|[Hne Hl]].
      * exists l. by rewrite decide_True.
      * exists l'. rewrite decide_False by naive_solver. done.
    + intros Hl. exists l'. rewrite decide_False by naive_solver. done.
Qed.

Lemma detachKey_lookup lid key ls id l' :
  detachKey lid key ls !! id = Some l' ->
  exists l, ls !! id = Some l /\ l_ID l' = l_ID l /\
    l_Keys l' = if decide (id = lid /\ lid <> 0) then delete key (l_Keys l) else l_Keys l.
Proof.
  unfold detachKey. destruct (Z.eqb_spec lid 0) as [->|Hz].
  - intros Hl. exists l'. rewrite decide_False by naive_solver. done.
  - destruct (ls !! lid) as [l|] eqn:E.
    + rewrite lookup_insert_Some. intros [[<- <-]|[Hne Hl]].
      * exists l. by rewrite decide_True.
      * exists l'. rewrite decide_False by naive_solver. done.
    + intros Hl. exists l'. rewrite decide_False by naive_solver. done.
Qed.

(** ** Puts *)

Lemma storeKv_spec m key value lid :
  wf_etcd m -> revision m + 1 <= int64_max ->
  let kv := nextKv (data m !! key) key value lid (revision m + 1) in
  exists m', storeKv m key value lid = (m', kv, data m !! key, revision m + 1) /\
    wf_etcd m' /\ data m' = <[key := kv]> (data m) /\ revision m' = revision m + 1 /\
    leases m' = attachKey lid key (leases m) /\ watches m' = watches m.
Proof.
  intros Hwf Hr kv. pose proof (wd_map _ _ (we_data _ Hwf)) as Hm. unfold storeKv.
  rewrite (nextRevision_eq m 1) by (done || lia). rewrite (Get_contents _ _ Hm). fold kv.
  eexists. split; [done|]. split_and!; simpl; try done; [|by apply contents_Set].
  split; simpl.
  - pose proof (wf_data_put _ _ key value lid (we_data _ Hwf) Hr) as Hp.
    by rewrite (Get_contents _ _ Hm) in Hp.
  - intros id l' (l & Hl & -> & _)%attachKey_lookup. by apply (we_leases _ Hwf).
  - apply Hwf.
Qed.

(** ** Which keys a range names *)

(** A range is one key if its end is empty; the same test as for a watch. *)
Lemma matchWatch_range key rangeEnd k :
  rangeEnd <> "" -> matchWatch k key rangeEnd = inKeyRange key rangeEnd k.
Proof. intros He. unfold matchWatch, inKeyRange. by destruct (String.eqb_spec rangeEnd ""). Qed.

Definition rangeRecords (d : gmap string KeyValue) (key rangeEnd : string) : list KeyValue :=
  if String.eqb rangeEnd "" then option_list (d !! key) else entriesIn d key rangeEnd.

Lemma elem_of_rangeRecords d key rangeEnd kv :
  keyed d ->
  kv ∈ rangeRecords d key rangeEnd <-> d !! Key kv = Some kv /\ matchWatch (Key kv) key rangeEnd = true.
Proof.
  intros Hk. unfold rangeRecords, matchWatch. destruct (String.eqb_spec rangeEnd "") as [->|He].
  - rewrite String.eqb_eq. destruct (d !! key) as [v|] eqn:E; simpl.
    + pose proof (Hk _ _ E) as Hkey. simpl in Hkey. rewrite list_elem_of_singleton. split.
      * intros ->. by rewrite Hkey.
      * intros [Hd Hkk]. congruence.
    + split; [by intros ?%elem_of_nil|]. intros [Hd Hkk]. congruence.
  - rewrite elem_of_entriesIn. unfold inKeyRange. split.
    + intros (k & Hd & Hr). pose proof (Hk _ _ Hd) as Hkey. simpl in Hkey. by rewrite Hkey.
    + intros [Hd Hr]. by exists (Key kv).
Qed.

Lemma applyLimit_0 {A} (l : list A) : applyLimit 0 l = l.
Proof. done. Qed.

Lemma selectRange_records m key rangeEnd limit :
  wf_etcd m ->
  selectRange m key rangeEnd limit =
    if String.eqb rangeEnd "" then option_list (data m !! key)
    else applyLimit limit (entriesIn (data m) key rangeEnd).
Proof.
  intros Hwf. unfold selectRange. destruct (String.eqb rangeEnd "").
  - by rewrite Get_contents by apply Hwf.
  - apply Range_contents; apply Hwf.
Qed.

(** The keys a deletion collects. *)
Lemma keysToDelete_eq m key rangeEnd :
  wf_etcd m ->
  (if String.eqb rangeEnd "" then (fun _ => key) <$> selectRange m key rangeEnd 0
   else Key <$> selectRange m key rangeEnd 0) = Key <$> rangeRecords (data m) key rangeEnd.
Proof.
  intros Hwf. rewrite selectRange_records by done. unfold rangeRecords.
  destruct (String.eqb rangeEnd ""); [|done].
  destruct (data m !! key) as [kv|] eqn:E; [|done]. cbn. f_equal. symmetry.
  by apply (wd_keyed _ _ (we_data _ Hwf)).
Qed.

Lemma rangeRecords_keys d key rangeEnd k :
  keyed d ->
  k ∈ Key <$> rangeRecords d key rangeEnd <-> is_Some (d !! k) /\ matchWatch k key rangeEnd = true.
Proof.
  intros Hk. rewrite list_elem_of_fmap. setoid_rewrite elem_of_rangeRecords; [|done..]. split.
  - intros (kv & -> & Hd & Hm). split; [by eexists|done].
  - intros [[kv Hd] Hm]. pose proof (Hk _ _ Hd) as Hkey. simpl in Hkey. exists kv. by rewrite Hkey.
Qed.

Lemma rangeRecords_nodup d key rangeEnd : keyed d -> NoDup (Key <$> rangeRecords d key rangeEnd).
Proof.
  intros Hk. unfold rangeRecords. destruct (String.eqb rangeEnd "").
  - destruct (d !! key); cbn; [apply NoDup_singleton|constructor].
  - induction (entriesIn_sorted d key rangeEnd Hk) as [|p l _ IH Hall]; cbn; constructor; [|done].
    intros (q & Hq & Hin)%list_elem_of_fmap. rewrite Forall_forall in Hall. specialize (Hall _ Hin).
    by rewrite Hq, str_ltb_irrefl in Hall.
Qed.

(** What is left when the range is deleted. *)
Definition outside (key rangeEnd : string) (d : gmap string KeyValue) : gmap string KeyValue :=
  filter (fun p => matchWatch p.1 key rangeEnd = false) d.

Lemma without_range d key rangeEnd :
  keyed d -> without (Key <$> rangeRecords d key rangeEnd) d = outside key rangeEnd d.
Proof.
  intros Hk. apply map_eq. intros k. rewrite without_lookup. unfold outside.
  apply option_eq. intros kv. rewrite map_lookup_filter_Some. simpl.
  case_decide as Hd; rewrite (rangeRecords_keys _ _ _ _ Hk) in Hd.
  - destruct Hd as [_ Hm]. rewrite Hm. naive_solver.
  - split; [|naive_solver]. intros Hkv. split; [done|].
    destruct (matchWatch k key rangeEnd); [|done]. destruct Hd. split; [by eexists|done].
Qed.

(** ** Deletions *)

Lemma removeKey_spec m k prev :
  wf_etcd m ->
  wf_etcd (removeKey m k prev) /\ data (removeKey m k prev) = delete k (data m) /\
  revision (removeKey m k prev) = revision m /\ watches (removeKey m k prev) = watches m.
Proof.
  intros Hwf. split_and!; [|apply contents_Delete, Hwf|done|done]. split; simpl.
  - apply wf_data_Delete, Hwf.
  - intros id l'. destruct prev as [p|]; [|apply Hwf].
    intros (l & Hl & -> & _)%detachKey_lookup. by apply (we_leases _ Hwf).
  - apply Hwf.
Qed.

Lemma deleteLoop_spec keys rev : forall m,
  wf_etcd m ->
  let m' := (deleteLoop m keys rev).1 in
  wf_etcd m' /\ data m' = without keys (data m) /\ revision m' = revision m /\ watches m' = watches m.
Proof.
  induction keys as [|k keys IH]; intros m Hwf; simpl.
  { by rewrite without_nil. }
  destruct (removeKey_spec m k (Get (kvData m) k) Hwf) as (Hwf' & Hd & Hr & Hw).
  specialize (IH _ Hwf'). destruct (deleteLoop _ keys rev) as [m' evs]. simpl in *.
  destruct IH as (? & -> & -> & ->). rewrite Hd, without_cons. done.
Qed.

Lemma wf_setRevision m rev :
  wf_etcd m -> revision m <= rev <= int64_max -> wf_etcd (setData m (kvData m) rev (leases m)).
Proof.
  intros Hwf Hr. split; simpl; [|apply Hwf|apply Hwf]. by eapply wf_data_rev; [apply Hwf|].
Qed.

Lemma deleteUnlockedEvents_spec m key rangeEnd :
  wf_etcd m -> revision m + 1 <= int64_max ->
  let rs := rangeRecords (data m) key rangeEnd in
  exists m' evs,
    deleteUnlockedEvents m key rangeEnd =
      (m', (Z.of_nat (length rs), rs, revision m'), evs) /\
    wf_etcd m' /\ data m' = outside key rangeEnd (data m) /\
    revision m' = (match rs with [] => revision m | _ => revision m + 1 end) /\
    watches m' = watches m /\ (rs = [] -> m' = m /\ evs = []).
Proof.
  intros Hwf Hr rs. unfold deleteUnlockedEvents.
  pose proof (wd_keyed _ _ (we_data _ Hwf)) as Hk.
  assert (Hsel : selectRange m key rangeEnd 0 = rs).
  { rewrite selectRange_records by done. unfold rs, rangeRecords. by destruct (String.eqb rangeEnd ""). }
  rewrite (keysToDelete_eq m key rangeEnd Hwf). rewrite Hsel. fold rs.
  pose proof (without_range _ key rangeEnd Hk) as Hout. fold rs in Hout.
  destruct rs as [|kv rs'] eqn:Ers.
  - cbn. exists m, []. split_and!; try done. by rewrite <- Hout, without_nil.
  - cbn [fmap list_fmap]. rewrite (nextRevision_eq m 1) by (done || lia).
    pose proof (wf_setRevision m (revision m + 1) Hwf ltac:(lia)) as Hwf1.
    pose proof (deleteLoop_spec (Key <$> (kv :: rs')) (revision m + 1) _ Hwf1) as Hl.
    cbn [fmap list_fmap] in Hl, Hout.
    destruct (deleteLoop _ (Key kv :: _) (revision m + 1)) as [m' evs].
    simpl in Hl. destruct Hl as (? & Hd & Hrev & Hw). exists m', evs.
    split_and!; [|done|by rewrite Hd|done|done|done].
    rewrite Hrev. simpl length. by rewrite length_fmap.
Qed.

(** One deletion on the direct path. *)
Lemma deleteOneDirect_spec m k kv :
  wf_etcd m -> revision m + 1 <= int64_max ->
  wf_etcd (deleteOneDirect m k kv) /\ data (deleteOneDirect m k kv) = delete k (data m) /\
  revision (deleteOneDirect m k kv) = revision m + 1.
Proof.
  intros Hwf Hr. unfold deleteOneDirect. rewrite (nextRevision_eq m 1) by (done || lia).
  pose proof (wf_setRevision m (revision m + 1) Hwf ltac:(lia)) as Hwf1.
  destruct (removeKey_spec _ k (Some kv) Hwf1) as (Hwf2 & Hd & Hrev & _).
  split_and!; [by apply wf_notifyWatchers|done|done].
Qed.

Lemma deleteDirect_loop kvs : forall m,
  wf_etcd m -> revision m + Z.of_nat (length kvs) <= int64_max ->
  let m' := fold_left (fun m kv => deleteOneDirect m (Key kv) kv) kvs m in
  wf_etcd m' /\ data m' = without (Key <$> kvs) (data m) /\
  revision m' = revision m + Z.of_nat (length kvs).
Proof.
  induction kvs as [|kv kvs IH]; intros m Hwf Hr; simpl.
  { rewrite without_nil. split_and!; [done|done|lia]. }
  simpl length in Hr. destruct (deleteOneDirect_spec m (Key kv) kv Hwf ltac:(lia)) as (Hwf' & Hd & Hrev).
  destruct (IH _ Hwf' ltac:(lia)) as (? & -> & ->). rewrite Hd, Hrev.
  change (list_fmap KeyValue string Key kvs) with (Key <$> kvs). rewrite without_cons.
  split_and!; [done|done|lia].
Qed.

Lemma deleteDirect_spec m key rangeEnd :
  wf_etcd m ->
  let rs := rangeRecords (data m) key rangeEnd in
  revision m + Z.of_nat (length rs) <= int64_max ->
  exists m', deleteDirect m key rangeEnd = (m', (Z.of_nat (length rs), rs, revision m')) /\
    wf_etcd m' /\ data m' = outside key rangeEnd (data m) /\
    revision m' = revision m + Z.of_nat (length rs) /\ (rs = [] -> m' = m).
Proof.
  intros Hwf rs Hr. pose proof (wd_keyed _ _ (we_data _ Hwf)) as Hk.
  pose proof (without_range _ key rangeEnd Hk) as Hout. fold rs in Hout. unfold deleteDirect.
  assert (Hid : rs = [] -> data m = outside key rangeEnd (data m)).
  { intros Hrs. rewrite <- Hout, Hrs. symmetry. apply without_nil. }
  unfold rs, rangeRecords in *. destruct (String.eqb rangeEnd "").
  - rewrite Get_contents by apply Hwf. destruct (data m !! key) as [kv|] eqn:E; simpl in *.
    + destruct (deleteOneDirect_spec m key kv Hwf ltac:(lia)) as (Hwf' & Hd & Hrev).
      exists (deleteOneDirect m key kv). split; [reflexivity|]. split_and!; [done| |done|done]. rewrite Hd, <- Hout.
      pose proof (Hk _ _ E) as Hkey. simpl in Hkey. by rewrite Hkey, without_cons, without_nil.
    + exists m. split_and!; [done|done|by apply Hid|lia|done].
  - rewrite Range_contents by apply Hwf. rewrite applyLimit_0.
    destruct (entriesIn (data m) key rangeEnd) as [|kv kvs] eqn:E.
    + exists m. split_and!; [done|done|by apply Hid|simpl; lia|done].
    + destruct (deleteDirect_loop (kv :: kvs) m Hwf Hr) as (? & Hd & Hrev).
      eexists. split; [done|]. split_and!; [done|by rewrite Hd|done|done].
Qed.

End facts.
