(* ===== verification/EtcdOps.v ===== *)
(** * All operations of [MemoryEtcd] preserve its invariants

    [EtcdOp] lists every operation that changes the state, the steps of the
    watch channels included; [apply] runs one. *)

From S2P Require Import Prelude GoBytes OrderedTree KvTypes ShardedMap MemoryEtcd EtcdFacts.

Inductive EtcdOp :=
  | OPut (key value : string) (leaseID : Z)
  | ODeleteRange (key rangeEnd : string)
  | OTxn (cmps : list Compare) (thenOps elseOps : list Op)
  | OLeaseGrant (id ttl : Z)
  | OLeaseRevoke (id : Z)
  | OLeaseRenew (id : Z)
  | OCompact (rev : Z)
  | OWatch (key rangeEnd : string) (startRevision watchID : Z) (opts : option WatchOptions)
  | OHistory (watchID : Z)
  | OCancelWatch (watchID : Z)
  | OSlowSend (watchID : Z) (i : nat)
  | OSlowTimeout (watchID : Z)
  | OReceive (watchID : Z)
  | OPutDirect (key value : string) (leaseID : Z)
  | ODeleteDirect (key rangeEnd : string)
  | OLeaseDirect (op : LeaseOp) (id ttl : Z).

(** The operations of the client API, as opposed to the ones that apply
    committed Raft entries. *)
Definition isApi (o : EtcdOp) : bool :=
  match o with OPutDirect _ _ _ | ODeleteDirect _ _ | OLeaseDirect _ _ _ => false | _ => true end.

Section ops.
Context {M : Type} `{!KvMap M, !KvMapLaws M} `{!MapOrder}.

Implicit Types (m : MemoryEtcd M).

Abbreviation data m := (contents (kvData m)).

Definition apply (now : Z) m (o : EtcdOp) : MemoryEtcd M :=
  match o with
  | OPut key value leaseID => (PutWithLease now m key value leaseID).1
  | ODeleteRange key rangeEnd => (DeleteRange m key rangeEnd).1
  | OTxn cmps thenOps elseOps => (Txn now m cmps thenOps elseOps).1
  | OLeaseGrant id ttl => (LeaseGrant now m id ttl).1
  | OLeaseRevoke id => (LeaseRevoke m id).1
  | OLeaseRenew id => (LeaseRenew now m id).1
  | OCompact rev => (Compact m rev).1
  | OWatch key rangeEnd start id opts => (WatchWithOptions m key rangeEnd start id opts).1
  | OHistory id => sendHistoricalEvents m id
  | OCancelWatch id => (CancelWatch m id).1
  | OSlowSend id i => slowSendEvent m id i
  | OSlowTimeout id => slowSendTimeout m id
  | OReceive id => (receive m id).1
  | OPutDirect key value leaseID => (putDirect m key value leaseID).1
  | ODeleteDirect key rangeEnd => (deleteDirect m key rangeEnd).1
  | OLeaseDirect op id ttl => applyLeaseOperationDirect now m op id ttl
  end.

(** How many revisions an operation can take. *)
Definition cost m (o : EtcdOp) : Z :=
  match o with
  | OTxn _ thenOps elseOps => Z.of_nat (length thenOps + length elseOps)
  | OLeaseRevoke id | OLeaseDirect _ id _ =>
      match leases m !! id with Some l => Z.of_nat (size (l_Keys l)) | None => 0 end
  | ODeleteDirect key rangeEnd => Z.of_nat (length (rangeRecords (data m) key rangeEnd))
  | _ => 1
  end.

(** ** Revocation *)

Definition isKey (d : gmap string KeyValue) (k : string) : bool :=
  match d !! k with Some _ => true | None => false end.

(** The keys of a list that are in the map. *)
Definition existing (d : gmap string KeyValue) (keys : list string) : list string :=
  List.filter (isKey d) keys.

Lemma existing_delete d k keys : k ∉ keys -> existing (delete k d) keys = existing d keys.
Proof.
  intros Hk. unfold existing. apply filter_ext_in. intros k' Hin%list_elem_of_In. unfold isKey.
  by rewrite lookup_delete_ne by (intros ->; done).
Qed.

(** Each existing key of a list without duplicates leaves once. *)
Lemma size_without d keys :
  NoDup keys -> (size (without keys d) + length (existing d keys))%nat = size d.
Proof.
  revert d. induction keys as [|k keys IH]; intros d Hnd; simpl; [by rewrite without_nil, Nat.add_0_r|].
  apply NoDup_cons in Hnd as [Hnin Hnd]. rewrite without_cons.
  specialize (IH (delete k d) Hnd). rewrite existing_delete in IH by done.
  unfold existing in *. simpl. unfold isKey at 1. destruct (d !! k) as [kv|] eqn:E; simpl.
  - rewrite <- (insert_delete_id d k kv E) at 3. rewrite map_size_insert_None by apply lookup_delete_eq. lia.
  - by rewrite delete_id in * by done.
Qed.

Lemma revokeLoop_spec keys : forall m,
  wf_etcd m -> NoDup keys -> revision m + Z.of_nat (length keys) <= int64_max ->
  let m' := (revokeLoop m keys).1 in
  wf_etcd m' /\ data m' = without keys (data m) /\ leases m' = leases m /\ watches m' = watches m /\
  revision m' = revision m + Z.of_nat (length (existing (data m) keys)).
Proof.
  induction keys as [|k keys IH]; intros m Hwf Hnd Hr; simpl.
  { rewrite without_nil. split_and!; [done|done|done|done|lia]. }
  simpl length in Hr. apply NoDup_cons in Hnd as [Hnin Hnd].
  unfold existing. simpl. unfold isKey at 1.
  rewrite (Get_contents _ _ (wd_map _ _ (we_data _ Hwf))).
  destruct (data m !! k) as [kv|] eqn:E.
  - rewrite (nextRevision_eq m 1) by (done || lia).
    set (m1 := setData m (Delete (kvData m) k) (revision m + 1) (leases m)).
    assert (Hwf1 : wf_etcd m1).
    { split; simpl; [|apply Hwf|apply Hwf]. apply wf_data_Delete.
      eapply wf_data_rev; [apply Hwf|lia]. }
    assert (Hd : data m1 = delete k (data m)) by (apply contents_Delete, Hwf).
    specialize (IH m1 Hwf1 Hnd). simpl revision in IH. specialize (IH ltac:(lia)).
    destruct (revokeLoop m1 keys) as [m2 evs]. simpl in *. destruct IH as (? & -> & -> & -> & ->).
    rewrite Hd, <- without_cons, existing_delete by done. unfold existing. simpl length.
    split_and!; [done|done|done|done|lia].
  - destruct (IH m Hwf Hnd ltac:(lia)) as (? & -> & -> & -> & ->).
    rewrite without_cons, delete_id by done. done.
Qed.

Lemma lease_keys_length (l : LeaseInfo) : length (range_map (l_Keys l)).*1 = size (l_Keys l).
Proof. rewrite length_fmap, (Permutation_length (range_map_perm _)). apply length_map_to_list. Qed.

Lemma wf_setLeases m ls :
  wf_etcd m -> (forall id l, ls !! id = Some l -> l_ID l = id) -> wf_etcd (setLeases m ls).
Proof. intros Hwf Hl. split; [apply Hwf|done|apply Hwf]. Qed.

Lemma LeaseRevoke_spec m id l :
  wf_etcd m -> leases m !! id = Some l -> revision m + Z.of_nat (size (l_Keys l)) <= int64_max ->
  let keys := (range_map (l_Keys l)).*1 in
  exists m', LeaseRevoke m id = (m', Ok tt) /\ wf_etcd m' /\ data m' = without keys (data m) /\
    leases m' = delete id (leases m) /\
    revision m' = revision m + Z.of_nat (length (existing (data m) keys)).
Proof.
  intros Hwf Hl Hr keys. unfold LeaseRevoke. rewrite Hl.
  assert (Hnd : NoDup keys) by apply range_map_nodup.
  destruct (revokeLoop_spec keys m Hwf Hnd) as (Hwf1 & Hd & Hls & _ & Hrev);
    [by unfold keys; rewrite lease_keys_length|].
  fold keys. destruct (revokeLoop m keys) as [m1 evs]. simpl in *.
  eexists. split; [done|].
  destruct (notifyAll_data evs (setLeases m1 (delete id (leases m1)))) as (Hd2 & Hr2 & Hl2).
  rewrite Hd2, Hr2, Hl2. simpl. split_and!; [|done|by rewrite Hls|done].
  apply wf_notifyAll, wf_setLeases; [done|]. intros id' l'. rewrite Hls.
  intros [_ Hl']%lookup_delete_Some. by apply (we_leases _ Hwf).
Qed.

Lemma revokeDirect_loop keys : forall m,
  wf_etcd m -> NoDup keys -> revision m + Z.of_nat (length keys) <= int64_max ->
  let m' := fold_left (fun m key => (deleteDirect m key "").1) keys m in
  wf_etcd m' /\ data m' = without keys (data m) /\
  revision m' = revision m + Z.of_nat (length (existing (data m) keys)).
Proof.
  induction keys as [|k keys IH]; intros m Hwf Hnd Hr; simpl.
  { rewrite without_nil. split_and!; [done|done|lia]. }
  simpl length in Hr. apply NoDup_cons in Hnd as [Hnin Hnd].
  pose proof (deleteDirect_spec m k "" Hwf) as Hs. simpl in Hs.
  assert (Hlen : rangeRecords (data m) k "" = option_list (data m !! k)) by done.
  destruct Hs as (m' & Hm' & Hwf' & Hd & Hrev & _);
    [rewrite Hlen; destruct (data m !! k); simpl; lia|].
  rewrite Hm'. simpl.
  assert (Hout : outside k "" (data m) = delete k (data m)).
  { rewrite <- without_range by apply Hwf. rewrite Hlen. destruct (data m !! k) as [kv|] eqn:E; cbn.
    - pose proof (wd_keyed _ _ (we_data _ Hwf) _ _ E) as Hkey. simpl in Hkey.
      by rewrite Hkey, without_cons, without_nil.
    - by rewrite without_nil, delete_id. }
  destruct (IH m' Hwf' Hnd) as (? & -> & ->);
    [rewrite Hrev, Hlen; destruct (data m !! k); simpl; lia|].
  rewrite Hd, Hout, without_cons, existing_delete, Hrev, Hlen by done.
  split_and!; [done|done|]. unfold existing. simpl. unfold isKey at 2.
  destruct (data m !! k); simpl; lia.
Qed.

(** ** Transactions *)

Lemma txnOp_spec now m op :
  wf_etcd m -> revision m + 1 <= int64_max ->
  wf_etcd (txnOp now m op).1 /\ revision m <= revision (txnOp now m op).1 <= revision m + 1 /\
  watches (txnOp now m op).1 = watches m.
Proof.
  intros Hwf Hr. unfold txnOp. destruct (op_Type op); try (split_and!; [done|simpl; lia..|done]).
  - unfold putUnlocked. cbn zeta.
    destruct (storeKv_spec m (op_Key op) (op_Value op) (op_LeaseID op) Hwf Hr)
      as (m' & -> & Hwf' & _ & Hrev & _ & Hw).
    destruct (op_LeaseID op =? 0); [simpl; split_and!; [done|lia..|done]|].
    destruct (leases m !! op_LeaseID op) as [l|]; [|simpl; split_and!; [done|lia..|done]].
    destruct (IsExpired now (Some l)); simpl; (split_and!; [done|lia..|done]).
  - unfold deleteUnlocked.
    destruct (deleteUnlockedEvents_spec m (op_Key op) (op_RangeEnd op) Hwf Hr)
      as (m' & evs & -> & Hwf' & _ & Hrev & Hw & _). simpl.
    split_and!; [done|destruct (rangeRecords _ _ _); lia..|done].
Qed.

Lemma txnOps_spec now ops : forall m,
  wf_etcd m -> revision m + Z.of_nat (length ops) <= int64_max ->
  wf_etcd (txnOps now m ops).1 /\
  revision m <= revision (txnOps now m ops).1 <= revision m + Z.of_nat (length ops) /\
  watches (txnOps now m ops).1 = watches m.
Proof.
  induction ops as [|op ops IH]; intros m Hwf Hr; cbn [txnOps length] in *.
  { split_and!; [done|simpl; lia..|done]. }
  destruct (txnOp_spec now m op Hwf ltac:(lia)) as (Hwf1 & Hr1 & Hw1).
  destruct (txnOp now m op) as [m1 [resp|e]]; simpl in *; [|split_and!; [done|lia..|done]].
  destruct (IH m1 Hwf1 ltac:(lia)) as (Hwf2 & Hr2 & Hw2).
  destruct (txnOps now m1 ops) as [m2 rs]. simpl in *. split_and!; [done|lia..|congruence].
Qed.

Lemma Txn_wf now m cmps thenOps elseOps :
  wf_etcd m -> revision m + Z.of_nat (length thenOps + length elseOps) <= int64_max ->
  wf_etcd (Txn now m cmps thenOps elseOps).1 /\ revision m <= revision (Txn now m cmps thenOps elseOps).1.
Proof.
  intros Hwf Hr. unfold Txn, txnUnlocked.
  destruct (txnOps_spec now (if forallb (evaluateCompare m) cmps then thenOps else elseOps) m Hwf)
    as (Hwf' & Hr' & _); [destruct (forallb _ _); lia|].
  destruct (txnOps now m _) as [m' rs]. simpl in *. split; [done|lia].
Qed.

(** ** Every operation *)

Lemma PutWithLease_wf now m key value lid :
  wf_etcd m -> revision m + 1 <= int64_max ->
  wf_etcd (PutWithLease now m key value lid).1 /\ revision m <= revision (PutWithLease now m key value lid).1.
Proof.
  intros Hwf Hr. unfold PutWithLease. cbn zeta.
  destruct (storeKv_spec m key value lid Hwf Hr) as (m' & -> & Hwf' & _ & Hrev & _ & _).
  assert (Hput : forall ev, wf_etcd (notifyWatches m' ev) /\ revision m <= revision m')
    by (intros; split; [by apply wf_notifyWatches|lia]).
  destruct (lid =? 0); [apply Hput|]. destruct (leases m !! lid) as [l|]; [|by split].
  destruct (IsExpired now (Some l)); [by split|apply Hput].
Qed.

Lemma wf_insertWatch m id sub :
  wf_etcd m -> ws_watchID sub = id -> sub_ok sub -> wf_etcd (setWatches m (<[id := sub]> (watches m))).
Proof.
  intros Hwf Hid Hok. split; [apply Hwf|apply Hwf|]. intros id' sub'. simpl.
  rewrite lookup_insert_Some. intros [[<- <-]|[_ Hs]]; [done|by apply (we_watches _ Hwf)].
Qed.

Lemma CancelWatch_wf m id : wf_etcd m -> wf_etcd (CancelWatch m id).1 /\ revision (CancelWatch m id).1 = revision m.
Proof.
  intros Hwf. unfold CancelWatch. destruct (watches m !! id) as [sub|]; [|done].
  destruct (ws_closed sub); [done|]. split; [|done]. split; [apply Hwf|apply Hwf|].
  intros id' sub'. simpl. intros [_ Hs]%lookup_delete_Some. by apply (we_watches _ Hwf).
Qed.

Lemma apply_wf now m o :
  wf_etcd m -> revision m + cost m o <= int64_max ->
  wf_etcd (apply now m o) /\ revision m <= revision (apply now m o).
Proof.
  intros Hwf Hc. destruct o; cbn [apply cost] in *.
  - by apply PutWithLease_wf.
  - destruct (deleteUnlockedEvents_spec m key rangeEnd Hwf Hc) as (m' & evs & Hd & Hwf' & _ & Hrev & _).
    unfold DeleteRange. rewrite Hd. simpl. destruct (notifyAll_data evs m') as (_ & -> & _).
    split; [by apply wf_notifyAll|]. destruct (rangeRecords _ _ _); lia.
  - by apply Txn_wf.
  - unfold LeaseGrant. destruct (leases m !! id) as [l|] eqn:E; [done|]. split; [|done].
    apply wf_setLeases; [done|]. intros id' l'. rewrite lookup_insert_Some.
    intros [[<- <-]|[_ Hl]]; [done|by apply (we_leases _ Hwf)].
  - destruct (leases m !! id) as [l|] eqn:E; [|unfold LeaseRevoke; by rewrite E].
    destruct (LeaseRevoke_spec m id l Hwf E Hc) as (m' & -> & Hwf' & _ & _ & Hrev).
    split; [done|]. simpl. lia.
  - unfold LeaseRenew. destruct (leases m !! id) as [l|] eqn:E; [|done]. split; [|done].
    apply wf_setLeases; [done|]. intros id' l'. rewrite lookup_insert_Some.
    intros [[<- <-]|[_ Hl]]; [exact (we_leases _ Hwf id l E)|by apply (we_leases _ Hwf)].
  - done.
  - unfold WatchWithOptions. destruct (watches m !! watchID); [done|]. split; [|done].
    by apply wf_insertWatch.
  - split; [|done]. apply wf_watches_alter; [|done]. intros sub. apply sendHistorical_ok.
  - destruct (CancelWatch_wf m watchID Hwf) as [? ->]. done.
  - split; [|done]. apply wf_watches_alter; [|done]. intros sub. apply slowSend_ok.
  - unfold slowSendTimeout. destruct (CancelWatch_wf m watchID Hwf) as [? ->]. done.
  - unfold receive. destruct (watches m !! watchID) as [sub|] eqn:E; [|done].
    destruct (ws_eventCh sub) as [|ev ch] eqn:Ech; [done|]. split; [|done].
    destruct (we_watches _ Hwf _ _ E) as [Hid Hlen]. apply wf_insertWatch; [done|done|].
    rewrite Ech in Hlen. unfold sub_ok. simpl in *. lia.
  - unfold putDirect. destruct (storeKv_spec m key value leaseID Hwf Hc) as (m' & -> & Hwf' & _ & Hrev & _).
    simpl. split; [by apply wf_notifyWatchers|lia].
  - destruct (deleteDirect_spec m key rangeEnd Hwf Hc) as (m' & -> & Hwf' & _ & Hrev & _).
    simpl. split; [done|lia].
  - destruct op; simpl.
    + split; [|done]. apply wf_setLeases; [done|]. intros id' l'. rewrite lookup_insert_Some.
      intros [[<- <-]|[_ Hl]]; [done|by apply (we_leases _ Hwf)].
    + destruct (leases m !! id) as [l|] eqn:E; [|done].
      assert (Hwf1 : wf_etcd (setLeases m (delete id (leases m)))).
      { apply wf_setLeases; [done|]. intros id' l' [_ Hl]%lookup_delete_Some. by apply (we_leases _ Hwf). }
      destruct (revokeDirect_loop (range_map (l_Keys l)).*1 _ Hwf1) as (? & _ & ->);
        [apply range_map_nodup|by rewrite lease_keys_length|]. simpl. split; [done|lia].
Qed.

End ops.
