(* ===== verification/EtcdTheorems.v ===== *)
(** * Properties of the etcd-style store

    Stated for any implementation of the [KvMap] interface; the concrete runs
    use the sharded map of the code. *)

From S2P Require Import Prelude GoBytes OrderedTree KvTypes ShardedMap MemoryEtcd EtcdFacts EtcdOps.

Section theorems.
Context {M : Type} `{!KvMap M, !KvMapLaws M} `{!MapOrder}.

Implicit Types (m : MemoryEtcd M).

Abbreviation data m := (contents (kvData m)).

(** ** Runs *)

Fixpoint runOps m (ops : list (Z * EtcdOp)) : MemoryEtcd M :=
  match ops with
  | [] => m
  | (now, o) :: ops' => runOps (apply now m o) ops'
  end.

(** The revision counter does not run out. *)
Fixpoint bounded m (ops : list (Z * EtcdOp)) : Prop :=
  match ops with
  | [] => True
  | (now, o) :: ops' => revision m + cost m o <= int64_max /\ bounded (apply now m o) ops'
  end.

Lemma runOps_wf ops : forall m,
  wf_etcd m -> bounded m ops -> wf_etcd (runOps m ops) /\ revision m <= revision (runOps m ops).
Proof.
  induction ops as [|[now o] ops IH]; intros m Hwf Hb; simpl; [done|].
  destruct Hb as [Hc Hb]. destruct (apply_wf now m o Hwf Hc) as [Hwf' Hr].
  destruct (IH _ Hwf' Hb). split; [done|lia].
Qed.

(** ** Leases and the keys attached to them *)

(** Every record that names a lease is in the key set of that lease. *)
Definition attached m : Prop :=
  forall k kv, data m !! k = Some kv -> Lease kv <> 0 ->
    exists l, leases m !! Lease kv = Some l /\ is_Some (l_Keys l !! k).

Lemma attachKey_mono lid key ls id l :
  ls !! id = Some l ->
  exists l', attachKey lid key ls !! id = Some l' /\
    (forall k, is_Some (l_Keys l !! k) -> is_Some (l_Keys l' !! k)) /\
    (id = lid -> lid <> 0 -> is_Some (l_Keys l' !! key)).
Proof.
  intros Hl. unfold attachKey. destruct (Z.eqb_spec lid 0); [exists l; naive_solver|].
  destruct (ls !! lid) as [l0|] eqn:E; [|exists l; naive_solver].
  rewrite lookup_insert. case_decide as Hd; [subst id|exists l; naive_solver].
  rewrite Hl in E. inv E. eexists. split; [done|]. simpl. split.
  - intros k Hk. rewrite lookup_insert. case_decide; [by eexists|done].
  - intros _ _. rewrite lookup_insert. rewrite decide_True by done. by eexists.
Qed.

Lemma detachKey_mono lid key ls id l :
  ls !! id = Some l ->
  exists l', detachKey lid key ls !! id = Some l' /\
    forall k, k <> key -> is_Some (l_Keys l !! k) -> is_Some (l_Keys l' !! k).
Proof.
  intros Hl. unfold detachKey. destruct (lid =? 0); [by exists l|].
  destruct (ls !! lid) as [l0|] eqn:E; [|by exists l].
  rewrite lookup_insert. case_decide as Hd; [subst id|by exists l].
  rewrite Hl in E. inv E. eexists. split; [done|]. simpl.
  intros k Hne Hk. by rewrite lookup_delete_ne.
Qed.

Lemma attached_store m key value lid :
  wf_etcd m -> revision m + 1 <= int64_max -> attached m ->
  (lid <> 0 -> is_Some (leases m !! lid)) -> attached (storeKv m key value lid).1.1.1.
Proof.
  intros Hwf Hr Ha Hlid.
  destruct (storeKv_spec m key value lid Hwf Hr) as (m' & -> & _ & Hd & _ & Hls & _). simpl.
  intros k kv Hk Hne. rewrite Hd in Hk. rewrite Hls.
  apply lookup_insert_Some in Hk as [[<- <-]|[Hkk Hk]].
  - assert (Hl : Lease (nextKv (data m !! key) key value lid (revision m + 1)) = lid)
      by (unfold nextKv; by destruct (data m !! key)).
    rewrite Hl in *. destruct (Hlid Hne) as [l Hl0].
    destruct (attachKey_mono lid key _ _ _ Hl0) as (l' & ? & _ & ?). exists l'. auto.
  - destruct (Ha k kv Hk Hne) as (l & Hl & Hkey).
    destruct (attachKey_mono lid key _ _ _ Hl) as (l' & ? & ? & _). exists l'. auto.
Qed.

Lemma attached_remove m k : wf_etcd m -> attached m -> attached (removeKey m k (data m !! k)).
Proof.
  intros Hwf Ha k' kv Hk Hne. destruct (removeKey_spec m k (data m !! k) Hwf) as (_ & Hd & _).
  rewrite Hd in Hk. apply lookup_delete_Some in Hk as [Hkk Hk].
  destruct (Ha k' kv Hk Hne) as (l & Hl & Hkey). simpl.
  destruct (data m !! k) as [p|]; [|by exists l].
  destruct (detachKey_mono (Lease p) k _ _ _ Hl) as (l' & ? & Hm). exists l'. split; [done|].
  by apply Hm.
Qed.

Lemma attached_deleteLoop keys rev : forall m,
  wf_etcd m -> attached m -> attached (deleteLoop m keys rev).1.
Proof.
  induction keys as [|k keys IH]; intros m Hwf Ha; simpl; [done|].
  rewrite (Get_contents _ _ (wd_map _ _ (we_data _ Hwf))).
  destruct (removeKey_spec m k (data m !! k) Hwf) as (Hwf' & _).
  specialize (IH _ Hwf' (attached_remove m k Hwf Ha)).
  by destruct (deleteLoop _ keys rev) as [m' evs].
Qed.

Lemma attached_delete m key rangeEnd :
  wf_etcd m -> revision m + 1 <= int64_max -> attached m ->
  attached (deleteUnlockedEvents m key rangeEnd).1.1.
Proof.
  intros Hwf Hr Ha. unfold deleteUnlockedEvents. rewrite keysToDelete_eq by done.
  rewrite (nextRevision_eq m 1) by (done || lia).
  destruct (Key <$> rangeRecords (data m) key rangeEnd) as [|k keys]; [done|].
  pose proof (attached_deleteLoop (k :: keys) (revision m + 1) _
    (wf_setRevision m (revision m + 1) Hwf ltac:(lia)) Ha) as Hl.
  by destruct (deleteLoop _ (k :: keys) _) as [m' evs].
Qed.

(** Only the leases and the contents matter. *)
Lemma attached_same m m' : kvData m' = kvData m -> leases m' = leases m -> attached m -> attached m'.
Proof. intros Hd Hl Ha k kv. rewrite Hd, Hl. apply Ha. Qed.

Lemma attached_notifyAll evs m : attached m -> attached (fold_left notifyWatches evs m).
Proof. destruct (notifyAll_data evs m) as (Hd & _ & Hl). by apply attached_same. Qed.

Lemma attached_txnOp now m op :
  wf_etcd m -> revision m + 1 <= int64_max -> attached m -> attached (txnOp now m op).1.
Proof.
  intros Hwf Hr Ha. unfold txnOp. destruct (op_Type op); try done.
  - unfold putUnlocked. cbn zeta.
    pose proof (attached_store m (op_Key op) (op_Value op) (op_LeaseID op) Hwf Hr Ha) as Hs.
    destruct (storeKv m _ _ _) as [[[m' kv] prev] rev]. simpl in Hs.
    destruct (Z.eqb_spec (op_LeaseID op) 0); [by apply Hs|].
    destruct (leases m !! op_LeaseID op); [|done]. destruct (IsExpired now _); [done|].
    by apply Hs.
  - unfold deleteUnlocked. pose proof (attached_delete m (op_Key op) (op_RangeEnd op) Hwf Hr Ha) as Hs.
    by destruct (deleteUnlockedEvents m _ _) as [[m' [[n kvs] rev]] evs].
Qed.

Lemma attached_txnOps now ops : forall m,
  wf_etcd m -> revision m + Z.of_nat (length ops) <= int64_max -> attached m ->
  attached (txnOps now m ops).1.
Proof.
  induction ops as [|op ops IH]; intros m Hwf Hr Ha; [done|]. cbn [txnOps length] in *.
  pose proof (attached_txnOp now m op Hwf ltac:(lia) Ha) as Ha1.
  destruct (txnOp_spec now m op Hwf ltac:(lia)) as (Hwf1 & Hr1 & _).
  destruct (txnOp now m op) as [m1 [resp|e]]; simpl in *; [|done].
  specialize (IH m1 Hwf1 ltac:(lia) Ha1). by destruct (txnOps now m1 ops).
Qed.

Lemma attached_revoke m id :
  wf_etcd m -> revision m + cost m (OLeaseRevoke id) <= int64_max -> attached m ->
  attached (LeaseRevoke m id).1.
Proof.
  intros Hwf Hc Ha. simpl in Hc. destruct (leases m !! id) as [l|] eqn:E; [|unfold LeaseRevoke; by rewrite E].
  destruct (LeaseRevoke_spec m id l Hwf E Hc) as (m' & -> & _ & Hd & Hls & _). simpl.
  intros k kv Hk Hne. rewrite Hd, without_lookup in Hk. case_decide as Hin; [done|].
  destruct (Ha k kv Hk Hne) as (l' & Hl' & Hkey). exists l'. rewrite Hls. split; [|done].
  apply lookup_delete_Some. split; [|done]. intros ->. rewrite E in Hl'. inv Hl'.
  apply Hin. destruct Hkey as [b Hb]. apply list_elem_of_fmap. exists (k, b).
  split; [done|]. by apply elem_of_range_map.
Qed.

Lemma attached_apply now m o :
  isApi o = true -> wf_etcd m -> revision m + cost m o <= int64_max -> attached m ->
  attached (apply now m o).
Proof.
  intros Hapi Hwf Hc Ha. destruct o; try done; cbn [apply cost] in *.
  - unfold PutWithLease. cbn zeta. pose proof (attached_store m key value leaseID Hwf Hc Ha) as Hs.
    destruct (storeKv m key value leaseID) as [[[m' kv] prev] rev]. simpl in Hs.
    destruct (Z.eqb_spec leaseID 0); [by apply (attached_same m'), Hs|].
    destruct (leases m !! leaseID); [|done]. destruct (IsExpired now _); [done|].
    by apply (attached_same m'), Hs.
  - unfold DeleteRange. pose proof (attached_delete m key rangeEnd Hwf Hc Ha) as Hs.
    destruct (deleteUnlockedEvents m key rangeEnd) as [[m' res] evs]. by apply attached_notifyAll.
  - unfold Txn, txnUnlocked.
    pose proof (attached_txnOps now (if forallb (evaluateCompare m) cmps then thenOps else elseOps) m Hwf) as Hs.
    destruct (txnOps now m _) as [m' rs]. apply Hs; [destruct (forallb _ _); lia|done].
  - unfold LeaseGrant. destruct (leases m !! id) as [l|] eqn:E; [done|].
    intros k kv Hk Hne. destruct (Ha k kv Hk Hne) as (l & Hl & Hkey). exists l. simpl.
    split; [|done]. rewrite lookup_insert_ne; [done|]. intros ->. congruence.
  - by apply attached_revoke.
  - unfold LeaseRenew. destruct (leases m !! id) as [l|] eqn:E; [|done].
    intros k kv Hk Hne. destruct (Ha k kv Hk Hne) as (l0 & Hl & Hkey). simpl.
    rewrite lookup_insert. case_decide as Hd; [|by exists l0].
    subst id. rewrite E in Hl. inv Hl. eexists. split; [done|]. done.
  - unfold WatchWithOptions. by destruct (watches m !! watchID).
  - unfold CancelWatch. destruct (watches m !! watchID) as [sub|]; [|done]. by destruct (ws_closed sub).
  - unfold slowSendTimeout, CancelWatch. destruct (watches m !! watchID) as [sub|]; [|done].
    by destruct (ws_closed sub).
  - unfold receive. destruct (watches m !! watchID) as [sub|]; [|done]. by destruct (ws_eventCh sub).
Qed.

Lemma runOps_attached ops : forall m,
  forallb (fun p => isApi p.2) ops = true -> wf_etcd m -> bounded m ops -> attached m ->
  attached (runOps m ops).
Proof.
  induction ops as [|[now o] ops IH]; intros m Hapi Hwf Hb Ha; simpl; [done|].
  simpl in Hapi. apply andb_true_iff in Hapi as [Ho Hapi]. destruct Hb as [Hc Hb].
  apply IH; [done| |done|by apply attached_apply].
  by destruct (apply_wf now m o Hwf Hc).
Qed.

(** ** Properties *)

(** C21: after any sequence of operations, records are stored under their own
    keys, were created and last modified at revisions already taken, share no
    modification revision and have a version that fits them; watch channels
    never hold more than their capacity; the revision counter never decreases. *)
Theorem etcd_invariant m (ops : list (Z * EtcdOp)) (Hwf : wf_etcd m) (Hb : bounded m ops) :
  wf_etcd (runOps m ops) /\ revision m <= revision (runOps m ops).
Proof. by apply runOps_wf. Qed.

(** For a store driven through the client API, revoking a lease succeeds,
    removes the lease and every record that names it, takes one revision per
    removed key and leaves the keys that were never attached to it alone. *)
Theorem etcd_lease_revoke m (ops : list (Z * EtcdOp)) (id : Z) (l : LeaseInfo)
    (Hops : forallb (fun p => isApi p.2) ops = true) (Hb : bounded NewMemoryEtcd ops)
    (Hm : m = runOps NewMemoryEtcd ops) (Hid : id <> 0) (Hl : leases m !! id = Some l)
    (Hc : revision m + Z.of_nat (size (l_Keys l)) <= int64_max) :
  exists m', LeaseRevoke m id = (m', Ok tt) /\ leases m' !! id = None /\
    (forall k kv, Get (kvData m') k = Some kv -> Lease kv <> id) /\
    (forall k, l_Keys l !! k = None -> Get (kvData m') k = Get (kvData m) k) /\
    revision m' - revision m + Z.of_nat (size (data m')) = Z.of_nat (size (data m)).
Proof.
  destruct (runOps_wf ops NewMemoryEtcd wf_NewMemoryEtcd Hb) as [Hwf _]. rewrite <- Hm in Hwf.
  assert (Ha0 : attached NewMemoryEtcd) by (intros k kv; simpl; by rewrite contents_new, lookup_empty).
  pose proof (runOps_attached ops NewMemoryEtcd Hops wf_NewMemoryEtcd Hb Ha0) as Ha. rewrite <- Hm in Ha.
  destruct (LeaseRevoke_spec m id l Hwf Hl Hc) as (m' & Hm' & Hwf' & Hd & Hls & Hrev).
  assert (Hkeys : forall k, k ∈ (range_map (l_Keys l)).*1 <-> is_Some (l_Keys l !! k)).
  { intros k. rewrite list_elem_of_fmap. split.
    - intros ([k' b] & -> & Hin). apply elem_of_range_map in Hin. by eexists.
    - intros [b Hk]. exists (k, b). split; [done|]. by apply elem_of_range_map. }
  exists m'. split; [done|]. split_and!.
  - rewrite Hls. by rewrite lookup_delete, decide_True.
  - intros k kv. rewrite Get_contents by apply Hwf'. rewrite Hd, without_lookup.
    case_decide as Hin; [done|]. intros Hk Heq. apply Hin, Hkeys.
    destruct (Ha k kv Hk) as (l' & Hl' & Hkk); [congruence|]. rewrite Heq, Hl in Hl'. by inv Hl'.
  - intros k Hk. rewrite !Get_contents by (apply Hwf || apply Hwf').
    rewrite Hd, without_lookup. rewrite decide_False; [done|]. rewrite Hkeys, Hk. by intros [].
  - rewrite Hrev, Hd.
    pose proof (size_without (data m) _ (range_map_nodup (l_Keys l))). lia.
Qed.

(** A range query returns, in strictly increasing key order, the records whose
    keys it names, or the first [limit] of them; the count is the number of
    records returned and [More] is never set. *)
Theorem etcd_range_query m (key rangeEnd : string) (limit rev : Z) (Hwf : wf_etcd m) :
  let resp := RangeQuery m key rangeEnd limit rev in
  let all := rr_Kvs (RangeQuery m key rangeEnd 0 rev) in
  StronglySorted (fun p q => str_ltb (Key p) (Key q) = true) all /\
  (forall kv, kv ∈ all <->
     Get (kvData m) (Key kv) = Some kv /\ matchWatch (Key kv) key rangeEnd = true) /\
  rr_Kvs resp = (if limit >? 0 then take (Z.to_nat limit) all else all) /\
  rr_Count resp = Z.of_nat (length (rr_Kvs resp)) /\ rr_More resp = false /\
  rr_Revision resp = revision m.
Proof.
  pose proof (wd_keyed _ _ (we_data _ Hwf)) as Hk. unfold RangeQuery, rangeUnlocked. simpl.
  assert (Hall : selectRange m key rangeEnd 0 = rangeRecords (data m) key rangeEnd).
  { rewrite selectRange_records by done. unfold rangeRecords. by destruct (String.eqb rangeEnd ""). }
  assert (Hlim : selectRange m key rangeEnd limit =
    if limit >? 0 then take (Z.to_nat limit) (rangeRecords (data m) key rangeEnd)
    else rangeRecords (data m) key rangeEnd).
  { rewrite selectRange_records by done. unfold rangeRecords, applyLimit.
    destruct (Z.gtb_spec limit 0); simpl; [|by destruct (String.eqb rangeEnd "")].
    destruct (String.eqb rangeEnd "").
    - rewrite take_ge; [done|]. destruct (data m !! key); simpl; lia.
    - destruct (Z.gtb_spec (Z.of_nat (length (entriesIn (data m) key rangeEnd))) limit); [done|].
      rewrite take_ge; [done|lia]. }
  rewrite Hall, Hlim. set (rs := rangeRecords (data m) key rangeEnd).
  replace (limit >? 0) with (bool_decide (0 < limit)) in *
    by (destruct (Z.gtb_spec limit 0), (bool_decide_reflect (0 < limit)); lia).
  assert (Hno : bool_decide (0 < limit) &&
    (Z.of_nat (length (if bool_decide (0 < limit) then take (Z.to_nat limit) rs else rs)) >? limit) = false).
  { case_bool_decide; [|done]. simpl. rewrite Z.gtb_ltb. apply Z.ltb_ge. rewrite length_take. lia. }
  rewrite Hno. simpl. split_and!; try done.
  - unfold rs, rangeRecords. destruct (String.eqb rangeEnd ""); [|by apply entriesIn_sorted].
    destruct (data m !! key); simpl; by repeat constructor.
  - intros kv. rewrite Get_contents by apply Hwf. by apply elem_of_rangeRecords.
Qed.

(** A put with no lease, or with a lease that exists and has not expired, takes
    the next revision, returns the previous record and stores the new one over
    it; a put with any other lease fails and changes nothing. *)
Theorem etcd_put m (now : Z) (key value : string) (leaseID : Z)
    (Hwf : wf_etcd m) (Hr : revision m + 1 <= int64_max) :
  let '(m', res) := PutWithLease now m key value leaseID in
  if (leaseID =? 0) || negb (IsExpired now (leases m !! leaseID)) then
    res = Ok (revision m + 1, Get (kvData m) key) /\ revision m' = revision m + 1 /\
    Get (kvData m') key = Some
      match Get (kvData m) key with
      | Some p => mkKeyValue key value (CreateRevision p) (revision m + 1) (Version p + 1) leaseID
      | None => mkKeyValue key value (revision m + 1) (revision m + 1) 1 leaseID
      end /\
    forall k, k <> key -> Get (kvData m') k = Get (kvData m) k
  else
    m' = m /\ res = Err match leases m !! leaseID with
                        | Some _ => LeaseExpired leaseID | None => LeaseNotFound leaseID end.
Proof.
  pose proof (we_data _ Hwf) as Hwd. pose proof (wd_rev _ _ Hwd) as Hrev.
  unfold PutWithLease. cbn zeta.
  destruct (storeKv_spec m key value leaseID Hwf Hr) as (m' & -> & Hwf' & Hd & Hr' & _ & _).
  assert (Hput : Get (kvData m') key = Some
      match data m !! key with
      | Some p => mkKeyValue key value (CreateRevision p) (revision m + 1) (Version p + 1) leaseID
      | None => mkKeyValue key value (revision m + 1) (revision m + 1) 1 leaseID
      end /\ forall k, k <> key -> Get (kvData m') k = data m !! k).
  { split; [|intros k Hk]; rewrite Get_contents by apply Hwf'; rewrite Hd, lookup_insert.
    - rewrite decide_True by done. unfold nextKv. destruct (data m !! key) as [p|] eqn:E; [|done].
      destruct (wd_kv _ _ Hwd _ _ E) as (? & ? & ?). by rewrite wrap_i64_id by (unfold_ints; lia).
    - by rewrite decide_False. }
  destruct Hput as [Hp1 Hp2].
  assert (Hg : forall k, Get (kvData m) k = data m !! k) by (intros; apply Get_contents, Hwf).
  destruct (leaseID =? 0); cbn [orb].
  { rewrite !Hg. split_and!; [done|done|done|]. intros k Hk. rewrite Hg. by apply Hp2. }
  destruct (leases m !! leaseID) as [l|]; [|done].
  destruct (IsExpired now (Some l)); cbn [negb]; [done|].
  rewrite !Hg. split_and!; [done|done|done|]. intros k Hk. rewrite Hg. by apply Hp2.
Qed.

(** A deletion reports exactly the records a range query of the same range
    returns, removes them and nothing else, and takes one revision if there was
    any; the direct deletion of the Raft path has the same effect on the records
    but takes one revision per record. *)
Theorem etcd_delete_range m (key rangeEnd : string) (Hwf : wf_etcd m)
    (Hr : revision m + 1 + Z.of_nat (length (rangeRecords (data m) key rangeEnd)) <= int64_max) :
  let kvs := rr_Kvs (RangeQuery m key rangeEnd 0 0) in
  let n := Z.of_nat (length kvs) in
  let '(m1, (deleted1, prev1, rev1)) := DeleteRange m key rangeEnd in
  let '(m2, (deleted2, prev2, rev2)) := deleteDirect m key rangeEnd in
  deleted1 = n /\ prev1 = kvs /\ rev1 = revision m + (if n =? 0 then 0 else 1) /\
  deleted2 = n /\ prev2 = kvs /\ rev2 = revision m + n /\
  forall k, Get (kvData m1) k = (if matchWatch k key rangeEnd then None else Get (kvData m) k) /\
            Get (kvData m2) k = (if matchWatch k key rangeEnd then None else Get (kvData m) k).
Proof.
  set (rs := rangeRecords (data m) key rangeEnd) in *.
  assert (Hkvs : rr_Kvs (RangeQuery m key rangeEnd 0 0) = rs).
  { unfold RangeQuery, rangeUnlocked. simpl. rewrite selectRange_records by done.
    unfold rs, rangeRecords. by destruct (String.eqb rangeEnd ""). }
  rewrite Hkvs. cbn zeta.
  destruct (deleteUnlockedEvents_spec m key rangeEnd Hwf ltac:(lia))
    as (m1 & evs & H1 & Hwf1 & Hd1 & Hr1 & _). fold rs in H1, Hr1.
  destruct (deleteDirect_spec m key rangeEnd Hwf) as (m2 & H2 & Hwf2 & Hd2 & Hr2 & _);
    [fold rs; lia|]. fold rs in H2, Hr2.
  unfold DeleteRange. rewrite H1, H2.
  assert (Hout : forall k, outside key rangeEnd (data m) !! k =
    if matchWatch k key rangeEnd then None else data m !! k).
  { intros k. unfold outside. apply option_eq. intros kv. rewrite map_lookup_filter_Some. simpl.
    destruct (matchWatch k key rangeEnd); naive_solver. }
  destruct (notifyAll_data evs m1) as (Hdn & Hrn & _).
  split_and!; try done.
  - rewrite Hr1. destruct rs; simpl; [lia|]. destruct (Z.eqb_spec (Z.of_nat (S (length rs))) 0); lia.
  - intros k. rewrite Hdn, !Get_contents by (apply Hwf || apply Hwf1 || apply Hwf2).
    by rewrite Hd1, Hd2, Hout.
Qed.

(** Operations of a transaction run in order on the state the earlier ones
    left; if one fails, the transaction fails with its error but the effects of
    the operations before it remain. *)
Theorem etcd_txn_error_keeps_prefix m m1 (now : Z) (pre post : list Op) (op : Op)
    (resps : list OpResponse) (e : EtcdError) (cmps : list Compare) (elseOps : list Op)
    (Hcmp : forallb (evaluateCompare m) cmps = true)
    (Hpre : txnOps now m pre = (m1, Ok resps)) (Hop : (txnOp now m1 op).2 = Err e) :
  Txn now m cmps (pre ++ op :: post) elseOps = (m1, Err e).
Proof.
  assert (Hfail : txnOp now m1 op = (m1, Err e)).
  { unfold txnOp, deleteUnlocked in *. destruct (op_Type op); try done.
    - unfold putUnlocked in *. cbn zeta in *.
      destruct (storeKv m1 _ _ _) as [[[m2 kv] prev] rev].
      destruct (op_LeaseID op =? 0); [done|]. destruct (leases m1 !! op_LeaseID op); [|by simplify_eq/=].
      destruct (IsExpired now _); simplify_eq/=; done.
    - by destruct (deleteUnlockedEvents m1 _ _) as [[m2 [[n kvs] rev]] evs]. }
  unfold Txn, txnUnlocked. rewrite Hcmp.
  assert (Hrun : txnOps now m (pre ++ op :: post) = (m1, Err e)).
  { clear Hcmp. revert m resps Hpre. induction pre as [|op0 pre IH]; intros m resps Hpre; simpl in *.
    - simplify_eq. by rewrite Hfail.
    - destruct (txnOp now m op0) as [m2 [r|e0]]; [|done].
      destruct (txnOps now m2 pre) as [m3 [rs|e1]] eqn:E; [|done]. simplify_eq.
      by rewrite (IH m2 rs E). }
  by rewrite Hrun.
Qed.

(** A successful put tells every open watch of the key that does not filter
    puts and has room exactly one event: the stored record, the previous one if
    asked for, and the new revision; all other watches are left as they were. *)
Theorem etcd_put_notifies m (now : Z) (key value : string) (id : Z) (sub : watchSubscription)
    (Hwf : wf_etcd m) (Hr : revision m + 1 <= int64_max) (Hs : watches m !! id = Some sub)
    (Hopen : ws_closed sub = false) (Hroom : hasRoom sub = true) :
  exists sub', watches (PutWithLease now m key value 0).1 !! id = Some sub' /\
    ws_slow sub' = ws_slow sub /\
    ws_eventCh sub' =
      if matchWatch key (ws_key sub) (ws_rangeEnd sub) && negb (shouldFilter EventTypePut (ws_filters sub))
      then ws_eventCh sub ++
             [mkWatchEvent EventTypePut (Get (kvData (PutWithLease now m key value 0).1) key)
                (if ws_prevKV sub then Get (kvData m) key else None) (revision m + 1)]
      else ws_eventCh sub.
Proof.
  unfold PutWithLease. cbn zeta.
  destruct (storeKv_spec m key value 0 Hwf Hr) as (m' & -> & Hwf' & Hd & Hr' & _ & Hw). simpl.
  rewrite Hw, lookup_fmap, Hs. simpl. eexists. split; [done|].
  rewrite !Get_contents by (apply Hwf || apply Hwf'). rewrite Hd, lookup_insert, decide_True by done.
  set (kv := nextKv _ _ _ _ _).
  assert (Hkey : Key kv = key) by (unfold kv, nextKv; by destruct (data m !! key)).
  unfold notifySub. simpl. rewrite Hopen, Hkey, Hroom.
  destruct (matchWatch key (ws_key sub) (ws_rangeEnd sub)); simpl; [|done].
  destruct (shouldFilter EventTypePut (ws_filters sub)); simpl; [done|].
  by destruct (ws_prevKV sub).
Qed.

End theorems.

(** ** Concrete runs on the sharded map *)

Definition second : Z := 1000000000.

(** A lease, two records, one of them attached to it, and a watch. *)
Definition demoOps : list (Z * EtcdOp) :=
  [(0, OLeaseGrant 7 60); (0, OPut "a" "1" 0); (second, OPut "b" "2" 7);
   (second, OWatch "a" "c" 0 1 (Some (mkWatchOptions true false [FilterNoDelete] false)))].

Definition newStore : MemoryEtcd ShardedMap := NewMemoryEtcd.
Definition demo : MemoryEtcd ShardedMap := runOps newStore demoOps.

Lemma demo_bounded : bounded newStore demoOps.
Proof. repeat (split; [vm_compute; discriminate|]). exact I. Qed.

Lemma demo_wf : wf_etcd demo.
Proof. apply (runOps_wf demoOps newStore wf_NewMemoryEtcd demo_bounded). Qed.

Lemma etcd_invariant_witness :
  wf_etcd demo /\ 0 <= revision demo /\ revision demo = 2.
Proof.
  destruct (etcd_invariant newStore demoOps wf_NewMemoryEtcd demo_bounded) as [Hwf Hr].
  split; [exact Hwf|]. split; [exact Hr|vm_compute; reflexivity].
Defined.

Lemma etcd_lease_revoke_witness :
  Get (kvData demo) "b" <> None /\
  exists m', LeaseRevoke demo 7 = (m', Ok tt) /\ (forall k kv, Get (kvData m') k = Some kv -> Lease kv <> 7) /\
    Get (kvData m') "a" = Get (kvData demo) "a".
Proof.
  split; [vm_compute; discriminate|].
  destruct (etcd_lease_revoke demo demoOps 7 (mkLease 7 60 0 {["b" := true]})) as (m' & Hm' & _ & Hno & Ha & _).
  - reflexivity.
  - exact demo_bounded.
  - reflexivity.
  - discriminate.
  - vm_compute; reflexivity.
  - vm_compute; discriminate.
  - exists m'. split; [exact Hm'|]. split; [exact Hno|]. apply Ha. vm_compute; reflexivity.
Defined.

Lemma etcd_range_query_witness :
  let resp := RangeQuery demo "a" "c" 1 0 in
  (Key <$> rr_Kvs (RangeQuery demo "a" "c" 0 0)) = ["a"; "b"] /\
  rr_Kvs resp = take 1 (rr_Kvs (RangeQuery demo "a" "c" 0 0)) /\ rr_Count resp = 1 /\ rr_More resp = false.
Proof.
  destruct (etcd_range_query demo "a" "c" 1 0 demo_wf) as (_ & _ & Hkvs & Hc & Hmore & _).
  split; [vm_compute; reflexivity|]. split; [exact Hkvs|]. split; [|exact Hmore].
  rewrite Hc, Hkvs. vm_compute. reflexivity.
Defined.

Lemma etcd_put_witness :
  Get (kvData (PutWithLease second demo "a" "3" 7).1) "a" = Some (mkKeyValue "a" "3" 1 3 2 7) /\
  PutWithLease second demo "a" "3" 8 = (demo, Err (LeaseNotFound 8)).
Proof.
  assert (Hr : revision demo + 1 <= int64_max) by (vm_compute; discriminate).
  pose proof (etcd_put demo second "a" "3" 7 demo_wf Hr) as H7.
  pose proof (etcd_put demo second "a" "3" 8 demo_wf Hr) as H8.
  split.
  - destruct (PutWithLease second demo "a" "3" 7) as [m' res].
    assert (Hok : (7 =? 0) || negb (IsExpired second (leases demo !! 7)) = true) by (vm_compute; reflexivity).
    rewrite Hok in H7. destruct H7 as (_ & _ & Hg & _). simpl fst. rewrite Hg. vm_compute. reflexivity.
  - destruct (PutWithLease second demo "a" "3" 8) as [m' res].
    assert (Hno : (8 =? 0) || negb (IsExpired second (leases demo !! 8)) = false) by (vm_compute; reflexivity).
    rewrite Hno in H8. destruct H8 as [-> ->]. vm_compute. reflexivity.
Defined.

Lemma etcd_delete_range_witness :
  (DeleteRange demo "a" "c").2.2 = 3 /\ (deleteDirect demo "a" "c").2.2 = 4 /\
  Get (kvData (DeleteRange demo "a" "c").1) "b" = None.
Proof.
  assert (Hr : revision demo + 1 + Z.of_nat (length (rangeRecords (contents (kvData demo)) "a" "c")) <= int64_max)
    by (vm_compute; discriminate).
  pose proof (etcd_delete_range demo "a" "c" demo_wf Hr) as Hd.
  assert (Hlen : Z.of_nat (length (rr_Kvs (RangeQuery demo "a" "c" 0 0))) = 2) by (vm_compute; reflexivity).
  cbn zeta in Hd. rewrite Hlen in Hd.
  destruct (DeleteRange demo "a" "c") as [m1 [[n1 p1] r1]], (deleteDirect demo "a" "c") as [m2 [[n2 p2] r2]].
  destruct Hd as (_ & _ & Hr1 & _ & _ & Hr2 & Hk). simpl. rewrite Hr1, Hr2.
  split; [vm_compute; reflexivity|]. split; [vm_compute; reflexivity|].
  destruct (Hk "b") as [Hb _]. exact Hb.
Defined.

Definition putOp (key value : string) (leaseID : Z) : Op := mkOp OpPut key "" value 0 leaseID.

Lemma etcd_txn_error_keeps_prefix_witness :
  exists m1, Txn second demo [] [putOp "c" "3" 0; putOp "d" "4" 9] [] = (m1, Err InvalidLease) /\
    Get (kvData m1) "c" = Some (mkKeyValue "c" "3" 3 3 1 0).
Proof.
  destruct (txnOps second demo [putOp "c" "3" 0]) as [m1 r] eqn:E.
  assert (Hm1 : m1 = (txnOps second demo [putOp "c" "3" 0]).1) by (rewrite E; reflexivity).
  assert (Hr : r = (txnOps second demo [putOp "c" "3" 0]).2) by (rewrite E; reflexivity).
  vm_compute in Hr. subst r. exists m1. split.
  - eapply (etcd_txn_error_keeps_prefix demo m1 second [putOp "c" "3" 0] [] (putOp "d" "4" 9)).
    + reflexivity.
    + exact E.
    + rewrite Hm1. vm_compute. reflexivity.
  - rewrite Hm1. vm_compute. reflexivity.
Defined.

Lemma etcd_put_notifies_witness :
  exists sub', watches (PutWithLease second demo "a" "3" 0).1 !! 1 = Some sub' /\
    ws_eventCh sub' =
      [mkWatchEvent EventTypePut (Some (mkKeyValue "a" "3" 1 3 2 0)) (Some (mkKeyValue "a" "1" 1 1 1 0)) 3].
Proof.
  destruct (etcd_put_notifies demo second "a" "3" 1
    (mkWatch 1 "a" "c" 0 [] [] false true false [FilterNoDelete] false)) as (sub' & Hs & _ & Hch).
  - exact demo_wf.
  - vm_compute; discriminate.
  - vm_compute; reflexivity.
  - reflexivity.
  - reflexivity.
  - exists sub'. split; [exact Hs|]. rewrite Hch. vm_compute. reflexivity.
Defined.

(** ** Keys that change lease *)

(** A put that moves a key to another lease leaves it in the key set of the
    old one, so revoking the old lease deletes the record although it names the
    new lease, which is still alive. *)
Theorem revoke_deletes_reattached_key :
  let m := runOps newStore [(0, OLeaseGrant 7 60); (0, OLeaseGrant 8 60); (0, OPut "k" "1" 7); (0, OPut "k" "2" 8)] in
  Lease <$> Get (kvData m) "k" = Some 8 /\
  Get (kvData (LeaseRevoke m 7).1) "k" = None /\ leases (LeaseRevoke m 7).1 !! 8 <> None.
Proof. vm_compute. split; [reflexivity|]. split; [reflexivity|discriminate]. Qed.

(** On the Raft path a put attaches to a lease that does not exist and a second
    grant of a lease forgets its keys, so that a revoked lease leaves records
    behind that name it. *)
Theorem raft_grant_orphans_keys :
  let m := runOps newStore [(0, OLeaseDirect LEASE_GRANT 7 60); (0, OPutDirect "k" "1" 7);
                            (0, OLeaseDirect LEASE_GRANT 7 60); (0, OLeaseDirect LEASE_REVOKE 7 0);
                            (0, OPutDirect "j" "1" 9)] in
  leases m = ∅ /\ Lease <$> Get (kvData m) "k" = Some 7 /\ Lease <$> Get (kvData m) "j" = Some 9.
Proof. vm_compute. split; [reflexivity|]. split; reflexivity. Qed.
