(* ===== verification/BatchApply.v ===== *)
(** * Applying a batch of puts in parallel ([internal/memory/batch_apply.go])

    [batchApplyPut] groups committed puts by shard and runs one goroutine per
    shard.  A goroutine holds the lock of its shard; the revision counter is
    atomic, and the leases and the watches have locks of their own, so the
    goroutines interleave between those accesses.  [gstep] is one access of one
    goroutine; an execution is any sequence of them. *)

From S2P Require Import Prelude GoBytes OrderedTree KvTypes ShardedMap MemoryEtcd EtcdFacts EtcdOps.

(** ** Committed operations *)

(** The operation types are strings in the code. *)
Abbreviation TPut := "PUT".
Abbreviation TDelete := "DELETE".
Abbreviation TLeaseGrant := "LEASE_GRANT".
Abbreviation TLeaseRevoke := "LEASE_REVOKE".
Abbreviation TTxn := "TXN".

Record RaftOperation := mkRaftOperation {
  ro_Type : string;
  ro_Key : string;
  ro_Value : string;
  ro_LeaseID : Z;
  ro_RangeEnd : string;
  ro_SeqNum : string;
  ro_TTL : Z;
  ro_Compares : list Compare;
  ro_ThenOps : list Op;
  ro_ElseOps : list Op;
}.

(** ** Goroutines *)

(** Where a goroutine is within [batchApplyPutNoLock] or
    [batchApplyDeleteNoLock]. *)
Inductive Stage :=
  | Idle
  | HaveRevision (op : RaftOperation) (newRevision : Z)
  | Written (op : RaftOperation) (kv : KeyValue)
  | Removing (op : RaftOperation) (kv : KeyValue)
  | Removed (op : RaftOperation) (kv : KeyValue)
  | Notifying (op : RaftOperation) (kv : KeyValue) (t : EventType).

(** [g_written] records, for the proofs, the operations whose effect is in the
    shard. *)
Record Goroutine := mkGoroutine {
  g_shard : Z;
  g_todo : list RaftOperation;
  g_stage : Stage;
  g_written : list RaftOperation;
}.

Section batch.
Context `{!MapOrder}.

Abbreviation etcd := (MemoryEtcd ShardedMap).

(** [batchApplyPutNoLock], one access at a time: the revision, the shard, the
    lease, the watchers. *)
Definition putBegin (m : etcd) (g : Goroutine) (op : RaftOperation) (todo : list RaftOperation) :
    etcd * Goroutine :=
  let newRevision := nextRevision m in
  (setData m (kvData m) newRevision (leases m),
   mkGoroutine (g_shard g) todo (HaveRevision op newRevision) (g_written g)).

Definition putWrite (m : etcd) (g : Goroutine) (op : RaftOperation) (newRevision : Z) : etcd * Goroutine :=
  let key := ro_Key op in
  let kv := nextKv (Get (kvData m) key) key (ro_Value op) (ro_LeaseID op) newRevision in
  (setData m (Set_ (kvData m) key kv) (revision m) (leases m),
   mkGoroutine (g_shard g) (g_todo g) (Written op kv) (g_written g ++ [op])).

Definition putAttach (m : etcd) (g : Goroutine) (op : RaftOperation) (kv : KeyValue) : etcd * Goroutine :=
  (setLeases m (attachKey (ro_LeaseID op) (ro_Key op) (leases m)),
   mkGoroutine (g_shard g) (g_todo g) (Notifying op kv EventTypePut) (g_written g)).

(** [batchApplyDeleteNoLock]: a key that is not there costs nothing. *)
Definition deleteBegin (m : etcd) (g : Goroutine) (op : RaftOperation) (todo : list RaftOperation) :
    etcd * Goroutine :=
  match Get (kvData m) (ro_Key op) with
  | None => (m, mkGoroutine (g_shard g) todo Idle (g_written g ++ [op]))
  | Some kv =>
      (setData m (kvData m) (nextRevision m) (leases m),
       mkGoroutine (g_shard g) todo (Removing op kv) (g_written g))
  end.

Definition deleteRemove (m : etcd) (g : Goroutine) (op : RaftOperation) (kv : KeyValue) : etcd * Goroutine :=
  (setData m (Delete (kvData m) (ro_Key op)) (revision m) (leases m),
   mkGoroutine (g_shard g) (g_todo g) (Removed op kv) (g_written g ++ [op])).

Definition deleteDetach (m : etcd) (g : Goroutine) (op : RaftOperation) (kv : KeyValue) : etcd * Goroutine :=
  (setLeases m (detachKey (Lease kv) (ro_Key op) (leases m)),
   mkGoroutine (g_shard g) (g_todo g) (Notifying op kv EventTypeDelete) (g_written g)).

(** The next access of a goroutine, [None] when it is done. *)
Definition advance (m : etcd) (g : Goroutine) : option (etcd * Goroutine) :=
  match g_stage g with
  | Idle =>
      match g_todo g with
      | [] => None
      | op :: todo =>
          Some (if decide (ro_Type op = TDelete) then deleteBegin m g op todo else putBegin m g op todo)
      end
  | HaveRevision op newRevision => Some (putWrite m g op newRevision)
  | Written op kv => Some (putAttach m g op kv)
  | Removing op kv => Some (deleteRemove m g op kv)
  | Removed op kv => Some (deleteDetach m g op kv)
  | Notifying op kv t =>
      Some (notifyWatchers m (ro_Key op) kv t, mkGoroutine (g_shard g) (g_todo g) Idle (g_written g))
  end.

Definition opShard (op : RaftOperation) : Z := getShard (ro_Key op).

(** The operations of one shard, in log order. *)
Definition shardOps (ops : list RaftOperation) (i : Z) : list RaftOperation :=
  List.filter (fun op => opShard op =? i) ops.

(** One goroutine per shard that occurs. *)
Definition spawn (ops : list RaftOperation) : list Goroutine :=
  (fun i => mkGoroutine i (shardOps ops i) Idle []) <$> remove_dups (opShard <$> ops).

(** The scheduler lets one goroutine advance. *)
Inductive gstep : etcd * list Goroutine -> etcd * list Goroutine -> Prop :=
  | gstep_at m gs j g m' g' :
      gs !! j = Some g -> advance m g = Some (m', g') -> gstep (m, gs) (m', <[j := g']> gs).

(** [wg.Wait] returns when every goroutine is done. *)
Definition finished (gs : list Goroutine) : Prop :=
  Forall (fun g => g_todo g = [] /\ g_stage g = Idle) gs.

(** [batchApplyPut] and [batchApplyDeleteSingleKey]: spawn, run, wait. *)
Definition parallelApply (m : etcd) (ops : list RaftOperation) (m' : etcd) : Prop :=
  exists gs', rtc gstep (m, spawn ops) (m', gs') /\ finished gs'.

Definition batchApplyPut := parallelApply.
Definition batchApplyDeleteSingleKey := parallelApply.

(** Single-key deletions first, in parallel, then the ranges one by one. *)
Definition isSingleKey (op : RaftOperation) : bool := String.eqb (ro_RangeEnd op) "".

Definition batchApplyDelete (m : etcd) (ops : list RaftOperation) (m' : etcd) : Prop :=
  exists m1, batchApplyDeleteSingleKey m (List.filter isSingleKey ops) m1 /\
    m' = fold_left (fun m op => (deleteDirect m (ro_Key op) (ro_RangeEnd op)).1)
           (List.filter (fun op => negb (isSingleKey op)) ops) m1.

(** ** What does not depend on the schedule *)

(** A record without its revisions. *)
Definition erase (kv : KeyValue) : string * Z * Z := (Value kv, Lease kv, Version kv).

(** What an operation does to the erased record of its key. *)
Definition erasedOp (o : option (string * Z * Z)) (op : RaftOperation) : option (string * Z * Z) :=
  if decide (ro_Type op = TDelete) then None
  else Some (ro_Value op, ro_LeaseID op, match o with Some (_, _, v) => wrap_i64 (v + 1) | None => 1 end).

Definition view (m : etcd) (k : string) : option (string * Z * Z) :=
  erase <$> contents (kvData m) !! k.

Definition ofKey (k : string) (ops : list RaftOperation) : list RaftOperation :=
  List.filter (fun op => String.eqb (ro_Key op) k) ops.

#[local] Arguments ofKey : simpl never.

(** ** Invariant of the executions *)

(** The operation that has its revision and is not in the shard yet. *)
Definition pending (g : Goroutine) : list RaftOperation :=
  match g_stage g with HaveRevision op _ | Removing op _ => [op] | _ => [] end.

Definition started (g : Goroutine) : nat := length (g_written g) + length (pending g).

Definition total (gs : list Goroutine) : nat := sum_list_with started gs.

Definition inFlight (gs : list Goroutine) : nat := sum_list_with (fun g => length (pending g)) gs.

(** The operations of [k] some goroutine has written. *)
Definition writtenTo (gs : list Goroutine) (k : string) : list RaftOperation :=
  ofKey k (concat (g_written <$> gs)).

(** Each goroutine has its shard's operations split in written, pending and to
    do. *)
Record Layout (ops : list RaftOperation) (gs : list Goroutine) : Prop := {
  lay_split g : g ∈ gs -> shardOps ops (g_shard g) = g_written g ++ pending g ++ g_todo g;
  lay_shards : g_shard <$> gs = remove_dups (opShard <$> ops);
}.

(** The stage fits the kind of the operation, and the record a deletion removes
    is in the shard. *)
Definition stage_ok (m : etcd) (g : Goroutine) : Prop :=
  match g_stage g with
  | HaveRevision op _ => ro_Type op <> TDelete
  | Removing op _ => ro_Type op = TDelete /\ is_Some (contents (kvData m) !! ro_Key op)
  | _ => True
  end.

Record Inv (m0 : etcd) (ops : list RaftOperation) (m : etcd) (gs : list Goroutine) : Prop := {
  inv_map : wf_map (kvData m);
  inv_layout : Layout ops gs;
  inv_stage g : g ∈ gs -> stage_ok m g;
  inv_view k : view m k = fold_left erasedOp (writtenTo gs k) (view m0 k);
  inv_rev : revision m0 <= revision m <= revision m0 + Z.of_nat (total gs);
  inv_puts : Forall (fun op => ro_Type op <> TDelete) ops ->
    revision m = revision m0 + Z.of_nat (total gs);
  inv_deletes : Forall (fun op => ro_Type op = TDelete) ops ->
    revision m + Z.of_nat (size (contents (kvData m))) =
      revision m0 + Z.of_nat (size (contents (kvData m0))) + Z.of_nat (inFlight gs);
  inv_sub : Forall (fun op => ro_Type op = TDelete) ops -> contents (kvData m) ⊆ contents (kvData m0);
}.

Lemma sum_list_insert {A} (f : A -> nat) (l : list A) j x y :
  l !! j = Some x -> (sum_list_with f (<[j := y]> l) + f x)%nat = (sum_list_with f l + f y)%nat.
Proof.
  revert j. induction l as [|z l IH]; intros [|j] Hj; simpl in *; simplify_eq; [lia|].
  specialize (IH j Hj). lia.
Qed.

Lemma shardOps_elem ops i op : op ∈ shardOps ops i <-> op ∈ ops /\ opShard op = i.
Proof. unfold shardOps. rewrite list_elem_of_In, filter_In, <- list_elem_of_In, Z.eqb_eq. done. Qed.

(** Only the goroutine of a key's shard writes it. *)
Lemma written_shard ops gs g op :
  Layout ops gs -> g ∈ gs -> op ∈ g_written g -> opShard op = g_shard g.
Proof.
  intros HI Hg Hop. assert (Hin : op ∈ shardOps ops (g_shard g)).
  { rewrite (lay_split _ _ HI g Hg). set_solver. }
  by apply shardOps_elem in Hin as [_ ?].
Qed.

Lemma ofKey_app k l1 l2 : ofKey k (l1 ++ l2) = ofKey k l1 ++ ofKey k l2.
Proof. apply List.filter_app. Qed.

Lemma ofKey_none k l : (forall op, op ∈ l -> ro_Key op <> k) -> ofKey k l = [].
Proof.
  induction l as [|op l IH]; intros Hne; [done|]. unfold ofKey in *. simpl.
  destruct (String.eqb_spec (ro_Key op) k) as [Heq|]; [by destruct (Hne op ltac:(by left))|].
  apply IH. intros op' Hin. apply Hne. by right.
Qed.

(** What is written to [k] is what the goroutine of its shard wrote. *)
Lemma writtenTo_local ops gs j g k :
  Layout ops gs -> gs !! j = Some g -> g_shard g = getShard k -> writtenTo gs k = ofKey k (g_written g).
Proof.
  intros HI Hj Hs. pose proof (lay_shards _ _ HI) as Hsh.
  assert (Hnd : NoDup (g_shard <$> gs)) by (rewrite Hsh; apply NoDup_remove_dups).
  unfold writtenTo. rewrite <- (take_drop_middle _ _ _ Hj). rewrite fmap_app, concat_app. cbn.
  rewrite !ofKey_app.
  assert (Hother : forall g', g' ∈ gs -> g_shard g' <> getShard k -> ofKey k (g_written g') = []).
  { intros g' Hg' Hne. apply ofKey_none. intros op Hop Hk. apply Hne.
    rewrite <- (written_shard _ _ _ _ HI Hg' Hop). unfold opShard. by rewrite Hk. }
  assert (Hpart : forall l, (forall g', g' ∈ l -> g' ∈ gs /\ g_shard g' <> getShard k) ->
    ofKey k (concat (g_written <$> l)) = []).
  { induction l as [|g' l IH]; intros Hl; [done|]. cbn. rewrite ofKey_app.
    destruct (Hl g' ltac:(by left)). rewrite Hother by done. apply IH. intros. apply Hl. by right. }
  rewrite <- Hs in Hpart. rewrite <- (take_drop_middle _ _ _ Hj) in Hnd.
  rewrite fmap_app in Hnd. cbn in Hnd. apply NoDup_app in Hnd as (_ & Hn1 & Hn2).
  apply NoDup_cons in Hn2 as [Hn2 _].
  rewrite (Hpart (take j gs)), (Hpart (drop (S j) gs)); [by rewrite app_nil_r|..].
  - intros g' Hg'. split; [rewrite <- (take_drop (S j) gs); set_solver|]. intros Heq. apply Hn2. rewrite <- Heq.
    by apply list_elem_of_fmap_2.
  - intros g' Hg'. split; [rewrite <- (take_drop j gs); set_solver|]. intros Heq.
    apply (Hn1 (g_shard g')); [by apply list_elem_of_fmap_2|]. rewrite Heq. by left.
Qed.

(** ** Counting *)

Lemma sum_indicator (i : Z) (l : list Z) :
  NoDup l -> i ∈ l -> sum_list_with (fun j => if i =? j then 1%nat else 0%nat) l = 1%nat.
Proof.
  assert (Hz : forall l, i ∉ l -> sum_list_with (fun j => if i =? j then 1%nat else 0%nat) l = 0%nat).
  { induction l0 as [|j l0 IH]; intros Hi; simpl; [done|]. rewrite not_elem_of_cons in Hi.
    destruct Hi as [Hj Hi]. apply Z.eqb_neq in Hj. rewrite Hj. by apply IH. }
  induction 1 as [|j l Hj _ IH]; simpl; intros Hi; [by apply elem_of_nil in Hi|].
  destruct (Z.eqb_spec i j) as [->|Hne]; [by rewrite Hz|].
  apply IH. by apply elem_of_cons in Hi as [?|?].
Qed.

Lemma sum_ext {A} (f g : A -> nat) (l : list A) :
  (forall x, x ∈ l -> f x = g x) -> sum_list_with f l = sum_list_with g l.
Proof.
  induction l as [|x l IH]; intros Hfg; simpl; [done|].
  rewrite (Hfg x) by (by left). rewrite IH; [done|]. intros. apply Hfg. by right.
Qed.

Lemma sum_fmap {A B} (h : A -> B) (f : B -> nat) (l : list A) :
  sum_list_with f (h <$> l) = sum_list_with (fun x => f (h x)) l.
Proof. induction l as [|x l IH]; [done|]. cbn. by rewrite <- IH. Qed.

Lemma sum_add {A} (f g : A -> nat) (l : list A) :
  sum_list_with (fun x => (f x + g x)%nat) l = (sum_list_with f l + sum_list_with g l)%nat.
Proof. induction l as [|x l IH]; simpl; lia. Qed.

(** The groups partition the batch. *)
Lemma length_groups ops l :
  NoDup l -> (forall op, op ∈ ops -> opShard op ∈ l) ->
  sum_list_with (fun i => length (shardOps ops i)) l = length ops.
Proof.
  intros Hnd. induction ops as [|op ops IH]; intros Hin; simpl.
  { clear. induction l as [|x l IH]; simpl; [done|]. by rewrite IH. }
  rewrite <- IH by (intros; apply Hin; by right).
  transitivity (sum_list_with (fun i : Z => ((if (opShard op =? i)%Z then 1 else 0) + length (shardOps ops i))%nat) l).
  - apply sum_ext. intros i _. unfold shardOps. simpl. by destruct (opShard op =? i).
  - rewrite sum_add, sum_indicator; [done|done|]. apply Hin. by left.
Qed.

Lemma total_bound ops gs :
  Layout ops gs -> (total gs + sum_list_with (fun g => length (g_todo g)) gs)%nat = length ops.
Proof.
  intros HL. rewrite <- (length_groups ops (remove_dups (opShard <$> ops))).
  - unfold total. rewrite <- (lay_shards _ _ HL), sum_fmap, <- sum_add. apply sum_ext.
    intros g Hg. rewrite (lay_split _ _ HL g Hg), !length_app. unfold started. lia.
  - apply NoDup_remove_dups.
  - intros op Hop. apply elem_of_remove_dups, list_elem_of_fmap. by exists op.
Qed.

(** ** The invariant holds along every execution *)

Lemma Layout_insert ops gs j g g' :
  Layout ops gs -> gs !! j = Some g -> g_shard g' = g_shard g ->
  g_written g' ++ pending g' ++ g_todo g' = g_written g ++ pending g ++ g_todo g ->
  Layout ops (<[j := g']> gs).
Proof.
  intros HL Hj Hs Hsplit. split.
  - intros g2 Hg2. apply list_elem_of_lookup_1 in Hg2 as [i Hi].
    apply list_lookup_insert_Some in Hi as [(_ & -> & _)|[_ Hi]].
    + rewrite Hs, Hsplit. apply (lay_split _ _ HL). by eapply list_elem_of_lookup_2.
    + apply (lay_split _ _ HL). by eapply list_elem_of_lookup_2.
  - rewrite list_fmap_insert, Hs, <- (lay_shards _ _ HL). apply list_insert_id.
    by rewrite list_lookup_fmap, Hj.
Qed.

Lemma other_shard ops gs i j g g2 :
  Layout ops gs -> gs !! j = Some g -> gs !! i = Some g2 -> i <> j -> g_shard g2 <> g_shard g.
Proof.
  intros HL Hj Hi Hne Heq. apply Hne.
  assert (Hnd : NoDup (g_shard <$> gs)) by (rewrite (lay_shards _ _ HL); apply NoDup_remove_dups).
  apply (NoDup_lookup _ _ _ (g_shard g) Hnd); by rewrite list_lookup_fmap, ?Hi, ?Hj; simpl; rewrite ?Heq.
Qed.

(** The operations a goroutine has or had belong to its shard. *)
Lemma own_shard ops gs g op :
  Layout ops gs -> g ∈ gs -> op ∈ g_written g ++ pending g ++ g_todo g -> opShard op = g_shard g.
Proof. intros HL Hg Hop. rewrite <- (lay_split _ _ HL g Hg) in Hop. by apply shardOps_elem in Hop as [_ ?]. Qed.

Lemma writtenTo_other gs j g g' k :
  gs !! j = Some g -> ofKey k (g_written g') = ofKey k (g_written g) ->
  writtenTo (<[j := g']> gs) k = writtenTo gs k.
Proof.
  intros Hj Hk. unfold writtenTo. rewrite <- (take_drop_middle _ _ _ Hj) at 2.
  rewrite insert_take_drop by (by eapply lookup_lt_Some).
  rewrite !fmap_app, !concat_app. cbn. by rewrite !ofKey_app, Hk.
Qed.

(** One goroutine moved: the others see nothing of it. *)
Lemma Inv_insert m0 ops m gs j g m' g' :
  Inv m0 ops m gs -> gs !! j = Some g -> g_shard g' = g_shard g ->
  g_written g' ++ pending g' ++ g_todo g' = g_written g ++ pending g ++ g_todo g ->
  wf_map (kvData m') -> stage_ok m' g' ->
  (forall k, getShard k <> g_shard g -> contents (kvData m') !! k = contents (kvData m) !! k) ->
  (forall k, getShard k = g_shard g ->
     view m' k = fold_left erasedOp (ofKey k (g_written g')) (view m0 k)) ->
  revision m <= revision m' <= revision m + (Z.of_nat (started g') - Z.of_nat (started g)) ->
  (Forall (fun op => ro_Type op <> TDelete) ops ->
     revision m' = revision m + (Z.of_nat (started g') - Z.of_nat (started g))) ->
  (Forall (fun op => ro_Type op = TDelete) ops ->
     revision m' + Z.of_nat (size (contents (kvData m'))) + Z.of_nat (length (pending g)) =
       revision m + Z.of_nat (size (contents (kvData m))) + Z.of_nat (length (pending g')) /\
     contents (kvData m') ⊆ contents (kvData m)) ->
  Inv m0 ops m' (<[j := g']> gs).
Proof.
  intros HI Hj Hs Hsplit Hmap Hstage Hframe Hview Hrev Hput Hdel.
  pose proof (inv_layout _ _ _ _ HI) as HL.
  pose proof (Layout_insert _ _ _ _ _ HL Hj Hs Hsplit) as HL'.
  pose proof (sum_list_insert started _ _ _ g' Hj) as Hsum. fold (total gs) in Hsum.
  fold (total (<[j := g']> gs)) in Hsum.
  pose proof (sum_list_insert (fun g => length (pending g)) _ _ _ g' Hj) as Hfl.
  fold (inFlight gs) in Hfl. fold (inFlight (<[j := g']> gs)) in Hfl.
  split; [done|done| | | | | |].
  - intros g2 Hg2. apply list_elem_of_lookup_1 in Hg2 as [i Hi].
    apply list_lookup_insert_Some in Hi as [(_ & -> & _)|[Hne Hi]]; [done|].
    assert (Hin : g2 ∈ gs) by (by eapply list_elem_of_lookup_2).
    pose proof (inv_stage _ _ _ _ HI g2 Hin) as Hok. unfold stage_ok in *.
    destruct (g_stage g2) eqn:E; try done. rewrite Hframe; [done|].
    change (opShard op <> g_shard g).
    rewrite (own_shard _ _ g2 op HL Hin) by (unfold pending; rewrite E; set_solver).
    by apply (other_shard ops gs i j g g2).
  - intros k. destruct (decide (getShard k = g_shard g)) as [Heq|Hne].
    + rewrite Hview by done. f_equal. symmetry. eapply (writtenTo_local _ _ j); [done| |congruence].
      apply list_lookup_insert_eq. by eapply lookup_lt_Some.
    + unfold view at 1. rewrite Hframe by done. fold (view m k). rewrite (inv_view _ _ _ _ HI).
      f_equal. symmetry. apply (writtenTo_other _ _ g); [done|].
      assert (Hno : forall g2 gs2, Layout ops gs2 -> g2 ∈ gs2 -> g_shard g2 = g_shard g ->
        ofKey k (g_written g2) = []).
      { intros g2 gs2 HL2 Hg2 Hs2. apply ofKey_none. intros op Hop <-. apply Hne.
        change (opShard op = g_shard g). rewrite <- Hs2. apply (own_shard _ _ _ _ HL2 Hg2). set_solver. }
      rewrite (Hno g' (<[j := g']> gs)), (Hno g gs); try done.
      * by eapply list_elem_of_lookup_2.
      * apply (list_elem_of_lookup_2 _ j), list_lookup_insert_eq. by eapply lookup_lt_Some.
  - pose proof (inv_rev _ _ _ _ HI). lia.
  - intros Hf. rewrite (Hput Hf), (inv_puts _ _ _ _ HI Hf). lia.
  - intros Hf. destruct (Hdel Hf) as [? _]. pose proof (inv_deletes _ _ _ _ HI Hf). lia.
  - intros Hf. destruct (Hdel Hf) as [_ ?]. by etransitivity; [|apply (inv_sub _ _ _ _ HI)].
Qed.


(** The shard of the goroutine, before the step. *)
Lemma view_own m0 ops m gs j g k :
  Inv m0 ops m gs -> gs !! j = Some g -> getShard k = g_shard g ->
  view m k = fold_left erasedOp (ofKey k (g_written g)) (view m0 k).
Proof.
  intros HI Hj Hk. rewrite (inv_view _ _ _ _ HI). f_equal.
  by apply (writtenTo_local ops _ j); [apply HI| |].
Qed.

Lemma ofKey_snoc_eq l op : ofKey (ro_Key op) (l ++ [op]) = ofKey (ro_Key op) l ++ [op].
Proof. rewrite ofKey_app. f_equal. unfold ofKey. simpl. by rewrite String.eqb_refl. Qed.

Lemma ofKey_snoc_ne l op k : k <> ro_Key op -> ofKey k (l ++ [op]) = ofKey k l.
Proof.
  intros Hne. rewrite ofKey_app. unfold ofKey at 2. simpl.
  destruct (String.eqb_spec (ro_Key op) k) as [Heq|]; [congruence|]. apply app_nil_r.
Qed.

(** The effect of [op] reaches the shard: only its key's view changes. *)
Lemma view_effect m0 ops m gs j g m' op :
  Inv m0 ops m gs -> gs !! j = Some g -> opShard op = g_shard g ->
  view m' (ro_Key op) = erasedOp (view m (ro_Key op)) op ->
  (forall k, k <> ro_Key op -> view m' k = view m k) ->
  forall k, getShard k = g_shard g ->
    view m' k = fold_left erasedOp (ofKey k (g_written g ++ [op])) (view m0 k).
Proof.
  intros HI Hj Hs Hop Hother k Hk. destruct (decide (k = ro_Key op)) as [->|Hne].
  - rewrite ofKey_snoc_eq, fold_left_app. simpl. rewrite <- (view_own _ _ _ _ _ _ _ HI Hj Hk). done.
  - rewrite ofKey_snoc_ne, Hother by done. by eapply view_own.
Qed.

Lemma view_Set m kv k :
  wf_map (kvData m) -> forall key rev ls,
  view (setData m (Set_ (kvData m) key kv) rev ls) k = if decide (key = k) then Some (erase kv) else view m k.
Proof.
  intros Hm key rev ls. unfold view. simpl. rewrite contents_sm_Set by done. rewrite lookup_insert.
  by destruct (decide (key = k)).
Qed.

Lemma view_Delete m k :
  wf_map (kvData m) -> forall key rev ls,
  view (setData m (Delete (kvData m) key) rev ls) k = if decide (key = k) then None else view m k.
Proof.
  intros Hm key rev ls. unfold view. simpl. rewrite contents_sm_Delete by done. rewrite lookup_delete.
  by destruct (decide (key = k)).
Qed.

Lemma erase_nextKv p op rev :
  ro_Type op <> TDelete ->
  Some (erase (nextKv p (ro_Key op) (ro_Value op) (ro_LeaseID op) rev)) = erasedOp (erase <$> p) op.
Proof. intros Ht. unfold erasedOp. rewrite decide_False by done. by destruct p. Qed.

Lemma Inv_putWrite m0 ops m gs j g op rev :
  Inv m0 ops m gs -> gs !! j = Some g -> g_stage g = HaveRevision op rev ->
  Inv m0 ops (putWrite m g op rev).1 (<[j := (putWrite m g op rev).2]> gs).
Proof.
  intros HI Hj Hst. assert (Hg : g ∈ gs) by (by eapply list_elem_of_lookup_2).
  pose proof (inv_map _ _ _ _ HI) as Hm. pose proof (inv_stage _ _ _ _ HI g Hg) as Hok.
  assert (Hpend : pending g = [op]) by (unfold pending; by rewrite Hst).
  assert (Hs : opShard op = g_shard g)
    by (apply (own_shard ops gs); [apply HI|done|rewrite Hpend; set_solver]).
  unfold stage_ok in Hok. rewrite Hst in Hok.
  apply (Inv_insert _ _ m _ _ g); try done; cbn [fst snd putWrite g_written g_todo g_shard kvData setData];
    unfold started; rewrite ?Hpend; simpl; rewrite ?length_app, ?app_nil_r, <- ?app_assoc; simpl; try lia; try done.
  - by apply wf_sm_Set.
  - intros k Hk. rewrite contents_sm_Set by done. apply lookup_insert_ne. intros <-. by apply Hk.
  - eapply view_effect; [done|done|done| |].
    + rewrite view_Set by done. rewrite decide_True by done. rewrite erase_nextKv by done.
      unfold view. by rewrite sm_contents_lookup.
    + intros k Hne. rewrite view_Set by done. by rewrite decide_False.
  - intros Hf. exfalso. apply Hok. rewrite Forall_forall in Hf. apply Hf.
    apply (shardOps_elem _ (g_shard g)). rewrite (lay_split _ _ (inv_layout _ _ _ _ HI) g Hg), Hpend. set_solver.
Qed.

Lemma Inv_deleteRemove m0 ops m gs j g op kv :
  Inv m0 ops m gs -> gs !! j = Some g -> g_stage g = Removing op kv ->
  Inv m0 ops (deleteRemove m g op kv).1 (<[j := (deleteRemove m g op kv).2]> gs).
Proof.
  intros HI Hj Hst. assert (Hg : g ∈ gs) by (by eapply list_elem_of_lookup_2).
  pose proof (inv_map _ _ _ _ HI) as Hm. pose proof (inv_stage _ _ _ _ HI g Hg) as Hok.
  assert (Hpend : pending g = [op]) by (unfold pending; by rewrite Hst).
  assert (Hs : opShard op = g_shard g)
    by (apply (own_shard ops gs); [apply HI|done|rewrite Hpend; set_solver]).
  unfold stage_ok in Hok. rewrite Hst in Hok. destruct Hok as [Ht Hsome].
  apply (Inv_insert _ _ m _ _ g); try done; cbn [fst snd deleteRemove g_written g_todo g_shard kvData setData];
    unfold started; rewrite ?Hpend; simpl; rewrite ?length_app, ?app_nil_r, <- ?app_assoc; simpl; try lia; try done.
  - by apply wf_sm_Delete.
  - intros k Hk. rewrite contents_sm_Delete by done. apply lookup_delete_ne. intros <-. by apply Hk.
  - eapply view_effect; [done|done|done| |].
    + rewrite view_Delete by done. rewrite decide_True by done. unfold erasedOp. by rewrite decide_True.
    + intros k Hne. rewrite view_Delete by done. by rewrite decide_False.
  - intros _. rewrite contents_sm_Delete by done. simpl in Hsome. rewrite map_size_delete_Some by done.
    split; [|apply delete_subseteq].
    assert (size (sm_contents (kvData m)) <> 0%nat); [|lia].
    rewrite map_size_ne_0_lookup. by exists (ro_Key op).
Qed.


Lemma Inv_skip m0 ops m gs j g op todo :
  Inv m0 ops m gs -> gs !! j = Some g -> g_stage g = Idle -> g_todo g = op :: todo ->
  ro_Type op = TDelete -> contents (kvData m) !! ro_Key op = None ->
  Inv m0 ops m (<[j := mkGoroutine (g_shard g) todo Idle (g_written g ++ [op])]> gs).
Proof.
  intros HI Hj Hst Htodo Ht Hnone. assert (Hg : g ∈ gs) by (by eapply list_elem_of_lookup_2).
  assert (Hpend : pending g = []) by (unfold pending; by rewrite Hst).
  assert (Hop : op ∈ shardOps ops (g_shard g))
    by (rewrite (lay_split _ _ (inv_layout _ _ _ _ HI) g Hg), Hpend, Htodo; set_solver).
  apply shardOps_elem in Hop as [Hin Hs].
  apply (Inv_insert _ _ m _ _ g); try done; unfold started; rewrite ?Hpend, ?Htodo; simpl;
    rewrite ?length_app, <- ?app_assoc; simpl; try lia; try done.
  - by apply HI.
  - eapply view_effect; [done|done|done| |done]. unfold erasedOp. rewrite decide_True by done.
    unfold view. by rewrite Hnone.
  - intros Hf. exfalso. rewrite Forall_forall in Hf. by apply (Hf op).
Qed.

(** A goroutine that has an operation left finds room in the counter. *)
Lemma room_to_begin m0 ops m gs j g op todo :
  revision m0 + Z.of_nat (length ops) <= int64_max ->
  Inv m0 ops m gs -> gs !! j = Some g -> g_todo g = op :: todo -> revision m + 1 <= int64_max.
Proof.
  intros Hmax HI Hj Htodo. pose proof (total_bound _ _ (inv_layout _ _ _ _ HI)) as Htot.
  assert (Hlt : (1 <= sum_list_with (fun g => length (g_todo g)) gs)%nat).
  { rewrite <- (take_drop_middle _ _ _ Hj), sum_list_with_app. simpl. rewrite Htodo. simpl. lia. }
  pose proof (inv_rev _ _ _ _ HI). lia.
Qed.

(** Taking a revision. *)
Lemma Inv_take m0 ops m gs j g op todo st :
  Inv m0 ops m gs -> gs !! j = Some g -> g_stage g = Idle -> g_todo g = op :: todo ->
  pending (mkGoroutine (g_shard g) todo st (g_written g)) = [op] ->
  stage_ok m (mkGoroutine (g_shard g) todo st (g_written g)) ->
  revision m0 + Z.of_nat (length ops) <= int64_max -> int64_min <= revision m0 ->
  Inv m0 ops (setData m (kvData m) (nextRevision m) (leases m))
    (<[j := mkGoroutine (g_shard g) todo st (g_written g)]> gs).
Proof.
  intros HI Hj Hst Htodo Hpend' Hok Hmax Hmin.
  assert (Hpend : pending g = []) by (unfold pending; by rewrite Hst).
  pose proof (room_to_begin _ _ _ _ _ _ _ _ Hmax HI Hj Htodo) as Hroom.
  assert (Hrev : nextRevision m = revision m + 1).
  { apply wrap_i64_id. pose proof (inv_rev _ _ _ _ HI). unfold_ints. lia. }
  apply (Inv_insert _ _ m _ _ g); try done; unfold started; rewrite ?Hpend', ?Hpend, ?Htodo; simpl;
    rewrite ?Hrev; try lia; try done.
  - by apply HI.
  - intros k Hk. exact (view_own _ _ _ _ _ _ _ HI Hj Hk).
  - intros _. split; [lia|done].
Qed.

(** Accesses to the leases and the watchers. *)
Lemma Inv_quiet m0 ops m gs j g m' g' :
  Inv m0 ops m gs -> gs !! j = Some g -> kvData m' = kvData m -> revision m' = revision m ->
  g_shard g' = g_shard g -> g_written g' = g_written g -> g_todo g' = g_todo g ->
  pending g = [] -> pending g' = [] -> stage_ok m' g' ->
  Inv m0 ops m' (<[j := g']> gs).
Proof.
  intros HI Hj Hd Hr Hs Hw Ht Hp Hp' Hok.
  apply (Inv_insert _ _ m _ _ g); try done; unfold started; rewrite ?Hd, ?Hr, ?Hw, ?Ht, ?Hp, ?Hp'; try lia; try done.
  - apply HI.
  - intros k Hk. unfold view at 1. rewrite Hd. by eapply view_own.
Qed.

Lemma Inv_gstep m0 ops m gs m' gs' :
  revision m0 + Z.of_nat (length ops) <= int64_max -> int64_min <= revision m0 ->
  Inv m0 ops m gs -> gstep (m, gs) (m', gs') -> Inv m0 ops m' gs'.
Proof.
  intros Hmax Hmin HI Hstep. inversion Hstep as [m1 gs1 j g m2 g' Hj Hadv]; subst.
  unfold advance in Hadv. destruct (g_stage g) eqn:Hst.
  - destruct (g_todo g) as [|op todo] eqn:Htodo; [done|]. case_decide as Ht; simplify_eq/=.
    + unfold deleteBegin in Hadv. simpl in Hadv.
      rewrite <- sm_contents_lookup in Hadv by apply HI.
      destruct (sm_contents (kvData m) !! ro_Key op) as [kv|] eqn:E; simplify_eq.
      * by eapply Inv_take.
      * by eapply Inv_skip.
    + unfold putBegin in Hadv. simplify_eq. by eapply Inv_take.
  - pose proof (Inv_putWrite _ _ _ _ _ _ _ _ HI Hj Hst) as HI'.
    destruct (putWrite m g op newRevision). by simplify_eq/=.
  - unfold putAttach, deleteDetach in Hadv. simplify_eq.
    eapply (Inv_quiet _ _ m _ _ g); try done. unfold pending. by rewrite Hst.
  - pose proof (Inv_deleteRemove _ _ _ _ _ _ _ _ HI Hj Hst) as HI'.
    destruct (deleteRemove m g op kv). by simplify_eq/=.
  - unfold putAttach, deleteDetach in Hadv. simplify_eq.
    eapply (Inv_quiet _ _ m _ _ g); try done. unfold pending. by rewrite Hst.
  - unfold putAttach, deleteDetach in Hadv. simplify_eq.
    eapply (Inv_quiet _ _ m _ _ g); try done. unfold pending. by rewrite Hst.
Qed.

Lemma spawn_elem ops g : g ∈ spawn ops -> g = mkGoroutine (g_shard g) (shardOps ops (g_shard g)) Idle [].
Proof. intros (i & -> & _)%list_elem_of_fmap. done. Qed.

Lemma Inv_spawn m ops : wf_map (kvData m) -> Inv m ops m (spawn ops).
Proof.
  intros Hm.
  assert (Hz : forall (f : Goroutine -> nat), (forall g, g ∈ spawn ops -> f g = 0%nat) ->
    sum_list_with f (spawn ops) = 0%nat).
  { intros f. induction (spawn ops) as [|g gs IH]; intros Hf; simpl; [done|].
    rewrite (Hf g) by (by left). apply IH. intros. apply Hf. by right. }
  assert (Htot : total (spawn ops) = 0%nat) by (apply Hz; by intros g ->%spawn_elem).
  assert (Hfl : inFlight (spawn ops) = 0%nat) by (apply Hz; by intros g ->%spawn_elem).
  split; [done| | | |lia|intros; lia|intros; lia|done].
  - split.
    + intros g Hg. rewrite (spawn_elem _ _ Hg). done.
    + unfold spawn. rewrite <- list_fmap_compose. apply list_fmap_id.
  - by intros g ->%spawn_elem.
  - intros k. replace (writtenTo (spawn ops) k) with (@nil RaftOperation); [done|].
    unfold writtenTo. symmetry. apply ofKey_none. intros op Hop. exfalso.
    apply list_elem_of_In, in_concat in Hop as (l & Hl & Hop). apply list_elem_of_In in Hl.
    apply list_elem_of_fmap in Hl as (g & -> & Hg). by rewrite (spawn_elem _ _ Hg) in Hop.
Qed.

Lemma Inv_run m0 ops m gs :
  wf_map (kvData m0) -> revision m0 + Z.of_nat (length ops) <= int64_max -> int64_min <= revision m0 ->
  rtc gstep (m0, spawn ops) (m, gs) -> Inv m0 ops m gs.
Proof.
  intros Hm Hmax Hmin Hrun. change (Inv m0 ops (m, gs).1 (m, gs).2).
  assert (H0 : Inv m0 ops (m0, spawn ops).1 (m0, spawn ops).2) by (by apply Inv_spawn).
  revert Hrun H0. generalize (m0, spawn ops). intros x Hrun.
  induction Hrun as [x|[m1 gs1] [m2 gs2] z Hs _ IH]; intros HI; [done|]. apply IH. by eapply Inv_gstep.
Qed.


(** ** Finished executions *)

Lemma ofKey_shardOps k ops : ofKey k (shardOps ops (getShard k)) = ofKey k ops.
Proof.
  induction ops as [|op ops IH]; [done|]. unfold ofKey, shardOps, opShard in *. simpl.
  destruct (Z.eqb_spec (getShard (ro_Key op)) (getShard k)) as [Hs|Hs]; simpl.
  - destruct (String.eqb (ro_Key op) k); [by f_equal|done].
  - destruct (String.eqb_spec (ro_Key op) k) as [<-|]; [done|done].
Qed.

Lemma finished_written ops gs g :
  Layout ops gs -> finished gs -> g ∈ gs -> pending g = [] /\ g_written g = shardOps ops (g_shard g).
Proof.
  intros HL Hf Hg. unfold finished in Hf. rewrite Forall_forall in Hf. destruct (Hf g Hg) as [Ht Hst].
  assert (Hp : pending g = []) by (unfold pending; by rewrite Hst).
  split; [done|]. by rewrite (lay_split _ _ HL g Hg), Hp, Ht, !app_nil_r.
Qed.

Lemma writtenTo_finished ops gs k : Layout ops gs -> finished gs -> writtenTo gs k = ofKey k ops.
Proof.
  intros HL Hf. destruct (decide (getShard k ∈ (opShard <$> ops))) as [Hin|Hnin].
  - apply elem_of_remove_dups in Hin. rewrite <- (lay_shards _ _ HL) in Hin.
    apply list_elem_of_fmap in Hin as (g & Hs & Hg).
    destruct (finished_written _ _ _ HL Hf Hg) as [_ Hw].
    apply list_elem_of_lookup_1 in Hg as [j Hj].
    rewrite (writtenTo_local _ _ _ _ _ HL Hj) by done. by rewrite Hw, <- Hs, ofKey_shardOps.
  - rewrite (ofKey_none k ops).
    2:{ intros op Hop <-. apply Hnin, list_elem_of_fmap. by exists op. }
    apply ofKey_none. intros op Hop <-. apply Hnin.
    apply list_elem_of_In, in_concat in Hop as (l & Hl & Hop). apply list_elem_of_In in Hl, Hop.
    apply list_elem_of_fmap in Hl as (g & -> & Hg).
    destruct (finished_written _ _ _ HL Hf Hg) as [_ Hw]. rewrite Hw in Hop.
    apply shardOps_elem in Hop as [Hop _]. apply list_elem_of_fmap. by exists op.
Qed.

Lemma total_finished ops gs : Layout ops gs -> finished gs -> total gs = length ops /\ inFlight gs = 0%nat.
Proof.
  intros HL Hf. rewrite <- (total_bound _ _ HL). split.
  - replace (sum_list_with _ gs) with 0%nat; [lia|]. clear HL.
    induction Hf as [|g gs [Ht _] _ IH]; simpl; [done|]. by rewrite Ht, <- IH.
  - clear HL. unfold inFlight. induction Hf as [|g gs [_ Hst] _ IH]; simpl; [done|].
    rewrite IH. unfold pending. by rewrite Hst.
Qed.

Lemma parallelApply_spec m ops m' :
  wf_map (kvData m) -> revision m + Z.of_nat (length ops) <= int64_max -> int64_min <= revision m ->
  parallelApply m ops m' ->
  wf_map (kvData m') /\ (forall k, view m' k = fold_left erasedOp (ofKey k ops) (view m k)) /\
  revision m <= revision m' <= revision m + Z.of_nat (length ops) /\
  (Forall (fun op => ro_Type op <> TDelete) ops -> revision m' = revision m + Z.of_nat (length ops)) /\
  (Forall (fun op => ro_Type op = TDelete) ops ->
     revision m' + Z.of_nat (size (contents (kvData m'))) =
       revision m + Z.of_nat (size (contents (kvData m))) /\
     contents (kvData m') ⊆ contents (kvData m)).
Proof.
  intros Hm Hmax Hmin (gs & Hrun & Hf). pose proof (Inv_run _ _ _ _ Hm Hmax Hmin Hrun) as HI.
  pose proof (inv_layout _ _ _ _ HI) as HL. destruct (total_finished _ _ HL Hf) as [Htot Hfl].
  pose proof (inv_rev _ _ _ _ HI) as Hr. rewrite Htot in Hr.
  split; [apply HI|]. split; [|split; [done|split]].
  - intros k. rewrite (inv_view _ _ _ _ HI). by rewrite (writtenTo_finished ops).
  - intros Hp. rewrite (inv_puts _ _ _ _ HI Hp). by rewrite Htot.
  - intros Hd. rewrite (inv_deletes _ _ _ _ HI Hd), Hfl. split; [lia|by apply (inv_sub _ _ _ _ HI)].
Qed.

(** ** Termination *)

Definition stageCost (st : Stage) : nat :=
  match st with
  | Idle => 0 | HaveRevision _ _ | Removing _ _ => 3 | Written _ _ | Removed _ _ => 2 | Notifying _ _ _ => 1
  end.

Definition work (gs : list Goroutine) : nat :=
  sum_list_with (fun g => 4 * length (g_todo g) + stageCost (g_stage g))%nat gs.

Lemma gstep_work m gs m' gs' : gstep (m, gs) (m', gs') -> (work gs' < work gs)%nat.
Proof.
  intros Hstep. inversion Hstep as [m1 gs1 j g m2 g' Hj Hadv]; subst.
  pose proof (sum_list_insert (fun g => 4 * length (g_todo g) + stageCost (g_stage g))%nat _ _ _ g' Hj) as Hs.
  cbv beta in Hs. fold (work gs) (work (<[j := g']> gs)) in Hs.
  assert (4 * length (g_todo g') + stageCost (g_stage g') < 4 * length (g_todo g) + stageCost (g_stage g))%nat; [|lia].
  clear Hs Hstep. unfold advance, putBegin, deleteBegin, putWrite, putAttach, deleteRemove, deleteDetach in Hadv.
  destruct (g_stage g); simplify_eq/=; try lia.
  destruct (g_todo g) as [|op todo]; [done|]. simpl. case_decide; simplify_eq/=; [|lia].
  destruct (sm_Get (kvData m) (ro_Key op)); simplify_eq/=; lia.
Qed.

Lemma advance_progress m g : (g_todo g = [] /\ g_stage g = Idle) \/ is_Some (advance m g).
Proof. unfold advance. destruct (g_stage g); eauto. destruct (g_todo g); eauto. Qed.

Lemma gstep_progress m gs : finished gs \/ exists m' gs', gstep (m, gs) (m', gs').
Proof.
  destruct (decide (Forall (fun g => g_todo g = [] /\ advance m g = None) gs)) as [Hf|Hf].
  - left. eapply Forall_impl; [exact Hf|]. intros g [Ht Ha].
    destruct (advance_progress m g) as [?|[x Hx]]; [done|congruence].
  - right. apply not_Forall_Exists in Hf; [|apply _]. apply Exists_exists in Hf as (g & Hg & Hn).
    apply list_elem_of_lookup_1 in Hg as [j Hj].
    destruct (advance_progress m g) as [[Ht Hst]|[[m' g'] Hx]].
    + exfalso. apply Hn. split; [done|]. unfold advance. by rewrite Hst, Ht.
    + exists m', (<[j := g']> gs). by econstructor.
Qed.

Lemma gstep_finishes n : forall m gs, (work gs <= n)%nat ->
  exists m' gs', rtc gstep (m, gs) (m', gs') /\ finished gs'.
Proof.
  induction n as [|n IH]; intros m gs Hn; (destruct (gstep_progress m gs) as [Hf|(m1 & gs1 & Hs)];
    [by exists m, gs; split; [apply rtc_refl|]|]); pose proof (gstep_work _ _ _ _ Hs); [lia|].
  destruct (IH m1 gs1 ltac:(lia)) as (m' & gs' & Hr & Hf). exists m', gs'. split; [|done]. by eapply rtc_l.
Qed.

(** However the scheduler chooses, the goroutines finish. *)
Lemma parallelApply_total m ops :
  (exists m', parallelApply m ops m') /\
  forall x, rtc gstep (m, spawn ops) x -> exists m' gs', rtc gstep x (m', gs') /\ finished gs'.
Proof.
  split.
  - destruct (gstep_finishes _ m (spawn ops) (Nat.le_refl _)) as (m' & gs' & ? & ?). by exists m', gs'.
  - intros [m1 gs1] _. by apply (gstep_finishes _ m1 gs1 (Nat.le_refl _)).
Qed.

End batch.
