(* ===== verification/BatchTheorems.v ===== *)
(** * Parallel batches keep the store well formed and match the sequential order

    [Good] is the invariant of the executions of [BatchApply] that makes the
    store well formed while revisions are taken by one goroutine and used later.
    The properties compare any execution with applying the operations one after
    the other. *)

From S2P Require Import Prelude GoBytes OrderedTree KvTypes ShardedMap MemoryEtcd EtcdFacts EtcdOps BatchApply.

Section good.
Context `{!MapOrder}.

Abbreviation etcd := (MemoryEtcd ShardedMap).
Abbreviation data m := (contents (kvData m)).

(** ** A revision that is taken and not used yet *)

(** It is new, and later than everything in the shard it will be written to. *)
Record taken (m : etcd) (i r : Z) : Prop := {
  tk_range : 1 <= r <= revision m;
  tk_fresh k kv : data m !! k = Some kv -> ModRevision kv <> r;
  tk_shard k kv : data m !! k = Some kv -> getShard k = i -> ModRevision kv < r;
}.

Definition holds (g : Goroutine) (r : Z) : Prop := exists op, g_stage g = HaveRevision op r.

Record Good (m : etcd) (gs : list Goroutine) : Prop := {
  good_wf : wf_etcd m;
  good_taken g r : g ∈ gs -> holds g r -> taken m (g_shard g) r;
  good_once i j g g' r : gs !! i = Some g -> gs !! j = Some g' -> holds g r -> holds g' r -> i = j;
}.

Lemma taken_same m m' i r : kvData m' = kvData m -> revision m <= revision m' -> taken m i r -> taken m' i r.
Proof.
  intros Hd Hr Ht. pose proof (tk_range _ _ _ Ht).
  split; [lia|rewrite Hd; apply Ht|rewrite Hd; apply Ht].
Qed.

(** The goroutine that moves holds no revision afterwards. *)
Lemma Good_insert m gs j g m' g' :
  Good m gs -> gs !! j = Some g -> wf_etcd m' -> (forall r, ~ holds g' r) ->
  (forall g2 r, g2 ∈ gs -> g2 <> g -> holds g2 r -> taken m (g_shard g2) r -> taken m' (g_shard g2) r) ->
  Good m' (<[j := g']> gs).
Proof.
  intros HG Hj Hwf Hno Hk. split; [done| |].
  - intros g2 r Hg2 Hh. apply list_elem_of_lookup_1 in Hg2 as [i Hi].
    apply list_lookup_insert_Some in Hi as [(_ & -> & _)|[Hne Hi]]; [by apply Hno in Hh|].
    assert (Hin : g2 ∈ gs) by (by eapply list_elem_of_lookup_2).
    apply Hk; [done| |done|by apply (good_taken _ _ HG)].
    intros ->. apply Hne. by apply (good_once _ _ HG j i g g r).
  - intros i1 i2 g1 g2 r H1 H2 Hh1 Hh2.
    apply list_lookup_insert_Some in H1 as [(_ & <- & _)|[Hne1 H1]]; [by apply Hno in Hh1|].
    apply list_lookup_insert_Some in H2 as [(_ & <- & _)|[Hne2 H2]]; [by apply Hno in Hh2|].
    by apply (good_once _ _ HG i1 i2 g1 g2 r).
Qed.

Lemma Good_begin m gs j g op todo :
  Good m gs -> gs !! j = Some g -> revision m + 1 <= int64_max ->
  Good (putBegin m g op todo).1 (<[j := (putBegin m g op todo).2]> gs).
Proof.
  intros HG Hj Hmax. pose proof (good_wf _ _ HG) as Hwf. pose proof (wd_rev _ _ (we_data _ Hwf)).
  unfold putBegin. rewrite (nextRevision_eq m 1) by (done || lia). cbn [fst snd].
  assert (Hnew : taken (setData m (kvData m) (revision m + 1) (leases m)) (g_shard g) (revision m + 1)).
  { split; simpl; [lia|..]; intros k kv Hk; destruct (wd_kv _ _ (we_data _ Hwf) k kv Hk) as (? & ? & ?); lia. }
  assert (Hold : forall g2 r, g2 ∈ gs -> holds g2 r ->
    taken (setData m (kvData m) (revision m + 1) (leases m)) (g_shard g2) r /\ r <= revision m).
  { intros g2 r Hin Hh. pose proof (good_taken _ _ HG g2 r Hin Hh) as Ht.
    split; [apply (taken_same m); [done|simpl; lia|done]|apply Ht]. }
  split; [by apply wf_setRevision; [|lia]| |].
  - intros g2 r Hg2 Hh. apply list_elem_of_lookup_1 in Hg2 as [i Hi].
    apply list_lookup_insert_Some in Hi as [(_ & <- & _)|[Hne Hi]].
    + destruct Hh as [op' Hh]. simplify_eq/=. done.
    + apply (Hold g2 r); [by eapply list_elem_of_lookup_2|done].
  - intros i1 i2 g1 g2 r H1 H2 Hh1 Hh2.
    apply list_lookup_insert_Some in H1 as [(<- & <- & _)|[Hne1 H1]];
      apply list_lookup_insert_Some in H2 as [(<- & <- & _)|[Hne2 H2]]; [done|..].
    + destruct Hh1 as [op1 Hh1]. simplify_eq/=.
      destruct (Hold g2 (revision m + 1)); [by eapply list_elem_of_lookup_2|done|lia].
    + destruct Hh2 as [op2 Hh2]. simplify_eq/=.
      destruct (Hold g1 (revision m + 1)); [by eapply list_elem_of_lookup_2|done|lia].
    + by apply (good_once _ _ HG i1 i2 g1 g2 r).
Qed.

Lemma Good_write ops m gs j g op r :
  Layout ops gs -> Good m gs -> gs !! j = Some g -> g_stage g = HaveRevision op r ->
  Good (putWrite m g op r).1 (<[j := (putWrite m g op r).2]> gs).
Proof.
  intros HL HG Hj Hst. assert (Hg : g ∈ gs) by (by eapply list_elem_of_lookup_2).
  pose proof (good_wf _ _ HG) as Hwf. pose proof (we_data _ Hwf) as Hd. pose proof (wd_map _ _ Hd) as Hm.
  assert (Hh : holds g r) by (by exists op). pose proof (good_taken _ _ HG g r Hg Hh) as Ht.
  assert (Hs : getShard (ro_Key op) = g_shard g).
  { apply (own_shard ops gs); [done|done|]. unfold pending. rewrite Hst. set_solver. }
  unfold putWrite. cbn [fst snd]. set (kv := nextKv _ _ _ _ _).
  assert (Hmod : ModRevision kv = r) by (unfold kv, nextKv; by destruct (Get _ _)).
  apply (Good_insert m gs j g); try done.
  - split; [|apply Hwf|apply Hwf]. apply wf_data_write; [done|apply Ht|apply Ht|].
    intros p Hp. by apply (tk_shard _ _ _ Ht (ro_Key op)).
  - intros r' [op' Hop']. by simplify_eq/=.
  - intros g2 r2 Hin Hne Hh2 Ht2. assert (Hr2 : r2 <> r).
    { intros ->. apply Hne. apply list_elem_of_lookup_1 in Hin as [i Hi].
      assert (i = j) by (by apply (good_once _ _ HG i j g2 g r)). congruence. }
    split; simpl; rewrite ?contents_sm_Set by done.
    + apply Ht2.
    + intros k kv' [[_ <-]|[_ Hk]]%lookup_insert_Some; [congruence|by apply (tk_fresh _ _ _ Ht2 k)].
    + intros k kv' [[<- <-]|[_ Hk]]%lookup_insert_Some Hsh; [|by apply (tk_shard _ _ _ Ht2 k)].
      exfalso. apply list_elem_of_lookup_1 in Hin as [i Hi].
      apply (other_shard ops gs i j g g2); try done; [|congruence]. intros ->. congruence.
Qed.

Lemma Good_remove m gs j g op kv :
  Good m gs -> gs !! j = Some g -> g_stage g = Removing op kv ->
  Good (deleteRemove m g op kv).1 (<[j := (deleteRemove m g op kv).2]> gs).
Proof.
  intros HG Hj Hst. pose proof (good_wf _ _ HG) as Hwf. pose proof (we_data _ Hwf) as Hd.
  pose proof (wd_map _ _ Hd) as Hm. unfold deleteRemove. cbn [fst snd].
  apply (Good_insert m gs j g); try done.
  - split; [|apply Hwf|apply Hwf]. by apply wf_data_Delete.
  - intros r' [op' Hop']. by simplify_eq/=.
  - intros g2 r2 Hin Hne Hh2 Ht2. split; simpl; rewrite ?contents_sm_Delete by done.
    + apply Ht2.
    + intros k kv' [_ Hk]%lookup_delete_Some. by apply (tk_fresh _ _ _ Ht2 k).
    + intros k kv' [_ Hk]%lookup_delete_Some. by apply (tk_shard _ _ _ Ht2 k).
Qed.

(** Accesses that leave the shards alone. *)
Lemma Good_quiet m gs j g m' g' :
  Good m gs -> gs !! j = Some g -> kvData m' = kvData m -> revision m <= revision m' -> wf_etcd m' ->
  (forall r, ~ holds g' r) -> Good m' (<[j := g']> gs).
Proof.
  intros HG Hj Hd Hr Hwf Hno. apply (Good_insert m gs j g); try done.
  intros g2 r2 _ _ _. by apply taken_same.
Qed.

Lemma Good_gstep m0 ops m gs m' gs' :
  revision m0 + Z.of_nat (length ops) <= int64_max -> Inv m0 ops m gs -> Good m gs ->
  gstep (m, gs) (m', gs') -> Good m' gs'.
Proof.
  intros Hmax HI HG Hstep. pose proof (good_wf _ _ HG) as Hwf.
  inversion Hstep as [m1 gs1 j g m2 g' Hj Hadv]; subst. unfold advance in Hadv.
  destruct (g_stage g) eqn:Hst; try apply (inj Some) in Hadv.
  - destruct (g_todo g) as [|op todo] eqn:Htodo; [done|]. apply (inj Some) in Hadv.
    assert (Hr : revision m + 1 <= int64_max) by (by eapply room_to_begin).
    case_decide as Ht; [|by pose proof (Good_begin m gs j g op todo HG Hj Hr) as HG'; rewrite Hadv in HG'].
    unfold deleteBegin in Hadv. rewrite (nextRevision_eq m 1) in Hadv by (done || lia).
    assert (Hno : forall g2 r, g_stage g2 = Idle \/ (exists op kv, g_stage g2 = Removing op kv) -> ~ holds g2 r).
    { intros g2 r Hs [op' Hh]. destruct Hs as [Hs|(? & ? & Hs)]; congruence. }
    destruct (Get (kvData m) (ro_Key op)) as [kv|]; simplify_eq.
    + eapply Good_quiet; try done; [simpl; lia|by apply wf_setRevision; [|lia]|].
      intros r. apply Hno. right. by eexists _, _.
    + eapply Good_quiet; try done. intros r. apply Hno. by left.
  - pose proof (Good_write ops m gs j g op newRevision (inv_layout _ _ _ _ HI) HG Hj Hst) as HG'.
    by rewrite Hadv in HG'.
  - unfold putAttach in Hadv. simplify_eq. eapply Good_quiet; try done.
    + apply wf_setLeases; [done|]. intros id l (l0 & Hl & -> & _)%attachKey_lookup. by apply (we_leases _ Hwf).
    + intros r [op' Hop']. by simplify_eq/=.
  - pose proof (Good_remove m gs j g op kv HG Hj Hst) as HG'. by rewrite Hadv in HG'.
  - unfold deleteDetach in Hadv. simplify_eq. eapply Good_quiet; try done.
    + apply wf_setLeases; [done|]. intros id l (l0 & Hl & -> & _)%detachKey_lookup. by apply (we_leases _ Hwf).
    + intros r [op' Hop']. by simplify_eq/=.
  - simplify_eq. eapply Good_quiet; try done; [by apply wf_notifyWatchers|].
    intros r [op' Hop']. by simplify_eq/=.
Qed.


(** ** Finished batches *)

Lemma Good_run m0 ops m gs :
  wf_etcd m0 -> revision m0 + Z.of_nat (length ops) <= int64_max ->
  rtc gstep (m0, spawn ops) (m, gs) -> Good m gs.
Proof.
  intros Hwf Hmax Hrun. pose proof (wd_rev _ _ (we_data _ Hwf)) as Hrev.
  assert (Hm : wf_map (kvData m0)) by apply Hwf.
  assert (Hmin : int64_min <= revision m0) by (unfold_ints; lia).
  change (Good (m, gs).1 (m, gs).2).
  assert (H0 : Inv m0 ops (m0, spawn ops).1 (m0, spawn ops).2) by (by apply Inv_spawn).
  assert (H1 : Good (m0, spawn ops).1 (m0, spawn ops).2).
  { assert (Hno : forall g r, g ∈ spawn ops -> ~ holds g r)
      by (intros g r ->%spawn_elem [op Hop]; done).
    split; [done| |].
    - intros g r Hg Hh. by apply Hno in Hh.
    - intros i j g g' r Hi _ Hh _. apply Hno in Hh; [done|]. by eapply list_elem_of_lookup_2. }
  revert Hrun H0 H1. generalize (m0, spawn ops). intros x Hrun.
  induction Hrun as [x|[m1 gs1] [m2 gs2] z Hs _ IH]; intros HI HG; [done|].
  apply IH; [by eapply Inv_gstep|by eapply Good_gstep].
Qed.

Lemma parallelApply_wf m ops m' :
  wf_etcd m -> revision m + Z.of_nat (length ops) <= int64_max -> parallelApply m ops m' -> wf_etcd m'.
Proof. intros Hwf Hmax (gs & Hrun & _). by eapply good_wf, Good_run. Qed.

(** ** One after the other *)

(** A put or a deletion as [applyOperation] does it. *)
Definition applyDirect (m : etcd) (op : RaftOperation) : etcd :=
  if decide (ro_Type op = TDelete) then (deleteDirect m (ro_Key op) (ro_RangeEnd op)).1
  else (putDirect m (ro_Key op) (ro_Value op) (ro_LeaseID op)).1.

Definition applyEach (m : etcd) (ops : list RaftOperation) : etcd := fold_left applyDirect ops m.

(** Does an operation of the list delete [k]? *)
Definition deletes (ops : list RaftOperation) (k : string) : bool :=
  existsb (fun op => matchWatch k (ro_Key op) (ro_RangeEnd op)) ops.

Lemma putDirect_view m op k :
  wf_etcd m -> revision m + 1 <= int64_max -> ro_Type op <> TDelete ->
  let m' := applyDirect m op in
  wf_etcd m' /\ revision m' = revision m + 1 /\
  view m' k = if decide (ro_Key op = k) then erasedOp (view m k) op else view m k.
Proof.
  intros Hwf Hr Ht m'. unfold m', applyDirect. rewrite decide_False by done. unfold putDirect.
  destruct (storeKv_spec m (ro_Key op) (ro_Value op) (ro_LeaseID op) Hwf Hr) as (m1 & -> & Hwf1 & Hd & Hr1 & _).
  cbn [fst]. split; [by apply wf_notifyWatchers|]. split; [done|]. unfold view. simpl.
  simpl in Hd. rewrite Hd, lookup_insert. case_decide as Hk; [|done]. subst k. by rewrite <- (erase_nextKv _ _ (revision m + 1)).
Qed.

Lemma applyEach_puts ops : forall m k,
  wf_etcd m -> revision m + Z.of_nat (length ops) <= int64_max ->
  Forall (fun op => ro_Type op <> TDelete) ops ->
  view (applyEach m ops) k = fold_left erasedOp (ofKey k ops) (view m k) /\
  revision (applyEach m ops) = revision m + Z.of_nat (length ops).
Proof.
  induction ops as [|op ops IH]; intros m k Hwf Hr Hf; [by split; [|simpl; lia]|].
  apply Forall_cons in Hf as [Ht Hf]. cbn [length] in Hr.
  destruct (putDirect_view m op k Hwf ltac:(lia) Ht) as (Hwf' & Hr' & Hv).
  destruct (IH (applyDirect m op) k Hwf' ltac:(lia) Hf) as [IHv IHr].
  unfold applyEach in *. cbn [fold_left length]. rewrite IHv, IHr, Hv. split; [|lia].
  unfold ofKey. cbn [List.filter].
  destruct (String.eqb_spec (ro_Key op) k) as [Heq|Hne]; [by rewrite decide_True|by rewrite decide_False].
Qed.

Lemma deleteDirect_data m key rangeEnd :
  wf_etcd m -> revision m + Z.of_nat (size (data m)) <= int64_max ->
  let m' := (deleteDirect m key rangeEnd).1 in
  wf_etcd m' /\
  revision m' + Z.of_nat (size (data m')) = revision m + Z.of_nat (size (data m)) /\
  forall k, data m' !! k = if matchWatch k key rangeEnd then None else data m !! k.
Proof.
  intros Hwf Hr. pose proof (wd_keyed _ _ (we_data _ Hwf)) as Hk.
  set (rs := rangeRecords (data m) key rangeEnd).
  pose proof (size_without (data m) (Key <$> rs) (rangeRecords_nodup _ key rangeEnd Hk)) as Hsz.
  assert (Hex : existing (data m) (Key <$> rs) = Key <$> rs).
  { unfold existing. apply List.forallb_filter_id, forallb_forall. intros k Hin. apply list_elem_of_In in Hin.
    apply rangeRecords_keys in Hin; [|done]. unfold isKey. by destruct Hin as [[kv ->] _]. }
  rewrite Hex, length_fmap in Hsz.
  destruct (deleteDirect_spec m key rangeEnd Hwf ltac:(fold rs; lia)) as (m' & -> & Hwf' & Hd & Hrev & _).
  fold rs in Hrev. cbn [fst]. rewrite Hd, <- without_range by done. fold rs. split_and!; [done|lia|].
  intros k. rewrite without_lookup. unfold rs.
  destruct (decide (k ∈ (Key <$> rangeRecords (data m) key rangeEnd))) as [Hin|Hnin].
  - apply rangeRecords_keys in Hin as [_ ->]; done.
  - destruct (matchWatch k key rangeEnd) eqn:E; [|done]. destruct (data m !! k) as [kv|] eqn:E2; [|done].
    exfalso. apply Hnin, rangeRecords_keys; [done|]. by split; [eexists|].
Qed.


Lemma fold_deletes ops : forall m,
  wf_etcd m -> revision m + Z.of_nat (size (data m)) <= int64_max ->
  let m' := fold_left (fun m op => (deleteDirect m (ro_Key op) (ro_RangeEnd op)).1) ops m in
  wf_etcd m' /\
  revision m' + Z.of_nat (size (data m')) = revision m + Z.of_nat (size (data m)) /\
  forall k, data m' !! k = if deletes ops k then None else data m !! k.
Proof.
  induction ops as [|op ops IH]; intros m Hwf Hr; cbn [fold_left deletes existsb]; [done|].
  destruct (deleteDirect_data m (ro_Key op) (ro_RangeEnd op) Hwf Hr) as (Hwf1 & Hsz1 & Hd1).
  destruct (IH _ Hwf1 ltac:(lia)) as (Hwf2 & Hsz2 & Hd2). split_and!; [done|lia|].
  intros k. rewrite Hd2, Hd1. fold (deletes ops k).
  by destruct (deletes ops k), (matchWatch k (ro_Key op) (ro_RangeEnd op)).
Qed.

Lemma applyEach_deletes ops m :
  Forall (fun op => ro_Type op = TDelete) ops ->
  applyEach m ops = fold_left (fun m op => (deleteDirect m (ro_Key op) (ro_RangeEnd op)).1) ops m.
Proof.
  intros Hf. unfold applyEach. revert m. induction Hf as [|op ops Ht _ IH]; intros m; [done|].
  cbn [fold_left]. rewrite IH. unfold applyDirect. by rewrite decide_True.
Qed.

(** Deleting one by one or all at once, a key is gone if it is named. *)
Lemma erased_deletes ops k o :
  Forall (fun op => ro_Type op = TDelete) ops -> Forall (fun op => isSingleKey op = true) ops ->
  fold_left erasedOp (ofKey k ops) o = if deletes ops k then None else o.
Proof.
  intros Ht Hs. revert o. induction Ht as [|op ops Ht _ IH]; intros o; [done|].
  apply Forall_cons in Hs as [Hs1 Hs]. specialize (IH Hs). unfold ofKey in *. cbn [List.filter deletes existsb].
  fold (deletes ops k). unfold matchWatch, isSingleKey in *. rewrite Hs1, (String.eqb_sym k).
  destruct (String.eqb (ro_Key op) k); cbn [fold_left orb]; rewrite IH; [|done].
  unfold erasedOp. rewrite decide_True by done. by destruct (deletes ops k).
Qed.

Lemma deletes_split ops k :
  deletes (List.filter isSingleKey ops) k || deletes (List.filter (fun op => negb (isSingleKey op)) ops) k =
    deletes ops k.
Proof.
  induction ops as [|op ops IH]; [done|]. unfold deletes in *. cbn [List.filter existsb].
  destruct (isSingleKey op); cbn [negb existsb]; rewrite <- IH; destruct (matchWatch _ _ _); cbn [orb]; try done.
  by rewrite orb_true_r.
Qed.

Lemma Forall_filter_list {A} (P : A -> Prop) (f : A -> bool) l : Forall P l -> Forall P (List.filter f l).
Proof. rewrite !List.Forall_forall. intros Hf x [Hx _]%filter_In. by apply Hf. Qed.

Lemma deletes_spec m ops m' :
  wf_etcd m -> revision m + Z.of_nat (size (data m)) + Z.of_nat (length ops) <= int64_max ->
  Forall (fun op => ro_Type op = TDelete) ops -> batchApplyDelete m ops m' ->
  wf_etcd m' /\
  revision m' + Z.of_nat (size (data m')) = revision m + Z.of_nat (size (data m)) /\
  forall k, data m' !! k = if deletes ops k then None else data m !! k.
Proof.
  intros Hwf Hr Hf (m1 & Hpar & ->).
  pose proof (Forall_filter_list _ isSingleKey _ Hf) as Hf1.
  pose proof (filter_length_le isSingleKey ops) as Hlen.
  pose proof (wd_rev _ _ (we_data _ Hwf)) as Hrev.
  destruct (parallelApply_spec m (List.filter isSingleKey ops) m1 (wd_map _ _ (we_data _ Hwf)) ltac:(lia)
    ltac:(unfold_ints; lia) Hpar) as (_ & Hv1 & Hb1 & _ & Hdel1).
  destruct (Hdel1 Hf1) as [Hsz1 Hsub].
  pose proof (parallelApply_wf m (List.filter isSingleKey ops) m1 Hwf ltac:(lia) Hpar) as Hwf1.
  destruct (fold_deletes (List.filter (fun op => negb (isSingleKey op)) ops) m1 Hwf1 ltac:(simpl in *; lia))
    as (Hwf2 & Hsz2 & Hd2).
  split_and!; [done|simpl in *; lia|]. intros k.
  assert (Hv : data m1 !! k = if deletes (List.filter isSingleKey ops) k then None else data m !! k).
  { specialize (Hv1 k). rewrite erased_deletes in Hv1;
      [|done|apply List.Forall_forall; by intros op [_ ?]%filter_In].
    unfold view in Hv1. destruct (data m1 !! k) as [kv|] eqn:E.
    - pose proof (lookup_weaken _ _ _ _ E Hsub) as E'. rewrite E' in *.
      by destruct (deletes (List.filter isSingleKey ops) k).
    - destruct (deletes (List.filter isSingleKey ops) k); [done|]. by destruct (data m !! k). }
  rewrite <- (deletes_split ops k), Hd2.
  destruct (deletes (List.filter (fun op => negb (isSingleKey op)) ops) k); [by rewrite orb_true_r|].
  by rewrite orb_false_r.
Qed.

End good.

(** ** Schedules *)

Section schedules.
Context `{!MapOrder}.

Abbreviation etcd := (MemoryEtcd ShardedMap).

(** Runs the goroutines in the given order. *)
Fixpoint runSchedule (m : etcd) (gs : list Goroutine) (js : list nat) : option (etcd * list Goroutine) :=
  match js with
  | [] => Some (m, gs)
  | j :: js' =>
      match gs !! j with
      | Some g =>
          match advance m g with
          | Some (m', g') => runSchedule m' (<[j := g']> gs) js'
          | None => None
          end
      | None => None
      end
  end.

Lemma runSchedule_nsteps js : forall m gs m' gs',
  runSchedule m gs js = Some (m', gs') -> nsteps gstep (length js) (m, gs) (m', gs').
Proof.
  induction js as [|j js IH]; intros m gs m' gs' Hrun; simpl in *; [simplify_eq; constructor|].
  destruct (gs !! j) as [g|] eqn:Hj; [|done]. destruct (advance m g) as [[m1 g1]|] eqn:Ha; [|done].
  eapply nsteps_l; [by econstructor|by apply IH].
Qed.

Lemma runSchedule_rtc js m gs m' gs' :
  runSchedule m gs js = Some (m', gs') -> rtc gstep (m, gs) (m', gs').
Proof. intros Hrun. apply rtc_nsteps. exists (length js). by apply runSchedule_nsteps. Qed.

Definition isFinished (g : Goroutine) : bool :=
  match g_todo g, g_stage g with [], Idle => true | _, _ => false end.

Lemma isFinished_ok gs : forallb isFinished gs = true -> finished gs.
Proof.
  intros Hf. apply List.Forall_forall. rewrite forallb_forall in Hf. intros g Hg. specialize (Hf g Hg).
  unfold isFinished in Hf. by destruct (g_todo g), (g_stage g).
Qed.

(** The final store of a schedule that finishes the batch. *)
Definition scheduled (m : etcd) (ops : list RaftOperation) (js : list nat) : option etcd :=
  match runSchedule m (spawn ops) js with
  | Some (m', gs) => if forallb isFinished gs then Some m' else None
  | None => None
  end.

Lemma scheduled_parallel m ops js m' : scheduled m ops js = Some m' -> parallelApply m ops m'.
Proof.
  unfold scheduled. destruct (runSchedule m (spawn ops) js) as [[m1 gs]|] eqn:E; [|done].
  destruct (forallb isFinished gs) eqn:Ef; [|done]. intros ?; simplify_eq.
  exists gs. split; [by eapply runSchedule_rtc|by apply isFinished_ok].
Qed.

End schedules.

(** ** Properties *)

Section properties.
Context `{!MapOrder}.

Lemma work_spawn ops : work (spawn ops) = (4 * length ops)%nat.
Proof.
  rewrite <- (length_groups ops (remove_dups (opShard <$> ops))) by
    (first [apply NoDup_remove_dups | intros op Hop; apply elem_of_remove_dups, list_elem_of_fmap; by exists op]).
  unfold work, spawn. rewrite sum_fmap. induction (remove_dups (opShard <$> ops)) as [|i l IH]; cbn in *; lia.
Qed.

(** C32: a parallel batch terminates under every scheduler: an execution has at
    most four steps for each operation, and it can only stop when every
    goroutine has finished. *)
Theorem parallel_apply_terminates (m : MemoryEtcd ShardedMap) (ops : list RaftOperation) (n : nat)
    (m1 : MemoryEtcd ShardedMap) (gs : list Goroutine) :
  nsteps gstep n (m, spawn ops) (m1, gs) ->
  (n <= 4 * length ops)%nat /\ ((forall next, ~ gstep (m1, gs) next) <-> finished gs).
Proof.
  intros Hn. split.
  - rewrite <- work_spawn. enough (n + work gs <= work (spawn ops))%nat by lia. clear -Hn.
    remember (m, spawn ops) as x eqn:Ex. remember (m1, gs) as y eqn:Ey. generalize dependent m. generalize (spawn ops).
    induction Hn as [x|n x [m2 gs2] y Hs Hn IH]; intros gs0 m0 Ex; simplify_eq; [lia|].
    pose proof (gstep_work _ _ _ _ Hs). specialize (IH eq_refl gs2 m2 eq_refl). lia.
  - split.
    + intros Hstuck. destruct (gstep_progress m1 gs) as [Hf|(m2 & gs2 & Hs)]; [done|]. by destruct (Hstuck (m2, gs2)).
    + intros Hf [m2 gs2] Hs. inversion Hs as [? ? j g ? ? Hj Ha]; subst. unfold finished in Hf. rewrite Forall_forall in Hf.
      destruct (Hf g) as [Ht Hst]; [by apply list_elem_of_lookup_2 in Hj|]. unfold advance in Ha. by rewrite Hst, Ht in Ha.
Qed.

(** However the scheduler runs the goroutines of a batch of puts, they
    finish; the store is then well formed, its revision and the value, lease
    and version of every key are what applying the puts one after the other in
    log order gives. *)
Theorem batch_puts_match_log_order (m : MemoryEtcd ShardedMap) (ops : list RaftOperation) (Hwf : wf_etcd m)
    (Hr : revision m + Z.of_nat (length ops) <= int64_max)
    (Hops : Forall (fun op => ro_Type op = TPut) ops) :
  (forall m1 gs, rtc gstep (m, spawn ops) (m1, gs) ->
     exists m' gs', rtc gstep (m1, gs) (m', gs') /\ finished gs') /\
  forall m', batchApplyPut m ops m' ->
    wf_etcd m' /\ revision m' = revision (applyEach m ops) /\
    forall k, view m' k = view (applyEach m ops) k.
Proof.
  assert (Hf : Forall (fun op => ro_Type op <> TDelete) ops)
    by (eapply Forall_impl; [exact Hops|]; by intros op ->).
  split; [intros m1 gs; apply parallelApply_total|]. intros m' Hpar.
  pose proof (wd_rev _ _ (we_data _ Hwf)).
  destruct (parallelApply_spec m ops m' (wd_map _ _ (we_data _ Hwf)) Hr ltac:(unfold_ints; lia) Hpar)
    as (_ & Hv & _ & Hp & _).
  split; [by eapply parallelApply_wf|]. rewrite (Hp Hf). split.
  - by destruct (applyEach_puts ops m "" Hwf Hr Hf) as [_ ->].
  - intros k. destruct (applyEach_puts ops m k Hwf Hr Hf) as [-> _]. apply Hv.
Qed.

(** However the scheduler runs a batch of deletions, and although it does
    the single keys before the ranges, it removes the same records and takes
    the same number of revisions as the deletions one after the other in log
    order, and leaves a well-formed store. *)
Theorem batch_deletes_match_log_order (m : MemoryEtcd ShardedMap) (ops : list RaftOperation) (Hwf : wf_etcd m)
    (Hr : revision m + Z.of_nat (size (contents (kvData m))) + Z.of_nat (length ops) <= int64_max)
    (Hops : Forall (fun op => ro_Type op = TDelete) ops) :
  (exists m', batchApplyDelete m ops m') /\
  forall m', batchApplyDelete m ops m' ->
    wf_etcd m' /\ revision m' = revision (applyEach m ops) /\
    contents (kvData m') = contents (kvData (applyEach m ops)).
Proof.
  split.
  - destruct (proj1 (parallelApply_total m (List.filter isSingleKey ops))) as [m1 H1]. by eexists _, m1.
  - intros m' Hb. destruct (deletes_spec m ops m' Hwf Hr Hops Hb) as (Hwf' & Hsz & Hd).
    destruct (fold_deletes ops m Hwf ltac:(lia)) as (_ & Hsz2 & Hd2).
    rewrite (applyEach_deletes ops m Hops) in *.
    assert (Heq : contents (kvData m') = contents (kvData (fold_left
      (fun m op => (deleteDirect m (ro_Key op) (ro_RangeEnd op)).1) ops m)))
      by (apply map_eq; intros k; by rewrite Hd, Hd2).
    split_and!; [done| |done]. rewrite Heq in Hsz. lia.
Qed.

End properties.

(** ** Concrete batches *)

Definition put (key value : string) : RaftOperation :=
  mkRaftOperation TPut key value 0 "" "" 0 [] [] [].

Definition del (key rangeEnd : string) : RaftOperation :=
  mkRaftOperation TDelete key "" 0 rangeEnd "" 0 [] [] [].

Definition newEtcd : MemoryEtcd ShardedMap := NewMemoryEtcd.

(** Two shards, two goroutines: the log order and its reverse. *)
Definition abOps : list RaftOperation := [put "a" "1"; put "b" "2"].
Definition abSchedule : list nat := [0; 0; 0; 0; 1; 1; 1; 1]%nat.
Definition baSchedule : list nat := [1; 1; 1; 1; 0; 0; 0; 0]%nat.

Definition modRevision (m : MemoryEtcd ShardedMap) (key : string) : Z :=
  match Get (kvData m) key with Some kv => ModRevision kv | None => 0 end.

(** The revisions a batch of puts gives its keys depend on the schedule, so
    two replicas can apply the same log and disagree on them: after puts of
    ["a"] and ["b"] the modification revision of ["a"] is 1 in one execution and
    2 in another. *)
Theorem batch_revisions_depend_on_schedule :
  exists m1 m2, batchApplyPut newEtcd abOps m1 /\ batchApplyPut newEtcd abOps m2 /\
    modRevision m1 "a" = 1 /\ modRevision m2 "a" = 2.
Proof.
  destruct (scheduled newEtcd abOps abSchedule) as [m1|] eqn:E1; [|by vm_compute in E1].
  destruct (scheduled newEtcd abOps baSchedule) as [m2|] eqn:E2; [|by vm_compute in E2].
  exists m1, m2. split; [by eapply scheduled_parallel|]. split; [by eapply scheduled_parallel|].
  split.
  - apply (f_equal (fmap (fun m => modRevision m "a"))) in E1. vm_compute in E1. by simplify_eq.
  - apply (f_equal (fmap (fun m => modRevision m "a"))) in E2. vm_compute in E2. by simplify_eq.
Qed.

Lemma parallel_apply_terminates_witness :
  exists m1 gs, nsteps gstep 8 (newEtcd, spawn abOps) (m1, gs) /\ finished gs /\ forall next, ~ gstep (m1, gs) next.
Proof.
  destruct (runSchedule newEtcd (spawn abOps) abSchedule) as [[m1 gs]|] eqn:E; [|by vm_compute in E].
  assert (Hf : forallb isFinished gs = true).
  { apply (f_equal (fmap (fun x => forallb isFinished x.2))) in E. vm_compute in E. by injection E. }
  apply isFinished_ok in Hf. pose proof (runSchedule_nsteps _ _ _ _ _ E) as Hn.
  destruct (parallel_apply_terminates newEtcd abOps (length abSchedule) m1 gs Hn) as [_ Hiff].
  exists m1, gs. split; [exact Hn|]. split; [exact Hf|]. apply Hiff. exact Hf.
Defined.

Lemma batch_puts_match_log_order_witness :
  exists m', batchApplyPut newEtcd (abOps ++ [put "a" "3"]) m' /\ wf_etcd m' /\
    revision m' = 3 /\ view m' "a" = Some ("3", 0, 2).
Proof.
  destruct (batch_puts_match_log_order newEtcd (abOps ++ [put "a" "3"])) as [Hfin Hall].
  - apply wf_NewMemoryEtcd.
  - vm_compute. discriminate.
  - repeat constructor.
  - destruct (Hfin newEtcd (spawn (abOps ++ [put "a" "3"]))) as (m' & gs' & Hrun & Hf); [apply rtc_refl|].
    exists m'. assert (Hpar : batchApplyPut newEtcd (abOps ++ [put "a" "3"]) m') by (exists gs'; split; [exact Hrun|exact Hf]).
    destruct (Hall m' Hpar) as (Hwf & Hr & Hv). split; [exact Hpar|]. split; [exact Hwf|].
    rewrite Hr, (Hv "a"). split; vm_compute; reflexivity.
Defined.

Lemma batch_deletes_match_log_order_witness :
  let m := applyEach newEtcd (abOps ++ [put "c" "3"]) in
  exists m', batchApplyDelete m [del "b" "d"; del "b" ""; del "x" ""] m' /\
    revision m' = 5 /\ size (contents (kvData m')) = 1%nat.
Proof.
  set (m := applyEach newEtcd (abOps ++ [put "c" "3"])). cbn zeta.
  assert (Hwf : wf_etcd m).
  { unfold m, abOps, applyEach. cbn [app fold_left].
    repeat (apply (putDirect_view _ _ ""); [|vm_compute; discriminate|discriminate]). apply wf_NewMemoryEtcd. }
  destruct (batch_deletes_match_log_order m [del "b" "d"; del "b" ""; del "x" ""] Hwf) as [[m' Hb] Hall].
  - vm_compute. discriminate.
  - repeat constructor.
  - exists m'. destruct (Hall m' Hb) as (_ & Hr & Hd). split; [exact Hb|].
    rewrite Hr, Hd. split; vm_compute; reflexivity.
Defined.
