(* ===== verification/RaftCodec.v ===== *)
(** * Wire formats of Raft operations, snapshots and leases
    ([internal/memory/protobuf_converter.go], [snapshot_converter.go],
    [internal/common/lease_converter.go])

    The converters between the store's types and the generated Protobuf
    messages, and the functions that pick a format by its prefix.  Protobuf, JSON
    and gob are libraries: [ProtoWire] and [TextWire] state what the code relies
    on, that a decoder reads back what its encoder wrote. *)

From S2P Require Import Prelude GoBytes KvTypes ShardedMap MemoryEtcd BatchApply.

(** ** The libraries *)

(** [strings.HasPrefix] with the rest: [data[:len(p)] == p], then [data[len(p):]]. *)
Fixpoint cutPrefix (p data : string) : option string :=
  match p, data with
  | "", _ => Some data
  | String a p', String b data' => if Ascii.eqb a b then cutPrefix p' data' else None
  | String _ _, "" => None
  end.

(** [proto.Marshal] and [proto.Unmarshal] for one message type.  Marshalling
    fails for strings that are not UTF-8; no bytes decode to the zero message. *)
Class ProtoWire (A : Type) := {
  proto_marshal : A -> option string;
  proto_unmarshal : string -> option A;
  proto_zero : A;
  proto_roundtrip a b : proto_marshal a = Some b -> proto_unmarshal b = Some a;
  proto_empty : proto_unmarshal "" = Some proto_zero;
}.

(** An encoding of Go structs, JSON or gob, with the values it represents
    faithfully.  Its output does not look like one of the tagged formats: a JSON
    object starts with a brace, a gob stream with a length. *)
Class TextWire (A : Type) := {
  text_marshal : A -> option string;
  text_unmarshal : string -> option A;
  text_exact : A -> Prop;
  text_roundtrip a b : text_exact a -> text_marshal a = Some b -> text_unmarshal b = Some a;
  text_untagged a b p : text_marshal a = Some b -> p ∈ ["PB:"; "SNAP-PB:"; "LEASE-PB:"] ->
    cutPrefix p b = None;
}.

Inductive CodecError : Set :=
  | MarshalFailed | UnmarshalFailed | EncodeFailed | DecodeFailed | NilLease | EmptyLeaseData.

Definition fromOption {A} (e : CodecError) (o : option A) : result CodecError A :=
  match o with Some a => Ok a | None => Err e end.

(** ** Messages of [raft.proto] *)

Inductive pbTargetUnion :=
  | pb_Version (v : Z) | pb_CreateRevision (v : Z) | pb_ModRevision (v : Z) | pb_Value (v : string)
  | pb_Lease (v : Z).

Record pbCompare := mkPbCompare {
  pbc_Key : string; pbc_Result : Z; pbc_Target : Z; pbc_TargetUnion : option pbTargetUnion;
}.

Record pbOp := mkPbOp {
  pbo_Type : Z; pbo_Key : string; pbo_Value : string; pbo_RangeEnd : string; pbo_Lease : Z;
}.

Record pbRaftOperation := mkPbRaftOperation {
  pbr_Type : string; pbr_Key : string; pbr_Value : string; pbr_LeaseId : Z; pbr_RangeEnd : string;
  pbr_SeqNum : string; pbr_Ttl : Z;
  pbr_Compares : list pbCompare; pbr_ThenOps : list pbOp; pbr_ElseOps : list pbOp;
}.

Record pbKeyValue := mkPbKeyValue {
  pbk_Key : string; pbk_Value : string; pbk_CreateRevision : Z; pbk_ModRevision : Z; pbk_Version : Z;
  pbk_Lease : Z;
}.

Record pbLease := mkPbLease {
  pbl_Id : Z; pbl_Ttl : Z; pbl_GrantTimeUnixNano : Z; pbl_Keys : list string;
}.

Record pbStoreSnapshot := mkPbStoreSnapshot {
  pbs_Revision : Z; pbs_KvData : gmap string pbKeyValue; pbs_Leases : gmap Z pbLease;
}.

(** ** Enumerations

    Go integers; a conversion to a Protobuf enumeration keeps 32 bits. *)

Definition targetInt (t : CompareTarget) : Z :=
  match t with
  | CompareVersion => 0 | CompareCreate => 1 | CompareMod => 2 | CompareValue => 3 | CompareLease => 4
  | CompareTargetOther n => n
  end.

Definition targetOf (n : Z) : CompareTarget :=
  if n =? 0 then CompareVersion else if n =? 1 then CompareCreate else if n =? 2 then CompareMod
  else if n =? 3 then CompareValue else if n =? 4 then CompareLease else CompareTargetOther n.

Definition resultInt (r : CompareResult) : Z :=
  match r with
  | CompareEqual => 0 | CompareGreater => 1 | CompareLess => 2 | CompareNotEqual => 3
  | CompareResultOther n => n
  end.

Definition resultOf (n : Z) : CompareResult :=
  if n =? 0 then CompareEqual else if n =? 1 then CompareGreater else if n =? 2 then CompareLess
  else if n =? 3 then CompareNotEqual else CompareResultOther n.

Definition opTypeInt (t : OpType) : Z :=
  match t with OpRange => 0 | OpPut => 1 | OpDelete => 2 | OpTxn => 3 | OpOther n => n end.

Definition opTypeOf (n : Z) : OpType :=
  if n =? 0 then OpRange else if n =? 1 then OpPut else if n =? 2 then OpDelete
  else if n =? 3 then OpTxn else OpOther n.

(** ** Converters *)

Definition compareToProto (cmp : Compare) : pbCompare :=
  let u := cmp_TargetUnion cmp in
  mkPbCompare (cmp_Key cmp) (wrap_i32 (resultInt (cmp_Result cmp))) (wrap_i32 (targetInt (cmp_Target cmp)))
    match cmp_Target cmp with
    | CompareVersion => Some (pb_Version (cu_Version u))
    | CompareCreate => Some (pb_CreateRevision (cu_CreateRevision u))
    | CompareMod => Some (pb_ModRevision (cu_ModRevision u))
    | CompareValue => Some (pb_Value (cu_Value u))
    | CompareLease => Some (pb_Lease (cu_Lease u))
    | CompareTargetOther _ => None
    end.

Definition protoToCompare (p : pbCompare) : Compare :=
  mkCompare (targetOf (pbc_Target p)) (resultOf (pbc_Result p)) (pbc_Key p)
    match pbc_TargetUnion p with
    | Some (pb_Version v) => mkCompareUnion v 0 0 "" 0
    | Some (pb_CreateRevision v) => mkCompareUnion 0 v 0 "" 0
    | Some (pb_ModRevision v) => mkCompareUnion 0 0 v "" 0
    | Some (pb_Value v) => mkCompareUnion 0 0 0 v 0
    | Some (pb_Lease v) => mkCompareUnion 0 0 0 "" v
    | None => mkCompareUnion 0 0 0 "" 0
    end.

(** [Limit] has no field in the message. *)
Definition opToProto (op : Op) : pbOp :=
  mkPbOp (wrap_i32 (opTypeInt (op_Type op))) (op_Key op) (op_Value op) (op_RangeEnd op) (op_LeaseID op).

Definition protoToOp (p : pbOp) : Op :=
  mkOp (opTypeOf (pbo_Type p)) (pbo_Key p) (pbo_RangeEnd p) (pbo_Value p) 0 (pbo_Lease p).

Definition raftOperationToProto (op : RaftOperation) : pbRaftOperation :=
  mkPbRaftOperation (ro_Type op) (ro_Key op) (ro_Value op) (ro_LeaseID op) (ro_RangeEnd op) (ro_SeqNum op)
    (ro_TTL op) (compareToProto <$> ro_Compares op) (opToProto <$> ro_ThenOps op) (opToProto <$> ro_ElseOps op).

Definition protoToRaftOperation (p : pbRaftOperation) : RaftOperation :=
  mkRaftOperation (pbr_Type p) (pbr_Key p) (pbr_Value p) (pbr_LeaseId p) (pbr_RangeEnd p) (pbr_SeqNum p)
    (pbr_Ttl p) (protoToCompare <$> pbr_Compares p) (protoToOp <$> pbr_ThenOps p) (protoToOp <$> pbr_ElseOps p).

Definition keyValueToProto (kv : KeyValue) : pbKeyValue :=
  mkPbKeyValue (Key kv) (Value kv) (CreateRevision kv) (ModRevision kv) (Version kv) (Lease kv).

Definition protoToKeyValue (p : pbKeyValue) : KeyValue :=
  mkKeyValue (pbk_Key p) (pbk_Value p) (pbk_CreateRevision p) (pbk_ModRevision p) (pbk_Version p) (pbk_Lease p).

Definition LeaseToProto `{MapOrder} (l : LeaseInfo) : pbLease :=
  mkPbLease (l_ID l) (l_TTL l) (wrap_i64 (l_GrantTime l)) (range_map (l_Keys l)).*1.

Definition ProtoToLease (p : pbLease) : LeaseInfo :=
  mkLease (pbl_Id p) (pbl_Ttl p) (pbl_GrantTimeUnixNano p)
    (fold_left (fun keys k => <[k := true]> keys) (pbl_Keys p) ∅).

(** ** Formats with a prefix *)

Record SnapshotData := mkSnapshotData {
  sd_Revision : Z; sd_KVData : gmap string KeyValue; sd_Leases : gmap Z LeaseInfo;
}.

Section formats.
Context `{!MapOrder, !ProtoWire pbRaftOperation, !TextWire RaftOperation,
          !ProtoWire pbStoreSnapshot, !TextWire SnapshotData, !ProtoWire pbLease, !TextWire LeaseInfo}.

(** The switch in the configuration. *)
Context (enableProtobuf enableSnapshotProtobuf EnableLeaseProtobuf : bool).

Definition serializeOperation (op : RaftOperation) : result CodecError string :=
  if enableProtobuf
  then match proto_marshal (raftOperationToProto op) with
       | Some data => Ok ("PB:" +:+ data)
       | None => Err MarshalFailed
       end
  else fromOption EncodeFailed (text_marshal op).

(** Three bytes of prefix and nothing behind them is not taken for Protobuf. *)
Definition deserializeOperation (data : string) : result CodecError RaftOperation :=
  match cutPrefix "PB:" data with
  | Some (String _ _ as rest) =>
      match proto_unmarshal rest with
      | Some p => Ok (protoToRaftOperation p)
      | None => Err UnmarshalFailed
      end
  | _ => fromOption DecodeFailed (text_unmarshal data)
  end.

Definition serializeSnapshot (revision : Z) (kvData : gmap string KeyValue) (leases : gmap Z LeaseInfo) :
    result CodecError string :=
  if enableSnapshotProtobuf
  then match proto_marshal (mkPbStoreSnapshot revision (keyValueToProto <$> kvData) (LeaseToProto <$> leases)) with
       | Some data => Ok ("SNAP-PB:" +:+ data)
       | None => Err MarshalFailed
       end
  else fromOption EncodeFailed (text_marshal (mkSnapshotData revision kvData leases)).

Definition deserializeSnapshot (data : string) : result CodecError SnapshotData :=
  match cutPrefix "SNAP-PB:" data with
  | Some rest =>
      match proto_unmarshal rest with
      | Some p => Ok (mkSnapshotData (pbs_Revision p) (protoToKeyValue <$> pbs_KvData p) (ProtoToLease <$> pbs_Leases p))
      | None => Err UnmarshalFailed
      end
  | None => fromOption DecodeFailed (text_unmarshal data)
  end.

Definition SerializeLease (lease : option LeaseInfo) : result CodecError string :=
  match lease with
  | None => Err NilLease
  | Some l =>
      if EnableLeaseProtobuf
      then match proto_marshal (LeaseToProto l) with
           | Some data => Ok ("LEASE-PB:" +:+ data)
           | None => Err MarshalFailed
           end
      else fromOption EncodeFailed (text_marshal l)
  end.

Definition DeserializeLease (data : string) : result CodecError LeaseInfo :=
  if String.eqb data "" then Err EmptyLeaseData
  else
    match cutPrefix "LEASE-PB:" data with
    | Some rest =>
        match proto_unmarshal rest with
        | Some p => Ok (ProtoToLease p)
        | None => Err UnmarshalFailed
        end
    | None => fromOption DecodeFailed (text_unmarshal data)
    end.

End formats.

(** ** Round trips *)

Lemma cutPrefix_app p s : cutPrefix p (p +:+ s) = Some s.
Proof. induction p as [|a p IH]; simpl; [by destruct s|]. by rewrite Ascii.eqb_refl. Qed.

(** The constants that are represented: the named ones, and numbers of 32 bits
    that are not one of them. *)
Definition enum_exact {A} (toInt : A -> Z) (ofInt : Z -> A) (a : A) : Prop := ofInt (wrap_i32 (toInt a)) = a.

Definition compare_exact (c : Compare) : Prop :=
  enum_exact targetInt targetOf (cmp_Target c) /\ enum_exact resultInt resultOf (cmp_Result c).

Definition op_exact (op : Op) : Prop := enum_exact opTypeInt opTypeOf (op_Type op).

Definition dropLimit (op : Op) : Op :=
  mkOp (op_Type op) (op_Key op) (op_RangeEnd op) (op_Value op) 0 (op_LeaseID op).

Lemma protoToOp_opToProto op : op_exact op -> protoToOp (opToProto op) = dropLimit op.
Proof. intros He. unfold protoToOp, opToProto, dropLimit. simpl. by rewrite He. Qed.

Lemma protoToOps ops : Forall op_exact ops -> protoToOp <$> (opToProto <$> ops) = dropLimit <$> ops.
Proof.
  intros Hf. rewrite <- list_fmap_compose. apply list_fmap_ext. intros i op Hi. apply protoToOp_opToProto.
  rewrite Forall_forall in Hf. apply Hf. by eapply list_elem_of_lookup_2.
Qed.

(** Only the field of the union the target names is sent, and only it is looked
    at. *)
Lemma compareRecord_wire kv c :
  compare_exact c ->
  cmp_Key (protoToCompare (compareToProto c)) = cmp_Key c /\
  compareRecord kv (protoToCompare (compareToProto c)) = compareRecord kv c.
Proof.
  intros [Ht Hr]. unfold enum_exact in *. unfold compareRecord, protoToCompare, compareToProto.
  cbn [cmp_Target cmp_Result cmp_Key cmp_TargetUnion pbc_Target pbc_Result pbc_Key pbc_TargetUnion].
  rewrite Ht, Hr. split; [done|]. by destruct (cmp_Target c).
Qed.

Lemma KeyValue_wire kv : protoToKeyValue (keyValueToProto kv) = kv.
Proof. by destruct kv. Qed.

Definition lease_exact (l : LeaseInfo) : Prop := is_i64 (l_GrantTime l) /\ map_Forall (fun _ b => b = true) (l_Keys l).

Lemma insert_true_lookup (ks : list string) (m0 : gmap string bool) k :
  fold_left (fun keys k => <[k := true]> keys) ks m0 !! k = if decide (k ∈ ks) then Some true else m0 !! k.
Proof.
  revert m0. induction ks as [|j ks IH]; intros m0; [done|]. cbn [fold_left].
  rewrite IH, lookup_insert. destruct (decide (k ∈ ks)), (decide (k ∈ j :: ks)), (decide (j = k)); set_solver.
Qed.

Lemma Lease_wire `{MapOrder} l : lease_exact l -> ProtoToLease (LeaseToProto l) = l.
Proof.
  intros [Ht Hk]. unfold ProtoToLease, LeaseToProto. simpl. rewrite wrap_i64_id by done.
  destruct l as [id ttl t keys]. simpl in *. f_equal. apply map_eq. intros k. rewrite insert_true_lookup, lookup_empty.
  case_decide as Hin.
  - apply list_elem_of_fmap in Hin as ([k' b] & -> & Hin). apply elem_of_range_map in Hin. simpl.
    rewrite Hin. f_equal. symmetry. by apply (Hk _ _ Hin).
  - destruct (keys !! k) as [b|] eqn:E; [|done]. exfalso. apply Hin, list_elem_of_fmap.
    exists (k, b). split; [done|]. by apply elem_of_range_map.
Qed.

Section roundtrips.
Context `{!MapOrder, !ProtoWire pbRaftOperation, !TextWire RaftOperation,
          !ProtoWire pbStoreSnapshot, !TextWire SnapshotData, !ProtoWire pbLease, !TextWire LeaseInfo}.

(** What a decoder makes of an operation: limits are lost. *)
Definition wireOperation (op : RaftOperation) : RaftOperation :=
  protoToRaftOperation (raftOperationToProto op).

Lemma operation_wire pb op data :
  ro_Type op <> pbr_Type proto_zero -> (pb = false -> text_exact op) ->
  serializeOperation pb op = Ok data ->
  deserializeOperation data = Ok (if pb then wireOperation op else op).
Proof.
  intros Hz Hx. unfold serializeOperation, deserializeOperation. destruct pb.
  - destruct (proto_marshal (raftOperationToProto op)) as [b|] eqn:E; [|done]. intros Hd. inv Hd.
    rewrite cutPrefix_app. pose proof (proto_roundtrip _ _ E) as Hr. destruct b as [|c b].
    + exfalso. rewrite proto_empty in Hr. inv Hr. by rewrite H1 in Hz.
    + by rewrite Hr.
  - destruct (text_marshal op) as [b|] eqn:E; [|done]. intros Hd. inv Hd.
    rewrite (text_untagged op _ "PB:" E) by set_solver. by rewrite (text_roundtrip op data) by auto.
Qed.

Lemma snapshot_wire pb rev kvs ls data :
  map_Forall (fun _ => lease_exact) ls -> (pb = false -> text_exact (mkSnapshotData rev kvs ls)) ->
  serializeSnapshot pb rev kvs ls = Ok data ->
  deserializeSnapshot data = Ok (mkSnapshotData rev kvs ls).
Proof.
  intros Hl Hx. unfold serializeSnapshot, deserializeSnapshot. destruct pb.
  - destruct (proto_marshal _) as [b|] eqn:E; [|done]. intros Hd. inv Hd.
    rewrite cutPrefix_app, (proto_roundtrip _ _ E). simpl. do 2 f_equal.
    + apply map_eq. intros k. rewrite !lookup_fmap. destruct (kvs !! k); simpl; [|done]. by rewrite KeyValue_wire.
    + apply map_eq. intros id. rewrite !lookup_fmap. destruct (ls !! id) as [l|] eqn:El; simpl; [|done].
      rewrite Lease_wire; [done|]. by apply (Hl _ _ El).
  - destruct (text_marshal _) as [b|] eqn:E; [|done]. intros Hd. inv Hd.
    rewrite (text_untagged _ _ "SNAP-PB:" E) by set_solver. by rewrite (text_roundtrip _ data) by auto.
Qed.

Lemma lease_wire pb l data :
  lease_exact l -> (pb = false -> text_exact l /\ data <> "") ->
  SerializeLease pb (Some l) = Ok data -> DeserializeLease data = Ok l.
Proof.
  intros Hl Hx. unfold SerializeLease, DeserializeLease. destruct pb.
  - destruct (proto_marshal _) as [b|] eqn:E; [|done]. intros Hd. inv Hd. simpl String.eqb. cbn match.
    rewrite cutPrefix_app, (proto_roundtrip _ _ E). by rewrite Lease_wire.
  - destruct (text_marshal _) as [b|] eqn:E; [|done]. intros Hd. inv Hd. destruct (Hx eq_refl) as [Hx1 Hx2].
    apply String.eqb_neq in Hx2. rewrite Hx2.
    rewrite (text_untagged _ _ "LEASE-PB:" E) by set_solver. by rewrite (text_roundtrip l data) by auto.
Qed.

End roundtrips.
