(* ===== verification/MemoryRaft.v ===== *)
(** * The store behind Raft ([internal/memory/kvstore.go], [applyBatch] of
    [batch_apply.go])

    [Memory] wraps [MemoryEtcd]: a client call registers a wait channel under a
    sequence number, proposes the operation and waits; the goroutine that reads
    the commit channel applies committed operations and closes the channels.
    Channels are numbered; [m_closed] holds the closed ones, and closing one
    twice is a panic.  A result [None] stands for a process that ended, by such a
    panic or by [log.Fatal].  What the environment decides (whether a proposal is
    taken, which branch of a [select] fires, the clock, the scheduling of the
    goroutines) is an argument or is left open by a relation. *)

From stdpp Require Import pretty.
From S2P Require Import Prelude GoBytes OrderedTree KvTypes ShardedMap MemoryEtcd EtcdFacts EtcdOps BatchApply BatchTheorems RaftCodec.

Inductive MemError : Set :=
  | ECodec (e : CodecError)
  | EProposeTimeout | EProposeCancelled
  | ECommitTimeout | ECommitCancelled
  | ETxnResultNotFound
  | ERaftNodeNotAvailable | ENotLeader (leader : Z) | ETransferFailed.

(** The interface [RaftNode], as it answers during one call. *)
Record RaftNode := mkRaftNode {
  rn_Status : RaftStatus;
  rn_TransferLeadership : Z -> result MemError unit;
  rn_LeaseManager : option (bool * bool);
  rn_ReadIndexManager : option Z;
}.

Record Memory := mkMemory {
  m_etcd : MemoryEtcd ShardedMap;
  pendingOps : gmap string nat;
  pendingTxnResults : gmap string TxnResponse;
  seqNum : Z;
  m_chans : nat;
  m_closed : gset nat;
  m_proposed : list string;
  raftNode : option RaftNode;
  nodeID : Z;
}.

Definition setEtcd (m : Memory) (e : MemoryEtcd ShardedMap) : Memory :=
  mkMemory e (pendingOps m) (pendingTxnResults m) (seqNum m) (m_chans m) (m_closed m) (m_proposed m)
    (raftNode m) (nodeID m).
Definition setPending (m : Memory) (p : gmap string nat) : Memory :=
  mkMemory (m_etcd m) p (pendingTxnResults m) (seqNum m) (m_chans m) (m_closed m) (m_proposed m)
    (raftNode m) (nodeID m).
Definition setTxnResults (m : Memory) (r : gmap string TxnResponse) : Memory :=
  mkMemory (m_etcd m) (pendingOps m) r (seqNum m) (m_chans m) (m_closed m) (m_proposed m)
    (raftNode m) (nodeID m).
Definition setClosed (m : Memory) (c : gset nat) : Memory :=
  mkMemory (m_etcd m) (pendingOps m) (pendingTxnResults m) (seqNum m) (m_chans m) c (m_proposed m)
    (raftNode m) (nodeID m).
Definition setProposed (m : Memory) (p : list string) : Memory :=
  mkMemory (m_etcd m) (pendingOps m) (pendingTxnResults m) (seqNum m) (m_chans m) (m_closed m) p
    (raftNode m) (nodeID m).

Definition NewMemory : Memory := mkMemory NewMemoryEtcd ∅ ∅ 0 0 ∅ [] None 0.

Definition SetRaftNode (m : Memory) (node : option RaftNode) (id : Z) : Memory :=
  mkMemory (m_etcd m) (pendingOps m) (pendingTxnResults m) (seqNum m) (m_chans m) (m_closed m) (m_proposed m)
    node id.

Definition GetRaftStatus (m : Memory) : RaftStatus :=
  match raftNode m with
  | None => mkRaftStatus (nodeID m) 0 0 "standalone" 0 0
  | Some n => rn_Status n
  end.

Definition TransferLeadership (m : Memory) (targetID : Z) : result MemError unit :=
  match raftNode m with
  | None => Err ERaftNodeNotAvailable
  | Some n =>
      if negb (rs_LeaderID (rn_Status n) =? nodeID m) then Err (ENotLeader (rs_LeaderID (rn_Status n)))
      else rn_TransferLeadership n targetID
  end.

Section raft.
Context `{!MapOrder, !ProtoWire pbRaftOperation, !TextWire RaftOperation,
          !ProtoWire pbStoreSnapshot, !TextWire SnapshotData}.
Context (enableProtobuf enableSnapshotProtobuf : bool).

(** [gob.Decode] of the old key-value messages. *)
Context (gobDecodeKV : string -> option (string * string)) (gobEncodeKV : string * string -> string).

(** ** Applying committed operations *)

(** [close(ch); delete(pendingOps, seq)] if somebody waits for [seq]. *)
Definition signal (m : Memory) (seq : string) : option Memory :=
  if String.eqb seq "" then Some m
  else
    match pendingOps m !! seq with
    | None => Some m
    | Some ch =>
        if decide (ch ∈ m_closed m) then None
        else Some (setPending (setClosed m ({[ch]} ∪ m_closed m)) (delete seq (pendingOps m)))
    end.

(** [TXN]: the response is kept for the client; a failed transaction has none. *)
Definition applyTxn (now : Z) (m : Memory) (op : RaftOperation) : Memory :=
  let '(e, r) := applyTxnWithShardLocks now (m_etcd m) (ro_Compares op) (ro_ThenOps op) (ro_ElseOps op) in
  match r with
  | Ok txnResp =>
      if String.eqb (ro_SeqNum op) "" then setEtcd m e
      else setTxnResults (setEtcd m e) (<[ro_SeqNum op := txnResp]> (pendingTxnResults m))
  | Err _ => setEtcd m e
  end.

Definition applyLease (now : Z) (m : Memory) (op : RaftOperation) : Memory :=
  if decide (ro_Type op = TLeaseGrant)
  then setEtcd m (applyLeaseOperationDirect now (m_etcd m) LEASE_GRANT (ro_LeaseID op) (ro_TTL op))
  else setEtcd m (applyLeaseOperationDirect now (m_etcd m) LEASE_REVOKE (ro_LeaseID op) (ro_TTL op)).

(** The switch of [applyOperation]. *)
Definition applySwitch (now : Z) (m : Memory) (op : RaftOperation) : Memory :=
  if decide (ro_Type op = TPut)
  then setEtcd m (putDirect (m_etcd m) (ro_Key op) (ro_Value op) (ro_LeaseID op)).1
  else if decide (ro_Type op = TDelete)
  then setEtcd m (deleteDirect (m_etcd m) (ro_Key op) (ro_RangeEnd op)).1
  else if decide (ro_Type op = TLeaseGrant \/ ro_Type op = TLeaseRevoke) then applyLease now m op
  else if decide (ro_Type op = TTxn) then applyTxn now m op
  else m.

Definition applyOperation (now : Z) (m : Memory) (op : RaftOperation) : option Memory :=
  signal (applySwitch now m op) (ro_SeqNum op).

(** Operations one after the other, each reading the clock for itself. *)
Inductive inTurn (f : Z -> Memory -> RaftOperation -> Memory) : Memory -> list RaftOperation -> Memory -> Prop :=
  | inTurn_nil m : inTurn f m [] m
  | inTurn_cons now m op ops m' : inTurn f (f now m op) ops m' -> inTurn f m (op :: ops) m'.

Definition flushBatch (m : Memory) (currentType : string) (currentBatch : list RaftOperation) (m' : Memory) : Prop :=
  if decide (currentType = TPut) then exists e, batchApplyPut (m_etcd m) currentBatch e /\ m' = setEtcd m e
  else if decide (currentType = TDelete) then exists e, batchApplyDelete (m_etcd m) currentBatch e /\ m' = setEtcd m e
  else if decide (currentType = TTxn) then inTurn applyTxn m currentBatch m'
  else if decide (currentType = TLeaseGrant \/ currentType = TLeaseRevoke) then inTurn applyLease m currentBatch m'
  else m' = m.

(** The loop that cuts the operations where their type changes. *)
Fixpoint batches (currentType : string) (currentBatch : list RaftOperation) (ops : list RaftOperation) :
    list (string * list RaftOperation) :=
  match ops with
  | [] => match currentBatch with [] => [] | _ => [(currentType, currentBatch)] end
  | op :: ops' =>
      match currentBatch with
      | [] => batches (ro_Type op) [op] ops'
      | _ =>
          if decide (currentType = ro_Type op) then batches (ro_Type op) (currentBatch ++ [op]) ops'
          else (currentType, currentBatch) :: batches (ro_Type op) [op] ops'
      end
  end.

Inductive flushAll : Memory -> list (string * list RaftOperation) -> Memory -> Prop :=
  | flushAll_nil m : flushAll m [] m
  | flushAll_cons m m1 m' t b bs : flushBatch m t b m1 -> flushAll m1 bs m' -> flushAll m ((t, b) :: bs) m'.

(** The loop that notifies the clients. *)
Fixpoint signalAll (m : Memory) (ops : list RaftOperation) : option Memory :=
  match ops with
  | [] => Some m
  | op :: ops' => match signal m (ro_SeqNum op) with Some m1 => signalAll m1 ops' | None => None end
  end.

Inductive applyBatch : Memory -> list RaftOperation -> option Memory -> Prop :=
  | applyBatch_nil m : applyBatch m [] (Some m)
  | applyBatch_one now m op : applyBatch m [op] (applyOperation now m op)
  | applyBatch_many m ops m1 : (2 <= length ops)%nat ->
      flushAll m (batches "" [] ops) m1 -> applyBatch m ops (signalAll m1 ops).

Definition applyLegacyOp (m : Memory) (data : string) : option Memory :=
  match gobDecodeKV data with
  | Some (k, v) => Some (setEtcd m (putDirect (m_etcd m) k v 0).1)
  | None => None
  end.

(** ** Snapshots *)

Definition GetSnapshot (m : Memory) : result CodecError string :=
  serializeSnapshot enableSnapshotProtobuf (revision (m_etcd m)) (GetAll (kvData (m_etcd m))) (leases (m_etcd m)).

Definition recoverFromSnapshot (m : Memory) (data : string) : Memory * result CodecError unit :=
  match deserializeSnapshot data with
  | Err e => (m, Err e)
  | Ok snapshot =>
      (setEtcd m (mkMemoryEtcd (SetAll (kvData (m_etcd m)) (sd_KVData snapshot)) (sd_Revision snapshot)
                    (sd_Leases snapshot) (watches (m_etcd m))), Ok tt)
  end.

(** [snapshotter.Load]: an error other than [ErrNoSnapshot], nothing, or data. *)
Inductive Loaded : Set := LoadFailed | NoSnapshot | Loaded_ (data : string).

Definition reload (m : Memory) (l : Loaded) : option Memory :=
  match l with
  | LoadFailed => None
  | NoSnapshot => Some m
  | Loaded_ data => match recoverFromSnapshot m data with (m', Ok _) => Some m' | (_, Err _) => None end
  end.

(** ** The commit channel *)

(** Decodes the entries of a commit; one that is not a [RaftOperation] is applied
    at once as an old message. *)
Fixpoint collect (m : Memory) (entries : list string) (allOps : list RaftOperation) :
    option (Memory * list RaftOperation) :=
  match entries with
  | [] => Some (m, allOps)
  | data :: entries' =>
      match deserializeOperation data with
      | Ok op => collect m entries' (allOps ++ [op])
      | Err _ => match applyLegacyOp m data with Some m1 => collect m1 entries' allOps | None => None end
      end
  end.

(** One message of [commitC]: nil asks to reload the snapshot. *)
Inductive readCommit : Memory -> option (list string) -> option Memory -> Prop :=
  | readCommit_nil m l : readCommit m None (reload m l)
  | readCommit_fatal m entries : collect m entries [] = None -> readCommit m (Some entries) None
  | readCommit_ops m entries m1 ops o : collect m entries [] = Some (m1, ops) -> applyBatch m1 ops o ->
      readCommit m (Some entries) o.

(** ** Client calls *)

(** [m.seqNum++], [fmt.Sprintf("seq-%d", m.seqNum)] and a channel to wait on. *)
Definition seqName (n : Z) : string := "seq-" +:+ pretty n.

Definition register (m : Memory) : Memory * (string * nat) :=
  let n := wrap_i64 (seqNum m + 1) in
  (mkMemory (m_etcd m) (<[seqName n := m_chans m]> (pendingOps m)) (pendingTxnResults m) n (S (m_chans m))
     (m_closed m) (m_proposed m) (raftNode m) (nodeID m), (seqName n, m_chans m)).

Definition withdraw (m : Memory) (seq : string) : Memory := setPending m (delete seq (pendingOps m)).

Inductive Reply :=
  | RepPut (revision : Z) (prevKv : option KeyValue)
  | RepDelete (deleted : Z) (prevKvs : list KeyValue) (revision : Z)
  | RepLease (lease : LeaseInfo)
  | RepUnit
  | RepTxn (r : TxnResponse).

(** What the five methods differ in: a reply that needs no proposal, the
    operation, and what is read after the wait. *)
Record Call := mkCall {
  c_early : option Reply;
  c_op : string -> RaftOperation;
  c_finish : Z -> Memory -> string -> Memory * result MemError Reply;
}.

(** The "previous" record is looked up after the put was applied. *)
Definition PutWithLease (m0 : Memory) (key value : string) (leaseID : Z) : Call :=
  mkCall None (fun seq => mkRaftOperation TPut key value leaseID "" seq 0 [] [] [])
    (fun _ m _ => (m, Ok (RepPut (revision (m_etcd m)) (Get (kvData (m_etcd m)) key)))).

(** The records are collected before the proposal. *)
Definition DeleteRange (m0 : Memory) (key rangeEnd : string) : Call :=
  let prevKvs := selectRange (m_etcd m0) key rangeEnd 0 in
  let deleted := Z.of_nat (length prevKvs) in
  mkCall (if deleted =? 0 then Some (RepDelete 0 [] (revision (m_etcd m0))) else None)
    (fun seq => mkRaftOperation TDelete key "" 0 rangeEnd seq 0 [] [] [])
    (fun _ m _ => (m, Ok (RepDelete deleted prevKvs (revision (m_etcd m))))).

Definition LeaseGrant (m0 : Memory) (id ttl : Z) : Call :=
  mkCall None (fun seq => mkRaftOperation TLeaseGrant "" "" id "" seq ttl [] [] [])
    (fun now m _ => (m, Ok (RepLease (mkLease id ttl now ∅)))).

Definition LeaseRevoke (m0 : Memory) (id : Z) : Call :=
  mkCall None (fun seq => mkRaftOperation TLeaseRevoke "" "" id "" seq 0 [] [] [])
    (fun _ m _ => (m, Ok RepUnit)).

Definition Txn (m0 : Memory) (cmps : list Compare) (thenOps elseOps : list Op) : Call :=
  mkCall None (fun seq => mkRaftOperation TTxn "" "" 0 "" seq 0 cmps thenOps elseOps)
    (fun _ m seq =>
       (setTxnResults m (delete seq (pendingTxnResults m)),
        match pendingTxnResults m !! seq with
        | Some r => Ok (RepTxn r)
        | None => Err ETxnResultNotFound
        end)).

(** The call up to [propose]: registered, with the data to send, or answered. *)
Definition begin (m : Memory) (c : Call) : Memory * (result MemError Reply + (string * nat * string)) :=
  match c_early c with
  | Some r => (m, inl (Ok r))
  | None =>
      let '(m1, (seq, ch)) := register m in
      match serializeOperation enableProtobuf (c_op c seq) with
      | Err e => (withdraw m1 seq, inl (Err (ECodec e)))
      | Ok data => (m1, inr (seq, ch, data))
      end
  end.

(** The branches of the [select] in [propose]. *)
Inductive SendOutcome : Set := SendOk | SendTimeout | SendCancelled.

Definition propose (m : Memory) (data : string) (o : SendOutcome) : Memory * result MemError unit :=
  match o with
  | SendOk => (setProposed m (m_proposed m ++ [data]), Ok tt)
  | SendTimeout => (m, Err EProposeTimeout)
  | SendCancelled => (m, Err EProposeCancelled)
  end.

Definition send (m : Memory) (seq data : string) (o : SendOutcome) : Memory * result MemError unit :=
  match propose m data o with
  | (m1, Ok u) => (m1, Ok u)
  | (m1, Err e) => (withdraw m1 seq, Err e)
  end.

(** The branches of the [select] that waits for the commit. *)
Inductive WaitOutcome : Set := WaitDone | WaitTimeout | WaitCancelled.

Definition await (now : Z) (m : Memory) (c : Call) (seq : string) (o : WaitOutcome) : Memory * result MemError Reply :=
  match o with
  | WaitDone => c_finish c now m seq
  | WaitTimeout => (withdraw m seq, Err ECommitTimeout)
  | WaitCancelled => (withdraw m seq, Err ECommitCancelled)
  end.

(** The old API: encodes and sends, nobody waits. *)
Definition Propose (m : Memory) (k v : string) : Memory := setProposed m (m_proposed m ++ [gobEncodeKV (k, v)]).

(** ** Reads *)

(** With a leader that holds a lease the read is counted; in every case the local
    state is read. *)
Definition Range (m : Memory) (key rangeEnd : string) (limit rev : Z) : RangeResponse * option Z :=
  let local := RangeQuery (m_etcd m) key rangeEnd limit rev in
  match raftNode m with
  | Some n =>
      match rn_LeaseManager n, rn_ReadIndexManager n with
      | Some (isLeader, hasValidLease), Some fastPathReads =>
          if isLeader && hasValidLease then (local, Some (fastPathReads + 1)) else (local, Some fastPathReads)
      | _, _ => (local, rn_ReadIndexManager n)
      end
  | None => (local, None)
  end.

End raft.
