(* ===== verification/MemorySystem.v ===== *)
(** * Clients and commits interleaved

    A system is the [Memory] of one node with the client calls in progress.  Its
    steps are those of the calls, of the goroutine that reads commits, and of the
    local operations [Memory] inherits from [MemoryEtcd]; [reachable] is any
    interleaving of them.  [sys_applied] records the operations applied so far. *)

From stdpp Require Import pretty.
From S2P Require Import Prelude GoBytes OrderedTree KvTypes ShardedMap MemoryEtcd EtcdFacts EtcdOps BatchApply BatchTheorems RaftCodec MemoryRaft.

Inductive Phase :=
  | Sending (data : string)
  | Waiting
  | Returned (r : result MemError Reply).

Record Client := mkClient {
  cl_call : Call;
  cl_seq : string;
  cl_chan : nat;
  cl_phase : Phase;
}.

Definition inProgress (cl : Client) : Prop :=
  match cl_phase cl with Sending _ | Waiting => True | Returned _ => False end.

Definition setPhase (cl : Client) (p : Phase) : Client := mkClient (cl_call cl) (cl_seq cl) (cl_chan cl) p.

Record System := mkSystem {
  sys_m : Memory;
  sys_clients : list Client;
  sys_applied : list RaftOperation;
}.

(** The requests a client can make. *)
Inductive Request :=
  | ReqPut (key value : string) (leaseID : Z)
  | ReqDelete (key rangeEnd : string)
  | ReqGrant (id ttl : Z)
  | ReqRevoke (id : Z)
  | ReqTxn (cmps : list Compare) (thenOps elseOps : list Op).

Definition callOf (m : Memory) (r : Request) : Call :=
  match r with
  | ReqPut key value leaseID => PutWithLease m key value leaseID
  | ReqDelete key rangeEnd => DeleteRange m key rangeEnd
  | ReqGrant id ttl => LeaseGrant m id ttl
  | ReqRevoke id => LeaseRevoke m id
  | ReqTxn cmps t e => Txn m cmps t e
  end.

Section system.
Context `{!MapOrder, !ProtoWire pbRaftOperation, !TextWire RaftOperation,
          !ProtoWire pbStoreSnapshot, !TextWire SnapshotData}.
Context (enableProtobuf : bool).
Context (gobDecodeKV : string -> option (string * string)) (gobEncodeKV : string * string -> string).

(** The steps.  A call is only begun while the counter of sequence numbers has
    room. *)
Inductive sys_step : System -> System -> Prop :=
  | step_reply m cls log r m' res :
      seqNum m < int64_max ->
      begin enableProtobuf m (callOf m r) = (m', inl res) ->
      sys_step (mkSystem m cls log) (mkSystem m' cls log)
  | step_begin m cls log r m' seq ch data :
      seqNum m < int64_max ->
      begin enableProtobuf m (callOf m r) = (m', inr (seq, ch, data)) ->
      sys_step (mkSystem m cls log)
        (mkSystem m' (cls ++ [mkClient (callOf m r) seq ch (Sending data)]) log)
  | step_send m cls log i cl data o m' res :
      cls !! i = Some cl -> cl_phase cl = Sending data -> send m (cl_seq cl) data o = (m', res) ->
      sys_step (mkSystem m cls log)
        (mkSystem m' (<[i := setPhase cl match res with Ok _ => Waiting | Err e => Returned (Err e) end]> cls) log)
  | step_wait m cls log i cl now o m' res :
      cls !! i = Some cl -> cl_phase cl = Waiting -> (o = WaitDone -> cl_chan cl ∈ m_closed m) ->
      await now m (cl_call cl) (cl_seq cl) o = (m', res) ->
      sys_step (mkSystem m cls log) (mkSystem m' (<[i := setPhase cl (Returned res)]> cls) log)
  | step_commit m cls log entries m1 ops m' :
      collect gobDecodeKV m entries [] = Some (m1, ops) -> applyBatch m1 ops (Some m') ->
      sys_step (mkSystem m cls log) (mkSystem m' cls (log ++ ops))
  | step_reload m cls log l m' :
      reload m l = Some m' -> sys_step (mkSystem m cls log) (mkSystem m' cls log)
  | step_local m cls log now o :
      sys_step (mkSystem m cls log) (mkSystem (setEtcd m (apply now (m_etcd m) o)) cls log)
  | step_propose m cls log k v :
      sys_step (mkSystem m cls log) (mkSystem (Propose gobEncodeKV m k v) cls log)
  | step_node m cls log node id :
      sys_step (mkSystem m cls log) (mkSystem (SetRaftNode m node id) cls log).

Definition reachable (s : System) : Prop := rtc sys_step (mkSystem NewMemory [] []) s.

(** ** What applying operations leaves alone *)

(** The part of [Memory] the calls depend on. *)
Definition sameCalls (m m' : Memory) : Prop :=
  pendingOps m' = pendingOps m /\ m_closed m' = m_closed m /\ m_chans m' = m_chans m /\ seqNum m' = seqNum m.

#[global] Instance sameCalls_preorder : PreOrder sameCalls.
Proof. split; [done|]. intros m1 m2 m3 (? & ? & ? & ?) (? & ? & ? & ?). repeat split; congruence. Qed.

Lemma sameCalls_setEtcd m e : sameCalls m (setEtcd m e).
Proof. done. Qed.

Lemma applyTxn_same now m op : sameCalls m (applyTxn now m op).
Proof.
  unfold applyTxn. destruct (applyTxnWithShardLocks _ _ _ _ _) as [e [r|er]]; [|done].
  by destruct (String.eqb (ro_SeqNum op) "").
Qed.

Lemma applyLease_same now m op : sameCalls m (applyLease now m op).
Proof. unfold applyLease. by case_decide. Qed.

Lemma applySwitch_same now m op : sameCalls m (applySwitch now m op).
Proof.
  unfold applySwitch. repeat case_decide; try done; [apply applyLease_same|apply applyTxn_same].
Qed.

Lemma inTurn_same f m ops m' :
  (forall now m op, sameCalls m (f now m op)) -> inTurn f m ops m' -> sameCalls m m'.
Proof. intros Hf. induction 1 as [|now m op ops m' _ IH]; [done|]. by etransitivity; [apply Hf|]. Qed.

Lemma flushBatch_same m t b m' : flushBatch m t b m' -> sameCalls m m'.
Proof.
  unfold flushBatch. repeat case_decide.
  - by intros (e & _ & ->).
  - by intros (e & _ & ->).
  - apply inTurn_same, applyTxn_same.
  - apply inTurn_same, applyLease_same.
  - by intros ->.
Qed.

Lemma flushAll_same m bs m' : flushAll m bs m' -> sameCalls m m'.
Proof. induction 1 as [|m m1 m' t b bs Hf _ IH]; [done|]. by etransitivity; [eapply flushBatch_same|]. Qed.

Lemma collect_same entries : forall m ops m' ops', collect gobDecodeKV m entries ops = Some (m', ops') -> sameCalls m m'.
Proof.
  induction entries as [|data entries IH]; intros m ops m' ops'; simpl; [by intros; simplify_eq|].
  destruct (deserializeOperation data) as [op|e]; [apply IH|].
  unfold applyLegacyOp. destruct (gobDecodeKV data) as [[k v]|]; [|done]. intros Hc. by apply IH in Hc.
Qed.

Lemma collect_results entries : forall m ops m' ops',
  collect gobDecodeKV m entries ops = Some (m', ops') -> pendingTxnResults m' = pendingTxnResults m.
Proof.
  induction entries as [|data entries IH]; intros m ops m' ops'; simpl; [by intros; simplify_eq|].
  destruct (deserializeOperation data) as [op|e]; [apply IH|].
  unfold applyLegacyOp. destruct (gobDecodeKV data) as [[k v]|]; [|done]. intros Hc. by apply IH in Hc.
Qed.

(** ** Waiting calls and their channels *)

Record Pending (m : Memory) (cls : list Client) : Prop := {
  pn_seq i cl : cls !! i = Some cl -> exists n, 1 <= n <= seqNum m /\ cl_seq cl = seqName n;
  pn_chan i cl : cls !! i = Some cl -> (cl_chan cl < m_chans m)%nat;
  pn_seq_inj i j cl cl' : cls !! i = Some cl -> cls !! j = Some cl' -> cl_seq cl = cl_seq cl' -> i = j;
  pn_chan_inj i j cl cl' : cls !! i = Some cl -> cls !! j = Some cl' -> cl_chan cl = cl_chan cl' -> i = j;
  pn_pending seq ch : pendingOps m !! seq = Some ch ->
    (ch ∉ m_closed m) /\ exists i cl, cls !! i = Some cl /\ cl_seq cl = seq /\ cl_chan cl = ch /\ inProgress cl;
  pn_waiting i cl : cls !! i = Some cl -> inProgress cl ->
    pendingOps m !! cl_seq cl = Some (cl_chan cl) \/ cl_chan cl ∈ m_closed m;
  pn_closed ch : ch ∈ m_closed m -> (ch < m_chans m)%nat;
  pn_count : 0 <= seqNum m <= int64_max;
}.

Lemma seqName_inj n n' : seqName n = seqName n' -> n = n'.
Proof. unfold seqName. intros Hs. simpl in Hs. simplify_eq. done. Qed.

Lemma seqName_nonempty n : String.eqb (seqName n) "" = false.
Proof. done. Qed.

Lemma Pending_new : Pending NewMemory [].
Proof.
  split; try (intros; done || by set_solver); simpl.
Qed.

Lemma Pending_same m m' cls : sameCalls m m' -> Pending m cls -> Pending m' cls.
Proof.
  intros (Hp & Hc & Hn & Hs) HP. split; rewrite ?Hp, ?Hc, ?Hn, ?Hs; apply HP.
Qed.

(** Closing the channel of [seq] keeps the invariant and cannot panic. *)
Lemma signal_ok m cls seq :
  Pending m cls ->
  exists m', signal m seq = Some m' /\ Pending m' cls /\ m_closed m ⊆ m_closed m' /\
    (forall ch, ch ∈ m_closed m' -> ch ∈ m_closed m \/ pendingOps m !! seq = Some ch) /\
    (forall i cl, seq <> "" -> cls !! i = Some cl -> inProgress cl -> cl_seq cl = seq -> cl_chan cl ∈ m_closed m') /\
    m_etcd m' = m_etcd m /\ pendingTxnResults m' = pendingTxnResults m.
Proof.
  intros HP. unfold signal. destruct (String.eqb_spec seq "") as [Hz|Hz].
  { exists m. split_and!; try done. by left. }
  destruct (pendingOps m !! seq) as [ch|] eqn:E.
  2:{ exists m. split_and!; try done; [by left|]. intros i cl _ Hi Hin Hs.
      destruct (pn_waiting _ _ HP i cl Hi Hin) as [Hw|Hw]; [congruence|done]. }
  destruct (pn_pending _ _ HP seq ch E) as (Hopen & i0 & cl0 & Hi0 & Hs0 & Hc0 & Hin0).
  rewrite decide_False by done. eexists. split; [done|]. split_and!; simpl; try done; [|set_solver|set_solver|].
  - split; simpl; try apply HP.
    + intros seq' ch' [Hne Hl]%lookup_delete_Some. destruct (pn_pending _ _ HP seq' ch' Hl) as (Hop' & i & cl & Hi & Hs & Hc & Hin).
      split; [|by exists i, cl]. intros Hx. apply elem_of_union in Hx as [Hx|Hx]; [|done].
      apply elem_of_singleton in Hx. apply Hne. rewrite <- Hs0, <- Hs.
      assert (i0 = i) by (apply (pn_chan_inj _ _ HP i0 i cl0 cl); congruence). congruence.
    + intros i cl Hi Hin. destruct (decide (cl_seq cl = seq)) as [Hs|Hs].
      * right. assert (i = i0) by (apply (pn_seq_inj _ _ HP i i0 cl cl0); congruence). set_solver.
      * destruct (pn_waiting _ _ HP i cl Hi Hin) as [Hw|Hw]; [|set_solver].
        left. by rewrite lookup_delete_ne.
    + intros ch' [Hx|Hx]%elem_of_union; [|by apply HP]. apply elem_of_singleton in Hx as ->.
      rewrite <- Hc0. by apply (pn_chan _ _ HP i0).
  - intros i cl _ Hi Hin Hs. assert (i = i0) by (apply (pn_seq_inj _ _ HP i i0 cl cl0); congruence). set_solver.
Qed.

Lemma signalAll_ok ops cls : forall m,
  Pending m cls ->
  exists m', signalAll m ops = Some m' /\ Pending m' cls /\ m_closed m ⊆ m_closed m' /\
    (forall i cl op, op ∈ ops -> ro_SeqNum op <> "" -> cls !! i = Some cl -> inProgress cl ->
       cl_seq cl = ro_SeqNum op -> cl_chan cl ∈ m_closed m') /\
    (forall i cl, cls !! i = Some cl -> cl_chan cl ∈ m_closed m' ->
       cl_chan cl ∈ m_closed m \/ exists op, op ∈ ops /\ ro_SeqNum op = cl_seq cl) /\
    m_etcd m' = m_etcd m /\ pendingTxnResults m' = pendingTxnResults m.
Proof.
  induction ops as [|op ops IH]; intros m HP; simpl.
  { exists m. split_and!; try done; [|auto]. intros i cl op Hop. by apply elem_of_nil in Hop. }
  destruct (signal_ok m cls (ro_SeqNum op) HP) as (m1 & -> & HP1 & Hsub1 & Hnew1 & Hw1 & He1 & Ht1).
  destruct (IH m1 HP1) as (m' & -> & HP' & Hsub & Hw & Hnew & He & Ht).
  exists m'. split_and!; [done|done|by etransitivity| | |congruence|congruence].
  - intros i cl op' Hop Hz Hi Hin Hs. apply elem_of_cons in Hop as [->|Hop]; [|by eapply Hw].
    apply Hsub. by eapply Hw1.
  - intros i cl Hi Hc. destruct (Hnew i cl Hi Hc) as [Hc1|(op' & Hop & Hs)].
    + destruct (Hnew1 _ Hc1) as [?|Hp]; [by left|]. right. exists op. split; [by left|].
      destruct (pn_pending _ _ HP _ _ Hp) as (_ & j & cl' & Hj & Hs & Hch & _).
      assert (i = j) by (apply (pn_chan_inj _ _ HP i j cl cl'); congruence). congruence.
    + right. exists op'. split; [by right|done].
Qed.

(** What a batch does to the calls. *)
Lemma applyBatch_ok m ops o cls :
  Pending m cls -> applyBatch m ops o ->
  exists m', o = Some m' /\ Pending m' cls /\ m_closed m ⊆ m_closed m' /\
    (forall i cl op, op ∈ ops -> ro_SeqNum op <> "" -> cls !! i = Some cl -> inProgress cl ->
       cl_seq cl = ro_SeqNum op -> cl_chan cl ∈ m_closed m') /\
    (forall i cl, cls !! i = Some cl -> cl_chan cl ∈ m_closed m' ->
       cl_chan cl ∈ m_closed m \/ exists op, op ∈ ops /\ ro_SeqNum op = cl_seq cl).
Proof.
  intros HP HB. destruct HB as [m|now m op|m ops m1 _ Hf].
  - exists m. split_and!; try done; [|auto]. intros i cl op Hop. by apply elem_of_nil in Hop.
  - pose proof (applySwitch_same now m op) as Hs.
    destruct (signalAll_ok [op] cls _ (Pending_same _ _ _ Hs HP)) as (m' & Hm' & HP' & Hsub & Hw & Hn & _).
    cbn [signalAll] in Hm'. unfold applyOperation.
    destruct (signal (applySwitch now m op) (ro_SeqNum op)) as [m2|] eqn:E; [|done]. simplify_eq.
    exists m'. destruct Hs as (_ & Hc & _). rewrite Hc in *. done.
  - pose proof (flushAll_same _ _ _ Hf) as Hs.
    destruct (signalAll_ok ops cls _ (Pending_same _ _ _ Hs HP)) as (m' & Hm' & HP' & Hsub & Hw & Hn & _).
    exists m'. destruct Hs as (_ & Hc & _). rewrite Hc in *. done.
Qed.


(** ** Batches *)

(** The cuts keep the operations and their order; a batch is not empty and has
    one type. *)
Definition uniform (p : string * list RaftOperation) : Prop :=
  p.2 <> [] /\ Forall (fun op => ro_Type op = p.1) p.2.

Lemma batches_spec ops : forall t b,
  Forall (fun op => ro_Type op = t) b ->
  concat (batches t b ops).*2 = b ++ ops /\ Forall uniform (batches t b ops).
Proof.
  induction ops as [|op ops IH]; intros t b Hb; cbn [batches].
  - destruct b as [|op b]; [done|]. simpl. rewrite !app_nil_r. split; [done|]. by apply Forall_singleton.
  - destruct b as [|op0 b]; [by apply (IH (ro_Type op) [op]); repeat constructor|]. case_decide as Ht.
    + destruct (IH (ro_Type op) ((op0 :: b) ++ [op])) as [Hc Hf].
      * apply Forall_app. split; [|by repeat constructor]. by rewrite <- Ht.
      * split; [|done]. by rewrite Hc, <- app_assoc.
    + destruct (IH (ro_Type op) [op]) as [Hc Hf]; [by repeat constructor|].
      split; [cbn; by rewrite Hc|]. by constructor.
Qed.

(** ** Results of transactions *)

(** [r] is the response of an applied transaction with that sequence number. *)
Definition answered (log : list RaftOperation) (seq : string) (r : TxnResponse) : Prop :=
  exists op now e e', op ∈ log /\ ro_Type op = TTxn /\ ro_SeqNum op = seq /\
    applyTxnWithShardLocks now e (ro_Compares op) (ro_ThenOps op) (ro_ElseOps op) = (e', Ok r).

Lemma answered_mono log log' seq r : log ⊆ log' -> answered log seq r -> answered log' seq r.
Proof. intros Hsub (op & now & e & e' & Hop & ?). exists op, now, e, e'. split; [by apply Hsub|done]. Qed.

(** The results of [m'] were there in [m] or belong to [ops]. *)
Definition newResults (m : Memory) (ops : list RaftOperation) (m' : Memory) : Prop :=
  forall seq r, pendingTxnResults m' !! seq = Some r ->
    pendingTxnResults m !! seq = Some r \/ answered ops seq r.

Lemma newResults_refl m ops m' : pendingTxnResults m' = pendingTxnResults m -> newResults m ops m'.
Proof. intros Heq seq r. rewrite Heq. by left. Qed.

Lemma newResults_trans m1 m2 m3 ops ops' :
  newResults m1 ops m2 -> newResults m2 ops' m3 -> newResults m1 (ops ++ ops') m3.
Proof.
  intros H1 H2 seq r Hr. destruct (H2 seq r Hr) as [Hr'|Ha].
  - destruct (H1 seq r Hr') as [?|Ha]; [by left|]. right. eapply answered_mono; [|done]. set_solver.
  - right. eapply answered_mono; [|done]. set_solver.
Qed.

Lemma applyTxn_results now m op : ro_Type op = TTxn -> newResults m [op] (applyTxn now m op).
Proof.
  intros Ht seq r. unfold applyTxn.
  destruct (applyTxnWithShardLocks now (m_etcd m) _ _ _) as [e [r'|er]] eqn:E; [|by left].
  destruct (String.eqb (ro_SeqNum op) ""); [by left|]. simpl.
  intros [[<- <-]|[_ ?]]%lookup_insert_Some; [|by left]. right. exists op, now, (m_etcd m), e. set_solver.
Qed.

Lemma applyLease_results now m op : newResults m [op] (applyLease now m op).
Proof. apply newResults_refl. unfold applyLease. by case_decide. Qed.

Lemma inTurn_results f m ops m' :
  (forall now m op, op ∈ ops -> newResults m [op] (f now m op)) -> inTurn f m ops m' -> newResults m ops m'.
Proof.
  intros Hf Ht. induction Ht as [m|now m op ops m' _ IH]; [by apply newResults_refl|].
  change (op :: ops) with ([op] ++ ops). eapply newResults_trans; [apply Hf; by left|].
  apply IH. intros. apply Hf. by right.
Qed.

Lemma flushBatch_results m t b m' :
  Forall (fun op => ro_Type op = t) b -> flushBatch m t b m' -> newResults m b m'.
Proof.
  intros Hb. unfold flushBatch. repeat case_decide.
  - intros (e & _ & ->). by apply newResults_refl.
  - intros (e & _ & ->). by apply newResults_refl.
  - apply inTurn_results. intros now m1 op Hop. apply applyTxn_results.
    rewrite Forall_forall in Hb. specialize (Hb op Hop). congruence.
  - apply inTurn_results. intros. apply applyLease_results.
  - intros ->. by apply newResults_refl.
Qed.

Lemma flushAll_results m bs m' :
  Forall uniform bs -> flushAll m bs m' ->
  newResults m (concat bs.*2) m'.
Proof.
  intros Hf Hfl. induction Hfl as [m|m m1 m' t b bs Hb _ IH]; [by apply newResults_refl|].
  apply Forall_cons in Hf as [[_ Hb'] Hf]. cbn. eapply newResults_trans; [|by apply IH].
  by eapply flushBatch_results.
Qed.

Lemma applySwitch_results now m op : newResults m [op] (applySwitch now m op).
Proof.
  unfold applySwitch. repeat case_decide; try (by apply newResults_refl).
  - apply applyLease_results.
  - by apply applyTxn_results.
Qed.

Lemma applyBatch_results m ops m' : applyBatch m ops (Some m') -> forall cls, Pending m cls -> newResults m ops m'.
Proof.
  intros HB cls HP. remember (Some m') as o eqn:Ho. destruct HB as [m|now m op|m ops m1 _ Hf]; simplify_eq.
  - by apply newResults_refl.
  - pose proof (applySwitch_same now m op) as Hs.
    destruct (signal_ok _ cls (ro_SeqNum op) (Pending_same _ _ _ Hs HP)) as (m2 & Hm2 & _ & _ & _ & _ & _ & Ht).
    unfold applyOperation in Ho. rewrite Hm2 in Ho. simplify_eq.
    intros seq r. rewrite Ht. apply applySwitch_results.
  - destruct (batches_spec ops "" []) as [Hc Hty]; [constructor|].
    destruct (signalAll_ok ops cls _ (Pending_same _ _ _ (flushAll_same _ _ _ Hf) HP)) as (m3 & Hm3 & _ & _ & _ & _ & _ & Ht).
    rewrite Ho in Hm3. simplify_eq. intros seq r. rewrite Ht.
    apply (flushAll_results _ _ _ Hty) in Hf. rewrite Hc in Hf. apply Hf.
Qed.


(** ** Calls moving on *)

Lemma Pending_fresh m cls n : Pending m cls -> seqNum m < n -> pendingOps m !! seqName n = None.
Proof.
  intros HP Hn. destruct (pendingOps m !! seqName n) as [ch|] eqn:E; [|done]. exfalso.
  destruct (pn_pending _ _ HP _ _ E) as (_ & i & cl & Hi & Hs & _).
  destruct (pn_seq _ _ HP i cl Hi) as (n' & Hn' & Hs'). rewrite Hs in Hs'. apply seqName_inj in Hs'. lia.
Qed.

Lemma next_seq m cls : Pending m cls -> seqNum m < int64_max -> wrap_i64 (seqNum m + 1) = seqNum m + 1.
Proof. intros HP Hm. pose proof (pn_count _ _ HP). apply wrap_i64_id. unfold_ints. lia. Qed.

Lemma Pending_register m cls c d :
  Pending m cls -> seqNum m < int64_max ->
  let '(m', (seq, ch)) := register m in Pending m' (cls ++ [mkClient c seq ch (Sending d)]).
Proof.
  intros HP Hm. unfold register. rewrite (next_seq m cls) by done. pose proof (pn_count _ _ HP) as Hc.
  assert (Hl : forall i cl, (cls ++ [mkClient c (seqName (seqNum m + 1)) (m_chans m) (Sending d)]) !! i = Some cl ->
    cls !! i = Some cl \/ (i = length cls /\ cl = mkClient c (seqName (seqNum m + 1)) (m_chans m) (Sending d))).
  { intros i cl [Hi|[Hge Hi]]%lookup_app_Some; [by left|]. right.
    apply list_lookup_singleton_Some in Hi as [Hi ->]. split; [lia|done]. }
  assert (Hlt : forall i cl, cls !! i = Some cl ->
    cl_seq cl <> seqName (seqNum m + 1) /\ cl_chan cl <> m_chans m /\ i <> length cls).
  { intros i cl Hi. destruct (pn_seq _ _ HP i cl Hi) as (n & Hn & ->). pose proof (pn_chan _ _ HP i cl Hi).
    split; [intros Heq%seqName_inj; lia|]. split; [lia|]. apply lookup_lt_Some in Hi. lia. }
  split; simpl.
  - intros i cl [Hi|[_ ->]]%Hl; [|exists (seqNum m + 1); split; [lia|done]].
    destruct (pn_seq _ _ HP i cl Hi) as (n & Hn & ->). exists n. split; [lia|done].
  - intros i cl [Hi|[_ ->]]%Hl; [|simpl; lia]. pose proof (pn_chan _ _ HP i cl Hi). lia.
  - intros i j cl cl' [Hi|[-> ->]]%Hl [Hj|[-> ->]]%Hl Heq; [by eapply (pn_seq_inj _ _ HP)| | |done].
    + by destruct (Hlt _ _ Hi).
    + by destruct (Hlt _ _ Hj).
  - intros i j cl cl' [Hi|[-> ->]]%Hl [Hj|[-> ->]]%Hl Heq; [by eapply (pn_chan_inj _ _ HP)| | |done].
    + by destruct (Hlt _ _ Hi) as (_ & ? & _).
    + by destruct (Hlt _ _ Hj) as (_ & ? & _).
  - intros seq ch [[<- <-]|[Hne Hp]]%lookup_insert_Some.
    + split; [intros Hx; apply (pn_closed _ _ HP) in Hx; lia|].
      eexists (length cls), _. split; [by rewrite lookup_app_r, Nat.sub_diag by lia|done].
    + destruct (pn_pending _ _ HP seq ch Hp) as (Hop & i & cl & Hi & ?). split; [done|].
      exists i, cl. split; [by apply lookup_app_l_Some|done].
  - intros i cl [Hi|[_ ->]]%Hl Hin; [|left; simpl; by rewrite lookup_insert_eq].
    destruct (Hlt _ _ Hi) as [Hne _]. rewrite lookup_insert_ne by done. by apply (pn_waiting _ _ HP i).
  - intros ch Hx%(pn_closed _ _ HP). lia.
  - unfold_ints. lia.
Qed.

(** A call that failed before it was proposed leaves only a used-up number. *)
Lemma Pending_abandon m cls :
  Pending m cls -> seqNum m < int64_max ->
  let '(m', (seq, ch)) := register m in Pending (withdraw m' seq) cls.
Proof.
  intros HP Hm. unfold register, withdraw, setPending. rewrite (next_seq m cls) by done. simpl.
  rewrite delete_insert_id by (eapply Pending_fresh; [done|lia]). pose proof (pn_count _ _ HP).
  split; simpl; try apply HP.
  - intros i cl Hi. destruct (pn_seq _ _ HP i cl Hi) as (n & Hn & ->). exists n. split; [lia|done].
  - intros i cl Hi. pose proof (pn_chan _ _ HP i cl Hi). lia.
  - intros ch Hx%(pn_closed _ _ HP). lia.
  - unfold_ints. lia.
Qed.

(** The call in slot [i] changes phase. *)
Lemma setPhase_lookup (cls : list Client) i cl p j cl' :
  cls !! i = Some cl -> <[i := setPhase cl p]> cls !! j = Some cl' ->
  exists cl0, cls !! j = Some cl0 /\ cl_seq cl' = cl_seq cl0 /\ cl_chan cl' = cl_chan cl0 /\
    ((i = j /\ cl' = setPhase cl p /\ cl0 = cl) \/ (i <> j /\ cl' = cl0)).
Proof.
  intros Hi. intros [(-> & <- & _)|[Hne Hj]]%list_lookup_insert_Some.
  - exists cl. split; [done|]. split; [done|]. split; [done|]. by left.
  - exists cl'. split_and!; try done. by right.
Qed.

Lemma Pending_retire m m' cls i cl r :
  Pending m cls -> cls !! i = Some cl ->
  m_closed m' = m_closed m -> m_chans m' = m_chans m -> seqNum m' = seqNum m ->
  pendingOps m' = delete (cl_seq cl) (pendingOps m) ->
  Pending m' (<[i := setPhase cl (Returned r)]> cls).
Proof.
  intros HP Hi Hc Hn Hs Hp.
  pose proof (fun j cl' => setPhase_lookup cls i cl (Returned r) j cl' Hi) as Hl.
  split; rewrite ?Hc, ?Hn, ?Hs, ?Hp; try apply HP.
  - intros j cl' Hj. destruct (Hl j cl' Hj) as (cl0 & Hj0 & -> & _). by apply (pn_seq _ _ HP j).
  - intros j cl' Hj. destruct (Hl j cl' Hj) as (cl0 & Hj0 & _ & -> & _). by apply (pn_chan _ _ HP j).
  - intros j k c1 c2 H1 H2. destruct (Hl j c1 H1) as (d1 & Hd1 & -> & _), (Hl k c2 H2) as (d2 & Hd2 & -> & _).
    by apply (pn_seq_inj _ _ HP).
  - intros j k c1 c2 H1 H2. destruct (Hl j c1 H1) as (d1 & Hd1 & _ & -> & _), (Hl k c2 H2) as (d2 & Hd2 & _ & -> & _).
    by apply (pn_chan_inj _ _ HP).
  - intros seq ch [Hne Hq]%lookup_delete_Some. destruct (pn_pending _ _ HP seq ch Hq) as (Hop & j & cl' & Hj & Hsq & ?).
    split; [done|]. exists j, cl'. split; [|done]. rewrite list_lookup_insert_ne; [done|]. intros <-. congruence.
  - intros j cl' Hj Hin. destruct (Hl j cl' Hj) as (cl0 & Hj0 & _ & _ & [(-> & -> & ->)|[Hne ->]]); [done|].
    destruct (pn_waiting _ _ HP j cl0 Hj0 Hin) as [Hw|]; [|by right]. left. apply lookup_delete_Some.
    split; [|done]. intros Heq. apply Hne. by apply (pn_seq_inj _ _ HP i j cl cl0).
Qed.

Lemma Pending_sent m m' cls i cl d :
  Pending m cls -> cls !! i = Some cl -> cl_phase cl = Sending d -> sameCalls m m' ->
  Pending m' (<[i := setPhase cl Waiting]> cls).
Proof.
  intros HP Hi Hph Hsame. apply (Pending_same m m'); [done|]. clear Hsame m'.
  pose proof (fun j cl' => setPhase_lookup cls i cl Waiting j cl' Hi) as Hl.
  split; try apply HP.
  - intros j cl' Hj. destruct (Hl j cl' Hj) as (cl0 & Hj0 & -> & _). by apply (pn_seq _ _ HP j).
  - intros j cl' Hj. destruct (Hl j cl' Hj) as (cl0 & Hj0 & _ & -> & _). by apply (pn_chan _ _ HP j).
  - intros j k c1 c2 H1 H2. destruct (Hl j c1 H1) as (d1 & Hd1 & -> & _), (Hl k c2 H2) as (d2 & Hd2 & -> & _).
    by apply (pn_seq_inj _ _ HP).
  - intros j k c1 c2 H1 H2. destruct (Hl j c1 H1) as (d1 & Hd1 & _ & -> & _), (Hl k c2 H2) as (d2 & Hd2 & _ & -> & _).
    by apply (pn_chan_inj _ _ HP).
  - intros seq ch Hq. destruct (pn_pending _ _ HP seq ch Hq) as (Hop & j & cl' & Hj & Hsq & Hch & Hin).
    split; [done|]. destruct (decide (i = j)) as [<-|Hne].
    + exists i, (setPhase cl Waiting). rewrite Hi in Hj. simplify_eq.
      split; [|done]. apply list_lookup_insert_eq. by eapply lookup_lt_Some.
    + exists j, cl'. split; [by rewrite list_lookup_insert_ne|done].
  - intros j cl' Hj Hin. destruct (Hl j cl' Hj) as (cl0 & Hj0 & -> & -> & Hcase).
    apply (pn_waiting _ _ HP j); [done|]. destruct Hcase as [(-> & -> & ->)|[_ ->]]; [|done].
    unfold inProgress. by rewrite Hph.
Qed.


(** ** The invariant of the system *)

Record SInv (s : System) : Prop := {
  si_pending : Pending (sys_m s) (sys_clients s);
  si_closed i cl : sys_clients s !! i = Some cl -> cl_chan cl ∈ m_closed (sys_m s) ->
    exists op, op ∈ sys_applied s /\ ro_SeqNum op = cl_seq cl;
  si_done i cl r : sys_clients s !! i = Some cl -> cl_phase cl = Returned r ->
    cl_chan cl ∈ m_closed (sys_m s) \/
      (exists e, r = Err e /\ e <> ETxnResultNotFound);
  si_results seq r : pendingTxnResults (sys_m s) !! seq = Some r -> answered (sys_applied s) seq r;
  si_txn i cl r : sys_clients s !! i = Some cl -> cl_phase cl = Returned (Ok (RepTxn r)) ->
    answered (sys_applied s) (cl_seq cl) r;
}.

Lemma begin_calls m cls r :
  Pending m cls -> seqNum m < int64_max ->
  match begin enableProtobuf m (callOf m r) with
  | (m', inl _) => Pending m' cls /\ m_closed m' = m_closed m /\ pendingTxnResults m' = pendingTxnResults m
  | (m', inr (seq, ch, data)) =>
      Pending m' (cls ++ [mkClient (callOf m r) seq ch (Sending data)]) /\
      (ch ∉ m_closed m) /\ m_closed m' = m_closed m /\ pendingTxnResults m' = pendingTxnResults m
  end.
Proof.
  intros HP Hm. unfold begin. destruct (c_early (callOf m r)); [done|].
  assert (Hnc : m_chans m ∉ m_closed m) by (intros Hx%(pn_closed _ _ HP); lia).
  pose proof (Pending_abandon m cls HP Hm) as Ha.
  pose proof (fun d => Pending_register m cls (callOf m r) d HP Hm) as Hr. unfold register in *.
  destruct (serializeOperation _ _) as [data|e]; [by split_and!|by split_and!].
Qed.

Lemma send_calls m cls i cl data o m' res :
  Pending m cls -> cls !! i = Some cl -> cl_phase cl = Sending data -> send m (cl_seq cl) data o = (m', res) ->
  Pending m' (<[i := setPhase cl match res with Ok _ => Waiting | Err e => Returned (Err e) end]> cls) /\
  m_closed m' = m_closed m /\ pendingTxnResults m' = pendingTxnResults m /\
  (forall e, res = Err e -> e <> ETxnResultNotFound).
Proof.
  intros HP Hi Hph Hs. unfold send, propose in Hs. destruct o; simplify_eq; (split_and!; [|done|done|by intros; simplify_eq]).
  - by eapply Pending_sent.
  - by eapply Pending_retire.
  - by eapply Pending_retire.
Qed.

(** The calls of [Memory] leave everything but the results alone when they end. *)
Lemma finish_calls now m0 r m seq m' res :
  c_finish (callOf m0 r) now m seq = (m', res) ->
  sameCalls m m' /\ (forall s x, pendingTxnResults m' !! s = Some x -> pendingTxnResults m !! s = Some x) /\
  (forall x, res = Ok (RepTxn x) -> pendingTxnResults m !! seq = Some x).
Proof.
  destruct r; simpl; intros Hf; simplify_eq; (split; [done|]); (split; [try done|intros x Hx; simplify_eq]).
  - simpl. by intros s x [_ ?]%lookup_delete_Some.
  - by destruct (pendingTxnResults m !! seq); simplify_eq.
Qed.

Lemma setPhase_inv (s : System) m' i cl p :
  SInv s -> sys_clients s !! i = Some cl ->
  Pending m' (<[i := setPhase cl p]> (sys_clients s)) -> m_closed m' = m_closed (sys_m s) ->
  (forall q x, pendingTxnResults m' !! q = Some x -> pendingTxnResults (sys_m s) !! q = Some x) ->
  (forall r, p = Returned r ->
     cl_chan cl ∈ m_closed (sys_m s) \/ (exists e, r = Err e /\ e <> ETxnResultNotFound)) ->
  (forall r, p = Returned (Ok (RepTxn r)) -> answered (sys_applied s) (cl_seq cl) r) ->
  SInv (mkSystem m' (<[i := setPhase cl p]> (sys_clients s)) (sys_applied s)).
Proof.
  intros HI Hi HP Hc Hres Hdone Htxn.
  pose proof (fun j cl' => setPhase_lookup _ i cl p j cl' Hi) as Hl.
  split; simpl; rewrite ?Hc; [done|..].
  - intros j cl' Hj. destruct (Hl j cl' Hj) as (cl0 & Hj0 & -> & -> & _). by apply (si_closed _ HI j).
  - intros j cl' r Hj Hp. destruct (Hl j cl' Hj) as (cl0 & Hj0 & _ & -> & [(-> & -> & ->)|[_ ->]]); [by apply Hdone|].
    by apply (si_done _ HI j).
  - intros q x Hx. apply (si_results _ HI). by apply Hres.
  - intros j cl' r Hj Hp. destruct (Hl j cl' Hj) as (cl0 & Hj0 & -> & _ & [(-> & -> & ->)|[_ ->]]); [by apply Htxn|].
    by apply (si_txn _ HI j).
Qed.

(** Steps of the store itself. *)
Lemma same_inv (s : System) m' :
  SInv s -> sameCalls (sys_m s) m' -> pendingTxnResults m' = pendingTxnResults (sys_m s) ->
  SInv (mkSystem m' (sys_clients s) (sys_applied s)).
Proof.
  intros HI Hs Ht. pose proof Hs as (_ & Hc & _).
  split; simpl; rewrite ?Hc, ?Ht; try apply HI. by eapply Pending_same; [|apply HI].
Qed.

(** A call that waits is one of the five. *)
Definition fromApi (s : System) : Prop :=
  forall i cl, sys_clients s !! i = Some cl -> exists m r, cl_call cl = callOf m r.

Lemma step_api s s' : fromApi s -> sys_step s s' -> fromApi s'.
Proof.
  intros HA Hs. inversion Hs; subst; intros j cl0 Hj; simpl in *; try by apply (HA j).
  - apply lookup_app_Some in Hj as [Hj|[_ Hj]]; [by apply (HA j)|].
    apply list_lookup_singleton_Some in Hj as [_ <-]. by eexists _, _.
  - apply list_lookup_insert_Some in Hj as [(_ & <- & _)|[_ Hj]]; [|by apply (HA j)].
    edestruct (HA i) as (m0 & r0 & Hc0); [eassumption|]. by exists m0, r0.
  - apply list_lookup_insert_Some in Hj as [(_ & <- & _)|[_ Hj]]; [|by apply (HA j)].
    edestruct (HA i) as (m0 & r0 & Hc0); [eassumption|]. by exists m0, r0.
Qed.


Lemma step_inv s s' : fromApi s -> SInv s -> sys_step s s' -> SInv s'.
Proof.
  intros HA HI Hstep. pose proof (si_pending _ HI) as HP.
  destruct Hstep as [m cls log r m' res Hn Hb|m cls log r m' seq ch data Hn Hb
    |m cls log i cl data o m' res Hi Hph Hs|m cls log i cl now o m' res Hi Hph Ho Hw
    |m cls log entries m1 ops m' Hc HB|m cls log l m' Hl|m cls log now o|m cls log k v|m cls log node id];
    simpl in *.
  - pose proof (begin_calls m cls r HP Hn) as Hbc. rewrite Hb in Hbc. destruct Hbc as (HP' & Hc & Ht).
    split; simpl; rewrite ?Hc, ?Ht; [done|apply HI..].
  - pose proof (begin_calls m cls r HP Hn) as Hbc. rewrite Hb in Hbc. destruct Hbc as (HP' & Hnew & Hc & Ht).
    assert (Hl : forall i cl, (cls ++ [mkClient (callOf m r) seq ch (Sending data)]) !! i = Some cl ->
      cls !! i = Some cl \/ cl = mkClient (callOf m r) seq ch (Sending data)).
    { intros i cl [Hi|[_ Hi]]%lookup_app_Some; [by left|]. by apply list_lookup_singleton_Some in Hi as [_ <-]; right. }
    split; simpl; rewrite ?Hc, ?Ht; [done|..|apply HI|].
    + intros i cl [Hi| ->]%Hl; [by apply (si_closed _ HI i)|by intros ?%Hnew].
    + intros i cl x [Hi| ->]%Hl; [by apply (si_done _ HI i)|done].
    + intros i cl x [Hi| ->]%Hl; [by apply (si_txn _ HI i)|done].
  - destruct (send_calls m cls i cl data o m' res HP Hi Hph Hs) as (HP' & Hc & Ht & Hne).
    apply (setPhase_inv (mkSystem m cls log)); try done; simpl.
    + by rewrite Ht.
    + intros x Hx. right. destruct res as [u|e]; simplify_eq. exists e. split; [done|]. by apply Hne.
    + intros x Hx. by destruct res; simplify_eq.
  - destruct (HA i cl Hi) as (m0 & r & Hcall). simpl in Hcall. unfold await in Hw. destruct o.
    + rewrite Hcall in Hw. destruct (finish_calls _ _ _ _ _ _ _ Hw) as (Hs & Hres & Htxn).
      specialize (Ho eq_refl). destruct Hs as (Hp & Hc & Hch & Hsq).
      apply (setPhase_inv (mkSystem m cls log)); try done; simpl.
      * apply (Pending_retire m); try done. rewrite Hp. symmetry. apply delete_id.
        destruct (pendingOps m !! cl_seq cl) as [ch|] eqn:E; [|done]. exfalso.
        destruct (pn_pending _ _ HP _ _ E) as (Hop & j & cl' & Hj & Hs' & Hc' & _).
        assert (j = i) by (by apply (pn_seq_inj _ _ HP j i cl' cl)). congruence.
      * intros x Hx. by left.
      * intros x Hx. simplify_eq. apply (si_results _ HI). by apply Htxn.
    + simplify_eq. apply (setPhase_inv (mkSystem m cls log)); try done; simpl.
      * by apply (Pending_retire m).
      * intros x Hx. simplify_eq. right. by eexists.
    + simplify_eq. apply (setPhase_inv (mkSystem m cls log)); try done; simpl.
      * by apply (Pending_retire m).
      * intros x Hx. simplify_eq. right. by eexists.
  - pose proof (collect_same entries m [] m1 ops Hc) as Hs. pose proof (Pending_same _ _ _ Hs HP) as HP1.
    destruct (applyBatch_ok m1 ops (Some m') cls HP1 HB) as (m2 & Hm2 & HP' & Hsub & _ & Hnew). simplify_eq.
    pose proof (applyBatch_results m1 ops m2 HB cls HP1) as Hres.
    destruct Hs as (_ & Hcl & _). rewrite Hcl in *. split; simpl; [done|..].
    + intros i cl Hi Hx. destruct (Hnew i cl Hi Hx) as [Hx'|(op & Hop & Hsq)].
      * destruct (si_closed _ HI i cl Hi Hx') as (op & Hop & Hsq). exists op. set_solver.
      * exists op. set_solver.
    + intros i cl x Hi Hx. destruct (si_done _ HI i cl x Hi Hx) as [?|?]; [left; by apply Hsub|by right].
    + intros seq r Hr. destruct (Hres seq r Hr) as [Hr'|Ha].
      * eapply answered_mono; [|apply (si_results _ HI)]; [set_solver|]. simpl.
        by rewrite <- (collect_results entries m [] m1 ops Hc).
      * eapply answered_mono; [|done]. set_solver.
    + intros i cl r Hi Hx. eapply answered_mono; [|by apply (si_txn _ HI i)]. set_solver.
  - apply (same_inv (mkSystem m cls log)); [done|..]; simpl; unfold reload, recoverFromSnapshot in Hl;
      destruct l; simplify_eq; try done; destruct (deserializeSnapshot data); by simplify_eq.
  - by apply (same_inv (mkSystem m cls log)).
  - by apply (same_inv (mkSystem m cls log)).
  - by apply (same_inv (mkSystem m cls log)).
Qed.

Lemma reachable_inv s : reachable s -> SInv s /\ fromApi s.
Proof.
  intros Hr. unfold reachable in Hr. revert Hr.
  assert (H0 : SInv (mkSystem NewMemory [] []) /\ fromApi (mkSystem NewMemory [] [])).
  { split; [|by intros i cl Hi]. split; simpl; try done. }
  revert H0. generalize (mkSystem NewMemory [] []). intros s0 H0 Hr.
  induction Hr as [s1|s1 s2 s3 Hs _ IH]; [done|]. destruct H0 as [HI HA].
  apply IH. split; [by eapply step_inv|by eapply step_api].
Qed.

End system.
