(* ===== verification/MemoryTheorems.v ===== *)
(** * Properties of the store behind Raft

    For any interleaving of client calls and commits: channels are never closed
    twice, no wake-up is lost, and a call that succeeds saw an operation with its
    sequence number applied.  Snapshots and operations survive their encodings,
    and a batch of puts and deletions has the effect of the log. *)

From stdpp Require Import pretty.
From S2P Require Import Prelude GoBytes OrderedTree KvTypes ShardedMap MemoryEtcd EtcdFacts EtcdOps BatchApply BatchTheorems RaftCodec MemoryRaft MemorySystem.

Abbreviation etcd := (MemoryEtcd ShardedMap).
Abbreviation data e := (contents (kvData e)).

(** ** Batches of puts and deletions *)

Section batches.
Context `{!MapOrder}.

Definition isData (op : RaftOperation) : Prop := ro_Type op = TPut \/ ro_Type op = TDelete.

(** What one operation does to the erased record of a key, ranges included. *)
Definition erasedAt (k : string) (o : option (string * Z * Z)) (op : RaftOperation) : option (string * Z * Z) :=
  if decide (ro_Type op = TDelete)
  then if matchWatch k (ro_Key op) (ro_RangeEnd op) then None else o
  else if String.eqb (ro_Key op) k then erasedOp o op else o.

Lemma erasedAt_puts ops k : Forall (fun op => ro_Type op = TPut) ops ->
  forall o, fold_left (erasedAt k) ops o = fold_left erasedOp (ofKey k ops) o.
Proof.
  induction 1 as [|op ops Ht _ IH]; intros o; [done|]. unfold ofKey in *. cbn [fold_left List.filter].
  unfold erasedAt at 2. rewrite decide_False by (by rewrite Ht). rewrite IH.
  by destruct (String.eqb (ro_Key op) k).
Qed.

Lemma erasedAt_deletes ops k : Forall (fun op => ro_Type op = TDelete) ops ->
  forall o, fold_left (erasedAt k) ops o = if deletes ops k then None else o.
Proof.
  induction 1 as [|op ops Ht _ IH]; intros o; [done|]. cbn [fold_left deletes existsb]. fold (deletes ops k).
  rewrite IH. unfold erasedAt. rewrite decide_True by done.
  by destruct (deletes ops k), (matchWatch k (ro_Key op) (ro_RangeEnd op)).
Qed.

(** The size of the store is known from the views. *)
Lemma view_size (e e' : etcd) : (forall k, view e' k = view e k) -> size (data e') = size (data e).
Proof.
  intros Hv. rewrite <- !size_dom. f_equal. apply set_eq. intros k. rewrite !elem_of_dom.
  specialize (Hv k). unfold view in Hv.
  destruct (data e' !! k), (data e !! k); simpl in *; try done; split; intros []; by eexists.
Qed.

(** How far the revision and the size can grow. *)
Definition measure (e : etcd) : Z := revision e + Z.of_nat (size (data e)).

Lemma wf_measure (e : etcd) : wf_etcd e -> 0 <= revision e <= measure e.
Proof. intros Hwf. pose proof (wd_rev _ _ (we_data _ Hwf)). unfold measure. lia. Qed.

Lemma size_list_to_set_le (l : list string) : (size (list_to_set l : gset string) <= length l)%nat.
Proof.
  induction l as [|x l IH]; [done|]. cbn [list_to_set length]. rewrite size_union_alt, size_singleton.
  assert (size (list_to_set l ∖ {[x]} : gset string) <= size (list_to_set l : gset string))%nat; [|lia].
  apply subseteq_size. set_solver.
Qed.

(** Puts add at most one key each. *)
Lemma puts_size ops : forall (e e' : etcd),
  (forall k, view e' k = fold_left erasedOp (ofKey k ops) (view e k)) ->
  (size (data e') <= size (data e) + length ops)%nat.
Proof.
  intros e e' Hv. rewrite <- !size_dom.
  transitivity (size (dom (data e) ∪ list_to_set (ro_Key <$> ops) : gset string)).
  - apply subseteq_size. intros k [kv Hk]%elem_of_dom. rewrite elem_of_union, elem_of_list_to_set.
    destruct (decide (k ∈ (ro_Key <$> ops))) as [?|Hn]; [by right|]. left. apply elem_of_dom.
    specialize (Hv k). rewrite (ofKey_none k ops) in Hv.
    + unfold view in Hv. rewrite Hk in Hv. cbn [fold_left fmap option_fmap option_map] in Hv.
      destruct (data e !! k); [by eexists|done].
    + intros op Hop <-. apply Hn, list_elem_of_fmap. by exists op.
  - rewrite size_union_alt. etransitivity; [apply Nat.add_le_mono_l, subseteq_size, subseteq_difference_l; reflexivity|].
    apply Nat.add_le_mono_l. rewrite <- (length_fmap ro_Key ops). apply size_list_to_set_le.
Qed.

Lemma applyEach_wf ops : forall (e : etcd),
  wf_etcd e -> revision e + Z.of_nat (length ops) <= int64_max ->
  Forall (fun op => ro_Type op <> TDelete) ops -> wf_etcd (applyEach e ops).
Proof.
  induction ops as [|op ops IH]; intros e Hwf Hr Hf; [done|]. apply Forall_cons in Hf as [Ht Hf].
  cbn [length] in Hr. destruct (putDirect_view e op "" Hwf ltac:(lia) Ht) as (Hwf' & Hr' & _).
  apply IH; [done|lia|done].
Qed.

(** One batch, against the same operations one after the other on a store that
    looks the same. *)
Lemma flush_agrees m t b m' (e : etcd) :
  wf_etcd (m_etcd m) -> wf_etcd e -> measure (m_etcd m) + 2 * Z.of_nat (length b) <= int64_max ->
  (t = TPut \/ t = TDelete) -> Forall (fun op => ro_Type op = t) b ->
  revision e = revision (m_etcd m) -> (forall k, view e k = view (m_etcd m) k) ->
  flushBatch m t b m' ->
  let e' := applyEach e b in
  wf_etcd (m_etcd m') /\ wf_etcd e' /\ measure (m_etcd m') <= measure (m_etcd m) + 2 * Z.of_nat (length b) /\
  revision e' = revision (m_etcd m') /\ (forall k, view e' k = view (m_etcd m') k) /\
  (forall k, view (m_etcd m') k = fold_left (erasedAt k) b (view (m_etcd m) k)).
Proof.
  intros Hwf Hwfe Hmax Ht Hb Hrev Hview Hf. pose proof (wf_measure _ Hwf) as Hm.
  pose proof (view_size (m_etcd m) e Hview) as Hsz. unfold measure in *. unfold flushBatch in Hf.
  destruct Ht as [-> | ->].
  - rewrite decide_True in Hf by done. destruct Hf as (e1 & Hp & ->). cbn [m_etcd setEtcd].
    assert (Hnd : Forall (fun op => ro_Type op <> TDelete) b)
      by (eapply Forall_impl; [exact Hb|]; by intros op ->).
    destruct (parallelApply_spec (m_etcd m) b e1 (wd_map _ _ (we_data _ Hwf)) ltac:(lia) ltac:(unfold_ints; lia) Hp)
      as (_ & Hv & _ & Hr & _). specialize (Hr Hnd).
    pose proof (parallelApply_wf (m_etcd m) b e1 Hwf ltac:(lia) Hp) as Hwf1.
    assert (Hpe : forall k, view (applyEach e b) k = view e1 k).
    { intros k. destruct (applyEach_puts b e k Hwfe ltac:(lia) Hnd) as [-> _]. by rewrite Hv, Hview. }
    destruct (applyEach_puts b e "" Hwfe ltac:(lia) Hnd) as [_ Hre].
    split_and!; [done|apply applyEach_wf; [done|lia|done]| |lia|done|].
    + pose proof (puts_size b (m_etcd m) e1 Hv). lia.
    + intros k. rewrite Hv, erasedAt_puts by done. done.
  - rewrite decide_False in Hf by done. rewrite decide_True in Hf by done. destruct Hf as (e1 & Hp & ->).
    cbn [m_etcd setEtcd].
    destruct (deletes_spec (m_etcd m) b e1 Hwf ltac:(lia) Hb Hp) as (Hwf1 & Hsz1 & Hd1).
    destruct (fold_deletes b e Hwfe ltac:(lia)) as (Hwf2 & Hsz2 & Hd2).
    rewrite <- (applyEach_deletes b e Hb) in *.
    assert (Hv1 : forall k, view e1 k = if deletes b k then None else view (m_etcd m) k)
      by (intros k; unfold view; rewrite Hd1; by destruct (deletes b k)).
    assert (Hpe : forall k, view (applyEach e b) k = view e1 k).
    { intros k. rewrite Hv1. unfold view at 1. rewrite Hd2, <- Hview. by destruct (deletes b k). }
    pose proof (view_size e1 (applyEach e b) Hpe).
    split_and!; [done|done|lia|lia|done|]. intros k. by rewrite Hv1, erasedAt_deletes.
Qed.


Lemma flushAll_agrees bs : forall m m' (e : etcd),
  wf_etcd (m_etcd m) -> wf_etcd e ->
  measure (m_etcd m) + 2 * Z.of_nat (length (concat bs.*2)) <= int64_max ->
  Forall uniform bs ->
  Forall isData (concat bs.*2) ->
  revision e = revision (m_etcd m) -> (forall k, view e k = view (m_etcd m) k) ->
  flushAll m bs m' ->
  let e' := applyEach e (concat bs.*2) in
  wf_etcd (m_etcd m') /\ wf_etcd e' /\
  revision e' = revision (m_etcd m') /\ (forall k, view e' k = view (m_etcd m') k) /\
  (forall k, view (m_etcd m') k = fold_left (erasedAt k) (concat bs.*2) (view (m_etcd m) k)).
Proof.
  induction bs as [|[t b] bs IH]; intros m m' e Hwf Hwfe Hmax Hty Hdata Hrev Hview Hf; inversion Hf; subst; [done|].
  apply Forall_cons in Hty as [[Hne Hb] Hty]. cbn [fmap list_fmap snd concat] in *.
  rewrite length_app in Hmax. apply Forall_app in Hdata as [Hd1 Hd2].
  assert (Ht : t = TPut \/ t = TDelete).
  { destruct b as [|op b]; [done|]. apply Forall_cons in Hd1 as [Hd1 _]. apply Forall_cons in Hb as [Hb _].
    simpl in Hb. unfold isData in Hd1. by rewrite Hb in Hd1. }
  match goal with Hfl : flushBatch m t b ?x |- _ =>
    destruct (flush_agrees m t b x e Hwf Hwfe ltac:(lia) Ht Hb Hrev Hview Hfl)
      as (Hwf1 & Hwfe1 & Hm1 & Hr1 & Hv1 & Hx1);
    destruct (IH x m' (applyEach e b) Hwf1 Hwfe1 ltac:(lia) Hty Hd2 Hr1 Hv1 ltac:(assumption))
      as (Hwf2 & Hwfe2 & Hr2 & Hv2 & Hx2)
  end.
  unfold applyEach in *. rewrite fold_left_app. split_and!; try done.
  intros k. by rewrite Hx2, Hx1, fold_left_app.
Qed.

End batches.

(** ** Totality of batches *)

Section total.
Context `{!MapOrder}.

Lemma inTurn_total f ops : forall m, exists m', inTurn f m ops m'.
Proof.
  induction ops as [|op ops IH]; intros m; [by exists m; constructor|].
  destruct (IH (f 0 m op)) as [m' Hm']. exists m'. by econstructor.
Qed.

Lemma flushBatch_total m t b : exists m', flushBatch m t b m'.
Proof.
  unfold flushBatch. repeat case_decide; try apply inTurn_total; [..|by exists m].
  - destruct (proj1 (parallelApply_total (m_etcd m) b)) as [e He]. by exists (setEtcd m e), e.
  - destruct (proj1 (parallelApply_total (m_etcd m) (List.filter isSingleKey b))) as [e He].
    eexists _, _. split; [by exists e|done].
Qed.

Lemma flushAll_total bs : forall m, exists m', flushAll m bs m'.
Proof.
  induction bs as [|[t b] bs IH]; intros m; [by exists m; constructor|].
  destruct (flushBatch_total m t b) as [m1 H1]. destruct (IH m1) as [m' H2]. exists m'. by econstructor.
Qed.

Lemma applyBatch_total m ops : exists o, applyBatch m ops o.
Proof.
  destruct ops as [|op [|op' ops]]; [eexists; constructor|eexists; by apply (applyBatch_one 0)|].
  destruct (flushAll_total (batches "" [] (op :: op' :: ops)) m) as [m1 H1].
  eexists. eapply applyBatch_many; [simpl; lia|done].
Qed.

Lemma signal_etcd m seq m' : signal m seq = Some m' -> m_etcd m' = m_etcd m.
Proof.
  unfold signal. destruct (String.eqb seq ""); [by intros; simplify_eq|].
  destruct (pendingOps m !! seq); [|by intros; simplify_eq]. case_decide; intros; by simplify_eq.
Qed.

Lemma signalAll_etcd ops : forall m m', signalAll m ops = Some m' -> m_etcd m' = m_etcd m.
Proof.
  induction ops as [|op ops IH]; intros m m'; cbn [signalAll]; [by intros; simplify_eq|].
  destruct (signal m (ro_SeqNum op)) as [m1|] eqn:E; [|done]. intros Hs%IH. rewrite Hs.
  by eapply signal_etcd.
Qed.

Lemma applySwitch_data now m op : isData op -> m_etcd (applySwitch now m op) = applyDirect (m_etcd m) op.
Proof.
  intros [Ht|Ht]; unfold applySwitch, applyDirect.
  - rewrite Ht. done.
  - rewrite Ht. done.
Qed.

Lemma applyDirect_erased e op k :
  wf_etcd e -> measure e + 1 <= int64_max -> isData op ->
  wf_etcd (applyDirect e op) /\ view (applyDirect e op) k = erasedAt k (view e k) op.
Proof.
  intros Hwf Hmax Hd. pose proof (wf_measure _ Hwf). destruct (decide (ro_Type op = TDelete)) as [Ht|Ht].
  - destruct (deleteDirect_data e (ro_Key op) (ro_RangeEnd op) Hwf ltac:(unfold measure in *; lia)) as (Hwf' & _ & Hv).
    unfold applyDirect, erasedAt. rewrite !decide_True by done. split; [done|]. unfold view. rewrite Hv.
    by destruct (matchWatch k (ro_Key op) (ro_RangeEnd op)).
  - destruct (putDirect_view e op k Hwf ltac:(lia) Ht) as (Hwf' & _ & Hv). split; [done|]. rewrite Hv.
    unfold erasedAt. destruct (decide (ro_Type op = TDelete)); [done|].
    destruct (String.eqb_spec (ro_Key op) k) as [Heq|Hne]; [by rewrite decide_True|by rewrite decide_False].
Qed.

End total.

(** ** Properties *)

Section properties.
Context `{!MapOrder, !ProtoWire pbRaftOperation, !TextWire RaftOperation,
          !ProtoWire pbStoreSnapshot, !TextWire SnapshotData}.
Context (enableProtobuf enableSnapshotProtobuf : bool).
Context (gobDecodeKV : string -> option (string * string)) (gobEncodeKV : string * string -> string).

Abbreviation reachable := (reachable enableProtobuf gobDecodeKV gobEncodeKV).

(** C5: a committed batch of puts and deletions, applied with any scheduling of the
    goroutines, leaves a well-formed store at the revision the log order gives;
    each key has the value, lease and version the operations on it give in log
    order, and a deleted key is gone. *)
Theorem raft_batch_matches_log (m m' : Memory) (ops : list RaftOperation) (Hwf : wf_etcd (m_etcd m))
    (Hr : measure (m_etcd m) + 2 * Z.of_nat (length ops) <= int64_max)
    (Hops : Forall isData ops) (Hb : applyBatch m ops (Some m')) :
  wf_etcd (m_etcd m') /\ revision (m_etcd m') = revision (applyEach (m_etcd m) ops) /\
  forall k, view (m_etcd m') k = view (applyEach (m_etcd m) ops) k /\
            view (m_etcd m') k = fold_left (erasedAt k) ops (view (m_etcd m) k).
Proof.
  remember (Some m') as o eqn:Ho. destruct Hb as [m|now m op|m ops m1 _ Hf]; simplify_eq; [done|..].
  - apply Forall_cons in Hops as [Hops _]. unfold applyOperation in Ho. apply signal_etcd in Ho.
    rewrite applySwitch_data in Ho by done. rewrite Ho. cbn [length] in Hr.
    split; [by apply (applyDirect_erased _ _ ""); [|lia|]|]. split; [done|].
    intros k. split; [done|]. by apply applyDirect_erased; [|lia|].
  - destruct (batches_spec ops "" []) as [Hc Hu]; [constructor|]. cbn [app] in Hc.
    pose proof (flushAll_agrees (batches "" [] ops) m m1 (m_etcd m) Hwf Hwf) as Hag. rewrite Hc in Hag.
    destruct (Hag Hr Hu Hops eq_refl (fun _ => eq_refl) Hf) as (Hwf1 & _ & Hrev & Hv & Hx).
    rewrite (signalAll_etcd _ _ _ Ho). split; [done|]. split; [done|]. intros k. split; [done|]. apply Hx.
Qed.

(** C12: in any interleaving of calls and commits, applying the operations of a
    commit succeeds (no wait channel is closed twice) and wakes every call in
    progress whose sequence number is among them. *)
Theorem raft_commit_wakes_calls (s : System) (entries : list string) (m1 : Memory) (ops : list RaftOperation)
    (Hs : reachable s) (Hc : collect gobDecodeKV (sys_m s) entries [] = Some (m1, ops)) :
  (exists o, applyBatch m1 ops o) /\
  forall o, applyBatch m1 ops o ->
    exists m', o = Some m' /\
      forall i cl op, sys_clients s !! i = Some cl -> inProgress cl ->
        op ∈ ops -> ro_SeqNum op = cl_seq cl -> cl_chan cl ∈ m_closed m'.
Proof.
  split; [apply applyBatch_total|]. intros o Hb. destruct (reachable_inv _ _ _ s Hs) as [HI _].
  pose proof (Pending_same _ _ _ (collect_same _ _ _ _ _ _ Hc) (si_pending _ HI)) as HP.
  destruct (applyBatch_ok m1 ops o _ HP Hb) as (m' & -> & _ & _ & Hw & _).
  exists m'. split; [done|]. intros i cl op Hi Hin Hop Hsq. apply (Hw i cl op); try done.
  destruct (pn_seq _ _ HP i cl Hi) as (n & _ & Hn). rewrite Hsq, Hn. done.
Qed.

(** C18: a call that returned without error saw an applied operation with its own
    sequence number, which no other call of the node has; a transaction returns
    the response of such an operation. *)
Theorem raft_reply_sound (s : System) (i : nat) (cl : Client) (r : Reply)
    (Hs : reachable s) (Hi : sys_clients s !! i = Some cl) (Hr : cl_phase cl = Returned (Ok r)) :
  (exists op, op ∈ sys_applied s /\ ro_SeqNum op = cl_seq cl) /\
  (forall j cl', sys_clients s !! j = Some cl' -> cl_seq cl' = cl_seq cl -> j = i) /\
  (forall x, r = RepTxn x -> answered (sys_applied s) (cl_seq cl) x).
Proof.
  destruct (reachable_inv _ _ _ s Hs) as [HI _]. split_and!.
  - destruct (si_done _ HI i cl _ Hi Hr) as [Hc|(e & ? & _)]; [by apply (si_closed _ HI i)|done].
  - intros j cl' Hj Heq. by apply (pn_seq_inj _ _ (si_pending _ HI) j i cl' cl).
  - intros x ->. by apply (si_txn _ HI i).
Qed.

(** Restoring a snapshot into any node gives it the records, the revision and
    the leases of the node that took it, and keeps its own watches. *)
Theorem raft_snapshot_roundtrip (m n : Memory) (data : string)
    (Hm : wf_etcd (m_etcd m)) (Hn : wf_map (kvData (m_etcd n)))
    (Hl : map_Forall (fun _ => lease_exact) (leases (m_etcd m)))
    (Hx : enableSnapshotProtobuf = false -> text_exact
            (mkSnapshotData (revision (m_etcd m)) (GetAll (kvData (m_etcd m))) (leases (m_etcd m))))
    (Hg : GetSnapshot enableSnapshotProtobuf m = Ok data) :
  exists n', recoverFromSnapshot n data = (n', Ok tt) /\
    contents (kvData (m_etcd n')) = contents (kvData (m_etcd m)) /\
    revision (m_etcd n') = revision (m_etcd m) /\ leases (m_etcd n') = leases (m_etcd m) /\
    watches (m_etcd n') = watches (m_etcd n).
Proof.
  unfold recoverFromSnapshot. rewrite (snapshot_wire _ _ _ _ _ Hl Hx Hg).
  eexists. split; [done|]. cbn [m_etcd setEtcd kvData revision leases watches sd_KVData sd_Revision sd_Leases].
  rewrite contents_SetAll by done. by rewrite GetAll_contents by apply Hm.
Qed.

(** An operation that was serialized is read back with all its fields but the
    limits of range operations; a transaction decoded from the log acts on every
    store as the original with those limits dropped. *)
Theorem raft_operation_roundtrip (op : RaftOperation) (data : string)
    (Hz : ro_Type op <> pbr_Type proto_zero)
    (Hc : Forall compare_exact (ro_Compares op))
    (Ho : Forall op_exact (ro_ThenOps op ++ ro_ElseOps op))
    (Hs : serializeOperation true op = Ok data) :
  exists op', deserializeOperation data = Ok op' /\
    (ro_Type op', ro_Key op', ro_Value op', ro_LeaseID op', ro_RangeEnd op', ro_SeqNum op', ro_TTL op') =
    (ro_Type op, ro_Key op, ro_Value op, ro_LeaseID op, ro_RangeEnd op, ro_SeqNum op, ro_TTL op) /\
    forall now (e : etcd),
      applyTxnWithShardLocks now e (ro_Compares op') (ro_ThenOps op') (ro_ElseOps op') =
      applyTxnWithShardLocks now e (ro_Compares op) (dropLimit <$> ro_ThenOps op) (dropLimit <$> ro_ElseOps op).
Proof.
  exists (wireOperation op). split; [by apply (operation_wire true)|]. split; [done|]. intros now e.
  apply Forall_app in Ho as [Ho1 Ho2]. unfold wireOperation, raftOperationToProto, protoToRaftOperation.
  cbn [ro_Compares ro_ThenOps ro_ElseOps pbr_Compares pbr_ThenOps pbr_ElseOps].
  rewrite !protoToOps by done. unfold applyTxnWithShardLocks, txnUnlocked.
  replace (forallb (evaluateCompare e) (protoToCompare <$> (compareToProto <$> ro_Compares op)))
    with (forallb (evaluateCompare e) (ro_Compares op)); [done|].
  induction Hc as [|c cs Hc _ IH]; [done|]. cbn [fmap list_fmap forallb]. unfold fmap in IH. rewrite IH. f_equal.
  unfold evaluateCompare. by destruct (compareRecord_wire (Get (kvData e) (cmp_Key c)) c Hc) as [-> ->].
Qed.

(** A put through Raft that was applied reports as "previous" record the one it
    has just written. *)
Theorem raft_put_returns_new_record (m m0 : Memory) (now now' : Z) (key value seq : string) (leaseID : Z)
    (m' : Memory) (Hwf : wf_etcd (m_etcd m)) (Hr : revision (m_etcd m) + 1 <= int64_max)
    (Ha : applyOperation now m (c_op (PutWithLease m0 key value leaseID) seq) = Some m') :
  exists kv, (c_finish (PutWithLease m0 key value leaseID) now' m' seq).2 =
      Ok (RepPut (revision (m_etcd m) + 1) (Some kv)) /\
    Value kv = value /\ Lease kv = leaseID /\ ModRevision kv = revision (m_etcd m) + 1.
Proof.
  unfold applyOperation in Ha. apply signal_etcd in Ha.
  unfold applySwitch in Ha. rewrite decide_True in Ha by done.
  cbn [c_op PutWithLease ro_Key ro_Value ro_LeaseID m_etcd setEtcd] in Ha. unfold putDirect in Ha.
  destruct (storeKv_spec (m_etcd m) key value leaseID Hwf Hr) as (e & He & Hwf' & Hd & Hr' & _).
  rewrite He in Ha. cbn [fst] in Ha. eexists. cbn [c_finish PutWithLease snd]. rewrite Ha. cbn.
  rewrite <- sm_contents_lookup by apply Hwf'. simpl in Hd. rewrite Hd, lookup_insert_eq, Hr'. split; [done|].
  unfold nextKv. by destruct (sm_contents (kvData (m_etcd m)) !! key).
Qed.

End properties.
