(* ===== verification/EtcdReplica.v ===== *)
(** * Replicas agree

    What the operations that apply committed Raft entries do to the records, the
    revision and the leases, without the store ([a_step]), and that a node which
    reads its commit channel follows it ([replica_follows]), whatever the clock, the
    order in which it ranges over maps and the schedule of the goroutines of its
    batches, up to the revisions in the records and the times of grants. *)

From S2P Require Import Prelude GoBytes OrderedTree KvTypes ShardedMap MemoryEtcd EtcdFacts EtcdOps BatchApply BatchTheorems RaftCodec MemoryRaft MemorySystem MemoryTheorems.

(** ** The replicated state *)

Record AState := mkAState {
  a_data : gmap string KeyValue;
  a_rev : Z;
  a_leases : gmap Z LeaseInfo;
}.

(** Detaching a list of keys from the leases their records name. *)
Definition detachKeys (d : gmap string KeyValue) (keys : list string) (ls : gmap Z LeaseInfo) :
    gmap Z LeaseInfo :=
  fold_left (fun ls k => match d !! k with Some p => detachKey (Lease p) k ls | None => ls end) keys ls.

Definition a_put (a : AState) (key value : string) (leaseID : Z) : AState :=
  mkAState (<[key := nextKv (a_data a !! key) key value leaseID (a_rev a + 1)]> (a_data a))
    (a_rev a + 1) (attachKey leaseID key (a_leases a)).

Definition a_remove (a : AState) (keys : list string) (rev : Z) : AState :=
  mkAState (without keys (a_data a)) rev (detachKeys (a_data a) keys (a_leases a)).

Definition a_deleteDirect (a : AState) (key rangeEnd : string) : AState :=
  let rs := rangeRecords (a_data a) key rangeEnd in
  a_remove a (Key <$> rs) (a_rev a + Z.of_nat (length rs)).

Definition a_leaseDirect (now : Z) (a : AState) (op : LeaseOp) (id ttl : Z) : AState :=
  match op with
  | LEASE_GRANT => mkAState (a_data a) (a_rev a) (<[id := mkLease id ttl now ∅]> (a_leases a))
  | LEASE_REVOKE =>
      match a_leases a !! id with
      | None => a
      | Some l =>
          let keys := (map_to_list (l_Keys l)).*1 in
          a_remove (mkAState (a_data a) (a_rev a) (delete id (a_leases a))) keys
            (a_rev a + Z.of_nat (length (existing (a_data a) keys)))
      end
  end.

Definition a_range (a : AState) (key rangeEnd : string) (limit : Z) : RangeResponse :=
  let rs := rangeRecords (a_data a) key rangeEnd in
  let kvs := if limit >? 0 then take (Z.to_nat limit) rs else rs in
  mkRangeResponse kvs false (Z.of_nat (length kvs)) (a_rev a).

Definition a_txnOp (now : Z) (a : AState) (op : Op) : AState * result EtcdError OpResponse :=
  match op_Type op with
  | OpRange => (a, Ok (RespRange (a_range a (op_Key op) (op_RangeEnd op) (op_Limit op))))
  | OpPut =>
      if (op_LeaseID op =? 0) || negb (IsExpired now (a_leases a !! op_LeaseID op))
      then (a_put a (op_Key op) (op_Value op) (op_LeaseID op),
            Ok (RespPut (mkPutResponse (a_data a !! op_Key op) (a_rev a + 1))))
      else (a, Err InvalidLease)
  | OpDelete =>
      let rs := rangeRecords (a_data a) (op_Key op) (op_RangeEnd op) in
      let rev := match rs with [] => a_rev a | _ => a_rev a + 1 end in
      (a_remove a (Key <$> rs) rev, Ok (RespDelete (mkDeleteResponse (Z.of_nat (length rs)) rs rev)))
  | _ => (a, Ok RespEmpty)
  end.

Fixpoint a_txnOps (now : Z) (a : AState) (ops : list Op) : AState * result EtcdError (list OpResponse) :=
  match ops with
  | [] => (a, Ok [])
  | op :: ops' =>
      let '(a1, r) := a_txnOp now a op in
      match r with
      | Err e => (a1, Err e)
      | Ok resp =>
          let '(a2, rs) := a_txnOps now a1 ops' in
          (a2, match rs with Ok resps => Ok (resp :: resps) | Err e => Err e end)
      end
  end.

Definition a_txn (now : Z) (a : AState) (cmps : list Compare) (thenOps elseOps : list Op) :
    AState * result EtcdError TxnResponse :=
  let succeeded := forallb (fun c => compareRecord (a_data a !! cmp_Key c) c) cmps in
  let '(a', rs) := a_txnOps now a (if succeeded then thenOps else elseOps) in
  (a', match rs with
       | Ok resps => Ok (mkTxnResponse succeeded resps (a_rev a'))
       | Err e => Err e
       end).

(** The operations of the Raft path. *)
Inductive RaftOp :=
  | RPut (key value : string) (leaseID : Z)
  | RDelete (key rangeEnd : string)
  | RLease (op : LeaseOp) (id ttl : Z)
  | RTxn (cmps : list Compare) (thenOps elseOps : list Op).

Definition a_apply (now : Z) (a : AState) (o : RaftOp) : AState :=
  match o with
  | RPut key value leaseID => a_put a key value leaseID
  | RDelete key rangeEnd => a_deleteDirect a key rangeEnd
  | RLease op id ttl => a_leaseDirect now a op id ttl
  | RTxn cmps thenOps elseOps => (a_txn now a cmps thenOps elseOps).1
  end.

(** The switch on the type of a committed operation. *)
Definition toRaftOp (op : RaftOperation) : option RaftOp :=
  if decide (ro_Type op = TPut) then Some (RPut (ro_Key op) (ro_Value op) (ro_LeaseID op))
  else if decide (ro_Type op = TDelete) then Some (RDelete (ro_Key op) (ro_RangeEnd op))
  else if decide (ro_Type op = TLeaseGrant) then Some (RLease LEASE_GRANT (ro_LeaseID op) (ro_TTL op))
  else if decide (ro_Type op = TLeaseRevoke) then Some (RLease LEASE_REVOKE (ro_LeaseID op) (ro_TTL op))
  else if decide (ro_Type op = TTxn) then Some (RTxn (ro_Compares op) (ro_ThenOps op) (ro_ElseOps op))
  else None.

Definition a_step (now : Z) (a : AState) (op : RaftOperation) : AState :=
  match toRaftOp op with Some o => a_apply now a o | None => a end.

(** In log order, all at time 0. *)
Definition a_steps (a : AState) (ops : list RaftOperation) : AState := fold_left (a_step 0) ops a.

(** ** Detaching does not depend on the order *)

Lemma detachKey_comm a k b j ls : detachKey a k (detachKey b j ls) = detachKey b j (detachKey a k ls).
Proof.
  unfold detachKey. destruct (a =? 0), (b =? 0); try done.
  destruct (decide (a = b)) as [->|Hne].
  - destruct (ls !! b) as [l|] eqn:E; [|by rewrite E].
    rewrite !lookup_insert_eq, !insert_insert_eq. simpl. do 2 f_equal. apply delete_delete.
  - destruct (ls !! b) as [l|] eqn:Eb, (ls !! a) as [l'|] eqn:Ea;
      rewrite ?lookup_insert_ne, ?Ea, ?Eb by done; try done.
    by apply insert_insert_ne.
Qed.

Lemma detachKeys_perm d keys keys' ls : keys ≡ₚ keys' -> detachKeys d keys ls = detachKeys d keys' ls.
Proof.
  intros Hp. revert ls. induction Hp as [|k l1 l2 _ IH|k j l|l1 l2 l3 _ IH1 _ IH2]; intros ls.
  - done.
  - apply IH.
  - unfold detachKeys. simpl. destruct (d !! k), (d !! j); try done. by rewrite detachKey_comm.
  - by rewrite IH1.
Qed.

Lemma detachKeys_delete d k keys ls : k ∉ keys -> detachKeys (delete k d) keys ls = detachKeys d keys ls.
Proof.
  revert ls. induction keys as [|j keys IH]; intros ls Hk; [done|]. unfold detachKeys in *. simpl.
  rewrite not_elem_of_cons in Hk. destruct Hk as [Hj Hk].
  rewrite lookup_delete_ne by done. by apply IH.
Qed.

(** ** A store follows the replicated state *)

Section follow.
Context {M : Type} `{!KvMap M, !KvMapLaws M} `{!MapOrder}.

Implicit Types (m : MemoryEtcd M).

Definition abs m : AState := mkAState (contents (kvData m)) (revision m) (leases m).

Lemma deleteLoop_leases keys rev : forall m,
  wf_etcd m -> NoDup keys ->
  leases (deleteLoop m keys rev).1 = detachKeys (contents (kvData m)) keys (leases m).
Proof.
  induction keys as [|k keys IH]; intros m Hwf Hnd; simpl; [done|].
  apply NoDup_cons in Hnd as [Hnin Hnd].
  rewrite (Get_contents _ _ (wd_map _ _ (we_data _ Hwf))).
  destruct (removeKey_spec m k (contents (kvData m) !! k) Hwf) as (Hwf' & Hd & _).
  specialize (IH _ Hwf' Hnd). destruct (deleteLoop _ keys rev) as [m' evs]. simpl in *.
  rewrite IH, Hd, detachKeys_delete by done. done.
Qed.

Lemma deleteDirect_leases kvs : forall m,
  (forall kv, kv ∈ kvs -> contents (kvData m) !! Key kv = Some kv) ->
  leases (fold_left (fun m kv => deleteOneDirect m (Key kv) kv) kvs m) =
    detachKeys (contents (kvData m)) (Key <$> kvs) (leases m).
Proof.
  intros m. generalize (contents (kvData m)). intros d. revert m.
  induction kvs as [|kv kvs IH]; intros m Hd; [done|]. unfold detachKeys in *.
  cbn [fmap list_fmap fold_left].
  rewrite (Hd kv) by (by left). rewrite IH by (intros; apply Hd; by right). done.
Qed.

Lemma abs_deleteDirect m key rangeEnd :
  wf_etcd m -> revision m + Z.of_nat (length (rangeRecords (contents (kvData m)) key rangeEnd)) <= int64_max ->
  abs (deleteDirect m key rangeEnd).1 = a_deleteDirect (abs m) key rangeEnd.
Proof.
  intros Hwf Hr. pose proof (wd_keyed _ _ (we_data _ Hwf)) as Hk.
  destruct (deleteDirect_spec m key rangeEnd Hwf Hr) as (m' & Hm' & _ & Hd & Hrev & _).
  assert (Hls : leases m' = detachKeys (contents (kvData m))
    (Key <$> rangeRecords (contents (kvData m)) key rangeEnd) (leases m)).
  { assert (Hin : forall kv, kv ∈ rangeRecords (contents (kvData m)) key rangeEnd ->
      contents (kvData m) !! Key kv = Some kv).
    { intros kv Hkv. by apply elem_of_rangeRecords in Hkv as [? _]. }
    unfold deleteDirect in Hm'. unfold rangeRecords in *. destruct (String.eqb rangeEnd "").
    - rewrite Get_contents in Hm' by apply Hwf.
      destruct (contents (kvData m) !! key) as [kv|] eqn:E; simplify_eq/=; [|done].
      pose proof (Hk _ _ E) as Hkey. simpl in Hkey. unfold detachKeys. simpl. by rewrite Hkey, E.
    - rewrite Range_contents in Hm' by apply Hwf. rewrite applyLimit_0 in Hm'.
      rewrite <- (deleteDirect_leases _ m Hin).
      by destruct (entriesIn (contents (kvData m)) key rangeEnd); simplify_eq. }
  rewrite Hm'. unfold abs, a_deleteDirect, a_remove. cbn [fst a_data a_rev a_leases].
  by rewrite Hd, Hrev, Hls, without_range.
Qed.

Lemma abs_deleteUnlocked m key rangeEnd :
  wf_etcd m -> revision m + 1 <= int64_max ->
  let rs := rangeRecords (contents (kvData m)) key rangeEnd in
  let rev := match rs with [] => revision m | _ => revision m + 1 end in
  exists m', deleteUnlocked m key rangeEnd = (m', (Z.of_nat (length rs), rs, rev)) /\
    abs m' = a_remove (abs m) (Key <$> rs) rev.
Proof.
  intros Hwf Hr rs rev. pose proof (wd_keyed _ _ (we_data _ Hwf)) as Hk.
  destruct (deleteUnlockedEvents_spec m key rangeEnd Hwf Hr) as (m' & evs & Hm' & _ & Hd & Hrev & _ & Hid).
  fold rs in Hm', Hrev, Hid. fold rev in Hrev.
  exists m'. unfold deleteUnlocked. rewrite Hm'. simpl. rewrite Hrev. split; [done|].
  assert (Hls : leases m' = detachKeys (contents (kvData m)) (Key <$> rs) (leases m)).
  { unfold deleteUnlockedEvents in Hm'. rewrite keysToDelete_eq in Hm' by done. fold rs in Hm'.
    destruct (Key <$> rs) as [|k keys] eqn:Ek; [by simplify_eq|].
    pose proof (rangeRecords_nodup _ key rangeEnd Hk) as Hnd. fold rs in Hnd. rewrite Ek in Hnd.
    rewrite (nextRevision_eq m 1) in Hm' by (done || lia).
    pose proof (deleteLoop_leases (k :: keys) (revision m + 1) _
      (wf_setRevision m (revision m + 1) Hwf ltac:(lia)) Hnd) as Hl.
    destruct (deleteLoop _ (k :: keys) _) as [m1 evs1]. by simplify_eq/=. }
  pose proof (without_range _ key rangeEnd Hk) as Hout. fold rs in Hout.
  unfold abs, a_remove. cbn [a_data a_rev a_leases]. by rewrite Hd, Hrev, Hls, <- Hout.
Qed.

Lemma abs_range m key rangeEnd limit :
  wf_etcd m -> rangeUnlocked m key rangeEnd limit = a_range (abs m) key rangeEnd limit.
Proof.
  intros Hwf. unfold rangeUnlocked, a_range. rewrite selectRange_records by done. simpl.
  unfold rangeRecords, applyLimit. destruct (String.eqb rangeEnd "").
  - destruct (Z.gtb_spec limit 0); simpl; [|done]. rewrite take_ge by (destruct (_ !! key); simpl; lia).
    destruct (Z.gtb_spec (Z.of_nat (length (option_list (contents (kvData m) !! key)))) limit); [|done].
    destruct (contents (kvData m) !! key); simpl in *; lia.
  - destruct (Z.gtb_spec limit 0); simpl; [|done].
    destruct (Z.gtb_spec (Z.of_nat (length (entriesIn (contents (kvData m)) key rangeEnd))) limit).
    + destruct (Z.gtb_spec (Z.of_nat (length (take (Z.to_nat limit) (entriesIn (contents (kvData m)) key rangeEnd)))) limit) as [Hgt|_]; [|done].
      rewrite length_take in Hgt. lia.
    + rewrite take_ge by lia. by destruct (Z.gtb_spec (Z.of_nat (length (entriesIn (contents (kvData m)) key rangeEnd))) limit); [lia|].
Qed.

Lemma abs_store m key value lid :
  wf_etcd m -> revision m + 1 <= int64_max -> abs (storeKv m key value lid).1.1.1 = a_put (abs m) key value lid.
Proof.
  intros Hwf Hr. destruct (storeKv_spec m key value lid Hwf Hr) as (m' & -> & _ & Hd & Hrev & Hls & _).
  unfold abs, a_put. simpl. by rewrite Hd, Hrev, Hls.
Qed.

Lemma abs_txnOp now m op :
  wf_etcd m -> revision m + 1 <= int64_max ->
  (abs (txnOp now m op).1, (txnOp now m op).2) = a_txnOp now (abs m) op.
Proof.
  intros Hwf Hr. unfold txnOp, a_txnOp. destruct (op_Type op); try done.
  - simpl. by rewrite abs_range.
  - unfold putUnlocked. cbn zeta. pose proof (abs_store m (op_Key op) (op_Value op) (op_LeaseID op) Hwf Hr) as Ha.
    destruct (storeKv_spec m (op_Key op) (op_Value op) (op_LeaseID op) Hwf Hr) as (m' & Hst & _).
    rewrite Hst in *. cbn [fst snd] in Ha. cbn [a_data a_rev a_leases abs].
    destruct (op_LeaseID op =? 0); cbn [orb fst snd]; [by rewrite Ha|].
    destruct (leases m !! op_LeaseID op) as [l|]; [|done].
    destruct (IsExpired now (Some l)); cbn [negb fst snd]; [done|by rewrite Ha].
  - destruct (abs_deleteUnlocked m (op_Key op) (op_RangeEnd op) Hwf Hr) as (m' & -> & Ha).
    cbn [fst snd]. by rewrite Ha.
Qed.

Lemma abs_txnOps now ops : forall m,
  wf_etcd m -> revision m + Z.of_nat (length ops) <= int64_max ->
  (abs (txnOps now m ops).1, (txnOps now m ops).2) = a_txnOps now (abs m) ops.
Proof.
  induction ops as [|op ops IH]; intros m Hwf Hr; [done|]. cbn [txnOps a_txnOps length] in *.
  rewrite <- abs_txnOp by (done || lia).
  destruct (txnOp_spec now m op Hwf ltac:(lia)) as (Hwf1 & Hr1 & _).
  destruct (txnOp now m op) as [m1 [resp|e]]; cbn [fst snd] in *; [|done].
  rewrite <- IH by (done || lia). by destruct (txnOps now m1 ops) as [m2 [rs|e]].
Qed.

Lemma abs_txn now m cmps thenOps elseOps :
  wf_etcd m -> revision m + Z.of_nat (length thenOps + length elseOps) <= int64_max ->
  (abs (MemoryEtcd.Txn now m cmps thenOps elseOps).1, (MemoryEtcd.Txn now m cmps thenOps elseOps).2) =
    a_txn now (abs m) cmps thenOps elseOps.
Proof.
  intros Hwf Hr. unfold MemoryEtcd.Txn, txnUnlocked, a_txn.
  replace (forallb (evaluateCompare m) cmps) with
    (forallb (fun c => compareRecord (a_data (abs m) !! cmp_Key c) c) cmps).
  2:{ induction cmps as [|c cmps IH]; cbn [forallb]; [done|]. rewrite IH. unfold evaluateCompare at 2.
      by rewrite Get_contents by apply Hwf. }
  set (succ := forallb _ cmps).
  rewrite <- abs_txnOps by (done || (destruct succ; lia)).
  by destruct (txnOps now m _) as [m' [rs|e]].
Qed.

Lemma existing_perm d keys keys' : keys ≡ₚ keys' -> length (existing d keys) = length (existing d keys').
Proof. intros Hp. by rewrite (filter_permutation (isKey d) _ _ Hp). Qed.

End follow.

(** ** States that differ in revisions of records and times of grants *)

Definition coreLease (l : LeaseInfo) : Z * Z * gmap string bool := (l_ID l, l_TTL l, l_Keys l).

Abbreviation sameLeases ls ls' := (coreLease <$> ls = coreLease <$> ls') (only parsing).

(** Records are compared by value, lease and version. *)
Record similar (a b : AState) : Prop := {
  si_rev : a_rev a = a_rev b;
  si_data : erase <$> a_data a = erase <$> a_data b;
  si_leases : coreLease <$> a_leases a = coreLease <$> a_leases b;
}.

#[global] Instance similar_equiv : Equivalence similar.
Proof.
  split; [by intros a|intros a b [? ? ?]; by split|].
  intros a b c [? ? ?] [? ? ?]. split; congruence.
Qed.

Lemma similar_lookup a b k : similar a b -> erase <$> a_data a !! k = erase <$> a_data b !! k.
Proof. intros Hs. by rewrite <- !lookup_fmap, (si_data _ _ Hs). Qed.

Lemma similar_some a b k : similar a b -> is_Some (a_data a !! k) <-> is_Some (a_data b !! k).
Proof.
  intros Hs%(similar_lookup _ _ k). by destruct (a_data a !! k), (a_data b !! k); try done; split; intros []; eexists.
Qed.

Lemma core_lookup (ls ls' : gmap Z LeaseInfo) id : sameLeases ls ls' -> coreLease <$> ls !! id = coreLease <$> ls' !! id.
Proof. intros Hs. by rewrite <- !lookup_fmap, Hs. Qed.

Lemma attach_core lid key ls ls' : sameLeases ls ls' -> sameLeases (attachKey lid key ls) (attachKey lid key ls').
Proof.
  intros Hs. unfold attachKey. destruct (lid =? 0); [done|]. pose proof (core_lookup _ _ lid Hs) as Hl.
  destruct (ls !! lid) as [l|], (ls' !! lid) as [l'|]; try done. injection Hl as H1 H2 H3. rewrite !fmap_insert, Hs.
  unfold coreLease at 1 3. cbn. by rewrite H1, H2, H3.
Qed.

Lemma detach_core lid key ls ls' : sameLeases ls ls' -> sameLeases (detachKey lid key ls) (detachKey lid key ls').
Proof.
  intros Hs. unfold detachKey. destruct (lid =? 0); [done|]. pose proof (core_lookup _ _ lid Hs) as Hl.
  destruct (ls !! lid) as [l|], (ls' !! lid) as [l'|]; try done. injection Hl as H1 H2 H3. rewrite !fmap_insert, Hs.
  unfold coreLease at 1 3. cbn. by rewrite H1, H2, H3.
Qed.

Lemma detachKeys_core a b keys : similar a b -> forall ls ls', sameLeases ls ls' ->
  sameLeases (detachKeys (a_data a) keys ls) (detachKeys (a_data b) keys ls').
Proof.
  intros Hs. induction keys as [|k keys IH]; intros ls ls' Hl; [done|]. unfold detachKeys in *. cbn [fold_left].
  pose proof (similar_lookup a b k Hs) as Hk. destruct (a_data a !! k) as [p|], (a_data b !! k) as [q|]; try done; [|by apply IH].
  injection Hk as _ Hlease _. apply IH. rewrite Hlease. by apply detach_core.
Qed.

Lemma without_similar a b keys : similar a b -> erase <$> without keys (a_data a) = erase <$> without keys (a_data b).
Proof.
  intros Hs. apply map_eq. intros k. rewrite !lookup_fmap, !without_lookup. case_decide; [done|]. by apply similar_lookup.
Qed.

Lemma remove_similar a b keys keys' rev : similar a b -> keys ≡ₚ keys' -> similar (a_remove a keys rev) (a_remove b keys' rev).
Proof.
  intros Hs Hp. unfold a_remove. rewrite (without_perm _ _ _ Hp), (detachKeys_perm _ _ _ _ Hp).
  constructor; cbn; [done|by apply without_similar|apply detachKeys_core; [done|apply (si_leases _ _ Hs)]].
Qed.

Lemma put_similar a b key value lid : similar a b -> similar (a_put a key value lid) (a_put b key value lid).
Proof.
  intros Hs. unfold a_put. rewrite <- (si_rev _ _ Hs). constructor; cbn; [done| |apply attach_core, (si_leases _ _ Hs)].
  rewrite !fmap_insert, (si_data _ _ Hs). f_equal. pose proof (similar_lookup a b key Hs) as Hk.
  destruct (a_data a !! key), (a_data b !! key); try done. injection Hk as H1 H2 H3. unfold nextKv, erase. cbn. by rewrite H3.
Qed.

Lemma range_similar a b key rangeEnd :
  keyed (a_data a) -> keyed (a_data b) -> similar a b ->
  Key <$> rangeRecords (a_data a) key rangeEnd ≡ₚ Key <$> rangeRecords (a_data b) key rangeEnd.
Proof.
  intros Ha Hb Hs. apply NoDup_Permutation; [by apply rangeRecords_nodup|by apply rangeRecords_nodup|].
  intros k. rewrite !rangeRecords_keys by done. by rewrite (similar_some a b k Hs).
Qed.

Lemma range_length a b key rangeEnd :
  keyed (a_data a) -> keyed (a_data b) -> similar a b ->
  length (rangeRecords (a_data a) key rangeEnd) = length (rangeRecords (a_data b) key rangeEnd).
Proof. intros Ha Hb Hs. by rewrite <- (length_fmap Key), (range_similar a b), length_fmap. Qed.

(** ** Operations that do the same on similar states *)

(** A transaction may compare values, versions and leases, but no revisions, and
    puts without a lease: whether a lease has expired is a matter of the clock. *)
Definition replicable (op : RaftOperation) : Prop :=
  ro_Type op = TTxn ->
  Forall (fun c => cmp_Target c <> CompareCreate /\ cmp_Target c <> CompareMod) (ro_Compares op) /\
  Forall (fun o => op_Type o = OpPut -> op_LeaseID o = 0) (ro_ThenOps op) /\
  Forall (fun o => op_Type o = OpPut -> op_LeaseID o = 0) (ro_ElseOps op).

Lemma keyed_put a key value lid : keyed (a_data a) -> keyed (a_data (a_put a key value lid)).
Proof.
  intros Hk. unfold a_put, keyed. cbn. apply map_Forall_insert_2; [|done]. by destruct (a_data a !! key).
Qed.

Lemma keyed_without keys d : keyed d -> keyed (without keys d).
Proof. intros Hk k kv. rewrite without_lookup. case_decide; [done|]. apply Hk. Qed.

Lemma txnOp_similar now now' a b op :
  keyed (a_data a) -> keyed (a_data b) -> similar a b -> (op_Type op = OpPut -> op_LeaseID op = 0) ->
  similar (a_txnOp now a op).1 (a_txnOp now' b op).1 /\ keyed (a_data (a_txnOp now a op).1) /\ keyed (a_data (a_txnOp now' b op).1) /\
  (exists x, (a_txnOp now a op).2 = Ok x) /\ (exists y, (a_txnOp now' b op).2 = Ok y).
Proof.
  intros Ha Hb Hs Hl. unfold a_txnOp. destruct (op_Type op); [by split_and!; try done; eexists| | |by split_and!; try done; eexists..].
  - rewrite (Hl eq_refl). cbn. split_and!; [by apply put_similar|by apply keyed_put|by apply keyed_put|by eexists..].
  - cbn. split_and!; [|by apply keyed_without|by apply keyed_without|by eexists..].
    pose proof (range_similar a b (op_Key op) (op_RangeEnd op) Ha Hb Hs) as Hp.
    pose proof (range_length a b (op_Key op) (op_RangeEnd op) Ha Hb Hs) as Hlen.
    replace (match rangeRecords (a_data b) (op_Key op) (op_RangeEnd op) with [] => a_rev b | _ => a_rev b + 1 end)
      with (match rangeRecords (a_data a) (op_Key op) (op_RangeEnd op) with [] => a_rev a | _ => a_rev a + 1 end); [by apply remove_similar|].
    rewrite (si_rev _ _ Hs). by destruct (rangeRecords (a_data a) _ _), (rangeRecords (a_data b) _ _).
Qed.

Lemma txnOps_similar now now' ops : forall a b,
  keyed (a_data a) -> keyed (a_data b) -> similar a b -> Forall (fun o => op_Type o = OpPut -> op_LeaseID o = 0) ops ->
  similar (a_txnOps now a ops).1 (a_txnOps now' b ops).1 /\ keyed (a_data (a_txnOps now' b ops).1).
Proof.
  induction ops as [|op ops IH]; intros a b Ha Hb Hs Hf; [done|]. apply Forall_cons in Hf as [Hl Hf]. cbn [a_txnOps].
  destruct (txnOp_similar now now' a b op Ha Hb Hs Hl) as (Hs1 & Ha1 & Hb1 & [x Hx] & [y Hy]).
  destruct (a_txnOp now a op) as [a1 ra], (a_txnOp now' b op) as [b1 rb]. cbn [fst snd] in *. subst ra rb.
  specialize (IH a1 b1 Ha1 Hb1 Hs1 Hf). by destruct (a_txnOps now a1 ops), (a_txnOps now' b1 ops).
Qed.

Lemma compare_similar a b c : similar a b -> cmp_Target c <> CompareCreate /\ cmp_Target c <> CompareMod ->
  compareRecord (a_data a !! cmp_Key c) c = compareRecord (a_data b !! cmp_Key c) c.
Proof.
  intros Hs [H1 H2]. pose proof (similar_lookup a b (cmp_Key c) Hs) as Hk. unfold compareRecord.
  destruct (a_data a !! cmp_Key c), (a_data b !! cmp_Key c); try done. injection Hk as Hk1 Hk2 Hk3. destruct (cmp_Target c); congruence.
Qed.

Lemma revoke_similar a b id : keyed (a_data b) -> similar a b ->
  similar (a_leaseDirect 0 a LEASE_REVOKE id 0) (a_leaseDirect 0 b LEASE_REVOKE id 0) /\
  keyed (a_data (a_leaseDirect 0 b LEASE_REVOKE id 0)).
Proof.
  intros Hb Hs. pose proof (core_lookup _ _ id (si_leases _ _ Hs)) as Hl. unfold a_leaseDirect.
  destruct (a_leases a !! id) as [l|], (a_leases b !! id) as [l'|]; try done. injection Hl as _ _ Hkeys. rewrite <- Hkeys.
  split; [|by apply keyed_without].
  replace (existing (a_data b) (map_to_list (l_Keys l)).*1) with (existing (a_data a) (map_to_list (l_Keys l)).*1).
  - rewrite <- (si_rev _ _ Hs). apply remove_similar; [|done]. destruct Hs as [Hr Hd Hls]. constructor; cbn; [done|done|].
    by rewrite !fmap_delete, Hls.
  - unfold existing. apply filter_ext. intros k. unfold isKey. pose proof (similar_some a b k Hs) as Hk.
    destruct (a_data a !! k), (a_data b !! k); try done; [by destruct (proj1 Hk ltac:(by eexists))|by destruct (proj2 Hk ltac:(by eexists))].
Qed.

(** An operation does the same on both, at any two times. *)
Lemma step_similar now now' a b op :
  keyed (a_data a) -> keyed (a_data b) -> similar a b -> replicable op ->
  similar (a_step now a op) (a_step now' b op) /\ keyed (a_data (a_step now' b op)).
Proof.
  intros Ha Hb Hs Hr. unfold a_step, toRaftOp. repeat case_decide; cbn [a_apply]; [..|done].
  - split; [by apply put_similar|by apply keyed_put].
  - split; [|by apply keyed_without]. unfold a_deleteDirect. rewrite (range_length a b) by done. rewrite (si_rev _ _ Hs).
    by apply remove_similar; [|apply range_similar].
  - split; [|done]. destruct Hs as [Hrev Hd Hls]. constructor; cbn; [done|done|]. rewrite !fmap_insert, Hls. done.
  - apply (revoke_similar a b (ro_LeaseID op) Hb Hs).
  - destruct (Hr ltac:(done)) as (Hc & Ht & He). unfold a_txn.
    assert (Heq : forallb (fun c => compareRecord (a_data a !! cmp_Key c) c) (ro_Compares op) =
                  forallb (fun c => compareRecord (a_data b !! cmp_Key c) c) (ro_Compares op)).
    { induction Hc as [|c cs Hc1 _ IH]; [done|]. cbn [forallb]. by rewrite IH, (compare_similar a b c). }
    rewrite Heq. set (succ := forallb _ _).
    destruct (txnOps_similar now now' (if succ then ro_ThenOps op else ro_ElseOps op) a b Ha Hb Hs ltac:(by destruct succ)) as [Hs' Hk'].
    by destruct (a_txnOps now a _), (a_txnOps now' b _).
Qed.

Lemma steps_similar ops : forall a b,
  keyed (a_data a) -> keyed (a_data b) -> similar a b -> Forall replicable ops ->
  similar (a_steps a ops) (a_steps b ops).
Proof.
  induction ops as [|op ops IH]; intros a b Ha Hb Hs Hf; [done|]. apply Forall_cons in Hf as [Hr Hf]. cbn [a_steps fold_left].
  destruct (step_similar 0 0 a b op Ha Hb Hs Hr) as [Hs1 Hb1].
  destruct (step_similar 0 0 a a op Ha Ha (reflexivity a) Hr) as [_ Ha1]. by apply IH.
Qed.

Lemma keyed_steps ops a : keyed (a_data a) -> Forall replicable ops -> keyed (a_data (a_steps a ops)).
Proof.
  intros Hk Hr. revert a Hk. induction Hr as [|op b Hr _ IH]; intros a Hk; [done|]. cbn [a_steps fold_left]. apply IH.
  by apply (step_similar 0 0 a a op Hk Hk (reflexivity a) Hr).
Qed.

(** ** The leases after a batch of goroutines *)

Lemma attachKey_comm a k b j ls : attachKey a k (attachKey b j ls) = attachKey b j (attachKey a k ls).
Proof.
  unfold attachKey. destruct (a =? 0), (b =? 0); try done.
  destruct (decide (a = b)) as [->|Hne].
  - destruct (ls !! b) as [l|] eqn:E; [|by rewrite E].
    rewrite !lookup_insert_eq, !insert_insert_eq. simpl. do 2 f_equal.
    destruct (decide (k = j)) as [->|]; [done|]. by apply insert_insert_ne.
  - destruct (ls !! b) as [l|] eqn:Eb, (ls !! a) as [l'|] eqn:Ea;
      rewrite ?lookup_insert_ne, ?Ea, ?Eb by done; try done.
    by apply insert_insert_ne.
Qed.

Definition attachOps (ops : list RaftOperation) (ls : gmap Z LeaseInfo) : gmap Z LeaseInfo :=
  fold_left (fun ls op => attachKey (ro_LeaseID op) (ro_Key op) ls) ops ls.

Lemma attachOps_perm ops ops' ls : ops ≡ₚ ops' -> attachOps ops ls = attachOps ops' ls.
Proof.
  intros Hp. revert ls. induction Hp as [|x l1 l2 _ IH|x y l|l1 l2 l3 _ IH1 _ IH2]; intros ls; [done|apply IH| |by rewrite IH1].
  unfold attachOps. cbn [fold_left]. by rewrite attachKey_comm.
Qed.

(** The leases once the keys that are gone are detached. *)
Definition detachGone (d d' : gmap string KeyValue) (ls : gmap Z LeaseInfo) : gmap Z LeaseInfo :=
  detachKeys d (elements (dom d ∖ dom d')) ls.

Lemma detachGone_refl d ls : detachGone d d ls = ls.
Proof. unfold detachGone. by rewrite difference_diag_L, elements_empty. Qed.

Lemma detachKeys_weaken d d' keys ls : d' ⊆ d -> (forall k, k ∈ keys -> is_Some (d' !! k)) -> detachKeys d' keys ls = detachKeys d keys ls.
Proof.
  intros Hsub. revert ls. induction keys as [|k keys IH]; intros ls Hk; [done|]. unfold detachKeys in *. cbn [fold_left].
  destruct (Hk k ltac:(by left)) as [kv E]. rewrite E, (lookup_weaken _ _ _ _ E Hsub). apply IH. intros j Hj. apply Hk. by right.
Qed.

Lemma detachGone_trans d0 d1 d2 ls : d1 ⊆ d0 -> d2 ⊆ d1 -> detachGone d1 d2 (detachGone d0 d1 ls) = detachGone d0 d2 ls.
Proof.
  intros H10 H21. unfold detachGone.
  rewrite (detachKeys_weaken d0 d1) by (done || (intros k; rewrite elem_of_elements, elem_of_difference, elem_of_dom; tauto)).
  transitivity (detachKeys d0 (elements (dom d0 ∖ dom d1) ++ elements (dom d1 ∖ dom d2)) ls).
  { unfold detachKeys. by rewrite fold_left_app. }
  apply detachKeys_perm. rewrite <- elements_disj_union by set_solver.
  apply subseteq_dom in H10. apply subseteq_dom in H21. f_equiv. intros k.
  specialize (H10 k). specialize (H21 k). rewrite elem_of_union, !elem_of_difference.
  destruct (decide (k ∈ dom d1)); tauto.
Qed.

Lemma detachGone_delete d d' k kv ls :
  d' ⊆ d -> d' !! k = Some kv -> detachGone d (delete k d') ls = detachKey (Lease kv) k (detachGone d d' ls).
Proof.
  intros Hsub Hk. pose proof (lookup_weaken _ _ _ _ Hk Hsub) as Hd. rewrite <- (detachGone_trans d d') by (done || apply delete_subseteq).
  unfold detachGone at 1. rewrite dom_delete_L.
  replace (dom d' ∖ (dom d' ∖ {[k]})) with ({[k]} : gset string).
  - rewrite elements_singleton. unfold detachKeys. cbn. by rewrite Hk.
  - apply set_eq. intros j. rewrite !elem_of_difference, elem_of_singleton. split; [intros ->|].
    + split; [by apply elem_of_dom_2 in Hk|]. tauto.
    + intros [Hj Hn]. destruct (decide (j = k)); [done|]. tauto.
Qed.

(** The keys of a list without duplicates that are there. *)
Lemma detachGone_without d keys ls : NoDup keys -> detachKeys d keys ls = detachGone d (without keys d) ls.
Proof.
  intros Hnd. unfold detachGone. transitivity (detachKeys d (List.filter (isKey d) keys) ls).
  - clear Hnd. revert ls. induction keys as [|k keys IH]; intros ls; [done|]. unfold detachKeys in *. cbn [fold_left List.filter].
    unfold isKey at 1. destruct (d !! k) as [kv|] eqn:E; [|apply IH]. cbn [fold_left]. rewrite E. apply IH.
  - apply detachKeys_perm, NoDup_Permutation; [by apply NoDup_ListNoDup, List.NoDup_filter, NoDup_ListNoDup|apply NoDup_elements|].
    intros k. rewrite list_elem_of_In, filter_In, <- list_elem_of_In, elem_of_elements, elem_of_difference, !elem_of_dom, without_lookup.
    unfold isKey. case_decide as Hk; destruct (d !! k); split; naive_solver.
Qed.

Section goroutines.
Context `{!MapOrder}.
Implicit Types (m : MemoryEtcd ShardedMap) (g : Goroutine) (gs : list Goroutine).

Lemma insert_split gs j g g' : gs !! j = Some g -> gs = take j gs ++ g :: drop (S j) gs /\ <[j := g']> gs = take j gs ++ g' :: drop (S j) gs.
Proof.
  intros Hj. split; [by rewrite take_drop_middle|]. by apply insert_take_drop, (lookup_lt_Some _ _ _ Hj).
Qed.

Lemma concat_move {A} (f : Goroutine -> list A) gs j g g' x :
  gs !! j = Some g -> f g = x ++ f g' -> concat (f <$> gs) ≡ₚ x ++ concat (f <$> <[j := g']> gs).
Proof.
  intros Hj Hf. destruct (insert_split gs j g g' Hj) as [E1 ->]. rewrite E1 at 1. rewrite !fmap_app, !concat_app, !fmap_cons. cbn [concat].
  rewrite Hf. by rewrite !app_assoc, (Permutation_app_comm _ x).
Qed.

(** *** Puts attach, in any order *)

Definition unattached g : list RaftOperation :=
  match g_stage g with HaveRevision op _ | Written op _ => [op] | _ => [] end ++ g_todo g.

Definition putting g : Prop :=
  Forall (fun op => ro_Type op <> TDelete) (g_todo g) /\ match g_stage g with Removing _ _ | Removed _ _ => False | _ => True end.

Lemma put_gstep m gs m' gs' : gstep (m, gs) (m', gs') -> Forall putting gs ->
  Forall putting gs' /\ attachOps (concat (unattached <$> gs')) (leases m') = attachOps (concat (unattached <$> gs)) (leases m).
Proof.
  intros Hs Hp. inversion Hs as [? ? j g m1 g' Hj Hadv]; subst. pose proof (Forall_lookup_1 _ _ _ _ Hp Hj) as [Ht Hst].
  assert (Hgoal : putting g' /\ exists x, unattached g = x ++ unattached g' /\ leases m' = attachOps x (leases m)).
  { unfold BatchApply.advance in Hadv. destruct g as [sh todo st w]. unfold unattached, putting. cbn [g_stage g_todo] in *.
    destruct st as [|op r|op kv|op kv|op kv|op kv t]; try done.
    - destruct todo as [|op todo]; [done|]. apply Forall_cons in Ht as [Hop Ht]. rewrite decide_False in Hadv by done.
      injection Hadv as <- <-. split; [done|]. by exists [].
    - injection Hadv as <- <-. split; [done|]. by exists [].
    - injection Hadv as <- <-. split; [done|]. by exists [op].
    - injection Hadv as <- <-. split; [done|]. by exists []. }
  destruct Hgoal as (Hp' & x & Hx & Hls). split; [by apply Forall_insert|].
  rewrite (attachOps_perm _ _ (leases m) (concat_move unattached gs j g g' x Hj Hx)), Hls. unfold attachOps. by rewrite fold_left_app.
Qed.

Lemma shardOps_partition l : forall ops, NoDup l -> (forall op, op ∈ ops -> opShard op ∈ l) -> concat (shardOps ops <$> l) ≡ₚ ops.
Proof.
  induction l as [|i l IH]; intros ops Hnd Hin.
  - destruct ops as [|op ops]; [done|]. specialize (Hin op ltac:(by left)). by apply elem_of_nil in Hin.
  - apply NoDup_cons in Hnd as [Hi Hnd]. rewrite fmap_cons. cbn [concat].
    set (rest := List.filter (fun op => negb (opShard op =? i)) ops).
    assert (Hrest : shardOps ops <$> l = shardOps rest <$> l).
    { apply list_fmap_ext. intros k x Hk. unfold shardOps, rest. apply list_elem_of_lookup_2 in Hk.
      induction ops as [|op ops IHo]; [done|]. cbn [List.filter]. assert (IH' := IHo ltac:(intros; apply Hin; by right)).
      destruct (Z.eqb_spec (opShard op) x) as [Hx|Hx], (Z.eqb_spec (opShard op) i) as [Hoi|Hoi]; cbn [negb List.filter]; rewrite ?IH'.
      - congruence.
      - by rewrite (proj2 (Z.eqb_eq _ _) Hx).
      - done.
      - by rewrite (proj2 (Z.eqb_neq _ _) Hx). }
    rewrite Hrest, (IH rest Hnd).
    + unfold shardOps, rest. clear. induction ops as [|op ops IH]; [done|]. cbn [List.filter].
      destruct (opShard op =? i); cbn [negb app]; [by rewrite IH|]. rewrite <- Permutation_middle. by rewrite IH.
    + intros op Hop. unfold rest in Hop. apply list_elem_of_In, filter_In in Hop as [Hop Hne].
      apply list_elem_of_In in Hop. apply negb_true_iff, Z.eqb_neq in Hne. specialize (Hin op Hop). by apply elem_of_cons in Hin as [?|?].
Qed.

Lemma spawn_todo ops : concat (g_todo <$> spawn ops) ≡ₚ ops.
Proof.
  unfold spawn. rewrite <- list_fmap_compose. change (concat (shardOps ops <$> remove_dups (opShard <$> ops)) ≡ₚ ops).
  apply shardOps_partition; [apply NoDup_remove_dups|]. intros op Hop. apply elem_of_remove_dups, list_elem_of_fmap. by exists op.
Qed.

Lemma spawn_Forall (P : Goroutine -> Prop) (Q : RaftOperation -> Prop) ops :
  (forall i l, Forall Q l -> P (mkGoroutine i l Idle [])) -> Forall Q ops -> Forall P (spawn ops).
Proof.
  intros HP HQ. unfold spawn. apply Forall_fmap, Forall_forall. intros i _. apply HP. unfold shardOps. by apply Forall_filter_list.
Qed.

(** The leases after a batch of puts. *)
Lemma put_leases m ops m' : parallelApply m ops m' -> Forall (fun op => ro_Type op <> TDelete) ops ->
  leases m' = attachOps ops (leases m).
Proof.
  intros (gs' & Hrun & Hf) Ht.
  assert (Hp : Forall putting (spawn ops)) by (by apply (spawn_Forall _ (fun op => ro_Type op <> TDelete))).
  assert (Hend : Forall putting gs' /\ attachOps (concat (unattached <$> gs')) (leases m') = attachOps (concat (unattached <$> spawn ops)) (leases m)).
  { clear Hf. remember (m, spawn ops) as x eqn:Ex. remember (m', gs') as y eqn:Ey. revert Ex Ey Hp. generalize (spawn ops) as gs. revert m.
    induction Hrun as [x|x [m1 gs1] z Hs _ IH]; intros m gs -> Ey Hp; [by simplify_eq|].
    destruct (put_gstep m gs m1 gs1 Hs Hp) as [Hp1 He]. destruct (IH m1 gs1 eq_refl Ey Hp1) as [? He']. split; [done|congruence]. }
  destruct Hend as [_ He]. assert (H0 : concat (unattached <$> gs') = []).
  { clear -Hf. induction Hf as [|g gs [Hg1 Hg2] _ IH]; [done|]. rewrite fmap_cons. cbn [concat]. unfold unattached at 1. by rewrite Hg1, Hg2, IH. }
  rewrite H0 in He. cbn [attachOps fold_left] in He. rewrite He. apply attachOps_perm.
  etransitivity; [|apply spawn_todo]. unfold spawn. rewrite <- !list_fmap_compose. done.
Qed.

(** *** Deletions detach what is gone *)

Definition undetached g : list (Z * string) := match g_stage g with Removed op kv => [(Lease kv, ro_Key op)] | _ => [] end.

Definition detachAll (l : list (Z * string)) (ls : gmap Z LeaseInfo) : gmap Z LeaseInfo :=
  fold_left (fun ls p => detachKey p.1 p.2 ls) l ls.

Lemma detachAll_perm l l' ls : l ≡ₚ l' -> detachAll l ls = detachAll l' ls.
Proof.
  intros Hp. revert ls. induction Hp as [|x l1 l2 _ IH|x y l|l1 l2 l3 _ IH1 _ IH2]; intros ls; [done|apply IH| |by rewrite IH1].
  unfold detachAll. cbn [fold_left]. by rewrite detachKey_comm.
Qed.

Lemma detachAll_comm l a k : forall ls, detachAll l (detachKey a k ls) = detachKey a k (detachAll l ls).
Proof. induction l as [|p l IH]; intros ls; [done|]. unfold detachAll in *. cbn [fold_left]. by rewrite detachKey_comm, IH. Qed.

Definition deleting (d0 : gmap string KeyValue) g : Prop :=
  Forall (fun op => ro_Type op = TDelete) (g_todo g) /\
  match g_stage g with
  | Removing op kv | Removed op kv => d0 !! ro_Key op = Some kv
  | HaveRevision _ _ | Written _ _ => False
  | _ => True
  end.

Lemma delete_gstep m0 ops m gs m' gs' :
  Inv m0 ops m gs -> contents (kvData m) ⊆ contents (kvData m0) -> gstep (m, gs) (m', gs') -> Forall (deleting (contents (kvData m0))) gs ->
  let d0 := contents (kvData m0) in
  Forall (deleting d0) gs' /\ contents (kvData m') ⊆ d0 /\ forall ls0,
  (detachAll (concat (undetached <$> gs)) (leases m) = detachGone d0 (contents (kvData m)) ls0 ->
   detachAll (concat (undetached <$> gs')) (leases m') = detachGone d0 (contents (kvData m')) ls0).
Proof.
  intros HI Hsub Hs Hp d0. inversion Hs as [? ? j g m1 g' Hj Hadv]; subst. pose proof (Forall_lookup_1 _ _ _ _ Hp Hj) as [Ht Hst].
  pose proof (inv_stage _ _ _ _ HI g ltac:(by eapply list_elem_of_lookup_2)) as Hok. pose proof (inv_map _ _ _ _ HI) as Hm.
  assert (Hsame : forall st w, g' = mkGoroutine (g_shard g) (g_todo g') st w -> kvData m' = kvData m -> leases m' = leases m ->
    undetached g = undetached g' -> deleting d0 g' -> 
    Forall (deleting d0) (<[j:=g']> gs) /\ contents (kvData m') ⊆ d0 /\ forall ls0,
    (detachAll (concat (undetached <$> gs)) (leases m) = detachGone d0 (contents (kvData m)) ls0 ->
     detachAll (concat (undetached <$> <[j:=g']> gs)) (leases m') = detachGone d0 (contents (kvData m')) ls0)).
  { intros st w _ Hd Hl Hu Hg'. rewrite Hd, Hl. split; [by apply Forall_insert|]. split; [done|]. intros ls0 <-.
    symmetry. apply detachAll_perm, (concat_move undetached gs j g g' []); done. }
  unfold BatchApply.advance in Hadv. unfold stage_ok in Hok. destruct g as [sh todo st w]. cbn [g_stage g_todo g_shard] in *.
  destruct st as [|op r|op kv|op kv|op kv|op kv t]; try done.
  - destruct todo as [|op todo]; [done|]. apply Forall_cons in Ht as [Hop Ht]. rewrite decide_True in Hadv by done.
    unfold deleteBegin in Hadv. rewrite Get_contents in Hadv by done. destruct (contents (kvData m) !! ro_Key op) as [kv|] eqn:E; injection Hadv as <- <-.
    + eapply Hsame; try done. split; [done|]. cbn. by eapply lookup_weaken.
    + by eapply Hsame.
  - injection Hadv as <- <-. destruct Hok as [_ [kv' Hkv]]. pose proof (lookup_weaken _ _ _ _ Hkv Hsub) as Hkv'.
    assert (kv' = kv) as -> by congruence. cbn [setData kvData leases].
    rewrite contents_sm_Delete by done. split; [by apply Forall_insert|]. split; [etransitivity; [apply delete_subseteq|done]|]. intros ls0 He.
    transitivity (detachKey (Lease kv) (ro_Key op) (detachGone d0 (contents (kvData m)) ls0)); [rewrite <- He|symmetry; by apply detachGone_delete].
    set (g1 := mkGoroutine sh todo (Removing op kv) w) in *. set (g2 := mkGoroutine sh todo (Removed op kv) (w ++ [op])).
    assert (Hg1 : (<[j:=g2]> gs) !! j = Some g2) by (apply list_lookup_insert_eq; by eapply lookup_lt_Some).
    pose proof (concat_move undetached _ j g2 g1 [(Lease kv, ro_Key op)] Hg1 eq_refl) as Hperm. rewrite list_insert_insert_eq in Hperm.
    rewrite (list_insert_id _ _ _ Hj) in Hperm. rewrite (detachAll_perm _ _ _ Hperm). unfold detachAll at 1. cbn [app fold_left].
    apply detachAll_comm.
  - injection Hadv as <- <-. cbn [setLeases kvData leases]. split; [by apply Forall_insert|]. split; [done|]. intros ls0 <-.
    set (g1 := mkGoroutine sh todo (Removed op kv) w) in *.
    pose proof (concat_move undetached gs j g1 (mkGoroutine sh todo (Notifying op kv EventTypeDelete) w) [(Lease kv, ro_Key op)] Hj eq_refl) as Hperm.
    rewrite (detachAll_perm _ _ _ Hperm). done.
  - injection Hadv as <- <-. by eapply Hsame.
Qed.

End goroutines.

Section follow_batches.
Context `{!MapOrder}.
Implicit Types (e : MemoryEtcd ShardedMap).

(** The leases after a batch of deletions of single keys. *)
Lemma delete_leases e ops e' :
  wf_map (kvData e) -> revision e + Z.of_nat (length ops) <= int64_max -> int64_min <= revision e ->
  parallelApply e ops e' -> Forall (fun op => ro_Type op = TDelete) ops ->
  leases e' = detachGone (contents (kvData e)) (contents (kvData e')) (leases e).
Proof.
  intros Hm Hmax Hmin (gs' & Hrun & Hf) Ht.
  assert (Hp : Forall (deleting (contents (kvData e))) (spawn ops)) by (by apply (spawn_Forall _ (fun op => ro_Type op = TDelete))).
  assert (Hnil : concat (undetached <$> spawn ops) = []).
  { unfold spawn. rewrite <- list_fmap_compose. clear. induction (remove_dups _) as [|i l IH]; [done|]. by rewrite fmap_cons. }
  pose proof (Inv_run e ops e (spawn ops) Hm Hmax Hmin (rtc_refl _ _)) as HI.
  assert (Hend : detachAll (concat (undetached <$> gs')) (leases e') = detachGone (contents (kvData e)) (contents (kvData e')) (leases e)).
  { assert (H0 : detachAll (concat (undetached <$> spawn ops)) (leases e) = detachGone (contents (kvData e)) (contents (kvData e)) (leases e))
      by (by rewrite Hnil, detachGone_refl).
    assert (Hsub : contents (kvData e) ⊆ contents (kvData e)) by done.
    clear Hf Hnil. remember (e', gs') as y eqn:Ey. remember (e, spawn ops) as x eqn:Ex.
    assert (Hgen : exists e1 gs1, x = (e1, gs1) /\ Inv e ops e1 gs1 /\ contents (kvData e1) ⊆ contents (kvData e) /\
      Forall (deleting (contents (kvData e))) gs1 /\
      detachAll (concat (undetached <$> gs1)) (leases e1) = detachGone (contents (kvData e)) (contents (kvData e1)) (leases e)).
    { by exists e, (spawn ops). }
    clear Ex HI Hsub Hp H0. revert Ey. induction Hrun as [x|x [e2 gs2] z Hs _ IH]; intros Ey; destruct Hgen as (e1 & gs1 & Ex & HI & Hsub & Hp & He); subst x; [by simplify_eq|].
    apply IH; [|done]. destruct (delete_gstep e ops e1 gs1 e2 gs2 HI Hsub Hs Hp) as (Hp2 & Hsub2 & He2).
    exists e2, gs2. split; [done|]. split; [by eapply Inv_gstep|]. split; [done|]. split; [done|]. by apply He2. }
  rewrite <- Hend. assert (H0 : concat (undetached <$> gs') = []); [|by rewrite H0].
  clear -Hf. induction Hf as [|g gs [Hg1 Hg2] _ IH]; [done|]. rewrite fmap_cons. cbn [concat]. unfold undetached at 1. by rewrite Hg2, IH.
Qed.

Lemma abs_keyed e : wf_etcd e -> keyed (a_data (abs e)).
Proof. intros Hwf. apply (we_data _ Hwf). Qed.

(** *** One operation after the other *)

(** How far an operation can move the revision and the number of records. *)
Definition weight (op : RaftOperation) : Z := 2 + 2 * Z.of_nat (length (ro_ThenOps op) + length (ro_ElseOps op)).

Definition weights (ops : list RaftOperation) : Z := foldr (fun op z => weight op + z) 0 ops.

Lemma weights_app l l' : weights (l ++ l') = weights l + weights l'.
Proof. unfold weights. rewrite foldr_app. induction l as [|op l IH]; cbn [foldr]; lia. Qed.

Lemma weights_length l : 0 <= 2 * Z.of_nat (length l) <= weights l.
Proof. unfold weights. induction l as [|op l IH]; cbn [foldr length]; unfold weight in *; lia. Qed.

Definition a_measure (a : AState) : Z := a_rev a + Z.of_nat (size (a_data a)).

Lemma size_without_le keys (d : gmap string KeyValue) : (size (without keys d) <= size d)%nat.
Proof.
  rewrite <- !size_dom. apply subseteq_size. intros k. rewrite !elem_of_dom, without_lookup. by case_decide; [intros []|].
Qed.

Lemma a_txnOp_measure now a op : a_measure (a_txnOp now a op).1 <= a_measure a + 2.
Proof.
  unfold a_txnOp, a_measure. destruct (op_Type op); cbn; [lia| | |lia..].
  - destruct (_ || _); cbn; [|lia].
    pose proof (size_insert_le (a_data a) (op_Key op) (nextKv (a_data a !! op_Key op) (op_Key op) (op_Value op) (op_LeaseID op) (a_rev a + 1))). lia.
  - pose proof (size_without_le (Key <$> rangeRecords (a_data a) (op_Key op) (op_RangeEnd op)) (a_data a)). destruct (rangeRecords _ _ _); lia.
Qed.

Lemma a_txnOps_measure now ops : forall a, a_measure (a_txnOps now a ops).1 <= a_measure a + 2 * Z.of_nat (length ops).
Proof.
  induction ops as [|op ops IH]; intros a; [cbn; lia|]. cbn [a_txnOps length]. pose proof (a_txnOp_measure now a op) as H1.
  destruct (a_txnOp now a op) as [a1 [x|err]]; cbn [fst] in *; [|lia]. specialize (IH a1). destruct (a_txnOps now a1 ops) as [a2 r]. cbn [fst] in *. lia.
Qed.

Lemma a_deleteDirect_key a k : keyed (a_data a) ->
  a_deleteDirect a k "" =
    mkAState (delete k (a_data a)) (a_rev a + (if isKey (a_data a) k then 1 else 0)) (detachKeys (a_data a) [k] (a_leases a)).
Proof.
  intros Hk. unfold a_deleteDirect, a_remove, rangeRecords, isKey. change (String.eqb "" "") with true. cbv iota.
  destruct (a_data a !! k) as [kv|] eqn:E; simpl option_list.
  - change (Key <$> [kv]) with [Key kv]. pose proof (Hk _ _ E) as Hkey. simpl in Hkey. by rewrite Hkey, without_cons, without_nil.
  - change (Key <$> []) with (@nil string). rewrite without_nil, delete_id by done. unfold detachKeys. cbn [fold_left]. by rewrite E.
Qed.

(** Keys without duplicates, deleted one by one. *)
Lemma revoke_keys keys : forall e,
  wf_etcd e -> NoDup keys -> measure e <= int64_max ->
  let e' := fold_left (fun e key => (deleteDirect e key "").1) keys e in
  wf_etcd e' /\ measure e' = measure e /\
  abs e' = a_remove (abs e) keys (revision e + Z.of_nat (length (existing (contents (kvData e)) keys))).
Proof.
  induction keys as [|k keys IH]; intros e Hwf Hnd Hm; cbn [fold_left].
  { split; [done|]. split; [done|]. unfold abs, a_remove. cbn. by rewrite without_nil, Z.add_0_r. }
  apply NoDup_cons in Hnd as [Hk Hnd]. destruct (deleteDirect_data e k "" Hwf Hm) as (Hwf1 & Hm1 & _).
  assert (Hlen : rangeRecords (contents (kvData e)) k "" = option_list (contents (kvData e) !! k)) by done.
  assert (Hone : revision e + Z.of_nat (length (rangeRecords (contents (kvData e)) k "")) <= int64_max).
  { rewrite Hlen. unfold measure in Hm. destruct (contents (kvData e) !! k) as [kv|] eqn:E; cbn; [|lia].
    assert (size (contents (kvData e)) <> 0%nat); [|lia]. apply map_size_non_empty_iff. intros H0. by rewrite H0, lookup_empty in E. }
  pose proof (abs_deleteDirect e k "" Hwf Hone) as Ha. unfold measure in *.
  destruct (IH (deleteDirect e k "").1 Hwf1 Hnd ltac:(lia)) as (Hwf' & Hm' & Ha'). split; [done|]. split; [lia|].
  rewrite Ha'. set (e1 := (deleteDirect e k "").1) in *.
  rewrite a_deleteDirect_key in Ha by (by apply abs_keyed).
  pose proof (f_equal a_data Ha) as Hd1. pose proof (f_equal a_rev Ha) as Hr1. pose proof (f_equal a_leases Ha) as Hl1.
  cbn [abs a_data a_rev a_leases] in Hd1, Hr1, Hl1.
  unfold a_remove, abs. cbn [a_data a_leases]. rewrite Hd1, Hr1, Hl1, without_cons. f_equal.
  - rewrite existing_delete by done. unfold existing. cbn [List.filter]. destruct (isKey (contents (kvData e)) k); cbn [length]; lia.
  - rewrite detachKeys_delete by done. done.
Qed.

Lemma records_size d key rangeEnd : keyed d -> (length (rangeRecords d key rangeEnd) <= size d)%nat.
Proof.
  intros Hk. pose proof (size_without d _ (rangeRecords_nodup d key rangeEnd Hk)) as Hsz.
  assert (Hex : existing d (Key <$> rangeRecords d key rangeEnd) = Key <$> rangeRecords d key rangeEnd).
  { unfold existing. apply List.forallb_filter_id, forallb_forall. intros k Hin. apply list_elem_of_In in Hin.
    apply rangeRecords_keys in Hin; [|done]. unfold isKey. by destruct Hin as [[kv ->] _]. }
  rewrite Hex, length_fmap in Hsz. lia.
Qed.

Lemma applySwitch_step now m op :
  wf_etcd (m_etcd m) -> measure (m_etcd m) + weight op <= int64_max ->
  let m' := applySwitch now m op in
  wf_etcd (m_etcd m') /\ measure (m_etcd m') <= measure (m_etcd m) + weight op /\
  abs (m_etcd m') = a_step now (abs (m_etcd m)) op.
Proof.
  intros Hwf Hm. pose proof (wf_measure _ Hwf) as Hr. assert (Hw : 2 <= weight op) by (unfold weight; lia).
  unfold applySwitch, a_step, toRaftOp. cbn zeta. destruct (decide (ro_Type op = TPut)) as [Ep|Ep].
  { cbn [m_etcd setEtcd a_apply]. unfold putDirect. rewrite <- abs_store by (done || lia).
    destruct (storeKv_spec (m_etcd m) (ro_Key op) (ro_Value op) (ro_LeaseID op) Hwf ltac:(lia)) as (e' & -> & Hwf' & Hd & Hrev & _).
    cbn [fst]. split; [by apply wf_notifyWatchers|]. split; [|done]. unfold measure.
    change (kvData (notifyWatchers e' ?k ?v ?t)) with (kvData e'). change (revision (notifyWatchers e' ?k ?v ?t)) with (revision e').
    rewrite Hd, Hrev. match goal with |- context [<[?k := ?kv]> ?d] => pose proof (size_insert_le d k kv) end. lia. }
  destruct (decide (ro_Type op = TDelete)) as [Ed|Ed].
  { cbn [m_etcd setEtcd a_apply]. destruct (deleteDirect_data (m_etcd m) (ro_Key op) (ro_RangeEnd op) Hwf ltac:(unfold measure in *; lia)) as (Hwf' & Hm' & _).
    split; [done|]. split; [unfold measure in *; lia|]. apply abs_deleteDirect; [done|].
    pose proof (records_size (contents (kvData (m_etcd m))) (ro_Key op) (ro_RangeEnd op) (abs_keyed _ Hwf)). unfold measure in *. lia. }
  destruct (decide (ro_Type op = TLeaseGrant)) as [Eg|Eg].
  { rewrite decide_True by auto. unfold applyLease. rewrite decide_True by done. cbn [m_etcd setEtcd a_apply a_leaseDirect applyLeaseOperationDirect].
    split; [|split; [unfold measure; cbn; lia|done]]. apply wf_setLeases; [done|]. intros id l. rewrite lookup_insert_Some.
    intros [[<- <-]|[_ Hl]]; [done|by apply (we_leases _ Hwf)]. }
  destruct (decide (ro_Type op = TLeaseRevoke)) as [Er|Er].
  { rewrite decide_True by auto. unfold applyLease. rewrite decide_False by done. cbn [m_etcd setEtcd a_apply a_leaseDirect applyLeaseOperationDirect].
    cbn [abs a_leases]. destruct (leases (m_etcd m) !! ro_LeaseID op) as [l|] eqn:E; [|split; [done|split; [lia|done]]].
    set (e0 := setLeases (m_etcd m) (delete (ro_LeaseID op) (leases (m_etcd m)))).
    assert (Hwf0 : wf_etcd e0).
    { apply wf_setLeases; [done|]. intros id' l' [_ Hl]%lookup_delete_Some. by apply (we_leases _ Hwf). }
    assert (Hme : measure e0 = measure (m_etcd m)) by done.
    assert (Hp : (range_map (l_Keys l)).*1 ≡ₚ (map_to_list (l_Keys l)).*1) by apply fmap_Permutation, range_map_perm.
    destruct (revoke_keys (range_map (l_Keys l)).*1 e0 Hwf0 (range_map_nodup (l_Keys l)) ltac:(rewrite Hme; lia)) as (Hwf' & Hm' & Ha').
    split; [done|]. split; [change (measure (fold_left (fun e key => (deleteDirect e key "").1) (range_map (l_Keys l)).*1 e0) <= measure (m_etcd m) + weight op); lia|]. rewrite Ha'. unfold a_remove. cbn.
    by rewrite (without_perm _ _ _ Hp), (detachKeys_perm _ _ _ _ Hp), (existing_perm _ _ _ Hp). }
  rewrite decide_False by (by intros []). destruct (decide (ro_Type op = TTxn)) as [Et|Et]; [|split; [done|split; [lia|done]]].
  assert (Hroom : revision (m_etcd m) + Z.of_nat (length (ro_ThenOps op) + length (ro_ElseOps op)) <= int64_max) by (unfold weight in *; lia).
  pose proof (abs_txn now (m_etcd m) (ro_Compares op) (ro_ThenOps op) (ro_ElseOps op) Hwf Hroom) as Ha.
  pose proof (Txn_wf now (m_etcd m) (ro_Compares op) (ro_ThenOps op) (ro_ElseOps op) Hwf Hroom) as [Hwf' _].
  change (MemoryEtcd.Txn now (m_etcd m)) with (applyTxnWithShardLocks now (m_etcd m)) in *.
  assert (Hst : m_etcd (applyTxn now m op) = (applyTxnWithShardLocks now (m_etcd m) (ro_Compares op) (ro_ThenOps op) (ro_ElseOps op)).1).
  { unfold applyTxn. destruct (applyTxnWithShardLocks _ _ _ _ _) as [e' [r|]]; [|done]. by destruct (String.eqb _ _). }
  rewrite Hst. split; [done|]. cbn [a_apply]. apply (f_equal fst) in Ha. cbn [fst] in Ha. split; [|exact Ha].
  change (a_measure (abs (applyTxnWithShardLocks now (m_etcd m) (ro_Compares op) (ro_ThenOps op) (ro_ElseOps op)).1) <= a_measure (abs (m_etcd m)) + weight op).
  rewrite Ha. unfold a_txn. set (succ := forallb _ _).
  pose proof (a_txnOps_measure now (if succ then ro_ThenOps op else ro_ElseOps op) (abs (m_etcd m))) as Hms.
  destruct (a_txnOps now _ _) as [a' r]. cbn [fst] in *. unfold weight. destruct succ; lia.
Qed.

End follow_batches.

(** *** Batches *)

Section follow_commits.
Context `{!MapOrder}.
Implicit Types (e : MemoryEtcd ShardedMap) (m : Memory).

Lemma abs_similar e e' :
  revision e = revision e' -> (forall k, BatchApply.view e k = BatchApply.view e' k) -> leases e = leases e' -> similar (abs e) (abs e').
Proof.
  intros Hr Hv Hl. constructor; cbn; [done| |by rewrite Hl]. apply map_eq. intros k. rewrite !lookup_fmap. apply (Hv k).
Qed.

Lemma applyEach_steps ops : forall m,
  wf_etcd (m_etcd m) -> measure (m_etcd m) + weights ops <= int64_max -> Forall isData ops ->
  wf_etcd (applyEach (m_etcd m) ops) /\ abs (applyEach (m_etcd m) ops) = a_steps (abs (m_etcd m)) ops.
Proof.
  induction ops as [|op ops IH]; intros m Hwf Hm Hd; [done|]. apply Forall_cons in Hd as [Hd1 Hd].
  pose proof (weights_length ops). cbn [weights foldr] in Hm. fold (weights ops) in Hm.
  destruct (applySwitch_step 0 m op Hwf ltac:(lia)) as (Hwf1 & Hm1 & Ha).
  destruct (IH (applySwitch 0 m op) Hwf1 ltac:(lia) Hd) as [Hwf2 Ha2]. rewrite applySwitch_data in * by done.
  unfold applyEach, a_steps in *. cbn [fold_left]. by rewrite <- Ha.
Qed.

Lemma puts_attach ops : forall a, Forall (fun op => ro_Type op = TPut) ops -> a_leases (a_steps a ops) = attachOps ops (a_leases a).
Proof.
  induction ops as [|op ops IH]; intros a Hf; [done|]. apply Forall_cons in Hf as [Ht Hf].
  unfold a_steps, attachOps in *. cbn [fold_left]. rewrite IH by done. unfold a_step, toRaftOp. by rewrite decide_True.
Qed.

Lemma a_delete_step a op : ro_Type op = TDelete -> a_step 0 a op = a_deleteDirect a (ro_Key op) (ro_RangeEnd op).
Proof. intros Ht. unfold a_step, toRaftOp. rewrite Ht. done. Qed.

Lemma without_sub keys (d : gmap string KeyValue) : without keys d ⊆ d.
Proof. apply map_subseteq_spec. intros k kv. rewrite without_lookup. by case_decide. Qed.

Lemma deletes_gone ops : forall a, keyed (a_data a) -> Forall (fun op => ro_Type op = TDelete) ops ->
  let a' := a_steps a ops in
  a_data a' ⊆ a_data a /\ a_leases a' = detachGone (a_data a) (a_data a') (a_leases a).
Proof.
  induction ops as [|op ops IH]; intros a Hk Hf; [by split; [|by rewrite detachGone_refl]|]. apply Forall_cons in Hf as [Ht Hf].
  unfold a_steps in *. cbn [fold_left]. rewrite a_delete_step by done.
  destruct (IH (a_deleteDirect a (ro_Key op) (ro_RangeEnd op)) ltac:(by apply keyed_without) Hf) as [Hsub Hl].
  pose proof (without_sub (Key <$> rangeRecords (a_data a) (ro_Key op) (ro_RangeEnd op)) (a_data a)) as Hsub1.
  split; [etransitivity; [exact Hsub|exact Hsub1]|]. rewrite Hl. cbn [a_deleteDirect a_remove a_data a_leases].
  rewrite (detachGone_without _ _ _ (rangeRecords_nodup _ _ _ Hk)). by apply detachGone_trans.
Qed.

(** The batch of deletions: single keys in parallel, then the ranges. *)
Lemma deletes_leases e b e' :
  wf_etcd e -> measure e + weights b <= int64_max -> Forall (fun op => ro_Type op = TDelete) b -> batchApplyDelete e b e' ->
  leases e' = detachGone (contents (kvData e)) (contents (kvData e')) (leases e).
Proof.
  intros Hwf Hm Hf (e1 & Hpar & ->). pose proof (wf_measure _ Hwf) as Hr. pose proof (weights_length b) as Hlen.
  pose proof (filter_length_le isSingleKey b) as Hle1. pose proof (filter_length_le (fun op => negb (isSingleKey op)) b) as Hle2.
  pose proof (Forall_filter_list _ isSingleKey _ Hf) as Hf1. pose proof (Forall_filter_list _ (fun op => negb (isSingleKey op)) _ Hf) as Hf2.
  set (singles := List.filter isSingleKey b) in *. set (ranges := List.filter (fun op => negb (isSingleKey op)) b) in *.
  pose proof (parallelApply_wf e singles e1 Hwf ltac:(lia) Hpar) as Hwf1.
  destruct (parallelApply_spec e singles e1 (wd_map _ _ (we_data _ Hwf)) ltac:(lia) ltac:(unfold_ints; lia) Hpar) as (_ & _ & _ & _ & Hdel).
  destruct (Hdel Hf1) as [Hsz Hsub].
  pose proof (delete_leases e singles e1 (wd_map _ _ (we_data _ Hwf)) ltac:(lia) ltac:(unfold_ints; lia) Hpar Hf1) as Hl1.
  assert (Hfold : forall ops e2, wf_etcd e2 -> measure e2 <= int64_max -> Forall (fun op => ro_Type op = TDelete) ops ->
    abs (fold_left (fun e op => (deleteDirect e (ro_Key op) (ro_RangeEnd op)).1) ops e2) = a_steps (abs e2) ops).
  { clear. induction ops as [|op ops IH]; intros e Hwf Hm Hf; [done|]. apply Forall_cons in Hf as [Ht Hf].
    unfold a_steps in *. cbn [fold_left]. rewrite a_delete_step by done.
    destruct (deleteDirect_data e (ro_Key op) (ro_RangeEnd op) Hwf Hm) as (Hwf1 & Hm1 & _).
    rewrite IH; [|done|unfold measure in *; lia|done]. rewrite abs_deleteDirect; [done|done|].
    pose proof (records_size (contents (kvData e)) (ro_Key op) (ro_RangeEnd op) (abs_keyed _ Hwf)). unfold measure in *. lia. }
  set (e2 := fold_left _ ranges e1). pose proof (Hfold ranges e1 Hwf1 ltac:(unfold measure in *; lia) Hf2) as Ha. fold e2 in Ha.
  destruct (deletes_gone ranges (abs e1) (abs_keyed _ Hwf1) Hf2) as [Hsub2 Hl2]. rewrite <- Ha in Hsub2, Hl2. cbn [abs a_data a_leases] in Hsub2, Hl2.
  rewrite Hl2, Hl1. by apply detachGone_trans.
Qed.

Lemma detachGone_dom d d1 d2 ls : dom d1 = dom d2 -> detachGone d d1 ls = detachGone d d2 ls.
Proof. unfold detachGone. by intros ->. Qed.

Lemma view_dom e e' : (forall k, BatchApply.view e k = BatchApply.view e' k) -> dom (contents (kvData e)) = dom (contents (kvData e')).
Proof.
  intros Hv. apply set_eq. intros k. rewrite !elem_of_dom. specialize (Hv k). unfold BatchApply.view in Hv.
  destruct (contents (kvData e) !! k), (contents (kvData e') !! k); try done; split; intros []; by eexists.
Qed.

(** One batch of puts or of deletions. *)
Lemma data_batch m t b m' :
  wf_etcd (m_etcd m) -> measure (m_etcd m) + weights b <= int64_max -> (t = TPut \/ t = TDelete) ->
  Forall (fun op => ro_Type op = t) b -> flushBatch m t b m' ->
  wf_etcd (m_etcd m') /\ measure (m_etcd m') <= measure (m_etcd m) + weights b /\
  similar (abs (m_etcd m')) (a_steps (abs (m_etcd m)) b).
Proof.
  intros Hwf Hm Ht Hb Hf. pose proof (weights_length b) as Hlen. pose proof (wf_measure _ Hwf) as Hr.
  destruct (flush_agrees m t b m' (m_etcd m) Hwf Hwf ltac:(lia) Ht Hb eq_refl (fun _ => eq_refl) Hf) as (Hwf' & _ & Hm' & Hrev & Hv & _).
  assert (Hdata : Forall isData b) by (eapply Forall_impl; [exact Hb|]; intros op <-; exact Ht).
  destruct (applyEach_steps b m Hwf Hm Hdata) as [Hwfe Ha].
  split; [done|]. split; [lia|]. rewrite <- Ha. apply abs_similar; [done|intros k; symmetry; apply Hv|].
  pose proof (f_equal a_leases Ha) as Hla. cbn [abs a_leases] in Hla. rewrite Hla. unfold flushBatch in Hf. destruct Ht as [-> | ->].
  - rewrite decide_True in Hf by done. destruct Hf as (e1 & Hp & ->). rewrite puts_attach by done. cbn [m_etcd setEtcd].
    apply put_leases; [done|]. eapply Forall_impl; [exact Hb|]. by intros op ->.
  - rewrite decide_False in Hf by done. rewrite decide_True in Hf by done. destruct Hf as (e1 & Hp & ->). cbn [m_etcd setEtcd] in *.
    rewrite (deletes_leases _ b e1 Hwf Hm Hb Hp). destruct (deletes_gone b (abs (m_etcd m)) (abs_keyed _ Hwf) Hb) as [_ Hg]. rewrite Hg.
    apply detachGone_dom. rewrite <- Ha. symmetry. by apply view_dom.
Qed.

(** Operations one after the other, each at its own time. *)
Lemma inTurn_follows f b : forall m m',
  (forall now m op, op ∈ b -> f now m op = applySwitch now m op) ->
  wf_etcd (m_etcd m) -> measure (m_etcd m) + weights b <= int64_max -> Forall replicable b -> inTurn f m b m' ->
  wf_etcd (m_etcd m') /\ measure (m_etcd m') <= measure (m_etcd m) + weights b /\
  similar (abs (m_etcd m')) (a_steps (abs (m_etcd m)) b).
Proof.
  induction b as [|op b IH]; intros m m' Hff Hwf Hm Hrep Hin; inversion Hin as [|now ? ? ? ? Hin']; subst.
  { split; [done|]. split; [cbn; lia|reflexivity]. }
  apply Forall_cons in Hrep as [Hr1 Hrep]. rewrite Hff in Hin' by (by left). pose proof (weights_length b).
  cbn [weights foldr] in *. fold (weights b) in *.
  destruct (applySwitch_step now m op Hwf ltac:(lia)) as (Hwf1 & Hm1 & Ha).
  destruct (IH (applySwitch now m op) m' (fun n m1 o Ho => Hff n m1 o ltac:(by right)) Hwf1 ltac:(lia) Hrep Hin') as (Hwf' & Hm' & Hs).
  split; [done|]. split; [lia|]. etransitivity; [exact Hs|]. unfold a_steps. cbn [fold_left].
  destruct (step_similar now 0 _ _ op (abs_keyed _ Hwf) (abs_keyed _ Hwf) (reflexivity _) Hr1) as [Hs1 Hk1].
  apply (steps_similar b); [by apply abs_keyed|done|by rewrite Ha|done].
Qed.

Lemma other_steps b a : Forall (fun op => toRaftOp op = None) b -> a_steps a b = a.
Proof. intros Hb. revert a. induction Hb as [|op b Ho _ IH]; intros a; [done|]. unfold a_steps, a_step in *. cbn [fold_left]. by rewrite Ho. Qed.

Lemma batch_follows m t b m' :
  wf_etcd (m_etcd m) -> measure (m_etcd m) + weights b <= int64_max -> Forall replicable b ->
  Forall (fun op => ro_Type op = t) b -> flushBatch m t b m' ->
  wf_etcd (m_etcd m') /\ measure (m_etcd m') <= measure (m_etcd m) + weights b /\
  similar (abs (m_etcd m')) (a_steps (abs (m_etcd m)) b).
Proof.
  intros Hwf Hm Hrep Hb Hf. destruct (decide (t = TPut)) as [?|Hp]; [by apply (data_batch m t); auto|].
  destruct (decide (t = TDelete)) as [?|Hd]; [by apply (data_batch m t); auto|].
  unfold flushBatch in Hf. rewrite !decide_False in Hf by done. destruct (decide (t = TTxn)) as [->|Ht].
  { apply (inTurn_follows applyTxn); try done. intros now m1 op Hop. rewrite Forall_forall in Hb. unfold applySwitch. by rewrite (Hb op Hop). }
  destruct (decide (t = TLeaseGrant \/ t = TLeaseRevoke)) as [Hl|Hl].
  { apply (inTurn_follows applyLease); try done. intros now m1 op Hop. rewrite Forall_forall in Hb. unfold applySwitch. rewrite (Hb op Hop).
    by repeat (rewrite decide_False by done); rewrite decide_True by done. }
  subst m'. pose proof (weights_length b). split; [done|]. split; [lia|]. rewrite other_steps; [reflexivity|].
  eapply Forall_impl; [exact Hb|]. intros op Hop. unfold toRaftOp. rewrite Hop. by repeat (rewrite decide_False by (done || (intros ->; apply Hl; auto))).
Qed.

Lemma batches_follow bs : forall m m',
  wf_etcd (m_etcd m) -> measure (m_etcd m) + weights (concat bs.*2) <= int64_max -> Forall replicable (concat bs.*2) ->
  Forall uniform bs -> flushAll m bs m' ->
  wf_etcd (m_etcd m') /\ measure (m_etcd m') <= measure (m_etcd m) + weights (concat bs.*2) /\
  similar (abs (m_etcd m')) (a_steps (abs (m_etcd m)) (concat bs.*2)).
Proof.
  induction bs as [|[t b] bs IH]; intros m m' Hwf Hm Hrep Hu Hf; inversion Hf as [|? m1 ? ? ? ? Hf1 Hf2]; subst.
  { split; [done|]. split; [cbn; lia|reflexivity]. }
  rewrite fmap_cons in *. cbn [concat snd] in *. rewrite weights_app in *. apply Forall_app in Hrep as [Hr1 Hr2].
  apply Forall_cons in Hu as [[_ Hb] Hu]. pose proof (weights_length b). pose proof (weights_length (concat bs.*2)).
  destruct (batch_follows m t b m1 Hwf ltac:(lia) Hr1 Hb Hf1) as (Hwf1 & Hm1 & Hs1).
  destruct (IH m1 m' Hwf1 ltac:(lia) Hr2 Hu Hf2) as (Hwf' & Hm' & Hs2). split; [done|]. split; [lia|].
  etransitivity; [exact Hs2|]. unfold a_steps. rewrite fold_left_app. apply (steps_similar (concat bs.*2)); [by apply abs_keyed| |done|done].
  by apply keyed_steps; [apply abs_keyed|].
Qed.

Lemma applyBatch_follows m ops m' :
  wf_etcd (m_etcd m) -> measure (m_etcd m) + weights ops <= int64_max -> Forall replicable ops -> applyBatch m ops (Some m') ->
  wf_etcd (m_etcd m') /\ measure (m_etcd m') <= measure (m_etcd m) + weights ops /\
  similar (abs (m_etcd m')) (a_steps (abs (m_etcd m)) ops).
Proof.
  intros Hwf Hm Hrep Hb. remember (Some m') as o eqn:Ho. destruct Hb as [m|now m op|m ops m1 _ Hf].
  - simplify_eq. split; [done|]. split; [cbn; lia|reflexivity].
  - unfold applyOperation in Ho. apply signal_etcd in Ho. rewrite Ho. cbn [weights foldr] in *. apply Forall_cons in Hrep as [Hr _].
    destruct (applySwitch_step now m op Hwf ltac:(lia)) as (Hwf' & Hm' & Ha). split; [done|]. split; [lia|]. rewrite Ha.
    apply (step_similar now 0); [by apply abs_keyed|by apply abs_keyed|reflexivity|done].
  - apply signalAll_etcd in Ho. rewrite Ho. destruct (batches_spec ops "" []) as [Hc Hu]; [constructor|]. cbn [app] in Hc.
    rewrite <- Hc in Hm, Hrep |- *. by apply batches_follow.
Qed.

End follow_commits.

(** ** Replicas *)

Section commits.
Context `{!MapOrder, !ProtoWire pbRaftOperation, !TextWire RaftOperation, !ProtoWire pbStoreSnapshot, !TextWire SnapshotData}.
Context (gobDecodeKV : string -> option (string * string)).

(** The messages of [commitC], none of which asks for a snapshot or ends the
    process. *)
Inductive readCommits : Memory -> list (list string) -> Memory -> Prop :=
  | readCommits_nil m : readCommits m [] m
  | readCommits_cons m entries m1 commits m' :
      readCommit gobDecodeKV m (Some entries) (Some m1) -> readCommits m1 commits m' -> readCommits m (entries :: commits) m'.

Lemma collect_decoded m entries ops : Forall2 (fun d op => deserializeOperation d = Ok op) entries ops -> forall acc,
  collect gobDecodeKV m entries acc = Some (m, acc ++ ops).
Proof.
  induction 1 as [|d op ds ops Hd _ IH]; intros acc; cbn [collect]; [by rewrite app_nil_r|]. rewrite Hd, IH. by rewrite <- app_assoc.
Qed.

(** A node whose calls are in order reads any such messages. *)
Lemma readCommits_total cls commits : forall m ops, Pending m cls ->
  Forall2 (fun d op => deserializeOperation d = Ok op) (concat commits) ops -> exists m', readCommits m commits m'.
Proof.
  induction commits as [|entries commits IH]; intros m ops HP Hdec; [eexists; constructor|].
  cbn [concat] in Hdec. apply Forall2_app_inv_l in Hdec as (ops1 & ops2 & Hd1 & Hd2 & ->).
  destruct (applyBatch_total m ops1) as [o Ho]. destruct (applyBatch_ok m ops1 o cls HP Ho) as (m1 & -> & HP1 & _).
  destruct (IH m1 ops2 HP1 Hd2) as [m' Hm']. exists m'. econstructor; [|exact Hm'].
  eapply readCommit_ops; [by apply collect_decoded|done].
Qed.

(** However the entries are cut into commits. *)
Lemma replica_follows commits : forall m m' ops,
  wf_etcd (m_etcd m) -> measure (m_etcd m) + weights ops <= int64_max -> Forall replicable ops ->
  Forall2 (fun d op => deserializeOperation d = Ok op) (concat commits) ops -> readCommits m commits m' ->
  similar (abs (m_etcd m')) (a_steps (abs (m_etcd m)) ops).
Proof.
  induction commits as [|entries commits IH]; intros m m' ops Hwf Hm Hrep Hdec Hrun; inversion Hrun as [|? ? m1 ? ? Hc Hrun']; subst.
  { cbn in Hdec. by apply Forall2_nil_inv_l in Hdec as ->. }
  cbn [concat] in Hdec. apply Forall2_app_inv_l in Hdec as (ops1 & ops2 & Hd1 & Hd2 & ->).
  rewrite weights_app in Hm. apply Forall_app in Hrep as [Hr1 Hr2]. pose proof (weights_length ops1). pose proof (weights_length ops2).
  assert (Hb : applyBatch m ops1 (Some m1)).
  { pose proof (collect_decoded m entries ops1 Hd1 []) as Hcol. inversion Hc as [| |? ? m2 ops' o Hcol' Hb]; subst.
    rewrite Hcol in Hcol'. by simplify_eq. }
  destruct (applyBatch_follows m ops1 m1 Hwf ltac:(lia) Hr1 Hb) as (Hwf1 & Hm1 & Hs1).
  etransitivity; [apply (IH m1 m' ops2); try done; lia|]. unfold a_steps. rewrite fold_left_app.
  apply (steps_similar ops2); [by apply abs_keyed| |done|done].
  by apply keyed_steps; [apply abs_keyed|].
Qed.

End commits.

Section replicas.
Context (O1 O2 : MapOrder).
Context `{!ProtoWire pbRaftOperation, !TextWire RaftOperation, !ProtoWire pbStoreSnapshot, !TextWire SnapshotData}.
Context (gobDecodeKV : string -> option (string * string)).

(** What is replicated: the revision, the value, lease and version of each key,
    and the leases with their keys. *)
#[local] Abbreviation state1 m := (@abs ShardedMap (@sharded_KvMap O1) (@sharded_laws O1) (m_etcd m)).
#[local] Abbreviation state2 m := (@abs ShardedMap (@sharded_KvMap O2) (@sharded_laws O2) (m_etcd m)).

(** C8: two replicas that agree on the revision, on the value, lease and version of
    every key and on the leases and their keys, and read the same committed entries
    from their commit channels, still agree afterwards: however the entries are cut
    into commits on each, however the goroutines of a batch are scheduled, whatever
    the clocks and the orders in which maps are ranged over.  The entries decode to
    puts, deletions, grants, revocations, and transactions that compare no
    revisions and put without leases; the revisions inside records and the times
    of grants may differ. *)
Theorem replicas_agree (m1 m2 m1' m2' : Memory) (commits1 commits2 : list (list string)) (ops : list RaftOperation)
    (Hwf1 : @wf_etcd ShardedMap (@sharded_KvMap O1) (@sharded_laws O1) (m_etcd m1))
    (Hwf2 : @wf_etcd ShardedMap (@sharded_KvMap O2) (@sharded_laws O2) (m_etcd m2))
    (Hs : similar (state1 m1) (state2 m2))
    (Hlog : concat commits1 = concat commits2)
    (Hdec : Forall2 (fun d op => deserializeOperation d = Ok op) (concat commits1) ops) (Hrep : Forall replicable ops)
    (Hm : a_measure (state1 m1) + weights ops <= int64_max)
    (Hr1 : @readCommits O1 _ _ _ _ gobDecodeKV m1 commits1 m1') (Hr2 : @readCommits O2 _ _ _ _ gobDecodeKV m2 commits2 m2') :
  similar (state1 m1') (state2 m2').
Proof.
  assert (Hsize : a_measure (state1 m1) = a_measure (state2 m2)).
  { unfold a_measure. rewrite (si_rev _ _ Hs). pose proof (f_equal (@size _ _) (si_data _ _ Hs)) as Hsz. rewrite !map_size_fmap in Hsz. by rewrite Hsz. }
  pose proof (@replica_follows O1 _ _ _ _ gobDecodeKV commits1 m1 m1' ops Hwf1 Hm Hrep Hdec Hr1) as H1. rewrite Hlog in Hdec. rewrite Hsize in Hm.
  pose proof (@replica_follows O2 _ _ _ _ gobDecodeKV commits2 m2 m2' ops Hwf2 Hm Hrep Hdec Hr2) as H2.
  etransitivity; [exact H1|]. etransitivity; [|symmetry; exact H2].
  apply steps_similar; [by apply (@abs_keyed O1)|by apply (@abs_keyed O2)|done|done].
Qed.

End replicas.
