(* ===== verification/RaftExamples.v ===== *)
(** * Concrete runs of the store behind Raft

    The encodings are tables of the messages that occur, which satisfy the laws
    the code relies on; the runs witness the properties of [MemoryTheorems] and
    show what happens when two nodes use the same sequence number. *)

From stdpp Require Import pretty.
From S2P Require Import Prelude GoBytes OrderedTree KvTypes ShardedMap MemoryEtcd EtcdFacts EtcdOps EtcdTheorems BatchApply BatchTheorems RaftCodec MemoryRaft MemorySystem MemoryTheorems EtcdReplica.

(** ** Encodings by table *)

#[global] Instance LeaseInfo_eq_dec : EqDecision LeaseInfo.
Proof. solve_decision. Defined.
#[global] Instance pbTargetUnion_eq_dec : EqDecision pbTargetUnion.
Proof. solve_decision. Defined.
#[global] Instance pbCompare_eq_dec : EqDecision pbCompare.
Proof. solve_decision. Defined.
#[global] Instance pbOp_eq_dec : EqDecision pbOp.
Proof. solve_decision. Defined.
#[global] Instance pbRaftOperation_eq_dec : EqDecision pbRaftOperation.
Proof. solve_decision. Defined.
#[global] Instance pbKeyValue_eq_dec : EqDecision pbKeyValue.
Proof. solve_decision. Defined.
#[global] Instance pbLease_eq_dec : EqDecision pbLease.
Proof. solve_decision. Defined.
#[global] Instance pbStoreSnapshot_eq_dec : EqDecision pbStoreSnapshot.
Proof. solve_decision. Defined.

(** Messages are written as distinct letters, in the order of the table. *)
Fixpoint tableWrite {A} `{!EqDecision A} (table : list (string * A)) (a : A) : option string :=
  match table with
  | [] => None
  | (s, a') :: table' => if decide (a = a') then Some s else tableWrite table' a
  end.

Fixpoint tableRead {A} (table : list (string * A)) (s : string) : option A :=
  match table with
  | [] => None
  | (s', a) :: table' => if String.eqb s s' then Some a else tableRead table' s
  end.

Lemma tableWrite_in {A} `{!EqDecision A} (table : list (string * A)) a s :
  tableWrite table a = Some s -> (s, a) ∈ table.
Proof.
  induction table as [|[s' a'] table IH]; simpl; [done|]. case_decide; intros; simplify_eq; [by left|].
  right. by apply IH.
Qed.

Lemma table_roundtrip {A} `{!EqDecision A} (table : list (string * A)) a s :
  NoDup table.*1 -> tableWrite table a = Some s -> tableRead table s = Some a.
Proof.
  induction table as [|[s' a'] table IH]; simpl; intros Hnd Hw; [done|].
  apply NoDup_cons in Hnd as [Hnin Hnd]. case_decide; simplify_eq; [by rewrite String.eqb_refl|].
  destruct (String.eqb_spec s s') as [->|Hne]; [|by apply IH]. exfalso. apply Hnin.
  apply tableWrite_in in Hw. apply list_elem_of_fmap. by exists (s', a).
Qed.

(** The empty message is written as no bytes. *)
Program Definition tableWire {A} `{!EqDecision A} (zero : A) (table : list (string * A))
    (Hnd : NoDup ("" :: table.*1)) : ProtoWire A := {|
  proto_marshal := tableWrite (("", zero) :: table);
  proto_unmarshal := tableRead (("", zero) :: table);
  proto_zero := zero;
|}.
Next Obligation. intros A ? zero table Hnd a b. by apply (table_roundtrip (("", zero) :: table)). Qed.
Next Obligation. done. Qed.

(** An encoding that is never used. *)
Program Definition noText (A : Type) : TextWire A := {|
  text_marshal _ := None; text_unmarshal _ := None; text_exact _ := False;
|}.
Next Obligation. done. Qed.
Next Obligation. done. Qed.

Definition zeroOp : pbRaftOperation := mkPbRaftOperation "" "" "" 0 "" "" 0 [] [] [].
Definition zeroSnapshot : pbStoreSnapshot := mkPbStoreSnapshot 0 ∅ ∅.

(** The operations of the runs: a put of another node, a put of this node, and
    two transactions. *)
Definition put_x (seq : string) : RaftOperation := mkRaftOperation TPut "x" "theirs" 0 "" seq 0 [] [] [].
Definition put_k (seq : string) : RaftOperation := mkRaftOperation TPut "k" "ours" 0 "" seq 0 [] [] [].
Definition cmp_x : Compare := mkCompare CompareVersion CompareEqual "x" (mkCompareUnion 0 0 0 "" 0).
Definition txn_x (seq : string) : RaftOperation :=
  mkRaftOperation TTxn "" "" 0 "" seq 0 [cmp_x] [putOp "x" "theirs" 0] [].
Definition txn_bad (seq : string) : RaftOperation :=
  mkRaftOperation TTxn "" "" 0 "" seq 0 [] [putOp "k" "ours" 99] [].

Definition opTable : list (string * pbRaftOperation) :=
  [("a", raftOperationToProto (put_x "seq-1")); ("b", raftOperationToProto (put_k "seq-1"));
   ("c", raftOperationToProto (txn_x "seq-1")); ("d", raftOperationToProto (txn_bad "seq-1"))].

Lemma opTable_nodup : NoDup ("" :: opTable.*1).
Proof. apply (bool_decide_unpack _). vm_compute. exact I. Qed.

#[global] Instance opWire : ProtoWire pbRaftOperation := tableWire zeroOp opTable opTable_nodup.
#[global] Instance opText : TextWire RaftOperation := noText RaftOperation.

(** The snapshot of the store of [EtcdTheorems.demo]. *)
Definition demoSnapshot : pbStoreSnapshot :=
  mkPbStoreSnapshot (revision demo) (keyValueToProto <$> contents (kvData demo)) (LeaseToProto <$> leases demo).

Lemma snapTable_nodup : NoDup ("" :: [("s", demoSnapshot)].*1).
Proof. apply (bool_decide_unpack _). vm_compute. exact I. Qed.

#[global] Instance snapWire : ProtoWire pbStoreSnapshot := tableWire zeroSnapshot [("s", demoSnapshot)] snapTable_nodup.
#[global] Instance snapText : TextWire SnapshotData := noText SnapshotData.

Definition noGob (s : string) : option (string * string) := None.
Definition noGobEncode (p : string * string) : string := "".

Definition run := reachable true noGob noGobEncode.

(** ** Witnesses *)

Definition demoMemory : Memory := setEtcd NewMemory demo.

Lemma raft_snapshot_roundtrip_witness :
  exists n', recoverFromSnapshot NewMemory "SNAP-PB:s" = (n', Ok tt) /\ revision (m_etcd n') = 2 /\
    contents (kvData (m_etcd n')) = contents (kvData demo).
Proof.
  destruct (raft_snapshot_roundtrip true demoMemory NewMemory "SNAP-PB:s") as (n' & Hn & Hd & Hr & _).
  - exact demo_wf.
  - apply (wf_new_map (M := ShardedMap)).
  - apply (bool_decide_unpack _). vm_compute. exact I.
  - discriminate.
  - vm_compute. reflexivity.
  - exists n'. split; [exact Hn|]. split; [rewrite Hr; vm_compute; reflexivity|exact Hd].
Defined.

Lemma raft_operation_roundtrip_witness :
  exists op', deserializeOperation "PB:c" = Ok op' /\ ro_SeqNum op' = "seq-1" /\
    ro_Type op' = "TXN".
Proof.
  destruct (raft_operation_roundtrip (txn_x "seq-1") "PB:c") as (op' & Hd & Hf & _).
  - discriminate.
  - repeat constructor.
  - repeat constructor.
  - vm_compute. reflexivity.
  - exists op'. split; [exact Hd|]. inversion Hf. split; reflexivity.
Defined.

Lemma raft_batch_matches_log_witness :
  exists m', applyBatch NewMemory [put "a" "1"; put "b" "2"; del "a" "b"; put "c" "3"] (Some m') /\
    wf_etcd (m_etcd m') /\ revision (m_etcd m') = 4 /\ view (m_etcd m') "a" = None /\
    view (m_etcd m') "c" = Some ("3", 0, 1).
Proof.
  set (ops := [put "a" "1"; put "b" "2"; del "a" "b"; put "c" "3"]).
  destruct (applyBatch_total NewMemory ops) as [o Ho].
  destruct (applyBatch_ok NewMemory ops o [] Pending_new Ho) as (m' & -> & _).
  exists m'. split; [exact Ho|].
  destruct (raft_batch_matches_log NewMemory m' ops) as (Hwf & Hr & Hv).
  - apply wf_NewMemoryEtcd.
  - vm_compute. discriminate.
  - repeat constructor; (left; reflexivity) || (right; reflexivity).
  - exact Ho.
  - split; [exact Hwf|]. destruct (Hv "a") as [_ Ha]. destruct (Hv "c") as [_ Hc]. rewrite Hr, Ha, Hc.
    split; [vm_compute; reflexivity|]. split; vm_compute; reflexivity.
Defined.

(** Another order in which a node may range over its maps. *)
Definition reversed_order : MapOrder.
Proof.
  refine {| range_map := fun V (m : gmap string V) => reverse (map_to_list m) |}.
  intros V m. apply reverse_Permutation.
Defined.

Definition replicaLog : list RaftOperation := [put_x "seq-1"; put_k "seq-1"; txn_x "seq-1"].

Lemma replicas_agree_witness :
  exists m1 m2,
    @readCommits default_order _ _ _ _ noGob NewMemory [["PB:a"; "PB:b"]; ["PB:c"]] m1 /\
    @readCommits reversed_order _ _ _ _ noGob NewMemory [["PB:a"]; ["PB:b"; "PB:c"]] m2 /\
    revision (m_etcd m1) = revision (m_etcd m2) /\
    erase <$> contents (kvData (m_etcd m1)) = erase <$> contents (kvData (m_etcd m2)).
Proof.
  assert (Hdec : Forall2 (fun d op => deserializeOperation d = Ok op) ["PB:a"; "PB:b"; "PB:c"] replicaLog).
  { repeat (constructor; [vm_compute; reflexivity|]). constructor. }
  destruct (@readCommits_total default_order _ _ _ _ noGob [] [["PB:a"; "PB:b"]; ["PB:c"]] NewMemory replicaLog Pending_new Hdec) as [m1 Hr1].
  destruct (@readCommits_total reversed_order _ _ _ _ noGob [] [["PB:a"]; ["PB:b"; "PB:c"]] NewMemory replicaLog Pending_new Hdec) as [m2 Hr2].
  exists m1, m2. split; [exact Hr1|]. split; [exact Hr2|].
  assert (Hs : similar (@abs _ _ (@sharded_laws default_order) (m_etcd m1)) (@abs _ _ (@sharded_laws reversed_order) (m_etcd m2))).
  { apply (replicas_agree default_order reversed_order noGob NewMemory NewMemory m1 m2 [["PB:a"; "PB:b"]; ["PB:c"]] [["PB:a"]; ["PB:b"; "PB:c"]] replicaLog).
    - apply wf_NewMemoryEtcd.
    - exact (@wf_NewMemoryEtcd ShardedMap (@sharded_KvMap reversed_order) (@sharded_laws reversed_order)).
    - reflexivity.
    - reflexivity.
    - exact Hdec.
    - repeat constructor; try discriminate.
    - vm_compute. discriminate.
    - exact Hr1.
    - exact Hr2. }
  split; [exact (si_rev _ _ Hs)|exact (si_data _ _ Hs)].
Defined.

Lemma raft_put_returns_new_record_witness :
  exists m' kv, applyOperation 0 NewMemory (put_k "seq-1") = Some m' /\
    (c_finish (PutWithLease NewMemory "k" "ours" 0) 0 m' "seq-1").2 = Ok (RepPut 1 (Some kv)) /\ Value kv = "ours".
Proof.
  destruct (applyOperation 0 NewMemory (put_k "seq-1")) as [m'|] eqn:E.
  - destruct (raft_put_returns_new_record NewMemory NewMemory 0 0 "k" "ours" "seq-1" 0 m') as (kv & Hf & Hv & _).
    + apply wf_NewMemoryEtcd.
    + vm_compute. discriminate.
    + exact E.
    + exists m', kv. split; [reflexivity|]. split; [exact Hf|exact Hv].
  - exfalso. apply (f_equal (fun o => match o with Some _ => true | None => false end)) in E.
    vm_compute in E. discriminate E.
Defined.

(** ** A put of this node and one of another node with the same number *)

Definition ourPut : Call := PutWithLease NewMemory "k" "ours" 0.
Definition ourClient (p : Phase) : Client := mkClient ourPut "seq-1" 0 p.

Definition registered : Memory := (begin true NewMemory ourPut).1.
Definition sent : Memory := (send registered "seq-1" "PB:b" SendOk).1.
Definition theirsApplied : Memory :=
  match applyOperation 0 sent (put_x "seq-1") with Some m => m | None => sent end.

Lemma run_sent : run (mkSystem sent [ourClient Waiting] []).
Proof.
  eapply rtc_l.
  { apply (step_begin _ _ _ _ [] [] (ReqPut "k" "ours" 0) registered "seq-1" 0 "PB:b");
      [vm_compute; reflexivity|vm_compute; reflexivity]. }
  eapply rtc_l; [|apply rtc_refl].
  apply (step_send _ _ _ registered [ourClient (Sending "PB:b")] [] 0%nat (ourClient (Sending "PB:b")) "PB:b" SendOk sent (Ok tt));
    vm_compute; reflexivity.
Qed.

Lemma apply_theirs : applyBatch sent [put_x "seq-1"] (Some theirsApplied).
Proof.
  assert (Hs : applyOperation 0 sent (put_x "seq-1") = Some theirsApplied).
  { unfold theirsApplied. destruct (applyOperation 0 sent (put_x "seq-1")) as [m|] eqn:E; [reflexivity|].
    exfalso. apply (f_equal (fun o => match o with Some _ => true | None => false end)) in E.
    vm_compute in E. discriminate E. }
  rewrite <- Hs. apply applyBatch_one.
Qed.

Lemma run_returned :
  run (mkSystem theirsApplied [ourClient (Returned (Ok (RepPut 1 None)))] [put_x "seq-1"]).
Proof.
  eapply rtc_r; [eapply rtc_r; [apply run_sent|]|].
  - apply (step_commit _ _ _ sent [ourClient Waiting] [] ["PB:a"] sent [put_x "seq-1"]);
      [vm_compute; reflexivity|apply apply_theirs].
  - apply (step_wait _ _ _ theirsApplied [ourClient Waiting] _ 0%nat (ourClient Waiting) 0 WaitDone);
      [reflexivity|reflexivity| |vm_compute; reflexivity].
    intros _. apply (bool_decide_unpack _). vm_compute. exact I.
Qed.

(** The sequence number is only unique on its node.  When the put of another
    node with the same number is applied first, a waiting put returns success
    although its own operation was not applied and its key is not there. *)
Theorem sequence_number_collision :
  exists s cl, run s /\ sys_clients s !! 0%nat = Some cl /\ cl_phase cl = Returned (Ok (RepPut 1 None)) /\
    Get (kvData (m_etcd (sys_m s))) "k" = None /\
    forallb (fun op => negb (String.eqb (ro_Key op) "k")) (sys_applied s) = true.
Proof.
  eexists _, _. split; [apply run_returned|]. split; [reflexivity|]. split; [reflexivity|].
  split; vm_compute; reflexivity.
Qed.

Lemma raft_commit_wakes_calls_witness :
  exists m', applyBatch sent [put_x "seq-1"] (Some m') /\ 0%nat ∈ m_closed m'.
Proof.
  destruct (raft_commit_wakes_calls true noGob noGobEncode (mkSystem sent [ourClient Waiting] []) ["PB:a"] sent
    [put_x "seq-1"] run_sent ltac:(vm_compute; reflexivity)) as [[o Ho] Hall].
  destruct (Hall o Ho) as (m' & -> & Hw). exists m'. split; [exact Ho|].
  apply (Hw 0%nat (ourClient Waiting) (put_x "seq-1")); [reflexivity|exact I|left|reflexivity].
Defined.

Lemma raft_reply_sound_witness :
  exists op, op ∈ [put_x "seq-1"] /\ ro_SeqNum op = "seq-1".
Proof.
  destruct (raft_reply_sound true noGob noGobEncode _ 0%nat _ _ run_returned eq_refl eq_refl) as (Hop & _ & _).
  exact Hop.
Defined.

(** ** A result that is left over *)

Definition afterApply (m : Memory) (op : RaftOperation) : Memory :=
  match applyOperation 0 m op with Some m' => m' | None => m end.

Lemma applied_ok m op : match applyOperation 0 m op with Some _ => true | None => false end = true ->
  applyBatch m [op] (Some (afterApply m op)).
Proof.
  intros Hok. assert (Hs : applyOperation 0 m op = Some (afterApply m op))
    by (unfold afterApply; by destruct (applyOperation 0 m op)).
  rewrite <- Hs. apply applyBatch_one.
Qed.

Definition ourTxn : Call := Txn NewMemory [] [putOp "k" "ours" 99] [].
Definition txnClient (p : Phase) : Client := mkClient ourTxn "seq-1" 0 p.

Definition follower : Memory := afterApply NewMemory (txn_x "seq-1").
Definition txnRegistered : Memory := (begin true follower ourTxn).1.
Definition txnSent : Memory := (send txnRegistered "seq-1" "PB:d" SendOk).1.
Definition txnApplied : Memory := afterApply txnSent (txn_bad "seq-1").
Definition txnResult : result MemError Reply := (await 0 txnApplied ourTxn "seq-1" WaitDone).2.
Definition txnDone : Memory := (await 0 txnApplied ourTxn "seq-1" WaitDone).1.

Lemma run_stale :
  run (mkSystem txnDone [txnClient (Returned txnResult)] [txn_x "seq-1"; txn_bad "seq-1"]).
Proof.
  eapply rtc_l.
  { apply (step_commit _ _ _ NewMemory [] [] ["PB:c"] NewMemory [txn_x "seq-1"] follower);
      [vm_compute; reflexivity|apply applied_ok; vm_compute; reflexivity]. }
  eapply rtc_l.
  { apply (step_begin _ _ _ follower [] _ (ReqTxn [] [putOp "k" "ours" 99] []) txnRegistered "seq-1" 0%nat "PB:d");
      vm_compute; reflexivity. }
  eapply rtc_l.
  { apply (step_send _ _ _ txnRegistered [txnClient (Sending "PB:d")] _ 0%nat (txnClient (Sending "PB:d"))
      "PB:d" SendOk txnSent (Ok tt)); vm_compute; reflexivity. }
  eapply rtc_l.
  { apply (step_commit _ _ _ txnSent [txnClient Waiting] _ ["PB:d"] txnSent [txn_bad "seq-1"] txnApplied);
      [vm_compute; reflexivity|apply applied_ok; vm_compute; reflexivity]. }
  eapply rtc_l; [|apply rtc_refl].
  apply (step_wait _ _ _ txnApplied [txnClient Waiting] _ 0%nat (txnClient Waiting) 0 WaitDone txnDone txnResult).
  - reflexivity.
  - reflexivity.
  - intros _. apply (bool_decide_unpack _). vm_compute. exact I.
  - exact (surjective_pairing (await 0 txnApplied ourTxn "seq-1" WaitDone)).
Qed.

(** A node keeps the results of the transactions of other nodes.  A failed
    transaction with the same sequence number returns the one left over: here a
    put with an unknown lease reports success and wrote nothing. *)
Theorem stale_transaction_result :
  exists s cl r, run s /\ sys_clients s !! 0%nat = Some cl /\ cl_call cl = ourTxn /\
    cl_phase cl = Returned (Ok (RepTxn r)) /\ tr_Succeeded r = true /\
    Get (kvData (m_etcd (sys_m s))) "k" = None.
Proof.
  assert (Hr : txnResult = Ok (RepTxn (mkTxnResponse true [RespPut (mkPutResponse None 1)] 1)))
    by (vm_compute; reflexivity).
  eexists _, _, _. split; [apply run_stale|]. split; [reflexivity|]. split; [reflexivity|].
  rewrite Hr. split; [reflexivity|]. split; [reflexivity|vm_compute; reflexivity].
Qed.
