(* ===== verification/LeaseRead.v ===== *)
(** * Lease reads ([internal/lease/smart_config.go], [lease_manager.go],
    [readindex_manager.go])

    A leader that heard from a majority may answer reads from its own state until
    its lease expires.  Durations and times are nanoseconds; the clock is an
    argument.  The fields of the managers are atomics that are written by the Raft
    goroutine, so an operation is one step, except [RequestReadIndex], whose
    accesses interleave with [NotifyApplied]. *)

From S2P Require Import Prelude GoBytes.

Definition millisecond : Z := 1000000.

(** ** Smart configuration *)

Record SmartLeaseConfig := mkSmart {
  userEnabled : bool;
  actualEnabled : bool;
  clusterSize : Z;
  lastUpdateTime : Z;
}.

Definition NewSmartLeaseConfig (now : Z) (enabled : bool) : SmartLeaseConfig := mkSmart enabled false 0 now.

Definition shouldEnableLeaseRead (slc : SmartLeaseConfig) (size : Z) : bool :=
  if negb (userEnabled slc) then false
  else if size =? 0 then false
  else if size >=? 1 then true
  else false.

(** The size is kept in 32 bits, the decision is made on the argument. *)
Definition UpdateClusterSize (now : Z) (slc : SmartLeaseConfig) (size : Z) : SmartLeaseConfig :=
  mkSmart (userEnabled slc) (shouldEnableLeaseRead slc size) (wrap_i32 size) now.

Definition IsEnabled (slc : SmartLeaseConfig) : bool := actualEnabled slc.
Definition GetClusterSize (slc : SmartLeaseConfig) : Z := clusterSize slc.

Definition SetUserEnabled (slc : SmartLeaseConfig) (enabled : bool) : SmartLeaseConfig :=
  if Bool.eqb (userEnabled slc) enabled then slc
  else
    let slc' := mkSmart enabled (actualEnabled slc) (clusterSize slc) (lastUpdateTime slc) in
    mkSmart enabled (shouldEnableLeaseRead slc' (clusterSize slc)) (clusterSize slc) (lastUpdateTime slc).

Definition getEnableReason (slc : SmartLeaseConfig) (size : Z) : string :=
  if negb (userEnabled slc) then "User disabled Lease Read in configuration"
  else if size =? 0 then "Unknown cluster size, disabled for safety"
  else if size =? 1 then "Single-node cluster detected, enabled with special handling (following etcd behavior)"
  else if size >=? 2 then "Multi-node cluster detected, enabled"
  else "Invalid cluster size".

(** ** Leases *)

Record LeaseManager := mkLeaseManager {
  electionTimeout : Z;
  heartbeatTick : Z;
  clockDrift : Z;
  leaseExpireTime : Z;
  isLeader : bool;
  leaseRenewCount : Z;
  leaseExpireCount : Z;
  smartConfig : option SmartLeaseConfig;
}.

Definition NewLeaseManager (electionTimeout heartbeatTick drift : Z) (smart : option SmartLeaseConfig) :
    LeaseManager :=
  mkLeaseManager electionTimeout heartbeatTick (if drift =? 0 then 500 * millisecond else drift)
    0 false 0 0 smart.

Definition setLease (lm : LeaseManager) (expire : Z) (leader : bool) (renews expires : Z) : LeaseManager :=
  mkLeaseManager (electionTimeout lm) (heartbeatTick lm) (clockDrift lm) expire leader renews expires
    (smartConfig lm).

Definition setSmart (lm : LeaseManager) (f : SmartLeaseConfig -> SmartLeaseConfig) : LeaseManager :=
  mkLeaseManager (electionTimeout lm) (heartbeatTick lm) (clockDrift lm) (leaseExpireTime lm) (isLeader lm)
    (leaseRenewCount lm) (leaseExpireCount lm) (f <$> smartConfig lm).

Definition minDuration (a b : Z) : Z := if a <? b then a else b.

Definition minLeaseDuration : Z := 50 * millisecond.

(** [min(electionTimeout/2, heartbeatTick*3) - clockDrift], at least the floor. *)
Definition leaseDuration (lm : LeaseManager) : Z :=
  let d := wrap_i64 (minDuration (Z.quot (electionTimeout lm) 2) (wrap_i64 (heartbeatTick lm * 3)) - clockDrift lm) in
  if d <=? 0 then minLeaseDuration
  else if d <? minLeaseDuration then minLeaseDuration
  else d.

(** The acknowledgments needed: no more than one node counts as one. *)
Definition ackedByMajority (receivedAcks totalNodes : Z) : bool :=
  let '(acks, total) := if totalNodes <=? 1 then (Z.max receivedAcks 1, 1) else (receivedAcks, totalNodes) in
  negb (acks <? Z.quot total 2 + 1).

Definition RenewLease (now : Z) (lm : LeaseManager) (receivedAcks totalNodes : Z) : LeaseManager * bool :=
  if match smartConfig lm with Some slc => negb (IsEnabled slc) | None => false end then (lm, false)
  else if negb (isLeader lm) then (lm, false)
  else if negb (ackedByMajority receivedAcks totalNodes) then (lm, false)
  else
    (setLease lm (wrap_i64 (now + leaseDuration lm)) (isLeader lm) (wrap_i64 (leaseRenewCount lm + 1))
       (leaseExpireCount lm), true).

Definition HasValidLease (now : Z) (lm : LeaseManager) : LeaseManager * bool :=
  if negb (isLeader lm) then (lm, false)
  else if now >=? leaseExpireTime lm
  then (setLease lm (leaseExpireTime lm) (isLeader lm) (leaseRenewCount lm) (wrap_i64 (leaseExpireCount lm + 1)), false)
  else (lm, true).

Definition GetLeaseRemaining (now : Z) (lm : LeaseManager) : Z :=
  if negb (isLeader lm) then 0
  else if now >=? leaseExpireTime lm then 0
  else wrap_i64 (leaseExpireTime lm - now).

Definition OnBecomeLeader (lm : LeaseManager) : LeaseManager :=
  setLease lm 0 true (leaseRenewCount lm) (leaseExpireCount lm).

Definition OnBecomeFollower (lm : LeaseManager) : LeaseManager :=
  if isLeader lm then setLease lm 0 false (leaseRenewCount lm) (leaseExpireCount lm)
  else setLease lm (leaseExpireTime lm) false (leaseRenewCount lm) (leaseExpireCount lm).

(** ** Runs of a lease manager *)

Inductive LeaseEvent :=
  | ERenew (receivedAcks totalNodes : Z)
  | ECheck
  | ELeader
  | EFollower
  | ESize (size : Z)
  | EUser (enabled : bool).

Definition leaseStep (now : Z) (lm : LeaseManager) (e : LeaseEvent) : LeaseManager :=
  match e with
  | ERenew acks total => (RenewLease now lm acks total).1
  | ECheck => (HasValidLease now lm).1
  | ELeader => OnBecomeLeader lm
  | EFollower => OnBecomeFollower lm
  | ESize size => setSmart lm (fun slc => UpdateClusterSize now slc size)
  | EUser enabled => setSmart lm (fun slc => SetUserEnabled slc enabled)
  end.

Definition leaseRun (lm : LeaseManager) (es : list (Z * LeaseEvent)) : LeaseManager :=
  fold_left (fun lm p => leaseStep p.1 lm p.2) es lm.

(** The role does not change in [es]. *)
Definition keepsRole (es : list (Z * LeaseEvent)) : bool :=
  forallb (fun p => match p.2 with ELeader | EFollower => false | _ => true end) es.

(** Why the lease of a manager may be valid: a renewal as leader with the
    acknowledgments of more than half of the nodes, or that knows of no other node,
    and no change of role since. *)
Definition renewedAt (lm0 : LeaseManager) (es : list (Z * LeaseEvent)) (t : Z) : Prop :=
  exists pre post acks total,
    es = pre ++ (t, ERenew acks total) :: post /\ keepsRole post = true /\
    isLeader (leaseRun lm0 pre) = true /\ (2 * acks > total \/ total <= 1).

(** The test of the code asks for more than half of the nodes; with at most one
    node, which need not have answered, it always succeeds. *)
Lemma ackedByMajority_iff acks total : ackedByMajority acks total = true <-> 2 * acks > total \/ total <= 1.
Proof.
  unfold ackedByMajority. destruct (Z.leb_spec total 1) as [Ht|Ht]; rewrite negb_true_iff, Z.ltb_ge.
  - change (Z.quot 1 2 + 1) with 1. lia.
  - rewrite Z.quot_div_nonneg by lia. pose proof (Z.div_mod total 2 ltac:(lia)). pose proof (Z.mod_pos_bound total 2 ltac:(lia)). lia.
Qed.

Definition sameTiming (lm lm' : LeaseManager) : Prop :=
  electionTimeout lm' = electionTimeout lm /\ heartbeatTick lm' = heartbeatTick lm /\ clockDrift lm' = clockDrift lm.

Lemma leaseDuration_same lm lm' : sameTiming lm lm' -> leaseDuration lm' = leaseDuration lm.
Proof. intros (He & Hh & Hc). unfold leaseDuration. by rewrite He, Hh, Hc. Qed.

Lemma leaseStep_timing now lm e : sameTiming lm (leaseStep now lm e).
Proof.
  destruct e; try done; simpl; unfold RenewLease, HasValidLease, OnBecomeFollower; by repeat case_match.
Qed.

Lemma leaseRun_timing es : forall lm, sameTiming lm (leaseRun lm es).
Proof.
  induction es as [|[t e] es IH]; intros lm; [done|]. unfold leaseRun in *. cbn [fold_left fst snd].
  destruct (IH (leaseStep t lm e)) as (He & Hh & Hc). destruct (leaseStep_timing t lm e) as (He' & Hh' & Hc').
  split_and!; congruence.
Qed.

Lemma leaseRun_snoc lm es t e : leaseRun lm (es ++ [(t, e)]) = leaseStep t (leaseRun lm es) e.
Proof. unfold leaseRun. by rewrite fold_left_app. Qed.

(** A lease that is set comes from a renewal, and lasts what the configuration
    says from then on. *)
Lemma lease_origin lm0 es :
  leaseExpireTime lm0 = 0 ->
  let lm := leaseRun lm0 es in
  leaseExpireTime lm = 0 \/ isLeader lm = false \/
  exists t, renewedAt lm0 es t /\ leaseExpireTime lm = wrap_i64 (t + leaseDuration lm0).
Proof.
  intros H0. induction es as [|[t e] es IH] using rev_ind; [by left|]. cbn zeta in *.
  rewrite leaseRun_snoc.
  pose proof (leaseDuration_same _ _ (leaseRun_timing es lm0)) as Hdur.
  set (lm := leaseRun lm0 es) in *.
  assert (Hkeep : forall lm', leaseExpireTime lm' = leaseExpireTime lm -> isLeader lm' = isLeader lm ->
    match e with ELeader | EFollower => False | _ => True end ->
    leaseExpireTime lm' = 0 \/ isLeader lm' = false \/
    exists t0, renewedAt lm0 (es ++ [(t, e)]) t0 /\ leaseExpireTime lm' = wrap_i64 (t0 + leaseDuration lm0)).
  { intros lm' -> -> He. destruct IH as [?|[?|(t0 & (pre & post & acks & total & -> & Hp & Hl & Ha) & Ht)]]; [by left|by right; left|].
    right; right. exists t0. split; [|done]. exists pre, (post ++ [(t, e)]), acks, total.
    split; [by rewrite <- app_assoc|]. split; [|done]. unfold keepsRole in *.
    rewrite forallb_app, Hp. by destruct e. }
  destruct e as [acks total| | | |size|enabled]; simpl.
  - unfold RenewLease. destruct (match smartConfig lm with Some slc => negb (IsEnabled slc) | None => false end); [by apply Hkeep|].
    destruct (isLeader lm) eqn:El; cbn [negb]; [|by right; left].
    destruct (ackedByMajority acks total) eqn:Ea; cbn [negb fst]; [|by apply Hkeep].
    right; right. exists t. split; [|simpl; by rewrite Hdur]. apply ackedByMajority_iff in Ea. exists es, [], acks, total. by split_and!.
  - unfold HasValidLease. destruct (negb (isLeader lm)); [by apply Hkeep|].
    destruct (t >=? leaseExpireTime lm); by apply Hkeep.
  - by left.
  - unfold OnBecomeFollower. by destruct (isLeader lm); right; left.
  - by apply Hkeep.
  - by apply Hkeep.
Qed.

(** ** Properties of leases *)

(** C23: a lease is only valid on a leader that, since it became one, had a renewal
    less than the lease duration ago with acknowledgments of more than half of the
    nodes it counted, or with at most one node counted, itself or none; with a
    configuration that leaves at least the floor of 50ms after the clock drift,
    that is less than half an election timeout minus the drift. *)
Theorem lease_valid_since_majority (lm0 : LeaseManager) (es : list (Z * LeaseEvent)) (now : Z)
    (H0 : leaseExpireTime lm0 = 0) (Hnow : 0 <= now <= int64_max)
    (Ht : Forall (fun p => 0 <= p.1 <= now) es)
    (Hd : 0 <= leaseDuration lm0 /\ now + leaseDuration lm0 <= int64_max)
    (Hv : (HasValidLease now (leaseRun lm0 es)).2 = true) :
  exists t, renewedAt lm0 es t /\ t <= now < t + leaseDuration lm0 /\
    (0 <= electionTimeout lm0 <= int64_max -> 0 <= heartbeatTick lm0 * 3 <= int64_max -> 0 <= clockDrift lm0 ->
     minDuration (Z.quot (electionTimeout lm0) 2) (heartbeatTick lm0 * 3) - clockDrift lm0 >= minLeaseDuration ->
     now - t < Z.quot (electionTimeout lm0) 2 - clockDrift lm0).
Proof.
  unfold HasValidLease in Hv. pose proof (lease_origin lm0 es H0) as Ho. cbn zeta in Ho.
  destruct (isLeader (leaseRun lm0 es)) eqn:El; [|done]. cbn [negb] in Hv.
  destruct (now >=? leaseExpireTime (leaseRun lm0 es)) eqn:Ee; [done|]. bool_to_prop. apply Z.leb_gt in Ee.
  destruct Ho as [Hz|[?|(t & Hr & He)]]; [lia|done|].
  assert (Hrange : 0 <= t <= now).
  { destruct Hr as (pre & post & acks & total & -> & _). rewrite Forall_app, Forall_cons in Ht. apply Ht. }
  rewrite He, wrap_i64_id in Ee by (unfold_ints; lia).
  exists t. split; [done|]. split; [lia|]. intros Hel Hhb Hcd Hfloor.
  assert (Hdur : leaseDuration lm0 <= Z.quot (electionTimeout lm0) 2 - clockDrift lm0); [|lia].
  unfold leaseDuration. rewrite (wrap_i64_id (heartbeatTick lm0 * 3)) by (unfold_ints; lia).
  assert (Hm : 0 <= minDuration (Z.quot (electionTimeout lm0) 2) (heartbeatTick lm0 * 3) <= Z.quot (electionTimeout lm0) 2).
  { unfold minDuration. pose proof (Z.quot_pos (electionTimeout lm0) 2 ltac:(lia) ltac:(lia)).
    destruct (Z.ltb_spec (Z.quot (electionTimeout lm0) 2) (heartbeatTick lm0 * 3)); lia. }
  assert (Hq : Z.quot (electionTimeout lm0) 2 <= electionTimeout lm0) by (apply Z.quot_le_upper_bound; lia).
  rewrite wrap_i64_id by (unfold minLeaseDuration, millisecond in *; unfold_ints; lia).
  unfold minLeaseDuration, millisecond in *.
  destruct (Z.leb_spec (minDuration (Z.quot (electionTimeout lm0) 2) (heartbeatTick lm0 * 3) - clockDrift lm0) 0); [lia|].
  destruct (Z.ltb_spec (minDuration (Z.quot (electionTimeout lm0) 2) (heartbeatTick lm0 * 3) - clockDrift lm0) (50 * 1000000)); lia.
Qed.

(** A three-node cluster with an election timeout of a second. *)
Definition threeNodes : LeaseManager := NewLeaseManager (1000 * millisecond) (100 * millisecond) (100 * millisecond) None.

Definition electedAndRenewed : list (Z * LeaseEvent) :=
  [(0, ELeader); (10 * millisecond, ERenew 1 3); (20 * millisecond, ERenew 2 3)].

Lemma lease_valid_since_majority_witness :
  exists t, renewedAt threeNodes electedAndRenewed t /\ t <= 150 * millisecond < t + 200 * millisecond.
Proof.
  destruct (lease_valid_since_majority threeNodes electedAndRenewed (150 * millisecond)) as (t & Hr & Ht & _).
  - reflexivity.
  - vm_compute. split; discriminate.
  - repeat constructor; vm_compute; discriminate.
  - vm_compute. split; discriminate.
  - vm_compute. reflexivity.
  - exists t. split; [exact Hr|exact Ht].
Defined.

(** The floor of the lease duration does not look at the election timeout: with a
    timeout of 50ms the lease lasts as long as the timeout, although another
    leader can be elected by then; and a renewal that knows of no nodes succeeds
    without any acknowledgment. *)
Theorem lease_outlives_election_timeout :
  leaseDuration (NewLeaseManager (50 * millisecond) (10 * millisecond) (20 * millisecond) None) = 50 * millisecond /\
  (RenewLease 0 (OnBecomeLeader threeNodes) 0 0).2 = true.
Proof. vm_compute. split; reflexivity. Qed.
