(* ===== verification/ReadIndex.v ===== *)
(** * Read indexes ([internal/lease/readindex_manager.go])

    A read waits until the state machine has applied its index.  The two locked
    parts of [RequestReadIndex], the check and the registration, interleave with
    [NotifyApplied]; [ri_step] is one such part.  A response channel has room for
    one value: [chans] holds the value in each channel. *)

From Stdlib Require Import Floats.SpecFloat.
From stdpp Require Import pretty.
From S2P Require Import Prelude GoBytes KvTypes LeaseRead.

Record ReadIndexRequest := mkRequest {
  RequestID : string;
  ReadIndex : Z;
  RecvTime : Z;
  ResponseC : nat;
}.

Record ReadIndexManager := mkReadIndexManager {
  pendingReads : gmap string ReadIndexRequest;
  lastApplied : Z;
  totalReadIndexReqs : Z;
  fastPathReads : Z;
  slowPathReads : Z;
  forwardedReads : Z;
  rm_smartConfig : option SmartLeaseConfig;
}.

Definition NewReadIndexManager (smart : option SmartLeaseConfig) : ReadIndexManager :=
  mkReadIndexManager ∅ 0 0 0 0 0 smart.

Definition setReads (rm : ReadIndexManager) (p : gmap string ReadIndexRequest) (applied : Z) : ReadIndexManager :=
  mkReadIndexManager p applied (totalReadIndexReqs rm) (fastPathReads rm) (slowPathReads rm) (forwardedReads rm)
    (rm_smartConfig rm).

Definition countRequest (rm : ReadIndexManager) : ReadIndexManager :=
  mkReadIndexManager (pendingReads rm) (lastApplied rm) (wrap_i64 (totalReadIndexReqs rm + 1)) (fastPathReads rm)
    (wrap_i64 (slowPathReads rm + 1)) (forwardedReads rm) (rm_smartConfig rm).

Definition RecordFastPathRead (rm : ReadIndexManager) : ReadIndexManager :=
  if match rm_smartConfig rm with Some slc => negb (IsEnabled slc) | None => false end then rm
  else mkReadIndexManager (pendingReads rm) (lastApplied rm) (totalReadIndexReqs rm) (wrap_i64 (fastPathReads rm + 1))
         (slowPathReads rm) (forwardedReads rm) (rm_smartConfig rm).

Definition RecordForwardedRead (rm : ReadIndexManager) : ReadIndexManager :=
  mkReadIndexManager (pendingReads rm) (lastApplied rm) (totalReadIndexReqs rm) (fastPathReads rm)
    (slowPathReads rm) (wrap_i64 (forwardedReads rm + 1)) (rm_smartConfig rm).

Definition GetPendingCount (rm : ReadIndexManager) : Z := Z.of_nat (size (pendingReads rm)).

Definition generateRequestID (now counter : Z) : string := "read-" +:+ pretty now +:+ "-" +:+ pretty counter.

(** ** NotifyApplied *)

Section notify.
Context `{!MapOrder}.

(** A send that does not block: a full channel keeps its value. *)
Definition trySend (chans : gmap nat Z) (c : nat) (v : Z) : gmap nat Z :=
  match chans !! c with None => <[c := v]> chans | Some _ => chans end.

(** The loop over the requests of the map. *)
Fixpoint confirm (applied : Z) (rs : list (string * ReadIndexRequest)) (pending : gmap string ReadIndexRequest)
    (chans : gmap nat Z) : gmap string ReadIndexRequest * gmap nat Z :=
  match rs with
  | [] => (pending, chans)
  | (requestID, req) :: rs' =>
      if ReadIndex req <=? applied
      then confirm applied rs' (delete requestID pending) (trySend chans (ResponseC req) (ReadIndex req))
      else confirm applied rs' pending chans
  end.

Definition NotifyApplied (rm : ReadIndexManager) (chans : gmap nat Z) (applied : Z) :
    ReadIndexManager * gmap nat Z :=
  let last := if applied >? lastApplied rm then applied else lastApplied rm in
  let '(pending, chans') := confirm applied (range_map (pendingReads rm)) (pendingReads rm) chans in
  (setReads rm pending last, chans').

(** ** Readers *)

Inductive RPhase :=
  | RChecked
  | RWaiting (requestID : string)
  | RReturned (r : option Z).

(** [rd_chan] is the channel [RequestReadIndex] makes. *)
Record Reader := mkReader {
  rd_index : Z;
  rd_chan : nat;
  rd_phase : RPhase;
}.

Record ReadSystem := mkReadSystem {
  rs_rm : ReadIndexManager;
  rs_chans : gmap nat Z;
  rs_counter : Z;
  rs_readers : list Reader;
}.

Definition setRPhase (r : Reader) (p : RPhase) : Reader := mkReader (rd_index r) (rd_chan r) p.

Inductive ri_step : ReadSystem -> ReadSystem -> Prop :=
  (** the counters and the check *)
  | ri_begin rm chans n rds readIndex :
      ri_step (mkReadSystem rm chans n rds)
        (mkReadSystem (countRequest rm) chans n
           (rds ++ [mkReader readIndex (length rds)
                      (if readIndex <=? lastApplied rm then RReturned (Some readIndex) else RChecked)]))
  (** the registration *)
  | ri_register rm chans n rds i r now :
      rds !! i = Some r -> rd_phase r = RChecked ->
      let id := generateRequestID now (wrap_i64 (n + 1)) in
      ri_step (mkReadSystem rm chans n rds)
        (mkReadSystem
           (setReads rm (<[id := mkRequest id (rd_index r) now (rd_chan r)]> (pendingReads rm)) (lastApplied rm))
           chans (wrap_i64 (n + 1)) (<[i := setRPhase r (RWaiting id)]> rds))
  | ri_receive rm chans n rds i r id v :
      rds !! i = Some r -> rd_phase r = RWaiting id -> chans !! rd_chan r = Some v ->
      ri_step (mkReadSystem rm chans n rds)
        (mkReadSystem rm (delete (rd_chan r) chans) n (<[i := setRPhase r (RReturned (Some v))]> rds))
  | ri_cancel rm chans n rds i r id :
      rds !! i = Some r -> rd_phase r = RWaiting id ->
      ri_step (mkReadSystem rm chans n rds)
        (mkReadSystem (setReads rm (delete id (pendingReads rm)) (lastApplied rm)) chans n
           (<[i := setRPhase r (RReturned None)]> rds))
  | ri_notify rm chans n rds applied :
      0 <= applied ->
      ri_step (mkReadSystem rm chans n rds)
        (mkReadSystem (NotifyApplied rm chans applied).1 (NotifyApplied rm chans applied).2 n rds).

Definition ri_reachable (s : ReadSystem) : Prop :=
  exists smart, rtc ri_step (mkReadSystem (NewReadIndexManager smart) ∅ 0 []) s.

(** ** Invariant *)

(** Channels and requests carry the index of the reader they belong to, and a
    value is only sent once its index is applied. *)
Record RInv (s : ReadSystem) : Prop := {
  ri_chan i r : rs_readers s !! i = Some r -> rd_chan r = i;
  ri_value c v : rs_chans s !! c = Some v ->
    v <= lastApplied (rs_rm s) /\ exists r, rs_readers s !! c = Some r /\ rd_index r = v;
  ri_request id req : pendingReads (rs_rm s) !! id = Some req ->
    exists r, rs_readers s !! ResponseC req = Some r /\ rd_index r = ReadIndex req;
  ri_returned i r v : rs_readers s !! i = Some r -> rd_phase r = RReturned (Some v) ->
    v = rd_index r /\ v <= lastApplied (rs_rm s);
}.

Lemma confirm_chans applied rs : forall pending chans c v,
  (confirm applied rs pending chans).2 !! c = Some v ->
  chans !! c = Some v \/ exists id req, (id, req) ∈ rs /\ ResponseC req = c /\ ReadIndex req = v /\ v <= applied.
Proof.
  induction rs as [|[id req] rs IH]; intros pending chans c v; simpl; [by left|].
  destruct (Z.leb_spec (ReadIndex req) applied) as [Hle|]; intros Hc.
  - destruct (IH _ _ _ _ Hc) as [Hs|(id' & req' & ? & ?)]; [|right; exists id', req'; set_solver].
    unfold trySend in Hs. destruct (chans !! ResponseC req) eqn:E; [by left|].
    apply lookup_insert_Some in Hs as [[<- <-]|[_ ?]]; [|by left].
    right. exists id, req. set_solver.
  - destruct (IH _ _ _ _ Hc) as [?|(id' & req' & ? & ?)]; [by left|]. right. exists id', req'. set_solver.
Qed.

Lemma confirm_pending applied rs : forall pending chans id req,
  (confirm applied rs pending chans).1 !! id = Some req -> pending !! id = Some req.
Proof.
  induction rs as [|[id' req'] rs IH]; intros pending chans id req; simpl; [done|].
  destruct (ReadIndex req' <=? applied); [|by apply IH].
  intros Hc%IH. by apply lookup_delete_Some in Hc as [_ ?].
Qed.

(** The readers keep their index and channel. *)
Definition sameReaders (rds rds' : list Reader) : Prop :=
  forall i r, rds !! i = Some r -> exists r', rds' !! i = Some r' /\ rd_index r' = rd_index r.

Lemma sameReaders_insert (rds : list Reader) (i : nat) r p : rds !! i = Some r -> sameReaders rds (<[i := setRPhase r p]> rds).
Proof.
  intros Hi j r' Hj. destruct (decide (i = j)) as [<-|Hne].
  - rewrite Hi in Hj. simplify_eq. exists (setRPhase r' p). split; [|done].
    apply list_lookup_insert_eq. by eapply lookup_lt_Some.
  - exists r'. by rewrite list_lookup_insert_ne.
Qed.

Lemma setRPhase_lookup (rds : list Reader) (i : nat) r p (j : nat) r' :
  rds !! i = Some r -> <[i := setRPhase r p]> rds !! j = Some r' ->
  (i = j /\ r' = setRPhase r p) \/ rds !! j = Some r'.
Proof. intros Hi [(-> & <- & _)|[_ ?]]%list_lookup_insert_Some; [by left|by right]. Qed.

Lemma RInv_step s s' : RInv s -> ri_step s s' -> RInv s'.
Proof.
  intros HI Hs.
  destruct Hs as [rm chans n rds x|rm chans n rds i r now Hi Hp id|rm chans n rds i r id v Hi Hp Hv
    |rm chans n rds i r id Hi Hp|rm chans n rds applied Happ]; destruct HI as [Hc Hv' Hr Ht]; simpl in *.
  - assert (Hl : forall i r, (rds ++ [mkReader x (length rds) (if x <=? lastApplied rm then RReturned (Some x) else RChecked)]) !! i = Some r ->
      rds !! i = Some r \/ (i = length rds /\ r = mkReader x (length rds) (if x <=? lastApplied rm then RReturned (Some x) else RChecked))).
    { intros i r [?|[? Hl]]%lookup_app_Some; [by left|]. right. apply list_lookup_singleton_Some in Hl as [? <-]. split; [lia|done]. }
    split; simpl.
    + intros i r [?|[-> ->]]%Hl; [by apply Hc|done].
    + intros c v Hcv. destruct (Hv' c v Hcv) as (? & r & ? & ?). split; [done|].
      exists r. split; [by apply lookup_app_l_Some|done].
    + intros id req Hreq. destruct (Hr id req Hreq) as (r & ? & ?). exists r. split; [by apply lookup_app_l_Some|done].
    + intros i r v [?|[-> ->]]%Hl; [by apply (Ht i)|]. simpl. destruct (Z.leb_spec x (lastApplied rm)); [|done].
      intros ?; simplify_eq. done.
  - pose proof (sameReaders_insert rds i r (RWaiting id) Hi) as Hsr.
    pose proof (setRPhase_lookup rds i r (RWaiting id)) as Hl. split; simpl.
    + intros j r' Hj. destruct (Hl j r' Hi Hj) as [[<- ->]|?]; [exact (Hc i r Hi)|by apply (Hc j r')].
    + intros c v Hcv. destruct (Hv' c v Hcv) as (? & r0 & Hr0 & <-). split; [done|]. by apply Hsr.
    + intros id' req [[<- <-]|[_ Hreq]]%lookup_insert_Some; simpl.
      * rewrite (Hc i r Hi). by apply Hsr.
      * destruct (Hr id' req Hreq) as (r0 & Hr0 & <-). by apply Hsr.
    + intros j r' v Hj. destruct (Hl j r' Hi Hj) as [[<- ->]|?]; [done|by apply (Ht j)].
  - pose proof (sameReaders_insert rds i r (RReturned (Some v)) Hi) as Hsr.
    pose proof (setRPhase_lookup rds i r (RReturned (Some v))) as Hl. split; simpl.
    + intros j r' Hj. destruct (Hl j r' Hi Hj) as [[<- ->]|?]; [exact (Hc i r Hi)|by apply (Hc j r')].
    + intros c w [_ Hcv]%lookup_delete_Some. destruct (Hv' c w Hcv) as (? & r0 & Hr0 & <-). split; [done|]. by apply Hsr.
    + intros id' req Hreq. destruct (Hr id' req Hreq) as (r0 & Hr0 & <-). by apply Hsr.
    + intros j r' w Hj. destruct (Hl j r' Hi Hj) as [[<- ->]|?]; [|by apply (Ht j)]. simpl. intros ?; simplify_eq.
      destruct (Hv' _ _ Hv) as (? & r0 & Hr0 & <-). rewrite (Hc i r Hi), Hi in Hr0. by simplify_eq.
  - pose proof (sameReaders_insert rds i r (RReturned None) Hi) as Hsr.
    pose proof (setRPhase_lookup rds i r (RReturned None)) as Hl. split; simpl.
    + intros j r' Hj. destruct (Hl j r' Hi Hj) as [[<- ->]|?]; [exact (Hc i r Hi)|by apply (Hc j r')].
    + intros c w Hcv. destruct (Hv' c w Hcv) as (? & r0 & Hr0 & <-). split; [done|]. by apply Hsr.
    + intros id' req [_ Hreq]%lookup_delete_Some. destruct (Hr id' req Hreq) as (r0 & Hr0 & <-). by apply Hsr.
    + intros j r' w Hj. destruct (Hl j r' Hi Hj) as [[<- ->]|?]; [done|by apply (Ht j)].
  - unfold NotifyApplied.
    pose proof (confirm_chans applied (range_map (pendingReads rm)) (pendingReads rm) chans) as Hcc.
    pose proof (confirm_pending applied (range_map (pendingReads rm)) (pendingReads rm) chans) as Hcp.
    destruct (confirm _ _ _ _) as [pending chans']. simpl in *.
    assert (Hmono : lastApplied rm <= (if applied >? lastApplied rm then applied else lastApplied rm) /\
                    applied <= (if applied >? lastApplied rm then applied else lastApplied rm))
      by (destruct (Z.gtb_spec applied (lastApplied rm)); lia).
    split; simpl; [done|..].
    + intros c v [Hcv|(id & req & Hin & <- & <- & Hle)]%Hcc.
      * destruct (Hv' c v Hcv) as (? & ?). split; [lia|done].
      * split; [lia|]. apply elem_of_range_map in Hin. by apply (Hr id req).
    + intros id req Hreq%Hcp. by apply (Hr id req).
    + intros j r' v Hj Hpj. destruct (Ht j r' v Hj Hpj). split; [done|lia].
Qed.

Lemma ri_reachable_inv s : ri_reachable s -> RInv s.
Proof.
  intros [smart Hrun]. remember (mkReadSystem (NewReadIndexManager smart) ∅ 0 []) as s0 eqn:E.
  assert (H0 : RInv s0) by (rewrite E; split; simpl; by intros ?; intros; set_solver).
  clear E. induction Hrun as [s0|s0 s1 s2 Hs _ IH]; [done|]. apply IH. by eapply RInv_step.
Qed.

(** What a notification does to the requests: those up to the index leave the map
    and find a value in their channel. *)
Lemma confirm_done applied rs : forall pending chans,
  NoDup rs.*1 ->
  forall id req, (id, req) ∈ rs -> ReadIndex req <= applied ->
  (confirm applied rs pending chans).1 !! id = None /\
  is_Some ((confirm applied rs pending chans).2 !! ResponseC req).
Proof.
  assert (Hkeep : forall rs pending chans c, is_Some (chans !! c) -> is_Some ((confirm applied rs pending chans).2 !! c)).
  { induction rs0 as [|[id' req'] rs0 IH]; intros pending chans c Hc; simpl; [done|].
    destruct (ReadIndex req' <=? applied); apply IH; [|done]. unfold trySend.
    destruct (chans !! ResponseC req') eqn:E; [done|]. rewrite lookup_insert. by case_decide. }
  assert (Hgone : forall rs pending chans id, pending !! id = None -> (confirm applied rs pending chans).1 !! id = None).
  { intros rs0 pending chans id Hn. destruct ((confirm applied rs0 pending chans).1 !! id) eqn:E; [|done].
    apply confirm_pending in E. congruence. }
  induction rs as [|[id' req'] rs IH]; intros pending chans Hnd id req Hin Hle; [by apply elem_of_nil in Hin|].
  apply NoDup_cons in Hnd as [_ Hnd]. cbn [confirm]. apply elem_of_cons in Hin as [Heq|Hin].
  - simplify_eq. apply Z.leb_le in Hle. rewrite Hle. split; [apply Hgone, lookup_delete_eq|].
    apply Hkeep. unfold trySend. destruct (chans !! ResponseC req') eqn:E; [by rewrite E|]. rewrite lookup_insert_eq. by eexists.
  - destruct (ReadIndex req' <=? applied); by apply IH.
Qed.

Lemma confirm_keeps applied rs : forall pending chans id req,
  NoDup rs.*1 -> (id, req) ∈ rs -> applied < ReadIndex req ->
  (confirm applied rs pending chans).1 !! id = pending !! id.
Proof.
  induction rs as [|[id' req'] rs IH]; intros pending chans id req Hnd Hin Hlt; [by apply elem_of_nil in Hin|].
  apply NoDup_cons in Hnd as [Hnin Hnd]. cbn [confirm].
  assert (Hother : forall rs pending chans, id ∉ rs.*1 -> (confirm applied rs pending chans).1 !! id = pending !! id).
  { induction rs0 as [|[i0 r0] rs0 IH0]; intros p0 c0 Hn; [done|]. cbn [confirm].
    cbn [fmap list_fmap fst] in Hn. rewrite not_elem_of_cons in Hn. destruct Hn as [Hne Hn].
    destruct (ReadIndex r0 <=? applied); rewrite IH0 by done; [|done]. by rewrite lookup_delete_ne. }
  apply elem_of_cons in Hin as [Heq|Hin].
  - simplify_eq. apply Z.leb_gt in Hlt. rewrite Hlt. by apply Hother.
  - assert (Hne : id' <> id) by (intros ->; apply Hnin, list_elem_of_fmap; by exists (id, req)).
    destruct (ReadIndex req' <=? applied); [|by apply (IH _ _ _ req)].
    rewrite (IH _ _ _ req) by done. by rewrite lookup_delete_ne.
Qed.

End notify.

(** ** Properties *)

Section properties.
Context `{!MapOrder}.

(** C26: a read that is let through gets its own index back, and the state machine
    has applied it; a notification answers exactly the registered reads up to its
    index and forgets them, and [lastApplied] never decreases. *)
Theorem read_index_applied (s : ReadSystem) (applied : Z) (Hs : ri_reachable s) :
  (forall i r v, rs_readers s !! i = Some r -> rd_phase r = RReturned (Some v) ->
     v = rd_index r /\ v <= lastApplied (rs_rm s)) /\
  let '(rm', chans') := NotifyApplied (rs_rm s) (rs_chans s) applied in
  lastApplied rm' = Z.max applied (lastApplied (rs_rm s)) /\
  (forall id req, pendingReads (rs_rm s) !! id = Some req ->
     if ReadIndex req <=? applied
     then pendingReads rm' !! id = None /\ is_Some (chans' !! ResponseC req)
     else pendingReads rm' !! id = Some req).
Proof.
  split; [apply ri_reachable_inv; done|]. unfold NotifyApplied.
  destruct (confirm applied (range_map (pendingReads (rs_rm s))) (pendingReads (rs_rm s)) (rs_chans s))
    as [pending chans'] eqn:E. split.
  { simpl. destruct (Z.gtb_spec applied (lastApplied (rs_rm s))); lia. }
  intros id req Hreq. apply elem_of_range_map in Hreq as Hin.
  destruct (Z.leb_spec (ReadIndex req) applied) as [Hle|Hgt].
  - pose proof (confirm_done applied _ (pendingReads (rs_rm s)) (rs_chans s) (range_map_nodup _) id req Hin Hle) as Hd.
    by rewrite E in Hd.
  - simpl. pose proof (confirm_keeps applied (range_map (pendingReads (rs_rm s))) (pendingReads (rs_rm s)) (rs_chans s)
      id req (range_map_nodup _) Hin Hgt) as Hk. rewrite E in Hk. simpl in Hk. by rewrite Hk.
Qed.

End properties.

Definition oneReader (p : RPhase) : list Reader := [mkReader 5 0 p].

(** A read of index 5 checks, then 5 is applied, then the read registers. *)
Definition missed : ReadSystem :=
  let rm := countRequest (NewReadIndexManager None) in
  let rm1 := (NotifyApplied rm ∅ 5).1 in
  let id := generateRequestID 0 1 in
  mkReadSystem (setReads rm1 {[id := mkRequest id 5 0 0]} (lastApplied rm1)) ∅ 1 (oneReader (RWaiting id)).

Lemma missed_reachable : ri_reachable missed.
Proof.
  exists None. eapply rtc_l; [apply (ri_begin _ ∅ 0 [] 5)|].
  eapply rtc_l; [apply (ri_notify _ ∅ 0 (oneReader RChecked) 5); lia|].
  eapply rtc_l; [|apply rtc_refl].
  pose proof (ri_register (NotifyApplied (countRequest (NewReadIndexManager None)) ∅ 5).1 ∅ 0
    (oneReader RChecked) 0%nat (mkReader 5 0 RChecked) 0 eq_refl eq_refl) as Hreg.
  vm_compute in Hreg |- *. exact Hreg.
Qed.

Lemma missed_next s' :
  ri_step missed s' -> exists r, rs_readers s' !! 0%nat = Some r /\
    (rd_phase r = RWaiting (generateRequestID 0 1) \/ rd_phase r = RReturned None) /\
    (is_Some (rs_chans s' !! 0%nat) ->
     exists applied, 5 <= applied /\ rs_rm s' = (NotifyApplied (rs_rm missed) ∅ applied).1).
Proof.
  pose (r0 := mkReader 5 0 (RWaiting (generateRequestID 0 1))).
  assert (Hone : forall i r, oneReader (RWaiting (generateRequestID 0 1)) !! i = Some r -> i = 0%nat /\ r = r0)
    by (intros i r [-> <-]%list_lookup_singleton_Some; done).
  intros Hs. unfold missed in *. inversion Hs as [? ? ? ? x|? ? ? ? ? ? ? Hi Hp|? ? ? ? ? ? ? ? Hi Hp Hv|? ? ? ? ? ? ? Hi Hp|? ? ? ? applied Happ];
    subst; clear Hs; simpl.
  - exists r0. split; [done|]. split; [by left|]. by intros [? ?].
  - by destruct (Hone _ _ Hi) as [-> ->].
  - done.
  - destruct (Hone _ _ Hi) as [-> ->]. eexists. split; [reflexivity|]. split; [by right|]. by intros [? ?].
  - exists r0. split; [done|]. split; [by left|]. intros Hsome. exists applied. split; [|done].
    destruct (Z.le_gt_cases 5 applied) as [|Hlt]; [done|]. exfalso. revert Hsome. unfold NotifyApplied.
    match goal with |- context [confirm applied ?l ?p ?c] =>
      pose proof (confirm_chans applied l p c 0%nat) as Hcc; destruct (confirm applied l p c) as [p' c'] end.
    intros [v Hv]. destruct (Hcc v Hv) as [?|(id & req & Hin & _ & <- & Hle)]; [done|].
    apply elem_of_range_map in Hin. cbn [pendingReads setReads] in Hin.
    apply lookup_singleton_Some in Hin as [_ <-]. simpl in Hle. lia.
Qed.

(** The check and the registration of a read are not one step.  When its index
    is applied in between, the read waits although it could go on: no next step
    lets it return its index, only the end of its context makes it return, and
    only another notification can wake it. *)
Theorem read_index_missed_wakeup :
  exists s, ri_reachable s /\
    rs_readers s !! 0%nat = Some (mkReader 5 0 (RWaiting (generateRequestID 0 1))) /\
    lastApplied (rs_rm s) = 5 /\ rs_chans s !! 0%nat = None /\
    forall s', ri_step s s' -> exists r, rs_readers s' !! 0%nat = Some r /\
      (rd_phase r = RWaiting (generateRequestID 0 1) \/ rd_phase r = RReturned None) /\
      (is_Some (rs_chans s' !! 0%nat) -> exists applied, 5 <= applied /\ rs_rm s' = (NotifyApplied (rs_rm s) ∅ applied).1).
Proof.
  exists missed. split; [apply missed_reachable|]. split; [reflexivity|].
  split; [vm_compute; reflexivity|]. split; [reflexivity|]. exact missed_next.
Qed.

Lemma read_index_applied_witness :
  let '(rm', chans') := NotifyApplied (rs_rm missed) (rs_chans missed) 6 in
  lastApplied rm' = 6 /\ pendingReads rm' !! generateRequestID 0 1 = None /\ is_Some (chans' !! 0%nat).
Proof.
  destruct (read_index_applied missed 6 missed_reachable) as [_ Hn].
  destruct (NotifyApplied (rs_rm missed) (rs_chans missed) 6) as [rm' chans'].
  destruct Hn as [Hl Hp]. split; [exact Hl|].
  exact (Hp (generateRequestID 0 1) (mkRequest (generateRequestID 0 1) 5 0 0) eq_refl).
Defined.

(** * Statistics, health checks and periodic detection ([internal/lease])

    [readindex_manager.go] and [lease_manager.go] ([Stats]), [health_checker.go]
    and the end of [smart_config.go].  Rates are [float64]s.  The texts of the
    issues a check reports are kept as the values they print. *)

Local Open Scope go_scope.

(** ** Statistics *)

Record LeaseStats := mkLeaseStats {
  ls_IsLeader : bool; ls_HasValidLease : bool; ls_LeaseRemaining : Z; ls_LeaseRenewCount : Z; ls_LeaseExpireCount : Z;
}.

(** [HasValidLease] and [GetLeaseRemaining] read the clock; the first counts an
    expired lease, before the counters are read. *)
Definition LeaseManager_Stats (now now' : Z) (lm : LeaseManager) : LeaseManager * LeaseStats :=
  let '(lm', valid) := HasValidLease now lm in
  (lm', mkLeaseStats (isLeader lm) valid (GetLeaseRemaining now' lm') (leaseRenewCount lm') (leaseExpireCount lm')).

Record ReadIndexStats := mkReadIndexStats {
  rs_TotalRequests : Z; rs_FastPathReads : Z; rs_SlowPathReads : Z; rs_ForwardedReads : Z; rs_PendingReads : Z;
  rs_LastApplied : Z; rs_FastPathRate : spec_float;
}.

Definition f64_zero : spec_float := S754_zero false.

Definition rate (part total : Z) : spec_float :=
  if 0 <? total then f64_div (f64_of_int part) (f64_of_int total) else f64_zero.

Definition ReadIndexManager_Stats (rm : ReadIndexManager) : ReadIndexStats :=
  mkReadIndexStats (totalReadIndexReqs rm) (fastPathReads rm) (slowPathReads rm) (forwardedReads rm) (GetPendingCount rm)
    (lastApplied rm) (rate (fastPathReads rm) (wrap_i64 (fastPathReads rm + slowPathReads rm))).

(** ** Periodic detection of the cluster size *)

Definition DetectClusterSizeFromPeers (peers : list string) : Z := Z.of_nat (length peers).

(** A detection at the start and one at every tick until the stop signal: the
    times and what [getClusterSize] answers. *)
Definition StartAutoDetection (slc : SmartLeaseConfig) (first : Z * Z) (ticks : list (Z * Z)) : SmartLeaseConfig :=
  fold_left (fun slc d => UpdateClusterSize d.1 slc d.2) ticks (UpdateClusterSize first.1 slc first.2).

(** ** Health checks *)

Inductive Issue :=
  | LeaseNotEstablished (renewCount expireCount : Z)
  | LowRenewRate (r : spec_float)
  | FastPathNotUsed (total fastPath : Z)
  | TooManyPending (pending : Z).

Record HealthStatus := mkHealthStatus {
  Healthy : bool; Issues : list Issue; LeaseEstablished : bool; LeaseRenewRate : spec_float; FastPathRate : spec_float;
  Timestamp : Z;
}.

(** The managers are shared with the node and are passed to each check;
    [None] for the zero [time.Time]. *)
Record HealthChecker := mkHealthChecker {
  checkInterval : Z; alertThreshold : Z; consecutiveFailures : Z; lastCheckTime : option Z; lastAlertTime : option Z;
}.

Definition NewHealthChecker : HealthChecker := mkHealthChecker (30 * 1000 * millisecond) 3 0 None None.

Definition setFailures (hc : HealthChecker) (n : Z) : HealthChecker :=
  mkHealthChecker (checkInterval hc) (alertThreshold hc) n (lastCheckTime hc) (lastAlertTime hc).

(** The clock as a check reads it. *)
Record HealthClock := mkClock {
  ck_check : Z; ck_stats : Z; ck_remaining : Z; ck_single : Z; ck_single_remaining : Z; ck_fast : Z; ck_since : Z; ck_alert : Z;
}.

Definition isSingleNodeScenario (now now' : Z) (lm : LeaseManager) : LeaseManager * bool :=
  let '(lm', stats) := LeaseManager_Stats now now' lm in
  (lm', (0 <? ls_LeaseRenewCount stats) && (ls_LeaseExpireCount stats =? 0) && (ls_LeaseRenewCount stats <? 10)).

Definition report (st : HealthStatus) (i : Issue) (healthy : bool) : HealthStatus :=
  mkHealthStatus healthy (Issues st ++ [i]) (LeaseEstablished st) (LeaseRenewRate st) (FastPathRate st) (Timestamp st).

Definition minRenewRate : spec_float := f64_div (f64_of_int 4) (f64_of_int 5).

(** The lease of a leader; the manager's counters move when it is looked at. *)
Definition checkLease (ck : HealthClock) (lm : LeaseManager) (st : HealthStatus) : LeaseManager * HealthStatus :=
  if negb (isLeader lm) then (lm, st)
  else
    let '(lm1, stats) := LeaseManager_Stats (ck_stats ck) (ck_remaining ck) lm in
    let st1 := mkHealthStatus (Healthy st) (Issues st) (ls_HasValidLease stats) (LeaseRenewRate st) (FastPathRate st) (Timestamp st) in
    let '(lm2, st2) :=
      if LeaseEstablished st1 then (lm1, st1)
      else
        let '(lm2, single) := isSingleNodeScenario (ck_single ck) (ck_single_remaining ck) lm1 in
        (lm2, report st1 (LeaseNotEstablished (ls_LeaseRenewCount stats) (ls_LeaseExpireCount stats)) single) in
    let totalAttempts := wrap_i64 (ls_LeaseRenewCount stats + ls_LeaseExpireCount stats) in
    if 0 <? totalAttempts then
      let r := f64_div (f64_of_int (ls_LeaseRenewCount stats)) (f64_of_int totalAttempts) in
      let st3 := mkHealthStatus (Healthy st2) (Issues st2) (LeaseEstablished st2) r (FastPathRate st2) (Timestamp st2) in
      (lm2, if SFltb r minRenewRate && (10 <? totalAttempts) then report st3 (LowRenewRate r) false else st3)
    else (lm2, st2).

(** The reads.  An idle fast path is an issue only for a leader with a lease. *)
Definition checkReads (ck : HealthClock) (lm : option LeaseManager) (rm : ReadIndexManager) (st : HealthStatus) :
    option LeaseManager * HealthStatus :=
  let stats := ReadIndexManager_Stats rm in
  let st1 := mkHealthStatus (Healthy st) (Issues st) (LeaseEstablished st) (LeaseRenewRate st) (rs_FastPathRate stats) (Timestamp st) in
  let '(lm', st2) :=
    if (100 <? rs_TotalRequests stats) && SFeqb (rs_FastPathRate stats) f64_zero then
      match lm with
      | Some l =>
          if negb (isLeader l) then (lm, st1)
          else
            let '(l', valid) := HasValidLease (ck_fast ck) l in
            (Some l', if valid then report st1 (FastPathNotUsed (rs_TotalRequests stats) (rs_FastPathReads stats)) false else st1)
      | None => (lm, st1)
      end
    else (lm, st1) in
  (lm', if 1000 <? rs_PendingReads stats then report st2 (TooManyPending (rs_PendingReads stats)) false else st2).

(** Whether an alert is logged: none in the five minutes after another. *)
Definition alert (ck : HealthClock) (hc : HealthChecker) : HealthChecker * bool :=
  if match lastAlertTime hc with
     | Some t => timeSince (ck_since ck) t <? 5 * 60 * 1000 * millisecond
     | None => false
     end
  then (hc, false)
  else (mkHealthChecker (checkInterval hc) (alertThreshold hc) (consecutiveFailures hc) (lastCheckTime hc) (Some (ck_alert ck)), true).

(** The count of failures after a check, and whether it alerts. *)
Definition countFailures (ck : HealthClock) (hc : HealthChecker) (healthy : bool) : HealthChecker * bool :=
  if healthy then (setFailures hc 0, false)
  else
    let hc1 := setFailures hc (wrap_i64 (consecutiveFailures hc + 1)) in
    if consecutiveFailures hc1 >=? alertThreshold hc1
    then let '(hc2, alerted) := alert ck hc1 in (setFailures hc2 0, alerted)
    else (hc1, false).

Record CheckResult := mkCheckResult {
  cr_checker : HealthChecker; cr_lm : option LeaseManager; cr_status : HealthStatus; cr_alerted : bool;
}.

Definition Check_ (ck : HealthClock) (hc : HealthChecker) (lm : option LeaseManager) (rim : option ReadIndexManager) : CheckResult :=
  let hc0 := mkHealthChecker (checkInterval hc) (alertThreshold hc) (consecutiveFailures hc) (Some (ck_check ck)) (lastAlertTime hc) in
  let st0 := mkHealthStatus true [] false f64_zero f64_zero (ck_check ck) in
  let '(lm1, st1) :=
    match lm with Some l => let '(l', st) := checkLease ck l st0 in (Some l', st) | None => (None, st0) end in
  let '(lm2, st2) := match rim with Some rm => checkReads ck lm1 rm st1 | None => (lm1, st1) end in
  let '(hc1, alerted) := countFailures ck hc0 (Healthy st2) in
  mkCheckResult hc1 lm2 st2 alerted.

(** The checks of [StartMonitoring], one per tick; the node changes the managers
    in between. *)
Fixpoint StartMonitoring (hc : HealthChecker) (ticks : list (HealthClock * option LeaseManager * option ReadIndexManager)) :
    list CheckResult :=
  match ticks with
  | [] => []
  | (ck, lm, rim) :: ticks' => let r := Check_ ck hc lm rim in r :: StartMonitoring (cr_checker r) ticks'
  end.

Definition b01 (b : bool) : spec_float := if b then f64_of_int 1 else f64_zero.

(** Asking for the metrics is a check as well. *)
Definition GetMetrics (ck : HealthClock) (hc : HealthChecker) (lm : option LeaseManager) (rim : option ReadIndexManager) :
    CheckResult * list (string * spec_float) :=
  let r := Check_ ck hc lm rim in
  let st := cr_status r in
  (r, [("lease_read_healthy", b01 (Healthy st)); ("lease_established", b01 (LeaseEstablished st));
       ("lease_renew_rate", LeaseRenewRate st); ("lease_fast_path_rate", FastPathRate st);
       ("lease_issues_count", f64_of_int (Z.of_nat (length (Issues st))));
       ("lease_consecutive_failures", f64_of_int (consecutiveFailures (cr_checker r)))]).

(** ** What a check shows *)

Lemma Stats_expired now now' lm : isLeader lm = true -> 0 <= leaseExpireCount lm < int64_max ->
  ls_HasValidLease (LeaseManager_Stats now now' lm).2 = false ->
  leaseExpireCount (LeaseManager_Stats now now' lm).1 = leaseExpireCount lm + 1.
Proof.
  intros Hl Hb. unfold LeaseManager_Stats, HasValidLease. rewrite Hl. simpl.
  destruct (now >=? leaseExpireTime lm); simpl; [|done]. intros _. apply wrap_i64_id. unfold_ints. lia.
Qed.

Lemma Stats_leader now now' lm : isLeader (LeaseManager_Stats now now' lm).1 = isLeader lm.
Proof. unfold LeaseManager_Stats, HasValidLease. destruct (isLeader lm) eqn:E; simpl; [|done]. by destruct (_ >=? _). Qed.

Lemma Stats_expire_count now now' lm : 0 < leaseExpireCount lm < int64_max ->
  0 < ls_LeaseExpireCount (LeaseManager_Stats now now' lm).2.
Proof.
  intros Hb. unfold LeaseManager_Stats, HasValidLease. destruct (isLeader lm); simpl; [|lia].
  destruct (_ >=? _); simpl; [|lia]. rewrite wrap_i64_id; unfold_ints; lia.
Qed.

Lemma report_healthy st i b : Healthy (report st i b) = b.
Proof. done. Qed.

(** A check of a leader is healthy only if its lease is valid: the
    exemption for a cluster of one node never applies, because looking at an
    expired lease counts it as expired before the exemption asks for that
    count to be zero. *)
Theorem single_node_exemption_dead (ck : HealthClock) (lm : LeaseManager) (st : HealthStatus)
    (Hlead : isLeader lm = true) (Hcount : 0 <= leaseExpireCount lm < int64_max - 1) :
  let '(lm', st') := checkLease ck lm st in
  (Healthy st' = true -> LeaseEstablished st' = true) /\ LeaseEstablished st' = (HasValidLease (ck_stats ck) lm).2.
Proof.
  unfold checkLease. rewrite Hlead. cbn [negb].
  pose proof (Stats_expired (ck_stats ck) (ck_remaining ck) lm Hlead ltac:(lia)) as Hexp.
  assert (Hv : ls_HasValidLease (LeaseManager_Stats (ck_stats ck) (ck_remaining ck) lm).2 = (HasValidLease (ck_stats ck) lm).2).
  { unfold LeaseManager_Stats. by destruct (HasValidLease _ lm). }
  destruct (LeaseManager_Stats (ck_stats ck) (ck_remaining ck) lm) as [lm1 stats]. cbn [fst snd LeaseEstablished] in *.
  rewrite Hv in *. destruct (HasValidLease (ck_stats ck) lm).2.
  - cbv zeta. destruct (0 <? _); [|done]. by destruct (_ && _).
  - unfold isSingleNodeScenario.
    pose proof (Stats_expire_count (ck_single ck) (ck_single_remaining ck) lm1 ltac:(rewrite Hexp by done; lia)) as Hpos.
    destruct (LeaseManager_Stats (ck_single ck) _ lm1) as [lm2 stats2]. cbn [fst snd] in *.
    destruct (Z.eqb_spec (ls_LeaseExpireCount stats2) 0); [lia|]. rewrite andb_false_r. cbv zeta.
    destruct (0 <? _); [|done]. by destruct (_ && _).
Qed.

(** ** When a check alerts *)

Lemma countFailures_spec ck hc healthy : 0 <= consecutiveFailures hc < 3 -> alertThreshold hc = 3 ->
  let '(hc', alerted) := countFailures ck hc healthy in
  0 <= consecutiveFailures hc' <= (if healthy then 0 else consecutiveFailures hc + 1) /\ consecutiveFailures hc' < 3 /\
  alertThreshold hc' = 3 /\ (alerted = true -> healthy = false /\ consecutiveFailures hc = 2).
Proof.
  intros Hc Ht. unfold countFailures. destruct healthy; [simpl; split_and!; (done || lia)|]. cbn [consecutiveFailures setFailures alertThreshold].
  rewrite wrap_i64_id by (unfold_ints; lia). rewrite Ht. destruct (Z.geb_spec (consecutiveFailures hc + 1) 3); [|simpl; split_and!; (done || lia)].
  unfold alert. destruct (match lastAlertTime _ with Some _ => _ | None => _ end); simpl; split_and!; first [done|lia|intros _; split; [done|lia]].
Qed.

Lemma Check_spec ck hc lm rim : 0 <= consecutiveFailures hc < 3 -> alertThreshold hc = 3 ->
  let r := Check_ ck hc lm rim in
  0 <= consecutiveFailures (cr_checker r) <= (if Healthy (cr_status r) then 0 else consecutiveFailures hc + 1) /\
  consecutiveFailures (cr_checker r) < 3 /\ alertThreshold (cr_checker r) = 3 /\
  (cr_alerted r = true -> Healthy (cr_status r) = false /\ consecutiveFailures hc = 2).
Proof.
  intros Hc Ht. unfold Check_. destruct (match lm with Some _ => _ | None => _ end) as [lm1 st1].
  destruct (match rim with Some _ => _ | None => _ end) as [lm2 st2].
  pose proof (countFailures_spec ck (mkHealthChecker (checkInterval hc) (alertThreshold hc) (consecutiveFailures hc)
    (Some (ck_check ck)) (lastAlertTime hc)) (Healthy st2) Hc Ht) as H.
  destruct (countFailures _ _ _) as [hc' alerted]. exact H.
Qed.

Lemma monitoring_alerts ticks : forall hc, 0 <= consecutiveFailures hc < 3 -> alertThreshold hc = 3 ->
  forall i r, StartMonitoring hc ticks !! i = Some r -> cr_alerted r = true ->
  2 <= Z.of_nat i + consecutiveFailures hc /\
  forall j r', StartMonitoring hc ticks !! j = Some r' -> (i <= j + 2)%nat -> (j <= i)%nat -> Healthy (cr_status r') = false.
Proof.
  induction ticks as [|[[ck lm] rim] ticks IH]; intros hc Hc Ht i r Hi Ha; [done|].
  pose proof (Check_spec ck hc lm rim Hc Ht) as (Hn & Hlt & Ht' & Hal). cbn [StartMonitoring] in *. cbv zeta in *.
  set (r0 := Check_ ck hc lm rim) in *. destruct i as [|i]; simpl in Hi.
  - injection Hi as <-. destruct (Hal Ha) as [Hh Hk]. split; [lia|]. intros [|j] r' Hj Hge Hle; [|lia]. by injection Hj as <-.
  - destruct (IH (cr_checker r0) ltac:(lia) Ht' i r Hi Ha) as [Hk Hall]. split; [destruct (Healthy (cr_status r0)); lia|].
    intros [|j] r' Hj Hge Hle; [|apply (Hall j r' Hj); lia]. simpl in Hj. injection Hj as <-.
    destruct (Healthy (cr_status r0)); [lia|done].
Qed.

(** An alert of the health monitoring follows three unhealthy checks in a
    row, itself the third. *)
Theorem alert_after_three_failures (ticks : list (HealthClock * option LeaseManager * option ReadIndexManager))
    (i : nat) (r : CheckResult) (Hi : StartMonitoring NewHealthChecker ticks !! i = Some r) (Ha : cr_alerted r = true) :
  (2 <= i)%nat /\
  forall j r', StartMonitoring NewHealthChecker ticks !! j = Some r' -> (i <= j + 2)%nat -> (j <= i)%nat ->
    Healthy (cr_status r') = false.
Proof.
  destruct (monitoring_alerts ticks NewHealthChecker ltac:(simpl; lia) eq_refl i r Hi Ha) as [Hk Hall].
  split; [|exact Hall]. simpl in Hk. lia.
Qed.

(** ** A leader that never got its lease *)

Definition clock0 : HealthClock := mkClock 10 10 10 10 10 10 10 10.
Definition starved : LeaseManager := setLease (NewLeaseManager 1000 100 0 None) 0 true 3 0.

Lemma single_node_exemption_dead_witness : Healthy (checkLease clock0 starved (mkHealthStatus true [] false f64_zero f64_zero 10)).2 = false.
Proof.
  pose proof (single_node_exemption_dead clock0 starved (mkHealthStatus true [] false f64_zero f64_zero 10)
    ltac:(reflexivity) ltac:(vm_compute; split; [discriminate|reflexivity])) as H.
  destruct (checkLease clock0 starved _) as [lm' st'] eqn:E. destruct H as [H1 H2]. cbn [snd].
  destruct (Healthy st'); [|reflexivity]. specialize (H1 eq_refl). rewrite H1 in H2. vm_compute in H2. discriminate H2.
Defined.

Definition threeTicks : list (HealthClock * option LeaseManager * option ReadIndexManager) :=
  [(clock0, Some starved, None); (clock0, Some starved, None); (clock0, Some starved, None)].

Lemma alert_after_three_failures_witness : exists r, StartMonitoring NewHealthChecker threeTicks !! 2%nat = Some r /\
  cr_alerted r = true /\ Healthy (cr_status r) = false.
Proof.
  destruct (StartMonitoring NewHealthChecker threeTicks !! 2%nat) as [r|] eqn:E; [|vm_compute in E; discriminate].
  exists r. split; [reflexivity|]. assert (Ha : cr_alerted r = true) by (vm_compute in E; injection E as <-; reflexivity).
  split; [exact Ha|]. destruct (alert_after_three_failures threeTicks 2 r E Ha) as [_ H]. apply (H 2%nat r E); lia.
Defined.

(** The detection keeps the last size it saw. *)
Lemma StartAutoDetection_last slc first ticks t size :
  GetClusterSize (StartAutoDetection slc first (ticks ++ [(t, size)])) = wrap_i32 size /\
  IsEnabled (StartAutoDetection slc first (ticks ++ [(t, size)])) = userEnabled slc && (1 <=? size).
Proof.
  unfold StartAutoDetection. rewrite fold_left_app. simpl. split; [done|].
  assert (H : forall slc', userEnabled (fold_left (fun slc d => UpdateClusterSize d.1 slc d.2) ticks slc') = userEnabled slc').
  { induction ticks as [|d ticks IH]; intros slc'; [done|]. simpl. by rewrite IH. }
  unfold shouldEnableLeaseRead. rewrite H. simpl. destruct (userEnabled slc); simpl; [|done].
  destruct (Z.eqb_spec size 0) as [->|]; [done|]. rewrite Z.geb_leb. by destruct (1 <=? size).
Qed.
