(* ===== verification/ProposalBatcher.v ===== *)
(** * Batching proposals ([internal/batch/codec.go], [proposal_batcher.go])

    The batcher collects proposals and sends them to Raft in batches, a batch of
    one as it is and a larger one as JSON.  JSON is the class [BatchJson]; the
    load is computed in float64.  The loop of [run] is one goroutine: a step is
    one branch of its [select].  A send in [flush] may lose against [stopC] once
    that is closed; the argument [sends] of a step says which one wins. *)

From Stdlib Require Import Floats.SpecFloat.
From S2P Require Import Prelude GoBytes GoStrings KvTypes.

(** ** The codec *)

Record BatchProposal := mkBatchProposal { IsBatch : bool; Proposals : list string }.

(** What JSON keeps of a string: bytes that are not UTF-8 become U+FFFD. *)
Definition asText (s : string) : string := goMap (fun r => r) 0 s.

(** [json.Marshal] and [json.Unmarshal] of [BatchProposal]. *)
Class BatchJson := {
  json_marshal : BatchProposal -> string;
  json_unmarshal : string -> option BatchProposal;
  json_nonempty b : json_marshal b <> "";
  json_roundtrip b : json_unmarshal (json_marshal b) = Some (mkBatchProposal (IsBatch b) (asText <$> Proposals b));
}.

Inductive BatchError : Set := EmptyProposals | EmptyData.

Section codec.
Context `{!BatchJson}.

Definition EncodeBatch (proposals : list string) : result BatchError string :=
  match proposals with
  | [] => Err EmptyProposals
  | [p] => Ok p
  | _ => Ok (json_marshal (mkBatchProposal true proposals))
  end.

Definition DecodeBatch (data : string) : result BatchError (list string) :=
  if String.eqb data "" then Err EmptyData
  else
    match json_unmarshal data with
    | None => Ok [data]
    | Some batch => if IsBatch batch then Ok (Proposals batch) else Ok [data]
    end.

Definition IsBatchProposal (data : string) : bool :=
  match json_unmarshal data with None => false | Some batch => IsBatch batch end.

(** A proposal that is there, and cannot be mistaken for a batch. *)
Definition single (p : string) : Prop := p <> "" /\ IsBatchProposal p = false.

(** What is left of the proposals of one batch: JSON keeps only text. *)
Definition arrives (ps : list string) : list string := match ps with [p] => [p] | _ => asText <$> ps end.

Lemma arrives_text ps : Forall (fun p => asText p = p) ps -> arrives ps = ps.
Proof.
  intros Hp. assert (Hm : asText <$> ps = ps) by (induction Hp as [|p ps Hp _ IH]; [done|]; by rewrite fmap_cons, Hp, IH).
  unfold arrives. by destruct ps as [|? []].
Qed.

Lemma concat_arrives_text bs : Forall (fun p => asText p = p) (concat bs) -> concat (arrives <$> bs) = concat bs.
Proof.
  induction bs as [|ps bs IH]; [done|]. rewrite fmap_cons. cbn [concat]. intros [Hp Hb]%Forall_app. by rewrite arrives_text, IH.
Qed.

Lemma DecodeBatch_EncodeBatch ps :
  ps <> [] -> Forall single ps -> exists data, EncodeBatch ps = Ok data /\ DecodeBatch data = Ok (arrives ps).
Proof.
  intros Hne Hp. destruct ps as [|p [|q ps]]; [done|..].
  - apply Forall_cons in Hp as [(Hz & Hb) _]. exists p. split; [done|].
    unfold DecodeBatch, IsBatchProposal in *. apply String.eqb_neq in Hz. rewrite Hz.
    destruct (json_unmarshal p) as [b|]; [by rewrite Hb|done].
  - eexists. split; [done|]. unfold DecodeBatch.
    pose proof (json_nonempty (mkBatchProposal true (p :: q :: ps))) as Hz. apply String.eqb_neq in Hz. rewrite Hz.
    by rewrite json_roundtrip.
Qed.

End codec.

(** ** The batcher *)

Definition f64_ratio (a b : Z) : spec_float := f64_div (f64_of_int a) (f64_of_int b).
Definition f64_mul : spec_float -> spec_float -> spec_float := SFmul 53 1024.

(** [math.Max] *)
Definition f64_max (x y : spec_float) : spec_float :=
  match x, y with
  | S754_infinity false, _ | _, S754_infinity false => S754_infinity false
  | S754_nan, _ | _, S754_nan => S754_nan
  | S754_zero true, S754_zero _ => y
  | S754_zero false, S754_zero _ => x
  | _, _ => if SFltb y x then x else y
  end.

Record BatchConfig := mkBatchConfig {
  MinBatchSize : Z; MaxBatchSize : Z; MinTimeout : Z; MaxTimeout : Z; LoadThreshold : spec_float;
}.

Definition DefaultBatchConfig : BatchConfig := mkBatchConfig 1 256 5000000 20000000 (f64_ratio 7 10).

(** [sent] is what went through [proposeC]; [received] what came out of [inputC]. *)
Record ProposalBatcher := mkBatcher {
  b_config : BatchConfig;
  buffer : list string;
  currentLoad : spec_float;
  proposalCount : Z;
  batchCount : Z;
  currentBatchSize : Z;
  currentTimeout : Z;
  stopped : bool;
  finished_ : bool;
  sent : list string;
  received : list string;
}.

Definition NewProposalBatcher (config : BatchConfig) : ProposalBatcher :=
  mkBatcher config [] (S754_zero false) 0 0 (MinBatchSize config) (MinTimeout config) false false [] [].

Definition setBuffer (b : ProposalBatcher) (buf : list string) (proposals batches : Z) (out inp : list string) :
    ProposalBatcher :=
  mkBatcher (b_config b) buf (currentLoad b) proposals batches (currentBatchSize b) (currentTimeout b)
    (stopped b) (finished_ b) out inp.

Definition setParams (b : ProposalBatcher) (load : spec_float) (size timeout : Z) : ProposalBatcher :=
  mkBatcher (b_config b) (buffer b) load (proposalCount b) (batchCount b) size timeout
    (stopped b) (finished_ b) (sent b) (received b).

Definition interpolate (value min max targetMin targetMax : spec_float) : Z :=
  if SFleb value min then int64_of_f64 targetMin
  else if SFleb max value then int64_of_f64 targetMax
  else
    let ratio := f64_div (f64_sub value min) (f64_sub max min) in
    int64_of_f64 (f64_add targetMin (f64_mul ratio (f64_sub targetMax targetMin))).

Definition adjustParameters (b : ProposalBatcher) : ProposalBatcher :=
  let c := b_config b in
  let one := f64_of_int 1 in
  let half z := f64_div (f64_of_int z) (f64_of_int 2) in
  let bufferUsage := f64_ratio (Z.of_nat (length (buffer b))) (MaxBatchSize c) in
  let loadDelta := SFabs (f64_sub bufferUsage (currentLoad b)) in
  let alpha :=
    if SFltb (f64_ratio 3 10) loadDelta then f64_ratio 7 10
    else if SFltb (f64_ratio 15 100) loadDelta then f64_ratio 5 10
    else f64_ratio 3 10 in
  let load := f64_add (f64_mul alpha bufferUsage) (f64_mul (f64_sub one alpha) (currentLoad b)) in
  let effectiveLoad :=
    if SFltb (f64_ratio 8 10) bufferUsage
    then f64_max load (f64_add (LoadThreshold c) (f64_ratio 1 10)) else load in
  if SFltb (LoadThreshold c) effectiveLoad
  then
    setParams b load
      (interpolate load (LoadThreshold c) one (half (MaxBatchSize c)) (f64_of_int (MaxBatchSize c)))
      (interpolate load (LoadThreshold c) one (half (MaxTimeout c)) (f64_of_int (MaxTimeout c)))
  else
    setParams b load
      (interpolate load (S754_zero false) (LoadThreshold c) (f64_of_int (MinBatchSize c)) (half (MaxBatchSize c)))
      (interpolate load (S754_zero false) (LoadThreshold c) (f64_of_int (MinTimeout c)) (half (MaxTimeout c))).

Section batcher.
Context `{!BatchJson}.

Definition flush (sends : bool) (b : ProposalBatcher) : ProposalBatcher :=
  match buffer b with
  | [] => b
  | batch =>
      let b' := setBuffer b [] (wrap_i64 (proposalCount b + Z.of_nat (length batch))) (wrap_i64 (batchCount b + 1))
                  (sent b) (received b) in
      match EncodeBatch batch with
      | Err _ => b'
      | Ok batchData =>
          if sends then setBuffer b' (buffer b') (proposalCount b') (batchCount b') (sent b ++ [batchData]) (received b)
          else b'
      end
  end.

(** [case proposal := <-b.inputC] *)
Definition onInput (sends : bool) (b : ProposalBatcher) (p : string) : ProposalBatcher :=
  let b' := setBuffer b (buffer b ++ [p]) (proposalCount b) (batchCount b) (sent b) (received b ++ [p]) in
  if Z.of_nat (length (buffer b')) >=? currentBatchSize b' then flush sends b' else b'.

(** [case <-ticker.C] *)
Definition onTick (sends : bool) (b : ProposalBatcher) : ProposalBatcher := adjustParameters (flush sends b).

(** Any of the returns: the deferred flush, then [close(b.proposeC)]. *)
Definition onReturn (sends : bool) (b : ProposalBatcher) : ProposalBatcher :=
  let b' := flush sends b in
  mkBatcher (b_config b') (buffer b') (currentLoad b') (proposalCount b') (batchCount b') (currentBatchSize b')
    (currentTimeout b') (stopped b') true (sent b') (received b').

(** [Stop]; a second call would close a closed channel. *)
Definition Stop (b : ProposalBatcher) : option ProposalBatcher :=
  if stopped b then None
  else Some (mkBatcher (b_config b) (buffer b) (currentLoad b) (proposalCount b) (batchCount b) (currentBatchSize b)
               (currentTimeout b) true (finished_ b) (sent b) (received b)).

Inductive b_step : ProposalBatcher -> ProposalBatcher -> Prop :=
  | bs_input sends b p : finished_ b = false -> (sends = false -> stopped b = true) -> b_step b (onInput sends b p)
  | bs_tick sends b : finished_ b = false -> (sends = false -> stopped b = true) -> b_step b (onTick sends b)
  | bs_return sends b : finished_ b = false -> (sends = false -> stopped b = true) -> b_step b (onReturn sends b)
  | bs_stop b b' : Stop b = Some b' -> b_step b b'.

(** ** Order *)

(** The batches that were sent, and what is still in the buffer. *)
Definition in_order (b : ProposalBatcher) : Prop :=
  stopped b = true \/
  exists batches, Forall2 (fun bs d => EncodeBatch bs = Ok d) batches (sent b) /\
    Forall (fun bs => bs <> []) batches /\ concat batches ++ buffer b = received b /\
    (finished_ b = true -> buffer b = []).

Lemma flush_order b sends :
  in_order b -> (sends = false -> stopped b = true) -> in_order (flush sends b) /\ buffer (flush sends b) = [].
Proof.
  intros [Hs|(bs & Henc & Hne & Hr & Hfin)] Hsend; unfold flush.
  - destruct (buffer b) as [|p buf] eqn:Eb; [by split; [left|]|].
    destruct (EncodeBatch (p :: buf)); [destruct sends|]; by split; [left|].
  - destruct (buffer b) as [|p buf] eqn:Eb.
    { split; [|done]. right. exists bs. by rewrite Eb. }
    assert (Hok : exists d, EncodeBatch (p :: buf) = Ok d) by (destruct buf; by eexists).
    destruct Hok as [d Hd]. rewrite Hd. destruct sends; [|split; [left; by apply Hsend|done]].
    split; [|done]. right. exists (bs ++ [p :: buf]). cbn. split_and!.
    + apply Forall2_app; [done|]. by repeat constructor.
    + apply Forall_app. split; [done|]. by apply Forall_singleton.
    + rewrite concat_app, <- Hr. cbn. by rewrite !app_nil_r.
    + done.
Qed.

Lemma b_step_order b b' : in_order b -> b_step b b' -> in_order b'.
Proof.
  intros HO Hs. destruct Hs as [sends b p Hf Hsend|sends b Hf Hsend|sends b Hf Hsend|b b' Hstop].
  - unfold onInput. cbn zeta.
    set (b1 := setBuffer b (buffer b ++ [p]) _ _ _ _).
    assert (HO1 : in_order b1).
    { destruct HO as [Hst|(bs & Henc & Hne & Hr & _)]; [by left|]. right. exists bs. split_and!; try done; simpl.
      - by rewrite <- Hr, app_assoc.
      - by rewrite Hf. }
    destruct (_ >=? _); [|done]. by apply flush_order.
  - unfold onTick. destruct (flush_order b sends HO Hsend) as [HO1 _]. unfold adjustParameters.
    by destruct (SFltb _ _); destruct HO1 as [?|?]; [left|right|left|right].
  - unfold onReturn. destruct (flush_order b sends HO Hsend) as [HO1 Hbuf].
    destruct HO1 as [?|(bs & Henc & Hne & Hr & _)]; [by left|]. right. by exists bs.
  - unfold Stop in Hstop. destruct (stopped b); [done|]. simplify_eq. by left.
Qed.

Definition b_reachable (config : BatchConfig) (b : ProposalBatcher) : Prop := rtc b_step (NewProposalBatcher config) b.

Lemma b_reachable_order config b : b_reachable config b -> in_order b.
Proof.
  unfold b_reachable. assert (H0 : in_order (NewProposalBatcher config)) by (right; by exists []).
  revert H0. generalize (NewProposalBatcher config). intros b0 H0 Hr.
  induction Hr as [b0|b0 b1 b2 Hs _ IH]; [done|]. apply IH. by eapply b_step_order.
Qed.

Lemma sent_decoded bs ds : Forall2 (fun ps d => EncodeBatch ps = Ok d) bs ds -> Forall (fun ps => ps <> []) bs -> Forall single (concat bs) ->
  Forall2 (fun d ps => DecodeBatch d = Ok ps) ds (arrives <$> bs).
Proof.
  induction 1 as [|ps d bs ds He _ IH]; [constructor|]. intros [Hne1 Hne]%Forall_cons. cbn [concat]. intros [Hp1 Hp]%Forall_app.
  rewrite fmap_cons. constructor; [|by apply IH]. destruct (DecodeBatch_EncodeBatch ps Hne1 Hp1) as (d' & Hd' & Hdec).
  rewrite Hd' in He. by simplify_eq.
Qed.

(** Until the batcher is stopped, decoding what it sent gives the proposals it
    received as their batches leave them, all of them and in their order, but for
    those still in its buffer; when its input ends the buffer is empty. *)
Theorem batcher_keeps_order (config : BatchConfig) (b : ProposalBatcher)
    (Hb : b_reachable config b) (Hs : stopped b = false) (Hp : Forall single (received b)) :
  exists batches, Forall2 (fun data ps => DecodeBatch data = Ok ps) (sent b) (arrives <$> batches) /\
    concat batches ++ buffer b = received b /\ (finished_ b = true -> buffer b = []).
Proof.
  destruct (b_reachable_order config b Hb) as [?|(bs & Henc & Hne & Hr & Hfin)]; [congruence|].
  exists bs. split_and!; try done. rewrite <- Hr in Hp. apply Forall_app in Hp as [Hp _]. by apply sent_decoded.
Qed.

(** With the default configuration nothing changes the parameters: they are only
    adjusted right after the buffer was emptied. *)
Definition at_rest (b : ProposalBatcher) : Prop :=
  b_config b = DefaultBatchConfig /\ currentLoad b = S754_zero false /\ currentBatchSize b = 1 /\
  currentTimeout b = 5000000 /\ buffer b = [] /\ (stopped b = true \/ sent b = received b).

Lemma flush_rest sends b : currentLoad (flush sends b) = currentLoad b /\ b_config (flush sends b) = b_config b /\
  currentBatchSize (flush sends b) = currentBatchSize b /\ currentTimeout (flush sends b) = currentTimeout b /\
  buffer (flush sends b) = [] /\ stopped (flush sends b) = stopped b.
Proof.
  unfold flush. destruct (buffer b) as [|p buf] eqn:E; [done|].
  destruct (EncodeBatch (p :: buf)); [destruct sends|]; done.
Qed.

Lemma flush_empty sends b : buffer b = [] -> flush sends b = b.
Proof. unfold flush. by intros ->. Qed.

Lemma adjust_rest b : at_rest b -> at_rest (adjustParameters b).
Proof.
  intros (Hc & Hl & Hb & Ht & Hbuf & Hsent). unfold adjustParameters, at_rest. rewrite Hc, Hl, Hbuf.
  vm_compute. by split_and!.
Qed.

(** A proposal that arrives at rest is sent at once. *)
Lemma onInput_rest sends b p : at_rest b -> (sends = false -> stopped b = true) -> at_rest (onInput sends b p).
Proof.
  intros (Hc & Hl & Hb & Ht & Hbuf & Hsent) Hsend. unfold onInput. cbn zeta.
  assert (Hone : (Z.of_nat (length (buffer b ++ [p])) >=? currentBatchSize b) = true) by (by rewrite Hbuf, Hb).
  cbn [buffer setBuffer currentBatchSize]. rewrite Hone. unfold flush. cbn [buffer setBuffer]. rewrite Hbuf. simpl.
  destruct sends; unfold at_rest; simpl; split_and!; try done.
  - destruct Hsent as [?|Hsent]; [by left|right; by rewrite Hsent].
  - left. by apply Hsend.
Qed.

Lemma b_step_rest b b' : at_rest b -> b_step b b' -> at_rest b'.
Proof.
  intros HR Hs. destruct Hs as [sends b p Hf Hsend|sends b Hf Hsend|sends b Hf Hsend|b b' Hstop];
    pose proof HR as (Hc & Hl & Hb & Ht & Hbuf & Hsent).
  - by apply onInput_rest.
  - unfold onTick. rewrite flush_empty by done. by apply adjust_rest.
  - unfold onReturn. by rewrite flush_empty.
  - unfold Stop in Hstop. destruct (stopped b); [done|]. simplify_eq. unfold at_rest. simpl. by split_and!; try left.
Qed.

(** With the default configuration the batcher never adapts and never batches:
    the load is measured right after a flush, so it stays 0, the batch size stays
    1 and the timeout 5ms, and until it is stopped every proposal has been sent
    alone, as it was received. *)
Theorem batcher_never_adapts (b : ProposalBatcher) (Hb : b_reachable DefaultBatchConfig b) :
  currentLoad b = S754_zero false /\ currentBatchSize b = 1 /\ currentTimeout b = 5 * 1000000 /\ buffer b = [] /\
  (stopped b = false -> sent b = received b).
Proof.
  assert (HR : at_rest b).
  { revert Hb. unfold b_reachable. assert (H0 : at_rest (NewProposalBatcher DefaultBatchConfig)) by (split_and!; try done; by right).
    revert H0. generalize (NewProposalBatcher DefaultBatchConfig). intros b0 H0 Hr.
    induction Hr as [b0|b0 b1 b2 Hs _ IH]; [done|]. apply IH. by eapply b_step_rest. }
  destruct HR as (_ & ? & ? & ? & ? & Hsent). split_and!; try done. destruct Hsent; congruence.
Qed.

End batcher.

(** ** A concrete encoding and run *)

(** Each character is marked, each string ends with a semicolon. *)
Fixpoint writeChars (s : string) (rest : string) : string :=
  match s with "" => String ";" rest | String c s' => String "." (String c (writeChars s' rest)) end.

Fixpoint writeStrings (l : list string) : string :=
  match l with [] => "" | s :: l' => writeChars s (writeStrings l') end.

Fixpoint readStrings (s : string) (cur : string) : option (list string) :=
  match s with
  | "" => match cur with "" => Some [] | _ => None end
  | String m s1 =>
      if Ascii.eqb m ";" then cons cur <$> readStrings s1 ""
      else match s1 with String c s2 => readStrings s2 (cur +:+ String c "") | "" => None end
  end.

Lemma readStrings_chars s : forall cur rest,
  readStrings (writeChars s rest) cur = cons (cur +:+ s) <$> readStrings rest "".
Proof.
  induction s as [|c s IH]; intros cur rest; simpl; [by rewrite str_app_nil_r|].
  rewrite IH. by rewrite str_app_assoc.
Qed.

Lemma readStrings_write l : readStrings (writeStrings l) "" = Some l.
Proof. induction l as [|s l IH]; [done|]. simpl. rewrite readStrings_chars, IH. done. Qed.

#[global, refine] Instance markedJson : BatchJson := {
  json_marshal b := String (if IsBatch b then "T" else "F") (writeStrings (asText <$> Proposals b));
  json_unmarshal s :=
    match s with
    | String c rest =>
        if Ascii.eqb c "T" then mkBatchProposal true <$> readStrings rest ""
        else if Ascii.eqb c "F" then mkBatchProposal false <$> readStrings rest "" else None
    | "" => None
    end;
}.
Proof.
  - done.
  - intros [[] ps]; simpl; by rewrite readStrings_write.
Defined.

Definition twoAtATime : BatchConfig := mkBatchConfig 2 256 5000000 20000000 (f64_ratio 7 10).

Lemma batcher_keeps_order_witness :
  exists b, b_reachable twoAtATime b /\ received b = ["p"; "q"; "r"] /\ buffer b = ["r"] /\
    exists batches, Forall2 (fun data ps => DecodeBatch data = Ok ps) (sent b) (arrives <$> batches) /\
      concat batches ++ buffer b = ["p"; "q"; "r"].
Proof.
  set (b := onInput true (onInput true (onInput true (NewProposalBatcher twoAtATime) "p") "q") "r").
  assert (Hb : b_reachable twoAtATime b).
  { eapply rtc_l; [apply (bs_input true _ "p"); [reflexivity|discriminate]|].
    eapply rtc_l; [apply (bs_input true _ "q"); [reflexivity|discriminate]|].
    eapply rtc_l; [apply (bs_input true _ "r"); [reflexivity|discriminate]|]. apply rtc_refl. }
  destruct (batcher_keeps_order twoAtATime b Hb) as (decoded & Hd & Hr & _).
  - reflexivity.
  - repeat constructor; discriminate.
  - exists b. split; [exact Hb|]. split; [reflexivity|]. split; [reflexivity|].
    exists decoded. split; [exact Hd|exact Hr].
Defined.

Lemma batcher_never_adapts_witness :
  exists b, b_reachable DefaultBatchConfig b /\ sent b = ["p"; "q"] /\ currentBatchSize b = 1.
Proof.
  set (b := onTick true (onInput true (onInput true (NewProposalBatcher DefaultBatchConfig) "p") "q")).
  assert (Hb : b_reachable DefaultBatchConfig b).
  { eapply rtc_l; [apply (bs_input true _ "p"); [reflexivity|discriminate]|].
    eapply rtc_l; [apply (bs_input true _ "q"); [reflexivity|discriminate]|].
    eapply rtc_l; [apply (bs_tick true); [reflexivity|discriminate]|]. apply rtc_refl. }
  destruct (batcher_never_adapts b Hb) as (_ & Hsz & _).
  exists b. split; [exact Hb|]. split; [vm_compute; reflexivity|exact Hsz].
Defined.
