(* ===== verification/ByteDB.v ===== *)
(** * The database: the interface of [github.com/linxGnu/grocksdb]

    RocksDB is a C library.  [ByteDB] lists the calls the stores make and
    [ByteDBLaws] what they are documented to do: a map from byte strings to byte
    strings, batches that are written whole or not at all, and iterators in key
    order.  Any call may fail; a [healthy] database has no failure ahead.  [DB]
    is the state of the database together with that of its disk.  [MemDB] shows
    that the interface can be implemented. *)

From S2P Require Import Prelude GoBytes Revision OrderedTree.
Local Open Scope go_scope.

Inductive WriteOp := WPut (key value : string) | WDelete (key : string).

Inductive DbError : Set := IOError.

(** ** The interface *)

(** [db_get] gives the bytes of the slice, none if the key is absent; [db_seek]
    the pairs an iterator visits from a key on, and its [Err()]. *)
Class ByteDB (DB : Type) := {
  db_get : DB -> string -> result DbError string;
  db_write : DB -> list WriteOp -> DB * option DbError;
  db_seek : DB -> string -> list (string * string) * option DbError;
}.

(** [db.Put] and [db.Delete] are batches of one. *)
Definition db_put `{ByteDB DB} (d : DB) (key value : string) : DB * option DbError := db_write d [WPut key value].
Definition db_delete `{ByteDB DB} (d : DB) (key : string) : DB * option DbError := db_write d [WDelete key].

Definition apply_write (m : gmap string string) (w : WriteOp) : gmap string string :=
  match w with WPut k v => <[k := v]> m | WDelete k => delete k m end.

Definition apply_batch (batch : list WriteOp) (m : gmap string string) : gmap string string :=
  fold_left apply_write batch m.

(** The entries at or after [key], in order. *)
Definition entries_from (key : string) (m : gmap string string) : list (string * string) :=
  List.filter (fun p => negb (str_ltb p.1 key)) (sorted_entries m).

(** What a slice shows of an optional value: absent and empty look alike. *)
Definition bytes_at (m : gmap string string) (key : string) : string := default "" (m !! key).

(** [for it.Seek(prefix); it.ValidForPrefix(prefix); it.Next()], and [it.Err()] *)
Fixpoint validForPrefix (prefix : string) (l : list (string * string)) : list (string * string) :=
  match l with
  | p :: l' => if has_prefix prefix p.1 then p :: validForPrefix prefix l' else []
  | [] => []
  end.

Definition scan `{ByteDB DB} (d : DB) (prefix : string) : list (string * string) * option DbError :=
  let '(l, err) := db_seek d prefix in (validForPrefix prefix l, err).

Class ByteDBLaws (DB : Type) `{ByteDB DB} := {
  contents : DB -> gmap string string;
  healthy : DB -> Prop;
  db_get_ok d k v : db_get d k = Ok v -> v = bytes_at (contents d) k;
  db_get_healthy d k : healthy d -> db_get d k = Ok (bytes_at (contents d) k);
  db_write_ok d b d' : db_write d b = (d', None) -> contents d' = apply_batch b (contents d);
  db_write_failed d b d' e : db_write d b = (d', Some e) -> contents d' = contents d;
  db_write_healthy d b : healthy d -> (db_write d b).2 = None /\ healthy (db_write d b).1;
  db_seek_ok d k l : db_seek d k = (l, None) -> l = entries_from k (contents d);
  db_seek_healthy d k : healthy d -> db_seek d k = (entries_from k (contents d), None);
}.

(** ** Batches *)

Definition write_key (w : WriteOp) : string := match w with WPut k _ => k | WDelete k => k end.
Definition write_value (w : WriteOp) : option string := match w with WPut _ v => Some v | WDelete _ => None end.

(** The last write of a batch to a key decides. *)
Definition last_write (batch : list WriteOp) (key : string) : option WriteOp :=
  last_such (fun w => String.eqb (write_key w) key) batch.

Lemma apply_batch_app b1 b2 m : apply_batch (b1 ++ b2) m = apply_batch b2 (apply_batch b1 m).
Proof. apply fold_left_app. Qed.

Lemma apply_write_lookup m w key :
  apply_write m w !! key = if String.eqb (write_key w) key then write_value w else m !! key.
Proof.
  destruct w as [k v|k]; simpl; destruct (String.eqb_spec k key) as [->|Hne];
    by rewrite ?lookup_insert_eq, ?lookup_insert_ne, ?lookup_delete_eq, ?lookup_delete_ne.
Qed.

Lemma apply_batch_lookup batch m key :
  apply_batch batch m !! key =
    match last_write batch key with Some w => write_value w | None => m !! key end.
Proof.
  unfold last_write. induction batch as [|w batch IH] using rev_ind; [done|].
  rewrite apply_batch_app. cbn [apply_batch fold_left]. rewrite apply_write_lookup, last_such_app. simpl.
  by destruct (String.eqb (write_key w) key).
Qed.

Lemma last_write_None batch key : (forall w, w ∈ batch -> write_key w <> key) -> last_write batch key = None.
Proof.
  intros Hb. apply last_such_None, Forall_forall. intros w Hw. by apply String.eqb_neq, Hb.
Qed.

Lemma last_write_app b1 b2 key :
  last_write (b1 ++ b2) key = match last_write b2 key with Some w => Some w | None => last_write b1 key end.
Proof. apply last_such_app. Qed.

(** Deleting a list of keys. *)
Lemma apply_deletes keys m key :
  apply_batch (WDelete <$> keys) m !! key = if decide (key ∈ keys) then None else m !! key.
Proof.
  rewrite apply_batch_lookup. unfold last_write.
  destruct (last_such _ (WDelete <$> keys)) as [w|] eqn:E.
  - apply last_such_Some in E as [Hin Hk]. apply list_elem_of_fmap in Hin as (k & -> & Hin).
    simpl in Hk. apply String.eqb_eq in Hk as ->. simpl. by rewrite decide_True.
  - apply last_such_None in E. rewrite Forall_fmap, Forall_forall in E. rewrite decide_False; [done|].
    intros Hin. specialize (E _ Hin). simpl in E. by rewrite String.eqb_refl in E.
Qed.

(** ** Entries in order *)

Lemma elem_of_entries_from key m k v :
  (k, v) ∈ entries_from key m <-> m !! k = Some v /\ str_ltb k key = false.
Proof.
  unfold entries_from. rewrite list_elem_of_In, filter_In, <- list_elem_of_In. simpl.
  rewrite sorted_entries_perm, elem_of_map_to_list. by rewrite negb_true_iff.
Qed.

Lemma entries_from_sorted key m : StronglySorted (fun p q => str_ltb p.1 q.1 = true) (entries_from key m).
Proof.
  unfold entries_from. assert (Hs := sorted_entries_sorted m). induction Hs as [|p l Hs IH Hall]; simpl; [constructor|].
  destruct (negb (str_ltb p.1 key)); [|done]. constructor; [done|]. rewrite Forall_forall in Hall |- *.
  intros q Hq. apply Hall. by apply list_elem_of_In, filter_In in Hq as [?%list_elem_of_In _].
Qed.

(** The keys with a prefix stand together. *)
Lemma prefix_between p : forall k k',
  str_ltb k p = false -> str_ltb k' k = false -> has_prefix p k' = true -> has_prefix p k = true.
Proof.
  unfold str_ltb, has_prefix, String.ltb.
  induction p as [|c p IH]; intros k k' Hk Hk' Hp; [by destruct k|].
  destruct k as [|d k]; [done|]. destruct k' as [|c' k']; [done|]. cbn in Hp, Hk, Hk' |- *.
  destruct (ascii_dec c c') as [<-|]; [|done]. rewrite ascii_compare_val in Hk, Hk'.
  destruct (Z.compare_spec (byte_val d) (byte_val c)) as [Heq|Hlt|Hgt]; [|done|].
  - apply (f_equal byte_of) in Heq. rewrite !byte_of_val in Heq. subst d. rewrite Z.compare_refl in Hk'.
    destruct (ascii_dec c c) as [_|]; [|done]. by eapply IH.
  - rewrite (proj2 (Z.compare_lt_iff _ _) Hgt) in Hk'. done.
Qed.

Lemma prefix_ge p : forall k, has_prefix p k = true -> str_ltb k p = false.
Proof.
  unfold str_ltb, has_prefix, String.ltb. induction p as [|c p IH]; intros k Hp; [by destruct k|].
  destruct k as [|d k]; [done|]. cbn in Hp |- *. destruct (ascii_dec c d) as [<-|]; [|done].
  rewrite ascii_compare_val, Z.compare_refl. by apply IH.
Qed.

Lemma has_prefix_shorten p q : forall s, has_prefix (p +:+ q) s = true -> has_prefix p s = true.
Proof.
  unfold has_prefix. induction p as [|c p IH]; intros s; [by destruct s|].
  change (String c p +:+ q) with (String c (p +:+ q)). destruct s as [|d s]; [done|]. cbn. destruct (ascii_dec c d); [apply IH|done].
Qed.

Lemma validForPrefix_filter p l :
  StronglySorted (fun x y => str_ltb x.1 y.1 = true) l -> Forall (fun x => str_ltb x.1 p = false) l ->
  validForPrefix p l = List.filter (fun x => has_prefix p x.1) l.
Proof.
  induction 1 as [|x l Hs IH Hall]; intros Hge; [done|]. apply Forall_cons in Hge as [Hx Hge]. simpl.
  destruct (has_prefix p x.1) eqn:E; [by rewrite IH|]. symmetry.
  assert (Hno : Forall (fun y => has_prefix p y.1 = false) l).
  { rewrite Forall_forall in Hall |- *. intros y Hy. destruct (has_prefix p y.1) eqn:Ey; [|done].
    rewrite <- E. symmetry. apply (prefix_between p x.1 y.1); [done| |done]. specialize (Hall y Hy). cbn in Hall.
    destruct (str_ltb y.1 x.1) eqn:Eyx; [|done]. pose proof (str_ltb_trans _ _ _ Hall Eyx) as Hc. by rewrite str_ltb_irrefl in Hc. }
  clear -Hno. induction Hno as [|y l Hy _ IH]; [done|]. simpl. by rewrite Hy.
Qed.

Lemma sorted_filter {A} (R : A -> A -> Prop) f (l : list A) : StronglySorted R l -> StronglySorted R (List.filter f l).
Proof.
  induction 1 as [|x l _ IH Hall]; simpl; [constructor|]. destruct (f x); [|done]. constructor; [done|].
  rewrite Forall_forall in Hall |- *. intros y Hy. apply Hall. by apply list_elem_of_In, filter_In in Hy as [?%list_elem_of_In _].
Qed.

Lemma sorted_take {A} (R : A -> A -> Prop) n (l : list A) : StronglySorted R l -> StronglySorted R (take n l).
Proof.
  intros Hs. revert n. induction Hs as [|x l _ IH Hf]; intros [|n]; cbn; try constructor; [done|].
  by apply Forall_take.
Qed.

Lemma sorted_weaken {A} (R S : A -> A -> Prop) (l : list A) :
  (forall x y, R x y -> S x y) -> StronglySorted R l -> StronglySorted S l.
Proof.
  intros HRS. induction 1 as [|x l _ IH Hf]; constructor; [done|]. eapply Forall_impl; [exact Hf|]. cbn. auto.
Qed.

(** A scan of a prefix visits the keys that have it, in order. *)
Lemma scan_spec `{ByteDBLaws DB} (d : DB) p :
  healthy d ->
  exists l, scan d p = (l, None) /\ StronglySorted (fun x y => str_ltb x.1 y.1 = true) l /\
    forall k v, (k, v) ∈ l <-> contents d !! k = Some v /\ has_prefix p k = true.
Proof.
  intros Hh. exists (validForPrefix p (entries_from p (contents d))). unfold scan. rewrite db_seek_healthy by done.
  split; [done|]. rewrite validForPrefix_filter; [|apply entries_from_sorted|].
  - split; [apply sorted_filter, entries_from_sorted|]. intros k v.
    rewrite list_elem_of_In, filter_In, <- list_elem_of_In, elem_of_entries_from. simpl.
    split; [naive_solver|]. intros [? Hp]. split_and!; [done|by apply prefix_ge|done].
  - apply Forall_forall. intros [k v] Hin. by apply elem_of_entries_from in Hin as [_ ?].
Qed.

(** ** An implementation *)

(** A map, the outcomes of the writes to come, and the keys that cannot be read. *)
Record MemDB := mkMemDB { md_data : gmap string string; md_faults : list bool; md_bad : list string }.

#[global] Instance memdb : ByteDB MemDB := {
  db_get d k := if bool_decide (k ∈ md_bad d) then Err IOError else Ok (bytes_at (md_data d) k);
  db_write d b :=
    match md_faults d with
    | true :: faults => (mkMemDB (md_data d) faults (md_bad d), Some IOError)
    | faults => (mkMemDB (apply_batch b (md_data d)) (tail faults) (md_bad d), None)
    end;
  db_seek d k := (entries_from k (md_data d), None);
}.

#[global, refine] Instance memdb_laws : ByteDBLaws MemDB := {
  contents := md_data;
  healthy d := Forall (fun b => b = false) (md_faults d) /\ md_bad d = [];
}.
Proof.
  - intros d k v. simpl. case_bool_decide; [done|]. by intros [= <-].
  - intros d k [_ Hb]. simpl. by rewrite Hb.
  - intros [data [|[] faults] bad] b d'; simpl; by intros [= <-].
  - intros [data [|[] faults] bad] b d' e; simpl; by intros [= <- _].
  - intros [data [|[] faults] bad] b [Hf Hb]; simpl in *; [done|by apply Forall_cons in Hf as [? _]|].
    by apply Forall_cons in Hf as [_ Hf].
  - by intros d k l [= <-].
  - done.
Defined.

Definition emptyDB : MemDB := mkMemDB ∅ [] [].
