(* ===== verification/RaftLog.v ===== *)
(** * The Raft log on RocksDB ([internal/rocksdb/raftlog.go])

    [RocksDBStorage] is the stable storage of the Raft library: log entries, hard
    state, configuration and the last snapshot, kept in one database under keys
    that start with the node's name, with the first and last index cached.  Every
    method holds the lock, so it is one step.  The messages and their encoding are
    generated code of the Raft library: [RaftWire] is one message type.  Indexes
    and terms are [uint64]. *)

From S2P Require Import Prelude GoBytes Revision OrderedTree ByteDB.
Local Open Scope go_scope.

(** ** Messages of [raftpb] *)

(** [Marshal], [Unmarshal] and [Size]; a message never has an empty encoding,
    because its required fields are always written. *)
Class RaftWire (A : Type) := {
  rw_marshal : A -> option string;
  rw_unmarshal : string -> option A;
  rw_size : A -> Z;
  rw_roundtrip a d : rw_marshal a = Some d -> rw_unmarshal d = Some a;
  rw_nonempty a d : rw_marshal a = Some d -> d <> "";
  rw_size_length a d : rw_marshal a = Some d -> rw_size a = str_len d;
}.

Record Entry := mkEntry { e_Term : Z; e_Index : Z; e_Type : Z; e_Data : string }.

Record HardState := mkHardState { hs_Term : Z; hs_Vote : Z; hs_Commit : Z }.

Record ConfState := mkConfState {
  cs_Voters : list Z; cs_Learners : list Z; cs_VotersOutgoing : list Z; cs_LearnersNext : list Z; cs_AutoLeave : bool;
}.

Record Snapshot := mkSnapshot { sn_Data : string; sn_ConfState : ConfState; sn_Index : Z; sn_Term : Z }.

Definition emptyHardState : HardState := mkHardState 0 0 0.
Definition emptyConfState : ConfState := mkConfState [] [] [] [] false.
Definition emptySnapshot : Snapshot := mkSnapshot "" emptyConfState 0 0.

(** [raft.IsEmptySnap] *)
Definition IsEmptySnap (sp : Snapshot) : bool := sn_Index sp =? 0.

Inductive StorageError :=
  | ErrCompacted | ErrUnavailable | ErrSnapOutOfDate
  | ErrInvalidRange (lo hi : Z)
  | ErrSnapAhead (index last : Z)
  | ErrCompactAhead (index last : Z)
  | ErrEntryNotFound (index : Z)
  | ErrIndexNotFound
  | ErrShortBuffer
  | ErrUnmarshal
  | ErrMarshal
  | ErrDb.

(** ** Keys *)

Definition raftLogPrefix : string := "raft_log_".
Definition hardStateKey : string := "hard_state".
Definition confStateKey : string := "conf_state".
Definition snapshotKey : string := "snapshot_meta".
Definition firstIndexKey : string := "first_index".
Definition lastIndexKey : string := "last_index".

Definition prefixedKey (nodeID key : string) : string := nodeID +:+ "_" +:+ key.

Definition logKey (nodeID : string) (index : Z) : string :=
  prefixedKey nodeID raftLogPrefix +:+ "_" +:+ put_be 8 index.

Definition binaryReadUint64BigEndian (b : string) : result StorageError Z :=
  fail_if str_len b <? 8 with ErrShortBuffer;
  Ok (get_be (str_take 8 b)).

(** [lo, lo+1, ...]: the values of a loop variable. *)
Definition indexes (lo : Z) (n : nat) : list Z := (fun i => lo + Z.of_nat i) <$> seq 0 n.

(** [for i := lo; i < hi; i++] *)
Definition indexes_to (lo hi : Z) : list Z := indexes lo (Z.to_nat (hi - lo)).

(** ** The storage *)

Section storage.
Context {DB : Type} `{!ByteDB DB, !RaftWire Entry, !RaftWire HardState, !RaftWire ConfState, !RaftWire Snapshot}.

Record RocksDBStorage := mkStorage { db : DB; nodeID : string; firstIndex : Z; lastIndex : Z }.

Definition setDb (s : RocksDBStorage) (d : DB) : RocksDBStorage := mkStorage d (nodeID s) (firstIndex s) (lastIndex s).
Definition setFirst (s : RocksDBStorage) (i : Z) : RocksDBStorage := mkStorage (db s) (nodeID s) i (lastIndex s).
Definition setLast (s : RocksDBStorage) (i : Z) : RocksDBStorage := mkStorage (db s) (nodeID s) (firstIndex s) i.

(** [db.Get], with its failure in this file's error type *)
Definition get (s : RocksDBStorage) (key : string) : result StorageError string :=
  match db_get (db s) key with Ok v => Ok v | Err _ => Err ErrDb end.

(** [db.Write] *)
Definition write (s : RocksDBStorage) (batch : list WriteOp) : RocksDBStorage * option StorageError :=
  let '(d, err) := db_write (db s) batch in
  (setDb s d, match err with Some _ => Some ErrDb | None => None end).

Definition marshal {A} `{!RaftWire A} (a : A) : result StorageError string :=
  match rw_marshal a with Some d => Ok d | None => Err ErrMarshal end.

Definition unmarshal {A} `{!RaftWire A} (d : string) : result StorageError A :=
  match rw_unmarshal d with Some a => Ok a | None => Err ErrUnmarshal end.

Definition getIndexUnsafe (s : RocksDBStorage) (key : string) : result StorageError Z :=
  data <-! get s (prefixedKey (nodeID s) key);
  fail_if String.eqb data "" with ErrIndexNotFound;
  binaryReadUint64BigEndian data.

Definition getFirstIndexUnsafe (s : RocksDBStorage) : result StorageError Z := getIndexUnsafe s firstIndexKey.
Definition getLastIndexUnsafe (s : RocksDBStorage) : result StorageError Z := getIndexUnsafe s lastIndexKey.

Definition putFirst (s : RocksDBStorage) (index : Z) : WriteOp :=
  WPut (prefixedKey (nodeID s) firstIndexKey) (put_be 8 index).
Definition putLast (s : RocksDBStorage) (index : Z) : WriteOp :=
  WPut (prefixedKey (nodeID s) lastIndexKey) (put_be 8 index).

Definition setFirstIndexUnsafe (s : RocksDBStorage) (index : Z) := write s [putFirst s index].
Definition setLastIndexUnsafe (s : RocksDBStorage) (index : Z) := write s [putLast s index].
Definition setFirstIndexWithWB (s : RocksDBStorage) (wb : list WriteOp) (index : Z) := wb ++ [putFirst s index].
Definition setLastIndexWithWB (s : RocksDBStorage) (wb : list WriteOp) (index : Z) := wb ++ [putLast s index].

(** One of the two halves of [NewRocksDBStorage]: any error of the read counts
    as a missing index. *)
Definition loadIndex (s : RocksDBStorage) (r : result StorageError Z) (init : Z)
    (save : RocksDBStorage -> Z -> RocksDBStorage * option StorageError) : result StorageError (RocksDBStorage * Z) :=
  match r with
  | Ok index => Ok (s, index)
  | Err _ =>
      match save s init with
      | (s', None) => Ok (s', init)
      | (_, Some e) => Err e
      end
  end.

Definition NewRocksDBStorage (d : DB) (node : string) : result StorageError RocksDBStorage :=
  let s0 := mkStorage d node 0 0 in
  p <-! loadIndex s0 (getFirstIndexUnsafe s0) 1 setFirstIndexUnsafe;
  let s1 := setFirst p.1 p.2 in
  q <-! loadIndex s1 (getLastIndexUnsafe s1) (wrap_u64 (p.2 - 1)) setLastIndexUnsafe;
  Ok (setLast q.1 q.2).

(** ** Reading *)

Definition decodeOr {A} `{!RaftWire A} (zero : A) (data : string) : result StorageError A :=
  if String.eqb data "" then Ok zero else unmarshal data.

Definition InitialState (s : RocksDBStorage) : result StorageError (HardState * ConfState) :=
  hsData <-! get s (prefixedKey (nodeID s) hardStateKey);
  hardState <-! decodeOr emptyHardState hsData;
  csData <-! get s (prefixedKey (nodeID s) confStateKey);
  confState <-! decodeOr emptyConfState csData;
  Ok (hardState, confState).

(** The loop of [Entries], from the entries collected and their size. *)
Fixpoint entriesLoop (s : RocksDBStorage) (maxSize : Z) (idxs : list Z) (ents : list Entry) (size : Z) :
    result StorageError (list Entry) :=
  match idxs with
  | [] => Ok ents
  | i :: idxs' =>
      data <-! get s (logKey (nodeID s) i);
      fail_if String.eqb data "" with ErrUnavailable;
      ent <-! unmarshal data;
      let entSize := rw_size ent in
      if (size >? 0) && (wrap_u64 (size + entSize) >? maxSize) then Ok ents
      else entriesLoop s maxSize idxs' (ents ++ [ent]) (wrap_u64 (size + entSize))
  end.

Definition Entries (s : RocksDBStorage) (lo hi maxSize : Z) : result StorageError (list Entry) :=
  fail_if lo >? hi with (ErrInvalidRange lo hi);
  fail_if lo <? firstIndex s with ErrCompacted;
  fail_if hi >? wrap_u64 (lastIndex s + 1) with ErrUnavailable;
  if lo =? hi then Ok [] else entriesLoop s maxSize (indexes_to lo hi) [] 0.

Definition loadSnapshotUnsafe (s : RocksDBStorage) : result StorageError Snapshot :=
  snapData <-! get s (prefixedKey (nodeID s) snapshotKey);
  if String.eqb snapData "" then Ok (mkSnapshot "" emptyConfState (wrap_u64 (firstIndex s - 1)) 0)
  else unmarshal snapData.

(** The entry at [index], with the error of an empty slice. *)
Definition loadEntry (s : RocksDBStorage) (index : Z) (missing : StorageError) : result StorageError Entry :=
  data <-! get s (logKey (nodeID s) index);
  fail_if String.eqb data "" with missing;
  unmarshal data.

Definition Term (s : RocksDBStorage) (index : Z) : result StorageError Z :=
  fail_if index <? wrap_u64 (firstIndex s - 1) with ErrCompacted;
  fail_if index >? lastIndex s with ErrUnavailable;
  if index =? wrap_u64 (firstIndex s - 1) then
    snap <-! loadSnapshotUnsafe s;
    if negb (IsEmptySnap snap) && (sn_Index snap =? index) then Ok (sn_Term snap)
    else if index =? 0 then Ok 0
    else Err ErrCompacted
  else
    ent <-! loadEntry s index ErrUnavailable;
    Ok (e_Term ent).

Definition LastIndex (s : RocksDBStorage) : Z := lastIndex s.
Definition FirstIndex (s : RocksDBStorage) : Z := firstIndex s.
Definition Snapshot_ (s : RocksDBStorage) : result StorageError Snapshot := loadSnapshotUnsafe s.

(** ** Writing *)

(** The entries of a batch, encoded. *)
Fixpoint putEntries (node : string) (entries : list Entry) : result StorageError (list WriteOp) :=
  match entries with
  | [] => Ok []
  | ent :: entries' =>
      data <-! marshal ent;
      wb <-! putEntries node entries';
      Ok (WPut (logKey node (e_Index ent)) data :: wb)
  end.

(** [wb.Delete(s.logKey(i))] over some indexes *)
Definition deleteEntries (node : string) (idxs : list Z) : list WriteOp := (fun i => WDelete (logKey node i)) <$> idxs.

(** The cached indexes move before the batch is written. *)
Definition Append (s : RocksDBStorage) (entries : list Entry) : RocksDBStorage * option StorageError :=
  match entries, last entries with
  | e0 :: _, Some en =>
      let first := e_Index e0 in
      let last := e_Index en in
      let wb0 :=
        if first <=? lastIndex s
        then deleteEntries (nodeID s) (indexes_to first (lastIndex s + 1)) else [] in
      match putEntries (nodeID s) entries with
      | Err e => (s, Some e)
      | Ok puts =>
          let wb1 := wb0 ++ puts in
          let '(s1, wb2) :=
            if last >? lastIndex s then (setLast s last, setLastIndexWithWB s wb1 last) else (s, wb1) in
          let '(s2, wb3) :=
            if firstIndex s1 >? lastIndex s1 then (setFirst s1 first, setFirstIndexWithWB s1 wb2 first) else (s1, wb2) in
          write s2 wb3
      end
  | _, _ => (s, None)
  end.

Definition saveMessage {A} `{!RaftWire A} (s : RocksDBStorage) (key : string) (a : A) :
    RocksDBStorage * option StorageError :=
  match marshal a with
  | Err e => (s, Some e)
  | Ok data => write s [WPut (prefixedKey (nodeID s) key) data]
  end.

Definition SetHardState (s : RocksDBStorage) (st : HardState) := saveMessage s hardStateKey st.
Definition SetConfState (s : RocksDBStorage) (cs : ConfState) := saveMessage s confStateKey cs.

(** The term [CreateSnapshot] finds for its index. *)
Definition snapshotTerm (s : RocksDBStorage) (index : Z) : result StorageError Z :=
  if index =? wrap_u64 (firstIndex s - 1) then
    snap <-! loadSnapshotUnsafe s;
    Ok (if negb (IsEmptySnap snap) then sn_Term snap else 0)
  else
    ent <-! loadEntry s index (ErrEntryNotFound index);
    Ok (e_Term ent).

Definition CreateSnapshot (s : RocksDBStorage) (index : Z) (cs : ConfState) (data : string) :
    RocksDBStorage * result StorageError Snapshot :=
  if index <? wrap_u64 (firstIndex s - 1) then (s, Err ErrSnapOutOfDate)
  else if index >? lastIndex s then (s, Err (ErrSnapAhead index (lastIndex s)))
  else
    match snapshotTerm s index with
    | Err e => (s, Err e)
    | Ok term =>
        let snapshot := mkSnapshot data cs index term in
        match saveMessage s snapshotKey snapshot with
        | (s', Some e) => (s', Err e)
        | (s', None) => (s', Ok snapshot)
        end
    end.

Definition ApplySnapshot (s : RocksDBStorage) (snap : Snapshot) : RocksDBStorage * option StorageError :=
  if IsEmptySnap snap then (s, None)
  else
    let index := sn_Index snap in
    if index <=? wrap_u64 (firstIndex s - 1) then (s, Some ErrSnapOutOfDate)
    else
      match marshal snap with
      | Err e => (s, Some e)
      | Ok snapData =>
          let wb0 := [WPut (prefixedKey (nodeID s) snapshotKey) snapData] in
          let wb1 := wb0 ++ deleteEntries (nodeID s) (indexes_to (firstIndex s) (Z.min index (lastIndex s) + 1)) in
          let newFirstIndex := wrap_u64 (index + 1) in
          let wb2 := setFirstIndexWithWB s wb1 newFirstIndex in
          let '(s1, wb3) :=
            if index >? lastIndex s then (setLast s index, setLastIndexWithWB s wb2 index) else (s, wb2) in
          match marshal (sn_ConfState snap) with
          | Err e => (s1, Some e)
          | Ok csData =>
              match write s1 (wb3 ++ [WPut (prefixedKey (nodeID s) confStateKey) csData]) with
              | (s2, Some e) => (s2, Some e)
              | (s2, None) => (setFirst s2 newFirstIndex, None)
              end
          end
      end.

Definition Compact (s : RocksDBStorage) (compactIndex : Z) : RocksDBStorage * option StorageError :=
  if compactIndex <=? firstIndex s then (s, Some ErrCompacted)
  else if compactIndex >? lastIndex s then (s, Some (ErrCompactAhead compactIndex (lastIndex s)))
  else
    let wb := deleteEntries (nodeID s) (indexes_to (firstIndex s) compactIndex) in
    match write s (setFirstIndexWithWB s wb compactIndex) with
    | (s', Some e) => (s', Some e)
    | (s', None) => (setFirst s' compactIndex, None)
    end.

End storage.

Arguments RocksDBStorage : clear implicits.
