(* ===== verification/RaftLogRefine.v ===== *)
(** * What the Raft log promises, and that the one on RocksDB implements it

    The abstract log is the list of entries behind an offset with the last
    snapshot and the saved states.  [Persisted] says which database holds a log,
    [Rep] adds the cached indexes.  The operations of [RLog] are those the Raft
    library documents for [raft.Storage], with the errors of this
    implementation.  Then: the keys of a node do not clash; what each batch does
    to the database; one lemma per method. *)

From S2P Require Import Prelude GoBytes Revision OrderedTree ByteDB RaftLog.
Local Open Scope go_scope.

Record RLog := mkRLog {
  rl_off : Z;  (** the index before the first entry *)
  rl_ents : list Entry;
  rl_snap : option Snapshot;
  rl_hard : option HardState;
  rl_conf : option ConfState;
}.

Definition rl_init : RLog := mkRLog 0 [] None None None.

Definition rl_last (a : RLog) : Z := rl_off a + Z.of_nat (length (rl_ents a)).

(** The entry at an index. *)
Definition rl_entry (a : RLog) (index : Z) : option Entry :=
  if rl_off a <? index then rl_ents a !! Z.to_nat (index - rl_off a - 1) else None.

(** [n] consecutive entries from [lo]. *)
Definition rl_slice (a : RLog) (lo hi : Z) : list Entry :=
  take (Z.to_nat (hi - lo)) (drop (Z.to_nat (lo - rl_off a - 1)) (rl_ents a)).

Definition rl_snapshot (a : RLog) : Snapshot := default (mkSnapshot "" emptyConfState (rl_off a) 0) (rl_snap a).

(** The entries have the indexes of their places. *)
Definition numbered (first : Z) (es : list Entry) : Prop :=
  forall i e, es !! i = Some e -> e_Index e = first + Z.of_nat i.

Record wf_log (a : RLog) : Prop := {
  wl_off : 0 <= rl_off a;
  wl_last : rl_last a + 1 < 2 ^ 64;
  wl_index : numbered (rl_off a + 1) (rl_ents a);
}.

(** ** Operations *)

Inductive Cmd :=
  | CAppend (es : list Entry)
  | CSetHardState (st : HardState)
  | CSetConfState (cs : ConfState)
  | CCreateSnapshot (index : Z) (cs : ConfState) (data : string)
  | CApplySnapshot (snap : Snapshot)
  | CCompact (index : Z)
  | CEntries (lo hi maxSize : Z)
  | CTerm (index : Z)
  | CFirstIndex | CLastIndex | CSnapshot | CInitialState
  (** the process ends and [NewRocksDBStorage] opens the database again *)
  | CReopen.

Inductive Resp :=
  | RErr (e : StorageError)
  | RDone
  | RIndex (i : Z)
  | REntries (es : list Entry)
  | RSnapshot (snap : Snapshot)
  | RState (st : HardState) (cs : ConfState).

Section spec.
Context `{!RaftWire Entry}.

(** The longest run of entries of at most [maxSize] bytes, but at least one. *)
Fixpoint limitFrom (maxSize size : Z) (es : list Entry) : list Entry :=
  match es with
  | [] => []
  | e :: es' =>
      if (size >? 0) && (size + rw_size e >? maxSize) then []
      else e :: limitFrom maxSize (size + rw_size e) es'
  end.

Definition totalSize (es : list Entry) : Z := foldr (fun e n => rw_size e + n) 0 es.

Definition rl_entries (a : RLog) (lo hi maxSize : Z) : result StorageError (list Entry) :=
  fail_if lo >? hi with (ErrInvalidRange lo hi);
  fail_if lo <=? rl_off a with ErrCompacted;
  fail_if hi >? rl_last a + 1 with ErrUnavailable;
  Ok (limitFrom maxSize 0 (rl_slice a lo hi)).

(** The term at the offset is that of the snapshot taken there. *)
Definition rl_boundaryTerm (a : RLog) : option Z :=
  if rl_off a =? 0 then Some 0
  else match rl_snap a with
       | None => Some 0
       | Some sn => if sn_Index sn =? rl_off a then Some (sn_Term sn) else None
       end.

Definition rl_term (a : RLog) (index : Z) : result StorageError Z :=
  fail_if index <? rl_off a with ErrCompacted;
  fail_if index >? rl_last a with ErrUnavailable;
  if index =? rl_off a then match rl_boundaryTerm a with Some t => Ok t | None => Err ErrCompacted end
  else match rl_entry a index with Some e => Ok (e_Term e) | None => Err ErrUnavailable end.

(** Entries from the first new index on are replaced. *)
Definition rl_append (a : RLog) (es : list Entry) : RLog :=
  match es with
  | [] => a
  | e0 :: _ =>
      mkRLog (rl_off a) (take (Z.to_nat (e_Index e0 - rl_off a - 1)) (rl_ents a) ++ es)
        (rl_snap a) (rl_hard a) (rl_conf a)
  end.

Definition rl_compact (a : RLog) (index : Z) : RLog * Resp :=
  if index <=? rl_off a + 1 then (a, RErr ErrCompacted)
  else if index >? rl_last a then (a, RErr (ErrCompactAhead index (rl_last a)))
  else (mkRLog (index - 1) (drop (Z.to_nat (index - 1 - rl_off a)) (rl_ents a)) (rl_snap a) (rl_hard a) (rl_conf a),
        RDone).

Definition rl_applySnapshot (a : RLog) (sn : Snapshot) : RLog * Resp :=
  if sn_Index sn =? 0 then (a, RDone)
  else if sn_Index sn <=? rl_off a then (a, RErr ErrSnapOutOfDate)
  else (mkRLog (sn_Index sn) (drop (Z.to_nat (sn_Index sn - rl_off a)) (rl_ents a)) (Some sn) (rl_hard a)
          (Some (sn_ConfState sn)), RDone).

(** The term a new snapshot gets. *)
Definition rl_snapshotTerm (a : RLog) (index : Z) : Z :=
  if index =? rl_off a then match rl_snap a with Some sn => if sn_Index sn =? 0 then 0 else sn_Term sn | None => 0 end
  else match rl_entry a index with Some e => e_Term e | None => 0 end.

Definition rl_createSnapshot (a : RLog) (index : Z) (cs : ConfState) (data : string) : RLog * Resp :=
  if index <? rl_off a then (a, RErr ErrSnapOutOfDate)
  else if index >? rl_last a then (a, RErr (ErrSnapAhead index (rl_last a)))
  else
    let sn := mkSnapshot data cs index (rl_snapshotTerm a index) in
    (mkRLog (rl_off a) (rl_ents a) (Some sn) (rl_hard a) (rl_conf a), RSnapshot sn).

Definition answer {A} (f : A -> Resp) (r : result StorageError A) : Resp :=
  match r with Ok x => f x | Err e => RErr e end.

Definition rl_step (a : RLog) (c : Cmd) : RLog * Resp :=
  match c with
  | CAppend es => (rl_append a es, RDone)
  | CSetHardState st => (mkRLog (rl_off a) (rl_ents a) (rl_snap a) (Some st) (rl_conf a), RDone)
  | CSetConfState cs => (mkRLog (rl_off a) (rl_ents a) (rl_snap a) (rl_hard a) (Some cs), RDone)
  | CCreateSnapshot index cs data => rl_createSnapshot a index cs data
  | CApplySnapshot sn => rl_applySnapshot a sn
  | CCompact index => rl_compact a index
  | CEntries lo hi maxSize => (a, answer REntries (rl_entries a lo hi maxSize))
  | CTerm index => (a, answer RIndex (rl_term a index))
  | CFirstIndex => (a, RIndex (rl_off a + 1))
  | CLastIndex => (a, RIndex (rl_last a))
  | CSnapshot => (a, RSnapshot (rl_snapshot a))
  | CInitialState => (a, RState (default emptyHardState (rl_hard a)) (default emptyConfState (rl_conf a)))
  | CReopen => (a, RDone)
  end.

End spec.

(** ** The code as a step function *)

Section code.
Context {DB : Type} `{!ByteDB DB, !RaftWire Entry, !RaftWire HardState, !RaftWire ConfState, !RaftWire Snapshot}.

Definition done (p : RocksDBStorage DB * option StorageError) : RocksDBStorage DB * Resp :=
  (p.1, match p.2 with Some e => RErr e | None => RDone end).

Definition step (s : RocksDBStorage DB) (c : Cmd) : RocksDBStorage DB * Resp :=
  match c with
  | CAppend es => done (Append s es)
  | CSetHardState st => done (SetHardState s st)
  | CSetConfState cs => done (SetConfState s cs)
  | CCreateSnapshot index cs data =>
      let '(s', r) := CreateSnapshot s index cs data in (s', answer RSnapshot r)
  | CApplySnapshot sn => done (ApplySnapshot s sn)
  | CCompact index => done (Compact s index)
  | CEntries lo hi maxSize => (s, answer REntries (Entries s lo hi maxSize))
  | CTerm index => (s, answer RIndex (Term s index))
  | CFirstIndex => (s, RIndex (FirstIndex s))
  | CLastIndex => (s, RIndex (LastIndex s))
  | CSnapshot => (s, answer RSnapshot (Snapshot_ s))
  | CInitialState => (s, answer (fun p => RState p.1 p.2) (InitialState s))
  | CReopen =>
      match NewRocksDBStorage (db s) (nodeID s) with
      | Ok s' => (s', RDone)
      | Err e => (s, RErr e)
      end
  end.

Fixpoint run (s : RocksDBStorage DB) (cs : list Cmd) : RocksDBStorage DB * list Resp :=
  match cs with
  | [] => (s, [])
  | c :: cs' => let '(s1, r) := step s c in let '(s2, rs) := run s1 cs' in (s2, r :: rs)
  end.

End code.

Fixpoint rl_run `{!RaftWire Entry} (a : RLog) (cs : list Cmd) : RLog * list Resp :=
  match cs with
  | [] => (a, [])
  | c :: cs' => let '(a1, r) := rl_step a c in let '(a2, rs) := rl_run a1 cs' in (a2, r :: rs)
  end.

(** ** What callers may ask *)

Section domain.
Context `{!RaftWire Entry, !RaftWire HardState, !RaftWire ConfState, !RaftWire Snapshot}.

Definition encodes {A} `{!RaftWire A} (a : A) : Prop := is_Some (rw_marshal a).

(** New entries continue the log or replace its end, and do not shorten it. *)
Definition appendOk (a : RLog) (es : list Entry) : Prop :=
  match es with
  | [] => True
  | e0 :: _ =>
      numbered (e_Index e0) es /\ Forall encodes es /\
      rl_off a + 1 <= e_Index e0 <= rl_last a + 1 /\
      rl_last a < e_Index e0 + Z.of_nat (length es) /\ e_Index e0 + Z.of_nat (length es) < 2 ^ 64
  end.

Definition cmdOk (a : RLog) (c : Cmd) : Prop :=
  match c with
  | CAppend es => appendOk a es
  | CSetHardState st => encodes st
  | CSetConfState cs => encodes cs
  | CCreateSnapshot index cs data => encodes (mkSnapshot data cs index (rl_snapshotTerm a index))
  | CApplySnapshot sn => encodes sn /\ encodes (sn_ConfState sn) /\ 0 <= sn_Index sn /\ sn_Index sn + 1 < 2 ^ 64
  | CEntries lo hi _ => totalSize (rl_slice a lo hi) < 2 ^ 64
  | _ => True
  end.

Fixpoint traceOk (a : RLog) (cs : list Cmd) : Prop :=
  match cs with
  | [] => True
  | c :: cs' => cmdOk a c /\ traceOk (rl_step a c).1 cs'
  end.

(** ** Which database holds a log *)

(** The bytes under a key hold an optional message. *)
Definition holds {A} `{!RaftWire A} (m : gmap string string) (key : string) (o : option A) : Prop :=
  match o with
  | Some a => rw_marshal a = Some (bytes_at m key)
  | None => bytes_at m key = ""
  end.

Record Persisted (node : string) (m : gmap string string) (a : RLog) : Prop := {
  P_first : bytes_at m (prefixedKey node firstIndexKey) = put_be 8 (rl_off a + 1);
  P_last : bytes_at m (prefixedKey node lastIndexKey) = put_be 8 (rl_last a);
  P_ents i e : rl_ents a !! i = Some e -> holds m (logKey node (rl_off a + 1 + Z.of_nat i)) (Some e);
  P_snap : holds m (prefixedKey node snapshotKey) (rl_snap a);
  P_hard : holds m (prefixedKey node hardStateKey) (rl_hard a);
  P_conf : holds m (prefixedKey node confStateKey) (rl_conf a);
}.

Context {DB : Type} `{!ByteDB DB, !ByteDBLaws DB}.

Record Rep (s : RocksDBStorage DB) (a : RLog) : Prop := {
  Rep_wf : wf_log a;
  Rep_db : Persisted (nodeID s) (contents (db s)) a;
  Rep_first : firstIndex s = rl_off a + 1;
  Rep_last : lastIndex s = rl_last a;
}.

End domain.

(** ** Keys *)

(** The keys a node uses. *)
Inductive LKey := KLog (i : Z) | KHard | KConf | KSnap | KFirst | KLast.

#[global] Instance LKey_eq_dec : EqDecision LKey.
Proof. solve_decision. Defined.

Definition suffix (k : LKey) : string :=
  match k with
  | KLog i => raftLogPrefix +:+ "_" +:+ put_be 8 i
  | KHard => hardStateKey | KConf => confStateKey | KSnap => snapshotKey
  | KFirst => firstIndexKey | KLast => lastIndexKey
  end.

Definition lkey (node : string) (k : LKey) : string := prefixedKey node (suffix k).

Definition lkey_ok (k : LKey) : Prop := match k with KLog i => is_u64 i | _ => True end.

Lemma logKey_lkey node i : logKey node i = lkey node (KLog i).
Proof. unfold logKey, lkey, prefixedKey. by rewrite !str_app_assoc. Qed.

Lemma put_be_inj i j : is_u64 i -> is_u64 j -> put_be 8 i = put_be 8 j -> i = j.
Proof.
  unfold is_u64. intros Hi Hj He. apply (f_equal get_be) in He. rewrite !get_put_be in He.
  rewrite !Z.mod_small in He by (simpl; lia). done.
Qed.

Lemma suffix_inj k k' : lkey_ok k -> lkey_ok k' -> suffix k = suffix k' -> k = k'.
Proof.
  destruct k as [i| | | | |], k' as [j| | | | |]; intros Hk Hk' He; try done;
    cbv [suffix raftLogPrefix hardStateKey confStateKey snapshotKey firstIndexKey lastIndexKey] in He;
    simpl in He; try discriminate.
  f_equal. apply put_be_inj; [done..|].
  by apply str_app_inj_l in He as [_ [_ ?]%str_app_inj_l].
Qed.

Lemma lkey_inj node k k' : lkey_ok k -> lkey_ok k' -> lkey node k = lkey node k' -> k = k'.
Proof.
  intros Hk Hk' He. apply suffix_inj; [done..|]. unfold lkey, prefixedKey in He.
  by apply str_app_inj_l in He as [_ [_ ?]%str_app_inj_l].
Qed.

Lemma lkey_eqb node k k' :
  lkey_ok k -> lkey_ok k' -> String.eqb (lkey node k) (lkey node k') = bool_decide (k = k').
Proof.
  intros Hk Hk'. destruct (String.eqb_spec (lkey node k) (lkey node k')) as [He|Hne]; symmetry.
  - by apply bool_decide_eq_true, (lkey_inj node).
  - apply bool_decide_eq_false. by intros ->.
Qed.

(** ** Loop indexes *)

Lemma elem_of_indexes_to lo hi i : i ∈ indexes_to lo hi <-> lo <= i < hi.
Proof.
  unfold indexes_to, indexes. rewrite list_elem_of_fmap. setoid_rewrite elem_of_seq. split.
  - intros (n & -> & ?). lia.
  - intros ?. exists (Z.to_nat (i - lo)). lia.
Qed.

Lemma indexes_to_nil lo hi : hi <= lo -> indexes_to lo hi = [].
Proof. intros. unfold indexes_to, indexes. by rewrite Z2Nat.nonpos by lia. Qed.

Lemma indexes_to_cons lo hi : lo < hi -> indexes_to lo hi = lo :: indexes_to (lo + 1) hi.
Proof.
  intros. unfold indexes_to, indexes.
  replace (Z.to_nat (hi - lo)) with (S (Z.to_nat (hi - (lo + 1)))) by lia. simpl. f_equal; [lia|].
  rewrite <- fmap_S_seq, <- list_fmap_compose. apply list_fmap_ext. intros n x _. simpl. lia.
Qed.

(** ** Batches *)

Section batches.
Context `{!RaftWire Entry} (node : string).

Lemma last_write_deletes idxs k :
  Forall is_u64 idxs -> lkey_ok k ->
  last_write (deleteEntries node idxs) (lkey node k) =
    match k with
    | KLog i => if bool_decide (i ∈ idxs) then Some (WDelete (lkey node (KLog i))) else None
    | _ => None
    end.
Proof.
  intros Hi Hk. unfold last_write, deleteEntries. rewrite last_such_fmap.
  assert (Hext : last_such (fun i => String.eqb (write_key (WDelete (logKey node i))) (lkey node k)) idxs =
    last_such (fun i => bool_decide (KLog i = k)) idxs).
  { induction Hi as [|i idxs Hi0 Hi IH]; [done|]. cbn [last_such]. rewrite IH. simpl. rewrite logKey_lkey, lkey_eqb by done. done. }
  cbn beta in *. rewrite Hext. clear Hext. destruct (last_such _ idxs) as [i|] eqn:E; simpl.
  - apply last_such_Some in E as [Hin Hk']. apply bool_decide_eq_true in Hk' as <-.
    rewrite bool_decide_eq_true_2 by done. by rewrite logKey_lkey.
  - apply last_such_None in E. rewrite Forall_forall in E. destruct k as [i| | | | |]; try done.
    rewrite bool_decide_eq_false_2; [done|]. intros Hin. specialize (E _ Hin).
    by rewrite bool_decide_eq_true_2 in E.
Qed.

Lemma last_write_one k' v k :
  lkey_ok k' -> lkey_ok k ->
  last_write [WPut (lkey node k') v] (lkey node k) =
    if bool_decide (k' = k) then Some (WPut (lkey node k') v) else None.
Proof. intros Hk' Hk. unfold last_write. simpl. by rewrite lkey_eqb. Qed.

Lemma last_write_puts es : forall first puts k,
  numbered first es -> 0 <= first -> first + Z.of_nat (length es) <= 2 ^ 64 -> lkey_ok k ->
  putEntries node es = Ok puts ->
  match k with
  | KLog i =>
      match (if first <=? i then es !! Z.to_nat (i - first) else None) with
      | Some e => exists d, rw_marshal e = Some d /\ last_write puts (lkey node k) = Some (WPut (lkey node k) d)
      | None => last_write puts (lkey node k) = None
      end
  | _ => last_write puts (lkey node k) = None
  end.
Proof.
  induction es as [|e es IH]; intros first puts k Hn Hf Hb Hk Hp; simpl in Hp.
  { simplify_eq. destruct k as [i| | | | |]; try done. by destruct (first <=? i); rewrite ?lookup_nil. }
  unfold marshal in Hp. destruct (rw_marshal e) as [d|] eqn:Ed; [|done]. simpl in Hp.
  destruct (putEntries node es) as [wb|] eqn:Ep; [|done]. simplify_eq/=.
  assert (He : e_Index e = first) by (rewrite (Hn 0%nat e eq_refl); lia).
  assert (Hn' : numbered (first + 1) es).
  { intros i x Hx. rewrite (Hn (S i) x Hx). lia. }
  specialize (IH (first + 1) wb k Hn' ltac:(lia) ltac:(simpl in Hb; lia) Hk eq_refl).
  rewrite logKey_lkey, He. change (?w :: wb) with ([w] ++ wb). rewrite last_write_app.
  rewrite last_write_one by (try done; simpl; unfold is_u64; simpl in Hb; lia).
  destruct k as [i| | | | |]; try (by rewrite IH; rewrite bool_decide_eq_false_2).
  destruct (Z.leb_spec first i) as [Hle|Hgt].
  - destruct (decide (i = first)) as [->|Hne].
    + rewrite Z.sub_diag. simpl. destruct (Z.leb_spec (first + 1) first); [lia|]. rewrite IH.
      rewrite bool_decide_eq_true_2 by done. by eexists.
    + destruct (Z.leb_spec (first + 1) i); [|lia].
      replace (Z.to_nat (i - first)) with (S (Z.to_nat (i - (first + 1)))) by lia. simpl.
      destruct (es !! Z.to_nat (i - (first + 1))) as [x|].
      * destruct IH as (dx & ? & ->). by eexists.
      * rewrite IH, bool_decide_eq_false_2; [done|]. congruence.
  - destruct (Z.leb_spec (first + 1) i); [lia|]. rewrite IH, bool_decide_eq_false_2; [done|].
    intros [= ->]. lia.
Qed.

Lemma putEntries_ok es : Forall encodes es -> exists puts, putEntries node es = Ok puts.
Proof.
  induction 1 as [|e es [d Hd] _ [puts IH]]; [by eexists|]. simpl. unfold marshal. rewrite Hd. simpl.
  rewrite IH. by eexists.
Qed.

End batches.

(** ** Databases after a batch *)

Lemma bytes_at_batch batch m key :
  bytes_at (apply_batch batch m) key =
    match last_write batch key with Some w => default "" (write_value w) | None => bytes_at m key end.
Proof. unfold bytes_at. rewrite apply_batch_lookup. by destruct (last_write batch key). Qed.

Lemma holds_keep {A} `{!RaftWire A} batch m key (o : option A) :
  last_write batch key = None -> holds m key o -> holds (apply_batch batch m) key o.
Proof. intros Hw. unfold holds. by rewrite bytes_at_batch, Hw. Qed.

Lemma holds_put {A} `{!RaftWire A} batch m key (a : A) d :
  last_write batch key = Some (WPut key d) -> rw_marshal a = Some d -> holds (apply_batch batch m) key (Some a).
Proof. intros Hw Ha. unfold holds. by rewrite bytes_at_batch, Hw. Qed.

Lemma holds_decode {A} `{!RaftWire A} m key (o : option A) zero :
  holds m key o -> decodeOr zero (bytes_at m key) = Ok (default zero o).
Proof.
  unfold holds, decodeOr, unmarshal. destruct o as [a|]; [|by intros ->].
  intros Ha. pose proof (rw_nonempty _ _ Ha) as Hne. apply String.eqb_neq in Hne. rewrite Hne.
  by rewrite (rw_roundtrip _ _ Ha).
Qed.

Lemma get_put_be_u64 i : is_u64 i -> get_be (put_be 8 i) = i.
Proof. unfold is_u64. intros. rewrite get_put_be. apply Z.mod_small. simpl. lia. Qed.

Lemma wrap_u64_pred i : 0 <= i -> i + 1 < 2 ^ 64 -> wrap_u64 (i + 1 - 1) = i.
Proof. intros. replace (i + 1 - 1) with i by lia. apply wrap_u64_id. unfold_ints. lia. Qed.

(** ** Entries by index *)

Lemma numbered_app first es1 es2 :
  numbered first es1 -> numbered (first + Z.of_nat (length es1)) es2 -> numbered first (es1 ++ es2).
Proof.
  intros H1 H2 i e [Hi|[Hi He]]%lookup_app_Some; [by apply H1|]. rewrite (H2 _ _ He). lia.
Qed.

Lemma numbered_take first n es : numbered first es -> numbered first (take n es).
Proof. intros H i e [He _]%lookup_take_Some. by apply H. Qed.

Lemma numbered_drop first n es : numbered first es -> numbered (first + Z.of_nat n) (drop n es).
Proof. intros H i e. rewrite lookup_drop. intros ->%H. lia. Qed.

Lemma rl_entry_lookup a index :
  rl_off a < index -> rl_entry a index = rl_ents a !! Z.to_nat (index - rl_off a - 1).
Proof. intros. unfold rl_entry. by rewrite (proj2 (Z.ltb_lt _ _)). Qed.

Lemma rl_entry_is_Some a index : rl_off a < index <= rl_last a -> is_Some (rl_entry a index).
Proof.
  unfold rl_last. intros. rewrite rl_entry_lookup by lia. apply lookup_lt_is_Some. lia.
Qed.

Section refine.
Context {DB : Type} `{!ByteDB DB, !ByteDBLaws DB}.
Context `{!RaftWire Entry, !RaftWire HardState, !RaftWire ConfState, !RaftWire Snapshot}.

Implicit Types (s : RocksDBStorage DB) (a : RLog).

Lemma get_spec s key : healthy (db s) -> get s key = Ok (bytes_at (contents (db s)) key).
Proof. intros H. unfold get. by rewrite db_get_healthy. Qed.

Lemma write_spec s batch :
  healthy (db s) ->
  exists d, write s batch = (setDb s d, None) /\ contents d = apply_batch batch (contents (db s)) /\ healthy d.
Proof.
  intros H. unfold write. destruct (db_write_healthy (db s) batch H) as [He Hh].
  destruct (db_write (db s) batch) as [d err] eqn:E. simpl in *. subst err.
  exists d. split_and!; [done|by apply db_write_ok|done].
Qed.

Lemma P_entry node m a index e :
  Persisted node m a -> rl_entry a index = Some e -> holds m (logKey node index) (Some e).
Proof.
  intros HP. unfold rl_entry. destruct (Z.ltb_spec (rl_off a) index); [|done]. intros Hl.
  pose proof (P_ents _ _ _ HP _ _ Hl) as Hh.
  by replace (rl_off a + 1 + Z.of_nat (Z.to_nat (index - rl_off a - 1))) with index in Hh by lia.
Qed.

Lemma loadEntry_spec s a index missing :
  healthy (db s) -> Rep s a -> rl_off a < index <= rl_last a ->
  exists e, rl_entry a index = Some e /\ loadEntry s index missing = Ok e.
Proof.
  intros Hh HR Hi. destruct (rl_entry_is_Some a index Hi) as [e He]. exists e. split; [done|].
  pose proof (P_entry _ _ _ _ _ (Rep_db _ _ HR) He) as Ha. unfold loadEntry. rewrite get_spec by done. simpl.
  pose proof (rw_nonempty _ _ Ha) as Hne. apply String.eqb_neq in Hne. rewrite Hne.
  unfold unmarshal. by rewrite (rw_roundtrip _ _ Ha).
Qed.

Lemma Rep_pred s a : Rep s a -> wrap_u64 (firstIndex s - 1) = rl_off a.
Proof.
  intros HR. rewrite (Rep_first _ _ HR). pose proof (wl_off _ (Rep_wf _ _ HR)).
  pose proof (wl_last _ (Rep_wf _ _ HR)). unfold rl_last in *. apply wrap_u64_pred; lia.
Qed.

Lemma loadSnapshot_spec s a :
  healthy (db s) -> Rep s a -> loadSnapshotUnsafe s = Ok (rl_snapshot a).
Proof.
  intros Hh HR. unfold loadSnapshotUnsafe. rewrite get_spec by done. simpl. rewrite (Rep_pred _ _ HR).
  pose proof (holds_decode _ _ _ (mkSnapshot "" emptyConfState (rl_off a) 0) (P_snap _ _ _ (Rep_db _ _ HR))) as Hd.
  unfold decodeOr in Hd. by destruct (String.eqb _ "").
Qed.

(** ** Reading *)

Lemma Term_refines s a index :
  healthy (db s) -> Rep s a -> Term s index = rl_term a index.
Proof.
  intros Hh HR. unfold Term, rl_term. rewrite (Rep_pred _ _ HR), (Rep_last _ _ HR).
  destruct (Z.ltb_spec index (rl_off a)); [done|]. rewrite Z.gtb_ltb.
  destruct (Z.ltb_spec (rl_last a) index); [done|]. destruct (Z.eqb_spec index (rl_off a)) as [->|Hne].
  - rewrite (loadSnapshot_spec _ _ Hh HR). simpl. unfold rl_boundaryTerm, rl_snapshot, IsEmptySnap.
    destruct (Z.eqb_spec (rl_off a) 0) as [Hz|Hz]; destruct (rl_snap a) as [sn|]; simpl.
    + rewrite Hz. by destruct (sn_Index sn =? 0).
    + by rewrite Hz.
    + destruct (Z.eqb_spec (sn_Index sn) (rl_off a)) as [->|]; [|by rewrite andb_false_r].
      by rewrite (proj2 (Z.eqb_neq _ _) Hz).
    + by rewrite (proj2 (Z.eqb_neq _ _) Hz), Z.eqb_refl.
  - destruct (loadEntry_spec s a index ErrUnavailable Hh HR ltac:(lia)) as (e & He & ->). by rewrite He.
Qed.

Lemma totalSize_cons e es : totalSize (e :: es) = rw_size e + totalSize es.
Proof. done. Qed.

Lemma holds_size m key (e : Entry) : holds m key (Some e) -> 0 <= rw_size e.
Proof. intros Ha. rewrite (rw_size_length _ _ Ha). unfold str_len. lia. Qed.

Lemma entriesLoop_spec s a maxSize : forall es lo acc size,
  healthy (db s) -> Rep s a ->
  (forall i e, es !! i = Some e -> holds (contents (db s)) (logKey (nodeID s) (lo + Z.of_nat i)) (Some e)) ->
  0 <= size -> size + totalSize es < 2 ^ 64 ->
  entriesLoop s maxSize (indexes_to lo (lo + Z.of_nat (length es))) acc size = Ok (acc ++ limitFrom maxSize size es).
Proof.
  induction es as [|e es IH]; intros lo acc size Hh HR Hes Hs Ht.
  { rewrite indexes_to_nil by (simpl; lia). simpl. by rewrite app_nil_r. }
  rewrite indexes_to_cons by (simpl; lia). cbn [entriesLoop]. rewrite get_spec by done. simpl.
  pose proof (Hes 0%nat e eq_refl) as Ha. rewrite Z.add_0_r in Ha.
  pose proof (rw_nonempty _ _ Ha) as Hne. apply String.eqb_neq in Hne. rewrite Hne.
  unfold unmarshal. rewrite (rw_roundtrip _ _ Ha). simpl.
  assert (Hpos : 0 <= totalSize es).
  { assert (Hall : Forall (fun e => 0 <= rw_size e) es).
    { apply Forall_lookup. intros i x Hx. apply (holds_size _ _ _ (Hes (S i) x Hx)). }
    clear -Hall. induction Hall; simpl; lia. }
  pose proof (holds_size _ _ _ Ha). rewrite totalSize_cons in Ht.
  rewrite wrap_u64_id by (unfold_ints; lia).
  destruct ((size >? 0) && (size + rw_size e >? maxSize)); [by rewrite app_nil_r|].
  replace (lo + Z.of_nat (S (length es))) with (lo + 1 + Z.of_nat (length es)) by lia.
  rewrite (IH (lo + 1)); try done; [by rewrite <- app_assoc| |lia|lia].
  intros i x Hx. replace (lo + 1 + Z.of_nat i) with (lo + Z.of_nat (S i)) by lia. by apply Hes.
Qed.

Lemma rl_slice_lookup a lo hi i e :
  rl_off a < lo -> rl_slice a lo hi !! i = Some e -> rl_entry a (lo + Z.of_nat i) = Some e.
Proof.
  intros Hlo. unfold rl_slice. rewrite lookup_take_Some, lookup_drop. intros [He _].
  rewrite rl_entry_lookup by lia. rewrite <- He. f_equal. lia.
Qed.

Lemma rl_slice_length a lo hi :
  rl_off a < lo -> lo <= hi <= rl_last a + 1 -> Z.of_nat (length (rl_slice a lo hi)) = hi - lo.
Proof. unfold rl_slice, rl_last. intros. rewrite length_take, length_drop. lia. Qed.

Lemma Entries_refines s a lo hi maxSize :
  healthy (db s) -> Rep s a -> totalSize (rl_slice a lo hi) < 2 ^ 64 ->
  Entries s lo hi maxSize = rl_entries a lo hi maxSize.
Proof.
  intros Hh HR Ht. unfold Entries, rl_entries.
  pose proof (Rep_wf _ _ HR) as [Ho Hl _]. rewrite (Rep_first _ _ HR), (Rep_last _ _ HR).
  rewrite !Z.gtb_ltb. destruct (Z.ltb_spec hi lo); [done|].
  replace (lo <? rl_off a + 1) with (lo <=? rl_off a)
    by (destruct (Z.ltb_spec lo (rl_off a + 1)), (Z.leb_spec lo (rl_off a)); lia).
  destruct (Z.leb_spec lo (rl_off a)); [done|].
  rewrite wrap_u64_id by (unfold_ints; unfold rl_last in *; lia).
  destruct (Z.ltb_spec (rl_last a + 1) hi); [done|].
  pose proof (rl_slice_length a lo hi ltac:(lia) ltac:(lia)) as Hlen.
  destruct (Z.eqb_spec lo hi) as [->|Hne].
  { destruct (rl_slice a hi hi); [done|]. simpl in Hlen. lia. }
  replace hi with (lo + Z.of_nat (length (rl_slice a lo hi))) at 1 by lia.
  rewrite (entriesLoop_spec s a); try done; try lia.
  intros i e He. eapply P_entry; [apply HR|]. by apply (rl_slice_lookup a lo hi).
Qed.

Lemma InitialState_refines s a :
  healthy (db s) -> Rep s a ->
  InitialState s = Ok (default emptyHardState (rl_hard a), default emptyConfState (rl_conf a)).
Proof.
  intros Hh HR. unfold InitialState. rewrite !get_spec by done. simpl.
  rewrite (holds_decode _ _ _ _ (P_hard _ _ _ (Rep_db _ _ HR))). simpl.
  by rewrite (holds_decode _ _ _ _ (P_conf _ _ _ (Rep_db _ _ HR))).
Qed.

(** ** Writing *)

(** A batch leaves a message alone or replaces it. *)
Definition updates {A} `{!RaftWire A} (batch : list WriteOp) (key : string) (o o' : option A) : Prop :=
  (last_write batch key = None /\ o' = o) \/
  exists x d, o' = Some x /\ rw_marshal x = Some d /\ last_write batch key = Some (WPut key d).

Lemma updates_holds {A} `{!RaftWire A} batch m key (o o' : option A) :
  updates batch key o o' -> holds m key o -> holds (apply_batch batch m) key o'.
Proof.
  intros [[Hw ->]|(x & d & -> & Ha & Hw)] Ho; [by apply holds_keep|by eapply holds_put].
Qed.

(** The same for one of the two saved indexes. *)
Definition updatesIndex (batch : list WriteOp) (key : string) (i i' : Z) : Prop :=
  (last_write batch key = None /\ i' = i) \/ last_write batch key = Some (WPut key (put_be 8 i')).

Lemma updatesIndex_holds batch m key i i' :
  updatesIndex batch key i i' -> bytes_at m key = put_be 8 i -> bytes_at (apply_batch batch m) key = put_be 8 i'.
Proof. intros [[Hw ->]|Hw] Hi; rewrite bytes_at_batch, Hw; done. Qed.

Lemma Persisted_batch node m a a' batch :
  Persisted node m a ->
  updatesIndex batch (lkey node KFirst) (rl_off a + 1) (rl_off a' + 1) ->
  updatesIndex batch (lkey node KLast) (rl_last a) (rl_last a') ->
  (forall index e, rl_entry a' index = Some e -> updates batch (lkey node (KLog index)) (rl_entry a index) (Some e)) ->
  updates batch (lkey node KSnap) (rl_snap a) (rl_snap a') ->
  updates batch (lkey node KHard) (rl_hard a) (rl_hard a') ->
  updates batch (lkey node KConf) (rl_conf a) (rl_conf a') ->
  Persisted node (apply_batch batch m) a'.
Proof.
  intros HP Hf Hl He Hs Hh Hc. destruct HP as [Pf Pl Pe Ps Ph Pc]. constructor.
  - by eapply updatesIndex_holds.
  - by eapply updatesIndex_holds.
  - intros i e Hi. assert (Hent : rl_entry a' (rl_off a' + 1 + Z.of_nat i) = Some e).
    { rewrite rl_entry_lookup by lia. rewrite <- Hi. f_equal. lia. }
    specialize (He _ _ Hent). rewrite logKey_lkey.
    destruct He as [[Hw Heq]|(x & d & [= <-] & Ha & Hw)]; [|by eapply holds_put].
    apply holds_keep; [done|]. rewrite <- logKey_lkey. eapply P_entry; [by constructor|done].
  - by eapply updates_holds.
  - by eapply updates_holds.
  - by eapply updates_holds.
Qed.

Lemma updates_none {A} `{!RaftWire A} batch key (o : option A) : last_write batch key = None -> updates batch key o o.
Proof. by left. Qed.

Lemma rl_entry_bounds a index e : wf_log a -> rl_entry a index = Some e -> rl_off a < index <= rl_last a.
Proof.
  intros Hw. unfold rl_entry, rl_last. destruct (Z.ltb_spec (rl_off a) index); [|done].
  intros Hl%lookup_lt_Some. lia.
Qed.

Lemma indexes_u64 lo hi : 0 <= lo -> hi <= 2 ^ 64 -> Forall is_u64 (indexes_to lo hi).
Proof.
  intros. apply Forall_forall. intros i Hi%elem_of_indexes_to. unfold is_u64. lia.
Qed.

(** A batch of deleted entries and single messages, by key. *)
Ltac lastw := unfold putFirst, putLast;
  change (prefixedKey ?n firstIndexKey) with (lkey n KFirst); change (prefixedKey ?n lastIndexKey) with (lkey n KLast);
  change (prefixedKey ?n snapshotKey) with (lkey n KSnap); change (prefixedKey ?n confStateKey) with (lkey n KConf);
  change (prefixedKey ?n hardStateKey) with (lkey n KHard);
  repeat (rewrite last_write_app || (rewrite last_write_one by done) || (rewrite last_write_deletes by done)); simpl.

Lemma saveMessage_spec {A} `{!RaftWire A} s key (x : A) d :
  healthy (db s) -> rw_marshal x = Some d ->
  exists d', saveMessage s key x = (setDb s d', None) /\ healthy d' /\
    contents d' = apply_batch [WPut (prefixedKey (nodeID s) key) d] (contents (db s)).
Proof.
  intros Hh Hd. unfold saveMessage, marshal. rewrite Hd.
  destruct (write_spec s [WPut (prefixedKey (nodeID s) key) d] Hh) as (d' & -> & ? & ?). by exists d'.
Qed.

Lemma wf_same a a' : rl_off a' = rl_off a -> rl_ents a' = rl_ents a -> wf_log a -> wf_log a'.
Proof. intros Ho He [H1 H2 H3]. unfold rl_last in *. constructor; unfold rl_last; by rewrite ?Ho, ?He. Qed.

(** Storing one message changes nothing else. *)
Lemma updates_save {A} `{!RaftWire A} node k (x : A) d (o : option A) :
  rw_marshal x = Some d -> lkey_ok k -> updates [WPut (lkey node k) d] (lkey node k) o (Some x).
Proof.
  intros Hd Hk. right. exists x, d. split_and!; [done..|]. by rewrite last_write_one, bool_decide_eq_true_2.
Qed.

Lemma updates_other {A} `{!RaftWire A} node k k' d (o : option A) :
  lkey_ok k -> lkey_ok k' -> k <> k' -> updates [WPut (lkey node k) d] (lkey node k') o o.
Proof. intros Hk Hk' Hne. left. by rewrite last_write_one, bool_decide_eq_false_2. Qed.

(** [a'] is [a] with another message under [k]. *)
Definition saving (node : string) (k : LKey) (d : string) a a' : Prop :=
  k ∈ [KHard; KConf; KSnap] /\ rl_off a' = rl_off a /\ rl_ents a' = rl_ents a /\
  let batch := [WPut (lkey node k) d] in
  updates batch (lkey node KSnap) (rl_snap a) (rl_snap a') /\
  updates batch (lkey node KHard) (rl_hard a) (rl_hard a') /\
  updates batch (lkey node KConf) (rl_conf a) (rl_conf a').

Definition withHard a (st : HardState) : RLog := mkRLog (rl_off a) (rl_ents a) (rl_snap a) (Some st) (rl_conf a).
Definition withConf a (cs : ConfState) : RLog := mkRLog (rl_off a) (rl_ents a) (rl_snap a) (rl_hard a) (Some cs).
Definition withSnap a (sn : Snapshot) : RLog := mkRLog (rl_off a) (rl_ents a) (Some sn) (rl_hard a) (rl_conf a).

Lemma saving_hard node a st d : rw_marshal st = Some d -> saving node KHard d a (withHard a st).
Proof.
  intros Hd. split; [set_solver|]. cbn zeta. split_and!; [done|done|by apply updates_other|by apply updates_save|by apply updates_other].
Qed.

Lemma saving_conf node a cs d : rw_marshal cs = Some d -> saving node KConf d a (withConf a cs).
Proof.
  intros Hd. split; [set_solver|]. cbn zeta. split_and!; [done|done|by apply updates_other|by apply updates_other|by apply updates_save].
Qed.

Lemma saving_snap node a sn d : rw_marshal sn = Some d -> saving node KSnap d a (withSnap a sn).
Proof.
  intros Hd. split; [set_solver|]. cbn zeta. split_and!; [done|done|by apply updates_save|by apply updates_other|by apply updates_other].
Qed.

(** Storing one message changes nothing else. *)
Lemma saving_persisted node m a a' k d :
  wf_log a -> Persisted node m a -> saving node k d a a' ->
  wf_log a' /\ rl_last a' = rl_last a /\ Persisted node (apply_batch [WPut (lkey node k) d] m) a'.
Proof.
  intros Hw HP (Hk & Ho & He & Us & Uh & Uc). set_unfold in Hk.
  assert (Hok : lkey_ok k) by naive_solver.
  assert (Hl : rl_last a' = rl_last a) by (unfold rl_last; by rewrite Ho, He).
  assert (Hother : forall k', lkey_ok k' -> k' ∈ [KFirst; KLast] \/ (exists i, k' = KLog i) ->
    last_write [WPut (lkey node k) d] (lkey node k') = None).
  { intros k' Hk' Hin. rewrite last_write_one, bool_decide_eq_false_2; [done| |done..].
    set_unfold in Hin. naive_solver. }
  split; [by eapply wf_same|]. split; [done|]. apply (Persisted_batch _ _ a); try done.
  - left. split; [|by rewrite Ho]. apply Hother; [done|left; set_solver].
  - left. split; [|done]. apply Hother; [done|left; set_solver].
  - intros i e Hi. left. pose proof (rl_entry_bounds _ _ _ (wf_same _ _ Ho He Hw) Hi) as Hb.
    pose proof (wl_off _ Hw). pose proof (wl_last _ Hw). rewrite Ho, Hl in Hb. split.
    + apply Hother; [simpl; unfold is_u64; lia|right; by eexists].
    + rewrite <- Hi. unfold rl_entry. by rewrite Ho, He.
Qed.

Lemma save_refines {A} `{!RaftWire A} s a a' k (x : A) d :
  healthy (db s) -> Rep s a -> rw_marshal x = Some d -> saving (nodeID s) k d a a' ->
  exists s', saveMessage s (suffix k) x = (s', None) /\ healthy (db s') /\ Rep s' a'.
Proof.
  intros Hh [Hw HP Hf Hl] Hd Hsv. destruct (saveMessage_spec s (suffix k) x d Hh Hd) as (d' & Hs & Hh' & Hc).
  destruct (saving_persisted _ _ _ _ _ _ Hw HP Hsv) as (Hw' & Hl' & HP').
  exists (setDb s d'). split_and!; [done..|]. constructor; cbn [setDb db nodeID firstIndex lastIndex].
  - done.
  - by rewrite Hc.
  - destruct Hsv as (_ & -> & _). done.
  - by rewrite Hl'.
Qed.

Lemma SetHardState_refines s a st :
  healthy (db s) -> Rep s a -> encodes st ->
  exists s', SetHardState s st = (s', None) /\ healthy (db s') /\ Rep s' (withHard a st).
Proof. intros Hh HR [d Hd]. by apply (save_refines s a _ KHard st d), saving_hard. Qed.

Lemma SetConfState_refines s a cs :
  healthy (db s) -> Rep s a -> encodes cs ->
  exists s', SetConfState s cs = (s', None) /\ healthy (db s') /\ Rep s' (withConf a cs).
Proof. intros Hh HR [d Hd]. by apply (save_refines s a _ KConf cs d), saving_conf. Qed.

Lemma snapshotTerm_spec s a index :
  healthy (db s) -> Rep s a -> rl_off a <= index <= rl_last a ->
  snapshotTerm s index = Ok (rl_snapshotTerm a index).
Proof.
  intros Hh HR Hi. unfold snapshotTerm, rl_snapshotTerm. rewrite (Rep_pred _ _ HR).
  destruct (Z.eqb_spec index (rl_off a)) as [->|Hne].
  - rewrite (loadSnapshot_spec _ _ Hh HR). unfold rl_snapshot, IsEmptySnap.
    destruct (rl_snap a) as [sn|]; simpl; [by destruct (sn_Index sn =? 0)|by destruct (rl_off a =? 0)].
  - destruct (loadEntry_spec s a index (ErrEntryNotFound index) Hh HR ltac:(lia)) as (e & He & ->). by rewrite He.
Qed.

Lemma CreateSnapshot_refines s a index cs data :
  healthy (db s) -> Rep s a -> encodes (mkSnapshot data cs index (rl_snapshotTerm a index)) ->
  let '(s', r) := CreateSnapshot s index cs data in
  let '(a', resp) := rl_createSnapshot a index cs data in
  answer RSnapshot r = resp /\ healthy (db s') /\ Rep s' a'.
Proof.
  intros Hh HR He. unfold CreateSnapshot, rl_createSnapshot. rewrite (Rep_pred _ _ HR), (Rep_last _ _ HR).
  destruct (Z.ltb_spec index (rl_off a)); [done|]. rewrite Z.gtb_ltb.
  destruct (Z.ltb_spec (rl_last a) index); [done|].
  rewrite (snapshotTerm_spec s a) by (done || lia). cbn zeta.
  destruct He as [d Hd]. set (sn := mkSnapshot data cs index (rl_snapshotTerm a index)) in *.
  destruct (save_refines s a (withSnap a sn) KSnap sn d) as (s' & Hs & Hh' & HR'); [done..|by apply saving_snap|].
  change (suffix KSnap) with snapshotKey in Hs. by rewrite Hs.
Qed.

(** ** Batches over the entries *)

Lemma rl_append_entry a e0 es index :
  rl_off a + 1 <= e_Index e0 <= rl_last a + 1 ->
  rl_entry (rl_append a (e0 :: es)) index =
    if index <? e_Index e0 then rl_entry a index else (e0 :: es) !! Z.to_nat (index - e_Index e0).
Proof.
  intros Hi. unfold rl_entry, rl_append, rl_last in *. cbn [rl_off rl_ents].
  destruct (Z.ltb_spec (rl_off a) index) as [Ho|Ho]; destruct (Z.ltb_spec index (e_Index e0)) as [He|He]; try lia; try done.
  - rewrite lookup_app_l by (rewrite length_take; lia). rewrite lookup_take. by rewrite decide_True by lia.
  - rewrite lookup_app_r by (rewrite length_take; lia). f_equal. rewrite length_take. lia.
Qed.

Lemma rl_append_last a e0 es :
  rl_off a + 1 <= e_Index e0 <= rl_last a + 1 ->
  rl_last (rl_append a (e0 :: es)) = e_Index e0 + Z.of_nat (length (e0 :: es)) - 1.
Proof. intros Hi. unfold rl_last, rl_append in *. cbn [rl_off rl_ents]. rewrite length_app, length_take. lia. Qed.

Lemma wf_append a e0 es :
  wf_log a -> appendOk a (e0 :: es) -> wf_log (rl_append a (e0 :: es)).
Proof.
  intros [Ho Hl Hn] (Hnum & _ & Hi & Hge & Hlt). constructor; [done| |].
  - rewrite rl_append_last by done. lia.
  - cbn [rl_append rl_off rl_ents]. apply numbered_app; [by apply numbered_take|].
    unfold rl_last in Hi. rewrite length_take. replace (rl_off a + 1 + _) with (e_Index e0); [done|lia].
Qed.

Lemma last_index first es en : numbered first es -> last es = Some en -> e_Index en = first + Z.of_nat (length es) - 1.
Proof.
  intros Hn Hl. rewrite last_lookup in Hl. rewrite (Hn _ _ Hl). apply lookup_lt_Some in Hl. lia.
Qed.

(** The batch of [Append]. *)
Definition appendBatch s (e0 : Entry) (es : list Entry) (puts : list WriteOp) : list WriteOp :=
  let last := e_Index e0 + Z.of_nat (length es) in
  (deleteEntries (nodeID s) (indexes_to (e_Index e0) (lastIndex s + 1)) ++ puts) ++
  (if last >? lastIndex s then [putLast s last] else []).

Lemma Append_batch s a e0 es puts :
  Rep s a -> appendOk a (e0 :: es) -> putEntries (nodeID s) (e0 :: es) = Ok puts ->
  Append s (e0 :: es) = write (setLast s (e_Index e0 + Z.of_nat (length es))) (appendBatch s e0 es puts).
Proof.
  intros HR (Hnum & _ & Hi & Hge & Hlt) Hputs.
  destruct (last (e0 :: es)) as [en|] eqn:El; [|by apply last_None in El].
  assert (Hen : e_Index en = e_Index e0 + Z.of_nat (length es)).
  { rewrite (last_index _ _ _ Hnum El). simpl. lia. }
  unfold Append. rewrite El, Hputs, Hen. cbn zeta.
  replace (if e_Index e0 <=? lastIndex s then deleteEntries (nodeID s) (indexes_to (e_Index e0) (lastIndex s + 1)) else [])
    with (deleteEntries (nodeID s) (indexes_to (e_Index e0) (lastIndex s + 1))).
  2:{ destruct (Z.leb_spec (e_Index e0) (lastIndex s)); [done|]. by rewrite indexes_to_nil by lia. }
  unfold appendBatch. cbn zeta. pose proof (Rep_first _ _ HR) as Hf. pose proof (Rep_last _ _ HR) as Hl.
  cbn [length] in Hge. rewrite Z.gtb_ltb.
  destruct (Z.ltb_spec (lastIndex s) (e_Index e0 + Z.of_nat (length es))) as [Hlt'|Hle];
    cbn [firstIndex lastIndex setLast]; rewrite Z.gtb_ltb.
  - rewrite (proj2 (Z.ltb_ge _ _)) by lia. done.
  - rewrite (proj2 (Z.ltb_ge _ _)) by lia. rewrite app_nil_r.
    replace (e_Index e0 + Z.of_nat (length es)) with (lastIndex s) by lia. by destruct s.
Qed.

Lemma Append_last_write s a e0 es puts k :
  wf_log a -> Rep s a -> appendOk a (e0 :: es) -> putEntries (nodeID s) (e0 :: es) = Ok puts -> lkey_ok k ->
  last_write (appendBatch s e0 es puts) (lkey (nodeID s) k) =
    match (match k with KLast => if e_Index e0 + Z.of_nat (length es) >? lastIndex s
                                 then Some (putLast s (e_Index e0 + Z.of_nat (length es))) else None | _ => None end) with
    | Some w => Some w
    | None =>
        match last_write puts (lkey (nodeID s) k) with
        | Some w => Some w
        | None => last_write (deleteEntries (nodeID s) (indexes_to (e_Index e0) (lastIndex s + 1))) (lkey (nodeID s) k)
        end
    end.
Proof.
  intros [Ho Hl _] HR (_ & _ & Hi & _) Hputs Hk. unfold appendBatch. cbn zeta. rewrite !last_write_app.
  destruct (_ >? lastIndex s).
  - unfold putLast at 1. change (prefixedKey (nodeID s) lastIndexKey) with (lkey (nodeID s) KLast).
    rewrite last_write_one by done. destruct (decide (KLast = k)) as [<-|Hne].
    + by rewrite bool_decide_eq_true_2.
    + rewrite bool_decide_eq_false_2 by done. by destruct k.
  - change (last_write [] _) with (@None WriteOp). by destruct k.
Qed.

Lemma Append_persisted s a e0 es puts :
  Rep s a -> appendOk a (e0 :: es) -> putEntries (nodeID s) (e0 :: es) = Ok puts ->
  Persisted (nodeID s) (apply_batch (appendBatch s e0 es puts) (contents (db s))) (rl_append a (e0 :: es)).
Proof.
  intros HR Hok Hputs. pose proof Hok as (Hnum & _ & Hi & Hge & Hlt). cbn [length] in Hge, Hlt.
  pose proof (Rep_wf _ _ HR) as Hwf. pose proof (wl_off _ Hwf) as Ho. pose proof (wl_last _ Hwf) as Hl.
  pose proof (Rep_last _ _ HR) as Hlast. set (batch := appendBatch s e0 es puts).
  assert (Hw : forall k, lkey_ok k -> last_write batch (lkey (nodeID s) k) = _)
    by (intros k Hk; exact (Append_last_write s a e0 es puts k Hwf HR Hok Hputs Hk)).
  assert (Hp : forall k, lkey_ok k -> _)
    by (intros k Hk; exact (last_write_puts (nodeID s) (e0 :: es) (e_Index e0) puts k Hnum ltac:(lia) ltac:(simpl; lia) Hk Hputs)).
  assert (Hx : forall k, lkey_ok k -> _) by (intros k Hk; exact (last_write_deletes (nodeID s)
    (indexes_to (e_Index e0) (lastIndex s + 1)) k
    (indexes_u64 (e_Index e0) (lastIndex s + 1) ltac:(lia) ltac:(lia)) Hk)).
  assert (Hnone : forall k, k ∈ [KFirst; KSnap; KHard; KConf] -> last_write batch (lkey (nodeID s) k) = None).
  { intros k Hk. set_unfold in Hk.
    destruct Hk as [->|[->|[->|[->|[]]]]]; rewrite Hw by done.
    - by rewrite (Hp KFirst I), (Hx KFirst I).
    - by rewrite (Hp KSnap I), (Hx KSnap I).
    - by rewrite (Hp KHard I), (Hx KHard I).
    - by rewrite (Hp KConf I), (Hx KConf I). }
  apply (Persisted_batch _ _ a); [apply HR|left; split; [apply Hnone; set_solver|done]| | |left; split; [apply Hnone; set_solver|done]..].
  - rewrite rl_append_last by done. cbn [length]. unfold updatesIndex. rewrite Hw, (Hp KLast I), (Hx KLast I) by done.
    rewrite Hlast, Z.gtb_ltb. destruct (Z.ltb_spec (rl_last a) (e_Index e0 + Z.of_nat (length es))); [right|left; split; [done|lia]].
    unfold putLast. do 3 f_equal. lia.
  - intros index e He. pose proof (rl_entry_bounds _ _ _ (wf_append _ _ _ Hwf Hok) He) as Hb.
    rewrite rl_append_last in Hb by done. cbn [length rl_append rl_off] in Hb. rewrite rl_append_entry in He by done.
    assert (Hik : lkey_ok (KLog index)) by (simpl; unfold is_u64; lia). specialize (Hp _ Hik). simpl in Hp.
    destruct (Z.ltb_spec index (e_Index e0)) as [Hlo|Hhi].
    + left. split; [|done]. rewrite Hw by done. destruct (Z.leb_spec (e_Index e0) index); [lia|].
      rewrite Hp, (Hx _ Hik), bool_decide_eq_false_2; [done|]. rewrite elem_of_indexes_to. lia.
    + right. destruct (Z.leb_spec (e_Index e0) index); [|lia]. rewrite He in Hp. destruct Hp as (x & Hx' & Hp).
      exists e, x. split_and!; [done..|]. rewrite Hw by done. by rewrite Hp.
Qed.

Lemma Append_refines s a es :
  healthy (db s) -> Rep s a -> appendOk a es ->
  exists s', Append s es = (s', None) /\ healthy (db s') /\ Rep s' (rl_append a es).
Proof.
  intros Hh HR Hok. destruct es as [|e0 es]; [by exists s|].
  pose proof Hok as (_ & Henc & Hi & _). destruct (putEntries_ok (nodeID s) (e0 :: es) Henc) as [puts Hputs].
  rewrite (Append_batch s a e0 es puts HR Hok Hputs).
  destruct (write_spec (setLast s (e_Index e0 + Z.of_nat (length es))) (appendBatch s e0 es puts) Hh) as (d & -> & Hd & Hhd).
  eexists. split_and!; [done..|]. constructor; cbn [setDb setLast db nodeID firstIndex lastIndex].
  - apply wf_append; [apply HR|done].
  - rewrite Hd. exact (Append_persisted s a e0 es puts HR Hok Hputs).
  - by rewrite (Rep_first _ _ HR).
  - rewrite rl_append_last by done. cbn [length]. lia.
Qed.

(** ** Dropping the entries up to an index *)

Lemma rl_drop_entry a a' index :
  rl_off a <= rl_off a' -> rl_ents a' = drop (Z.to_nat (rl_off a' - rl_off a)) (rl_ents a) ->
  rl_off a' < index -> rl_entry a' index = rl_entry a index.
Proof.
  intros Ho He Hi. rewrite !rl_entry_lookup, He, lookup_drop by lia. f_equal. lia.
Qed.

Lemma wf_drop a a' :
  wf_log a -> rl_off a <= rl_off a' -> rl_off a' + 1 < 2 ^ 64 ->
  rl_ents a' = drop (Z.to_nat (rl_off a' - rl_off a)) (rl_ents a) ->
  wf_log a' /\ rl_last a' = Z.max (rl_off a') (rl_last a).
Proof.
  intros [Ho Hl Hn] Hle Hb He.
  assert (Hlast : rl_last a' = Z.max (rl_off a') (rl_last a)).
  { unfold rl_last in *. rewrite He, length_drop. lia. }
  split; [|done]. constructor; [lia|lia|]. rewrite He.
  replace (rl_off a' + 1) with (rl_off a + 1 + Z.of_nat (Z.to_nat (rl_off a' - rl_off a))) by lia.
  by apply numbered_drop.
Qed.

(** The new entries of a batch that only deletes those up to the new offset. *)
Lemma drop_updates s a a' batch index e :
  wf_log a' -> rl_off a <= rl_off a' -> rl_ents a' = drop (Z.to_nat (rl_off a' - rl_off a)) (rl_ents a) ->
  (forall i, is_u64 i -> rl_off a' < i -> last_write batch (lkey (nodeID s) (KLog i)) = None) ->
  rl_entry a' index = Some e ->
  updates batch (lkey (nodeID s) (KLog index)) (rl_entry a index) (Some e).
Proof.
  intros Hwf Ho He Hb Hi. pose proof (rl_entry_bounds _ _ _ Hwf Hi). destruct Hwf as [? ? _].
  left. rewrite <- (rl_drop_entry a a') by (done || lia). split; [|done].
  apply Hb; [unfold is_u64|]; lia.
Qed.

(** The batch of [Compact]. *)
Definition compactBatch s (index : Z) : list WriteOp :=
  deleteEntries (nodeID s) (indexes_to (firstIndex s) index) ++ [putFirst s index].

Definition rl_compacted a (index : Z) : RLog :=
  mkRLog (index - 1) (drop (Z.to_nat (index - 1 - rl_off a)) (rl_ents a)) (rl_snap a) (rl_hard a) (rl_conf a).

Lemma Compact_persisted s a index :
  Rep s a -> rl_off a + 1 < index <= rl_last a ->
  wf_log (rl_compacted a index) /\ rl_last (rl_compacted a index) = rl_last a /\
  Persisted (nodeID s) (apply_batch (compactBatch s index) (contents (db s))) (rl_compacted a index).
Proof.
  intros HR Hi. pose proof (Rep_wf _ _ HR) as Hwf. pose proof Hwf as [Ho Hl _]. set (a' := rl_compacted a index).
  assert (He : rl_ents a' = drop (Z.to_nat (rl_off a' - rl_off a)) (rl_ents a)) by done.
  destruct (wf_drop a a' Hwf) as [Hwf' Hlast']; [simpl; lia..|done|]. simpl in Hlast'.
  split; [done|]. split; [lia|]. unfold compactBatch. rewrite (Rep_first _ _ HR).
  pose proof (indexes_u64 (rl_off a + 1) index ltac:(lia) ltac:(lia)) as Hu64.
  apply (Persisted_batch _ _ a); [apply HR|..].
  - right. lastw. do 3 f_equal. lia.
  - left. lastw. split; [done|lia].
  - intros i e. apply drop_updates; [done|simpl; lia|done|]. intros j Hj Hlt. simpl in Hlt.
    unfold putFirst. change (prefixedKey (nodeID s) firstIndexKey) with (lkey (nodeID s) KFirst).
    rewrite last_write_app, last_write_one, last_write_deletes by done. rewrite !bool_decide_eq_false_2; [done| |done].
    rewrite elem_of_indexes_to. lia.
  - apply updates_none. by lastw.
  - apply updates_none. by lastw.
  - apply updates_none. by lastw.
Qed.

Lemma rl_Compact_refines s a index :
  healthy (db s) -> Rep s a ->
  let '(s', e) := Compact s index in
  let '(a', resp) := rl_compact a index in
  match e with Some e => RErr e | None => RDone end = resp /\ healthy (db s') /\ Rep s' a'.
Proof.
  intros Hh HR. unfold Compact, rl_compact. rewrite (Rep_first _ _ HR), (Rep_last _ _ HR).
  destruct (Z.leb_spec index (rl_off a + 1)); [done|]. rewrite Z.gtb_ltb.
  destruct (Z.ltb_spec (rl_last a) index); [done|].
  destruct (Compact_persisted s a index HR ltac:(lia)) as (Hwf' & Hlast' & HP').
  unfold compactBatch in HP'. rewrite (Rep_first _ _ HR) in HP'. unfold setFirstIndexWithWB.
  destruct (write_spec s (deleteEntries (nodeID s) (indexes_to (rl_off a + 1) index) ++ [putFirst s index]) Hh)
    as (d & -> & Hd & Hhd).
  split_and!; [done..|]. constructor; cbn [setDb setFirst db nodeID firstIndex lastIndex].
  - done.
  - by rewrite Hd.
  - simpl. lia.
  - rewrite (Rep_last _ _ HR). by rewrite <- Hlast'.
Qed.

(** The batch of [ApplySnapshot]. *)
Definition snapshotBatch s (sn : Snapshot) (snapData csData : string) : list WriteOp :=
  [WPut (lkey (nodeID s) KSnap) snapData] ++
  deleteEntries (nodeID s) (indexes_to (firstIndex s) (Z.min (sn_Index sn) (lastIndex s) + 1)) ++
  [putFirst s (sn_Index sn + 1)] ++
  (if sn_Index sn >? lastIndex s then [putLast s (sn_Index sn)] else []) ++
  [WPut (lkey (nodeID s) KConf) csData].

Lemma ApplySnapshot_batch s a sn snapData csData :
  Rep s a -> rl_off a < sn_Index sn -> sn_Index sn + 1 < 2 ^ 64 ->
  rw_marshal sn = Some snapData -> rw_marshal (sn_ConfState sn) = Some csData ->
  ApplySnapshot s sn =
    match write (setLast s (Z.max (sn_Index sn) (lastIndex s))) (snapshotBatch s sn snapData csData) with
    | (s2, Some e) => (s2, Some e)
    | (s2, None) => (setFirst s2 (sn_Index sn + 1), None)
    end.
Proof.
  intros HR Hi Hb Hsn Hcs. pose proof (wl_off _ (Rep_wf _ _ HR)). unfold ApplySnapshot, IsEmptySnap.
  rewrite (proj2 (Z.eqb_neq _ _)), (Rep_pred _ _ HR) by lia. cbn zeta.
  rewrite (proj2 (Z.leb_gt _ _)) by lia. unfold marshal. rewrite Hsn, Hcs.
  rewrite (wrap_u64_id (sn_Index sn + 1)) by (unfold_ints; lia).
  unfold snapshotBatch, setFirstIndexWithWB, setLastIndexWithWB.
  change (prefixedKey (nodeID s) snapshotKey) with (lkey (nodeID s) KSnap).
  rewrite Z.gtb_ltb. destruct (Z.ltb_spec (lastIndex s) (sn_Index sn)).
  - rewrite Z.max_l by lia. by rewrite <- !app_assoc.
  - rewrite Z.max_r by lia. destruct s. by rewrite <- !app_assoc.
Qed.

Lemma snapshotBatch_last_write s a sn snapData csData k :
  Rep s a -> lkey_ok k ->
  last_write (snapshotBatch s sn snapData csData) (lkey (nodeID s) k) =
    match k with
    | KConf => Some (WPut (lkey (nodeID s) KConf) csData)
    | KLast => if sn_Index sn >? lastIndex s then Some (putLast s (sn_Index sn)) else None
    | KFirst => Some (putFirst s (sn_Index sn + 1))
    | KLog i => if bool_decide (i ∈ indexes_to (firstIndex s) (Z.min (sn_Index sn) (lastIndex s) + 1))
                then Some (WDelete (lkey (nodeID s) (KLog i))) else None
    | KSnap => Some (WPut (lkey (nodeID s) KSnap) snapData)
    | KHard => None
    end.
Proof.
  intros HR Hk. pose proof (Rep_wf _ _ HR) as [Ho Hl _].
  pose proof (indexes_u64 (firstIndex s) (Z.min (sn_Index sn) (lastIndex s) + 1)) as Hu.
  rewrite (Rep_first _ _ HR), (Rep_last _ _ HR) in Hu. specialize (Hu ltac:(lia) ltac:(lia)).
  unfold snapshotBatch. rewrite !last_write_app. unfold putFirst, putLast.
  change (prefixedKey (nodeID s) firstIndexKey) with (lkey (nodeID s) KFirst).
  change (prefixedKey (nodeID s) lastIndexKey) with (lkey (nodeID s) KLast).
  assert (Hlw : last_write (if sn_Index sn >? lastIndex s then [WPut (lkey (nodeID s) KLast) (put_be 8 (sn_Index sn))] else [])
    (lkey (nodeID s) k) = if (sn_Index sn >? lastIndex s) && bool_decide (KLast = k)
                          then Some (WPut (lkey (nodeID s) KLast) (put_be 8 (sn_Index sn))) else None).
  { destruct (sn_Index sn >? lastIndex s); [|done]. by rewrite last_write_one. }
  rewrite Hlw. clear Hlw. rewrite (Rep_first _ _ HR), (Rep_last _ _ HR).
  rewrite !last_write_one, last_write_deletes by done.
  destruct k as [i| | | | |]; cbn; rewrite ?andb_false_r, ?andb_true_r; try done.
  - by destruct (bool_decide (i ∈ _)).
  - by destruct (sn_Index sn >? rl_last a).
Qed.

Definition rl_restored a (sn : Snapshot) : RLog :=
  mkRLog (sn_Index sn) (drop (Z.to_nat (sn_Index sn - rl_off a)) (rl_ents a)) (Some sn) (rl_hard a)
    (Some (sn_ConfState sn)).

Lemma ApplySnapshot_persisted s a sn snapData csData :
  Rep s a -> rl_off a < sn_Index sn -> sn_Index sn + 1 < 2 ^ 64 ->
  rw_marshal sn = Some snapData -> rw_marshal (sn_ConfState sn) = Some csData ->
  wf_log (rl_restored a sn) /\ rl_last (rl_restored a sn) = Z.max (sn_Index sn) (rl_last a) /\
  Persisted (nodeID s) (apply_batch (snapshotBatch s sn snapData csData) (contents (db s))) (rl_restored a sn).
Proof.
  intros HR Hgt Hb Hsn Hcs. pose proof (Rep_wf _ _ HR) as Hwf. pose proof Hwf as [Ho Hl _].
  set (a' := rl_restored a sn).
  assert (He : rl_ents a' = drop (Z.to_nat (rl_off a' - rl_off a)) (rl_ents a)) by done.
  destruct (wf_drop a a' Hwf) as [Hwf' Hlast']; [simpl; lia..|done|]. simpl in Hlast'.
  split; [done|]. split; [done|]. set (batch := snapshotBatch s sn snapData csData).
  assert (Hw : forall k, lkey_ok k -> last_write batch (lkey (nodeID s) k) = _)
    by (intros k Hk; exact (snapshotBatch_last_write s a sn snapData csData k HR Hk)).
  apply (Persisted_batch _ _ a); [apply HR|..].
  - right. by rewrite Hw.
  - unfold updatesIndex. rewrite Hw, (Rep_last _ _ HR), Hlast', Z.gtb_ltb by done.
    destruct (Z.ltb_spec (rl_last a) (sn_Index sn)); [right; unfold putLast; do 3 f_equal; lia|left; split; [done|lia]].
  - intros i e. apply drop_updates; [done|simpl; lia|done|]. intros j Hj Hlt. simpl in Hlt.
    rewrite Hw by done. rewrite bool_decide_eq_false_2; [done|]. rewrite elem_of_indexes_to. lia.
  - right. exists sn, snapData. by rewrite Hw.
  - apply updates_none. by rewrite Hw.
  - right. exists (sn_ConfState sn), csData. by rewrite Hw.
Qed.

Lemma ApplySnapshot_refines s a sn :
  healthy (db s) -> Rep s a -> cmdOk a (CApplySnapshot sn) ->
  let '(s', e) := ApplySnapshot s sn in
  let '(a', resp) := rl_applySnapshot a sn in
  match e with Some e => RErr e | None => RDone end = resp /\ healthy (db s') /\ Rep s' a'.
Proof.
  intros Hh HR ([snapData Hsn] & [csData Hcs] & Hpos & Hb). unfold rl_applySnapshot.
  destruct (Z.eqb_spec (sn_Index sn) 0) as [Hz|Hz].
  { unfold ApplySnapshot, IsEmptySnap. by rewrite Hz. }
  destruct (Z.leb_spec (sn_Index sn) (rl_off a)) as [Hle|Hgt].
  { unfold ApplySnapshot, IsEmptySnap. rewrite (proj2 (Z.eqb_neq _ _) Hz), (Rep_pred _ _ HR). cbn zeta.
    by rewrite (proj2 (Z.leb_le _ _) Hle). }
  rewrite (ApplySnapshot_batch s a sn snapData csData) by done.
  destruct (ApplySnapshot_persisted s a sn snapData csData HR Hgt Hb Hsn Hcs) as (Hwf' & Hlast' & HP').
  destruct (write_spec (setLast s (Z.max (sn_Index sn) (lastIndex s))) (snapshotBatch s sn snapData csData) Hh)
    as (d & -> & Hd & Hhd).
  cbn [setDb setLast db nodeID firstIndex lastIndex] in Hd |- *. split_and!; [done..|].
  constructor; cbn [setDb setLast setFirst db nodeID firstIndex lastIndex].
  - done.
  - by rewrite Hd.
  - done.
  - rewrite (Rep_last _ _ HR). by rewrite <- Hlast'.
Qed.

(** ** Opening *)

Lemma getIndex_spec s k i :
  healthy (db s) -> is_u64 i -> bytes_at (contents (db s)) (prefixedKey (nodeID s) k) = put_be 8 i ->
  getIndexUnsafe s k = Ok i.
Proof.
  intros Hh Hi Hb. unfold getIndexUnsafe. rewrite get_spec, Hb by done. simpl.
  destruct (String.eqb_spec (put_be 8 i) "") as [He|_]; [by apply (f_equal String.length) in He; rewrite put_be_length in He|].
  unfold binaryReadUint64BigEndian, str_len. rewrite put_be_length. simpl.
  rewrite str_take_all by apply put_be_length. by rewrite get_put_be_u64.
Qed.

(** A database that holds a log is opened without a write. *)
Lemma NewRocksDBStorage_persisted d node a :
  healthy d -> wf_log a -> Persisted node (contents d) a ->
  NewRocksDBStorage d node = Ok (mkStorage d node (rl_off a + 1) (rl_last a)).
Proof.
  intros Hh [Ho Hl _] HP. unfold NewRocksDBStorage, getFirstIndexUnsafe, getLastIndexUnsafe.
  assert (rl_off a <= rl_last a) by (unfold rl_last; lia).
  rewrite (getIndex_spec _ _ (rl_off a + 1)); [|done|unfold is_u64; lia|apply HP].
  cbn [loadIndex result_bind fst snd setFirst db nodeID firstIndex lastIndex].
  by rewrite (getIndex_spec _ _ (rl_last a)); [|done|unfold is_u64; lia|apply HP].
Qed.

Lemma Rep_reopen d node a :
  wf_log a -> Persisted node (contents d) a -> Rep (mkStorage d node (rl_off a + 1) (rl_last a)) a.
Proof. done. Qed.

Lemma getIndex_missing s k :
  healthy (db s) -> bytes_at (contents (db s)) (prefixedKey (nodeID s) k) = "" ->
  getIndexUnsafe s k = Err ErrIndexNotFound.
Proof. intros Hh Hb. unfold getIndexUnsafe. by rewrite get_spec, Hb. Qed.

(** A fresh database is given the empty log. *)
Lemma NewRocksDBStorage_fresh d node :
  healthy d -> (forall k, bytes_at (contents d) (lkey node k) = "") ->
  exists s, NewRocksDBStorage d node = Ok s /\ healthy (db s) /\ Rep s rl_init.
Proof.
  intros Hh Hempty. set (s0 := mkStorage d node 0 0).
  destruct (write_spec s0 [putFirst s0 1] Hh) as (d1 & Hw1 & Hd1 & Hh1).
  set (s1 := setFirst (setDb s0 d1) 1). destruct (write_spec s1 [putLast s1 0] Hh1) as (d2 & Hw2 & Hd2 & Hh2).
  exists (setLast (setDb s1 d2) 0). change s1 with (mkStorage d1 node 1 0) in Hw2, Hd2 |- *.
  cbn [setDb setLast db nodeID firstIndex lastIndex putLast] in Hd2.
  assert (Hopen : NewRocksDBStorage d node = Ok (setLast (setDb (mkStorage d1 node 1 0) d2) 0)).
  { unfold NewRocksDBStorage, getFirstIndexUnsafe, getLastIndexUnsafe. fold s0.
    rewrite getIndex_missing by (done || apply (Hempty KFirst)). cbn [loadIndex]. unfold setFirstIndexUnsafe.
    rewrite Hw1. cbn [result_bind fst snd]. change (setFirst (setDb s0 d1) 1) with (mkStorage d1 node 1 0).
    rewrite getIndex_missing; [|done|].
    - cbn [loadIndex]. unfold setLastIndexUnsafe. change (wrap_u64 (1 - 1)) with 0. by rewrite Hw2.
    - cbn [db nodeID]. rewrite Hd1, bytes_at_batch. change (prefixedKey node lastIndexKey) with (lkey node KLast).
      unfold putFirst. change (prefixedKey (nodeID s0) firstIndexKey) with (lkey node KFirst).
      rewrite last_write_one by done. apply (Hempty KLast). }
  split; [done|]. split; [done|].
  assert (Hall : forall k, lkey_ok k -> bytes_at (contents d2) (lkey node k) =
    if bool_decide (KLast = k) then put_be 8 0 else if bool_decide (KFirst = k) then put_be 8 1 else "").
  { intros k Hk. rewrite Hd2, Hd1, !bytes_at_batch. unfold putFirst, putLast.
    change (prefixedKey (nodeID s0) firstIndexKey) with (lkey node KFirst).
    change (prefixedKey _ lastIndexKey) with (lkey node KLast). rewrite !last_write_one by done.
    destruct (bool_decide (KLast = k)); [done|]. destruct (bool_decide (KFirst = k)); [done|]. apply Hempty. }
  constructor; [by constructor|constructor|done|done].
  - exact (Hall KFirst I).
  - exact (Hall KLast I).
  - by intros i e.
  - exact (Hall KSnap I).
  - exact (Hall KHard I).
  - exact (Hall KConf I).
Qed.

(** ** All commands *)

Lemma rl_step_refines s a c :
  healthy (db s) -> Rep s a -> cmdOk a c ->
  healthy (db (step s c).1) /\ Rep (step s c).1 (rl_step a c).1 /\ (step s c).2 = (rl_step a c).2.
Proof.
  intros Hh HR Hok. destruct c; cbn [step rl_step fst snd] in *.
  - destruct (Append_refines s a es Hh HR Hok) as (s' & -> & ? & ?). done.
  - destruct (SetHardState_refines s a st Hh HR Hok) as (s' & -> & ? & ?). done.
  - destruct (SetConfState_refines s a cs Hh HR Hok) as (s' & -> & ? & ?). done.
  - pose proof (CreateSnapshot_refines s a index cs data Hh HR Hok) as H.
    destruct (CreateSnapshot s index cs data) as [s' r], (rl_createSnapshot a index cs data). naive_solver.
  - pose proof (ApplySnapshot_refines s a snap Hh HR Hok) as H.
    destruct (ApplySnapshot s snap) as [s' e], (rl_applySnapshot a snap). naive_solver.
  - pose proof (rl_Compact_refines s a index Hh HR) as H.
    destruct (Compact s index) as [s' e], (rl_compact a index). naive_solver.
  - by rewrite (Entries_refines s a).
  - by rewrite (Term_refines s a).
  - split_and!; [done..|]. unfold FirstIndex. by rewrite (Rep_first _ _ HR).
  - split_and!; [done..|]. unfold LastIndex. by rewrite (Rep_last _ _ HR).
  - split_and!; [done..|]. unfold Snapshot_. by rewrite (loadSnapshot_spec s a).
  - split_and!; [done..|]. by rewrite (InitialState_refines s a).
  - rewrite (NewRocksDBStorage_persisted (db s) (nodeID s) a) by (done || apply HR).
    split_and!; [done| |done]. apply Rep_reopen; apply HR.
Qed.

Lemma run_refines cs : forall s a,
  healthy (db s) -> Rep s a -> traceOk a cs ->
  healthy (db (run s cs).1) /\ Rep (run s cs).1 (rl_run a cs).1 /\ (run s cs).2 = (rl_run a cs).2.
Proof.
  induction cs as [|c cs IH]; intros s a Hh HR Hok; [done|]. destruct Hok as [Hc Hcs]. cbn [run rl_run].
  destruct (rl_step_refines s a c Hh HR Hc) as (Hh1 & HR1 & Hr).
  destruct (step s c) as [s1 r], (rl_step a c) as [a1 r']. simpl in *. subst r'.
  specialize (IH s1 a1 Hh1 HR1 Hcs). destruct (run s1 cs) as [s2 rs], (rl_run a1 cs) as [a2 rs'].
  simpl in *. destruct IH as (? & ? & ->). done.
Qed.

End refine.
