(* ===== verification/RaftLogTheorems.v ===== *)
(** * Properties of the Raft log on RocksDB

    The refinement for all runs, crashes included; what a failing disk can and
    cannot do; the size bound of [Entries]; and the runs where the log is not
    what the Raft library expects.  The concrete encoding at the end of the file
    shows that the interfaces can be implemented. *)

From S2P Require Import Prelude GoBytes Revision OrderedTree ByteDB RaftLog RaftLogRefine.
Local Open Scope go_scope.

(** ** A failing disk *)

Section faults.
Context {DB : Type} `{!ByteDB DB, !ByteDBLaws DB}.
Context `{!RaftWire Entry, !RaftWire HardState, !RaftWire ConfState, !RaftWire Snapshot}.

Implicit Types (s : RocksDBStorage DB) (a : RLog).

Lemma get_ok s key v : get s key = Ok v -> v = bytes_at (contents (db s)) key.
Proof. unfold get. destruct (db_get (db s) key) eqn:E; [|done]. intros [= <-]. by apply db_get_ok. Qed.

Lemma write_cases s batch :
  nodeID (write s batch).1 = nodeID s /\
  match (write s batch).2 with
  | None => contents (db (write s batch).1) = apply_batch batch (contents (db s))
  | Some _ => contents (db (write s batch).1) = contents (db s)
  end.
Proof.
  unfold write. destruct (db_write (db s) batch) as [d [e|]] eqn:E; simpl.
  - split; [done|]. by eapply db_write_failed.
  - split; [done|]. by apply db_write_ok.
Qed.

Lemma decodeOr_ok {A} `{!RaftWire A} s key (o : option A) zero v x :
  holds (contents (db s)) key o -> get s key = Ok v -> decodeOr zero v = Ok x -> x = default zero o.
Proof. intros Ho ->%get_ok. rewrite (holds_decode _ _ _ _ Ho). by intros [= <-]. Qed.

Lemma loadSnapshot_ok s a sn : Rep s a -> loadSnapshotUnsafe s = Ok sn -> sn = rl_snapshot a.
Proof.
  intros HR. unfold loadSnapshotUnsafe. rewrite (Rep_pred _ _ HR).
  destruct (get s _) as [v|] eqn:E; [|done]. simpl. intros Hs.
  eapply (decodeOr_ok s _ _ (mkSnapshot "" emptyConfState (rl_off a) 0)); [apply HR|exact E|].
  unfold decodeOr. by destruct (String.eqb v "").
Qed.

Lemma snapshotTerm_ok s a index t :
  Rep s a -> rl_off a <= index <= rl_last a -> snapshotTerm s index = Ok t -> t = rl_snapshotTerm a index.
Proof.
  intros HR Hi. unfold snapshotTerm, rl_snapshotTerm. rewrite (Rep_pred _ _ HR).
  destruct (Z.eqb_spec index (rl_off a)) as [->|Hne].
  - destruct (loadSnapshotUnsafe s) as [sn|] eqn:E; [|done]. apply (loadSnapshot_ok _ a) in E as ->; [|done].
    unfold rl_snapshot, IsEmptySnap. simpl. intros [= <-].
    destruct (rl_snap a) as [sn|]; simpl; [by destruct (sn_Index sn =? 0)|by destruct (rl_off a =? 0)].
  - unfold loadEntry. destruct (get s _) as [v|] eqn:E; [|done]. apply get_ok in E as ->. simpl.
    destruct (rl_entry_is_Some a index ltac:(lia)) as [e He]. rewrite He.
    pose proof (P_entry _ _ _ _ _ (Rep_db _ _ HR) He) as Ha.
    pose proof (rw_nonempty _ _ Ha) as Hn. apply String.eqb_neq in Hn. rewrite Hn.
    unfold unmarshal. rewrite (rw_roundtrip _ _ Ha). by intros [= <-].
Qed.

(** What one command leaves on disk: all of its effect, or nothing of it when
    it reports an error. *)
Definition allOrNothing s a (s' : RocksDBStorage DB) (r : Resp) a' : Prop :=
  nodeID s' = nodeID s /\
  match r with
  | RErr _ => contents (db s') = contents (db s)
  | _ => wf_log a' /\ Persisted (nodeID s) (contents (db s')) a'
  end.

Lemma allOrNothing_same s a r : Rep s a -> allOrNothing s a s r a.
Proof. intros [Hw HP _ _]. split; [done|]. by destruct r. Qed.

Lemma allOrNothing_write s s0 a a' batch f :
  nodeID s0 = nodeID s -> contents (db s0) = contents (db s) ->
  (forall s1, nodeID (f s1) = nodeID s1 /\ db (f s1) = db s1) ->
  wf_log a' -> Persisted (nodeID s) (apply_batch batch (contents (db s))) a' ->
  let p := write s0 batch in
  allOrNothing s a (match p.2 with None => f p.1 | Some _ => p.1 end)
    (match p.2 with Some e => RErr e | None => RDone end) a'.
Proof.
  intros Hn Hc Hf Hw HP. destruct (write_cases s0 batch) as [Hn' Hd]. cbn zeta. rewrite Hc in Hd.
  destruct (write s0 batch) as [s1 [e|]]; simpl in *.
  - split; [congruence|done].
  - destruct (Hf s1) as [Hn1 Hd1]. split; [congruence|]. rewrite Hd1, Hd. done.
Qed.

Lemma saveMessage_atomic {A} `{!RaftWire A} s a a' k (x : A) :
  Rep s a -> encodes x -> (forall d, rw_marshal x = Some d -> saving (nodeID s) k d a a') ->
  allOrNothing s a (saveMessage s (suffix k) x).1
    (match (saveMessage s (suffix k) x).2 with Some e => RErr e | None => RDone end) a'.
Proof.
  intros HR [d Hd] Hsv. destruct (saving_persisted _ _ _ _ _ _ (Rep_wf _ _ HR) (Rep_db _ _ HR) (Hsv d Hd)) as (Hw & _ & HP).
  unfold saveMessage, marshal. rewrite Hd.
  pose proof (allOrNothing_write s s a a' [WPut (lkey (nodeID s) k) d] id eq_refl eq_refl ltac:(done) Hw HP) as HA.
  cbn zeta in HA. change (prefixedKey (nodeID s) (suffix k)) with (lkey (nodeID s) k).
  by destruct (write s _) as [s1 [e|]].
Qed.

Lemma Append_atomic s a es :
  Rep s a -> appendOk a es ->
  allOrNothing s a (Append s es).1 (match (Append s es).2 with Some e => RErr e | None => RDone end) (rl_append a es).
Proof.
  intros HR Hok. destruct es as [|e0 es]; [by apply allOrNothing_same|].
  pose proof Hok as (_ & Henc & _). destruct (putEntries_ok (nodeID s) (e0 :: es) Henc) as [puts Hputs].
  rewrite (Append_batch s a e0 es puts HR Hok Hputs).
  pose proof (allOrNothing_write s (setLast s (e_Index e0 + Z.of_nat (length es))) a (rl_append a (e0 :: es))
    (appendBatch s e0 es puts) id eq_refl eq_refl ltac:(done)) as HA. cbn zeta in HA.
  destruct (write _ _) as [s1 [e|]]; apply HA; try (apply wf_append; [apply HR|done]);
    exact (Append_persisted s a e0 es puts HR Hok Hputs).
Qed.

Lemma Compact_atomic s a index :
  Rep s a ->
  allOrNothing s a (Compact s index).1 (match (Compact s index).2 with Some e => RErr e | None => RDone end)
    (rl_compact a index).1.
Proof.
  intros HR. unfold Compact, rl_compact. rewrite (Rep_first _ _ HR), (Rep_last _ _ HR).
  destruct (Z.leb_spec index (rl_off a + 1)); [by apply allOrNothing_same|]. rewrite Z.gtb_ltb.
  destruct (Z.ltb_spec (rl_last a) index); [by apply allOrNothing_same|].
  destruct (Compact_persisted s a index HR ltac:(lia)) as (Hw & _ & HP).
  pose proof (allOrNothing_write s s a (rl_compacted a index) (compactBatch s index)
    (fun s1 => setFirst s1 index) eq_refl eq_refl ltac:(done) Hw HP) as HA. cbn zeta in HA.
  unfold setFirstIndexWithWB. unfold compactBatch in HA. rewrite (Rep_first _ _ HR) in HA.
  by destruct (write s _) as [s1 [e|]].
Qed.

Lemma ApplySnapshot_atomic s a sn :
  Rep s a -> cmdOk a (CApplySnapshot sn) ->
  allOrNothing s a (ApplySnapshot s sn).1 (match (ApplySnapshot s sn).2 with Some e => RErr e | None => RDone end)
    (rl_applySnapshot a sn).1.
Proof.
  intros HR ([snapData Hsn] & [csData Hcs] & Hpos & Hb). unfold rl_applySnapshot.
  destruct (Z.eqb_spec (sn_Index sn) 0) as [Hz|Hz].
  { unfold ApplySnapshot, IsEmptySnap. rewrite Hz. by apply allOrNothing_same. }
  destruct (Z.leb_spec (sn_Index sn) (rl_off a)) as [Hle|Hgt].
  { unfold ApplySnapshot, IsEmptySnap. rewrite (proj2 (Z.eqb_neq _ _) Hz), (Rep_pred _ _ HR). cbn zeta.
    rewrite (proj2 (Z.leb_le _ _) Hle). by apply allOrNothing_same. }
  rewrite (ApplySnapshot_batch s a sn snapData csData) by done.
  destruct (ApplySnapshot_persisted s a sn snapData csData HR Hgt Hb Hsn Hcs) as (Hw & _ & HP).
  pose proof (allOrNothing_write s (setLast s (Z.max (sn_Index sn) (lastIndex s))) a (rl_restored a sn)
    (snapshotBatch s sn snapData csData) (fun s1 => setFirst s1 (sn_Index sn + 1)) eq_refl eq_refl ltac:(done) Hw HP) as HA.
  cbn zeta in HA. by destruct (write _ _) as [s1 [e|]].
Qed.

Lemma CreateSnapshot_atomic s a index cs data :
  Rep s a -> cmdOk a (CCreateSnapshot index cs data) ->
  allOrNothing s a (CreateSnapshot s index cs data).1 (answer RSnapshot (CreateSnapshot s index cs data).2)
    (rl_createSnapshot a index cs data).1.
Proof.
  intros HR Hok. unfold CreateSnapshot, rl_createSnapshot. rewrite (Rep_pred _ _ HR), (Rep_last _ _ HR).
  destruct (Z.ltb_spec index (rl_off a)); [by apply allOrNothing_same|]. rewrite Z.gtb_ltb.
  destruct (Z.ltb_spec (rl_last a) index); [by apply allOrNothing_same|].
  destruct (snapshotTerm s index) as [t|e] eqn:E; [|by split].
  apply (snapshotTerm_ok s a) in E as ->; [|done|lia]. cbn zeta.
  set (sn := mkSnapshot data cs index (rl_snapshotTerm a index)) in *.
  pose proof (saveMessage_atomic s a (withSnap a sn) KSnap sn HR Hok ltac:(intros d Hd; by apply saving_snap)) as HA.
  change (suffix KSnap) with snapshotKey in HA. by destruct (saveMessage s snapshotKey sn) as [s1 [e|]].
Qed.

Lemma step_atomic s a c :
  Rep s a -> cmdOk a c -> c <> CReopen -> allOrNothing s a (step s c).1 (step s c).2 (rl_step a c).1.
Proof.
  intros HR Hok Hc. destruct c; cbn [step rl_step fst snd done]; try by apply allOrNothing_same.
  - by apply Append_atomic.
  - apply (saveMessage_atomic s a (withHard a st) KHard); [done..|]. intros d Hd. by apply saving_hard.
  - apply (saveMessage_atomic s a (withConf a cs) KConf); [done..|]. intros d Hd. by apply saving_conf.
  - pose proof (CreateSnapshot_atomic s a index cs data HR Hok) as HA. by destruct (CreateSnapshot s index cs data).
  - by apply ApplySnapshot_atomic.
  - by apply Compact_atomic.
  - done.
Qed.

End faults.

(** ** The size bound of [Entries] *)

Section limit.
Context `{!RaftWire Entry}.

Lemma limitFrom_prefix maxSize es : forall size, limitFrom maxSize size es `prefix_of` es.
Proof.
  induction es as [|e es IH]; intros size; simpl; [done|].
  destruct (_ && _); [apply prefix_nil|]. by apply prefix_cons.
Qed.

(** Once something has been taken, the bound holds and is used up. *)
Lemma limitFrom_bound maxSize es : forall size,
  Forall (fun e => 0 < rw_size e) es -> 0 < size -> size <= maxSize ->
  size + totalSize (limitFrom maxSize size es) <= maxSize.
Proof.
  induction es as [|e es IH]; intros size Hes Hs Hm; [unfold totalSize; simpl; lia|]. cbn [limitFrom]. apply Forall_cons in Hes as [He Hes].
  rewrite !Z.gtb_ltb. rewrite (proj2 (Z.ltb_lt _ _)) by lia. cbn [andb].
  unfold totalSize. destruct (Z.ltb_spec maxSize (size + rw_size e)); [simpl; lia|].
  assert (0 < size + rw_size e) as Hp by lia. specialize (IH _ Hes Hp ltac:(lia)).
  unfold totalSize in IH. cbn [foldr]. lia.
Qed.

Lemma limitFrom_maximal maxSize es : forall size e,
  Forall (fun e => 0 < rw_size e) es -> 0 <= size ->
  es !! length (limitFrom maxSize size es) = Some e ->
  maxSize < size + totalSize (limitFrom maxSize size es) + rw_size e.
Proof.
  induction es as [|x es IH]; intros size e Hes Hs; [done|]. cbn [limitFrom]. rewrite !Z.gtb_ltb.
  apply Forall_cons in Hes as [Hx Hes].
  assert (Hgo : 0 <= size + rw_size x) by lia. unfold totalSize in *.
  destruct (Z.ltb_spec 0 size), (Z.ltb_spec maxSize (size + rw_size x)); cbn [andb length lookup list_lookup foldr];
    intros He; [injection He as <-; lia| | |]; specialize (IH _ _ Hes Hgo He); lia.
Qed.

End limit.

Section theorems.
Context {DB : Type} `{!ByteDB DB, !ByteDBLaws DB}.
Context `{!RaftWire Entry, !RaftWire HardState, !RaftWire ConfState, !RaftWire Snapshot}.

Implicit Types (s : RocksDBStorage DB) (a : RLog).

Lemma slice_sizes s a lo hi :
  Rep s a -> rl_off a < lo -> Forall (fun e => 0 < rw_size e) (rl_slice a lo hi).
Proof.
  intros HR Hlo. apply Forall_lookup. intros i e Hi. apply rl_slice_lookup in Hi; [|done].
  pose proof (P_entry _ _ _ _ _ (Rep_db _ _ HR) Hi) as Ha. rewrite (rw_size_length _ _ Ha).
  pose proof (rw_nonempty _ _ Ha) as Hn. destruct (bytes_at _ _) as [|c d]; [done|].
  unfold str_len. cbn [String.length]. lia.
Qed.

(** C34: on a database that works, [Entries lo hi maxSize] inside the log
    returns the first entries of the range: at least one, at most [maxSize]
    bytes in all unless it is that one, and so many that the next entry of the
    range would exceed [maxSize]. *)
Theorem raft_log_entries_bounds s a lo hi maxSize :
  healthy (db s) -> Rep s a -> rl_off a < lo -> lo < hi -> hi <= rl_last a + 1 ->
  totalSize (rl_slice a lo hi) < 2 ^ 64 ->
  exists es, Entries s lo hi maxSize = Ok es /\ es `prefix_of` rl_slice a lo hi /\ es <> [] /\
    (totalSize es <= maxSize \/ length es = 1%nat) /\
    forall e, rl_slice a lo hi !! length es = Some e -> maxSize < totalSize es + rw_size e.
Proof.
  intros Hh HR Hlo Hlt Hhi Hsz. rewrite (Entries_refines s a) by done. unfold rl_entries.
  rewrite !Z.gtb_ltb, (proj2 (Z.ltb_ge hi lo)), (proj2 (Z.leb_gt lo (rl_off a))),
    (proj2 (Z.ltb_ge (rl_last a + 1) hi)) by lia.
  pose proof (slice_sizes s a lo hi HR Hlo) as Hpos.
  pose proof (rl_slice_length a lo hi Hlo ltac:(lia)) as Hlen.
  eexists. split; [done|]. split; [apply limitFrom_prefix|].
  split; [destruct (rl_slice a lo hi); simpl in Hlen |- *; [lia|done]|]. split.
  - destruct (rl_slice a lo hi) as [|e es]; [simpl in Hlen; lia|]. apply Forall_cons in Hpos as [He Hes].
    cbn [limitFrom]. change (0 >? 0) with false. cbn [andb].
    destruct (Z.le_gt_cases (rw_size e) maxSize) as [Hle|Hgt].
    + left. apply (limitFrom_bound maxSize es (rw_size e)); done.
    + right. destruct es as [|e' es]; [done|]. cbn [limitFrom]. rewrite !Z.gtb_ltb. apply Forall_cons in Hes as [He' _].
      rewrite (proj2 (Z.ltb_lt 0 _)), (proj2 (Z.ltb_lt maxSize _)) by lia. done.
  - intros e He. pose proof (limitFrom_maximal maxSize _ 0 e Hpos ltac:(lia) He). lia.
Qed.


(** Such entries delete to the old end, and write nothing there. *)
Lemma Append_short s a e0 es :
  healthy (db s) -> Rep s a ->
  numbered (e_Index e0) (e0 :: es) -> Forall encodes (e0 :: es) ->
  rl_off a + 1 <= e_Index e0 -> e_Index e0 + Z.of_nat (length es) < rl_last a ->
  exists d', Append s (e0 :: es) = (setDb s d', None) /\ get (setDb s d') (logKey (nodeID s) (rl_last a)) = Ok "".
Proof.
  intros Hh HR Hnum Henc Hlo Hshort. pose proof (Rep_wf _ _ HR) as [Ho Hl _].
  destruct (putEntries_ok (nodeID s) (e0 :: es) Henc) as [puts Hputs].
  destruct (last (e0 :: es)) as [en|] eqn:El; [|by apply last_None in El].
  pose proof (last_index _ _ _ Hnum El) as Hen. cbn [length] in Hen.
  set (batch := deleteEntries (nodeID s) (indexes_to (e_Index e0) (rl_last a + 1)) ++ puts).
  destruct (write_spec s batch Hh) as (d' & Hw & Hd & Hh'). exists d'.
  assert (Hap : Append s (e0 :: es) = (setDb s d', None)).
  { unfold Append. rewrite El, Hputs, (Rep_last _ _ HR), (proj2 (Z.leb_le _ _)) by lia. cbn zeta.
    rewrite !Z.gtb_ltb. destruct (Z.ltb_spec (rl_last a) (e_Index en)); [lia|].
    rewrite !Z.gtb_ltb, (Rep_first _ _ HR), (Rep_last _ _ HR). destruct (Z.ltb_spec (rl_last a) (rl_off a + 1)); [lia|done]. }
  split; [done|]. rewrite get_spec by done. cbn [setDb db]. rewrite Hd, bytes_at_batch, logKey_lkey. unfold batch.
    assert (Hk : lkey_ok (KLog (rl_last a))) by (simpl; unfold is_u64; lia).
    rewrite last_write_app.
    pose proof (last_write_puts (nodeID s) (e0 :: es) _ puts _ Hnum ltac:(lia) ltac:(simpl; lia) Hk Hputs) as Hp. cbn beta iota in Hp.
    rewrite (proj2 (Z.leb_le _ _)), lookup_ge_None_2 in Hp by (simpl; lia). rewrite Hp.
    rewrite last_write_deletes by (done || apply indexes_u64; lia).
    by rewrite bool_decide_eq_true_2 by (apply elem_of_indexes_to; lia).
Qed.

Lemma rl_short_last a e0 es :
  rl_off a + 1 <= e_Index e0 -> e_Index e0 + Z.of_nat (length es) < rl_last a ->
  rl_last (rl_append a (e0 :: es)) = e_Index e0 + Z.of_nat (length es).
Proof.
  intros Hlo Hshort. unfold rl_append, rl_last in *. cbn [rl_off rl_ents]. rewrite length_app, length_take. cbn [length]. lia.
Qed.

(** New entries that replace the end of the log and stop before it, as a
    new leader sends them, remove the old tail without moving the last index:
    [LastIndex] still answers the index of a removed entry, and the entry there
    can no longer be read. *)
Theorem raft_log_short_append s a e0 es :
  healthy (db s) -> Rep s a ->
  numbered (e_Index e0) (e0 :: es) -> Forall encodes (e0 :: es) ->
  rl_off a + 1 <= e_Index e0 -> e_Index e0 + Z.of_nat (length es) < rl_last a ->
  exists s', Append s (e0 :: es) = (s', None) /\ LastIndex s' = rl_last a /\
    Term s' (rl_last a) = Err ErrUnavailable /\
    forall maxSize, Entries s' (rl_last a) (rl_last a + 1) maxSize = Err ErrUnavailable.
Proof.
  intros Hh HR Hnum Henc Hlo Hshort. pose proof (Rep_wf _ _ HR) as [Ho Hl _].
  destruct (Append_short s a e0 es) as (d' & Hap & Hgone); [done..|]. exists (setDb s d').
  split; [done|]. split; [apply (Rep_last _ _ HR)|].
  split.
  - unfold Term. cbn [setDb firstIndex lastIndex]. rewrite (Rep_first _ _ HR), (Rep_last _ _ HR).
    rewrite wrap_u64_id by (unfold_ints; lia).
    rewrite (proj2 (Z.ltb_ge _ _)), Z.gtb_ltb, (proj2 (Z.ltb_ge _ _)), (proj2 (Z.eqb_neq _ _)) by lia.
    unfold loadEntry. cbn [setDb nodeID]. by rewrite Hgone.
  - intros maxSize. unfold Entries. cbn [setDb firstIndex lastIndex]. rewrite (Rep_first _ _ HR), (Rep_last _ _ HR).
    rewrite wrap_u64_id by (unfold_ints; lia).
    rewrite !Z.gtb_ltb, !(proj2 (Z.ltb_ge _ _)), (proj2 (Z.eqb_neq _ _)) by lia.
    rewrite indexes_to_cons by lia. cbn [entriesLoop setDb nodeID]. by rewrite Hgone.
Qed.

(** C7: the storage is the log the Raft library asks for, as long as no append
    shortens it.  It opens a working database without keys of its node as the empty
    log, and from there every sequence of calls whose appends have encodings,
    continue the log or replace its end, and stop no earlier than it, in which the
    node may also stop and open the database again, gets exactly the answers of the
    abstract log, errors included.  The condition on appends is needed: after any
    such sequence an append that stops before the end of the log succeeds and
    leaves the last index where it was, at an entry that is gone. *)
Theorem raft_log_refines (d : DB) node cs :
  healthy d -> (forall key, bytes_at (contents d) (prefixedKey node key) = "") -> traceOk rl_init cs ->
  exists s, NewRocksDBStorage d node = Ok s /\ (run s cs).2 = (rl_run rl_init cs).2 /\
    forall e0 es, let a := (rl_run rl_init cs).1 in
      numbered (e_Index e0) (e0 :: es) -> Forall encodes (e0 :: es) ->
      rl_off a + 1 <= e_Index e0 -> e_Index e0 + Z.of_nat (length es) < rl_last a ->
      exists s', Append (run s cs).1 (e0 :: es) = (s', None) /\ LastIndex s' = rl_last a /\
        Term s' (rl_last a) = Err ErrUnavailable /\ rl_last (rl_append a (e0 :: es)) = e_Index e0 + Z.of_nat (length es).
Proof.
  intros Hh Hempty Hcs. destruct (NewRocksDBStorage_fresh d node Hh) as (s & Hs & Hhs & HR).
  { intros k. apply Hempty. }
  destruct (run_refines cs s rl_init Hhs HR Hcs) as (Hh' & HR' & Hr). exists s. split; [done|]. split; [done|].
  intros e0 es a Hnum Henc Hlo Hshort. destruct (raft_log_short_append _ a e0 es Hh' HR') as (s' & Hap & Hl & Ht & _); [done..|].
  exists s'. split; [done|]. split; [done|]. split; [done|]. by apply rl_short_last.
Qed.

(** When the disk refuses the batch of an [Append] that extends the log,
    the caller gets the error, no byte changes, and yet [LastIndex] answers the
    index of the entry that was not stored. *)
Theorem raft_log_failed_append s a e0 es s' e :
  Rep s a -> appendOk a (e0 :: es) -> Append s (e0 :: es) = (s', Some e) ->
  contents (db s') = contents (db s) /\ LastIndex s' = e_Index e0 + Z.of_nat (length es) /\ rl_last a <= LastIndex s' .
Proof.
  intros HR Hok HA. pose proof Hok as (_ & Henc & Hi & Hge & _).
  destruct (putEntries_ok (nodeID s) (e0 :: es) Henc) as [puts Hputs].
  rewrite (Append_batch s a e0 es puts HR Hok Hputs) in HA.
  match type of HA with write ?s0 ?b = _ => destruct (write_cases s0 b) as [_ Hd]; rewrite HA in Hd end.
  unfold write in HA. destruct (db_write _ _) as [d [x|]]; [|done]. injection HA as <- _.
  cbn [length fst snd setDb setLast db] in *. unfold LastIndex. cbn. split; [done|]. lia.
Qed.

(** [NewRocksDBStorage] takes a first index it cannot read for a missing
    one: it opens the log at 1 and overwrites the stored index. *)
Theorem raft_log_unreadable_index_reset (d : DB) node s e :
  db_get d (prefixedKey node firstIndexKey) = Err e -> NewRocksDBStorage d node = Ok s ->
  FirstIndex s = 1 /\ bytes_at (contents (db s)) (prefixedKey node firstIndexKey) = put_be 8 1.
Proof.
  intros Hbad. unfold NewRocksDBStorage, getFirstIndexUnsafe, getIndexUnsafe, get. cbn [nodeID db]. rewrite Hbad.
  cbn [result_bind loadIndex]. unfold setFirstIndexUnsafe.
  pose proof (write_cases (mkStorage d node 0 0) [putFirst (mkStorage d node 0 0) 1]) as [Hn Hd].
  destruct (write _ _) as [s1 [x|]]; [done|]. cbn [result_bind fst snd] in *. simpl in Hn.
  assert (Hb : bytes_at (contents (db s1)) (prefixedKey node firstIndexKey) = put_be 8 1).
  { rewrite Hd, bytes_at_batch. unfold putFirst. cbn [nodeID].
    change (prefixedKey node firstIndexKey) with (lkey node KFirst). by rewrite last_write_one, bool_decide_eq_true_2. }
  unfold loadIndex. destruct (getLastIndexUnsafe (setFirst s1 1)) as [i|x].
  { by intros [= <-]. }
  unfold setLastIndexUnsafe. pose proof (write_cases (setFirst s1 1) [putLast (setFirst s1 1) (wrap_u64 (1 - 1))]) as [Hn2 Hd2].
  assert (Hfi : firstIndex (write (setFirst s1 1) [putLast (setFirst s1 1) (wrap_u64 (1 - 1))]).1 = 1).
  { unfold write. by destruct (db_write _ _). }
  destruct (write (setFirst s1 1) _) as [s2 [x'|]]; [done|]. cbn [result_bind fst snd] in *. intros [= <-].
  split; [done|]. cbn [setLast setFirst db] in *. rewrite Hd2, bytes_at_batch. unfold putLast. cbn [setFirst nodeID]. rewrite Hn.
  change (prefixedKey node lastIndexKey) with (lkey node KLast).
  change (prefixedKey node firstIndexKey) with (lkey node KFirst). by rewrite last_write_one, bool_decide_eq_false_2.
Qed.

End theorems.

(** ** An encoding

    Every type whose values can be counted is a message: its number in binary,
    after a first byte that makes the encoding non-empty. *)

Fixpoint pos_bits (p : positive) : string :=
  match p with xH => "" | xO q => String "0" (pos_bits q) | xI q => String "1" (pos_bits q) end.

Fixpoint bits_pos (s : string) : positive :=
  match s with
  | "" => xH
  | String c s' => if Ascii.eqb c "1" then xI (bits_pos s') else xO (bits_pos s')
  end.

Lemma bits_pos_bits p : bits_pos (pos_bits p) = p.
Proof. induction p as [p IH|p IH|]; simpl; by rewrite ?IH. Qed.

Definition untag (d : string) : string := match d with String _ b => b | "" => "" end.

#[refine] Instance countable_wire {A} `{Countable A} : RaftWire A := {
  rw_marshal a := Some (String "x" (pos_bits (encode a)));
  rw_unmarshal d := decode (bits_pos (untag d));
  rw_size a := str_len (String "x" (pos_bits (encode a)));
}.
Proof.
  - intros a d [= <-]. simpl. rewrite bits_pos_bits. apply decode_encode.
  - by intros a d [= <-].
  - by intros a d [= <-].
Defined.

#[global] Instance entry_eq_dec : EqDecision Entry.
Proof. solve_decision. Defined.
#[global] Instance hardstate_eq_dec : EqDecision HardState.
Proof. solve_decision. Defined.
#[global] Instance confstate_eq_dec : EqDecision ConfState.
Proof. solve_decision. Defined.
#[global] Instance snapshot_eq_dec : EqDecision Snapshot.
Proof. solve_decision. Defined.

#[global, refine] Instance entry_countable : Countable Entry :=
  inj_countable' (fun e => (e_Term e, e_Index e, e_Type e, e_Data e)) (fun '(t, i, y, d) => mkEntry t i y d) _.
Proof. by intros []. Defined.
#[global, refine] Instance hardstate_countable : Countable HardState :=
  inj_countable' (fun h => (hs_Term h, hs_Vote h, hs_Commit h)) (fun '(t, v, c) => mkHardState t v c) _.
Proof. by intros []. Defined.
#[global, refine] Instance confstate_countable : Countable ConfState :=
  inj_countable' (fun c => (cs_Voters c, cs_Learners c, cs_VotersOutgoing c, cs_LearnersNext c, cs_AutoLeave c))
    (fun '(v, l, o, n, a) => mkConfState v l o n a) _.
Proof. by intros []. Defined.
#[global, refine] Instance snapshot_countable : Countable Snapshot :=
  inj_countable' (fun s => (sn_Data s, sn_ConfState s, sn_Index s, sn_Term s)) (fun '(d, c, i, t) => mkSnapshot d c i t) _.
Proof. by intros []. Defined.

(** ** Witnesses *)

Definition ent (index term : Z) (data : string) : Entry := mkEntry term index 0 data.

Lemma numbered_nil first : numbered first [].
Proof. by intros i e. Qed.

Lemma numbered_cons first e es : e_Index e = first -> numbered (first + 1) es -> numbered first (e :: es).
Proof. intros He Hes [|i] x; simpl; [intros [= <-]; lia|]. intros Hx%Hes. lia. Qed.

(** Entries of a concrete log are numbered and have an encoding. *)
Ltac concrete_log :=
  cbn; repeat split;
  repeat first
    [ apply numbered_nil | apply numbered_cons | apply List.Forall_nil | apply List.Forall_cons | apply TCTrue_intro
    | by eexists | reflexivity | (vm_compute; done) | lia ].

Definition trace : list Cmd :=
  [ CSetHardState (mkHardState 1 1 0); CAppend [ent 1 1 "a"; ent 2 1 "b"; ent 3 1 "c"]; CEntries 1 4 1;
    CAppend [ent 3 2 "d"; ent 4 2 "e"]; CReopen; CTerm 3; CCompact 2; CTerm 1; CEntries 1 3 1000; CFirstIndex; CLastIndex;
    CCreateSnapshot 3 emptyConfState "s"; CCompact 9; CReopen; CSnapshot; CInitialState ].

Lemma raft_log_refines_witness :
  exists s s', NewRocksDBStorage emptyDB "n1" = Ok s /\ (run s trace).2 = (rl_run rl_init trace).2 /\
    Append (run s trace).1 [ent 3 3 "f"] = (s', None) /\ LastIndex s' = 4 /\ Term s' 4 = Err ErrUnavailable.
Proof.
  destruct (raft_log_refines emptyDB "n1" trace) as (s & Hs & Hr & Hshort).
  - by split.
  - intros key. unfold bytes_at, emptyDB. simpl. by rewrite lookup_empty.
  - concrete_log.
  - destruct (Hshort (ent 3 3 "f") []) as (s' & Hap & Hl & Ht & _); [concrete_log|concrete_log|vm_compute; done|reflexivity|].
    exists s, s'. split; [exact Hs|]. split; [exact Hr|]. split; [exact Hap|]. split; [exact Hl|exact Ht].
Defined.

(** The storage of a concrete run. *)
Definition opened : RocksDBStorage MemDB :=
  match NewRocksDBStorage emptyDB "n1" with Ok s => s | Err _ => mkStorage emptyDB "n1" 0 0 end.

Definition log3 : list Entry := [ent 1 1 "a"; ent 2 1 "b"; ent 3 1 "c"].

Definition stored3 : RocksDBStorage MemDB := (Append opened log3).1.

(** The same with a disk that refuses the next write. *)
Definition failing3 : RocksDBStorage MemDB := setDb stored3 (mkMemDB (md_data (db stored3)) [true] []).

Definition rlog3 : RLog := mkRLog 0 log3 None None None.

Lemma opened_rep : healthy (db opened) /\ Rep opened rl_init.
Proof.
  destruct (NewRocksDBStorage_fresh emptyDB "n1") as (s & Hs & Hh & HR); [by split|by intros []|].
  unfold opened. by rewrite Hs.
Qed.

Lemma stored3_rep : Rep stored3 rlog3.
Proof.
  destruct opened_rep as [Hh HR]. unfold stored3.
  destruct (Append_refines opened rl_init log3 Hh HR) as (s' & -> & _ & HR'); [unfold log3; concrete_log|]. done.
Qed.

Lemma failing3_rep : Rep failing3 rlog3.
Proof. destruct stored3_rep as [Hw HP Hf Hl]. by constructor. Qed.


Lemma raft_log_entries_bounds_witness :
  exists es, Entries stored3 1 4 30 = Ok es /\ length es = 1%nat.
Proof.
  destruct (raft_log_entries_bounds stored3 rlog3 1 4 30) as (es & He & _);
    [by split|apply stored3_rep|reflexivity..|].
  exists es. split; [done|]. vm_compute in He. by simplify_eq.
Defined.

Lemma raft_log_short_append_witness :
  exists s', Append stored3 [ent 2 2 "x"] = (s', None) /\ LastIndex s' = 3 /\ Term s' 3 = Err ErrUnavailable.
Proof.
  destruct (raft_log_short_append stored3 rlog3 (ent 2 2 "x") []) as (s' & Hap & Hl & Ht & _);
    [by split|apply stored3_rep|concrete_log|concrete_log|vm_compute; done|reflexivity|].
  by exists s'.
Defined.

Lemma raft_log_failed_append_witness :
  LastIndex (Append failing3 [ent 4 2 "x"]).1 = 4 /\
  contents (db (Append failing3 [ent 4 2 "x"]).1) = contents (db failing3).
Proof.
  destruct (raft_log_failed_append failing3 rlog3 (ent 4 2 "x") [] (Append failing3 [ent 4 2 "x"]).1 ErrDb) as (Hc & Hl & _);
    [apply failing3_rep|concrete_log|vm_compute; done|]. done.
Defined.

Lemma raft_log_unreadable_index_reset_witness :
  let d := mkMemDB (md_data (db (Compact stored3 3).1)) [] [prefixedKey "n1" firstIndexKey] in
  exists s, NewRocksDBStorage d "n1" = Ok s /\ FirstIndex s = 1 /\ Entries s 1 3 100 = Err ErrUnavailable.
Proof.
  intros d. eexists. split; [reflexivity|].
  split; [|vm_compute; done].
  by eapply (raft_log_unreadable_index_reset d "n1").
Defined.
