(* ===== verification/MvccRocks.v ===== *)
(** * The MVCC store on RocksDB ([internal/mvcc/rocksdb_store.go])

    Records live in the database under [mvcc:kv:<key>/<revision>]; the key index
    and the two revisions are cached.  Every method holds the lock, so it is one
    step.  A call that fails may still have moved the cache, so every operation
    returns the store next to its result.  A transaction collects its writes in a
    batch but reads the database. *)

From S2P Require Import Prelude GoBytes Revision OrderedTree KeyValue KeyIndex MemoryStore ByteDB.
Local Open Scope go_scope.

(** An error of the package or the database's own. *)
Inductive RocksError := Mvcc (e : MvccError) | Db (e : DbError).

Definition kvMVCCPrefix : string := "mvcc:kv:".
Definition metaCurrentRevision : string := "mvcc:meta:current_revision".
Definition metaCompactedRevision : string := "mvcc:meta:compacted_revision".

Definition makeStorageKey (key : string) (rev : Revision) : string := kvMVCCPrefix +:+ key +:+ "/" +:+ Bytes rev.

Definition parseStorageKey (storageKey : string) : option (string * Revision) :=
  if negb (has_prefix kvMVCCPrefix storageKey) then None
  else
    let remainder := str_drop (String.length kvMVCCPrefix) storageKey in
    if str_len remainder <? RevisionSize + 1 then None
    else
      let sepIdx := Z.to_nat (str_len remainder - RevisionSize - 1) in
      if match str_at sepIdx remainder with Some c => Ascii.eqb c "/" | None => false end
      then Some (str_take sepIdx remainder, ParseRevision (str_drop (S sepIdx) remainder))
      else None.

(** The value under a key that is there, can be read and decodes. *)
Definition readKv `{ByteDB DB} (d : DB) (storageKey : string) : option KeyValue :=
  match db_get d storageKey with
  | Ok data =>
      if str_len data >? 0 then match Decode data with Ok kv => Some kv | Err _ => None end else None
  | Err _ => None
  end.

Section store.
Context {DB : Type} `{!ByteDB DB} {TI : Type -> Type} `{!BTree string TI}.

Record RocksDBStore := mkRocksStore {
  db : DB;
  keyIndex : TI KeyItem;
  currentRev : Revision;
  compactedRev : Revision;
  closed : bool;
}.

Definition setDb (s : RocksDBStore) (d : DB) : RocksDBStore :=
  mkRocksStore d (keyIndex s) (currentRev s) (compactedRev s) (closed s).
Definition setIndex (s : RocksDBStore) (idx : TI KeyItem) : RocksDBStore :=
  mkRocksStore (db s) idx (currentRev s) (compactedRev s) (closed s).
Definition setCurrent (s : RocksDBStore) (r : Revision) : RocksDBStore :=
  mkRocksStore (db s) (keyIndex s) r (compactedRev s) (closed s).
Definition setCompacted (s : RocksDBStore) (r : Revision) : RocksDBStore :=
  mkRocksStore (db s) (keyIndex s) (currentRev s) r (closed s).

(** ** Opening *)

Definition loadRevision (d : DB) (key : string) : result RocksError Revision :=
  match db_get d key with
  | Err e => Err (Db e)
  | Ok data => Ok (if str_len data >=? 16 then ParseRevision data else Zero)
  end.

Definition loadMetadata (d : DB) : result RocksError (Revision * Revision) :=
  cur <-! loadRevision d metaCurrentRevision;
  comp <-! loadRevision d metaCompactedRevision;
  Ok (cur, comp).

(** One entry of the scan of [rebuildKeyIndex]. *)
Definition rebuildEntry (compacted : Revision) (idx : TI KeyItem) (p : string * string) : TI KeyItem :=
  match parseStorageKey p.1 with
  | None => idx
  | Some (userKey, rev) =>
      if LessThan rev compacted then idx
      else
        match Decode p.2 with
        | Err _ => idx
        | Ok kv => if Version kv =? 0 then (KeyIndex.Delete idx userKey rev).1 else KeyIndex.Put idx userKey rev
        end
  end.

Definition rebuildKeyIndex (d : DB) (compacted : Revision) : result RocksError (TI KeyItem) :=
  let '(l, err) := scan d kvMVCCPrefix in
  match err with
  | Some e => Err (Db e)
  | None => Ok (fold_left (rebuildEntry compacted) l NewKeyIndex)
  end.

Definition NewRocksDBStore (d : DB) : result RocksError RocksDBStore :=
  meta <-! loadMetadata d;
  idx <-! rebuildKeyIndex d meta.2;
  Ok (mkRocksStore d idx meta.1 meta.2 false).

Definition saveCurrentRevision (s : RocksDBStore) (batch : list WriteOp) : list WriteOp :=
  batch ++ [WPut metaCurrentRevision (Bytes (currentRev s))].

(** [db.Write], with its error in this file's type *)
Definition write (s : RocksDBStore) (batch : list WriteOp) : RocksDBStore * option RocksError :=
  let '(d, err) := db_write (db s) batch in (setDb s d, Db <$> err).

(** ** Reading *)

(** The statements shared by all methods that take a key. *)
Definition guarded {A} (s : RocksDBStore) (key : string) (body : RocksDBStore * result RocksError A) :
    RocksDBStore * result RocksError A :=
  if str_len key =? 0 then (s, Err (Mvcc ErrEmptyKey))
  else if closed s then (s, Err (Mvcc ErrClosed))
  else body.

Definition atRevision (s : RocksDBStore) (rev : Z) : Revision :=
  if rev =? 0 then currentRev s else mkRevision rev 0.

Definition Get (s : RocksDBStore) (key : string) (rev : Z) : result RocksError KeyValue :=
  fail_if str_len key =? 0 with (Mvcc ErrEmptyKey);
  fail_if closed s with (Mvcc ErrClosed);
  let atRev := atRevision s rev in
  fail_if LessThan atRev (compactedRev s) with (Mvcc ErrCompacted);
  fail_if GreaterThan atRev (currentRev s) with (Mvcc ErrFutureRevision);
  let keyRev := GetRevision (keyIndex s) key atRev in
  fail_if IsZero keyRev with (Mvcc ErrKeyNotFound);
  match db_get (db s) (makeStorageKey key keyRev) with
  | Err e => Err (Db e)
  | Ok data =>
      fail_if str_len data =? 0 with (Mvcc ErrKeyNotFound);
      match Decode data with
      | Err e => Err (Mvcc e)
      | Ok kv => fail_if Version kv =? 0 with (Mvcc ErrKeyNotFound); Ok kv
      end
  end.

(** The callback of [Range], on the result list and its count. *)
Definition rangeCallback (s : RocksDBStore) (limit : Z) (st : list KeyValue * Z) (key : string) (keyRev : Revision) :
    (list KeyValue * Z) * bool :=
  let '(res, count) := st in
  if (limit >? 0) && (count >=? limit) then (st, false)
  else
    match readKv (db s) (makeStorageKey key keyRev) with
    | None => (st, true)
    | Some kv => if Version kv =? 0 then (st, true) else ((res ++ [kv], wrap_i64 (count + 1)), true)
    end.

Definition Range (s : RocksDBStore) (start : string) (end_ : option string) (rev limit : Z) :
    result RocksError (list KeyValue * Z) :=
  fail_if str_len start =? 0 with (Mvcc ErrEmptyKey);
  fail_if closed s with (Mvcc ErrClosed);
  let atRev := atRevision s rev in
  fail_if LessThan atRev (compactedRev s) with (Mvcc ErrCompacted);
  fail_if GreaterThan atRev (currentRev s) with (Mvcc ErrFutureRevision);
  Ok (KeyIndex.Range (keyIndex s) start end_ atRev (rangeCallback s limit) ([], 0)).

Definition CurrentRevision (s : RocksDBStore) : Z := Main (currentRev s).
Definition CompactedRevision (s : RocksDBStore) : Z := Main (compactedRev s).

(** ** Writing *)

Definition bump (s : RocksDBStore) : RocksDBStore := setCurrent s (mkRevision (wrap_i64 (Main (currentRev s) + 1)) 0).

(** [Put] looks the previous record up at the new revision, whether it is live
    or a deletion marker. *)
Definition Put (s : RocksDBStore) (key value : string) (lease : Z) : RocksDBStore * result RocksError Z :=
  guarded s key (
    let s1 := bump s in
    let rev := currentRev s1 in
    let prevKeyRev := GetRevision (keyIndex s1) key rev in
    let '(createRev, version) :=
      if IsZero prevKeyRev then (Main rev, 1)
      else
        match readKv (db s1) (makeStorageKey key prevKeyRev) with
        | Some prevKv => (CreateRevision prevKv, wrap_i64 (Version prevKv + 1))
        | None => (0, 1)
        end in
    let kv := mkKeyValue key value createRev (Main rev) version lease in
    match write s1 (saveCurrentRevision s1 [WPut (makeStorageKey key rev) (Encode kv)]) with
    | (s2, Some e) => (s2, Err e)
    | (s2, None) => (setIndex s2 (KeyIndex.Put (keyIndex s2) key rev), Ok (Main rev))
    end).

(** [ki != nil && !ki.IsDeleted()] *)
Definition liveItem (s : RocksDBStore) (key : string) : option KeyItem :=
  match KeyIndex.Get (keyIndex s) key with
  | Some ki => if IsDeleted ki then None else Some ki
  | None => None
  end.

(** The record at the last revision of an item, if it can be read. *)
Definition readLast (s : RocksDBStore) (key : string) (ki : KeyItem) : option KeyValue :=
  match CurrentGeneration ki with
  | Some gen =>
      let lastRev := LastRevision gen in
      if IsZero lastRev then None else readKv (db s) (makeStorageKey key lastRev)
  | None => None
  end.

(** The deletion marker of a key. *)
Definition tombstone (s : RocksDBStore) (key : string) (ki : KeyItem) (main : Z) : KeyValue :=
  mkKeyValue key "" match readLast s key ki with Some kv => CreateRevision kv | None => 0 end main 0 0.

Definition Delete (s : RocksDBStore) (key : string) : RocksDBStore * result RocksError (Z * Z) :=
  guarded s key (
    match liveItem s key with
    | None => (s, Ok (Main (currentRev s), 0))
    | Some ki =>
        let s1 := bump s in
        let rev := currentRev s1 in
        let encoded := Encode (tombstone s1 key ki (Main rev)) in
        match write s1 (saveCurrentRevision s1 [WPut (makeStorageKey key rev) encoded]) with
        | (s2, Some e) => (s2, Err e)
        | (s2, None) => (setIndex s2 (KeyIndex.Delete (keyIndex s2) key rev).1, Ok (Main rev, 1))
        end
    end).

Definition collectKeys (s : RocksDBStore) (start : string) (end_ : option string) : list string :=
  KeyIndex.Range (keyIndex s) start end_ Zero (fun keys key _ => (keys ++ [key], true)) [].

(** The loop over [keysToDelete]: the index moves at once, the batch grows, and
    [deleted] counts. *)
Fixpoint deleteKeys (revOf : Z -> Revision) (main : Z) (i : Z) (keys : list string)
    (st : RocksDBStore * list WriteOp * Z) : RocksDBStore * list WriteOp * Z :=
  match keys with
  | [] => st
  | key :: keys' =>
      let '(s, batch, deleted) := st in
      match liveItem s key with
      | None => deleteKeys revOf main (i + 1) keys' st
      | Some ki =>
          deleteKeys revOf main (i + 1) keys'
            (setIndex s (KeyIndex.Delete (keyIndex s) key (revOf i)).1,
             batch ++ [WPut (makeStorageKey key (revOf i)) (Encode (tombstone s key ki main))],
             wrap_i64 (deleted + 1))
      end
  end.

Definition DeleteRange (s : RocksDBStore) (start : string) (end_ : option string) :
    RocksDBStore * result RocksError (Z * Z) :=
  guarded s start (
    match collectKeys s start end_ with
    | [] => (s, Ok (Main (currentRev s), 0))
    | keysToDelete =>
        let s1 := bump s in
        let main := Main (currentRev s1) in
        let '(s2, batch, deleted) := deleteKeys (fun i => mkRevision main i) main 0 keysToDelete (s1, [], 0) in
        let s3 :=
          if deleted >? 0
          then setCurrent s2 (mkRevision (Main (currentRev s2)) (Z.of_nat (length keysToDelete) - 1)) else s2 in
        match write s3 (saveCurrentRevision s3 batch) with
        | (s4, Some e) => (s4, Err e)
        | (s4, None) => (s4, Ok (main, deleted))
        end
    end).

(** The deletions of [Compact]: the records below the target. *)
Definition compactBatch (targetRev : Revision) (l : list (string * string)) : list WriteOp :=
  WDelete <$> (List.filter (fun p => match parseStorageKey p.1 with
    | Some (_, keyRev) => LessThan keyRev targetRev | None => false end) l).*1.

(** The error of the iterator is not looked at; the physical compaction that
    follows changes no contents. *)
Definition Compact (s : RocksDBStore) (rev : Z) : RocksDBStore * result RocksError unit :=
  if closed s then (s, Err (Mvcc ErrClosed))
  else
    let targetRev := mkRevision rev 0 in
    if LessThanOrEqual targetRev (compactedRev s) then (s, Err (Mvcc ErrCompacted))
    else if GreaterThan targetRev (currentRev s) then (s, Err (Mvcc ErrFutureRevision))
    else
      let batch := compactBatch targetRev (scan (db s) kvMVCCPrefix).1 in
      let s1 := setCompacted s targetRev in
      match write s1 (batch ++ [WPut metaCompactedRevision (Bytes targetRev)]) with
      | (s2, Some e) => (s2, Err e)
      | (s2, None) => (setIndex s2 (KeyIndex.Compact (keyIndex s2) targetRev).1, Ok tt)
      end.

Definition Close (s : RocksDBStore) : RocksDBStore * result RocksError unit :=
  if closed s then (s, Err (Mvcc ErrClosed))
  else (mkRocksStore (db s) (keyIndex s) (currentRev s) (compactedRev s) true, Ok tt).

Definition Sync (s : RocksDBStore) : RocksDBStore * result RocksError unit :=
  if closed s then (s, Err (Mvcc ErrClosed))
  else
    match write s [WPut metaCurrentRevision (Bytes (currentRev s))] with
    | (s', Some e) => (s', Err e)
    | (s', None) => (s', Ok tt)
    end.

(** ** Transactions *)

Definition evaluateCondition (s : RocksDBStore) (cond : Condition) : option bool :=
  let kv := match liveItem s (c_Key cond) with Some ki => readLast s (c_Key cond) ki | None => None end in
  compare (condActual kv (c_Target cond)) (c_Compare cond) (c_Value cond).

Fixpoint evaluateConditions (s : RocksDBStore) (conds : list Condition) : option bool :=
  match conds with
  | [] => Some true
  | cond :: conds' =>
      match evaluateCondition s cond with
      | Some true => evaluateConditions s conds'
      | r => r
      end
  end.

Definition executePut (s : RocksDBStore) (batch : list WriteOp) (op : Op) (rev : Revision) :
    RocksDBStore * list WriteOp * OpResponse :=
  let key := op_Key op in
  let '(createRev, version) :=
    match liveItem s key with
    | Some ki =>
        match readLast s key ki with
        | Some prevKv => (CreateRevision prevKv, wrap_i64 (Version prevKv + 1))
        | None => (0, 1)
        end
    | None => (Main rev, 1)
    end in
  let kv := mkKeyValue key (op_Value op) createRev (Main rev) version (op_Lease op) in
  (setIndex s (KeyIndex.Put (keyIndex s) key rev), batch ++ [WPut (makeStorageKey key rev) (Encode kv)],
   mkOpResponse OpTypePut [] 0).

Definition executeGet (s : RocksDBStore) (op : Op) : OpResponse :=
  mkOpResponse OpTypeGet
    match op_End op with
    | None =>
        match liveItem s (op_Key op) with
        | Some ki =>
            match readLast s (op_Key op) ki with
            | Some kv => if Version kv >? 0 then [kv] else []
            | None => []
            end
        | None => []
        end
    | Some _ =>
        KeyIndex.Range (keyIndex s) (op_Key op) (op_End op) Zero
          (fun kvs key keyRev =>
             match readKv (db s) (makeStorageKey key keyRev) with
             | Some kv => if Version kv >? 0 then (kvs ++ [kv], true) else (kvs, true)
             | None => (kvs, true)
             end) []
    end 0.

Definition executeDelete (s : RocksDBStore) (batch : list WriteOp) (op : Op) (rev : Revision) :
    RocksDBStore * list WriteOp * OpResponse :=
  match liveItem s (op_Key op) with
  | None => (s, batch, mkOpResponse OpTypeDelete [] 0)
  | Some ki =>
      (setIndex s (KeyIndex.Delete (keyIndex s) (op_Key op) rev).1,
       batch ++ [WPut (makeStorageKey (op_Key op) rev) (Encode (tombstone s (op_Key op) ki (Main rev)))],
       mkOpResponse OpTypeDelete [] 1)
  end.

Definition executeDeleteRange (s : RocksDBStore) (batch : list WriteOp) (op : Op) (baseRev : Revision) :
    RocksDBStore * list WriteOp * OpResponse :=
  let keysToDelete := collectKeys s (op_Key op) (op_End op) in
  let '(s', batch', deleted) :=
    deleteKeys (fun i => mkRevision (Main baseRev) (wrap_i64 (Sub baseRev + i))) (Main baseRev) 0 keysToDelete
      (s, batch, 0) in
  (s', batch', mkOpResponse OpTypeDeleteRange [] deleted).

Definition executeOp (s : RocksDBStore) (batch : list WriteOp) (op : Op) (rev : Revision) :
    RocksDBStore * list WriteOp * OpResponse :=
  match op_Type op with
  | OpTypePut => executePut s batch op rev
  | OpTypeGet => (s, batch, executeGet s op)
  | OpTypeDelete => executeDelete s batch op rev
  | OpTypeDeleteRange => executeDeleteRange s batch op rev
  | OpTypeOther n => (s, batch, mkOpResponse (OpTypeOther n) [] 0)
  end.

Fixpoint executeOps (s : RocksDBStore) (batch : list WriteOp) (ops : list Op) (main i : Z) :
    RocksDBStore * list WriteOp * list OpResponse :=
  match ops with
  | [] => (s, batch, [])
  | op :: ops' =>
      let '(s1, batch1, resp) := executeOp s batch op (mkRevision main i) in
      let '(s2, batch2, resps) := executeOps s1 batch1 ops' main (i + 1) in
      (s2, batch2, resp :: resps)
  end.

(** [Commit]; [None] is the panic of an ill-typed condition, which is raised
    before the store is changed. *)
Definition Commit (s : RocksDBStore) (t : memoryTxn) : option (RocksDBStore * result RocksError TxnResponse) :=
  if closed s then Some (s, Err (Mvcc ErrClosed))
  else
    match evaluateConditions s (conditions t) with
    | None => None
    | Some succeeded =>
        let ops := if succeeded then thenOps t else elseOps t in
        let s1 := bump s in
        let main := Main (currentRev s1) in
        let '(s2, batch, responses) := executeOps s1 [] ops main 0 in
        let s3 :=
          if Nat.ltb 0 (length ops)
          then setCurrent s2 (mkRevision (Main (currentRev s2)) (Z.of_nat (length ops) - 1)) else s2 in
        Some match write s3 (saveCurrentRevision s3 batch) with
             | (s4, Some e) => (s4, Err e)
             | (s4, None) => (s4, Ok (mkTxnResponse succeeded main responses))
             end
    end.

(** ** [Hash] *)

(** [hash = hash*31 + uint32(b)] over some bytes *)
Fixpoint hashBytes (hash : Z) (data : string) : Z :=
  match data with
  | "" => hash
  | String b data' => hashBytes (wrap_u32 (hash * 31 + byte_val b)) data'
  end.

Definition Hash (s : RocksDBStore) : result RocksError Z :=
  fail_if closed s with (Mvcc ErrClosed);
  let '(l, err) := scan (db s) kvMVCCPrefix in
  match err with
  | Some e => Err (Db e)
  | None => Ok (fold_left (fun hash p => hashBytes (hashBytes hash p.1) p.2) l 0)
  end.

End store.

Arguments RocksDBStore : clear implicits.
