(* ===== verification/MvccRocksSpec.v ===== *)
(** * What the MVCC store on RocksDB promises

    The same event log as the in-memory store's, with the differences of this
    implementation: [Put] continues the history of a deleted key, and a
    transaction leaves the current revision at its last operation.  [Reopen] is
    the end of the process and [NewRocksDBStore] on the same database. *)

From S2P Require Import Prelude GoBytes Revision OrderedTree KeyValue KeyIndex MemoryStore.
From S2P Require Import MvccSpec MvccRefine MvccOps ByteDB MvccRocks.
Local Open Scope go_scope.

(** ** The specification *)

(** The record before is the latest event, a deletion marker too. *)
Definition rk_putAt (a : Spec) (key value : string) (lease : Z) (rev : Revision) : Spec :=
  append a rev
    match latest (log a) key with
    | Some prev => mkKeyValue key value (CreateRevision prev.2) (Main rev) (Version prev.2 + 1) lease
    | None => mkKeyValue key value (Main rev) (Main rev) 1 lease
    end.

Definition rk_put (a : Spec) (key value : string) (lease : Z) : result MvccError (Spec * Z) :=
  fail_if String.eqb key "" with ErrEmptyKey;
  fail_if isClosed a with ErrClosed;
  let rev := nextRev a in
  Ok (rk_putAt (setCur a rev) key value lease rev, Main rev).

Definition rk_commit (a : Spec) (t : memoryTxn) : option (result MvccError (Spec * TxnResponse)) :=
  if isClosed a then Some (Err ErrClosed)
  else
    match spec_conditions (log a) (conditions t) with
    | None => None
    | Some succeeded =>
        let rev := nextRev a in
        let ops := if succeeded then thenOps t else elseOps t in
        let '(a', resps) := spec_ops (setCur a rev) ops rev in
        let last := mkRevision (Main rev) (Z.of_nat (length ops) - 1) in
        Some (Ok (if Nat.ltb 0 (length ops) then setCur a' last else a',
                  mkTxnResponse succeeded (Main rev) resps))
    end.

Definition rk_sync (a : Spec) : result MvccError Spec := fail_if isClosed a with ErrClosed; Ok a.

Definition rk_reopen (a : Spec) : Spec := mkSpec (log a) (events a) (cur a) (compacted a) false.

Inductive RCmd := RDo (c : Cmd) | RSync | RReopen.

Definition rk_step (a : Spec) (c : RCmd) : Spec * Resp :=
  match c with
  | RDo (CmdPut key value lease) => MvccOps.write a RespRev (rk_put a key value lease)
  | RDo (CmdCommit t) => commit a (rk_commit a t)
  | RDo c => spec_step a c
  | RSync => update a (rk_sync a)
  | RReopen => (rk_reopen a, RespDone)
  end.

Fixpoint rk_run (a : Spec) (cs : list RCmd) : Spec * list Resp :=
  match cs with
  | [] => (a, [])
  | c :: cs' => let '(a1, r) := rk_step a c in let '(a2, rs) := rk_run a1 cs' in (a2, r :: rs)
  end.

(** ** The code as a step function *)

(** Failures of the database are answers of their own. *)
Inductive RResp := Ans (r : Resp) | DbFailed.

Definition ans {A} (f : A -> Resp) (r : result RocksError A) : RResp :=
  match r with Ok x => Ans (f x) | Err (Mvcc e) => Ans (RespErr e) | Err (Db _) => DbFailed end.

Section code.
Context {DB : Type} `{!ByteDB DB} {TI : Type -> Type} `{!BTree string TI}.

Definition ran {A} (f : A -> Resp) (p : RocksDBStore DB TI * result RocksError A) : RocksDBStore DB TI * RResp :=
  (p.1, ans f p.2).

Definition rstep (s : RocksDBStore DB TI) (c : RCmd) : RocksDBStore DB TI * RResp :=
  match c with
  | RDo (CmdPut key value lease) => ran RespRev (Put s key value lease)
  | RDo (CmdGet key rev) => (s, ans RespKv (Get s key rev))
  | RDo (CmdRange start end_ rev limit) => (s, ans (fun p => RespKvs p.1 p.2) (Range s start end_ rev limit))
  | RDo (CmdDelete key) => ran (fun p => RespDeleted p.1 p.2) (Delete s key)
  | RDo (CmdDeleteRange start end_) => ran (fun p => RespDeleted p.1 p.2) (DeleteRange s start end_)
  | RDo (CmdCommit t) =>
      match Commit s t with Some p => ran RespTxn p | None => (s, Ans RespPanic) end
  | RDo (CmdCompact rev) => ran (fun _ => RespDone) (Compact s rev)
  | RDo CmdClose => ran (fun _ => RespDone) (Close s)
  | RDo CmdCurrentRevision => (s, Ans (RespRev (CurrentRevision s)))
  | RDo CmdCompactedRevision => (s, Ans (RespRev (CompactedRevision s)))
  | RSync => ran (fun _ => RespDone) (Sync s)
  | RReopen =>
      match NewRocksDBStore (db s) with
      | Ok s' => (s', Ans RespDone)
      | Err _ => (s, DbFailed)
      end
  end.

Fixpoint rrun (s : RocksDBStore DB TI) (cs : list RCmd) : RocksDBStore DB TI * list RResp :=
  match cs with
  | [] => (s, [])
  | c :: cs' => let '(s1, r) := rstep s c in let '(s2, rs) := rrun s1 cs' in (s2, r :: rs)
  end.

End code.

(** ** What callers may ask *)

(** Lengths and leases fit their fields of the encoding. *)
Definition sized (key value : string) (lease : Z) : Prop :=
  str_len key < 2 ^ 32 /\ str_len value < 2 ^ 32 /\ is_i64 lease.

Definition touches (op : Op) (key : string) : bool :=
  match op_Type op with
  | OpTypePut | OpTypeDelete => String.eqb key (op_Key op)
  | OpTypeGet =>
      match op_End op with None => String.eqb key (op_Key op) | Some _ => inRange (op_Key op) (op_End op) key end
  | OpTypeDeleteRange => inRange (op_Key op) (op_End op) key
  | OpTypeOther _ => false
  end.

Definition writing (op : Op) : bool := match op_Type op with OpTypeGet | OpTypeOther _ => false | _ => true end.

(** No operation of a transaction touches a key that an earlier one wrote. *)
Fixpoint independent (seen : string -> bool) (ops : list Op) : Prop :=
  match ops with
  | [] => True
  | op :: ops' =>
      (forall key, touches op key = true -> seen key = false) /\
      independent (fun key => seen key || (writing op && touches op key)) ops'
  end.

Definition opSized (op : Op) : Prop :=
  match op_Type op with OpTypePut => sized (op_Key op) (op_Value op) (op_Lease op) | _ => True end.

(** Every deletion marker of the log stands behind a live record of its key. *)
Definition settled (l : list Event) : Prop :=
  forall key before e after, keyLog l key = before ++ e :: after -> Version e.2 = 0 ->
    exists p, last before = Some p /\ Version p.2 <> 0.

Definition rk_cmdOk (a : Spec) (c : RCmd) : Prop :=
  match c with
  | RDo (CmdPut key value lease) => sized key value lease /\ fits a 1
  | RDo (CmdCommit t) =>
      cmdOk a (CmdCommit t) /\ Forall opSized (thenOps t) /\ Forall opSized (elseOps t) /\
      independent (fun _ => false) (thenOps t) /\ independent (fun _ => false) (elseOps t)
  | RDo c => cmdOk a c
  | RSync => True
  | RReopen => settled (log a)
  end.

Fixpoint rk_traceOk (a : Spec) (cs : list RCmd) : Prop :=
  match cs with
  | [] => True
  | c :: cs' => rk_cmdOk a c /\ rk_traceOk (rk_step a c).1 cs'
  end.

(** ** Which database holds a log *)

Definition eventKey (e : Event) : string := makeStorageKey (Key e.2) e.1.

(** The keys of the store are the events', with their records. *)
Definition Stored (m : gmap string string) (l : list Event) : Prop :=
  forall key v, has_prefix kvMVCCPrefix key = true ->
    m !! key = Some v <-> exists e, e ∈ l /\ key = eventKey e /\ v = Encode e.2.

Definition Encodable (l : list Event) : Prop := Forall (fun e => rev_ok e.1 /\ encodable e.2) l.

(** A saved revision, none standing for [Zero]. *)
Definition savedAt (m : gmap string string) (key : string) (r : Revision) : Prop :=
  rev_ok r /\ (bytes_at m key = Bytes r \/ (bytes_at m key = "" /\ r = Zero)).

Section relation.
Context {DB : Type} `{!ByteDB DB, !ByteDBLaws DB} {TI : Type -> Type} `{!BTree string TI}.

(** The in-memory store that has the same index and keeps its records in a map. *)
Definition ghost (s : RocksDBStore DB TI) (revs : gmap Revision KeyValue) : MemoryStore TI (gmap Revision) :=
  mkMemoryStore (keyIndex s) revs (mkRevisionGenerator (currentRev s)) (compactedRev s) (closed s).

(** In the middle of a write: the index shows the log [a], the database still
    the log [a0], and the batch holds the difference. *)
Record Pending (b : Revision) (s : RocksDBStore DB TI) (a a0 : Spec) (batch : list WriteOp) : Prop := {
  Pd_index : exists revs, R b (ghost s revs) a;
  Pd_healthy : healthy (db s);
  Pd_stored : Stored (contents (db s)) (log a0);
  Pd_encodable0 : Encodable (log a0);
  Pd_batch : Stored (apply_batch batch (contents (db s))) (log a);
  Pd_encodable : Encodable (log a);
  Pd_keys : Forall (fun w => has_prefix kvMVCCPrefix (write_key w) = true) batch;
}.

Record RImplements (s : RocksDBStore DB TI) (a : Spec) : Prop := {
  RI_pending : Pending (nextRev a) s a a [];
  RI_current : savedAt (contents (db s)) metaCurrentRevision (cur a);
  RI_compacted : savedAt (contents (db s)) metaCompactedRevision (compacted a);
}.

End relation.
