(* ===== verification/MvccRocksRefine.v ===== *)
(** * The MVCC store on RocksDB implements its log

    Reads go through the index and the database; both are related to the log by
    [Pending], which writes keep while their batch grows. *)

From S2P Require Import Prelude GoBytes Revision OrderedTree KeyValue KeyIndex MemoryStore.
From S2P Require Import MvccSpec MvccRefine MvccOps ByteDB MvccRocks MvccRocksSpec.
Local Open Scope go_scope.

(** ** Storage keys *)

Lemma str_len_cons_iff s : (str_len s >? 0) = negb (String.eqb s "").
Proof. destruct s; [done|]. unfold str_len. cbn [String.length String.eqb negb]. rewrite Z.gtb_ltb. apply Z.ltb_lt. lia. Qed.

Lemma storage_prefix key rev : has_prefix kvMVCCPrefix (makeStorageKey key rev) = true.
Proof. apply has_prefix_app. Qed.

Lemma Bytes_nat_length r : String.length (Bytes r) = 16%nat.
Proof. pose proof (Bytes_length r) as Hl. unfold str_len, RevisionSize in Hl. lia. Qed.

Lemma parse_storage key rev : rev_ok rev -> parseStorageKey (makeStorageKey key rev) = Some (key, rev).
Proof.
  intros Hr. unfold parseStorageKey. rewrite storage_prefix. cbn [negb]. unfold makeStorageKey. rewrite str_drop_app.
  assert (Hl : str_len (key +:+ "/" +:+ Bytes rev) = str_len key + 17).
  { rewrite !str_len_app, Bytes_length. done. }
  rewrite Hl. unfold RevisionSize. destruct (Z.ltb_spec (str_len key + 17) (16 + 1)) as [Hc|_].
  { pose proof (str_len_nonneg key). lia. }
  replace (Z.to_nat (str_len key + 17 - 16 - 1)) with (String.length key) by (unfold str_len; lia).
  assert (Hat : forall k, str_at (String.length k) (k +:+ "/" +:+ Bytes rev) = Some "/"%char).
  { intros k. unfold str_at. induction k as [|c k IH]; [done|]. apply IH. }
  rewrite Hat. change (Ascii.eqb "/" "/") with true. cbn iota. rewrite str_take_app.
  replace (S (String.length key)) with (String.length key + 1)%nat by lia.
  rewrite <- str_drop_drop, str_drop_app.
  change (str_drop 1 ("/" +:+ Bytes rev)) with (str_drop (String.length "/") ("/" +:+ Bytes rev)). rewrite str_drop_app.
  by rewrite <- (str_app_nil_r (Bytes rev)), ParseRevision_Bytes_app.
Qed.

Lemma storage_inj k1 r1 k2 r2 :
  rev_ok r1 -> rev_ok r2 -> makeStorageKey k1 r1 = makeStorageKey k2 r2 -> k1 = k2 /\ r1 = r2.
Proof. intros H1 H2 He. apply (f_equal parseStorageKey) in He. rewrite !parse_storage in He by done. by simplify_eq. Qed.

(** ** Databases *)

Lemma Encode_nonempty kv : (str_len (Encode kv) >? 0) = true.
Proof.
  rewrite Encode_split, str_len_app. apply Z.gtb_lt. unfold str_len at 1. rewrite encode_header_length.
  pose proof (str_len_nonneg (Key kv +:+ Value kv)). lia.
Qed.

Lemma Decode_Encode kv : encodable kv -> Decode (Encode kv) = Ok kv.
Proof. intros He. rewrite <- (str_app_nil_r (Encode kv)). by apply Decode_Encode_app. Qed.

Lemma Encodable_elem l e : Encodable l -> e ∈ l -> rev_ok e.1 /\ encodable e.2.
Proof. unfold Encodable. rewrite Forall_forall. auto. Qed.

Lemma Stored_lookup m l e : Stored m l -> e ∈ l -> m !! eventKey e = Some (Encode e.2).
Proof. intros Hm Hin. apply (proj2 (Hm (eventKey e) _ (storage_prefix _ _))). by exists e. Qed.

Section reads.
Context {DB : Type} `{!ByteDB DB, !ByteDBLaws DB}.

Lemma readKv_event (d : DB) l e :
  healthy d -> Stored (contents d) l -> Encodable l -> e ∈ l -> readKv d (eventKey e) = Some e.2.
Proof.
  intros Hh Hm He Hin. unfold readKv. rewrite db_get_healthy by done. unfold bytes_at.
  rewrite (Stored_lookup _ _ _ Hm Hin). cbn [default from_option id]. rewrite Encode_nonempty.
  destruct (Encodable_elem _ _ He Hin). by rewrite Decode_Encode.
Qed.

End reads.

(** A batch of other keys keeps the events. *)
Lemma Stored_other m l batch :
  Forall (fun w => has_prefix kvMVCCPrefix (write_key w) = false) batch -> Stored m l -> Stored (apply_batch batch m) l.
Proof.
  intros Hb Hm key v Hk. rewrite <- (Hm key v Hk), apply_batch_lookup, last_write_None; [done|].
  intros w Hw <-. rewrite Forall_forall in Hb. by rewrite (Hb _ Hw) in Hk.
Qed.

Lemma bytes_at_other batch m key :
  has_prefix kvMVCCPrefix key = false -> Forall (fun w => has_prefix kvMVCCPrefix (write_key w) = true) batch ->
  bytes_at (apply_batch batch m) key = bytes_at m key.
Proof.
  intros Hk Hb. unfold bytes_at. rewrite apply_batch_lookup, last_write_None; [done|].
  intros w Hw <-. rewrite Forall_forall in Hb. by rewrite (Hb _ Hw) in Hk.
Qed.

(** One more event. *)
Lemma Stored_snoc m l e :
  Stored m l -> Encodable l -> rev_ok e.1 -> (forall x, x ∈ l -> x.1 <> e.1) ->
  Stored (<[eventKey e := Encode e.2]> m) (l ++ [e]).
Proof.
  intros Hm Hl He Hfresh key v Hk. rewrite lookup_insert.
  assert (Hne : forall x, x ∈ l -> eventKey x <> eventKey e).
  { intros x Hx Heq. destruct (Encodable_elem _ _ Hl Hx) as [Hr _].
    apply storage_inj in Heq as [_ Heq]; [|done..]. by apply (Hfresh x). }
  case_decide as Hd.
  - subst key. split.
    + intros [= <-]. exists e. split_and!; [set_solver|done|done].
    + intros (x & Hx & Heq & ->). apply elem_of_app in Hx as [Hx| ->%list_elem_of_singleton]; [|done].
      by destruct (Hne x Hx).
  - rewrite (Hm key v Hk). split.
    + intros (x & Hx & ? & ?). exists x. set_solver.
    + intros (x & Hx & -> & ->). apply elem_of_app in Hx as [Hx| ->%list_elem_of_singleton]; [by exists x|done].
Qed.

(** ** Reading while writes are pending *)

Section refine.
Context {DB : Type} `{!ByteDB DB, !ByteDBLaws DB} {TI : Type -> Type} `{!BTree string TI, !BTreeLaws string TI}.

Implicit Types (s : RocksDBStore DB TI) (a : Spec) (revs : gmap Revision KeyValue).

(** The last revision of a live item is that of the latest event. *)
Lemma live_latest b s revs a key ki :
  R b (ghost s revs) a -> liveItem s key = Some ki ->
  exists gen kv, CurrentGeneration ki = Some gen /\ IsZero (LastRevision gen) = false /\
    latest (log a) key = Some (LastRevision gen, kv) /\ live (log a) key = Some kv.
Proof.
  intros HR Hi. destruct (liveItem_spec _ _ _ key HR) as [[Hn _]|(ki' & kv & Hg & Hi' & _ & Hl)].
  { unfold liveItem, MemoryStore.liveItem in *. cbn [ghost MemoryStore.keyIndex] in Hn. congruence. }
  change (MemoryStore.liveItem (ghost s revs) key) with (liveItem s key) in Hi'. rewrite Hi in Hi'. inv Hi'.
  pose proof (R_revs _ _ _ HR key) as Hr. unfold idxRevs in Hr. rewrite Hg in Hr.
  unfold liveItem in Hi. cbn [ghost MemoryStore.keyIndex] in Hg. rewrite Hg in Hi. unfold IsDeleted in Hi.
  destruct (CurrentGeneration ki') as [gen|] eqn:Ec; [|done]. destruct (IsEmpty gen) eqn:Ee; [done|].
  pose proof (LastRevision_itemRevs ki' gen Ec Ee) as Hlast. rewrite Hr, fmap_last in Hlast. unfold keyLog in Hlast.
  rewrite last_such_last in Hlast. fold (latest (log a) key) in Hlast.
  unfold live, shown in Hl. destruct (latest (log a) key) as [[r kv']|] eqn:El; [|done]. cbn in Hlast, Hl. inv Hlast.
  exists gen, kv. destruct (Version kv' =? 0) eqn:Ev; [done|]. inv Hl. split_and!; [done| |done|].
  - apply latest_elem in El as [Hin _]. apply (R_nonzero _ _ _ _ HR Hin).
  - unfold live, shown. rewrite El. cbn [snd]. by rewrite Ev.
Qed.

(** The keys no pending write is about. *)
Definition unwritten a a0 (key : string) : Prop := latest (log a) key = latest (log a0) key.

Lemma read_latest b s a a0 batch key r kv :
  Pending b s a a0 batch -> unwritten a a0 key -> latest (log a) key = Some (r, kv) ->
  readKv (db s) (makeStorageKey key r) = Some kv.
Proof.
  intros [_ Hh Hs He _ _ _] Hu Hl. rewrite Hu in Hl. apply latest_elem in Hl as [Hin <-].
  apply (readKv_event (db s) (log a0) (r, kv)); done.
Qed.

Lemma readLast_spec b s a a0 batch key ki :
  Pending b s a a0 batch -> unwritten a a0 key -> liveItem s key = Some ki ->
  exists kv, readLast s key ki = Some kv /\ live (log a) key = Some kv.
Proof.
  intros HP Hu Hi. destruct (Pd_index _ _ _ _ _ HP) as [revs HR].
  destruct (live_latest _ _ _ _ _ _ HR Hi) as (gen & kv & Hg & Hz & Hl & Hlive). exists kv. split; [|done].
  unfold readLast. rewrite Hg, Hz. by apply (read_latest _ _ _ _ _ _ _ _ HP Hu).
Qed.

(** The item of a key, and what its last record says. *)
Lemma item_cases b s a a0 batch key :
  Pending b s a a0 batch -> unwritten a a0 key ->
  liveItem s key = None /\ live (log a) key = None \/
  exists ki kv, liveItem s key = Some ki /\ readLast s key ki = Some kv /\ live (log a) key = Some kv.
Proof.
  intros HP Hu. destruct (liveItem s key) as [ki|] eqn:Hi.
  - right. destruct (readLast_spec _ _ _ _ _ _ _ HP Hu Hi) as (kv & ? & ?). by exists ki, kv.
  - left. split; [done|]. destruct (Pd_index _ _ _ _ _ HP) as [revs HR].
    destruct (liveItem_spec _ _ _ key HR) as [[_ ?]|(ki & kv & _ & Hi' & _)]; [done|].
    change (MemoryStore.liveItem (ghost s revs) key) with (liveItem s key) in Hi'. congruence.
Qed.

(** ** Writing *)

(** The index learns of an event and the batch of its record. *)
Lemma Pending_append b b' s a a0 batch rev kv idx' :
  Pending b s a a0 batch -> rev_le b rev -> rev_lt rev b' -> 0 < Main rev -> 0 <= Sub rev -> rev_ok rev ->
  encodable kv -> 0 <= Version kv <= events a + 1 ->
  wf_index idx' ->
  idxRevs idx' (Key kv) = idxRevs (keyIndex s) (Key kv) ++ [rev] ->
  idxDeleted idx' (Key kv) = (Version kv =? 0) ->
  (forall key, Key kv <> key -> KeyIndex.Get idx' key = KeyIndex.Get (keyIndex s) key) ->
  Pending b' (setIndex s idx') (append a rev kv) a0 (batch ++ [WPut (makeStorageKey (Key kv) rev) (Encode kv)]).
Proof.
  intros [[revs HR] Hh Hs He0 Hb He Hk] Hle Hlt Hm Hsub Hok Henc Hv Hwf Hrevs Hdel Hne. constructor; try done.
  - exists (<[rev := kv]> revs).
    exact (R_append b b' (ghost s revs) a rev kv idx' HR Hle Hlt Hm Hsub Hv Hwf Hrevs Hdel Hne).
  - rewrite apply_batch_app. cbn [apply_batch fold_left apply_write setIndex db append log].
    apply (Stored_snoc _ _ (rev, kv)); [done..|]. intros x Hx. by apply (R_store_fresh _ _ _ _ HR Hle).
  - cbn [append log]. apply Forall_app. split; [done|]. by apply Forall_singleton.
  - apply Forall_app. split; [done|]. apply Forall_singleton, storage_prefix.
Qed.

Lemma Pending_revs_below b s a a0 batch rev key :
  Pending b s a a0 batch -> rev_le b rev -> Forall (fun r => rev_lt r rev) (idxRevs (keyIndex s) key) /\ wf_index (keyIndex s).
Proof.
  intros HP Hb. destruct (Pd_index _ _ _ _ _ HP) as [revs HR]. split; [|apply (R_index _ _ _ HR)].
  exact (R_revs_below _ _ _ _ key HR Hb).
Qed.

(** The index learns of a put. *)
Lemma Pending_put b b' s a a0 batch rev kv :
  Pending b s a a0 batch -> rev_le b rev -> rev_lt rev b' -> 0 < Main rev -> 0 <= Sub rev -> rev_ok rev ->
  encodable kv -> 1 <= Version kv <= events a + 1 ->
  Pending b' (setIndex s (KeyIndex.Put (keyIndex s) (Key kv) rev)) (append a rev kv) a0
    (batch ++ [WPut (makeStorageKey (Key kv) rev) (Encode kv)]).
Proof.
  intros HP Hb Hb' Hm Hsub Hok Henc Hv. destruct (Pending_revs_below _ _ _ _ _ _ (Key kv) HP Hb) as [Hbelow Hwf].
  destruct (KeyIndex.Put_spec (keyIndex s) (Key kv) rev Hwf Hbelow) as (Hwf' & Hr & Hd & Hne).
  eapply Pending_append; try done; [lia|]. rewrite Hd. symmetry. apply Z.eqb_neq. lia.
Qed.

Lemma live_event l key kv : live l key = Some kv -> exists e, e ∈ l /\ e.2 = kv /\ Key kv = key.
Proof. intros (r & Hin & Hk)%live_elem. by exists (r, kv). Qed.

Lemma live_encodable l key kv : Encodable l -> live l key = Some kv -> encodable kv /\ Key kv = key.
Proof. intros He (e & Hin & <- & Hk)%live_event. split; [|done]. apply (Encodable_elem _ _ He Hin). Qed.

(** A put of a transaction. *)
Lemma putAt_pending b b' s a a0 batch key value lease rev :
  Pending b s a a0 batch -> unwritten a a0 key -> rev_le b rev -> rev_lt rev b' -> 0 < Main rev -> 0 <= Sub rev ->
  rev_ok rev -> sized key value lease -> events a < int64_max ->
  let kv := match live (log a) key with
    | Some prev => mkKeyValue key value (CreateRevision prev) (Main rev) (Version prev + 1) lease
    | None => mkKeyValue key value (Main rev) (Main rev) 1 lease end in
  Pending b' (setIndex s (KeyIndex.Put (keyIndex s) key rev)) (spec_putAt a key value lease rev) a0
    (batch ++ [WPut (makeStorageKey key rev) (Encode kv)]).
Proof.
  intros HP Hu Hb Hb' Hm Hsub Hok (Hkl & Hvl & Hle) Hev kv.
  destruct (Pd_index _ _ _ _ _ HP) as [revs HR]. pose proof (R_count _ _ _ HR).
  assert (Hkv : Key kv = key /\ encodable kv /\ 1 <= Version kv <= events a + 1).
  { unfold kv. destruct (live (log a) key) as [prev|] eqn:El.
    - pose proof (live_event _ _ _ El) as (e & Hin & He & _). destruct (R_event_in _ _ _ _ HR Hin) as (_ & _ & Hv).
      destruct (live_encodable _ _ _ (Pd_encodable _ _ _ _ _ HP) El) as [(_ & _ & Hc & _) _]. rewrite He in Hv.
      split_and!; [done| |simpl; lia..]. split_and!; simpl; try done; first [apply Hok|unfold_ints; lia].
    - split_and!; [done| |simpl; lia..]. split_and!; simpl; try done; first [apply Hok|unfold_ints; lia]. }
  destruct Hkv as (Hk & Henc & Hv).
  pose proof (Pending_put b b' s a a0 batch rev kv HP Hb Hb' Hm Hsub Hok Henc Hv) as Hput.
  rewrite Hk in Hput. exact Hput.
Qed.

(** The deletion of a live key. *)
Lemma tombstone_pending b b' s a a0 batch key ki rev main :
  Pending b s a a0 batch -> unwritten a a0 key -> rev_le b rev -> rev_lt rev b' -> 0 < Main rev -> 0 <= Sub rev ->
  rev_ok rev -> main = Main rev -> liveItem s key = Some ki ->
  Pending b' (setIndex s (KeyIndex.Delete (keyIndex s) key rev).1) (spec_deleteAt a key rev) a0
    (batch ++ [WPut (makeStorageKey key rev) (Encode (tombstone s key ki main))]).
Proof.
  intros HP Hu Hb Hb' Hm Hsub Hok -> Hi. destruct (readLast_spec _ _ _ _ _ _ _ HP Hu Hi) as (kv & Hrd & Hl).
  destruct (Pd_index _ _ _ _ _ HP) as [revs HR]. pose proof (R_count _ _ _ HR).
  destruct (live_encodable _ _ _ (Pd_encodable _ _ _ _ _ HP) Hl) as [(Hkl & _ & Hc & _) Hk].
  assert (Hdel : idxDeleted (keyIndex s) key = false).
  { pose proof (R_deleted _ _ _ HR key) as Hd. rewrite Hl in Hd. exact Hd. }
  destruct (Pending_revs_below _ _ _ _ _ _ key HP Hb) as [Hbelow Hwf].
  destruct (KeyIndex.Delete_spec (keyIndex s) key rev Hwf Hbelow Hdel) as (Hwf' & Hr & Hd & _ & Hne).
  unfold tombstone, spec_deleteAt. rewrite Hrd, Hl.
  apply (Pending_append b b' s a a0 batch rev (mkKeyValue key "" (CreateRevision kv) (Main rev) 0 0)); try done; [|simpl; lia].
  rewrite Hk in Hkl. split_and!; simpl; try done; apply Hok.
Qed.

(** The batch reaches the database. *)
Lemma Pending_write s a a0 batch :
  Pending (nextRev a) s a a0 batch -> currentRev s = cur a -> rev_ok (cur a) ->
  savedAt (contents (db s)) metaCompactedRevision (compacted a) ->
  exists d', write s (saveCurrentRevision s batch) = (setDb s d', None) /\ RImplements (setDb s d') a.
Proof.
  intros [[revs HR] Hh Hs He0 Hb He Hk] Hc Hok Hcomp. unfold write, saveCurrentRevision. rewrite Hc.
  set (full := batch ++ [WPut metaCurrentRevision (Bytes (cur a))]).
  destruct (db_write_healthy (db s) full Hh) as [Hn Hh']. destruct (db_write (db s) full) as [d' [e|]] eqn:Ew; [done|].
  simpl in Hn, Hh'. apply db_write_ok in Ew. exists d'. split; [done|].
  assert (Hd : contents d' = <[metaCurrentRevision := Bytes (cur a)]> (apply_batch batch (contents (db s)))).
  { rewrite Ew. unfold full. by rewrite apply_batch_app. }
  assert (Hst : Stored (contents d') (log a)).
  { rewrite Hd. apply (Stored_other _ _ [WPut metaCurrentRevision (Bytes (cur a))]); [|done]. by apply Forall_singleton. }
  constructor; [by constructor; [exists revs|..]| |].
  - split; [done|]. left. unfold bytes_at. cbn [setDb db]. by rewrite Hd, lookup_insert_eq.
  - unfold savedAt in *. cbn [setDb db]. replace (bytes_at (contents d') metaCompactedRevision)
      with (bytes_at (contents (db s)) metaCompactedRevision); [done|].
    rewrite Hd, <- (bytes_at_other batch (contents (db s)) metaCompactedRevision) by done.
    unfold bytes_at. by rewrite lookup_insert_ne.
Qed.

(** The counter moves, as the abstract one does. *)
Lemma Pending_setCurrent b s a a0 batch r :
  Pending b s a a0 batch -> rev_le (compacted a) r -> 0 <= Sub r ->
  Pending b (setCurrent s r) (setCur a r) a0 batch.
Proof.
  intros [[revs HR] ? ? ? ? ? ?] Hc Hs. constructor; try done. exists revs. exact (R_setGen _ _ _ r HR Hc Hs).
Qed.

Lemma Pending_weaken b b' s a a0 batch : rev_le b b' -> Pending b s a a0 batch -> Pending b' s a a0 batch.
Proof. intros Hb [[revs HR] ? ? ? ? ? ?]. constructor; try done. exists revs. by eapply R_weaken. Qed.

(** ** The store between operations *)

Definition rsimulates (p : RocksDBStore DB TI * RResp) (q : Spec * Resp) : Prop :=
  RImplements p.1 q.1 /\ p.2 = Ans q.2.

Lemma RI_fields s a :
  RImplements s a -> currentRev s = cur a /\ compactedRev s = compacted a /\ closed s = isClosed a /\ 0 <= Main (cur a).
Proof.
  intros [[[revs HR] _ _ _ _ _ _] _ _]. split_and!; [apply (R_cur _ _ _ HR)|apply (R_compacted _ _ _ HR)|apply (R_closed _ _ _ HR)|].
  apply (cur_nonneg _ _ _ HR).
Qed.

Lemma unwritten_refl a key : unwritten a a key.
Proof. done. Qed.

(** The counter at the next revision, nothing written yet. *)
Lemma RI_bump s a :
  RImplements s a -> Main (cur a) < int64_max ->
  bump s = setCurrent s (nextRev a) /\ rev_ok (nextRev a) /\ 0 < Main (nextRev a) /\
  Pending (nextRev a) (setCurrent s (nextRev a)) (setCur a (nextRev a)) (setCur a (nextRev a)) [].
Proof.
  intros HI Hm. destruct (RI_fields _ _ HI) as (Hc & _ & _ & Hpos). destruct HI as [HP _ _].
  split_and!; [|split; unfold nextRev; simpl; unfold_ints; lia|simpl; lia|].
  - unfold bump, nextRev. rewrite Hc. by rewrite wrap_i64_id by (unfold_ints; lia).
  - pose proof (Pd_index _ _ _ _ _ HP) as [revs HR]. destruct (R_order _ _ _ HR) as [_ Ho].
    assert (Hle : rev_le (compacted a) (nextRev a)) by (unfold nextRev, rev_le in *; simpl in *; lia).
    destruct (Pending_setCurrent _ _ _ _ _ (nextRev a) HP Hle (Z.le_refl 0)) as [? ? ? ? ? ? ?]. by constructor.
Qed.

(** ** Reads *)

(** The in-memory store with the same contents answers the same. *)
Definition lift {A} (r : result MvccError A) : result RocksError A :=
  match r with Ok x => Ok x | Err e => Err (Mvcc e) end.

Lemma ghost_read b s revs a key at_ :
  Pending b s a a [] -> R b (ghost s revs) a ->
  match latest (upTo at_ (log a)) key with
  | None => GetRevision (keyIndex s) key at_ = Zero
  | Some (r, kv) => GetRevision (keyIndex s) key at_ = r /\ IsZero r = false /\ bt_get r revs = Some kv /\
                    Key kv = key /\ encodable kv /\ db_get (db s) (makeStorageKey key r) = Ok (Encode kv)
  end.
Proof.
  intros HP HR. pose proof (GetRevision_latest _ _ _ key at_ HR) as Hl.
  destruct (latest (upTo at_ (log a)) key) as [[r kv]|] eqn:E; [|done]. destruct Hl as (? & ? & ?).
  apply latest_elem in E as [Hin%elem_of_upTo Hk]. cbn in Hk. destruct HP as [_ Hh Hs He _ _ _]. split_and!; try done.
  - apply (Encodable_elem _ _ He Hin).
  - rewrite db_get_healthy by done. pose proof (Stored_lookup _ _ _ Hs Hin) as Hst. unfold eventKey in Hst.
    cbn [fst snd] in Hst. unfold bytes_at. by rewrite <- Hk, Hst.
Qed.

Lemma readKv_encoded (d : DB) key kv : encodable kv -> db_get d key = Ok (Encode kv) -> readKv d key = Some kv.
Proof. intros He Hg. unfold readKv. rewrite Hg, Encode_nonempty. by rewrite Decode_Encode. Qed.

Lemma Get_ghost b s revs a key rev :
  Pending b s a a [] -> R b (ghost s revs) a -> Get s key rev = lift (MemoryStore.Get (ghost s revs) key rev).
Proof.
  intros HP HR. unfold Get, MemoryStore.Get, atRevision, MemoryStore.readRevision.
  cbn [ghost MemoryStore.closed MemoryStore.compactedRev MemoryStore.keyIndex MemoryStore.revisionGen
       MemoryStore.revisionStore Current current].
  destruct (str_len key =? 0); [done|]. destruct (closed s); [done|]. cbn zeta.
  set (at_ := if rev =? 0 then currentRev s else mkRevision rev 0).
  destruct (LessThan at_ (compactedRev s)); [done|]. destruct (GreaterThan at_ (currentRev s)); [done|].
  pose proof (ghost_read b s revs a key at_ HP HR) as Hr. destruct (latest (upTo at_ (log a)) key) as [[r kv]|].
  - destruct Hr as (-> & -> & -> & _ & He & ->). cbn iota. pose proof (Encode_nonempty kv) as Hn.
    destruct (Z.eqb_spec (str_len (Encode kv)) 0) as [Hz|_]; [by rewrite Hz in Hn|].
    rewrite Decode_Encode by done. by destruct (Version kv =? 0).
  - by rewrite Hr.
Qed.

(** What the entries of a range over live keys stand for. *)
Lemma rangeList_live b s revs a start end_ k r :
  R b (ghost s revs) a -> (k, r) ∈ rangeList (keyIndex s) start end_ Zero ->
  exists kv, latest (log a) k = Some (r, kv) /\ bt_get r revs = Some kv /\ inRange start end_ k = true /\ is_Some (live (log a) k).
Proof.
  intros HR (Hin & Hz & ki & Hg & Hr)%elem_of_rangeList. unfold rangeRevision in Hr. cbn [IsZero Zero Main Sub Z.eqb andb] in Hr.
  destruct (CurrentGeneration ki) as [gen|] eqn:Ec; [|by subst r].
  destruct (IsEmpty gen) eqn:Ee; [by subst r|].
  assert (Hi : liveItem s k = Some ki) by (unfold liveItem, IsDeleted; by rewrite Hg, Ec, Ee).
  destruct (live_latest _ _ _ _ _ _ HR Hi) as (gen' & kv & Hc' & _ & Hl & Hlive).
  rewrite Ec in Hc'. inv Hc'. exists kv. split_and!; [done| |done|by eexists].
  apply latest_elem in Hl as [Hl _]. by apply (R_store _ _ _ HR).
Qed.

Lemma rangeList_read b s revs a start end_ at_ k r :
  Pending b s a a [] -> R b (ghost s revs) a -> (k, r) ∈ rangeList (keyIndex s) start end_ at_ ->
  readKv (db s) (makeStorageKey k r) = bt_get r revs.
Proof.
  intros HP HR Hin. destruct (decide (at_ = Zero)) as [->|Hz].
  - destruct (rangeList_live _ _ _ _ _ _ _ _ HR Hin) as (kv & Hl & Hb & _). rewrite Hb.
    by apply (read_latest _ _ _ _ _ _ _ _ HP (unwritten_refl a k)).
  - pose proof Hin as (_ & Hnz%IsZero_false & ki & Hg & Hr)%elem_of_rangeList.
    rewrite (rangeRevision_at _ (ghost s revs) a k ki at_ HR Hz Hg) in Hr.
    pose proof (ghost_read b s revs a k at_ HP HR) as Hl.
    change (GetRevision (keyIndex s) k at_ = r) in Hr.
    destruct (latest (upTo at_ (log a)) k) as [[r' kv]|].
    + destruct Hl as (Hr' & _ & Hb & _ & He & Hd). rewrite Hr in Hr'. subst r'. rewrite Hb. by apply readKv_encoded.
    + rewrite Hl in Hr. by subst r.
Qed.

Lemma Range_ghost b s revs a start end_ rev limit :
  Pending b s a a [] -> R b (ghost s revs) a ->
  Range s start end_ rev limit = lift (MemoryStore.Range (ghost s revs) start end_ rev limit).
Proof.
  intros HP HR. unfold Range, MemoryStore.Range, atRevision, MemoryStore.readRevision.
  cbn [ghost MemoryStore.closed MemoryStore.compactedRev MemoryStore.keyIndex MemoryStore.revisionGen Current current].
  destruct (str_len start =? 0); [done|]. destruct (closed s); [done|]. cbn zeta.
  set (at_ := if rev =? 0 then currentRev s else mkRevision rev 0).
  destruct (LessThan at_ (compactedRev s)); [done|]. destruct (GreaterThan at_ (currentRev s)); [done|].
  cbn [lift]. f_equal. rewrite !Range_rangeList by apply (R_index _ _ _ HR).
  apply iter_while_ext_in. intros st [k r] Hin. unfold rangeCallback, MemoryStore.rangeCallback.
  cbn [fst snd ghost MemoryStore.revisionStore]. by rewrite (rangeList_read _ _ _ _ _ _ _ _ _ HP HR Hin).
Qed.

Lemma Get_rsimulates s a key rev :
  RImplements s a -> rsimulates (rstep s (RDo (CmdGet key rev))) (rk_step a (RDo (CmdGet key rev))).
Proof.
  intros HI. pose proof (Pd_index _ _ _ _ _ (RI_pending _ _ HI)) as [revs HR].
  cbn [rstep rk_step]. rewrite (Get_ghost _ _ _ _ _ _ (RI_pending _ _ HI) HR).
  destruct (Get_refines (ghost s revs) a key rev HR) as [_ Hr]. cbn [step spec_step] in Hr |- *.
  destruct (MemoryStore.Get (ghost s revs) key rev), (spec_get a key rev); cbn in *; simplify_eq; done.
Qed.

Lemma Range_rsimulates s a start end_ rev limit :
  RImplements s a -> fits a 1 ->
  rsimulates (rstep s (RDo (CmdRange start end_ rev limit))) (rk_step a (RDo (CmdRange start end_ rev limit))).
Proof.
  intros HI Hf. pose proof (Pd_index _ _ _ _ _ (RI_pending _ _ HI)) as [revs HR].
  cbn [rstep rk_step]. rewrite (Range_ghost _ _ _ _ _ _ _ _ (RI_pending _ _ HI) HR).
  destruct (Range_refines (ghost s revs) a start end_ rev limit HR Hf) as [_ Hr]. cbn [step spec_step] in Hr |- *.
  destruct (MemoryStore.Range (ghost s revs) start end_ rev limit) as [[]|], (spec_range a start end_ rev limit) as [[]|];
    cbn in *; simplify_eq; done.
Qed.

(** ** Single writes *)

Lemma ghost_upTo_all b s revs a at_ : R b (ghost s revs) a -> rev_le b at_ -> upTo at_ (log a) = log a.
Proof.
  intros HR Hb. pose proof (R_bound _ _ _ HR) as Hf. unfold upTo. revert Hf. generalize (log a). intros l.
  induction 1 as [|e l He _ IH]; [done|]. cbn [List.filter]. rewrite IH.
  rewrite (proj2 (LessThanOrEqual_iff e.1 at_)); [done|]. apply rev_le_lteq. left. eauto with metastore.
Qed.

(** After a write of events the store implements the log again. *)
Lemma Pending_done s a a0 batch idx' :
  Pending (nextRev a) (setIndex s idx') a a0 batch -> rev_ok (cur a) ->
  savedAt (contents (db s)) metaCompactedRevision (compacted a) ->
  exists d', write s (saveCurrentRevision s batch) = (setDb s d', None) /\ RImplements (setDb (setIndex s idx') d') a.
Proof.
  intros HP Hok Hc. pose proof (Pd_index _ _ _ _ _ HP) as [revs HR].
  destruct (Pending_write _ _ _ _ HP (R_cur _ _ _ HR) Hok Hc) as (d' & Hw & HI). exists d'. split; [|done].
  unfold write, saveCurrentRevision in *. cbn [setIndex db currentRev] in Hw.
  destruct (db_write (db s) _) as [d2 [e|]]; [done|]. by injection Hw as <-.
Qed.

Lemma rk_putAt_pending s a key value lease rev :
  Pending rev s a a [] -> 0 < Main rev -> 0 <= Sub rev -> rev_ok rev -> sized key value lease -> events a < int64_max ->
  let kv := match latest (log a) key with
    | Some prev => mkKeyValue key value (CreateRevision prev.2) (Main rev) (Version prev.2 + 1) lease
    | None => mkKeyValue key value (Main rev) (Main rev) 1 lease end in
  Pending (mkRevision (Main rev + 1) 0) (setIndex s (KeyIndex.Put (keyIndex s) key rev)) (rk_putAt a key value lease rev) a
    [WPut (makeStorageKey key rev) (Encode kv)].
Proof.
  intros HP Hm Hsub Hok (Hkl & Hvl & Hle) Hev kv. destruct (Pd_index _ _ _ _ _ HP) as [revs HR]. pose proof (R_count _ _ _ HR).
  assert (Hkv : Key kv = key /\ encodable kv /\ 1 <= Version kv <= events a + 1).
  { unfold kv. destruct (latest (log a) key) as [[r prev]|] eqn:El.
    - apply latest_elem in El as [Hin _]. destruct (R_event_in _ _ _ _ HR Hin) as (_ & _ & Hv).
      destruct (Encodable_elem _ _ (Pd_encodable _ _ _ _ _ HP) Hin) as [_ (_ & _ & Hc & _)]. cbn in Hv, Hc.
      split_and!; [done| |simpl; lia..]. split_and!; simpl; try done; first [apply Hok|unfold_ints; lia].
    - split_and!; [done| |simpl; lia..]. split_and!; simpl; try done; first [apply Hok|unfold_ints; lia]. }
  destruct Hkv as (Hk & Henc & Hv).
  pose proof (Pending_put rev _ s a a [] rev kv HP (rev_le_refl _) (nextRev_lt rev) Hm Hsub Hok Henc Hv) as Hput.
  rewrite Hk in Hput. exact Hput.
Qed.

Lemma Put_rsimulates s a key value lease :
  RImplements s a -> rk_cmdOk a (RDo (CmdPut key value lease)) ->
  rsimulates (rstep s (RDo (CmdPut key value lease))) (rk_step a (RDo (CmdPut key value lease))).
Proof.
  intros HI [Hsz [Hm He]]. cbn [rstep rk_step]. unfold Put, guarded, rk_put.
  destruct (RI_fields _ _ HI) as (Hc & _ & Hcl & Hpos). rewrite str_len_eqb, Hcl.
  destruct (String.eqb key ""); [done|]. destruct (isClosed a); [done|].
  destruct (RI_bump _ _ HI Hm) as (-> & Hok & Hmain & HP). cbn zeta. cbn [setCurrent currentRev keyIndex db].
  assert (Hev : events (setCur a (nextRev a)) < int64_max) by (cbn [setCur events]; lia).
  pose proof (rk_putAt_pending _ _ key value lease _ HP Hmain (Z.le_refl 0) Hok Hsz Hev) as HP'. cbn zeta in HP'.
  destruct (Pending_done (setCurrent s (nextRev a)) (rk_putAt (setCur a (nextRev a)) key value lease (nextRev a)) _ _ _ HP'
    Hok (RI_compacted _ _ HI)) as (d' & Hw & HI').
  destruct (Pd_index _ _ _ _ _ HP) as [revs HR].
  pose proof (ghost_read _ _ _ _ key (nextRev a) HP HR) as Hrd.
  rewrite (ghost_upTo_all _ _ _ _ _ HR (rev_le_refl _)) in Hrd. cbn [setCur log setCurrent keyIndex db] in Hrd, Hw |- *.
  assert (Hlog : forall e, latest (log a) key = Some e -> 0 <= Version e.2 <= events a).
  { intros e Hl. apply latest_elem in Hl as [Hin _]. by destruct (R_event_in _ _ _ _ HR Hin) as (_ & _ & ?). }
  destruct (latest (log a) key) as [[r prev]|].
  - destruct Hrd as (-> & -> & _ & _ & Henc & Hg). cbn iota. rewrite (readKv_encoded _ _ _ Henc Hg).
    specialize (Hlog _ eq_refl). cbn [snd] in Hlog, Hw. rewrite wrap_i64_id by (unfold_ints; lia).
    rewrite Hw. split; [exact HI'|done].
  - rewrite Hrd. cbn [IsZero Zero Main Sub Z.eqb andb]. rewrite Hw. split; [exact HI'|done].
Qed.

Lemma Delete_rsimulates s a key :
  RImplements s a -> rk_cmdOk a (RDo (CmdDelete key)) ->
  rsimulates (rstep s (RDo (CmdDelete key))) (rk_step a (RDo (CmdDelete key))).
Proof.
  intros HI [Hm He]. cbn [rstep rk_step spec_step]. unfold Delete, guarded, spec_delete.
  destruct (RI_fields _ _ HI) as (Hc & _ & Hcl & Hpos). rewrite str_len_eqb, Hcl, Hc.
  destruct (String.eqb key ""); [done|]. destruct (isClosed a); [done|].
  destruct (RI_bump _ _ HI Hm) as (-> & Hok & Hmain & HP).
  destruct (item_cases _ _ _ _ _ key (RI_pending _ _ HI) (unwritten_refl _ _)) as [[-> ->]|(ki & kv & Hi & _ & Hl)]; [done|].
  rewrite Hi, Hl. cbn zeta. cbn [setCurrent currentRev].
  pose proof (tombstone_pending _ _ _ _ _ _ key ki (nextRev a) (Main (nextRev a)) HP (unwritten_refl _ _) (rev_le_refl _)
    (nextRev_lt (nextRev a)) Hmain (Z.le_refl 0) Hok eq_refl Hi) as HP'.
  assert (Hsp : nextRev (spec_deleteAt (setCur a (nextRev a)) key (nextRev a)) = mkRevision (Main (nextRev a) + 1) 0 /\
    cur (spec_deleteAt (setCur a (nextRev a)) key (nextRev a)) = nextRev a /\
    compacted (spec_deleteAt (setCur a (nextRev a)) key (nextRev a)) = compacted a).
  { unfold spec_deleteAt. cbn [setCur log]. by rewrite Hl. }
  destruct Hsp as (Hn & Hcr & Hcm). rewrite <- Hn in HP'.
  destruct (Pending_done (setCurrent s (nextRev a)) _ _ _ _ HP') as (d' & Hw & HI'); [by rewrite Hcr|rewrite Hcm; apply HI|].
  cbn [app] in Hw. rewrite Hw. split; [exact HI'|done].
Qed.

(** ** Range deletions *)

Lemma latest_deleteAt a key rev k : key <> k -> latest (log (spec_deleteAt a key rev)) k = latest (log a) k.
Proof.
  intros Hk. unfold spec_deleteAt. destruct (live (log a) key); [|done]. cbn [append log]. rewrite latest_snoc. cbn [Key].
  by destruct (String.eqb_spec key k).
Qed.

Lemma deleteKeys_pending revOf m keys a0 : forall i sub s a batch d,
  Pending (mkRevision m sub) s a a0 batch -> 0 < m <= int64_max -> 0 <= sub -> sub + Z.of_nat (length keys) <= int64_max ->
  (forall j, 0 <= j < Z.of_nat (length keys) -> revOf (i + j) = mkRevision m (sub + j)) ->
  NoDup keys -> Forall (fun k => is_Some (live (log a) k) /\ unwritten a a0 k) keys ->
  0 <= d -> d + Z.of_nat (length keys) <= int64_max ->
  exists idx' batch', deleteKeys revOf m i keys (s, batch, d) = (setIndex s idx', batch', d + Z.of_nat (length keys)) /\
    Pending (mkRevision m (sub + Z.of_nat (length keys))) (setIndex s idx') (spec_deleteKeys a keys (mkRevision m sub)) a0 batch' /\
    (forall k, k ∉ keys -> latest (log (spec_deleteKeys a keys (mkRevision m sub))) k = latest (log a) k).
Proof.
  induction keys as [|key keys IH]; intros i sub s a batch d HP Hm Hsub Hmax Hrev Hnd Hlive Hd Hdm.
  { exists (keyIndex s), batch. simpl. rewrite !Z.add_0_r. by destruct s. }
  cbn [length] in *. apply NoDup_cons in Hnd as [Hnin Hnd]. apply Forall_cons in Hlive as [[[kv Hkv] Hu] Hlive].
  destruct (item_cases _ _ _ _ _ key HP Hu) as [[_ ?]|(ki & kv' & Hi & _ & _)]; [congruence|].
  cbn [deleteKeys]. rewrite Hi. rewrite wrap_i64_id by (unfold_ints; lia).
  assert (Hr0 : revOf i = mkRevision m sub) by (rewrite <- (Z.add_0_r i), Hrev by lia; f_equal; lia).
  assert (Hok : rev_ok (mkRevision m sub)) by (split; simpl; unfold_ints; lia).
  pose proof (tombstone_pending (mkRevision m sub) (mkRevision m (sub + 1)) s a a0 batch key ki (mkRevision m sub) m HP Hu
    (rev_le_refl _) ltac:(unfold rev_lt; simpl; lia) ltac:(simpl; lia) Hsub Hok eq_refl Hi) as HP1.
  rewrite Hr0. destruct (IH (i + 1) (sub + 1) _ _ _ (d + 1) HP1) as (idx' & batch' & -> & HP' & Hother); [done|lia|lia| |done| |lia|lia|].
  - intros j Hj. replace (i + 1 + j) with (i + (1 + j)) by lia. rewrite Hrev by lia. f_equal; lia.
  - apply Forall_forall. intros k Hk. rewrite Forall_forall in Hlive. destruct (Hlive k Hk) as [Hl Hun].
    assert (key <> k) by (intros ->; done). unfold unwritten in *. by rewrite live_deleteAt, latest_deleteAt.
  - exists idx', batch'. cbn [spec_deleteKeys Main Sub].
    replace (sub + Z.of_nat (S (length keys))) with (sub + 1 + Z.of_nat (length keys)) by lia.
    split_and!; [f_equal; lia|done|]. intros k Hk. rewrite not_elem_of_cons in Hk. destruct Hk as [Hne Hk].
    rewrite (Hother k Hk). by apply latest_deleteAt.
Qed.

(** The keys a range deletion collects, with the facts its loop needs. *)
Lemma deleteRange_pending revOf m sub s a a0 batch start end_ :
  Pending (mkRevision m sub) s a a0 batch -> 0 < m <= int64_max -> 0 <= sub -> sub + events a < int64_max ->
  (forall k, inRange start end_ k = true -> unwritten a a0 k) ->
  (forall j, 0 <= j < Z.of_nat (length (liveRange (log a) start end_)) -> revOf j = mkRevision m (sub + j)) ->
  let keys := (liveRange (log a) start end_).*1 in
  collectKeys s start end_ = keys /\ sub + Z.of_nat (length keys) < int64_max /\
  exists idx' batch', deleteKeys revOf m 0 keys (s, batch, 0) = (setIndex s idx', batch', Z.of_nat (length keys)) /\
    Pending (mkRevision m (sub + Z.of_nat (length keys))) (setIndex s idx') (spec_deleteKeys a keys (mkRevision m sub)) a0 batch' /\
    (forall k, k ∉ keys -> latest (log (spec_deleteKeys a keys (mkRevision m sub))) k = latest (log a) k).
Proof.
  intros HP Hm Hsub Hev Hu Hrev keys. destruct (Pd_index _ _ _ _ _ HP) as [revs HR].
  pose proof (live_keys_length (log a) start end_). pose proof (R_count _ _ _ HR) as Hcount.
  assert (Hlen : length keys = length (liveRange (log a) start end_)) by apply length_fmap.
  split; [exact (collectKeys_live _ _ _ start end_ HR)|]. split; [lia|].
  destruct (deleteKeys_pending revOf m keys a0 0 sub s a batch 0 HP Hm Hsub) as (idx' & batch' & Hd & HP' & Ho); try lia.
  - rewrite Hlen. done.
  - apply sorted_keys_NoDup, liveRange_sorted.
  - apply Forall_forall. intros k Hk. apply liveRange_keys in Hk as [Hin Hl]. auto.
  - exists idx', batch'. done.
Qed.

Lemma spec_deleteKeys_compacted keys : forall a rev, compacted (spec_deleteKeys a keys rev) = compacted a.
Proof.
  induction keys as [|k keys IH]; intros a rev; [done|]. cbn [spec_deleteKeys]. rewrite IH. unfold spec_deleteAt.
  by destruct (live (log a) k).
Qed.

Lemma DeleteRange_rsimulates s a start end_ :
  RImplements s a -> rk_cmdOk a (RDo (CmdDeleteRange start end_)) ->
  rsimulates (rstep s (RDo (CmdDeleteRange start end_))) (rk_step a (RDo (CmdDeleteRange start end_))).
Proof.
  intros HI [Hm He]. cbn [rstep rk_step spec_step]. unfold DeleteRange, guarded, spec_deleteRange.
  destruct (RI_fields _ _ HI) as (Hc & _ & Hcl & Hpos). rewrite str_len_eqb, Hcl, Hc.
  destruct (String.eqb start ""); [done|]. destruct (isClosed a); [done|].
  destruct (RI_bump _ _ HI Hm) as (Hbump & [Hok _] & Hmain & HP).
  pose proof (Pd_index _ _ _ _ _ (RI_pending _ _ HI)) as [revs HR].
  change (collectKeys s start end_) with (MemoryStore.collectKeys (ghost s revs) start end_).
  rewrite (collectKeys_live _ _ _ start end_ HR).
  assert (Hmm : 0 < Main (nextRev a) <= int64_max) by (unfold nextRev; simpl; lia).
  destruct (deleteRange_pending (fun i => mkRevision (Main (nextRev a)) i) (Main (nextRev a)) 0 _ _ _ [] start end_ HP Hmm
    (Z.le_refl 0)) as (_ & Hlen & idx' & batch' & Hd & HP' & _); [cbn [setCur events]; lia|done|done|].
  cbn [setCur log] in Hd, HP', Hlen. destruct (liveRange (log a) start end_).*1 as [|k keys] eqn:Ek; [done|].
  cbn zeta. rewrite Hbump. cbn [setCurrent currentRev]. rewrite Hd. clear Hd. rewrite Z.add_0_l in HP', Hlen.
  set (n := Z.of_nat (length (k :: keys))) in *. assert (Hn : 1 <= n) by (unfold n; simpl length; lia).
  destruct (Z.gtb_spec n 0) as [_|]; [|lia]. set (last := mkRevision (Main (nextRev a)) (n - 1)).
  change (mkRevision (Main (nextRev a)) 0) with (nextRev a) in HP'. rewrite spec_deleteKeys_setCur in HP' |- *.
  set (a1 := spec_deleteKeys a (k :: keys) (nextRev a)) in *.
  assert (Hcomp : compacted a1 = compacted a) by apply spec_deleteKeys_compacted.
  assert (Hle : rev_le (compacted (setCur a1 (nextRev a))) last).
  { destruct (R_order _ _ _ HR) as [_ Ho]. cbn [setCur compacted]. rewrite Hcomp. unfold last, nextRev, rev_le in *. simpl in *. lia. }
  pose proof (Pending_setCurrent _ _ _ _ _ last HP' Hle ltac:(unfold last; simpl; lia)) as HP2.
  apply (Pending_weaken _ (nextRev (setCur a1 last))) in HP2; [|unfold rev_le, nextRev; simpl; lia].
  change (setCur (setCur a1 (nextRev a)) last) with (setCur a1 last) in HP2.
  destruct (Pending_write _ _ _ _ HP2 eq_refl) as (d' & Hw & HI').
  - split; [done|]. unfold last. simpl. unfold_ints. lia.
  - cbn [setCur compacted]. rewrite Hcomp. apply HI.
  - cbn [setIndex setCurrent currentRev] in Hw |- *. fold last. rewrite Hw. split; [exact HI'|done].
Qed.

(** ** Transactions *)

Lemma conditions_spec b s a conds :
  Pending b s a a [] -> evaluateConditions s conds = spec_conditions (log a) conds.
Proof.
  intros HP. induction conds as [|c conds IH]; [done|]. cbn [evaluateConditions spec_conditions]. unfold evaluateCondition.
  destruct (item_cases _ _ _ _ _ (c_Key c) HP (unwritten_refl _ _)) as [[-> ->]|(ki & kv & -> & -> & ->)]; by rewrite IH.
Qed.

Lemma executeGet_spec b s a a0 batch op rev :
  Pending b s a a0 batch -> op_Type op = OpTypeGet -> (forall key, touches op key = true -> unwritten a a0 key) ->
  executeGet s op = (spec_op a op rev).2.
Proof.
  intros HP Ht Hu. unfold touches in Hu. rewrite Ht in Hu. destruct (Pd_index _ _ _ _ _ HP) as [revs HR].
  transitivity (spec_op a op Zero).2; [|unfold spec_op; by rewrite Ht].
  rewrite <- (executeGet_refines _ _ _ _ HR Ht). unfold executeGet, MemoryStore.executeGet. f_equal.
  destruct (op_End op) as [e|].
  - rewrite !Range_rangeList by apply (R_index _ _ _ HR). apply iter_while_ext_in. intros kvs [k r] Hin. cbn [fst snd].
    destruct (rangeList_live _ _ _ _ _ _ _ _ HR Hin) as (kv & Hl & Hb & Hr & _).
    change (MemoryStore.revisionStore (ghost s revs)) with revs.
    by rewrite Hb, (read_latest _ _ _ _ _ _ _ _ HP (Hu k Hr) Hl).
  - assert (Huk : unwritten a a0 (op_Key op)) by (apply Hu, String.eqb_refl).
    change (MemoryStore.liveItem (ghost s revs)) with (liveItem s).
    destruct (liveItem_spec _ _ _ (op_Key op) HR) as [[Hn _]|(ki & kv & _ & Hi & Hp & Hl)].
    + change (MemoryStore.liveItem (ghost s revs)) with (liveItem s) in Hn. by rewrite Hn.
    + change (MemoryStore.liveItem (ghost s revs)) with (liveItem s) in Hi. rewrite Hi, Hp.
      destruct (readLast_spec _ _ _ _ _ _ _ HP Huk Hi) as (kv' & -> & Hl'). rewrite Hl in Hl'. inv Hl'.
      pose proof (live_version _ _ _ Hl) as Hv%Z.eqb_neq. destruct (live_event _ _ _ Hl) as (e & Hin & <- & _).
      destruct (R_event_in _ _ _ _ HR Hin) as (_ & _ & ?). destruct (Z.gtb_spec (Version e.2) 0); [done|lia].
Qed.

(** What one operation leaves behind for the next. *)
Definition opDone (m i : Z) s a a0 op (p : RocksDBStore DB TI * list WriteOp * OpResponse) (q : Spec * OpResponse) : Prop :=
  (exists idx', p.1.1 = setIndex s idx') /\ Pending (mkRevision m i) p.1.1 q.1 a0 p.1.2 /\ p.2 = q.2 /\
  cur q.1 = cur a /\ compacted q.1 = compacted a /\
  (forall key, writing op && touches op key = false -> latest (log q.1) key = latest (log a) key).

Lemma setIndex_same s : exists idx', s = setIndex s idx'.
Proof. exists (keyIndex s). by destruct s. Qed.

Lemma executeOp_done m i s a a0 batch op :
  Pending (mkRevision m i) s a a0 batch -> 0 < m <= int64_max -> 0 <= i -> events a + i + 1 < int64_max ->
  (forall key, touches op key = true -> unwritten a a0 key) -> opSized op -> op_Type op <> OpTypeDeleteRange ->
  opDone m (i + 1) s a a0 op (executeOp s batch op (mkRevision m i)) (spec_op a op (mkRevision m i)) /\
  events (spec_op a op (mkRevision m i)).1 <= events a + 1.
Proof.
  intros HP Hm Hi He Hu Hsz Hne. destruct (Pd_index _ _ _ _ _ HP) as [revs HR]. pose proof (R_count _ _ _ HR).
  assert (Hok : rev_ok (mkRevision m i)) by (split; simpl; unfold_ints; lia).
  assert (Hlt : rev_lt (mkRevision m i) (mkRevision m (i + 1))) by (unfold rev_lt; simpl; lia).
  assert (Hskip : Pending (mkRevision m (i + 1)) s a a0 batch).
  { eapply Pending_weaken; [|done]. unfold rev_le. simpl. lia. }
  unfold executeOp, spec_op, opDone, writing. unfold touches in Hu |- *. unfold opSized in Hsz.
  destruct (op_Type op) eqn:Et; try done.
  - assert (Huk : unwritten a a0 (op_Key op)) by (apply Hu, String.eqb_refl).
    pose proof (putAt_pending _ _ _ _ _ _ (op_Key op) (op_Value op) (op_Lease op) _ HP Huk (rev_le_refl _) Hlt ltac:(simpl; lia) Hi
      Hok Hsz ltac:(lia)) as HP'. cbn zeta in HP'. unfold executePut.
    destruct (item_cases _ _ _ _ _ (op_Key op) HP Huk) as [[-> Hl]|(ki & kv & -> & -> & Hl)].
    + rewrite Hl in HP'. split; [|simpl; lia]. split_and!; [by eexists|exact HP'|done|done|done|].
      intros key Hk. cbn [fst spec_putAt append log]. rewrite latest_snoc, Hl. cbn [Key]. by rewrite String.eqb_sym in Hk; cbn in Hk; rewrite Hk.
    + rewrite Hl in HP'. destruct (live_event _ _ _ Hl) as (e & Hin & <- & _).
      destruct (R_event_in _ _ _ _ HR Hin) as (_ & _ & ?). rewrite wrap_i64_id by (unfold_ints; lia).
      split; [|simpl; lia]. split_and!; [by eexists|exact HP'|done|done|done|].
      intros key Hk. cbn [fst spec_putAt append log]. rewrite latest_snoc, Hl. cbn [Key]. by rewrite String.eqb_sym in Hk; cbn in Hk; rewrite Hk.
  - pose proof (executeGet_spec _ _ _ _ _ op Zero HP Et) as Hg. unfold touches in Hg. rewrite Et in Hg.
    split; [|cbn; lia]. split_and!; [apply setIndex_same|done| |done|done|done].
    rewrite (Hg Hu). unfold spec_op. by rewrite Et.
  - assert (Huk : unwritten a a0 (op_Key op)) by (apply Hu, String.eqb_refl). unfold executeDelete.
    destruct (item_cases _ _ _ _ _ (op_Key op) HP Huk) as [[-> Hl]|(ki & kv & Hit & _ & Hl)].
    + unfold spec_deleteAt. rewrite Hl. split; [|cbn; lia]. split_and!; [apply setIndex_same|done..].
    + rewrite Hit. pose proof (tombstone_pending _ _ _ _ _ _ _ _ _ m HP Huk (rev_le_refl _) Hlt ltac:(simpl; lia) Hi Hok eq_refl Hit) as HP'.
      split; [|unfold spec_deleteAt; rewrite Hl; cbn; lia].
      split_and!; [by eexists|exact HP'|by rewrite Hl|unfold spec_deleteAt; by rewrite Hl..|].
      intros key Hk. cbn [fst]. apply latest_deleteAt. intros <-. by rewrite String.eqb_refl in Hk.
  - split; [|cbn; lia]. split_and!; [apply setIndex_same|done..].
Qed.

Lemma executeDeleteRange_done m i s a a0 batch op :
  Pending (mkRevision m i) s a a0 batch -> 0 < m <= int64_max -> 0 <= i -> events a + i + 1 < int64_max ->
  (forall key, touches op key = true -> unwritten a a0 key) -> op_Type op = OpTypeDeleteRange ->
  exists n, 0 <= n /\ i + n < int64_max /\
    opDone m (i + n) s a a0 op (executeOp s batch op (mkRevision m i)) (spec_op a op (mkRevision m i)).
Proof.
  intros HP Hm Hi He Hu Et. unfold executeOp, spec_op, opDone, writing. unfold touches in Hu |- *. rewrite Et in *.
  unfold executeDeleteRange. cbn [Main Sub].
  destruct (deleteRange_pending (fun j => mkRevision m (wrap_i64 (i + j))) m i s a a0 batch (op_Key op) (op_End op) HP Hm Hi)
    as (-> & Hlen & idx' & batch' & -> & HP' & Ho); [lia|done| |].
  { intros j Hj. destruct (Pd_index _ _ _ _ _ HP) as [revs HR]. pose proof (R_count _ _ _ HR).
    pose proof (live_keys_length (log a) (op_Key op) (op_End op)). by rewrite wrap_i64_id by (unfold_ints; lia). }
  eexists. split; [|split; [exact Hlen|]]; [lia|].
  split_and!; [by eexists|exact HP'|done|apply spec_deleteKeys_cur|apply spec_deleteKeys_compacted|].
  intros key Hk. apply Ho. intros [Hin _]%liveRange_keys. by rewrite Hin in Hk.
Qed.

Lemma executeOps_done m ops a0 : forall i s a batch seen,
  Pending (mkRevision m i) s a a0 batch -> 0 < m <= int64_max -> 0 <= i ->
  events a + i + 2 * Z.of_nat (length ops) < int64_max -> rangeDeleteLast ops = true -> Forall opSized ops ->
  independent seen ops -> (forall key, seen key = false -> unwritten a a0 key) ->
  exists idx' batch', executeOps s batch ops m i = (setIndex s idx', batch', (spec_ops a ops (mkRevision m i)).2) /\
    Pending (mkRevision (m + 1) 0) (setIndex s idx') (spec_ops a ops (mkRevision m i)).1 a0 batch' /\
    cur (spec_ops a ops (mkRevision m i)).1 = cur a /\ compacted (spec_ops a ops (mkRevision m i)).1 = compacted a.
Proof.
  induction ops as [|op ops IH]; intros i s a batch seen HP Hm Hi He Hok Hsz Hind Hseen.
  { exists (keyIndex s), batch. split_and!; [by destruct s| |done|done].
    eapply Pending_weaken; [|by destruct s]. unfold rev_le. simpl. lia. }
  cbn [length] in He. destruct Hind as [Htouch Hind]. apply Forall_cons in Hsz as [Hsz0 Hsz].
  assert (Hu : forall key, touches op key = true -> unwritten a a0 key) by auto.
  assert (Hcase : op_Type op <> OpTypeDeleteRange /\ rangeDeleteLast ops = true \/ op_Type op = OpTypeDeleteRange /\ ops = []).
  { destruct ops as [|op' ops].
    - destruct (op_Type op); [left..|by right|left]; by split.
    - left. cbn [rangeDeleteLast] in Hok. by destruct (op_Type op). }
  cbn [executeOps spec_ops Main Sub]. destruct Hcase as [[Hne Hok']|[Heq ->]].
  - destruct (executeOp_done m i s a a0 batch op HP Hm Hi ltac:(lia) Hu Hsz0 Hne) as [Hd Hev].
    destruct (executeOp s batch op (mkRevision m i)) as [[s1 batch1] r1], (spec_op a op (mkRevision m i)) as [a1 r1'].
    destruct Hd as ([idx1 Hs1] & HP1 & Hr & Hc & Hcm & Hl). cbn [fst snd] in *. subst s1 r1'.
    destruct (IH (i + 1) _ a1 batch1 _ HP1 Hm ltac:(lia) ltac:(lia) Hok' Hsz Hind) as (idx2 & batch2 & -> & HP2 & Hc2 & Hcm2).
    { intros key [Hk1 Hk2]%orb_false_iff. unfold unwritten in *. rewrite (Hl key Hk2). auto. }
    destruct (spec_ops a1 ops _) as [a2 rs]. cbn [fst snd] in *. exists idx2, batch2. split_and!; [done|done|congruence|congruence].
  - destruct (executeDeleteRange_done m i s a a0 batch op HP Hm Hi ltac:(lia) Hu Heq) as (n & Hn & _ & Hd).
    destruct (executeOp s batch op (mkRevision m i)) as [[s1 batch1] r1], (spec_op a op (mkRevision m i)) as [a1 r1'].
    destruct Hd as ([idx1 Hs1] & HP1 & Hr & Hc & Hcm & _). cbn [fst snd executeOps spec_ops] in *. subst s1 r1'.
    exists idx1, batch1. split_and!; [done| |done|done]. eapply Pending_weaken; [|done]. unfold rev_le. simpl. lia.
Qed.

Lemma setCur_same a : setCur a (cur a) = a.
Proof. by destruct a. Qed.

Lemma Commit_rsimulates s a t :
  RImplements s a -> rk_cmdOk a (RDo (CmdCommit t)) ->
  rsimulates (rstep s (RDo (CmdCommit t))) (rk_step a (RDo (CmdCommit t))).
Proof.
  intros HI ((Hrd1 & Hrd2 & Hm & He) & Hs1 & Hs2 & Hi1 & Hi2). cbn [rstep rk_step]. unfold Commit, rk_commit.
  destruct (RI_fields _ _ HI) as (Hc & _ & Hcl & Hpos). rewrite Hcl, (conditions_spec _ _ _ _ (RI_pending _ _ HI)).
  destruct (isClosed a); [done|]. destruct (spec_conditions (log a) (conditions t)) as [succ|]; [|done].
  destruct (RI_bump _ _ HI Hm) as (-> & [Hok _] & Hmain & HP).
  cbn zeta. cbn [setCurrent currentRev]. set (ops := if succ then thenOps t else elseOps t).
  assert (Hops : (length ops <= length (thenOps t) + length (elseOps t))%nat) by (unfold ops; destruct succ; lia).
  assert (Hmm : 0 < Main (nextRev a) <= int64_max) by (unfold nextRev; simpl; lia).
  destruct (executeOps_done (Main (nextRev a)) ops _ 0 _ _ [] (fun _ => false) HP Hmm ltac:(lia)) as (idx' & batch' & -> & HP' & Hc' & Hcm');
    [cbn [setCur events]; lia|by unfold ops; destruct succ|by unfold ops; destruct succ|by unfold ops; destruct succ|done|].
  change (mkRevision (Main (nextRev a)) 0) with (nextRev a) in *. destruct (spec_ops (setCur a (nextRev a)) ops (nextRev a)) as [a' resps].
  cbn [fst snd] in *. set (last := if Nat.ltb 0 (length ops) then mkRevision (Main (nextRev a)) (Z.of_nat (length ops) - 1) else nextRev a).
  pose proof (Pd_index _ _ _ _ _ (RI_pending _ _ HI)) as [revs HR]. pose proof (R_count _ _ _ HR).
  assert (Hlast : Main last = Main (nextRev a) /\ 0 <= Sub last /\ rev_ok last).
  { unfold last, rev_ok, nextRev in *. destruct (Nat.ltb_spec 0 (length ops)); simpl in *; unfold_ints; lia. }
  destruct Hlast as (Hlm & Hls & Hlok).
  assert (Hle : rev_le (compacted a') last).
  { destruct (R_order _ _ _ HR) as [_ Ho]. rewrite Hcm'. cbn [setCur compacted]. unfold rev_le in *. unfold nextRev in Hlm. simpl in Hlm. lia. }
  pose proof (Pending_setCurrent _ _ _ _ _ last HP' Hle Hls) as HP2.
  apply (Pending_weaken _ (nextRev (setCur a' last))) in HP2; [|unfold rev_le, nextRev; simpl in *; lia].
  destruct (Pending_write _ _ _ _ HP2 eq_refl Hlok) as (d' & Hw & HI').
  { cbn [setCur compacted]. rewrite Hcm'. apply HI. }
  replace (if Nat.ltb 0 (length ops) then setCur a' _ else a') with (setCur a' last).
  2:{ unfold last. destruct (Nat.ltb 0 (length ops)); [done|]. cbn [setCur cur] in Hc'. rewrite <- Hc'. apply setCur_same. }
  replace (if Nat.ltb 0 (length ops) then setCurrent _ _ else _) with (setCurrent (setIndex (setCurrent s (nextRev a)) idx') last).
  2:{ unfold last. by destruct (Nat.ltb 0 (length ops)). }
  rewrite Hw. split; [exact HI'|done].
Qed.

(** ** Closing and synchronising *)

Lemma Close_rsimulates s a : RImplements s a -> rsimulates (rstep s (RDo CmdClose)) (rk_step a (RDo CmdClose)).
Proof.
  intros HI. cbn [rstep rk_step spec_step]. unfold Close, spec_close. destruct (RI_fields _ _ HI) as (_ & _ & Hcl & _).
  rewrite Hcl. destruct (isClosed a); [done|]. split; [|done]. destruct HI as [[[revs HR] ? ? ? ? ? ?] ? ?].
  constructor; [|done..]. constructor; try done. exists revs. constructor; try apply HR. done.
Qed.

(** Writing a revision under a key of the metadata. *)
Lemma RI_meta s a d' key r :
  RImplements s a -> healthy d' -> contents d' = <[key := Bytes r]> (contents (db s)) -> has_prefix kvMVCCPrefix key = false ->
  Pending (nextRev a) (setDb s d') a a [].
Proof.
  intros [[[revs HR] Hh Hs He Hb ? ?] _ _] Hh' Hd Hk.
  assert (Hst : Stored (contents d') (log a)).
  { rewrite Hd. apply (Stored_other _ _ [WPut key (Bytes r)]); [|done]. by apply Forall_singleton. }
  constructor; try done. by exists revs.
Qed.

Lemma Sync_rsimulates s a : RImplements s a -> rsimulates (rstep s RSync) (rk_step a RSync).
Proof.
  intros HI. cbn [rstep rk_step]. unfold Sync, rk_sync. destruct (RI_fields _ _ HI) as (Hc & _ & Hcl & _).
  rewrite Hcl, Hc. destruct (isClosed a); [done|]. unfold write.
  pose proof (Pd_healthy _ _ _ _ _ (RI_pending _ _ HI)) as Hh. set (batch := [WPut metaCurrentRevision (Bytes (cur a))]).
  destruct (db_write_healthy (db s) batch Hh) as [Hn Hh']. destruct (db_write (db s) batch) as [d' [e|]] eqn:Ew; [done|].
  apply db_write_ok in Ew. split; [|done]. cbn [snd fst] in Hh'. constructor.
  - by apply (RI_meta s a d' metaCurrentRevision (cur a)).
  - split; [apply HI|]. left. change (bytes_at (contents d') metaCurrentRevision = Bytes (cur a)). unfold bytes_at.
    rewrite Ew. cbn [batch apply_batch fold_left apply_write]. by rewrite lookup_insert_eq.
  - destruct (RI_compacted _ _ HI) as [Hok Hsv]. split; [done|].
    change (bytes_at (contents d') metaCompactedRevision = Bytes (compacted a) \/
            bytes_at (contents d') metaCompactedRevision = "" /\ compacted a = Zero).
    replace (bytes_at (contents d') metaCompactedRevision) with (bytes_at (contents (db s)) metaCompactedRevision); [done|].
    rewrite Ew. unfold bytes_at. cbn [batch apply_batch fold_left apply_write]. by rewrite lookup_insert_ne.
Qed.

End refine.
