(* ===== verification/MvccRocksRestart.v ===== *)
(** * Compaction and restart of the MVCC store on RocksDB

    [Compact] deletes what a scan finds below the target; [NewRocksDBStore]
    rebuilds the key index from a scan.  [RState] is the full relation between
    operations, and [run_rsimulates] the refinement for all runs. *)

From S2P Require Import Prelude GoBytes Revision OrderedTree KeyValue KeyIndex MemoryStore.
From S2P Require Import MvccSpec MvccRefine MvccOps ByteDB MvccRocks MvccRocksSpec MvccRocksRefine.
Local Open Scope go_scope.

(** ** The specification keeps nothing below its compacted revision *)

Definition kept (a : Spec) : Prop :=
  rev_le (compacted a) (cur a) /\ Forall (fun e => rev_le (compacted a) e.1) (log a).

Lemma kept_append a rev kv : kept a -> rev_le (compacted a) rev -> kept (append a rev kv).
Proof. intros [Hc Hl] Hr. split; [done|]. apply Forall_app. split; [done|]. by apply Forall_singleton. Qed.

Lemma kept_setCur a r : kept a -> rev_le (compacted a) r -> kept (setCur a r).
Proof. by intros [_ Hl] Hr. Qed.

Lemma kept_deleteAt a key rev : kept a -> rev_le (compacted a) rev -> kept (spec_deleteAt a key rev).
Proof. intros Ha Hr. unfold spec_deleteAt. destruct (live (log a) key); [|done]. by apply kept_append. Qed.

Lemma kept_deleteKeys keys : forall a rev, kept a -> rev_le (compacted a) rev -> kept (spec_deleteKeys a keys rev).
Proof.
  induction keys as [|k keys IH]; intros a rev Ha Hr; [done|]. cbn [spec_deleteKeys]. apply IH; [by apply kept_deleteAt|].
  replace (compacted (spec_deleteAt a k rev)) with (compacted a) by (unfold spec_deleteAt; by destruct (live (log a) k)).
  unfold rev_le in *. simpl. lia.
Qed.

Lemma kept_op a op rev : kept a -> rev_le (compacted a) rev -> kept (spec_op a op rev).1 /\ compacted (spec_op a op rev).1 = compacted a.
Proof.
  intros Ha Hr. unfold spec_op. destruct (op_Type op); cbn [fst]; try done.
  - by split; [apply kept_append|].
  - split; [by apply kept_deleteAt|]. unfold spec_deleteAt. by destruct (live (log a) (op_Key op)).
  - split; [by apply kept_deleteKeys|]. apply spec_deleteKeys_compacted.
Qed.

Lemma kept_ops ops : forall a rev, kept a -> rev_le (compacted a) rev ->
  kept (spec_ops a ops rev).1 /\ compacted (spec_ops a ops rev).1 = compacted a.
Proof.
  induction ops as [|op ops IH]; intros a rev Ha Hr; [done|]. cbn [spec_ops].
  destruct (kept_op a op rev Ha Hr) as [Ha1 Hc1]. destruct (spec_op a op rev) as [a1 r1]. cbn [fst] in *.
  destruct (IH a1 (mkRevision (Main rev) (Sub rev + 1)) Ha1) as [Ha2 Hc2].
  { rewrite Hc1. unfold rev_le in *. simpl. lia. }
  destruct (spec_ops a1 ops _) as [a2 rs]. cbn [fst] in *. split; [done|congruence].
Qed.

Lemma kept_next a : kept a -> rev_le (compacted a) (nextRev a).
Proof. intros [Hc _]. unfold nextRev, rev_le in *. simpl. lia. Qed.

Lemma kept_step a c : kept a -> kept (rk_step a c).1.
Proof.
  intros Ha. pose proof (kept_next a Ha) as Hn. pose proof (kept_setCur a (nextRev a) Ha Hn) as Ha'.
  destruct c as [[key value lease|key rev|start end_ rev limit|key|start end_|t|rev| | |]| |]; cbn [rk_step spec_step]; try done.
  - unfold rk_put. destruct (String.eqb key ""); [done|]. destruct (isClosed a); [done|]. by apply kept_append.
  - unfold read. by destruct (spec_get a key rev).
  - unfold read. by destruct (spec_range a start end_ rev limit).
  - unfold spec_delete. destruct (String.eqb key ""); [done|]. destruct (isClosed a); [done|].
    destruct (live (log a) key); [|done]. by apply kept_deleteAt.
  - unfold spec_deleteRange. destruct (String.eqb start ""); [done|]. destruct (isClosed a); [done|].
    destruct (liveRange (log a) start end_).*1 as [|k keys]; [done|]. cbn [MvccOps.write fst]. rewrite spec_deleteKeys_setCur.
    apply kept_setCur; [by apply kept_deleteKeys|]. rewrite spec_deleteKeys_compacted.
    destruct Ha as [Hc _]. unfold rev_le, nextRev in *. left. simpl. lia.
  - unfold rk_commit. destruct (isClosed a); [done|]. destruct (spec_conditions (log a) (conditions t)) as [succ|]; [|done].
    set (ops := if succ then thenOps t else elseOps t). destruct (kept_ops ops _ (nextRev a) Ha' Hn) as [Hk Hc].
    destruct (spec_ops (setCur a (nextRev a)) ops (nextRev a)) as [a' rs]. cbn [commit MvccOps.write fst] in *.
    destruct (Nat.ltb 0 (length ops)); [|done]. apply kept_setCur; [done|]. rewrite Hc.
    destruct Ha as [Hle _]. cbn [setCur compacted]. unfold rev_le, nextRev in *. left. simpl. lia.
  - unfold spec_compact. destruct (isClosed a); [done|]. cbn zeta. set (target := mkRevision rev 0).
    destruct (bool_decide_reflect (rev_le target (compacted a))) as [|_]; [done|].
    destruct (bool_decide_reflect (rev_lt (cur a) target)) as [|Hf]; [done|]. split; cbn [update fst compacted cur log].
    + apply dec_stable. by rewrite rev_not_le.
    + apply Forall_forall. intros e [_ Hk]%list_elem_of_In%filter_In. by apply LessThanOrEqual_iff.
  - unfold spec_close. by destruct (isClosed a).
  - unfold rk_sync. by destruct (isClosed a).
Qed.

Section restart.
Context {DB : Type} `{!ByteDB DB, !ByteDBLaws DB} {TI : Type -> Type} `{!BTree string TI, !BTreeLaws string TI}.

Implicit Types (s : RocksDBStore DB TI) (a : Spec).

(** ** Scans *)

(** A scan of the store's keys visits the events of the log. *)
Lemma scan_events (d : DB) l :
  healthy d -> Stored (contents d) l ->
  exists es, scan d kvMVCCPrefix = ((fun e => (eventKey e, Encode e.2)) <$> es, None) /\
    StronglySorted (fun x y => str_ltb (eventKey x) (eventKey y) = true) es /\ forall e, e ∈ es -> e ∈ l.
Proof.
  intros Hh Hs. destruct (scan_spec d kvMVCCPrefix Hh) as (ps & -> & Hsorted & Hin).
  assert (Hall : forall p, p ∈ ps -> exists e, e ∈ l /\ p = (eventKey e, Encode e.2)).
  { intros [k v] Hp. apply Hin in Hp as [Hl Hk]. apply (Hs k v Hk) in Hl as (e & He & -> & ->). by exists e. }
  assert (Hex : exists es, ps = ((fun e => (eventKey e, Encode e.2)) <$> es) /\ forall e, e ∈ es -> e ∈ l).
  { clear Hsorted Hin. induction ps as [|p ps IH]; [by exists []; split; [|set_solver]|].
    destruct (Hall p) as (e & He & ->); [by left|]. destruct IH as (es & -> & Hes); [intros q Hq; apply Hall; by right|].
    exists (e :: es). split; [done|]. set_solver. }
  destruct Hex as (es & -> & Hes). exists es. split; [done|]. split; [|done]. clear -Hsorted.
  induction es as [|e es IH]; [constructor|]. cbn [fmap list_fmap] in Hsorted. apply StronglySorted_inv in Hsorted as [Hs Hall].
  constructor; [by apply IH|]. by rewrite Forall_fmap in Hall.
Qed.

(** All of them. *)
Lemma scan_events_all (d : DB) l es :
  healthy d -> Stored (contents d) l -> Encodable l ->
  scan d kvMVCCPrefix = ((fun e => (eventKey e, Encode e.2)) <$> es, None) -> (forall e, e ∈ es -> e ∈ l) ->
  forall e, e ∈ l -> e ∈ es.
Proof.
  intros Hh Hs He Hscan Hes e Hin. destruct (scan_spec d kvMVCCPrefix Hh) as (ps & Hps & _ & Hall).
  rewrite Hscan in Hps. injection Hps as <-.
  pose proof (proj2 (Hall (eventKey e) (Encode e.2)) (conj (Stored_lookup _ _ _ Hs Hin) (storage_prefix _ _))) as Hmem.
  apply list_elem_of_fmap in Hmem as (e' & Heq & Hin').
  pose proof (f_equal fst Heq : eventKey e = eventKey e') as Hk. pose proof (f_equal snd Heq : Encode e.2 = Encode e'.2) as Hv.
  pose proof (Encodable_elem _ _ He Hin) as [Hr Henc]. pose proof (Encodable_elem _ _ He (Hes _ Hin')) as [Hr' Henc'].
  apply storage_inj in Hk as [_ Hk]; [|done..]. apply (f_equal Decode) in Hv. rewrite !Decode_Encode in Hv by done.
  destruct e as [r kv], e' as [r' kv']. cbn in *. by simplify_eq.
Qed.

(** ** Compaction *)

Lemma compactBatch_events target es :
  Encodable es ->
  compactBatch target ((fun e => (eventKey e, Encode e.2)) <$> es) =
    WDelete <$> (eventKey <$> List.filter (fun e => LessThan e.1 target) es).
Proof.
  intros He. unfold compactBatch. f_equal. induction es as [|e es IH]; [done|]. apply Forall_cons in He as [[Hr _] He].
  cbn [fmap list_fmap List.filter fst]. unfold eventKey at 1. rewrite parse_storage by done.
  destruct (LessThan e.1 target); cbn [fmap list_fmap fst]; by rewrite IH.
Qed.

Lemma Stored_compact m l target :
  Encodable l -> Stored m l ->
  Stored (apply_batch (WDelete <$> (eventKey <$> List.filter (fun e => LessThan e.1 target) l)) m)
    (List.filter (fun e => keptBy target e.1) l).
Proof.
  intros He Hs key v Hk. rewrite apply_deletes.
  assert (Hkeys : key ∈ eventKey <$> List.filter (fun e => LessThan e.1 target) l <->
    exists e, e ∈ l /\ key = eventKey e /\ LessThan e.1 target = true).
  { rewrite list_elem_of_fmap. setoid_rewrite list_elem_of_In. setoid_rewrite filter_In. naive_solver. }
  assert (Hkept : forall e, e ∈ List.filter (fun e => keptBy target e.1) l <-> e ∈ l /\ LessThan e.1 target = false).
  { intros e. rewrite list_elem_of_In, filter_In, <- list_elem_of_In, keptBy_not_lt. by rewrite negb_true_iff. }
  case_decide as Hd; rewrite Hkeys in Hd.
  - split; [done|]. intros (e & [Hin Hlt]%Hkept & -> & _). destruct Hd as (e' & Hin' & Heq & Hlt').
    apply storage_inj in Heq as [_ Heq]; [congruence|by destruct (Encodable_elem _ _ He Hin)|by destruct (Encodable_elem _ _ He Hin')].
  - rewrite (Hs key v Hk). split.
    + intros (e & Hin & -> & ->). exists e. split_and!; [|done|done]. apply Hkept. split; [done|].
      destruct (LessThan e.1 target) eqn:E; [|done]. destruct Hd. by exists e.
    + intros (e & [Hin _]%Hkept & ? & ?). by exists e.
Qed.

Lemma Stored_same m l l' : (forall e, e ∈ l <-> e ∈ l') -> Stored m l -> Stored m l'.
Proof. intros Hll Hs key v Hk. rewrite (Hs key v Hk). by setoid_rewrite Hll. Qed.

Lemma Forall_filter_records {A} (P : A -> Prop) f (l : list A) : Forall P l -> Forall P (List.filter f l).
Proof. rewrite !Forall_forall. intros H x Hx%list_elem_of_In%filter_In. apply H, list_elem_of_In, Hx. Qed.

Lemma elem_of_filter_same {A} f (l l' : list A) :
  (forall e, e ∈ l <-> e ∈ l') -> forall e, e ∈ List.filter f l <-> e ∈ List.filter f l'.
Proof. intros Hll e. rewrite !list_elem_of_In, !filter_In, <- !list_elem_of_In. by rewrite Hll. Qed.

(** What the batch of a compaction leaves. *)
Lemma compact_contents (d : DB) l target :
  healthy d -> Stored (contents d) l -> Encodable l ->
  let m' := apply_batch (compactBatch target (scan d kvMVCCPrefix).1 ++ [WPut metaCompactedRevision (Bytes target)]) (contents d) in
  Stored m' (List.filter (fun e => keptBy target e.1) l) /\
  bytes_at m' metaCurrentRevision = bytes_at (contents d) metaCurrentRevision /\
  bytes_at m' metaCompactedRevision = Bytes target.
Proof.
  intros Hh Hs He m'. destruct (scan_events d l Hh Hs) as (es & Hscan & _ & Hsub).
  pose proof (scan_events_all _ _ _ Hh Hs He Hscan Hsub) as Hsup.
  assert (Hes : Encodable es) by (apply Forall_forall; intros e Hin; by apply (Encodable_elem _ _ He), Hsub).
  subst m'. rewrite Hscan. cbn [fst]. rewrite compactBatch_events, apply_batch_app by done. split_and!.
  - apply Stored_other; [by apply Forall_singleton|].
    apply (Stored_same _ (List.filter (fun e => keptBy target e.1) es)); [apply elem_of_filter_same; split; auto|].
    apply Stored_compact; [done|]. eapply Stored_same; [|done]. split; auto.
  - match goal with |- context [apply_batch [?w] ?m] => change (apply_batch [w] m) with (apply_write m w) end.
    unfold bytes_at. cbn [apply_write]. rewrite lookup_insert_ne by done. rewrite apply_deletes, decide_False; [done|]. intros (e & Heq & _)%list_elem_of_fmap.
    assert (Hpre : has_prefix kvMVCCPrefix metaCurrentRevision = true) by (rewrite Heq; apply storage_prefix). done.
  - unfold bytes_at. cbn [apply_batch fold_left apply_write]. by rewrite lookup_insert_eq.
Qed.

Lemma Compact_rsimulates s a rev :
  RImplements s a -> rk_cmdOk a (RDo (CmdCompact rev)) ->
  rsimulates (rstep s (RDo (CmdCompact rev))) (rk_step a (RDo (CmdCompact rev))).
Proof.
  intros HI Hok. pose proof (Pd_index _ _ _ _ _ (RI_pending _ _ HI)) as [revs HR].
  destruct (MvccOps.Compact_refines (ghost s revs) a rev HR Hok) as [HR' _]. cbn [rstep rk_step spec_step step] in HR' |- *.
  unfold MemoryStore.Compact in HR'. unfold Compact, spec_compact in *.
  destruct (RI_fields _ _ HI) as (Hc & Hcm & Hcl & _).
  cbn [ghost MemoryStore.closed MemoryStore.compactedRev MemoryStore.revisionGen MemoryStore.keyIndex MemoryStore.revisionStore
       Current current] in HR'.
  destruct s as [d idx c cm cl]. cbn [currentRev compactedRev closed keyIndex db] in *. subst c cm cl.
  rewrite LessThanOrEqual_decide, GreaterThan_decide in *. cbn zeta in *. set (target := mkRevision rev 0) in *.
  destruct (isClosed a); [done|]. destruct (bool_decide_reflect (rev_le target (compacted a))) as [|Hlo]; [done|].
  destruct (bool_decide_reflect (rev_lt (cur a) target)) as [|Hhi]; [done|]. cbn [update fst] in HR'.
  destruct HI as [[_ Hh Hs He _ _ _] [Hcok Hcur] [Hmok Hcomp]].
  destruct (compact_contents d (log a) target Hh Hs He) as (Hst & Hm1 & Hm2).
  unfold write. cbn [setCompacted db]. match goal with |- context [db_write d ?b] => set (batch := b) in * end.
  destruct (db_write_healthy d batch Hh) as [Hn Hh']. destruct (db_write d batch) as [d' [x|]] eqn:Ew; [done|].
  apply db_write_ok in Ew. rewrite <- Ew in Hst, Hm1, Hm2. cbn [fst snd fmap option_fmap] in Hh' |- *. split; [|done].
  assert (Htok : rev_ok target).
  { apply rev_not_le in Hlo. destruct (R_order _ _ _ HR) as [Hz _]. destruct Hcok as [Hm _].
    assert (Hle : rev_le target (cur a)) by (apply dec_stable; by rewrite rev_not_le).
    unfold target, rev_ok, rev_lt, rev_le, Zero in *. simpl in *. unfold_ints. lia. }
  constructor.
  - constructor; [eexists; exact HR'|exact Hh'|exact Hst|by apply Forall_filter_records|exact Hst|by apply Forall_filter_records|constructor].
  - split; [done|]. change (bytes_at (contents d') metaCurrentRevision = Bytes (cur a) \/
      bytes_at (contents d') metaCurrentRevision = "" /\ cur a = Zero). by rewrite Hm1.
  - split; [done|]. by left.
Qed.

(** ** Restart *)

(** The index shows the log. *)
Definition Indexed (idx : TI KeyItem) (l : list Event) : Prop :=
  wf_index idx /\ forall key, idxRevs idx key = (keyLog l key).*1 /\
    idxDeleted idx key = match live l key with Some _ => false | None => true end.

Definition putEvent (idx : TI KeyItem) (e : Event) : TI KeyItem :=
  if Version e.2 =? 0 then (KeyIndex.Delete idx (Key e.2) e.1).1 else KeyIndex.Put idx (Key e.2) e.1.

Lemma Indexed_new : Indexed NewKeyIndex [].
Proof.
  split; [apply wf_new|]. intros key. unfold idxRevs, idxDeleted, NewKeyIndex, KeyIndex.Get. by rewrite bt_get_new.
Qed.

Lemma settled_app l1 l2 : settled (l1 ++ l2) -> settled l1.
Proof.
  intros Hs key before e after Hl Hv. unfold keyLog in Hl. apply (Hs key before e (after ++ keyLog l2 key)); [|done].
  unfold keyLog. rewrite List.filter_app, Hl. by rewrite <- app_assoc.
Qed.

Lemma keyLog_last l e key : keyLog (l ++ [e]) key = keyLog l key ++ (if String.eqb (Key e.2) key then [e] else []).
Proof. destruct e. apply keyLog_snoc. Qed.

Lemma keyLog_latest l key : last (keyLog l key) = latest l key.
Proof. apply last_such_last. Qed.

(** Replaying one more event. *)
Lemma Indexed_snoc idx l e :
  Indexed idx l -> settled (l ++ [e]) -> StronglySorted rev_lt (keyLog (l ++ [e]) (Key e.2)).*1 ->
  Indexed (putEvent idx e) (l ++ [e]).
Proof.
  intros [Hwf Hidx] Hset Hsort. destruct e as [r kv]. cbn [fst snd] in *.
  rewrite keyLog_snoc, String.eqb_refl, fmap_app in Hsort. destruct (Hidx (Key kv)) as [Hr Hd].
  assert (Hbelow : Forall (fun x => rev_lt x r) (idxRevs idx (Key kv))).
  { rewrite Hr. apply Forall_forall. intros x Hx. apply (StronglySorted_app_1_elem_of _ _ _ _ _ Hsort Hx). by left. }
  assert (Hnew : forall idx', wf_index idx' -> idxRevs idx' (Key kv) = idxRevs idx (Key kv) ++ [r] ->
    idxDeleted idx' (Key kv) = (Version kv =? 0) ->
    (forall key, Key kv <> key -> KeyIndex.Get idx' key = KeyIndex.Get idx key) -> Indexed idx' (l ++ [(r, kv)])).
  { intros idx' Hwf' Hr' Hd' Hne. split; [done|]. intros key. rewrite keyLog_snoc, live_snoc, fmap_app.
    destruct (String.eqb_spec (Key kv) key) as [<-|Hk].
    - rewrite Hr', Hr, Hd'. split; [done|]. by destruct (Version kv =? 0).
    - unfold idxRevs, idxDeleted in *. rewrite (Hne _ Hk), app_nil_r. apply Hidx. }
  unfold putEvent. cbn [fst snd]. destruct (Z.eqb_spec (Version kv) 0) as [Hv|Hv].
  - destruct (Hset (Key kv) (keyLog l (Key kv)) (r, kv) []) as (p & Hp & Hpv); [|done|].
    { by rewrite keyLog_snoc, String.eqb_refl. }
    rewrite keyLog_latest in Hp. assert (Hlive : live l (Key kv) = Some p.2).
    { unfold live, shown. rewrite Hp. apply Z.eqb_neq in Hpv. by rewrite Hpv. }
    rewrite Hlive in Hd. destruct (KeyIndex.Delete_spec idx (Key kv) r Hwf Hbelow Hd) as (Hwf' & Hr' & Hd' & _ & Hne).
    by apply Hnew.
  - destruct (KeyIndex.Put_spec idx (Key kv) r Hwf Hbelow) as (Hwf' & Hr' & Hd' & Hne).
    by apply Hnew.
Qed.

Lemma Indexed_replay l :
  settled l -> (forall key, StronglySorted rev_lt (keyLog l key).*1) -> Indexed (fold_left putEvent l NewKeyIndex) l.
Proof.
  induction l as [|e l IH] using rev_ind; intros Hset Hsort; [apply Indexed_new|]. rewrite fold_left_app.
  apply Indexed_snoc; [|done|apply Hsort]. apply IH; [by eapply settled_app|]. intros key.
  specialize (Hsort key). rewrite keyLog_last, fmap_app in Hsort. by eapply StronglySorted_app_1_l.
Qed.

(** Another order of the log with the same order of each key shows the same. *)
Lemma Indexed_same idx l l' : (forall key, keyLog l key = keyLog l' key) -> Indexed idx l -> Indexed idx l'.
Proof.
  intros Hkl [Hwf Hidx]. split; [done|]. intros key. destruct (Hidx key) as [Hr Hd].
  rewrite <- Hkl. split; [done|]. rewrite Hd. unfold live. by rewrite <- !keyLog_latest, Hkl.
Qed.

Lemma settled_same l l' : (forall key, keyLog l key = keyLog l' key) -> settled l' -> settled l.
Proof. intros Hkl Hs key before e after Hl. rewrite Hkl in Hl. by apply Hs with (after := after) (key := key). Qed.

(** Events of one key are stored in the order of their revisions. *)
Lemma eventKey_ltb e e' :
  Key e.2 = Key e'.2 -> 0 <= Main e.1 /\ 0 <= Sub e.1 -> 0 <= Main e'.1 /\ 0 <= Sub e'.1 -> rev_ok e.1 -> rev_ok e'.1 ->
  str_ltb (eventKey e) (eventKey e') = LessThan e.1 e'.1.
Proof.
  intros Hk [] [] [[_ ?] [_ ?]] [[_ ?] [_ ?]]. unfold eventKey, makeStorageKey. rewrite Hk, <- !str_app_assoc.
  rewrite <- Bytes_ltb by done. unfold str_ltb, String.ltb. rewrite str_compare_app by done.
  assert (Hrefl : forall x, String.compare x x = Eq).
  { induction x as [|c x IH]; [done|]. cbn. by rewrite ascii_compare_val, Z.compare_refl. }
  by rewrite Hrefl.
Qed.

Lemma keyLog_elem l key e : e ∈ keyLog l key <-> e ∈ l /\ Key e.2 = key.
Proof. unfold keyLog. rewrite list_elem_of_In, filter_In, <- list_elem_of_In. unfold ofKey. by rewrite String.eqb_eq. Qed.

Definition event_lt (e e' : Event) : Prop := LessThan e.1 e'.1 = true.

Lemma event_sorted_fst l : StronglySorted event_lt l <-> StronglySorted rev_lt l.*1.
Proof.
  induction l as [|e l IH]; [split; constructor|]. cbn [fmap list_fmap]. split; intros [Hs Hall]%StronglySorted_inv; constructor.
  - by apply IH.
  - apply Forall_fmap. eapply Forall_impl; [apply Hall|]. intros x. apply LessThan_iff.
  - by apply IH.
  - rewrite (Forall_fmap fst) in Hall. eapply Forall_impl; [apply Hall|]. intros x. apply LessThan_iff.
Qed.

(** The events in the order of the scan, key by key. *)
Lemma scan_keyLog s revs a es :
  R (nextRev a) (ghost s revs) a -> Encodable (log a) -> (forall e, e ∈ es <-> e ∈ log a) ->
  StronglySorted (fun x y => str_ltb (eventKey x) (eventKey y) = true) es ->
  forall key, keyLog es key = keyLog (log a) key.
Proof.
  intros HR He Hel Hs key.
  assert (Hpos : forall e, e ∈ log a -> 0 <= Main e.1 /\ 0 <= Sub e.1).
  { intros e Hin. destruct (R_event_in _ _ _ _ HR Hin) as (? & ? & _). lia. }
  apply (strictly_sorted_unique (K := Revision)).
  - assert (Hsk : StronglySorted (fun x y => str_ltb (eventKey x) (eventKey y) = true) (keyLog es key)) by by apply sorted_filter.
    assert (Hall : forall e, e ∈ keyLog es key -> e ∈ log a /\ Key e.2 = key) by (intros e [Hin Hk]%keyLog_elem; by rewrite <- Hel).
    revert Hall. induction Hsk as [|e l _ IH Hlt]; intros Hall; constructor; [apply IH; intros x Hx; apply Hall; by right|].
    rewrite Forall_forall in Hlt |- *. intros x Hx. specialize (Hlt x Hx).
    destruct (Hall e) as [Hin Hk]; [by left|]. destruct (Hall x) as [Hin' Hk']; [by right|].
    rewrite eventKey_ltb in Hlt; [done|congruence|auto|auto|apply (Encodable_elem _ _ He Hin)|apply (Encodable_elem _ _ He Hin')].
  - apply sorted_filter. change (StronglySorted event_lt (log a)). apply event_sorted_fst, HR.
  - intros e. rewrite !keyLog_elem. by rewrite Hel.
Qed.

Lemma rebuild_replay compacted es idx :
  Encodable es -> Forall (fun e => rev_le compacted e.1) es ->
  fold_left (rebuildEntry compacted) ((fun e => (eventKey e, Encode e.2)) <$> es) idx = fold_left putEvent es idx.
Proof.
  revert idx. induction es as [|e es IH]; intros idx He Hk; [done|].
  apply Forall_cons in He as [[Hr Henc] He]. apply Forall_cons in Hk as [Hk0 Hk]. cbn [fmap list_fmap fold_left].
  rewrite IH by done. f_equal. unfold rebuildEntry. cbn [fst snd]. unfold eventKey. rewrite parse_storage by done.
  rewrite Decode_Encode by done. rewrite (proj2 (LessThan_false _ _)) by done. done.
Qed.

Lemma loadRevision_spec (d : DB) key r :
  healthy d -> savedAt (contents d) key r -> loadRevision d key = Ok r.
Proof.
  intros Hh [Hok Hb]. unfold loadRevision. rewrite db_get_healthy by done. destruct Hb as [->|[-> ->]]; [|done].
  rewrite Bytes_length. cbn [RevisionSize Z.geb Z.compare]. change (RevisionSize >=? 16) with true. cbn iota.
  by rewrite <- (str_app_nil_r (Bytes r)), ParseRevision_Bytes_app.
Qed.

(** The store that opens a database with the log has the log. *)
Lemma NewRocksDBStore_spec s a :
  RImplements s a -> kept a -> settled (log a) ->
  exists s', NewRocksDBStore (db s) = Ok s' /\ RImplements s' (rk_reopen a) /\ db s' = db s.
Proof.
  intros HI [_ Hkept] Hset. destruct HI as [[[revs HR] Hh Hs He _ _ _] Hcur Hcomp].
  unfold NewRocksDBStore, loadMetadata. rewrite !(loadRevision_spec _ _ _ Hh Hcur), !(loadRevision_spec _ _ _ Hh Hcomp).
  cbn [result_bind fst snd]. unfold rebuildKeyIndex. destruct (scan_events (db s) (log a) Hh Hs) as (es & Hscan & Hsort & Hsub).
  rewrite Hscan. pose proof (scan_events_all _ _ _ Hh Hs He Hscan Hsub) as Hsup.
  assert (Hel : forall e, e ∈ es <-> e ∈ log a) by (split; auto).
  rewrite rebuild_replay; [|apply Forall_forall; intros e Hin; by apply (Encodable_elem _ _ He), Hsub|].
  2:{ rewrite Forall_forall in Hkept |- *. auto. }
  pose proof (scan_keyLog _ _ _ _ HR He Hel Hsort) as Hkl. set (idx := fold_left putEvent es NewKeyIndex).
  assert (Hidx : Indexed idx (log a)).
  { apply (Indexed_same _ es); [done|]. apply Indexed_replay; [by eapply settled_same|]. intros key. rewrite Hkl.
    apply event_sorted_fst, sorted_filter, event_sorted_fst, HR. }
  eexists. split; [done|]. split; [|done]. destruct Hidx as [Hwf Hidx]. constructor; [|done..].
  constructor; try done. exists revs. constructor; try apply HR; try done; intros key; apply Hidx.
Qed.

Definition RState s a : Prop := RImplements s a /\ kept a.

Lemma Reopen_rsimulates s a :
  RState s a -> settled (log a) -> rsimulates (rstep s RReopen) (rk_step a RReopen).
Proof.
  intros [HI Hk] Hset. cbn [rstep rk_step]. destruct (NewRocksDBStore_spec s a HI Hk Hset) as (s' & -> & HI' & _). done.
Qed.

Lemma rstep_rsimulates s a c : RState s a -> rk_cmdOk a c -> rsimulates (rstep s c) (rk_step a c).
Proof.
  intros HS Hok. pose proof HS as [HI _]. destruct c as [[]| |].
  - by apply Put_rsimulates.
  - by apply Get_rsimulates.
  - by apply Range_rsimulates.
  - by apply Delete_rsimulates.
  - by apply DeleteRange_rsimulates.
  - by apply Commit_rsimulates.
  - by apply Compact_rsimulates.
  - by apply Close_rsimulates.
  - split; [done|]. cbn. unfold CurrentRevision. by destruct (RI_fields _ _ HI) as (-> & _).
  - split; [done|]. cbn. unfold CompactedRevision. by destruct (RI_fields _ _ HI) as (_ & -> & _).
  - by apply Sync_rsimulates.
  - by apply Reopen_rsimulates.
Qed.

Lemma rrun_rsimulates cs : forall s a,
  RState s a -> rk_traceOk a cs ->
  RState (rrun s cs).1 (rk_run a cs).1 /\ (rrun s cs).2 = Ans <$> (rk_run a cs).2.
Proof.
  induction cs as [|c cs IH]; intros s a HS Hok; [done|]. destruct Hok as [Hc Hcs]. cbn [rrun rk_run].
  destruct (rstep_rsimulates s a c HS Hc) as [HI1 Hr]. pose proof (kept_step a c (proj2 HS)) as Hk1.
  destruct (rstep s c) as [s1 r], (rk_step a c) as [a1 r']. cbn [fst snd] in *. subst r.
  destruct (IH s1 a1 (conj HI1 Hk1) Hcs) as [HS2 Hrs].
  destruct (rrun s1 cs) as [s2 rs], (rk_run a1 cs) as [a2 rs']. cbn [fst snd] in *. by rewrite Hrs.
Qed.

End restart.
