(* ===== verification/MvccRocksTheorems.v ===== *)
(** * Properties of the MVCC store on RocksDB

    The refinement for all runs, restarts included, the recovery after a failed
    write, and the behaviours that differ from the in-memory store. *)

From S2P Require Import Prelude GoBytes Revision OrderedTree KeyValue KeyIndex MemoryStore.
From S2P Require Import MvccSpec MvccRefine MvccOps ByteDB MvccRocks MvccRocksSpec MvccRocksRefine MvccRocksRestart.
Local Open Scope go_scope.

Section theorems.
Context {DB : Type} `{!ByteDB DB, !ByteDBLaws DB} {TI : Type -> Type} `{!BTree string TI, !BTreeLaws string TI}.

Implicit Types (s : RocksDBStore DB TI) (a : Spec).

(** A database without keys of the store. *)
Definition noStore (d : DB) : Prop := forall key, has_prefix "mvcc:" key = true -> contents d !! key = None.

Lemma prefix_shorter key : has_prefix kvMVCCPrefix key = true -> has_prefix "mvcc:" key = true.
Proof. exact (has_prefix_shorten "mvcc:" "kv:" key). Qed.

Lemma NewRocksDBStore_fresh (d : DB) :
  healthy d -> noStore d -> exists s, NewRocksDBStore d = Ok s /\ RState s spec_init.
Proof.
  intros Hh Hno. set (s := mkRocksStore d (NewKeyIndex (T := TI)) Zero Zero false).
  assert (Hst : Stored (contents d) []).
  { intros key v Hk. rewrite Hno by by apply prefix_shorter. split; [done|]. by intros (e & He%elem_of_nil & _). }
  assert (Hsv : forall key, has_prefix "mvcc:" key = true -> savedAt (contents d) key Zero).
  { intros key Hk. split; [done|]. right. unfold bytes_at. by rewrite Hno. }
  assert (HI : RImplements s spec_init).
  { constructor; [|by apply Hsv..]. constructor; [|exact Hh|exact Hst|constructor|exact Hst|constructor|constructor].
    exists (∅ : gmap Revision KeyValue). exact (R_init (TI := TI) (TR := gmap Revision)). }
  assert (Hk : kept spec_init) by (split; [apply rev_le_refl|done]).
  destruct (NewRocksDBStore_spec s spec_init HI Hk) as (s' & Hs' & HI' & _); [|by exists s'].
  intros key before e after Hl. cbn in Hl. by destruct before.
Qed.

(** C2: the store on RocksDB is the log of events, for the runs [rk_traceOk]
    admits.  It opens a working database without keys of its own as the empty log,
    and from there a run of operations in which the process may also stop and open
    the database again is answered as the log answers it, errors included, if
    no operation of a transaction touches a key that an earlier one of it wrote,
    a range deletion is the last operation of its branch, a compaction finds no key
    whose latest event is a deletion at or after its revision, the database is
    opened again only while each deletion in the log stands behind a live record of
    its key, and lengths and counters fit their fields.  [rocks_txn_misses_own_writes],
    [txn_range_delete_collides] and [compaction_revives_deleted_key] are runs
    outside of these that the stores answer differently. *)
Theorem rocks_mvcc_refines (d : DB) cs :
  healthy d -> noStore d -> rk_traceOk spec_init cs ->
  exists s, NewRocksDBStore d = Ok s /\ (rrun s cs).2 = Ans <$> (rk_run spec_init cs).2.
Proof.
  intros Hh Hno Hcs. destruct (NewRocksDBStore_fresh d Hh Hno) as (s & Hs & HS). exists s. split; [done|].
  by apply rrun_rsimulates.
Qed.

(** A write that fails leaves the bytes. *)
Lemma write_failed s batch s' e : write s batch = (s', Some e) -> contents (db s') = contents (db s).
Proof.
  unfold write. destruct (db_write (db s) batch) as [d' [x|]] eqn:Ew; [|done]. intros [= <- _]. by eapply db_write_failed.
Qed.

Lemma deleteKeys_db revOf m keys : forall i s batch n,
  db (deleteKeys revOf m i keys (s, batch, n)).1.1 = db s.
Proof.
  induction keys as [|k keys IH]; intros i s batch n; [done|]. cbn [deleteKeys]. destruct (liveItem s k); by rewrite IH.
Qed.

Lemma executeOps_db ops m : forall i s batch, db (executeOps s batch ops m i).1.1 = db s.
Proof.
  assert (Hop : forall s batch op r, db (executeOp s batch op r).1.1 = db s).
  { intros s batch op r. unfold executeOp. destruct (op_Type op); try done.
    - unfold executePut. by destruct (liveItem s (op_Key op)) as [ki|]; [destruct (readLast s (op_Key op) ki)|].
    - unfold executeDelete. by destruct (liveItem s (op_Key op)).
    - unfold executeDeleteRange. match goal with |- context [deleteKeys ?f ?m ?i ?ks ?st] =>
        pose proof (deleteKeys_db f m ks i s batch 0) as Hd; destruct (deleteKeys f m i ks st) as [[s' b'] n'] end. exact Hd. }
  induction ops as [|op ops IH]; intros i s batch; [done|]. cbn [executeOps].
  pose proof (Hop s batch op (mkRevision m i)) as H1. destruct (executeOp s batch op (mkRevision m i)) as [[s1 b1] r1].
  pose proof (IH (i + 1) s1 b1) as H2. destruct (executeOps s1 b1 ops m (i + 1)) as [[s2 b2] rs]. cbn in *. congruence.
Qed.

(** The end of every operation that writes. *)
Lemma end_failed {A} s0 s batch (f : RocksDBStore DB TI -> RocksDBStore DB TI) (x : A) (g : A -> Resp) :
  db s = db s0 ->
  let p := match write s batch with (s2, Some e) => (s2, Err e) | (s2, None) => (f s2, Ok x) end in
  ans g p.2 = DbFailed -> contents (db p.1) = contents (db s0).
Proof.
  intros Hs p Hp. subst p. destruct (write s batch) as [s2 [e|]] eqn:Ew; [|done].
  cbn [fst snd] in *. rewrite (write_failed _ _ _ _ Ew). by rewrite Hs.
Qed.

Lemma failed_same s c : (rstep s c).2 = DbFailed -> contents (db (rstep s c).1) = contents (db s).
Proof.
  destruct c as [[key value lease|key rev|start end_ rev limit|key|start end_|t|rev| | |]| |]; cbn [rstep ran fst snd]; try done.
  - unfold Put, guarded. destruct (str_len key =? 0); [done|]. destruct (closed s); [done|]. cbn zeta.
    match goal with |- context [let '(_, _) := ?p in _] => destruct p as [createRev version] end.
    by apply (end_failed s (bump s) _ (fun s2 => setIndex s2 (KeyIndex.Put (keyIndex s2) key (currentRev (bump s))))).
  - unfold Delete, guarded. destruct (str_len key =? 0); [done|]. destruct (closed s); [done|].
    destruct (liveItem s key) as [ki|]; [|done]. cbn zeta.
    by apply (end_failed s (bump s) _ (fun s2 => setIndex s2 (KeyIndex.Delete (keyIndex s2) key (currentRev (bump s))).1)).
  - unfold DeleteRange, guarded. destruct (str_len start =? 0); [done|]. destruct (closed s); [done|].
    destruct (collectKeys s start end_) as [|k keys]; [done|]. cbn zeta.
    match goal with |- context [deleteKeys ?f ?m ?i ?ks (?s1, ?b, ?n)] =>
      pose proof (deleteKeys_db f m ks i s1 b n) as Hd; destruct (deleteKeys f m i ks (s1, b, n)) as [[s2 b2] n2] end.
    apply (end_failed s _ _ id). by destruct (n2 >? 0).
  - unfold Commit. destruct (closed s); [done|]. destruct (evaluateConditions s (conditions t)) as [succ|]; [|done]. cbn zeta.
    match goal with |- context [executeOps ?s1 ?b ?ops ?m ?i] =>
      pose proof (executeOps_db ops m i s1 b) as Hd; destruct (executeOps s1 b ops m i) as [[s2 b2] rs]; set (n := length ops) end.
    apply (end_failed s _ _ id). by destruct (Nat.ltb 0 n).
  - unfold Compact. destruct (closed s); [done|]. cbn zeta. destruct (LessThanOrEqual _ _); [done|]. destruct (GreaterThan _ _); [done|].
    by apply (end_failed s (setCompacted s (mkRevision rev 0)) _
      (fun s2 => setIndex s2 (KeyIndex.Compact (keyIndex s2) (mkRevision rev 0)).1)).
  - unfold Close. by destruct (closed s).
  - unfold Sync. destruct (closed s); [done|]. exact (end_failed s s _ id tt (fun _ => RespDone) eq_refl).
  - destruct (NewRocksDBStore (db s)) as [s'|e]; [intros [=]|intros _; reflexivity].
Qed.

(** C17: when the database refuses a write, the operation fails and nothing of it
    is on disk.  The store [s] has the log [a], as it has on a database [d0] with
    the same bytes that works; after an operation that failed, opening what is
    there gives the log before the operation, with every record and revision. *)
Theorem rocks_failed_write_recovers s a c (d0 d : DB) :
  RState (setDb s d0) a -> contents d0 = contents (db s) -> settled (log a) -> (rstep s c).2 = DbFailed ->
  healthy d -> contents d = contents (db (rstep s c).1) ->
  exists s', NewRocksDBStore (TI := TI) d = Ok s' /\ RState s' (rk_reopen a).
Proof.
  intros [HI Hk] H0 Hset Hf Hh Hd. rewrite (failed_same s c Hf), <- H0 in Hd.
  destruct HI as [[[revs HR] _ Hs He Hb ? ?] Hcur Hcomp]. cbn [setDb db] in *. set (s0 := setDb s d).
  assert (HI0 : RImplements s0 a).
  { constructor; cbn [s0 setDb db]; rewrite ?Hd; [|done..]. constructor; cbn [s0 setDb db]; rewrite ?Hd; try done. by exists revs. }
  destruct (NewRocksDBStore_spec s0 a HI0 Hk Hset) as (s' & Hs' & HI' & _). by exists s'.
Qed.

(** A read of the newest revision sees the event just written there. *)
Lemma spec_get_newest a l key kv :
  log a = l ++ [(cur a, kv)] -> Key kv = key -> Version kv <> 0 -> key <> "" -> isClosed a = false -> kept a ->
  spec_get a key 0 = Ok kv.
Proof.
  intros Hl <- Hv%Z.eqb_neq Hne%String.eqb_neq Hcl [Hc _]. unfold spec_get, readAt. rewrite Hne, Hcl. cbn [Z.eqb].
  rewrite bool_decide_eq_false_2 by (rewrite <- rev_not_le; auto).
  rewrite bool_decide_eq_false_2 by apply rev_lt_irrefl. cbn [result_bind]. unfold visible, live, upTo. rewrite Hl, List.filter_app.
  cbn [List.filter fst]. rewrite (proj2 (LessThanOrEqual_iff _ _)) by apply rev_le_refl. rewrite latest_snoc, String.eqb_refl.
  unfold shown. cbn [snd]. by rewrite Hv.
Qed.

(** A key that was deleted and is put again continues its first life: the
    new record has version 1 but the creation revision from before the
    deletion. *)
Theorem rocks_put_revives_history s a key value lease prev :
  RState s a -> key <> "" -> isClosed a = false -> live (log a) key = Some prev -> sized key value lease -> fits a 3 ->
  Main (cur a) + 2 < int64_max ->
  (rrun s [RDo (CmdDelete key); RDo (CmdPut key value lease); RDo (CmdGet key 0)]).2 =
    [Ans (RespDeleted (Main (cur a) + 1) 1); Ans (RespRev (Main (cur a) + 2));
     Ans (RespKv (mkKeyValue key value (CreateRevision prev) (Main (cur a) + 2) 1 lease))].
Proof.
  intros HS Hne%String.eqb_neq Hcl Hl Hsz [Hm He] Hm2. pose proof (proj2 HS) as Hkept.
  destruct (rrun_rsimulates [RDo (CmdDelete key); RDo (CmdPut key value lease); RDo (CmdGet key 0)] s a HS) as [_ ->].
  { cbn [rk_traceOk rk_cmdOk]. split; [split; [done|lia]|]. cbn [rk_step spec_step]. unfold spec_delete. rewrite Hne, Hcl, Hl.
    cbn [MvccOps.write fst]. unfold spec_deleteAt. cbn [setCur log]. rewrite Hl. split; [split; [done|split; cbn; lia]|].
    unfold rk_put. rewrite Hne. cbn [append setCur isClosed]. rewrite Hcl. cbn [MvccOps.write fst]. unfold rk_putAt.
    cbn [append setCur log]. split; [split; cbn; lia|done]. }
  cbn [rk_run rk_step spec_step]. unfold spec_delete. rewrite Hne, Hcl, Hl. cbn [MvccOps.write].
  set (a1 := spec_deleteAt (setCur a (nextRev a)) key (nextRev a)).
  assert (H1 : log a1 = log a ++ [(nextRev a, mkKeyValue key "" (CreateRevision prev) (Main (nextRev a)) 0 0)] /\
    cur a1 = nextRev a /\ isClosed a1 = false /\ kept a1).
  { split_and!; [| | |apply (kept_step a (RDo (CmdDelete key))) in Hkept; cbn [rk_step spec_step] in Hkept; unfold spec_delete in Hkept;
      rewrite Hne, Hcl, Hl in Hkept; exact Hkept]; unfold a1, spec_deleteAt; cbn [setCur log]; by rewrite Hl. }
  destruct H1 as (Hlog1 & Hcur1 & Hcl1 & Hk1).
  pose proof (kept_step a1 (RDo (CmdPut key value lease)) Hk1) as Hk2. cbn [rk_step] in Hk2.
  unfold rk_put in *. rewrite Hne, Hcl1 in *. cbn [MvccOps.write fst] in *.
  assert (Hn : nextRev a1 = mkRevision (Main (cur a) + 2) 0) by (unfold nextRev; rewrite Hcur1; unfold nextRev; simpl; f_equal; lia).
  rewrite Hn in *. set (kv := mkKeyValue key value (CreateRevision prev) (Main (cur a) + 2) 1 lease).
  assert (Hput : rk_putAt (setCur a1 (mkRevision (Main (cur a) + 2) 0)) key value lease (mkRevision (Main (cur a) + 2) 0) =
    append (setCur a1 (mkRevision (Main (cur a) + 2) 0)) (mkRevision (Main (cur a) + 2) 0) kv).
  { unfold rk_putAt. cbn [setCur log]. by rewrite Hlog1, latest_snoc, String.eqb_refl. }
  rewrite Hput in *. rewrite (spec_get_newest _ (log a1) key kv); [done|done|done|done|by apply String.eqb_neq|done|done].
Qed.

End theorems.

(** ** Behaviours that differ *)

Abbreviation rstore := (RocksDBStore MemDB (gmap string)).

Definition freshStore : rstore := mkRocksStore emptyDB NewKeyIndex Zero Zero false.

Definition putOp (k v : string) : Op := mkOp OpTypePut k None v 0.
Definition getOp (k : string) : Op := mkOp OpTypeGet k None "" 0.

Definition ownWrites : memoryTxn := txnThen newTxn [putOp "a" "1"; putOp "a" "2"; getOp "a"].

(** A transaction reads the database, where its own writes are not yet: a
    second put of a key is stored as version 1 with creation revision 0, and a
    get of the key finds nothing. *)
Theorem rocks_txn_misses_own_writes :
  let s := (rstep freshStore (RDo (CmdCommit ownWrites))).1 in
  (rstep freshStore (RDo (CmdCommit ownWrites))).2 =
    Ans (RespTxn (mkTxnResponse true 1 [mkOpResponse OpTypePut [] 0; mkOpResponse OpTypePut [] 0; mkOpResponse OpTypeGet [] 0])) /\
  Get s "a" 0 = Ok (mkKeyValue "a" "2" 0 1 1 0).
Proof. cbn zeta. split; vm_compute; reflexivity. Qed.

Definition twoPuts : list RCmd := [RDo (CmdPut "a" "1" 0); RDo (CmdPut "b" "2" 0)].

(** The database refuses the third write. *)
Definition refusing : rstore :=
  setDb (rrun freshStore twoPuts).1 (mkMemDB (md_data (db (rrun freshStore twoPuts).1)) [true] []).

(** A range deletion tells the index before it writes: when the write fails
    the caller gets the error, but the keys are no longer found, and they come
    back when the store is opened again. *)
Theorem rocks_failed_delete_range_hides_keys :
  let s := (rstep refusing (RDo (CmdDeleteRange "a" None))).1 in
  (rstep refusing (RDo (CmdDeleteRange "a" None))).2 = DbFailed /\
  Get refusing "a" 0 = Ok (mkKeyValue "a" "1" 1 1 1 0) /\
  Get s "a" 0 = Err (Mvcc ErrKeyNotFound) /\ CurrentRevision s = 3 /\
  exists s', NewRocksDBStore (TI := gmap string) (db s) = Ok s' /\ Get s' "a" 0 = Ok (mkKeyValue "a" "1" 1 1 1 0) /\ CurrentRevision s' = 2.
Proof.
  cbn zeta. split_and!; [vm_compute; reflexivity..|]. eexists. split; [reflexivity|]. split; vm_compute; reflexivity.
Qed.

(** ** Witnesses *)

(** A test for [settled]. *)
Fixpoint settledFrom (seen l : list Event) : bool :=
  match l with
  | [] => true
  | e :: l' =>
      (negb (Version e.2 =? 0) ||
       match latest seen (Key e.2) with Some p => negb (Version p.2 =? 0) | None => false end) && settledFrom (seen ++ [e]) l'
  end.

Lemma settled_snoc l e :
  settled l -> (Version e.2 = 0 -> exists p, latest l (Key e.2) = Some p /\ Version p.2 <> 0) -> settled (l ++ [e]).
Proof.
  intros Hs He key before x after Hl Hv. rewrite keyLog_last in Hl. destruct (String.eqb_spec (Key e.2) key) as [Hk|_].
  - destruct after as [|y after _] using rev_ind.
    + apply app_inj_tail in Hl as [<- ->]. rewrite keyLog_latest, <- Hk. by apply He.
    + rewrite app_comm_cons, app_assoc in Hl. apply app_inj_tail in Hl as [Hl _]. by eapply Hs.
  - rewrite app_nil_r in Hl. by eapply Hs.
Qed.

Lemma settledFrom_ok l : forall seen, settled seen -> settledFrom seen l = true -> settled (seen ++ l).
Proof.
  induction l as [|e l IH]; intros seen Hs Hl; [by rewrite app_nil_r|]. cbn [settledFrom] in Hl.
  apply andb_true_iff in Hl as [He Hl]. rewrite cons_middle, app_assoc. apply IH; [|done]. apply settled_snoc; [done|].
  intros Hv. rewrite Hv in He. cbn in He. destruct (latest seen (Key e.2)) as [p|]; [|done]. exists p. split; [done|].
  by apply negb_true_iff, Z.eqb_neq in He.
Qed.

Lemma settled_test l : settledFrom [] l = true -> settled l.
Proof. apply (settledFrom_ok l []). intros key before e after Hl. cbn in Hl. by destruct before. Qed.

Lemma fits_test a n : (Main (cur a) <? int64_max) && (events a + 2 * Z.of_nat n <? int64_max) = true -> fits a n.
Proof. intros H. bool_to_prop. by split. Qed.

Lemma noTombstone_check target l :
  forallb (fun e => negb (Version e.2 =? 0) || bool_decide (rev_lt e.1 target)) l = true -> noTombstoneFrom target l.
Proof.
  intros H key e [Hin _]%latest_elem Hv. rewrite forallb_forall in H.
  specialize (H e (proj1 (list_elem_of_In _ _) Hin)). rewrite Hv in H. by apply bool_decide_eq_true in H.
Qed.

(** The conditions of concrete commands. *)
Ltac concrete_rocks :=
  repeat match goal with
  | |- True => exact I
  | |- rk_traceOk _ _ => cbn [rk_traceOk]
  | |- _ /\ _ => split
  | |- rk_cmdOk _ _ => cbn [rk_cmdOk]
  | |- cmdOk _ _ => cbn [cmdOk]
  | |- sized _ _ _ => vm_compute; repeat split; discriminate
  | |- fits _ _ => apply fits_test; vm_compute; reflexivity
  | |- settled _ => apply settled_test; vm_compute; reflexivity
  | |- noTombstoneFrom _ _ => apply noTombstone_check; vm_compute; reflexivity
  | |- Forall opSized _ => repeat constructor; vm_compute; repeat split; discriminate
  | |- independent _ _ =>
      cbn; repeat split; intros key Hk; repeat (apply orb_false_iff; split); try reflexivity;
        repeat match goal with H : (_ =? _)%string = true |- _ => apply String.eqb_eq in H; subst end; reflexivity
  | |- _ = _ => vm_compute; reflexivity
  end.

Definition mixedTxn : memoryTxn :=
  txnThen (txnIf newTxn [mkCondition "a" ConditionTargetVersion CompareEqual (CondInt 2)])
    [putOp "c" "5"; mkOp OpTypeDelete "b" None "" 0; getOp "a"].

Definition rocksTrace : list RCmd :=
  [ RDo (CmdPut "a" "1" 0); RDo (CmdPut "b" "2" 7); RDo (CmdPut "a" "3" 0); RDo (CmdCommit mixedTxn); RDo (CmdGet "b" 2);
    RReopen; RDo (CmdGet "b" 2); RDo (CmdGet "b" 0); RDo (CmdRange "a" None 0 0); RDo (CmdDelete "a"); RDo (CmdPut "a" "9" 0);
    RDo (CmdDeleteRange "c" None); RSync; RReopen; RDo (CmdRange "a" None 0 0); RDo (CmdRange "a" None 4 0); RDo CmdCurrentRevision;
    RDo (CmdPut "e" "x" 0); RDo (CmdCompact 8); RDo (CmdGet "e" 0); RDo (CmdGet "e" 3); RReopen; RDo (CmdGet "e" 0);
    RDo CmdClose; RDo (CmdPut "e" "y" 0) ].

Lemma rocksTrace_ok : rk_traceOk spec_init rocksTrace.
Proof. unfold rocksTrace. concrete_rocks. Qed.

Lemma emptyDB_healthy : healthy emptyDB.
Proof. by split. Qed.

Lemma emptyDB_noStore : noStore emptyDB.
Proof. intros key _. apply lookup_empty. Qed.

Lemma rocks_mvcc_refines_witness :
  exists s : rstore, NewRocksDBStore emptyDB = Ok s /\ (rrun s rocksTrace).2 = Ans <$> (rk_run spec_init rocksTrace).2.
Proof. exact (rocks_mvcc_refines emptyDB rocksTrace emptyDB_healthy emptyDB_noStore rocksTrace_ok). Defined.

Lemma freshStore_state : RState freshStore spec_init.
Proof.
  destruct (NewRocksDBStore_fresh (TI := gmap string) emptyDB emptyDB_healthy emptyDB_noStore) as (s & Hs & HS).
  replace freshStore with s; [done|]. vm_compute in Hs. by injection Hs as <-.
Qed.

Lemma twoPuts_state : RState (rrun freshStore twoPuts).1 (rk_run spec_init twoPuts).1.
Proof. apply (rrun_rsimulates twoPuts freshStore spec_init freshStore_state). unfold twoPuts. concrete_rocks. Qed.

Lemma rocks_put_revives_history_witness :
  (rrun (rrun freshStore twoPuts).1 [RDo (CmdDelete "a"); RDo (CmdPut "a" "9" 0); RDo (CmdGet "a" 0)]).2 =
    [Ans (RespDeleted 3 1); Ans (RespRev 4); Ans (RespKv (mkKeyValue "a" "9" 1 4 1 0))].
Proof.
  exact (rocks_put_revives_history _ _ "a" "9" 0 (mkKeyValue "a" "1" 1 1 1 0) twoPuts_state ltac:(discriminate)
    ltac:(vm_compute; reflexivity) ltac:(vm_compute; reflexivity) ltac:(vm_compute; repeat split; discriminate)
    ltac:(apply fits_test; vm_compute; reflexivity) ltac:(vm_compute; reflexivity)).
Defined.

Lemma rocks_failed_write_recovers_witness :
  exists s' : rstore, NewRocksDBStore (mkMemDB (md_data (db refusing)) [] []) = Ok s' /\
    RState s' (rk_reopen (rk_run spec_init twoPuts).1).
Proof.
  apply (rocks_failed_write_recovers refusing (rk_run spec_init twoPuts).1 (RDo (CmdPut "b" "x" 0)) (db (rrun freshStore twoPuts).1)).
  - exact twoPuts_state.
  - reflexivity.
  - apply settled_test. vm_compute. reflexivity.
  - vm_compute. reflexivity.
  - by split.
  - reflexivity.
Defined.
