(* ===== verification/RocksCodec.v ===== *)
(** * Encodings of the RocksDB path ([internal/rocksdb/pools.go], [raft_proto.go])

    Records are stored in a binary format of their own; operations travel as
    Protobuf messages, alone or in batches.  A [[]byte] the decoder slices beyond
    its end is a panic: the outer [None] of [decodeKeyValue]. *)

From S2P Require Import Prelude GoBytes KvTypes BatchApply RaftCodec.

(** ** Records *)

(** [binary.Write(buf, binary.LittleEndian, v)] of a [uint32] and an [int64] *)
Definition write_u32 (z : Z) : string := put_le 4 (wrap_u32 z).
Definition write_i64 (z : Z) : string := put_le 8 (wrap_u64 z).

Definition encodeKeyValue (kv : KeyValue) : string :=
  write_u32 (str_len (Key kv)) +:+ Key kv +:+
  write_u32 (str_len (Value kv)) +:+ Value kv +:+
  write_i64 (CreateRevision kv) +:+ write_i64 (ModRevision kv) +:+
  write_i64 (Version kv) +:+ write_i64 (Lease kv).

(** [data[:n]] and [data[n:]], or the panic *)
Definition cut (n : nat) (data : string) : option (string * string) :=
  if (n <=? String.length data)%nat then Some (str_take n data, str_drop n data) else None.

Definition read_u32 (data : string) : option (Z * string) :=
  '(b, rest) ← cut 4 data; Some (get_le b, rest).
Definition read_i64 (data : string) : option (Z * string) :=
  '(b, rest) ← cut 8 data; Some (wrap_i64 (get_le b), rest).

Definition decodeKeyValue (data : string) : option (option KeyValue) :=
  if str_len data <? 8 then Some None
  else
    '(keyLen, data1) ← read_u32 data;
    '(key, data2) ← cut (Z.to_nat keyLen) data1;
    '(valueLen, data3) ← read_u32 data2;
    '(value, data4) ← cut (Z.to_nat valueLen) data3;
    '(createRev, data5) ← read_i64 data4;
    '(modRev, data6) ← read_i64 data5;
    '(version, data7) ← read_i64 data6;
    '(lease, _) ← read_i64 data7;
    Some (Some (mkKeyValue key value createRev modRev version lease)).

(** Records the format represents: lengths of 32 bits, numbers of 64. *)
Definition kv_ok (kv : KeyValue) : Prop :=
  str_len (Key kv) < 2 ^ 32 /\ str_len (Value kv) < 2 ^ 32 /\
  is_i64 (CreateRevision kv) /\ is_i64 (ModRevision kv) /\ is_i64 (Version kv) /\ is_i64 (Lease kv).

Lemma cut_app s t n : String.length s = n -> cut n (s +:+ t) = Some (s, t).
Proof.
  intros <-. unfold cut. rewrite str_length_app. destruct (Nat.leb_spec (String.length s) (String.length s + String.length t)); [|lia].
  by rewrite str_take_app, str_drop_app.
Qed.

Lemma read_write_u32 z rest : 0 <= z < 2 ^ 32 -> read_u32 (write_u32 z +:+ rest) = Some (z, rest).
Proof.
  intros Hz. unfold read_u32, write_u32. rewrite cut_app by apply put_le_length. cbn [mbind option_bind].
  rewrite get_put_le. unfold wrap_u32. change (8 * Z.of_nat 4) with 32. by rewrite Z.mod_mod, Z.mod_small by lia.
Qed.

Lemma read_write_i64 z rest : is_i64 z -> read_i64 (write_i64 z +:+ rest) = Some (z, rest).
Proof.
  intros Hz. unfold read_i64, write_i64. rewrite cut_app by apply put_le_length. cbn [mbind option_bind].
  by rewrite le_i64_roundtrip.
Qed.

Lemma to_nat_str_len s : Z.to_nat (str_len s) = String.length s.
Proof. unfold str_len. lia. Qed.

Lemma str_len_put_le n z : str_len (put_le n z) = Z.of_nat n.
Proof. unfold str_len. by rewrite put_le_length. Qed.

Lemma encodeKeyValue_len kv : 40 <= str_len (encodeKeyValue kv).
Proof.
  unfold encodeKeyValue, write_u32, write_i64. rewrite !str_len_app, !str_len_put_le.
  pose proof (str_len_nonneg (Key kv)). pose proof (str_len_nonneg (Value kv)). lia.
Qed.

Lemma decodeKeyValue_encode kv : kv_ok kv -> decodeKeyValue (encodeKeyValue kv) = Some (Some kv).
Proof.
  intros (Hk & Hv & Hc & Hm & Hn & Hl). unfold decodeKeyValue. pose proof (encodeKeyValue_len kv) as Hlen.
  destruct (Z.ltb_spec (str_len (encodeKeyValue kv)) 8); [lia|]. unfold encodeKeyValue.
  pose proof (str_len_nonneg (Key kv)). pose proof (str_len_nonneg (Value kv)).
  rewrite read_write_u32 by lia. cbn [mbind option_bind]. rewrite to_nat_str_len, cut_app by done. cbn [mbind option_bind].
  rewrite read_write_u32 by lia. cbn [mbind option_bind]. rewrite to_nat_str_len, cut_app by done. cbn [mbind option_bind].
  rewrite read_write_i64 by done. cbn [mbind option_bind]. rewrite read_write_i64 by done. cbn [mbind option_bind].
  rewrite read_write_i64 by done. cbn [mbind option_bind]. rewrite <- (str_app_nil_r (write_i64 (Lease kv))).
  rewrite read_write_i64 by done. by destruct kv.
Qed.

(** ** Messages of the log *)

Inductive pbRaftMessage := pbSingle (op : pbRaftOperation) | pbBatch (ops : list pbRaftOperation) | pbNoPayload.

Section messages.
Context `{!ProtoWire pbRaftOperation, !ProtoWire pbRaftMessage}.

Definition toProto (op : RaftOperation) : pbRaftOperation :=
  mkPbRaftOperation (ro_Type op) (ro_Key op) (ro_Value op) (ro_LeaseID op) (ro_RangeEnd op) (ro_SeqNum op)
    (ro_TTL op) (compareToProto <$> ro_Compares op) (opToProto <$> ro_ThenOps op) (opToProto <$> ro_ElseOps op).

Definition fromProto (p : pbRaftOperation) : RaftOperation :=
  mkRaftOperation (pbr_Type p) (pbr_Key p) (pbr_Value p) (pbr_LeaseId p) (pbr_RangeEnd p) (pbr_SeqNum p)
    (pbr_Ttl p) (protoToCompare <$> pbr_Compares p) (protoToOp <$> pbr_ThenOps p) (protoToOp <$> pbr_ElseOps p).

Definition marshalRaftOperation (op : RaftOperation) : result CodecError string :=
  fromOption MarshalFailed (proto_marshal (toProto op)).

Definition unmarshalRaftOperation (data : string) : result CodecError RaftOperation :=
  match proto_unmarshal data with Some p => Ok (fromProto p) | None => Err UnmarshalFailed end.

Definition marshalBatchOperations (ops : list RaftOperation) : result CodecError string :=
  fromOption MarshalFailed (proto_marshal (pbBatch (toProto <$> ops))).

(** [None] is the nil slice of a message without a payload. *)
Definition unmarshalRaftMessage (data : string) : result CodecError (option (list RaftOperation)) :=
  match proto_unmarshal data with
  | None => Err UnmarshalFailed
  | Some (pbSingle p) => Ok (Some [fromProto p])
  | Some (pbBatch ps) => Ok (Some (fromProto <$> ps))
  | Some pbNoPayload => Ok None
  end.

(** What is lost on the way: the limits of the ranges in a transaction. *)
Definition onWire (op : RaftOperation) : RaftOperation := fromProto (toProto op).

End messages.
