(* ===== verification/RocksEtcd.v ===== *)
(** * The etcd-style state machine on RocksDB ([internal/rocksdb/kvstore.go])

    Records, leases and the revision live in one database, under the prefixes
    [kv:], [lease:] and [meta:]; the revision is also cached.  Operations return
    the store with a result, as a failed one may have moved the revision; [None]
    is a process that ended, by a panic of the decoder or by [log.Fatal].  The
    clock is an argument [now].  [Gob] is [encoding/gob]. *)

From stdpp Require Import pretty.
From S2P Require Import Prelude GoBytes KvTypes ShardedMap MemoryEtcd BatchApply RaftCodec OrderedTree ByteDB RocksCodec.

Inductive RocksError : Set :=
  | EDb (e : DbError) | ECodec (e : CodecError)
  | ENoLease (id : Z) | EWatchExists (id : Z) | EWatchNotFound (id : Z)
  | EFutureRevision | EInvalidRevision | EAlreadyCompacted (rev : Z)
  | EGobSnapshot
  | EProposeTimeout | EProposeCancelled | ECommitTimeout | ECommitCancelled | ENoTxnResult
  | ENoRaftNode | ENotLeader (leader : Z) | ETransfer.

Definition revisionKey : string := "meta:revision".
Definition compactedKey : string := "meta:compacted_revision".
Definition kvPrefix : string := "kv:".
Definition leasePrefix : string := "lease:".

Definition kvKey (key : string) : string := kvPrefix +:+ key.
Definition leaseKey (id : Z) : string := leasePrefix +:+ pretty id.

(** Decoders of a [KeyValue], an [int64] and a [KV]; a map that was encoded is
    read back. *)
Class Gob := {
  gob_kv : string -> option KeyValue;
  gob_int64 : string -> option Z;
  gob_legacy : string -> option (string * string);
  gob_encode_map : gmap string string -> string;
  gob_decode_map : string -> option (gmap string string);
  gob_map_roundtrip m : gob_decode_map (gob_encode_map m) = Some m;
}.

(** [v, _ := f()] *)
Definition orNil {E A} (r : result E (option A)) : option A := match r with Ok v => v | Err _ => None end.

(** The interface [RaftNode], as it answers during one call. *)
Record RaftNode := mkRaftNode {
  rn_Status : RaftStatus;
  rn_TransferLeadership : Z -> result RocksError unit;
  rn_LeaseManager : option (bool * bool);
  rn_ReadIndexManager : option Z;
}.

(** The clients that wait: [pendingOps] maps sequence numbers to channels, which
    are numbered. *)
Record Pending := mkPending {
  pendingOps : gmap string nat;
  pendingTxnResults : gmap string TxnResponse;
  seqNum : Z;
  chans : nat;
  closedChans : gset nat;
  proposed : list string;
}.

Section store.
Context {DB : Type} `{!ByteDB DB, !MapOrder, !ProtoWire pbLease, !TextWire LeaseInfo, !Gob}.
Context (EnableLeaseProtobuf : bool).

Record RocksDB := mkRocksDB {
  db : DB;
  cachedRevision : Z;
  watches : gmap Z watchSubscription;
  pending : Pending;
  raftNode : option RaftNode;
  nodeID : Z;
}.

Definition setDb (r : RocksDB) (d : DB) : RocksDB :=
  mkRocksDB d (cachedRevision r) (watches r) (pending r) (raftNode r) (nodeID r).
Definition setRevision (r : RocksDB) (rev : Z) : RocksDB :=
  mkRocksDB (db r) rev (watches r) (pending r) (raftNode r) (nodeID r).
Definition setWatches (r : RocksDB) (ws : gmap Z watchSubscription) : RocksDB :=
  mkRocksDB (db r) (cachedRevision r) ws (pending r) (raftNode r) (nodeID r).
Definition setPending (r : RocksDB) (p : Pending) : RocksDB :=
  mkRocksDB (db r) (cachedRevision r) (watches r) p (raftNode r) (nodeID r).

Definition SetRaftNode (r : RocksDB) (node : option RaftNode) (id : Z) : RocksDB :=
  mkRocksDB (db r) (cachedRevision r) (watches r) (pending r) node id.

Definition GetRaftStatus (r : RocksDB) : RaftStatus :=
  match raftNode r with
  | None => mkRaftStatus (nodeID r) 0 0 "standalone" 0 0
  | Some n => rn_Status n
  end.

Definition TransferLeadership (r : RocksDB) (targetID : Z) : result RocksError unit :=
  match raftNode r with
  | None => Err ENoRaftNode
  | Some n =>
      if negb (rs_LeaderID (rn_Status n) =? nodeID r) then Err (ENotLeader (rs_LeaderID (rn_Status n)))
      else rn_TransferLeadership n targetID
  end.

(** [r.db.Write(r.wo, batch)] *)
Definition write (r : RocksDB) (batch : list WriteOp) : RocksDB * option RocksError :=
  let '(d, err) := db_write (db r) batch in (setDb r d, EDb <$> err).

(** ** The revision *)

Definition loadCurrentRevision (r : RocksDB) : Z :=
  match db_get (db r) revisionKey with
  | Err _ => 0
  | Ok data =>
      if str_len data =? 0 then 0 else match gob_int64 data with Some rev => rev | None => 0 end
  end.

Definition CurrentRevision (r : RocksDB) : Z := cachedRevision r.

(** The cache is moved back when the revision cannot be stored. *)
Definition incrementRevision (r : RocksDB) : RocksDB * result RocksError Z :=
  let rev := wrap_i64 (cachedRevision r + 1) in
  let r1 := setRevision r rev in
  match write r1 [WPut revisionKey (put_le 8 (wrap_u64 rev))] with
  | (r2, Some e) => (setRevision r2 (wrap_i64 (cachedRevision r2 - 1)), Err e)
  | (r2, None) => (r2, Ok rev)
  end.

(** ** Records and leases *)

Definition getKeyValue (r : RocksDB) (key : string) : option (result RocksError (option KeyValue)) :=
  match db_get (db r) (kvKey key) with
  | Err e => Some (Err (EDb e))
  | Ok data => if str_len data =? 0 then Some (Ok None) else kv ← decodeKeyValue data; Some (Ok kv)
  end.

Definition getLease (r : RocksDB) (id : Z) : result RocksError (option LeaseInfo) :=
  match db_get (db r) (leaseKey id) with
  | Err e => Err (EDb e)
  | Ok data =>
      if str_len data =? 0 then Ok None
      else match DeserializeLease data with Ok l => Ok (Some l) | Err e => Err (ECodec e) end
  end.

Definition encodeLease (l : LeaseInfo) : result RocksError string :=
  match SerializeLease EnableLeaseProtobuf (Some l) with Ok data => Ok data | Err e => Err (ECodec e) end.

(** The writes that record [key] in its lease: none for no lease and for one that
    is not there. *)
Definition leaseWrites (r : RocksDB) (key : string) (leaseID : Z) : result RocksError (list WriteOp) :=
  if leaseID =? 0 then Ok []
  else
    match getLease r leaseID with
    | Err e => Err e
    | Ok None => Ok []
    | Ok (Some l) =>
        match encodeLease (mkLease (l_ID l) (l_TTL l) (l_GrantTime l) (<[key := true]> (l_Keys l))) with
        | Err e => Err e
        | Ok data => Ok [WPut (leaseKey leaseID) data]
        end
    end.

(** ** Watches *)

Definition notifyWatches (r : RocksDB) (event : WatchEvent) : RocksDB :=
  setWatches r (notifySub event <$> watches r).

Definition CancelWatch (r : RocksDB) (watchID : Z) : RocksDB * result RocksError unit :=
  match watches r !! watchID with
  | None => (r, Err (EWatchNotFound watchID))
  | Some sub => if ws_closed sub then (r, Ok tt) else (setWatches r (delete watchID (watches r)), Ok tt)
  end.

(** The second component says whether the goroutine that replays the current
    records was started. *)
Definition WatchWithOptions (r : RocksDB) (key rangeEnd : string) (startRevision watchID : Z)
    (opts : option WatchOptions) : RocksDB * result RocksError bool :=
  match watches r !! watchID with
  | Some _ => (r, Err (EWatchExists watchID))
  | None =>
      let o := default (mkWatchOptions false false [] false) opts in
      let sub := mkWatch watchID key rangeEnd startRevision [] [] false (wo_PrevKV o)
                   (wo_ProgressNotify o) (wo_Filters o) (wo_Fragment o) in
      (setWatches r (<[watchID := sub]> (watches r)),
       Ok ((startRevision >? 0) && (startRevision <? CurrentRevision r)))
  end.

Definition Watch (r : RocksDB) (key rangeEnd : string) (startRevision watchID : Z) :
    RocksDB * result RocksError bool :=
  WatchWithOptions r key rangeEnd startRevision watchID None.

(** A waiting [slowSendEvent] finds room, or its timer fires first. *)
Definition slowSendEvent (r : RocksDB) (watchID : Z) (i : nat) : RocksDB :=
  setWatches r (alter (slowSend i) watchID (watches r)).
Definition slowSendTimeout (r : RocksDB) (watchID : Z) : RocksDB := (CancelWatch r watchID).1.

(** ** Reads *)

(** The test that ends a scan of a range *)
Definition beyond (rangeEnd k : string) : bool := negb (String.eqb rangeEnd nulKey) && str_leb rangeEnd k.

(** [it.Seek(kvPrefix + key)], while [it.ValidForPrefix(kvPrefix)] *)
Definition seekKv (r : RocksDB) (key : string) : list (string * string) :=
  validForPrefix kvPrefix (db_seek (db r) (kvKey key)).1.

Definition userKey (dbKey : string) : string := str_drop (String.length kvPrefix) dbKey.

Fixpoint rangeLoop (key rangeEnd : string) (limit : Z) (entries : list (string * string)) (kvs : list KeyValue) :
    option (list KeyValue) :=
  match entries with
  | [] => Some kvs
  | (dbKey, data) :: entries' =>
      let k := userKey dbKey in
      if inKeyRange key rangeEnd k then
        kv ← decodeKeyValue data;
        let kvs' := kvs ++ option_list kv in
        if (limit >? 0) && (Z.of_nat (length kvs') >=? limit) then Some kvs'
        else if beyond rangeEnd k then Some kvs'
        else rangeLoop key rangeEnd limit entries' kvs'
      else if beyond rangeEnd k then Some kvs
      else rangeLoop key rangeEnd limit entries' kvs
  end.

(** The records before the limit is applied to them. *)
Definition rangeKvs (r : RocksDB) (key rangeEnd : string) (limit : Z) : option (list KeyValue) :=
  if String.eqb rangeEnd "" then kv ← getKeyValue r key; Some (option_list (orNil kv))
  else kvs ← rangeLoop key rangeEnd limit (seekKv r key) []; Some (sortByKey kvs).

(** With a leader that holds a lease the read is counted; the local state is read
    in every case, and the [revision] argument is ignored. *)
Definition countRead (r : RocksDB) : option Z :=
  match raftNode r with
  | None => None
  | Some n =>
      match rn_LeaseManager n, rn_ReadIndexManager n with
      | Some (isLeader, hasValidLease), Some fastPathReads =>
          if isLeader && hasValidLease then Some (fastPathReads + 1) else Some fastPathReads
      | _, reads => reads
      end
  end.

Definition Range (r : RocksDB) (key rangeEnd : string) (limit rev : Z) : option (RangeResponse * option Z) :=
  kvs ← rangeKvs r key rangeEnd limit;
  let count := Z.of_nat (length kvs) in
  Some (if (limit >? 0) && (Z.of_nat (length kvs) >? limit)
        then mkRangeResponse (take (Z.to_nat limit) kvs) true count (CurrentRevision r)
        else mkRangeResponse kvs false count (CurrentRevision r),
        countRead r).

Definition Lookup (r : RocksDB) (key : string) : option (string * bool) :=
  kv ← getKeyValue r key;
  Some match orNil kv with Some kv => (Value kv, true) | None => ("", false) end.

(** The entries of [seekKv] in a range, and those that [gob] decodes. *)
Fixpoint scanLoop (key rangeEnd : string) (entries : list (string * string)) : list (string * string) :=
  match entries with
  | [] => []
  | (dbKey, data) :: entries' =>
      let k := userKey dbKey in
      let rest := if beyond rangeEnd k then [] else scanLoop key rangeEnd entries' in
      if inKeyRange key rangeEnd k then (dbKey, data) :: rest else rest
  end.

Definition gobKvs (entries : list (string * string)) : list KeyValue := omap (fun p => gob_kv p.2) entries.

(** The records that a deletion is going to report. *)
Definition deletedRecords (r : RocksDB) (key rangeEnd : string) : option (list KeyValue) :=
  if String.eqb rangeEnd "" then kv ← getKeyValue r key; Some (option_list (orNil kv))
  else Some (gobKvs (scanLoop key rangeEnd (seekKv r key))).

Definition sendHistorical (kvs : list KeyValue) (sub : watchSubscription) : watchSubscription :=
  fold_left (fun sub kv =>
    if hasRoom sub
    then setEvents sub (ws_eventCh sub ++ [mkWatchEvent EventTypePut (Some kv) None (ModRevision kv)]) (ws_slow sub)
    else sub) kvs sub.

Definition sendHistoricalEvents (r : RocksDB) (watchID : Z) (key rangeEnd : string) : option RocksDB :=
  '(resp, _) ← Range r key rangeEnd 0 0;
  Some (setWatches r (alter (sendHistorical (rr_Kvs resp)) watchID (watches r))).

(** ** Operations, one at a time *)

Definition putUnlocked (r : RocksDB) (key value : string) (leaseID : Z) : option (RocksDB * result RocksError unit) :=
  prev ← getKeyValue r key;
  let prevKv := orNil prev in
  Some match incrementRevision r with
  | (r1, Err e) => (r1, Err e)
  | (r1, Ok newRevision) =>
      let kv := nextKv prevKv key value leaseID newRevision in
      match leaseWrites r1 key leaseID with
      | Err e => (r1, Err e)
      | Ok ws =>
          match write r1 (WPut (kvKey key) (encodeKeyValue kv) :: ws) with
          | (r2, Some e) => (r2, Err e)
          | (r2, None) => (notifyWatches r2 (mkWatchEvent EventTypePut (Some kv) prevKv newRevision), Ok tt)
          end
      end
  end.

Definition deleteEvent (newRevision : Z) (prevKv : KeyValue) : WatchEvent :=
  mkWatchEvent EventTypeDelete (Some (deletedKv prevKv newRevision)) (Some prevKv) newRevision.

Definition deleteUnlocked (r : RocksDB) (key rangeEnd : string) : option (RocksDB * result RocksError unit) :=
  match incrementRevision r with
  | (r1, Err e) => Some (r1, Err e)
  | (r1, Ok newRevision) =>
      if String.eqb rangeEnd "" then
        prev ← getKeyValue r1 key;
        Some match write r1 [WDelete (kvKey key)] with
        | (r2, Some e) => (r2, Err e)
        | (r2, None) => (fold_left notifyWatches (deleteEvent newRevision <$> option_list (orNil prev)) r2, Ok tt)
        end
      else
        let found := scanLoop key rangeEnd (seekKv r1 key) in
        Some match write r1 ((fun p => WDelete p.1) <$> found) with
        | (r2, Some e) => (r2, Err e)
        | (r2, None) => (fold_left notifyWatches (deleteEvent newRevision <$> gobKvs found) r2, Ok tt)
        end
  end.

Definition leaseGrantUnlocked (now : Z) (r : RocksDB) (id ttl : Z) : RocksDB * result RocksError unit :=
  match encodeLease (mkLease id ttl now ∅) with
  | Err e => (r, Err e)
  | Ok data => match write r [WPut (leaseKey id) data] with (r1, Some e) => (r1, Err e) | (r1, None) => (r1, Ok tt) end
  end.

(** The errors of the deletions are only logged. *)
Fixpoint revokeKeys (r : RocksDB) (keys : list string) : option RocksDB :=
  match keys with
  | [] => Some r
  | key :: keys' => '(r1, _) ← deleteUnlocked r key ""; revokeKeys r1 keys'
  end.

Definition leaseRevokeUnlocked (r : RocksDB) (id : Z) : option (RocksDB * result RocksError unit) :=
  match getLease r id with
  | Err e => Some (r, Err e)
  | Ok None => Some (r, Ok tt)
  | Ok (Some l) =>
      r1 ← revokeKeys r (range_map (l_Keys l)).*1;
      Some match write r1 [WDelete (leaseKey id)] with (r2, Some e) => (r2, Err e) | (r2, None) => (r2, Ok tt) end
  end.

(** ** Transactions *)

Definition evaluateCompare (r : RocksDB) (cmp : Compare) : option bool :=
  kv ← getKeyValue r (cmp_Key cmp); Some (compareRecord (orNil kv) cmp).

(** The first comparison that fails ends the loop. *)
Fixpoint evaluateCompares (r : RocksDB) (cmps : list Compare) : option bool :=
  match cmps with
  | [] => Some true
  | cmp :: cmps' => b ← evaluateCompare r cmp; if (b : bool) then evaluateCompares r cmps' else Some false
  end.

Definition txnOp (r : RocksDB) (op : Op) : option (RocksDB * result RocksError OpResponse) :=
  match op_Type op with
  | OpRange =>
      '(resp, _) ← Range r (op_Key op) (op_RangeEnd op) (op_Limit op) 0;
      Some (r, Ok (RespRange resp))
  | OpPut =>
      prev ← getKeyValue r (op_Key op);
      '(r1, res) ← putUnlocked r (op_Key op) (op_Value op) (op_LeaseID op);
      Some (r1, match res with
                | Err e => Err e
                | Ok _ => Ok (RespPut (mkPutResponse (orNil prev) (CurrentRevision r1)))
                end)
  | OpDelete =>
      prevKvs ← deletedRecords r (op_Key op) (op_RangeEnd op);
      '(r1, res) ← deleteUnlocked r (op_Key op) (op_RangeEnd op);
      Some (r1, match res with
                | Err e => Err e
                | Ok _ => Ok (RespDelete (mkDeleteResponse (Z.of_nat (length prevKvs)) prevKvs (CurrentRevision r1)))
                end)
  | _ => Some (r, Ok RespEmpty)
  end.

Fixpoint txnOps (r : RocksDB) (ops : list Op) : option (RocksDB * result RocksError (list OpResponse)) :=
  match ops with
  | [] => Some (r, Ok [])
  | op :: ops' =>
      '(r1, res) ← txnOp r op;
      match res with
      | Err e => Some (r1, Err e)
      | Ok resp =>
          '(r2, rs) ← txnOps r1 ops';
          Some (r2, match rs with Ok resps => Ok (resp :: resps) | Err e => Err e end)
      end
  end.

Definition txnUnlocked (r : RocksDB) (cmps : list Compare) (thenOps elseOps : list Op) :
    option (RocksDB * result RocksError TxnResponse) :=
  succeeded ← evaluateCompares r cmps;
  '(r1, rs) ← txnOps r (if (succeeded : bool) then thenOps else elseOps);
  Some (r1, match rs with
            | Ok resps => Ok (mkTxnResponse succeeded resps (CurrentRevision r1))
            | Err e => Err e
            end).

End store.

Arguments RocksDB : clear implicits.
