(* ===== verification/RocksRaft.v ===== *)
(** * Commits, snapshots and clients of the RocksDB state machine
    ([internal/rocksdb/kvstore.go])

    [applyOperationsBatch] collects the writes of a commit in one batch; every
    operation is paired with the clock it reads.  A client call registers a
    channel under a sequence number, proposes its operation and waits; what the
    environment decides (whether a proposal is taken, which branch of a [select]
    fires) is an argument. *)

From stdpp Require Import pretty.
From S2P Require Import Prelude GoBytes KvTypes ShardedMap MemoryEtcd BatchApply RaftCodec OrderedTree ByteDB RocksCodec RocksEtcd.

Definition seqName (n : Z) : string := "seq-" +:+ pretty n.

Definition setOps (p : Pending) (ops : gmap string nat) : Pending :=
  mkPending ops (pendingTxnResults p) (seqNum p) (chans p) (closedChans p) (proposed p).
Definition setTxnResults (p : Pending) (rs : gmap string TxnResponse) : Pending :=
  mkPending (pendingOps p) rs (seqNum p) (chans p) (closedChans p) (proposed p).
Definition setClosed (p : Pending) (c : gset nat) : Pending :=
  mkPending (pendingOps p) (pendingTxnResults p) (seqNum p) (chans p) c (proposed p).
Definition setProposed (p : Pending) (l : list string) : Pending :=
  mkPending (pendingOps p) (pendingTxnResults p) (seqNum p) (chans p) (closedChans p) l.

(** [close(ch); delete(pendingOps, seq)] if somebody waits for [seq]; closing a
    channel twice is a panic. *)
Definition signal (p : Pending) (seq : string) : option Pending :=
  if String.eqb seq "" then Some p
  else
    match pendingOps p !! seq with
    | None => Some p
    | Some ch =>
        if decide (ch ∈ closedChans p) then None
        else Some (setClosed (setOps p (delete seq (pendingOps p))) ({[ch]} ∪ closedChans p))
    end.

Fixpoint signalAll (p : Pending) (seqs : list string) : option Pending :=
  match seqs with
  | [] => Some p
  | seq :: seqs' => p1 ← signal p seq; signalAll p1 seqs'
  end.

(** The five methods differ in a reply that needs no proposal, the operation, and
    what is read after the wait. *)
Inductive Reply :=
  | RepPut (revision : Z) (prevKv : option KeyValue)
  | RepDelete (deleted : Z) (prevKvs : list KeyValue) (revision : Z)
  | RepLease (lease : option LeaseInfo)
  | RepUnit
  | RepTxn (r : TxnResponse).

Inductive SendOutcome : Set := SendOk | SendTimeout | SendCancelled.
Inductive WaitOutcome : Set := WaitDone | WaitTimeout | WaitCancelled.

(** [snapshotter.Load]: an error other than [ErrNoSnapshot], nothing, or data. *)
Inductive Loaded : Set := LoadFailed | NoSnapshot | Loaded_ (data : string).

Section raft.
Context {DB : Type} `{!ByteDB DB, !MapOrder, !ProtoWire pbLease, !TextWire LeaseInfo, !Gob}.
Context `{!ProtoWire pbRaftOperation, !ProtoWire pbRaftMessage}.
Context (EnableLeaseProtobuf : bool).
Local Abbreviation RocksDB := (RocksDB DB).

Definition keepTxn (r : RocksDB) (seq : string) (res : result RocksError TxnResponse) : RocksDB :=
  match res with
  | Ok resp =>
      if String.eqb seq "" then r
      else setPending r (setTxnResults (pending r) (<[seq := resp]> (pendingTxnResults (pending r))))
  | Err _ => r
  end.

Definition signalSeq (r : RocksDB) (seqs : list string) : option RocksDB :=
  p ← signalAll (pending r) seqs; Some (setPending r p).

(** ** One operation at a time

    [applyOperation] and what only it runs ([leaseGrantUnlocked],
    [leaseRevokeUnlocked]) are in the source, but nothing calls it: commits go
    through [applyOperationsBatch] below, which deletes ranges and revokes leases
    in another way. *)

(** The switch of [applyOperation]; errors are only logged. *)
Definition applySwitch (now : Z) (r : RocksDB) (op : RaftOperation) : option RocksDB :=
  if decide (ro_Type op = TPut)
  then '(r1, _) ← putUnlocked EnableLeaseProtobuf r (ro_Key op) (ro_Value op) (ro_LeaseID op); Some r1
  else if decide (ro_Type op = TDelete)
  then '(r1, _) ← deleteUnlocked r (ro_Key op) (ro_RangeEnd op); Some r1
  else if decide (ro_Type op = TLeaseGrant)
  then Some (leaseGrantUnlocked EnableLeaseProtobuf now r (ro_LeaseID op) (ro_TTL op)).1
  else if decide (ro_Type op = TLeaseRevoke)
  then '(r1, _) ← leaseRevokeUnlocked r (ro_LeaseID op); Some r1
  else if decide (ro_Type op = TTxn)
  then '(r1, res) ← txnUnlocked EnableLeaseProtobuf r (ro_Compares op) (ro_ThenOps op) (ro_ElseOps op);
       Some (keepTxn r1 (ro_SeqNum op) res)
  else Some r.

Definition applyOperation (now : Z) (r : RocksDB) (op : RaftOperation) : option RocksDB :=
  r1 ← applySwitch now r op; signalSeq r1 [ro_SeqNum op].

(** ** A commit at a time *)

(** The batch is filled before an error is found: it is returned in every case,
    with the events of a preparation that succeeded. *)
Definition preparePutBatch (r : RocksDB) (batch : list WriteOp) (key value : string) (leaseID : Z) :
    option (RocksDB * list WriteOp * result RocksError (list WatchEvent)) :=
  prev ← getKeyValue r key;
  let prevKv := orNil prev in
  Some match incrementRevision r with
  | (r1, Err e) => (r1, batch, Err e)
  | (r1, Ok newRevision) =>
      let kv := nextKv prevKv key value leaseID newRevision in
      let batch1 := batch ++ [WPut (kvKey key) (encodeKeyValue kv)] in
      match leaseWrites EnableLeaseProtobuf r1 key leaseID with
      | Err e => (r1, batch1, Err e)
      | Ok ws => (r1, batch1 ++ ws, Ok [mkWatchEvent EventTypePut (Some kv) prevKv newRevision])
      end
  end.

(** The keys of the scan: slicing off the prefix of a shorter key is a panic. *)
Fixpoint collectUntil (endKey : string) (entries : list (string * string)) : option (list string) :=
  match entries with
  | [] => Some []
  | (dbKey, _) :: entries' =>
      if str_leb endKey dbKey then Some []
      else if str_len dbKey <? str_len kvPrefix then None
      else ks ← collectUntil endKey entries'; Some (userKey dbKey :: ks)
  end.

Fixpoint deleteEach (r : RocksDB) (keys : list string) (newRevision : Z) : option (list WriteOp * list WatchEvent) :=
  match keys with
  | [] => Some ([], [])
  | key :: keys' =>
      prev ← getKeyValue r key;
      '(ws, events) ← deleteEach r keys' newRevision;
      Some (WDelete (kvKey key) :: ws, (deleteEvent newRevision <$> option_list (orNil prev)) ++ events)
  end.

Definition prepareDeleteBatch (r : RocksDB) (batch : list WriteOp) (key rangeEnd : string) :
    option (RocksDB * list WriteOp * result RocksError (list WatchEvent)) :=
  match incrementRevision r with
  | (r1, Err e) => Some (r1, batch, Err e)
  | (r1, Ok newRevision) =>
      toDelete ← (if String.eqb rangeEnd "" then Some [key]
                  else collectUntil (kvKey rangeEnd) (db_seek (db r1) (kvKey key)).1);
      '(ws, events) ← deleteEach r1 toDelete newRevision;
      Some (r1, batch ++ ws, Ok events)
  end.

Definition prepareLeaseGrantBatch (now : Z) (batch : list WriteOp) (leaseID ttl : Z) : list WriteOp :=
  match encodeLease EnableLeaseProtobuf (mkLease leaseID ttl now ∅) with
  | Ok data => batch ++ [WPut (leaseKey leaseID) data]
  | Err _ => batch
  end.

Definition prepareLeaseRevokeBatch (r : RocksDB) (batch : list WriteOp) (leaseID : Z) : list WriteOp :=
  match getLease r leaseID with
  | Ok (Some l) => batch ++ ((fun key => WDelete (kvKey key)) <$> (range_map (l_Keys l)).*1) ++ [WDelete (leaseKey leaseID)]
  | _ => batch
  end.

Record BatchState := mkBatchState { bs_store : RocksDB; bs_batch : list WriteOp; bs_events : list WatchEvent }.

Definition prepared (st : BatchState) (x : RocksDB * list WriteOp * result RocksError (list WatchEvent)) : BatchState :=
  let '(r, batch, res) := x in
  mkBatchState r batch match res with Ok events => bs_events st ++ events | Err _ => bs_events st end.

(** One turn of the loop: a transaction is applied at once. *)
Definition prepareOp (st : BatchState) (now : Z) (op : RaftOperation) : option BatchState :=
  let r := bs_store st in
  let batch := bs_batch st in
  if decide (ro_Type op = TPut)
  then x ← preparePutBatch r batch (ro_Key op) (ro_Value op) (ro_LeaseID op); Some (prepared st x)
  else if decide (ro_Type op = TDelete)
  then x ← prepareDeleteBatch r batch (ro_Key op) (ro_RangeEnd op); Some (prepared st x)
  else if decide (ro_Type op = TLeaseGrant)
  then Some (mkBatchState r (prepareLeaseGrantBatch now batch (ro_LeaseID op) (ro_TTL op)) (bs_events st))
  else if decide (ro_Type op = TLeaseRevoke)
  then Some (mkBatchState r (prepareLeaseRevokeBatch r batch (ro_LeaseID op)) (bs_events st))
  else if decide (ro_Type op = TTxn)
  then '(r1, res) ← txnUnlocked EnableLeaseProtobuf r (ro_Compares op) (ro_ThenOps op) (ro_ElseOps op);
       Some (mkBatchState (keepTxn r1 (ro_SeqNum op) res) batch (bs_events st))
  else Some st.

Fixpoint prepareOps (st : BatchState) (ops : list (Z * RaftOperation)) : option BatchState :=
  match ops with
  | [] => Some st
  | (now, op) :: ops' => st1 ← prepareOp st now op; prepareOps st1 ops'
  end.

Definition seqs (ops : list (Z * RaftOperation)) : list string := (fun p => ro_SeqNum p.2) <$> ops.

Definition applyOperationsBatch (r : RocksDB) (ops : list (Z * RaftOperation)) : option RocksDB :=
  match ops with
  | [] => Some r
  | _ =>
      st ← prepareOps (mkBatchState r [] []) ops;
      match write (bs_store st) (bs_batch st) with
      | (r1, Some _) => Some r1
      | (r1, None) => r2 ← signalSeq r1 (seqs ops); Some (fold_left notifyWatches (bs_events st) r2)
      end
  end.

(** ** Snapshots *)

Definition GetSnapshot (r : RocksDB) : string := gob_encode_map (list_to_map (db_seek (db r) "").1).

Definition recoverFromSnapshot (r : RocksDB) (snapshot : string) : RocksDB * result RocksError unit :=
  match gob_decode_map snapshot with
  | None => (r, Err EGobSnapshot)
  | Some snapshotData =>
      let wb := ((fun p => WDelete p.1) <$> (db_seek (db r) "").1)
                  ++ ((fun p => WPut p.1 p.2) <$> range_map snapshotData) in
      match write r wb with (r1, Some e) => (r1, Err e) | (r1, None) => (r1, Ok tt) end
  end.

Definition reload (r : RocksDB) (l : Loaded) : option RocksDB :=
  match l with
  | LoadFailed => None
  | NoSnapshot => Some r
  | Loaded_ data => match recoverFromSnapshot r data with (r1, Ok _) => Some r1 | (_, Err _) => None end
  end.

Definition NewRocksDB (d : DB) (l : Loaded) : option RocksDB :=
  r ← reload (mkRocksDB d 0 ∅ (mkPending ∅ ∅ 0 0 ∅ []) None 0) l;
  Some (setRevision r (loadCurrentRevision r)).

(** ** The commit channel *)

Definition applyLegacyOp (r : RocksDB) (data : string) : option RocksDB :=
  '(k, v) ← gob_legacy data;
  '(r1, _) ← putUnlocked EnableLeaseProtobuf r k v 0;
  Some r1.

(** Decodes the entries of a commit; old messages are applied at once. *)
Fixpoint collectOps (r : RocksDB) (entries : list string) (batchOps : list RaftOperation) :
    option (RocksDB * list RaftOperation) :=
  match entries with
  | [] => Some (r, batchOps)
  | data :: entries' =>
      match unmarshalRaftMessage data with
      | Ok (Some ops) => collectOps r entries' (batchOps ++ ops)
      | _ =>
          match unmarshalRaftOperation data with
          | Ok op => collectOps r entries' (batchOps ++ [op])
          | Err _ => r1 ← applyLegacyOp r data; collectOps r1 entries' batchOps
          end
      end
  end.

(** One message of [commitC], with the clock each operation reads; nil asks to
    reload the snapshot. *)
Definition readCommit (clock : nat -> Z) (l : Loaded) (r : RocksDB) (commit : option (list string)) : option RocksDB :=
  match commit with
  | None => reload r l
  | Some entries =>
      '(r1, batchOps) ← collectOps r entries [];
      applyOperationsBatch r1 (imap (fun i op => (clock i, op)) batchOps)
  end.

(** ** Leases and compaction, outside the log *)

Definition LeaseRenew (now : Z) (r : RocksDB) (id : Z) : RocksDB * result RocksError LeaseInfo :=
  match getLease r id with
  | Err e => (r, Err e)
  | Ok None => (r, Err (ENoLease id))
  | Ok (Some l) =>
      let l' := mkLease (l_ID l) (l_TTL l) now (l_Keys l) in
      match encodeLease EnableLeaseProtobuf l' with
      | Err e => (r, Err e)
      | Ok data =>
          match write r [WPut (leaseKey id) data] with (r1, Some e) => (r1, Err e) | (r1, None) => (r1, Ok l') end
      end
  end.

Definition LeaseTimeToLive (r : RocksDB) (id : Z) : result RocksError (option LeaseInfo) := getLease r id.

Definition Leases (r : RocksDB) : list LeaseInfo :=
  omap (fun p => match DeserializeLease p.2 with Ok l => Some l | Err _ => None end) (scan (db r) leasePrefix).1.

Definition getCompactedRevisionUnlocked (r : RocksDB) : Z :=
  match db_get (db r) compactedKey with
  | Err _ => 0
  | Ok data => if str_len data =? 8 then wrap_i64 (get_be data) else 0
  end.

Definition setCompactedRevisionUnlocked (r : RocksDB) (revision : Z) : RocksDB * option RocksError :=
  write r [WPut compactedKey (put_be 8 (wrap_u64 revision))].

(** [elapsed > time.Duration(lease.TTL)*time.Second] *)
Definition leaseExpired (now : Z) (l : LeaseInfo) : bool :=
  timeSince now (l_GrantTime l) >? wrap_i64 (l_TTL l * 1000000000).

Fixpoint cleanupLoop (now : Z) (r : RocksDB) (entries : list (string * string)) : RocksDB * Z :=
  match entries with
  | [] => (r, 0)
  | (dbKey, data) :: entries' =>
      match DeserializeLease data with
      | Err _ => cleanupLoop now r entries'
      | Ok l =>
          if leaseExpired now l then
            match write r [WDelete dbKey] with
            | (r1, Some _) => cleanupLoop now r1 entries'
            | (r1, None) => let '(r2, n) := cleanupLoop now r1 entries' in (r2, n + 1)
            end
          else cleanupLoop now r entries'
      end
  end.

Definition cleanupExpiredLeasesUnlocked (now : Z) (r : RocksDB) : RocksDB * Z :=
  cleanupLoop now r (scan (db r) leasePrefix).1.

(** [CompactRange] rewrites files and changes no content. *)
Definition Compact (now : Z) (r : RocksDB) (revision : Z) : RocksDB * result RocksError unit :=
  if revision >? CurrentRevision r then (r, Err EFutureRevision)
  else if revision <=? 0 then (r, Err EInvalidRevision)
  else if revision <=? getCompactedRevisionUnlocked r then (r, Err (EAlreadyCompacted (getCompactedRevisionUnlocked r)))
  else
    match setCompactedRevisionUnlocked r revision with
    | (r1, Some e) => (r1, Err e)
    | (r1, None) => ((cleanupExpiredLeasesUnlocked now r1).1, Ok tt)
    end.

(** ** Client calls *)

Definition register (r : RocksDB) : RocksDB * string :=
  let p := pending r in
  let n := wrap_i64 (seqNum p + 1) in
  (setPending r (mkPending (<[seqName n := chans p]> (pendingOps p)) (pendingTxnResults p) n (S (chans p))
     (closedChans p) (proposed p)), seqName n).

(** [cleanup()] *)
Definition withdraw (r : RocksDB) (seq : string) : RocksDB :=
  setPending r (setOps (pending r) (delete seq (pendingOps (pending r)))).

Record Call := mkCall {
  c_early : option Reply;
  c_op : string -> RaftOperation;
  c_finish : RocksDB -> string -> RocksDB * result RocksError Reply;
  c_cleanup : RocksDB -> string -> RocksDB;
}.

(** The previous record is looked up before the proposal. *)
Definition PutWithLease (r0 : RocksDB) (key value : string) (leaseID : Z) : option Call :=
  prev ← getKeyValue r0 key;
  Some (mkCall None (fun seq => mkRaftOperation TPut key value leaseID "" seq 0 [] [] [])
          (fun r _ => (r, Ok (RepPut (CurrentRevision r) (orNil prev)))) withdraw).

Definition DeleteRange (r0 : RocksDB) (key rangeEnd : string) : option Call :=
  prevKvs ← deletedRecords r0 key rangeEnd;
  let deleted := Z.of_nat (length prevKvs) in
  Some (mkCall (if deleted =? 0 then Some (RepDelete 0 [] (CurrentRevision r0)) else None)
          (fun seq => mkRaftOperation TDelete key "" 0 rangeEnd seq 0 [] [] [])
          (fun r _ => (r, Ok (RepDelete deleted prevKvs (CurrentRevision r)))) withdraw).

Definition LeaseGrant (id ttl : Z) : Call :=
  mkCall None (fun seq => mkRaftOperation TLeaseGrant "" "" id "" seq ttl [] [] [])
    (fun r _ => (r, match getLease r id with Ok l => Ok (RepLease l) | Err e => Err e end)) withdraw.

Definition LeaseRevoke (id : Z) : Call :=
  mkCall None (fun seq => mkRaftOperation TLeaseRevoke "" "" id "" seq 0 [] [] [])
    (fun r _ => (r, Ok RepUnit)) withdraw.

Definition Txn (cmps : list Compare) (thenOps elseOps : list Op) : Call :=
  mkCall None (fun seq => mkRaftOperation TTxn "" "" 0 "" seq 0 cmps thenOps elseOps)
    (fun r seq =>
       (setPending r (setTxnResults (pending r) (delete seq (pendingTxnResults (pending r)))),
        match pendingTxnResults (pending r) !! seq with
        | Some resp => Ok (RepTxn resp)
        | None => Err ENoTxnResult
        end))
    (fun r seq =>
       let r1 := withdraw r seq in
       setPending r1 (setTxnResults (pending r1) (delete seq (pendingTxnResults (pending r1))))).

(** The branches of the [select] in [propose]. *)
Definition propose (r : RocksDB) (data : string) (o : SendOutcome) : RocksDB * option RocksError :=
  match o with
  | SendOk => (setPending r (setProposed (pending r) (proposed (pending r) ++ [data])), None)
  | SendTimeout => (r, Some EProposeTimeout)
  | SendCancelled => (r, Some EProposeCancelled)
  end.

(** A call up to its proposal: answered, or waiting under a sequence number. *)
Definition begin (r : RocksDB) (c : Call) (o : SendOutcome) : RocksDB * (result RocksError Reply + string) :=
  match c_early c with
  | Some reply => (r, inl (Ok reply))
  | None =>
      let '(r1, seq) := register r in
      match marshalRaftOperation (c_op c seq) with
      | Err e => (c_cleanup c r1 seq, inl (Err (ECodec e)))
      | Ok data =>
          match propose r1 data o with
          | (r2, Some e) => (c_cleanup c r2 seq, inl (Err e))
          | (r2, None) => (r2, inr seq)
          end
      end
  end.

(** The branches of the [select] that waits for the commit. *)
Definition await (r : RocksDB) (c : Call) (seq : string) (o : WaitOutcome) : RocksDB * result RocksError Reply :=
  match o with
  | WaitDone => c_finish c r seq
  | WaitTimeout => (c_cleanup c r seq, Err ECommitTimeout)
  | WaitCancelled => (c_cleanup c r seq, Err ECommitCancelled)
  end.

(** The old interface: a put whose result nobody looks at. *)
Definition Propose (r : RocksDB) (k v : string) (o : SendOutcome) : option (RocksDB * (result RocksError Reply + string)) :=
  c ← PutWithLease r k v 0; Some (begin r c o).

End raft.
