(* ===== verification/RocksEtcdSpec.v ===== *)
(** * What the RocksDB state machine promises

    The abstract state has the records and leases as maps; [aCommit] is what the
    operations of a commit do to it.  [Rep] says how the database holds the maps,
    and the lemmas here show that the reads of [RocksEtcd] find them. *)

From stdpp Require Import pretty.
From S2P Require Import Prelude GoBytes KvTypes ShardedMap MemoryEtcd BatchApply RaftCodec OrderedTree ByteDB RocksCodec RocksEtcd.

(** ** The abstract store *)

Record State := mkState {
  a_kvs : gmap string KeyValue;
  a_leases : gmap Z LeaseInfo;
  a_rev : Z;
  a_subs : gmap Z watchSubscription;
}.

Definition nextRev (a : State) : Z := wrap_i64 (a_rev a + 1).

Definition publish (events : list WatchEvent) (a : State) : State :=
  mkState (a_kvs a) (a_leases a) (a_rev a) (fold_left (fun subs e => notifySub e <$> subs) events (a_subs a)).

Definition aPut (a : State) (key value : string) (leaseID : Z) : State :=
  let kv := nextKv (a_kvs a !! key) key value leaseID (nextRev a) in
  publish [mkWatchEvent EventTypePut (Some kv) (a_kvs a !! key) (nextRev a)]
    (mkState (<[key := kv]> (a_kvs a)) (attachKey leaseID key (a_leases a)) (nextRev a) (a_subs a)).

Definition aDelete (a : State) (key : string) : State :=
  publish (deleteEvent (nextRev a) <$> option_list (a_kvs a !! key))
    (mkState (delete key (a_kvs a)) (a_leases a) (nextRev a) (a_subs a)).

Definition bump (a : State) : State := mkState (a_kvs a) (a_leases a) (nextRev a) (a_subs a).

(** What a commit writes. *)
Inductive AWrite :=
  | AwSetKv (key : string) (kv : KeyValue)
  | AwDelKv (key : string)
  | AwSetLease (id : Z) (l : LeaseInfo)
  | AwDelLease (id : Z).

Definition writeKv (kvs : gmap string KeyValue) (w : AWrite) : gmap string KeyValue :=
  match w with AwSetKv key kv => <[key := kv]> kvs | AwDelKv key => delete key kvs | _ => kvs end.

Definition writeLease (ls : gmap Z LeaseInfo) (w : AWrite) : gmap Z LeaseInfo :=
  match w with AwSetLease id l => <[id := l]> ls | AwDelLease id => delete id ls | _ => ls end.

Definition aWrites (ws : list AWrite) (a : State) : State :=
  mkState (fold_left writeKv ws (a_kvs a)) (fold_left writeLease ws (a_leases a)) (a_rev a) (a_subs a).

(** The records of a query. *)
Definition aRecords (a : State) (key rangeEnd : string) : list KeyValue :=
  if String.eqb rangeEnd "" then option_list (a_kvs a !! key) else entriesIn (a_kvs a) key rangeEnd.

Definition aRange (a : State) (key rangeEnd : string) (limit : Z) : list KeyValue :=
  if limit >? 0 then take (Z.to_nat limit) (aRecords a key rangeEnd) else aRecords a key rangeEnd.

Section spec.
Context `{!MapOrder, !Gob}.

(** What a range deletion reports: the records [gob] can read. *)
Definition aReported (a : State) (key rangeEnd : string) : list KeyValue :=
  if String.eqb rangeEnd "" then option_list (a_kvs a !! key)
  else omap (fun kv => gob_kv (encodeKeyValue kv)) (entriesIn (a_kvs a) key rangeEnd).

Definition aDeleteRange (a : State) (key rangeEnd : string) : State :=
  if String.eqb rangeEnd "" then aDelete a key
  else publish (deleteEvent (nextRev a) <$> aReported a key rangeEnd)
         (mkState (filter (fun p => inKeyRange key rangeEnd p.1 = false) (a_kvs a)) (a_leases a) (nextRev a) (a_subs a)).

Definition aTxnOp (a : State) (op : Op) : State * OpResponse :=
  match op_Type op with
  | OpRange =>
      let kvs := aRange a (op_Key op) (op_RangeEnd op) (op_Limit op) in
      (a, RespRange (mkRangeResponse kvs false (Z.of_nat (length kvs)) (a_rev a)))
  | OpPut => (aPut a (op_Key op) (op_Value op) (op_LeaseID op), RespPut (mkPutResponse (a_kvs a !! op_Key op) (nextRev a)))
  | OpDelete =>
      let kvs := aReported a (op_Key op) (op_RangeEnd op) in
      (aDeleteRange a (op_Key op) (op_RangeEnd op), RespDelete (mkDeleteResponse (Z.of_nat (length kvs)) kvs (nextRev a)))
  | _ => (a, RespEmpty)
  end.

Fixpoint aTxnOps (a : State) (ops : list Op) : State * list OpResponse :=
  match ops with
  | [] => (a, [])
  | op :: ops' => let '(a1, resp) := aTxnOp a op in let '(a2, resps) := aTxnOps a1 ops' in (a2, resp :: resps)
  end.

Definition aTxn (a : State) (cmps : list Compare) (thenOps elseOps : list Op) : State * TxnResponse :=
  let succeeded := forallb (fun cmp => compareRecord (a_kvs a !! cmp_Key cmp) cmp) cmps in
  let '(a1, resps) := aTxnOps a (if succeeded then thenOps else elseOps) in
  (a1, mkTxnResponse succeeded resps (a_rev a1)).

(** ** Commits

    The operations of a commit are prepared against the state before it; what they
    write and publish is collected, and takes effect at the end.  Only the revision
    moves at once, and a transaction is applied at once. *)

Record ACommit := mkACommit {
  cm_state : State;
  cm_writes : list AWrite;
  cm_events : list WatchEvent;
  cm_answers : gmap string TxnResponse;
}.

Definition startCommit (a : State) : ACommit := mkACommit a [] [] ∅.

Definition extend (c : ACommit) (a : State) (ws : list AWrite) (events : list WatchEvent) : ACommit :=
  mkACommit a (cm_writes c ++ ws) (cm_events c ++ events) (cm_answers c).

(** Attaching a key to a lease that is there. *)
Definition attachWrites (a : State) (lid : Z) (key : string) : list AWrite :=
  if lid =? 0 then []
  else match a_leases a !! lid with
       | None => []
       | Some l => [AwSetLease lid (mkLease (l_ID l) (l_TTL l) (l_GrantTime l) (<[key := true]> (l_Keys l)))]
       end.

(** The end of a range is always a bound here. *)
Definition betweenKeys (key rangeEnd k : string) : bool := str_leb key k && str_ltb k rangeEnd.

Definition deletedKeys (a : State) (key rangeEnd : string) : list string :=
  if String.eqb rangeEnd "" then [key]
  else (sorted_entries (filter (fun p => betweenKeys key rangeEnd p.1 = true) (a_kvs a))).*1.

(** The keys of a lease go without a revision and without events. *)
Definition revokeWrites (a : State) (id : Z) : list AWrite :=
  match a_leases a !! id with
  | None => []
  | Some l => (AwDelKv <$> (range_map (l_Keys l)).*1) ++ [AwDelLease id]
  end.

(** An operation of a commit, prepared at the time [now]. *)
Definition aPrepare (now : Z) (c : ACommit) (op : RaftOperation) : ACommit :=
  let a := cm_state c in
  if decide (ro_Type op = TPut) then
    let kv := nextKv (a_kvs a !! ro_Key op) (ro_Key op) (ro_Value op) (ro_LeaseID op) (nextRev a) in
    extend c (bump a) (AwSetKv (ro_Key op) kv :: attachWrites a (ro_LeaseID op) (ro_Key op))
      [mkWatchEvent EventTypePut (Some kv) (a_kvs a !! ro_Key op) (nextRev a)]
  else if decide (ro_Type op = TDelete) then
    let keys := deletedKeys a (ro_Key op) (ro_RangeEnd op) in
    extend c (bump a) (AwDelKv <$> keys) (deleteEvent (nextRev a) <$> omap (fun k => a_kvs a !! k) keys)
  else if decide (ro_Type op = TLeaseGrant) then
    extend c a [AwSetLease (ro_LeaseID op) (mkLease (ro_LeaseID op) (ro_TTL op) now ∅)] []
  else if decide (ro_Type op = TLeaseRevoke) then extend c a (revokeWrites a (ro_LeaseID op)) []
  else if decide (ro_Type op = TTxn) then
    let '(a1, resp) := aTxn a (ro_Compares op) (ro_ThenOps op) (ro_ElseOps op) in
    mkACommit a1 (cm_writes c) (cm_events c)
      (if String.eqb (ro_SeqNum op) "" then cm_answers c else <[ro_SeqNum op := resp]> (cm_answers c))
  else c.

Definition aPrepareAll (c : ACommit) (ops : list (Z * RaftOperation)) : ACommit :=
  fold_left (fun c p => aPrepare p.1 c p.2) ops c.

Definition finishCommit (c : ACommit) : State := publish (cm_events c) (aWrites (cm_writes c) (cm_state c)).

(** What a commit leaves, and the answers of its transactions. *)
Definition aCommit (a : State) (ops : list (Z * RaftOperation)) : State * gmap string TxnResponse :=
  let c := aPrepareAll (startCommit a) ops in (finishCommit c, cm_answers c).

End spec.

(** ** Keys of the database *)

Lemma kvKey_inj k k' : kvKey k = kvKey k' -> k = k'.
Proof. by intros [_ ?]%str_app_inj_l. Qed.

Lemma leaseKey_inj id id' : leaseKey id = leaseKey id' -> id = id'.
Proof. intros [_ H]%str_app_inj_l; [|done]. by apply (inj pretty). Qed.

Lemma kvKey_leaseKey k id : kvKey k <> leaseKey id.
Proof. done. Qed.
Lemma kvKey_revision k : kvKey k <> revisionKey.
Proof. done. Qed.
Lemma leaseKey_revision id : leaseKey id <> revisionKey.
Proof. done. Qed.
Lemma kvKey_compacted k : kvKey k <> compactedKey.
Proof. done. Qed.
Lemma leaseKey_compacted id : leaseKey id <> compactedKey.
Proof. done. Qed.

Lemma userKey_kvKey k : userKey (kvKey k) = k.
Proof. unfold userKey, kvKey. by apply str_drop_app_n. Qed.

Lemma kvKey_ltb k k' : str_ltb (kvKey k) (kvKey k') = str_ltb k k'.
Proof. unfold str_ltb, kvKey, String.ltb. by rewrite str_compare_app. Qed.

Lemma has_kvPrefix dbKey : has_prefix kvPrefix dbKey = true -> exists k, dbKey = kvKey k.
Proof.
  intros H. exists (str_drop (String.length kvPrefix) dbKey). unfold kvKey.
  destruct dbKey as [|c1 [|c2 [|c3 k]]]; unfold has_prefix, kvPrefix in H |- *; cbn in H; repeat (case_match; try done).
  by subst.
Qed.
