(* ===== verification/RocksEtcdRefine.v ===== *)
(** * The RocksDB state machine keeps its promises

    [Inv r a]: the database of [r] works and holds the abstract state [a].  Every
    read of [r] finds what [a] has, and every operation leads to the state the
    specification gives. *)

From stdpp Require Import pretty countable.
From S2P Require Import Prelude GoBytes KvTypes ShardedMap MemoryEtcd EtcdFacts BatchApply RaftCodec OrderedTree ByteDB RocksCodec RocksEtcd RocksRaft RocksEtcdSpec.

(** What the lease encoding has to do: leases with keys it can write are read
    back.  Protobuf strings, for one, have to be UTF-8. *)
Definition leaseOk (goodKey : string -> Prop) (l : LeaseInfo) : Prop :=
  is_i64 (l_GrantTime l) /\ map_Forall (fun k b => b = true /\ goodKey k) (l_Keys l).

Class LeaseStorable `{!MapOrder, !ProtoWire pbLease, !TextWire LeaseInfo} (pb : bool) (goodKey : string -> Prop) :=
  lease_stored : forall l, leaseOk goodKey l ->
    exists data, SerializeLease pb (Some l) = Ok data /\ DeserializeLease data = Ok l.

(** ** Entries of the database *)

Definition RepKv (m : gmap string string) (kvs : gmap string KeyValue) : Prop :=
  forall k, m !! kvKey k = encodeKeyValue <$> kvs !! k.

Lemma RepKv_insert m kvs k kv : RepKv m kvs -> RepKv (<[kvKey k := encodeKeyValue kv]> m) (<[k := kv]> kvs).
Proof.
  intros H j. destruct (decide (k = j)) as [->|Hne]; [by rewrite !lookup_insert_eq|].
  rewrite !lookup_insert_ne; [apply H|done|]. by intros ?%kvKey_inj.
Qed.

Lemma RepKv_delete m kvs k : RepKv m kvs -> RepKv (delete (kvKey k) m) (delete k kvs).
Proof.
  intros H j. destruct (decide (k = j)) as [->|Hne]; [by rewrite !lookup_delete_eq|].
  rewrite !lookup_delete_ne; [apply H|done|]. by intros ?%kvKey_inj.
Qed.

Lemma RepKv_other m kvs dk v : (forall k, kvKey k <> dk) -> RepKv m kvs -> RepKv (<[dk := v]> m) kvs.
Proof. intros Hne H j. rewrite lookup_insert_ne; [apply H|]. intros Heq. by apply (Hne j). Qed.

Lemma RepKv_other_delete m kvs dk : (forall k, kvKey k <> dk) -> RepKv m kvs -> RepKv (delete dk m) kvs.
Proof. intros Hne H j. rewrite lookup_delete_ne; [apply H|]. intros Heq. by apply (Hne j). Qed.

Section leases.
Context `{!ProtoWire pbLease, !TextWire LeaseInfo}.

Definition leaseAt (o : option string) (l : option LeaseInfo) : Prop :=
  match l with
  | Some l => exists data, o = Some data /\ DeserializeLease data = Ok l
  | None => o = None
  end.

Definition RepLease (m : gmap string string) (ls : gmap Z LeaseInfo) : Prop :=
  forall id, leaseAt (m !! leaseKey id) (ls !! id).

Lemma RepLease_insert m ls id l data :
  DeserializeLease data = Ok l -> RepLease m ls -> RepLease (<[leaseKey id := data]> m) (<[id := l]> ls).
Proof.
  intros Hd H j. destruct (decide (id = j)) as [->|Hne].
  - rewrite !lookup_insert_eq. by exists data.
  - rewrite !lookup_insert_ne; [apply H|done|]. by intros ?%leaseKey_inj.
Qed.

Lemma RepLease_delete m ls id : RepLease m ls -> RepLease (delete (leaseKey id) m) (delete id ls).
Proof.
  intros H j. destruct (decide (id = j)) as [->|Hne]; [by rewrite !lookup_delete_eq|].
  rewrite !lookup_delete_ne; [apply H|done|]. by intros ?%leaseKey_inj.
Qed.

Lemma RepLease_other m ls dk v : (forall id, leaseKey id <> dk) -> RepLease m ls -> RepLease (<[dk := v]> m) ls.
Proof. intros Hne H j. rewrite lookup_insert_ne; [apply H|]. intros Heq. by apply (Hne j). Qed.

Lemma RepLease_other_delete m ls dk : (forall id, leaseKey id <> dk) -> RepLease m ls -> RepLease (delete dk m) ls.
Proof. intros Hne H j. rewrite lookup_delete_ne; [apply H|]. intros Heq. by apply (Hne j). Qed.

End leases.

(** ** The states of the store *)

Definition kvsOk (kvs : gmap string KeyValue) : Prop := map_Forall (fun k kv => Key kv = k /\ kv_ok kv) kvs.

Lemma kvsOk_keyed kvs : kvsOk kvs -> keyed kvs.
Proof. intros H k kv Hk. by apply (H k kv). Qed.

(** The sizes a record can have. *)
Definition sizesOk (key value : string) : Prop := str_len key < 2 ^ 32 /\ str_len value < 2 ^ 32.

Lemma nextKv_ok kvs key value lid rev :
  kvsOk kvs -> sizesOk key value -> is_i64 lid -> is_i64 rev ->
  Key (nextKv (kvs !! key) key value lid rev) = key /\ kv_ok (nextKv (kvs !! key) key value lid rev).
Proof.
  intros Hok [Hk Hv] Hl Hr. destruct (kvs !! key) as [p|] eqn:E; cbn [nextKv]; (split; [done|]).
  - destruct (Hok _ _ E) as [_ (_ & _ & Hc & _)]. unfold kv_ok. cbn. eauto 10 with metastore.
  - unfold kv_ok. cbn. split_and!; try done; unfold_ints; lia.
Qed.

Lemma str_ltb_weak s t : str_ltb s t = true -> str_leb s t = true.
Proof. rewrite str_ltb_leb, negb_true_iff. intros H. destruct (str_leb_total s t); congruence. Qed.

(** What lies between two strings with a prefix has it. *)
Lemma between_has_prefix p s e : forall k, str_leb (p +:+ s) k = true -> str_ltb k (p +:+ e) = true -> has_prefix p k = true.
Proof.
  unfold str_leb, str_ltb, has_prefix, String.leb, String.ltb. induction p as [|c p IH]; intros k; [by destruct k|].
  change (String c p +:+ ?x) with (String c (p +:+ x)). destruct k as [|d k]; [done|]. cbn. rewrite !ascii_compare_val.
  destruct (Z.compare_spec (byte_val c) (byte_val d)) as [Heq|Hlt|]; [| |done].
  - rewrite Heq, Z.compare_refl. apply (f_equal byte_of) in Heq. rewrite !byte_of_val in Heq. subst d.
    destruct (ascii_dec c c) as [_|]; [|done]. apply IH.
  - intros _. rewrite (proj2 (Z.compare_gt_iff _ _)) by done. done.
Qed.

Section refine.
Context {DB : Type} `{!ByteDB DB, !ByteDBLaws DB, !MapOrder, !ProtoWire pbLease, !TextWire LeaseInfo, !Gob}.
Context {pb : bool} {goodKey : string -> Prop} `{!LeaseStorable pb goodKey}.

Record Inv (r : RocksDB DB) (a : State) : Prop := mkInv {
  inv_healthy : healthy (db r);
  inv_rev : cachedRevision r = a_rev a;
  inv_subs : watches r = a_subs a;
  inv_kv : RepKv (contents (db r)) (a_kvs a);
  inv_lease : RepLease (contents (db r)) (a_leases a);
  inv_kvs : kvsOk (a_kvs a);
  inv_leases : map_Forall (fun _ => leaseOk goodKey) (a_leases a);
  inv_i64 : is_i64 (a_rev a);
}.

(** What the operations leave alone. *)
Definition frame (r r' : RocksDB DB) : Prop :=
  pending r' = pending r /\ raftNode r' = raftNode r /\ nodeID r' = nodeID r.

Lemma frame_refl r : frame r r.
Proof. done. Qed.
Lemma frame_trans r1 r2 r3 : frame r1 r2 -> frame r2 r3 -> frame r1 r3.
Proof. unfold frame. intros (-> & -> & ->) (-> & -> & ->). done. Qed.

(** ** Reads *)

Lemma bytes_at_kv m kvs k : RepKv m kvs ->
  bytes_at m (kvKey k) = match kvs !! k with Some kv => encodeKeyValue kv | None => "" end.
Proof. intros HR. unfold bytes_at. rewrite HR. by destruct (kvs !! k). Qed.

Lemma getKeyValue_ok r a key : Inv r a -> getKeyValue r key = Some (Ok (a_kvs a !! key)).
Proof.
  intros HI. unfold getKeyValue. rewrite db_get_healthy by apply HI.
  rewrite (bytes_at_kv _ _ key (inv_kv _ _ HI)). destruct (a_kvs a !! key) as [kv|] eqn:E; [|done].
  pose proof (encodeKeyValue_len kv). destruct (Z.eqb_spec (str_len (encodeKeyValue kv)) 0); [lia|].
  rewrite decodeKeyValue_encode; [done|]. by apply (inv_kvs _ _ HI key kv E).
Qed.

Lemma Deserialize_nonempty data l : DeserializeLease data = Ok l -> (str_len data =? 0) = false.
Proof. destruct data; [done|]. intros _. apply Z.eqb_neq. unfold str_len. cbn. lia. Qed.

Lemma getLease_ok r a id : Inv r a -> getLease r id = Ok (a_leases a !! id).
Proof.
  intros HI. unfold getLease. rewrite db_get_healthy by apply HI. pose proof (inv_lease _ _ HI id) as Hl. unfold bytes_at.
  destruct (a_leases a !! id) as [l|]; cbn in Hl; [|by rewrite Hl].
  destruct Hl as (data & -> & Hd). cbn. by rewrite (Deserialize_nonempty _ _ Hd), Hd.
Qed.

(** An iterator over the records from a key on. *)
Definition stored (p : string * KeyValue) : string * string := (kvKey p.1, encodeKeyValue p.2).

Definition kvsFrom (kvs : gmap string KeyValue) (key : string) : list (string * KeyValue) :=
  List.filter (fun p => str_leb key p.1) (sorted_entries kvs).

Lemma sorted_stored l :
  StronglySorted (fun p q : string * KeyValue => str_ltb p.1 q.1 = true) l ->
  StronglySorted (fun x y => str_ltb x.1 y.1 = true) (stored <$> l).
Proof.
  induction 1 as [|p l _ IH Hf]; cbn; [constructor|]. constructor; [done|]. apply Forall_fmap.
  eapply Forall_impl; [exact Hf|]. intros q Hq. cbn. by rewrite kvKey_ltb.
Qed.

Lemma seekKv_ok r a key : Inv r a -> seekKv r key = stored <$> kvsFrom (a_kvs a) key.
Proof.
  intros HI. unfold seekKv. rewrite db_seek_healthy by apply HI. cbn [fst].
  rewrite validForPrefix_filter; [|apply entries_from_sorted|].
  2:{ apply Forall_forall. intros [k v] Hin. apply elem_of_entries_from in Hin as [_ Hge]. cbn.
      destruct (str_ltb k kvPrefix) eqn:E; [|done]. rewrite <- Hge. symmetry.
      rewrite str_ltb_leb, negb_true_iff in E. rewrite str_ltb_leb, negb_true_iff.
      destruct (str_leb (kvKey key) k) eqn:E2; [|done]. rewrite <- E. symmetry. eapply str_leb_trans; [|exact E2].
      pose proof (prefix_ge kvPrefix (kvKey key) (has_prefix_app _ _)) as Hp. by rewrite str_ltb_leb, negb_false_iff in Hp. }
  apply strictly_sorted_unique.
  - apply sorted_filter, entries_from_sorted.
  - apply sorted_stored, sorted_filter, sorted_entries_sorted.
  - intros [dk v]. rewrite list_elem_of_In, filter_In, <- list_elem_of_In, elem_of_entries_from. cbn.
    rewrite list_elem_of_fmap. unfold kvsFrom. split.
    + intros [[Hdk Hge] Hp]. apply has_kvPrefix in Hp as [k ->]. rewrite kvKey_ltb in Hge.
      rewrite (inv_kv _ _ HI) in Hdk. destruct (a_kvs a !! k) as [kv|] eqn:E; [|done]. injection Hdk as <-.
      exists (k, kv). split; [done|]. rewrite list_elem_of_In, filter_In, <- list_elem_of_In, sorted_entries_perm, elem_of_map_to_list.
      split; [done|]. cbn. rewrite str_ltb_leb, negb_false_iff in Hge. done.
    + intros ([k kv] & Heq & Hin). pose proof (f_equal fst Heq) as Hdk. pose proof (f_equal snd Heq) as Hv. cbn in Hdk, Hv. subst dk v. clear Heq.
      rewrite list_elem_of_In, filter_In, <- list_elem_of_In, sorted_entries_perm, elem_of_map_to_list in Hin. destruct Hin as [Hk Hge].
      cbn in Hge. split; [split|].
      * by rewrite (inv_kv _ _ HI), Hk.
      * rewrite kvKey_ltb, str_ltb_leb, Hge. done.
      * apply has_prefix_app.
Qed.

Lemma beyond_not_in key rangeEnd k : beyond rangeEnd k = true -> inKeyRange key rangeEnd k = false.
Proof.
  unfold beyond, inKeyRange. intros [Hn Hle]%andb_true_iff. apply negb_true_iff in Hn. rewrite Hn, str_ltb_leb, Hle.
  by destruct (str_leb key k).
Qed.

Lemma beyond_mono rangeEnd k k' : beyond rangeEnd k = true -> str_ltb k k' = true -> beyond rangeEnd k' = true.
Proof.
  unfold beyond. intros [Hn Hle]%andb_true_iff Hlt. rewrite Hn. cbn.
  eapply str_leb_trans; [exact Hle|]. destruct (str_leb_total k k') as [|Hc]; [done|]. by rewrite str_ltb_leb, Hc in Hlt.
Qed.

Definition pickRange (key rangeEnd : string) (l : list (string * KeyValue)) : list (string * KeyValue) :=
  List.filter (fun p => inKeyRange key rangeEnd p.1) l.

Lemma pickRange_beyond key rangeEnd k kv l :
  StronglySorted (fun p q : string * KeyValue => str_ltb p.1 q.1 = true) ((k, kv) :: l) ->
  beyond rangeEnd k = true -> pickRange key rangeEnd l = [].
Proof.
  intros [_ Hf]%StronglySorted_inv Hb. unfold pickRange. induction l as [|q l IH]; [done|].
  apply Forall_cons in Hf as [Hq Hf]. cbn. rewrite beyond_not_in; [by apply IH|]. by eapply beyond_mono.
Qed.

(** [kvs = kvs[:limit]], with [n] records there already. *)
Definition limited {A} (limit : Z) (n : nat) (l : list A) : list A :=
  if limit >? 0 then take (Z.to_nat limit - n) l else l.

Lemma rangeLoop_ok key rangeEnd limit l : forall acc,
  StronglySorted (fun p q : string * KeyValue => str_ltb p.1 q.1 = true) l ->
  Forall (fun p => kv_ok p.2) l -> (limit > 0 -> Z.of_nat (length acc) < limit) ->
  rangeLoop key rangeEnd limit (stored <$> l) acc = Some (acc ++ limited limit (length acc) (pickRange key rangeEnd l).*2).
Proof.
  induction l as [|[k kv] l IH]; intros acc Hs Hok Hlim.
  { cbn. unfold limited. destruct (limit >? 0); by rewrite ?take_nil, app_nil_r. }
  pose proof (StronglySorted_inv Hs) as [Hs' _]. apply Forall_cons in Hok as [Hkv Hok]. cbn in Hkv.
  cbn [fmap list_fmap rangeLoop stored fst snd]. rewrite userKey_kvKey. unfold pickRange. cbn [List.filter fst]. fold (pickRange key rangeEnd l).
  destruct (inKeyRange key rangeEnd k) eqn:Ein.
  - rewrite decodeKeyValue_encode by done. cbn [mbind option_bind]. change (option_list (Some kv)) with [kv].
    destruct (beyond rangeEnd k) eqn:Eb; [by rewrite (beyond_not_in key) in Ein|].
    rewrite length_app. cbn [length]. unfold limited. destruct (Z.gtb_spec limit 0) as [Hpos|Hpos]; cbn [andb].
    + assert (Hn : (Z.to_nat limit - length acc = S (Z.to_nat limit - (length acc + 1)))%nat) by lia. rewrite Hn. cbn [fmap list_fmap take].
      destruct (Z.geb_spec (Z.of_nat (length acc + 1)) limit) as [Hge|Hlt].
      * replace (Z.to_nat limit - (length acc + 1))%nat with 0%nat by lia. done.
      * rewrite IH; [|done|done|rewrite length_app; cbn; lia]. rewrite <- app_assoc. unfold limited.
        destruct (Z.gtb_spec limit 0); [|lia]. by rewrite length_app.
    + rewrite IH; [|done|done|lia]. rewrite <- app_assoc. unfold limited. destruct (Z.gtb_spec limit 0); [lia|done].
  - destruct (beyond rangeEnd k) eqn:Eb; [|by apply IH]. rewrite (pickRange_beyond _ _ _ _ _ Hs Eb). unfold limited. cbn.
    destruct (limit >? 0); by rewrite ?take_nil, app_nil_r.
Qed.

Lemma scanLoop_ok key rangeEnd l :
  StronglySorted (fun p q : string * KeyValue => str_ltb p.1 q.1 = true) l ->
  scanLoop key rangeEnd (stored <$> l) = stored <$> pickRange key rangeEnd l.
Proof.
  induction l as [|[k kv] l IH]; intros Hs; [done|]. pose proof (StronglySorted_inv Hs) as [Hs' _].
  cbn [fmap list_fmap scanLoop stored fst snd]. rewrite userKey_kvKey. unfold pickRange. cbn [List.filter fst]. fold (pickRange key rangeEnd l).
  change (list_fmap _ _ stored l) with (stored <$> l). rewrite IH by done.
  destruct (beyond rangeEnd k) eqn:Eb; [|by destruct (inKeyRange key rangeEnd k)].
  rewrite beyond_not_in by done. by rewrite (pickRange_beyond _ _ _ _ _ Hs Eb).
Qed.

Lemma kvsFrom_sorted kvs key : StronglySorted (fun p q : string * KeyValue => str_ltb p.1 q.1 = true) (kvsFrom kvs key).
Proof. apply sorted_filter, sorted_entries_sorted. Qed.

Lemma pickRange_from kvs key rangeEnd : (pickRange key rangeEnd (kvsFrom kvs key)).*2 = entriesIn kvs key rangeEnd.
Proof.
  unfold pickRange, kvsFrom, entriesIn. f_equal. induction (sorted_entries kvs) as [|p l IH]; [done|]. cbn.
  unfold inKeyRange in *. destruct (str_leb key p.1) eqn:E; cbn; rewrite ?E; cbn; [|done].
  by destruct (String.eqb rangeEnd nulKey || str_ltb p.1 rangeEnd); rewrite IH.
Qed.

#[local] Existing Instances kv_le_total kv_le_trans.

Lemma sortByKey_sorted l : StronglySorted (fun p q => str_ltb (Key p) (Key q) = true) l -> sortByKey l = l.
Proof.
  intros Hs. unfold sortByKey.
  assert (Hk : StronglySorted kv_le l).
  { eapply sorted_weaken; [|exact Hs]. intros p q Hpq. unfold kv_le. destruct (str_ltb (Key q) (Key p)) eqn:E; [|done].
    pose proof (str_ltb_trans _ _ _ Hpq E) as Hc. by rewrite str_ltb_irrefl in Hc. }
  pose proof (merge_sort_Permutation kv_le l) as Hp.
  assert (Huniq : forall x y, x ∈ l -> y ∈ l -> Key x = Key y -> x = y).
  { clear -Hs. induction Hs as [|p l _ IH Hf]; intros x y; [by intros ?%not_elem_of_nil|]. rewrite Forall_forall in Hf.
    rewrite !elem_of_cons. intros [->|Hx] [->|Hy] Heq; [done| | |by apply IH].
    - specialize (Hf _ Hy). cbn in Hf. by rewrite Heq, str_ltb_irrefl in Hf.
    - specialize (Hf _ Hx). cbn in Hf. by rewrite Heq, str_ltb_irrefl in Hf. }
  apply (StronglySorted_unique_strong kv_le); [|apply StronglySorted_merge_sort; apply _|done|done].
  intros x y Hx Hy Hxy Hyx. rewrite Hp in Hx. apply Huniq; [done..|]. by apply str_ltb_total.
Qed.

Lemma aRange_query r a key rangeEnd limit : Inv r a -> rangeKvs r key rangeEnd limit = Some (aRange a key rangeEnd limit).
Proof.
  intros HI. unfold rangeKvs, aRange, aRecords. destruct (String.eqb rangeEnd "").
  - rewrite (getKeyValue_ok r a) by done. cbn [mbind option_bind orNil]. f_equal.
    destruct (Z.gtb_spec limit 0); [|done]. destruct (a_kvs a !! key); cbn; [|by rewrite take_nil].
    destruct (Z.to_nat limit) eqn:E; [lia|]. cbn. by rewrite take_nil.
  - rewrite (seekKv_ok r a) by done. rewrite rangeLoop_ok; [|apply kvsFrom_sorted| |cbn; lia].
    2:{ apply Forall_forall. intros [k kv] [Hin _]%list_elem_of_In%filter_In. apply list_elem_of_In in Hin.
        rewrite sorted_entries_perm, elem_of_map_to_list in Hin. by apply (inv_kvs _ _ HI k). }
    cbn [mbind option_bind app length]. rewrite pickRange_from. unfold limited. rewrite Nat.sub_0_r.
    pose proof (entriesIn_sorted (a_kvs a) key rangeEnd (kvsOk_keyed _ (inv_kvs _ _ HI))) as Hs.
    f_equal. destruct (limit >? 0); apply sortByKey_sorted; [by apply sorted_take|done].
Qed.

Lemma aRange_length a key rangeEnd limit : limit > 0 -> Z.of_nat (length (aRange a key rangeEnd limit)) <= limit.
Proof. intros Hl. unfold aRange. destruct (Z.gtb_spec limit 0); [|lia]. rewrite length_take. lia. Qed.

Lemma Range_ok r a key rangeEnd limit rv :
  Inv r a ->
  Range r key rangeEnd limit rv =
    Some (mkRangeResponse (aRange a key rangeEnd limit) false (Z.of_nat (length (aRange a key rangeEnd limit))) (a_rev a),
          countRead r).
Proof.
  intros HI. unfold Range. rewrite (aRange_query r a) by done. cbn [mbind option_bind]. unfold CurrentRevision. rewrite (inv_rev _ _ HI).
  destruct (Z.gtb_spec limit 0); cbn [andb]; [|done]. pose proof (aRange_length a key rangeEnd limit).
  destruct (Z.gtb_spec (Z.of_nat (length (aRange a key rangeEnd limit))) limit); [lia|done].
Qed.

Lemma gobKvs_stored l : gobKvs (stored <$> l) = omap (fun kv => gob_kv (encodeKeyValue kv)) l.*2.
Proof.
  unfold gobKvs. induction l as [|p l IH]; [done|]. cbn. change (list_fmap _ _ ?f l) with (f <$> l). change (list_omap _ _ ?f ?l) with (omap f l).
  by rewrite IH.
Qed.

Lemma scan_ok r a key rangeEnd :
  Inv r a -> scanLoop key rangeEnd (seekKv r key) = stored <$> pickRange key rangeEnd (kvsFrom (a_kvs a) key).
Proof. intros HI. rewrite (seekKv_ok r a) by done. apply scanLoop_ok, kvsFrom_sorted. Qed.

Lemma deletedRecords_ok r a key rangeEnd : Inv r a -> deletedRecords r key rangeEnd = Some (aReported a key rangeEnd).
Proof.
  intros HI. unfold deletedRecords, aReported. destruct (String.eqb rangeEnd ""); [by rewrite (getKeyValue_ok r a)|].
  by rewrite (scan_ok r a), gobKvs_stored, pickRange_from.
Qed.

(** ** Writes *)

Lemma write_ok r b :
  healthy (db r) -> exists d, write r b = (setDb r d, None) /\ healthy d /\ contents d = apply_batch b (contents (db r)).
Proof.
  intros Hh. unfold write. destruct (db_write_healthy (db r) b Hh) as [He Hd]. destruct (db_write (db r) b) as [d err] eqn:E.
  cbn in He, Hd. subst err. exists d. split_and!; [done|done|]. by apply (db_write_ok (db r)).
Qed.

(** A batch that leads from the maps of [a] to others. *)
Lemma inv_write r a b kvs ls :
  Inv r a ->
  RepKv (apply_batch b (contents (db r))) kvs -> RepLease (apply_batch b (contents (db r))) ls ->
  kvsOk kvs -> map_Forall (fun _ => leaseOk goodKey) ls ->
  exists r1, write r b = (r1, None) /\ frame r r1 /\ Inv r1 (mkState kvs ls (a_rev a) (a_subs a)) /\
    contents (db r1) = apply_batch b (contents (db r)).
Proof.
  intros HI HK HL Hok Hls. destruct (write_ok r b (inv_healthy _ _ HI)) as (d & Hw & Hd & Hc).
  exists (setDb r d). split_and!; [done|done| |done]. destruct HI. constructor; cbn; try done; by rewrite Hc.
Qed.

Lemma inv_setRevision r a rev : Inv r a -> is_i64 rev -> Inv (setRevision r rev) (mkState (a_kvs a) (a_leases a) rev (a_subs a)).
Proof. intros [] Hr. by constructor. Qed.

Lemma incrementRevision_ok r a :
  Inv r a -> exists r1, incrementRevision r = (r1, Ok (nextRev a)) /\ frame r r1 /\ Inv r1 (bump a) /\
    contents (db r1) = <[revisionKey := put_le 8 (wrap_u64 (nextRev a))]> (contents (db r)).
Proof.
  intros HI. unfold incrementRevision. rewrite (inv_rev _ _ HI). fold (nextRev a).
  pose proof (inv_setRevision r a (nextRev a) HI ltac:(apply wrap_i64_range)) as HI1.
  destruct (inv_write (setRevision r (nextRev a)) _ [WPut revisionKey (put_le 8 (wrap_u64 (nextRev a)))] (a_kvs a) (a_leases a) HI1)
    as (r1 & -> & Hf & HI2 & Hc).
  - apply RepKv_other; [apply kvKey_revision|apply HI].
  - apply RepLease_other; [apply leaseKey_revision|apply HI].
  - apply HI.
  - apply HI.
  - exists r1. split_and!; [done|by eapply frame_trans|done|done].
Qed.

Lemma notify_ok evs : forall r a, Inv r a ->
  Inv (fold_left notifyWatches evs r) (publish evs a) /\ frame r (fold_left notifyWatches evs r).
Proof.
  induction evs as [|e evs IH]; intros r a HI; cbn [fold_left].
  - split; [|done]. destruct HI. by constructor.
  - destruct (IH (notifyWatches r e) (publish [e] a)) as [HI1 Hf].
    + destruct HI. constructor; try done. cbn. congruence.
    + split; [|eapply frame_trans; [|exact Hf]; done]. destruct HI1. by constructor.
Qed.

Lemma encodeLease_ok l : leaseOk goodKey l ->
  exists data, encodeLease pb l = Ok data /\ DeserializeLease data = Ok l.
Proof. intros Hl. unfold encodeLease. destruct (lease_stored l Hl) as (data & -> & Hd). by exists data. Qed.

Lemma attach_leaseOk ls lid key :
  map_Forall (fun _ => leaseOk goodKey) ls -> (lid <> 0 -> goodKey key) ->
  map_Forall (fun _ => leaseOk goodKey) (attachKey lid key ls).
Proof.
  intros Hls Hk. unfold attachKey. destruct (Z.eqb_spec lid 0) as [|Hne]; [done|]. destruct (ls !! lid) as [l|] eqn:E; [|done].
  apply map_Forall_insert_2; [|done]. destruct (Hls _ _ E) as [Ht HK]. split; [done|]. cbn. apply map_Forall_insert_2; auto.
Qed.

Lemma leaseWrites_ok r a key lid :
  Inv r a -> (lid <> 0 -> goodKey key) ->
  exists ws, leaseWrites pb r key lid = Ok ws /\ (forall w, w ∈ ws -> write_key w = leaseKey lid) /\
    forall m ls, RepLease m ls -> (lid <> 0 -> ls !! lid = a_leases a !! lid) -> RepLease (apply_batch ws m) (attachKey lid key ls).
Proof.
  intros HI Hk. unfold leaseWrites, attachKey. destruct (Z.eqb_spec lid 0) as [|Hne]; [exists []; split_and!; [done|set_solver|done]|].
  rewrite (getLease_ok r a) by done. destruct (a_leases a !! lid) as [l|] eqn:E.
  - destruct (encodeLease_ok (mkLease (l_ID l) (l_TTL l) (l_GrantTime l) (<[key:=true]> (l_Keys l)))) as (data & -> & Hd).
    { destruct (inv_leases _ _ HI lid l E) as [Ht HK]. split; [done|]. cbn. apply map_Forall_insert_2; auto. }
    exists [WPut (leaseKey lid) data]. split_and!; [done|set_solver|]. intros m ls HL Heq. rewrite Heq by done. by apply RepLease_insert.
  - exists []. split_and!; [done|set_solver|]. intros m ls HL Heq. by rewrite Heq.
Qed.

Lemma RepKv_batch m kvs ws :
  (forall w, w ∈ ws -> forall k, kvKey k <> write_key w) -> RepKv m kvs -> RepKv (apply_batch ws m) kvs.
Proof.
  intros Hws HK k. rewrite apply_batch_lookup, last_write_None; [apply HK|]. intros w Hw Heq. by eapply Hws.
Qed.

Lemma RepLease_batch m ls ws :
  (forall w, w ∈ ws -> forall id, leaseKey id <> write_key w) -> RepLease m ls -> RepLease (apply_batch ws m) ls.
Proof.
  intros Hws HL id. rewrite apply_batch_lookup, last_write_None; [apply HL|]. intros w Hw Heq. by eapply Hws.
Qed.

(** ** Puts and deletions *)

Lemma put_ok r a key value lid :
  Inv r a -> sizesOk key value -> is_i64 lid -> (lid <> 0 -> goodKey key) ->
  exists r1, putUnlocked pb r key value lid = Some (r1, Ok tt) /\ frame r r1 /\ Inv r1 (aPut a key value lid).
Proof.
  intros HI Hs Hl Hk. unfold putUnlocked. rewrite (getKeyValue_ok r a) by done. cbn [mbind option_bind orNil].
  destruct (incrementRevision_ok r a HI) as (r1 & -> & Hf1 & HI1 & _).
  destruct (leaseWrites_ok r1 (bump a) key lid HI1 Hk) as (ws & -> & Hws & HL).
  set (kv := nextKv (a_kvs a !! key) key value lid (nextRev a)).
  destruct (nextKv_ok (a_kvs a) key value lid (nextRev a)) as [Hkey Hkv]; [apply HI|done|done|apply wrap_i64_range|].
  destruct (inv_write r1 (bump a) (WPut (kvKey key) (encodeKeyValue kv) :: ws) (<[key := kv]> (a_kvs a)) (attachKey lid key (a_leases a)) HI1)
    as (r2 & -> & Hf2 & HI2 & _).
  - change (apply_batch (?w :: ws) ?m) with (apply_batch ws (apply_write m w)). apply RepKv_batch.
    + intros w Hw k. rewrite (Hws w Hw). apply kvKey_leaseKey.
    + apply RepKv_insert. apply HI1.
  - change (apply_batch (?w :: ws) ?m) with (apply_batch ws (apply_write m w)). apply HL; [|done].
    apply RepLease_other; [|apply HI1]. intros id. apply not_eq_sym, kvKey_leaseKey.
  - apply map_Forall_insert_2; [done|apply HI].
  - apply attach_leaseOk; [apply HI|done].
  - destruct (notify_ok [mkWatchEvent EventTypePut (Some kv) (a_kvs a !! key) (nextRev a)] r2 _ HI2) as [HI3 Hf3].
    eexists. split; [done|]. split; [|exact HI3]. eapply frame_trans; [exact Hf1|]. by eapply frame_trans.
Qed.

Lemma delete_ok r a key :
  Inv r a -> exists r1, deleteUnlocked r key "" = Some (r1, Ok tt) /\ frame r r1 /\ Inv r1 (aDelete a key).
Proof.
  intros HI. unfold deleteUnlocked. destruct (incrementRevision_ok r a HI) as (r1 & -> & Hf1 & HI1 & _). cbn [String.eqb].
  rewrite (getKeyValue_ok r1 (bump a)) by done. cbn [mbind option_bind orNil bump a_kvs].
  destruct (inv_write r1 (bump a) [WDelete (kvKey key)] (delete key (a_kvs a)) (a_leases a) HI1) as (r2 & -> & Hf2 & HI2 & _).
  - apply RepKv_delete, HI1.
  - apply RepLease_other_delete; [|apply HI1]. intros id. apply not_eq_sym, kvKey_leaseKey.
  - apply map_Forall_delete, HI.
  - apply HI.
  - destruct (notify_ok (deleteEvent (nextRev a) <$> option_list (a_kvs a !! key)) r2 _ HI2) as [HI3 Hf3].
    eexists. split; [done|]. split; [|exact HI3]. eapply frame_trans; [exact Hf1|]. by eapply frame_trans.
Qed.

Lemma elem_of_picked kvs key rangeEnd k :
  k ∈ (pickRange key rangeEnd (kvsFrom kvs key)).*1 <-> is_Some (kvs !! k) /\ inKeyRange key rangeEnd k = true.
Proof.
  unfold pickRange, kvsFrom. rewrite list_elem_of_fmap. setoid_rewrite list_elem_of_In. setoid_rewrite filter_In.
  setoid_rewrite filter_In. setoid_rewrite <- list_elem_of_In. setoid_rewrite sorted_entries_perm. split.
  - intros ([j kv] & -> & [Hin _] & Hr). rewrite elem_of_map_to_list in Hin. eauto.
  - intros [[kv Hk] Hr]. exists (k, kv). rewrite elem_of_map_to_list. split_and!; try done.
    unfold inKeyRange in Hr. by apply andb_true_iff in Hr as [? _].
Qed.

Lemma delete_range_maps a key rangeEnd m :
  RepKv m (a_kvs a) -> RepLease m (a_leases a) ->
  let found := stored <$> pickRange key rangeEnd (kvsFrom (a_kvs a) key) in
  RepKv (apply_batch ((fun p => WDelete p.1) <$> found) m) (filter (fun p => inKeyRange key rangeEnd p.1 = false) (a_kvs a)) /\
  RepLease (apply_batch ((fun p => WDelete p.1) <$> found) m) (a_leases a).
Proof.
  intros HK HL found.
  assert (Hb : (fun p => WDelete p.1) <$> found = WDelete <$> (kvKey <$> (pickRange key rangeEnd (kvsFrom (a_kvs a) key)).*1)).
  { unfold found. rewrite <- !list_fmap_compose. done. }
  rewrite Hb. split.
  - intros k. rewrite apply_deletes, HK. case_decide as Hin.
    + apply list_elem_of_fmap in Hin as (j & Hj & Hin). apply kvKey_inj in Hj as <-. apply elem_of_picked in Hin as [_ Hr].
      rewrite map_lookup_filter. destruct (a_kvs a !! k); [|done]. cbn. rewrite option_guard_False; [done|]. cbn. congruence.
    + rewrite map_lookup_filter. destruct (a_kvs a !! k) as [kv|] eqn:E; [|done]. cbn.
      rewrite option_guard_True; [done|]. cbn. destruct (inKeyRange key rangeEnd k) eqn:Er; [|done]. exfalso. apply Hin.
      apply list_elem_of_fmap. exists k. split; [done|]. apply elem_of_picked. eauto.
  - apply RepLease_batch; [|done]. intros w Hw id. apply list_elem_of_fmap in Hw as (dk & -> & Hw).
    apply list_elem_of_fmap in Hw as (k & -> & _). apply not_eq_sym, kvKey_leaseKey.
Qed.

Lemma deleteRange_ok r a key rangeEnd :
  Inv r a -> exists r1, deleteUnlocked r key rangeEnd = Some (r1, Ok tt) /\ frame r r1 /\ Inv r1 (aDeleteRange a key rangeEnd).
Proof.
  intros HI. unfold aDeleteRange, aReported. destruct (String.eqb rangeEnd "") eqn:Ee.
  { apply String.eqb_eq in Ee as ->. by apply delete_ok. }
  unfold deleteUnlocked. destruct (incrementRevision_ok r a HI) as (r1 & -> & Hf1 & HI1 & _). rewrite Ee, (scan_ok r1 (bump a)) by done.
  cbn [bump a_kvs]. destruct (delete_range_maps (bump a) key rangeEnd _ (inv_kv _ _ HI1) (inv_lease _ _ HI1)) as [HK HL].
  destruct (inv_write r1 (bump a) _ _ _ HI1 HK HL) as (r2 & Hw & Hf2 & HI2 & _); [|apply HI|].
  { intros k kv [Hk _]%map_lookup_filter_Some. by apply (inv_kvs _ _ HI). }
  cbn [bump a_kvs] in Hw. rewrite Hw, gobKvs_stored, pickRange_from.
  edestruct (notify_ok (deleteEvent (nextRev a) <$> omap (fun kv => gob_kv (encodeKeyValue kv)) (entriesIn (a_kvs a) key rangeEnd)) r2 _ HI2) as [HI3 Hf3].
  eexists. split; [done|]. split; [|exact HI3]. eapply frame_trans; [exact Hf1|]. by eapply frame_trans.
Qed.

(** ** Transactions *)

Definition opOk (op : Op) : Prop :=
  op_Type op = OpPut -> sizesOk (op_Key op) (op_Value op) /\ is_i64 (op_LeaseID op) /\ (op_LeaseID op <> 0 -> goodKey (op_Key op)).

Lemma evaluateCompares_ok r a cmps :
  Inv r a -> evaluateCompares r cmps = Some (forallb (fun cmp => compareRecord (a_kvs a !! cmp_Key cmp) cmp) cmps).
Proof.
  intros HI. induction cmps as [|c cmps IH]; [done|]. cbn [evaluateCompares forallb]. unfold evaluateCompare.
  rewrite (getKeyValue_ok r a) by done. cbn [mbind option_bind orNil]. by destruct (compareRecord _ c).
Qed.

Lemma txnOp_ok r a op : Inv r a -> opOk op ->
  exists r1, txnOp pb r op = Some (r1, Ok (aTxnOp a op).2) /\ frame r r1 /\ Inv r1 (aTxnOp a op).1.
Proof.
  intros HI Hop. unfold txnOp, aTxnOp. destruct (op_Type op) eqn:Et; try (by exists r).
  - rewrite (Range_ok r a) by done. by exists r.
  - destruct (Hop Et) as (Hs & Hl & Hk). rewrite (getKeyValue_ok r a) by done. cbn [mbind option_bind orNil].
    destruct (put_ok r a (op_Key op) (op_Value op) (op_LeaseID op) HI Hs Hl Hk) as (r1 & -> & Hf & HI1). cbn [mbind option_bind].
    exists r1. split; [|done]. unfold CurrentRevision. by rewrite (inv_rev _ _ HI1).
  - rewrite (deletedRecords_ok r a) by done. cbn [mbind option_bind].
    destruct (deleteRange_ok r a (op_Key op) (op_RangeEnd op) HI) as (r1 & -> & Hf & HI1). cbn [mbind option_bind].
    exists r1. split; [|done]. unfold CurrentRevision. rewrite (inv_rev _ _ HI1). unfold aDeleteRange. by destruct (String.eqb (op_RangeEnd op) "").
Qed.

Lemma txnOps_ok ops : forall r a, Inv r a -> Forall opOk ops ->
  exists r1, txnOps pb r ops = Some (r1, Ok (aTxnOps a ops).2) /\ frame r r1 /\ Inv r1 (aTxnOps a ops).1.
Proof.
  induction ops as [|op ops IH]; intros r a HI Hops; [by exists r|]. apply Forall_cons in Hops as [Hop Hops]. cbn [txnOps aTxnOps].
  destruct (txnOp_ok r a op HI Hop) as (r1 & -> & Hf1 & HI1). cbn [mbind option_bind].
  destruct (IH r1 (aTxnOp a op).1 HI1 Hops) as (r2 & -> & Hf2 & HI2). cbn [mbind option_bind].
  destruct (aTxnOp a op) as [a1 resp]. cbn [fst snd] in *. destruct (aTxnOps a1 ops) as [a2 resps]. cbn [fst snd] in *.
  exists r2. split_and!; [done|by eapply frame_trans|done].
Qed.

Lemma txn_ok r a cmps thenOps elseOps : Inv r a -> Forall opOk thenOps -> Forall opOk elseOps ->
  exists r1, txnUnlocked pb r cmps thenOps elseOps = Some (r1, Ok (aTxn a cmps thenOps elseOps).2) /\ frame r r1 /\
    Inv r1 (aTxn a cmps thenOps elseOps).1.
Proof.
  intros HI Ht He. unfold txnUnlocked, aTxn. rewrite (evaluateCompares_ok r a) by done. cbn [mbind option_bind].
  set (succeeded := forallb _ cmps). destruct (txnOps_ok (if succeeded then thenOps else elseOps) r a HI) as (r1 & -> & Hf & HI1); [by destruct succeeded|].
  cbn [mbind option_bind]. destruct (aTxnOps a _) as [a1 resps]. cbn [fst snd] in *. exists r1. split_and!; [|done|done].
  unfold CurrentRevision. by rewrite (inv_rev _ _ HI1).
Qed.

(** ** Commits *)

(** A write of a commit and the one in its batch. *)
Inductive written : AWrite -> WriteOp -> Prop :=
  | written_set key kv : written (AwSetKv key kv) (WPut (kvKey key) (encodeKeyValue kv))
  | written_del key : written (AwDelKv key) (WDelete (kvKey key))
  | written_setLease id l data : DeserializeLease data = Ok l -> written (AwSetLease id l) (WPut (leaseKey id) data)
  | written_delLease id : written (AwDelLease id) (WDelete (leaseKey id)).

Definition writeOk (w : AWrite) : Prop :=
  match w with
  | AwSetKv key kv => Key kv = key /\ kv_ok kv
  | AwSetLease _ l => leaseOk goodKey l
  | _ => True
  end.

Lemma writes_rep ws dws : Forall2 written ws dws -> forall m kvs ls, RepKv m kvs -> RepLease m ls ->
  RepKv (apply_batch dws m) (fold_left writeKv ws kvs) /\ RepLease (apply_batch dws m) (fold_left writeLease ws ls).
Proof.
  induction 1 as [|w d ws dws Hw _ IH]; intros m kvs ls HK HL; [done|].
  change (apply_batch (d :: dws) m) with (apply_batch dws (apply_write m d)). cbn [fold_left]. apply IH; destruct Hw; cbn.
  - by apply RepKv_insert.
  - by apply RepKv_delete.
  - apply RepKv_other; [intros; apply kvKey_leaseKey|done].
  - apply RepKv_other_delete; [intros; apply kvKey_leaseKey|done].
  - apply RepLease_other; [intros; apply not_eq_sym, kvKey_leaseKey|done].
  - apply RepLease_other_delete; [intros; apply not_eq_sym, kvKey_leaseKey|done].
  - by apply RepLease_insert.
  - by apply RepLease_delete.
Qed.

Lemma writes_ok ws : Forall writeOk ws -> forall kvs ls, kvsOk kvs -> map_Forall (fun _ => leaseOk goodKey) ls ->
  kvsOk (fold_left writeKv ws kvs) /\ map_Forall (fun _ => leaseOk goodKey) (fold_left writeLease ws ls).
Proof.
  induction 1 as [|w ws Hw _ IH]; intros kvs ls HK HL; [done|]. cbn [fold_left]. apply IH; destruct w; cbn in *; try done.
  - by apply map_Forall_insert_2.
  - by apply map_Forall_delete.
  - by apply map_Forall_insert_2.
  - by apply map_Forall_delete.
Qed.

(** The scan of a range deletion finds the records between its bounds. *)
Lemma collectUntil_take endKey l :
  StronglySorted (fun p q : string * string => str_ltb p.1 q.1 = true) l ->
  Forall (fun p => str_ltb p.1 endKey = true -> has_prefix kvPrefix p.1 = true) l ->
  collectUntil endKey l = Some (userKey <$> (List.filter (fun p => str_ltb p.1 endKey) l).*1).
Proof.
  induction 1 as [|[k v] l Hs IH Hf]; intros Hp; [done|]. apply Forall_cons in Hp as [Hp Hps]. cbn [collectUntil List.filter fst] in *.
  destruct (str_leb endKey k) eqn:E.
  - assert (Hk : str_ltb k endKey = false) by (by rewrite str_ltb_leb, E). rewrite Hk.
    enough (List.filter (fun p : string * string => str_ltb p.1 endKey) l = []) as -> by done.
    clear -E Hf. induction Hf as [|[k' v'] l Hlt _ IH]; [done|]. cbn in *. rewrite str_ltb_leb.
    assert (str_leb endKey k' = true) as -> by (eapply str_leb_trans; [exact E|]; by apply str_ltb_weak). done.
  - assert (Hk : str_ltb k endKey = true) by (by rewrite str_ltb_leb, E). rewrite Hk in *.
    destruct (has_kvPrefix k (Hp eq_refl)) as [k' ->]. unfold kvKey at 1. rewrite str_len_app.
    pose proof (str_len_nonneg k'). destruct (Z.ltb_spec (str_len kvPrefix + str_len k') (str_len kvPrefix)); [lia|].
    rewrite IH by done. done.
Qed.

Lemma collect_ok r a key rangeEnd : Inv r a ->
  collectUntil (kvKey rangeEnd) (db_seek (db r) (kvKey key)).1 =
    Some (sorted_entries (filter (fun p => betweenKeys key rangeEnd p.1 = true) (a_kvs a))).*1.
Proof.
  intros HI. rewrite db_seek_healthy by apply HI. cbn [fst]. rewrite collectUntil_take; [|apply entries_from_sorted|].
  2:{ apply Forall_forall. intros [k v] Hin Hlt. apply elem_of_entries_from in Hin as [_ Hge]. cbn in *.
      eapply between_has_prefix; [|exact Hlt]. rewrite str_ltb_leb, negb_false_iff in Hge. exact Hge. }
  set (found := sorted_entries _). enough (List.filter _ _ = stored <$> found) as ->.
  { f_equal. rewrite <- list_fmap_compose, <- list_fmap_compose. apply list_fmap_ext. intros i p _. apply userKey_kvKey. }
  apply strictly_sorted_unique.
  - apply sorted_filter, entries_from_sorted.
  - apply sorted_stored, sorted_entries_sorted.
  - intros [dk v]. rewrite list_elem_of_In, filter_In, <- list_elem_of_In, elem_of_entries_from. cbn. rewrite list_elem_of_fmap.
    unfold found, betweenKeys. split.
    + intros [[Hdk Hge] Hlt]. destruct (has_kvPrefix dk) as [k ->].
      { eapply between_has_prefix; [|exact Hlt]. rewrite str_ltb_leb, negb_false_iff in Hge. exact Hge. }
      rewrite kvKey_ltb in Hge, Hlt. rewrite (inv_kv _ _ HI) in Hdk. destruct (a_kvs a !! k) as [kv|] eqn:E; [|done]. injection Hdk as <-.
      exists (k, kv). split; [done|]. rewrite sorted_entries_perm, elem_of_map_to_list. apply map_lookup_filter_Some. split; [done|]. cbn.
      rewrite str_ltb_leb, negb_false_iff in Hge. by rewrite Hge.
    + intros ([k kv] & Heq & Hin). pose proof (f_equal fst Heq) as Hdk. pose proof (f_equal snd Heq) as Hv. cbn in Hdk, Hv. subst dk v. clear Heq.
      rewrite sorted_entries_perm, elem_of_map_to_list in Hin. apply map_lookup_filter_Some in Hin as [Hk [Hge Hlt]%andb_true_iff]. cbn in *.
      rewrite !kvKey_ltb, (inv_kv _ _ HI), Hk. split; [split; [done|]|done]. by rewrite str_ltb_leb, Hge.
Qed.

Lemma deleteEach_ok r a rev keys : Inv r a ->
  deleteEach r keys rev = Some ((fun k => WDelete (kvKey k)) <$> keys, deleteEvent rev <$> omap (fun k => a_kvs a !! k) keys).
Proof.
  intros HI. induction keys as [|k keys IH]; [done|]. cbn [deleteEach]. rewrite (getKeyValue_ok r a) by done. cbn [mbind option_bind orNil].
  rewrite IH. cbn [mbind option_bind]. rewrite fmap_cons. cbn [omap list_omap]. by destruct (a_kvs a !! k).
Qed.

Lemma leaseWrites_written r a key lid : Inv r a -> (lid <> 0 -> goodKey key) ->
  exists ws, leaseWrites pb r key lid = Ok ws /\ Forall2 written (attachWrites a lid key) ws /\ Forall writeOk (attachWrites a lid key).
Proof.
  intros HI Hk. unfold leaseWrites, attachWrites. destruct (Z.eqb_spec lid 0) as [|Hne]; [exists []; split_and!; by constructor|].
  rewrite (getLease_ok r a) by done. destruct (a_leases a !! lid) as [l|] eqn:E; [|exists []; split_and!; by constructor].
  assert (Hl : leaseOk goodKey (mkLease (l_ID l) (l_TTL l) (l_GrantTime l) (<[key:=true]> (l_Keys l)))).
  { destruct (inv_leases _ _ HI lid l E) as [Ht HK]. split; [done|]. cbn. apply map_Forall_insert_2; auto. }
  destruct (encodeLease_ok _ Hl) as (data & -> & Hd). eexists. split; [done|].
  split; [constructor; [by constructor|constructor]|by constructor].
Qed.

(** What is prepared of a commit: the store with its batch, and the specification. *)
Record Prepares (r0 : RocksDB DB) (st : BatchState) (c : ACommit) : Prop := mkPrepares {
  pr_inv : Inv (bs_store st) (cm_state c);
  pr_written : Forall2 written (cm_writes c) (bs_batch st);
  pr_ok : Forall writeOk (cm_writes c);
  pr_events : bs_events st = cm_events c;
  pr_pending : pending (bs_store st) = setTxnResults (pending r0) (cm_answers c ∪ pendingTxnResults (pending r0));
  pr_frame : raftNode (bs_store st) = raftNode r0 /\ nodeID (bs_store st) = nodeID r0;
}.

Lemma prepares_extend r0 st c r1 a ws dws evs :
  Prepares r0 st c -> Inv r1 a -> frame (bs_store st) r1 -> Forall2 written ws dws -> Forall writeOk ws ->
  Prepares r0 (mkBatchState r1 (bs_batch st ++ dws) (bs_events st ++ evs)) (extend c a ws evs).
Proof.
  intros [HI Hw Hok He Hp [Hn Hid]] HI1 (Hf1 & Hf2 & Hf3) Hws Hoks. constructor; cbn [bs_store bs_batch bs_events extend cm_state cm_writes cm_events cm_answers].
  - done.
  - by apply Forall2_app.
  - by apply Forall_app.
  - by rewrite He.
  - by rewrite Hf1.
  - by rewrite Hf2, Hf3.
Qed.

End refine.

(** ** Encodings for concrete runs

    Leases and snapshots are written as the binary digits of a number, which is
    total and satisfies the laws the store relies on; this [gob] decodes nothing
    but snapshots, as the binary records are not gob streams. *)

Fixpoint digits (p : positive) : string :=
  match p with xH => "1" | xO p => String "0" (digits p) | xI p => String "+" (digits p) end.

Fixpoint undigits (s : string) : option positive :=
  match s with
  | "" => None
  | String c s' =>
      if Ascii.eqb c "1" then match s' with "" => Some xH | _ => None end
      else if Ascii.eqb c "0" then xO <$> undigits s'
      else if Ascii.eqb c "+" then xI <$> undigits s' else None
  end.

Lemma undigits_digits p : undigits (digits p) = Some p.
Proof. by induction p as [p IH|p IH|]; cbn; rewrite ?IH. Qed.

#[global] Instance pbLease_dec : EqDecision pbLease.
Proof. solve_decision. Defined.

#[global] Instance pbLease_countable : Countable pbLease.
Proof.
  refine (inj_countable' (fun l => (pbl_Id l, pbl_Ttl l, pbl_GrantTimeUnixNano l, pbl_Keys l))
    (fun '(id, ttl, t, keys) => mkPbLease id ttl t keys) _).
  abstract (by intros []).
Defined.

#[global, refine] Instance leaseDigits : ProtoWire pbLease := {
  proto_marshal l := Some (digits (encode l));
  proto_unmarshal s := match s with "" => Some (mkPbLease 0 0 0 []) | _ => p ← undigits s; decode p end;
  proto_zero := mkPbLease 0 0 0 [];
}.
Proof.
  - intros a b [= <-]. pose proof (undigits_digits (encode a)) as Hd.
    destruct (digits (encode a)) as [|c s] eqn:E; [done|]. rewrite Hd. cbn. apply decode_encode.
  - done.
Defined.

#[global, refine] Instance leaseNoText : TextWire LeaseInfo := {
  text_marshal _ := None; text_unmarshal _ := None; text_exact _ := False;
}.
Proof. all: done. Defined.

Lemma digits_storable : LeaseStorable true (fun _ => True).
Proof.
  intros l [Ht Hk]. unfold SerializeLease. cbn [proto_marshal leaseDigits]. eexists. split; [done|].
  apply (lease_wire true); [|done|done]. split; [done|]. intros k b Hb. by destruct (Hk k b Hb).
Qed.
#[global] Existing Instance digits_storable.

#[global, refine] Instance snapshotGob : Gob := {
  gob_kv _ := None;
  gob_int64 _ := None;
  gob_legacy _ := None;
  gob_encode_map m := digits (encode m);
  gob_decode_map s := p ← undigits s; decode p;
}.
Proof. intros m. rewrite undigits_digits. cbn. apply decode_encode. Defined.

(** An open store on an empty database. *)
Definition noPending : Pending := mkPending ∅ ∅ 0 0 ∅ [].
Definition exStore : RocksDB MemDB := mkRocksDB emptyDB 0 ∅ noPending None 0.
Definition emptyState : State := mkState ∅ ∅ 0 ∅.

Lemma exStore_Inv : Inv (goodKey := fun _ => True) exStore emptyState.
Proof. by constructor. Qed.

Definition putCmd (key value : string) (lease : Z) : RaftOperation := mkRaftOperation TPut key value lease "" "" 0 [] [] [].
Definition deleteCmd (key rangeEnd : string) : RaftOperation := mkRaftOperation TDelete key "" 0 rangeEnd "" 0 [] [] [].
Definition grantCmd (id ttl : Z) : RaftOperation := mkRaftOperation TLeaseGrant "" "" id "" "" ttl [] [] [].
Definition revokeCmd (id : Z) : RaftOperation := mkRaftOperation TLeaseRevoke "" "" id "" "" 0 [] [] [].
