(* ===== verification/RocksEtcdTheorems.v ===== *)
(** * Properties of the RocksDB state machine

    The store, driven by any sequence of committed operations and client reads,
    behaves as the abstract store of [RocksEtcdSpec]; then the round trips of its
    encodings and snapshots, and what a restart and a range do. *)

From stdpp Require Import pretty.
From S2P Require Import Prelude GoBytes KvTypes ShardedMap MemoryEtcd BatchApply RaftCodec OrderedTree ByteDB RocksCodec RocksEtcd RocksRaft RocksEtcdSpec RocksEtcdRefine.

(** ** Commands

    A commit of any number of operations, each paired with the clock it reads, and
    the calls that are answered from the state. *)

Inductive Command :=
  | CCommit (ops : list (Z * RaftOperation))
  | CRange (key rangeEnd : string) (limit rev : Z)
  | CLookup (key : string)
  | CWatch (key rangeEnd : string) (startRevision watchID : Z) (opts : option WatchOptions)
  | CCancel (watchID : Z)
  | CRenew (now id : Z)
  | CTimeToLive (id : Z).

Inductive Output :=
  | OCommit (answers : list (option TxnResponse))
  | ORange (resp : RangeResponse)
  | OLookup (value : string) (found : bool)
  | OWatch (res : result RocksError bool)
  | OCancel (res : result RocksError unit)
  | ORenew (res : result RocksError LeaseInfo)
  | OLease (res : result RocksError (option LeaseInfo)).

(** The sequence number under which a transaction leaves its answer. *)
Definition answerSeq (op : RaftOperation) : option string :=
  if decide (ro_Type op = TTxn /\ ro_SeqNum op <> "") then Some (ro_SeqNum op) else None.

Section commands.
Context {DB : Type} `{!ByteDB DB, !ByteDBLaws DB, !MapOrder, !ProtoWire pbLease, !TextWire LeaseInfo, !Gob}.
Context {pb : bool} {goodKey : string -> Prop} `{!LeaseStorable pb goodKey}.

Definition exec (r : RocksDB DB) (c : Command) : option (RocksDB DB * Output) :=
  match c with
  | CCommit ops =>
      r1 ← applyOperationsBatch pb r ops;
      Some (r1, OCommit ((fun p => seq ← answerSeq p.2; pendingTxnResults (pending r1) !! seq) <$> ops))
  | CRange key rangeEnd limit rev => '(resp, _) ← Range r key rangeEnd limit rev; Some (r, ORange resp)
  | CLookup key => '(value, found) ← Lookup r key; Some (r, OLookup value found)
  | CWatch key rangeEnd start id opts =>
      let '(r1, res) := WatchWithOptions r key rangeEnd start id opts in Some (r1, OWatch res)
  | CCancel id => let '(r1, res) := CancelWatch r id in Some (r1, OCancel res)
  | CRenew now id => let '(r1, res) := LeaseRenew pb now r id in Some (r1, ORenew res)
  | CTimeToLive id => Some (r, OLease (LeaseTimeToLive r id))
  end.

Fixpoint execAll (r : RocksDB DB) (cs : list Command) : option (RocksDB DB * list Output) :=
  match cs with
  | [] => Some (r, [])
  | c :: cs' => '(r1, o) ← exec r c; '(r2, os) ← execAll r1 cs'; Some (r2, o :: os)
  end.

(** The same commands on the abstract store. *)
Definition aExec (a : State) (c : Command) : State * Output :=
  match c with
  | CCommit ops =>
      let '(a1, answers) := aCommit a ops in (a1, OCommit ((fun p => seq ← answerSeq p.2; answers !! seq) <$> ops))
  | CRange key rangeEnd limit _ =>
      let kvs := aRange a key rangeEnd limit in (a, ORange (mkRangeResponse kvs false (Z.of_nat (length kvs)) (a_rev a)))
  | CLookup key => (a, match a_kvs a !! key with Some kv => OLookup (Value kv) true | None => OLookup "" false end)
  | CWatch key rangeEnd start id opts =>
      match a_subs a !! id with
      | Some _ => (a, OWatch (Err (EWatchExists id)))
      | None =>
          let o := default (mkWatchOptions false false [] false) opts in
          let sub := mkWatch id key rangeEnd start [] [] false (wo_PrevKV o) (wo_ProgressNotify o) (wo_Filters o) (wo_Fragment o) in
          (mkState (a_kvs a) (a_leases a) (a_rev a) (<[id := sub]> (a_subs a)), OWatch (Ok ((start >? 0) && (start <? a_rev a))))
      end
  | CCancel id =>
      match a_subs a !! id with
      | None => (a, OCancel (Err (EWatchNotFound id)))
      | Some sub =>
          (if ws_closed sub then a else mkState (a_kvs a) (a_leases a) (a_rev a) (delete id (a_subs a)), OCancel (Ok tt))
      end
  | CRenew now id =>
      match a_leases a !! id with
      | None => (a, ORenew (Err (ENoLease id)))
      | Some l =>
          let l' := mkLease (l_ID l) (l_TTL l) now (l_Keys l) in
          (mkState (a_kvs a) (<[id := l']> (a_leases a)) (a_rev a) (a_subs a), ORenew (Ok l'))
      end
  | CTimeToLive id => (a, OLease (Ok (a_leases a !! id)))
  end.

Fixpoint aExecAll (a : State) (cs : list Command) : State * list Output :=
  match cs with
  | [] => (a, [])
  | c :: cs' => let '(a1, o) := aExec a c in let '(a2, os) := aExecAll a1 cs' in (a2, o :: os)
  end.

(** What the Go types and the encodings admit. *)
Definition opValid (op : RaftOperation) : Prop :=
  (ro_Type op = TPut -> sizesOk (ro_Key op) (ro_Value op) /\ is_i64 (ro_LeaseID op) /\ (ro_LeaseID op <> 0 -> goodKey (ro_Key op))) /\
  Forall (opOk (goodKey := goodKey)) (ro_ThenOps op) /\ Forall (opOk (goodKey := goodKey)) (ro_ElseOps op).

Definition opsValid (ops : list (Z * RaftOperation)) : Prop := Forall (fun p => is_i64 p.1 /\ opValid p.2) ops.

Definition commandValid (c : Command) : Prop :=
  match c with
  | CCommit ops => opsValid ops
  | CRenew now _ => is_i64 now
  | _ => True
  end.

(** ** Waiting clients *)

(** No two waiting clients share a channel and none waits on a closed one. *)
Definition pendingOk (p : Pending) : Prop :=
  (forall seq ch, pendingOps p !! seq = Some ch -> (ch < chans p)%nat /\ ch ∉ closedChans p) /\
  (forall s1 s2 ch, pendingOps p !! s1 = Some ch -> pendingOps p !! s2 = Some ch -> s1 = s2).

Lemma seqSignal_ok p seq : pendingOk p ->
  exists p1, signal p seq = Some p1 /\ pendingOk p1 /\ pendingTxnResults p1 = pendingTxnResults p /\
    pendingOps p1 = (if String.eqb seq "" then pendingOps p else delete seq (pendingOps p)).
Proof.
  intros [Hc Hinj]. unfold signal. destruct (String.eqb seq ""); [by exists p|].
  destruct (pendingOps p !! seq) as [ch|] eqn:E; [|exists p; split_and!; [done|done|done|by rewrite delete_id]].
  destruct (Hc _ _ E) as [Hlt Hn]. rewrite decide_False by done. eexists. split; [done|]. split; [|done]. split; cbn.
  - intros s c [Hne Hs]%lookup_delete_Some. destruct (Hc _ _ Hs). split; [done|]. intros [->%elem_of_singleton|]%elem_of_union; [|done].
    by apply Hne, (Hinj seq s ch).
  - intros s1 s2 c [_ ?]%lookup_delete_Some [_ ?]%lookup_delete_Some. by eapply Hinj.
Qed.

Lemma seqSignalAll_ok ss : forall p, pendingOk p ->
  exists p1, signalAll p ss = Some p1 /\ pendingOk p1 /\ pendingTxnResults p1 = pendingTxnResults p /\
    (forall s, s ∈ ss -> s <> "" -> pendingOps p1 !! s = None).
Proof.
  induction ss as [|seq ss IH]; intros p Hp; cbn [signalAll]; [exists p; split_and!; [done|done|done|set_solver]|].
  destruct (seqSignal_ok p seq Hp) as (p1 & -> & Hp1 & Ht1 & Ho1). cbn [mbind option_bind].
  destruct (IH p1 Hp1) as (p2 & E2 & Hp2 & Ht2 & Hs2). rewrite E2. exists p2. split_and!; [done|done|congruence|].
  intros s Hs Hne. apply elem_of_cons in Hs as [->|Hs]; [|by apply Hs2].
  assert (Hnone : pendingOps p1 !! seq = None).
  { rewrite Ho1. apply String.eqb_neq in Hne. rewrite Hne. apply lookup_delete_eq. }
  clear -E2 Hnone. revert p1 E2 Hnone. induction ss as [|s ss IH]; intros p1 E Hnone; cbn in E; [by injection E as <-|].
  destruct (signal p1 s) as [p3|] eqn:E3; [|done]. cbn in E. apply (IH p3); [done|]. unfold signal in E3.
  destruct (String.eqb s ""); [by injection E3 as <-|]. destruct (pendingOps p1 !! s); [|by injection E3 as <-].
  case_decide; [done|]. injection E3 as <-. cbn. rewrite lookup_delete. by case_decide.
Qed.

(** ** One commit *)

Lemma Inv_setPending (r : RocksDB DB) a p : Inv (goodKey := goodKey) r a -> Inv (goodKey := goodKey) (setPending r p) a.
Proof. intros []. by constructor. Qed.

Local Abbreviation prepares := (Prepares (goodKey := goodKey)).

Lemma prepare_put r0 st c now op :
  prepares r0 st c -> ro_Type op = TPut -> opValid op ->
  exists st1, prepareOp pb st now op = Some st1 /\ prepares r0 st1 (aPrepare now c op).
Proof.
  intros HP Et (Hv & _). destruct (Hv Et) as (Hs & Hl & Hk). unfold prepareOp, aPrepare. rewrite !decide_True by done.
  pose proof (pr_inv _ _ _ HP) as HI. set (a := cm_state c) in *. unfold preparePutBatch. rewrite (getKeyValue_ok _ a) by done.
  cbn [mbind option_bind orNil]. destruct (incrementRevision_ok _ a HI) as (r1 & -> & Hf & HI1 & _).
  destruct (leaseWrites_written (pb := pb) r1 (bump a) (ro_Key op) (ro_LeaseID op) HI1 Hk) as (ws & -> & Hws & Hoks).
  eexists. split; [done|]. cbn [prepared]. rewrite <- app_assoc. cbn [app].
  apply (prepares_extend r0 st c r1); [done|done|done|constructor; [constructor|exact Hws]|].
  constructor; [|exact Hoks]. apply nextKv_ok; [apply HI|done|done|apply wrap_i64_range].
Qed.

Lemma written_dels keys : Forall2 written (AwDelKv <$> keys) ((fun k => WDelete (kvKey k)) <$> keys).
Proof. induction keys as [|k keys IH]; [constructor|]. rewrite !fmap_cons. constructor; [constructor|exact IH]. Qed.

Lemma prepare_delete r0 st c now op :
  prepares r0 st c -> ro_Type op = TDelete ->
  exists st1, prepareOp pb st now op = Some st1 /\ prepares r0 st1 (aPrepare now c op).
Proof.
  intros HP Et. unfold prepareOp, aPrepare. rewrite Et. rewrite !decide_False by done. rewrite !decide_True by done.
  pose proof (pr_inv _ _ _ HP) as HI. set (a := cm_state c) in *. unfold prepareDeleteBatch.
  destruct (incrementRevision_ok _ a HI) as (r1 & -> & Hf & HI1 & _).
  assert (Hkeys : (if String.eqb (ro_RangeEnd op) "" then Some [ro_Key op]
    else collectUntil (kvKey (ro_RangeEnd op)) (db_seek (db r1) (kvKey (ro_Key op))).1) = Some (deletedKeys a (ro_Key op) (ro_RangeEnd op))).
  { unfold deletedKeys. destruct (String.eqb (ro_RangeEnd op) ""); [done|]. by rewrite (collect_ok _ _ _ _ HI1). }
  rewrite Hkeys. cbn [mbind option_bind]. rewrite (deleteEach_ok _ _ _ _ HI1). cbn [mbind option_bind prepared].
  eexists. split; [done|]. apply (prepares_extend r0 st c r1); [done|done|done| |].
  - apply written_dels.
  - apply Forall_fmap, Forall_true. done.
Qed.

Lemma prepare_lease r0 st c now op :
  prepares r0 st c -> is_i64 now -> ro_Type op = TLeaseGrant \/ ro_Type op = TLeaseRevoke ->
  exists st1, prepareOp pb st now op = Some st1 /\ prepares r0 st1 (aPrepare now c op).
Proof.
  intros HP Hn Et. pose proof (pr_inv _ _ _ HP) as HI. unfold prepareOp, aPrepare. destruct Et as [Et|Et]; rewrite Et.
  - repeat (rewrite decide_False by done). rewrite !decide_True by done. eexists. split; [done|]. unfold prepareLeaseGrantBatch.
    assert (Hl : leaseOk goodKey (mkLease (ro_LeaseID op) (ro_TTL op) now ∅)) by (split; [done|apply map_Forall_empty]).
    destruct (encodeLease_ok (pb := pb) _ Hl) as (data & -> & Hd). rewrite <- (app_nil_r (bs_events st)).
    apply (prepares_extend r0 st c (bs_store st)); [done|done|done| |by constructor].
    constructor; [by constructor|constructor].
  - repeat (rewrite decide_False by done). rewrite !decide_True by done. eexists. split; [done|]. unfold prepareLeaseRevokeBatch, revokeWrites.
    rewrite (getLease_ok _ _ _ HI). rewrite <- (app_nil_r (bs_events st)).
    destruct (a_leases (cm_state c) !! ro_LeaseID op) as [l|].
    + apply (prepares_extend r0 st c (bs_store st)); [done|done|done| |].
      * apply Forall2_app; [apply written_dels|]. constructor; [apply written_delLease|constructor].
      * apply Forall_app. split; [|by repeat constructor]. apply Forall_fmap, Forall_true. done.
    + rewrite <- (app_nil_r (bs_batch st)). by apply (prepares_extend r0 st c (bs_store st)).
Qed.

Lemma prepare_txn r0 st c now op :
  prepares r0 st c -> ro_Type op = TTxn -> opValid op ->
  exists st1, prepareOp pb st now op = Some st1 /\ prepares r0 st1 (aPrepare now c op).
Proof.
  intros HP Et (_ & Ht & He). unfold prepareOp, aPrepare. rewrite Et. repeat (rewrite decide_False by done). rewrite !decide_True by done.
  destruct HP as [HI Hw Hok Hev Hp Hfr].
  destruct (txn_ok (pb := pb) _ _ (ro_Compares op) _ _ HI Ht He) as (r1 & -> & (Hf1 & Hf2 & Hf3) & HI1). cbn [mbind option_bind].
  destruct (aTxn _ _ _ _) as [a1 resp]. cbn [fst snd] in *. eexists. split; [done|]. unfold keepTxn.
  destruct (String.eqb_spec (ro_SeqNum op) "") as [Heq|Hne]; constructor; cbn [bs_store bs_batch bs_events cm_state cm_writes cm_events cm_answers]; try done.
  - by rewrite Hf1.
  - by rewrite Hf2, Hf3.
  - by apply Inv_setPending.
  - cbn [pending setPending]. rewrite Hf1, Hp. unfold setTxnResults. cbn. by rewrite insert_union_l.
  - cbn. by rewrite Hf2, Hf3.
Qed.

Lemma prepare_ok r0 ops : forall st c, prepares r0 st c -> opsValid ops ->
  exists st1, prepareOps pb st ops = Some st1 /\ prepares r0 st1 (aPrepareAll c ops).
Proof.
  induction ops as [|[now op] ops IH]; intros st c HP Hv; [by exists st|]. apply Forall_cons in Hv as [[Hn Hv] Hvs].
  assert (Hone : exists st1, prepareOp pb st now op = Some st1 /\ prepares r0 st1 (aPrepare now c op)).
  { destruct (decide (ro_Type op = TPut)) as [|E1]; [by apply prepare_put|].
    destruct (decide (ro_Type op = TDelete)) as [|E2]; [by apply prepare_delete|].
    destruct (decide (ro_Type op = TLeaseGrant)) as [|E3]; [by apply prepare_lease; auto|].
    destruct (decide (ro_Type op = TLeaseRevoke)) as [|E4]; [by apply prepare_lease; auto|].
    destruct (decide (ro_Type op = TTxn)) as [|E5]; [by apply prepare_txn|].
    exists st. unfold prepareOp, aPrepare. by repeat (rewrite decide_False by done). }
  destruct Hone as (st1 & E & HP1). cbn [prepareOps]. rewrite E. cbn [mbind option_bind]. by apply IH.
Qed.

(** A commit does what the specification says and wakes its clients. *)
Lemma commit_ok r a ops :
  Inv (goodKey := goodKey) r a -> pendingOk (pending r) -> opsValid ops ->
  exists r1, applyOperationsBatch pb r ops = Some r1 /\ Inv (goodKey := goodKey) r1 (aCommit a ops).1 /\ pendingOk (pending r1) /\
    pendingTxnResults (pending r1) = (aCommit a ops).2 ∪ pendingTxnResults (pending r) /\
    (forall s, s ∈ seqs ops -> s <> "" -> pendingOps (pending r1) !! s = None).
Proof.
  intros HI Hp Hv. destruct ops as [|op0 ops0].
  { exists r. cbn. rewrite (left_id_L ∅ _). destruct a. split_and!; try done. set_solver. }
  unfold applyOperationsBatch. remember (op0 :: ops0) as ops eqn:Eops. clear op0 ops0 Eops.
  assert (HP : prepares r (mkBatchState r [] []) (startCommit a)).
  { constructor; try done; try constructor. cbn. rewrite (left_id_L ∅ _). by destruct (pending r). }
  destruct (prepare_ok r ops _ _ HP Hv) as (st & -> & [HI1 Hw Hok He Hpd Hfr]). cbn [mbind option_bind]. unfold aCommit.
  set (c := aPrepareAll (startCommit a) ops) in *. clearbody c. cbn [fst snd].
  destruct (writes_rep _ _ Hw _ _ _ (inv_kv _ _ HI1) (inv_lease _ _ HI1)) as [HK HL].
  destruct (writes_ok _ Hok _ _ (inv_kvs _ _ HI1) (inv_leases _ _ HI1)) as [HKo HLo].
  destruct (inv_write _ _ (bs_batch st) _ _ HI1 HK HL HKo HLo) as (r1 & -> & Hf & HI2 & _). unfold signalSeq.
  destruct (seqSignalAll_ok (seqs ops) (pending r1)) as (p & -> & Hp1 & Ht1 & Hgone).
  { rewrite (proj1 Hf), Hpd. destruct Hp. by constructor. }
  cbn [mbind option_bind].
  destruct (notify_ok (goodKey := goodKey) (bs_events st) (setPending r1 p) _ (Inv_setPending r1 _ p HI2)) as [HI3 Hf2].
  eexists. split; [done|]. rewrite (proj1 Hf2). cbn [pending setPending]. split_and!; [|done| |done].
  - unfold finishCommit. rewrite <- He. exact HI3.
  - rewrite Ht1, (proj1 Hf), Hpd. done.
Qed.

(** An answer is kept for every transaction of the commit that has a number. *)
Lemma commit_answers ops : forall c p seq, p ∈ ops -> answerSeq p.2 = Some seq ->
  is_Some (cm_answers (aPrepareAll c ops) !! seq).
Proof.
  assert (Hone : forall now op c seq, is_Some (cm_answers c !! seq) -> is_Some (cm_answers (aPrepare now c op) !! seq)).
  { intros now op c seq Hs. unfold aPrepare. repeat case_decide; try exact Hs.
    destruct (aTxn _ _ _ _). cbn. destruct (String.eqb _ ""); [exact Hs|]. rewrite lookup_insert. by case_decide. }
  assert (Hkeep : forall l c seq, is_Some (cm_answers c !! seq) -> is_Some (cm_answers (aPrepareAll c l) !! seq)).
  { induction l as [|[now op] l IH]; intros c seq Hs; [exact Hs|]. by apply IH, Hone. }
  induction ops as [|[now op] ops IH]; intros c p seq Hin Hs; [by apply elem_of_nil in Hin|].
  change (aPrepareAll c ((now, op) :: ops)) with (aPrepareAll (aPrepare now c op) ops).
  apply elem_of_cons in Hin as [->|Hin]; [|by eapply IH]. apply Hkeep. unfold answerSeq in Hs. case_decide as Ed; [|done].
  destruct Ed as [Ed Hne]. injection Hs as <-. cbn [fst snd] in *. unfold aPrepare. rewrite Ed. do 4 (rewrite decide_False by done).
  rewrite decide_True by done. destruct (aTxn _ _ _ _). cbn. apply String.eqb_neq in Hne. rewrite Hne, lookup_insert_eq. done.
Qed.

Lemma renew_ok r a now id :
  Inv (goodKey := goodKey) r a -> is_i64 now ->
  exists r1, LeaseRenew pb now r id = (r1, match a_leases a !! id with
                                           | None => Err (ENoLease id)
                                           | Some l => Ok (mkLease (l_ID l) (l_TTL l) now (l_Keys l))
                                           end) /\
    Inv (goodKey := goodKey) r1 (aExec a (CRenew now id)).1 /\ frame r r1.
Proof.
  intros HI Hn. unfold LeaseRenew, aExec. rewrite (getLease_ok r a) by done. destruct (a_leases a !! id) as [l|] eqn:E; [|by exists r].
  assert (Hl : leaseOk goodKey (mkLease (l_ID l) (l_TTL l) now (l_Keys l))) by (destruct (inv_leases _ _ HI _ _ E); done).
  destruct (encodeLease_ok (pb := pb) _ Hl) as (data & -> & Hd).
  destruct (inv_write r a [WPut (leaseKey id) data] (a_kvs a) (<[id := mkLease (l_ID l) (l_TTL l) now (l_Keys l)]> (a_leases a)) HI)
    as (r1 & -> & Hf & HI1 & _).
  - apply RepKv_other; [|apply HI]. intros k. apply kvKey_leaseKey.
  - by apply RepLease_insert, HI.
  - apply HI.
  - apply map_Forall_insert_2; [done|apply HI].
  - by exists r1.
Qed.

Lemma Inv_watches (r : RocksDB DB) a ws : Inv (goodKey := goodKey) r a ->
  Inv (goodKey := goodKey) (setWatches r ws) (mkState (a_kvs a) (a_leases a) (a_rev a) ws).
Proof. intros []. by constructor. Qed.

Lemma exec_ok r a c :
  Inv (goodKey := goodKey) r a -> pendingOk (pending r) -> commandValid c ->
  exists r1, exec r c = Some (r1, (aExec a c).2) /\ Inv (goodKey := goodKey) r1 (aExec a c).1 /\ pendingOk (pending r1).
Proof.
  intros HI Hp Hc. destruct c as [ops|key rangeEnd limit rev|key|key rangeEnd start id opts|id|now id|id]; cbn [exec].
  - destruct (commit_ok r a ops HI Hp Hc) as (r1 & -> & HI1 & Hp1 & Ht & _). cbn [mbind option_bind]. exists r1.
    cbn [aExec]. destruct (aCommit a ops) as [a1 answers] eqn:Ea. cbn [fst snd] in *. split_and!; [|done|done]. do 3 f_equal.
    apply list_fmap_ext. intros i p Hi. destruct (answerSeq p.2) as [seq|] eqn:Es; [|done]. cbn [mbind option_bind]. rewrite Ht.
    destruct (commit_answers ops (startCommit a) p seq (list_elem_of_lookup_2 _ _ _ Hi) Es) as [resp Hr].
    assert (Hans : answers !! seq = Some resp) by (by injection Ea as _ <-). rewrite Hans. by apply lookup_union_Some_l.
  - rewrite (Range_ok r a) by done. by exists r.
  - unfold Lookup. rewrite (getKeyValue_ok r a) by done. cbn [mbind option_bind orNil aExec fst snd].
    exists r. by destruct (a_kvs a !! key).
  - unfold WatchWithOptions, CurrentRevision. rewrite (inv_subs _ _ HI), (inv_rev _ _ HI). cbn [aExec].
    destruct (a_subs a !! id); [by exists r|]. eexists. split; [done|]. split; [|done]. by apply Inv_watches.
  - unfold CancelWatch. rewrite (inv_subs _ _ HI). cbn [aExec]. destruct (a_subs a !! id) as [sub|]; [|by exists r].
    destruct (ws_closed sub); [by exists r|]. eexists. split; [done|]. split; [|done]. by apply Inv_watches.
  - destruct (renew_ok r a now id HI Hc) as (r1 & -> & HI1 & Hf). exists r1. split_and!; [|done|by rewrite (proj1 Hf)].
    cbn [aExec]. by destruct (a_leases a !! id).
  - unfold LeaseTimeToLive. rewrite (getLease_ok r a) by done. by exists r.
Qed.

Lemma execAll_ok cs : forall r a,
  Inv (goodKey := goodKey) r a -> pendingOk (pending r) -> Forall commandValid cs ->
  exists r1, execAll r cs = Some (r1, (aExecAll a cs).2) /\ Inv (goodKey := goodKey) r1 (aExecAll a cs).1 /\ pendingOk (pending r1).
Proof.
  induction cs as [|c cs IH]; intros r a HI Hp Hcs; [by exists r|]. apply Forall_cons in Hcs as [Hc Hcs]. cbn [execAll aExecAll].
  destruct (exec_ok r a c HI Hp Hc) as (r1 & -> & HI1 & Hp1). cbn [mbind option_bind].
  destruct (IH _ _ HI1 Hp1 Hcs) as (r2 & -> & HI2 & Hp2). cbn [mbind option_bind].
  destruct (aExec a c) as [a1 o]. cbn [fst snd] in *. destruct (aExecAll a1 cs) as [a2 os]. by exists r2.
Qed.

End commands.

(** ** The contract of the store *)

Lemma NewRocksDB_empty `{ByteDBLaws DB, !MapOrder, !Gob} {P : string -> Prop} `{!ProtoWire pbLease, !TextWire LeaseInfo} (d : DB) :
  healthy d -> contents d = ∅ ->
  NewRocksDB d NoSnapshot = Some (mkRocksDB d 0 ∅ noPending None 0) /\
  Inv (goodKey := P) (mkRocksDB d 0 ∅ noPending None 0) emptyState.
Proof.
  intros Hh Hc. split.
  - unfold NewRocksDB. cbn [reload mbind option_bind]. unfold loadCurrentRevision. cbn [db].
    rewrite db_get_healthy by done. by rewrite Hc.
  - constructor; try done; intros k; cbn [db]; by rewrite Hc.
Qed.

Lemma noPending_ok : pendingOk noPending.
Proof. split; cbn; intros *; by rewrite ?lookup_empty. Qed.

(** C4: A store opened on an empty, working database answers every sequence of
    commits (of any number of puts, single and range deletions, lease grants and
    revocations and transactions) and of client calls (ranges, lookups, watches and
    their cancellation, lease renewals and queries) as the abstract store does, and
    the process never ends.  Keys and values put are shorter than 4 GiB, keys put
    with a lease are such that the lease encoding can write them, and the clock
    stays in 64 bits. *)
Theorem rocks_etcd_refines `{ByteDBLaws DB, !MapOrder, !ProtoWire pbLease, !TextWire LeaseInfo, !Gob} (pb : bool)
    (goodKey : string -> Prop) `{!LeaseStorable pb goodKey} (d : DB) (cs : list Command) :
  healthy d -> contents d = ∅ -> Forall (commandValid (goodKey := goodKey)) cs ->
  exists r0 r, NewRocksDB d NoSnapshot = Some r0 /\
    execAll (pb := pb) r0 cs = Some (r, (aExecAll emptyState cs).2) /\
    CurrentRevision r = a_rev (aExecAll emptyState cs).1.
Proof.
  intros Hh Hc Hcs. destruct (NewRocksDB_empty (P := goodKey) d Hh Hc) as [Hnew HI].
  destruct (execAll_ok (pb := pb) cs _ _ HI noPending_ok Hcs) as (r & Hr & HI' & _).
  exists (mkRocksDB d 0 ∅ noPending None 0), r. split_and!; [done|done|apply HI'].
Qed.

Definition demoCommands : list Command :=
  [CCommit [(5, grantCmd 7 60)]; CWatch "a" nulKey 0 1 None; CCommit [(6, putCmd "a" "1" 7); (6, putCmd "b" "2" 0); (6, putCmd "a" "3" 0)];
   CCommit [(7, mkRaftOperation TTxn "" "" 0 "" "seq-1" 0 [] [mkOp OpDelete "b" "" "" 0 0; mkOp OpRange "a" nulKey "" 1 0] []);
            (7, deleteCmd "c" "d")];
   CCommit [(8, revokeCmd 7)]; CRange "a" nulKey 0 0; CTimeToLive 7].

Lemma demoCommands_valid : Forall (commandValid (goodKey := fun _ => True)) demoCommands.
Proof.
  unfold demoCommands. repeat constructor; cbn; try done; try (unfold_ints; lia); intros; try done; repeat split; try done; unfold_ints; lia.
Qed.

Lemma rocks_etcd_refines_witness :
  healthy emptyDB /\ contents emptyDB = ∅ /\
  exists r0 r, NewRocksDB emptyDB NoSnapshot = Some r0 /\
    execAll (pb := true) r0 demoCommands = Some (r, (aExecAll emptyState demoCommands).2) /\
    CurrentRevision r = a_rev (aExecAll emptyState demoCommands).1.
Proof.
  split; [by split|]. split; [done|].
  apply (rocks_etcd_refines true (fun _ => True) emptyDB demoCommands); [by split|done|exact demoCommands_valid].
Defined.

(** ** Records on disk *)

Lemma cut_extend n s t a b :
  cut n s = Some (a, b) -> cut n (s +:+ t) = Some (a, b +:+ t) /\ String.length s = (n + String.length b)%nat /\ String.length a = n.
Proof.
  unfold cut. destruct (Nat.leb_spec n (String.length s)) as [Hle|]; [|done]. intros Hab.
  pose proof (f_equal (fun o => fst <$> o) Hab) as Ha. pose proof (f_equal (fun o => snd <$> o) Hab) as Hb. cbn in Ha, Hb.
  apply Some_inj in Ha, Hb. subst a b. rewrite str_length_app. destruct (Nat.leb_spec n (String.length s + String.length t)); [|lia].
  pose proof (str_take_length n s Hle) as Hl. rewrite <- (str_take_drop n s) at 1 2. rewrite str_app_assoc.
  rewrite str_take_app_n, str_drop_app_n by done. split; [done|]. rewrite str_drop_length. lia.
Qed.

Lemma read_u32_extend s t z b : read_u32 s = Some (z, b) ->
  read_u32 (s +:+ t) = Some (z, b +:+ t) /\ String.length s = (4 + String.length b)%nat.
Proof.
  unfold read_u32. destruct (cut 4 s) as [[x y]|] eqn:E; cbn [mbind option_bind]; [|done]. intros [= <- <-].
  by destruct (cut_extend _ _ t _ _ E) as (-> & -> & _).
Qed.

Lemma read_i64_extend s t z b : read_i64 s = Some (z, b) ->
  read_i64 (s +:+ t) = Some (z, b +:+ t) /\ String.length s = (8 + String.length b)%nat.
Proof.
  unfold read_i64. destruct (cut 8 s) as [[x y]|] eqn:E; cbn [mbind option_bind]; [|done]. intros [= <- <-].
  by destruct (cut_extend _ _ t _ _ E) as (-> & -> & _).
Qed.

(** What the decoder reads is all there, and more bytes change nothing. *)
Lemma decodeKeyValue_extend s t kv :
  decodeKeyValue s = Some (Some kv) ->
  decodeKeyValue (s +:+ t) = Some (Some kv) /\ (40 + String.length (Key kv) + String.length (Value kv) <= String.length s)%nat.
Proof.
  unfold decodeKeyValue. destruct (Z.ltb_spec (str_len s) 8) as [|Hs]; [done|].
  destruct (Z.ltb_spec (str_len (s +:+ t)) 8) as [Ht|_]; [rewrite str_len_app in Ht; pose proof (str_len_nonneg t); lia|].
  destruct (read_u32 s) as [[kl s1]|] eqn:E1; cbn [mbind option_bind]; [|done].
  destruct (cut (Z.to_nat kl) s1) as [[k s2]|] eqn:E2; cbn [mbind option_bind]; [|done].
  destruct (read_u32 s2) as [[vl s3]|] eqn:E3; cbn [mbind option_bind]; [|done].
  destruct (cut (Z.to_nat vl) s3) as [[v s4]|] eqn:E4; cbn [mbind option_bind]; [|done].
  destruct (read_i64 s4) as [[c s5]|] eqn:E5; cbn [mbind option_bind]; [|done].
  destruct (read_i64 s5) as [[m s6]|] eqn:E6; cbn [mbind option_bind]; [|done].
  destruct (read_i64 s6) as [[n s7]|] eqn:E7; cbn [mbind option_bind]; [|done].
  destruct (read_i64 s7) as [[l s8]|] eqn:E8; cbn [mbind option_bind]; [|done].
  intros [= <-]. destruct (read_u32_extend _ t _ _ E1) as [-> L1]. cbn [mbind option_bind].
  destruct (cut_extend _ _ t _ _ E2) as (-> & L2 & K2). cbn [mbind option_bind].
  destruct (read_u32_extend _ t _ _ E3) as [-> L3]. cbn [mbind option_bind].
  destruct (cut_extend _ _ t _ _ E4) as (-> & L4 & K4). cbn [mbind option_bind].
  destruct (read_i64_extend _ t _ _ E5) as [-> L5]. destruct (read_i64_extend _ t _ _ E6) as [R6 L6].
  destruct (read_i64_extend _ t _ _ E7) as [R7 L7]. destruct (read_i64_extend _ t _ _ E8) as [R8 L8].
  cbn [mbind option_bind]. rewrite R6. cbn [mbind option_bind]. rewrite R7. cbn [mbind option_bind]. rewrite R8.
  split; [done|]. cbn [Key Value]. lia.
Qed.

Lemma encodeKeyValue_length kv : String.length (encodeKeyValue kv) = (40 + String.length (Key kv) + String.length (Value kv))%nat.
Proof. unfold encodeKeyValue, write_u32, write_i64. rewrite !str_length_app, !put_le_length. lia. Qed.

(** A record is read back as it was written; a piece of it that is cut off is
    no record: less than eight bytes are taken for a missing one, more of them make
    the decoder slice beyond their end. *)
Theorem record_roundtrip (kv : KeyValue) (n : nat) :
  kv_ok kv ->
  decodeKeyValue (encodeKeyValue kv) = Some (Some kv) /\
  ((n < String.length (encodeKeyValue kv))%nat ->
   decodeKeyValue (str_take n (encodeKeyValue kv)) = if (n <? 8)%nat then Some None else None).
Proof.
  intros Hkv. split; [by apply decodeKeyValue_encode|]. intros Hn. set (s := str_take n _).
  assert (Hs : String.length s = n) by (apply str_take_length; lia).
  destruct (decodeKeyValue s) as [[kv'|]|] eqn:E.
  - destruct (decodeKeyValue_extend s (str_drop n (encodeKeyValue kv)) kv' E) as [E' Hl]. unfold s in E'.
    rewrite str_take_drop, decodeKeyValue_encode in E' by done. injection E' as <-. rewrite encodeKeyValue_length in Hn. lia.
  - destruct (Nat.ltb_spec n 8); [done|]. unfold decodeKeyValue in E. destruct (Z.ltb_spec (str_len s) 8) as [Hl|_]; [unfold str_len in Hl; lia|].
    repeat match type of E with (?x ≫= _) = _ => destruct x as [[??]|]; cbn [mbind option_bind] in E; [|done] end. done.
  - destruct (Nat.ltb_spec n 8); [|done]. unfold decodeKeyValue in E. destruct (Z.ltb_spec (str_len s) 8) as [_|Hl]; [done|unfold str_len in Hl; lia].
Qed.

Lemma record_roundtrip_witness :
  kv_ok (mkKeyValue "k" "v" 1 2 3 4) /\
  decodeKeyValue (str_take 20 (encodeKeyValue (mkKeyValue "k" "v" 1 2 3 4))) = None.
Proof.
  assert (Hok : kv_ok (mkKeyValue "k" "v" 1 2 3 4)) by (repeat split; try done; unfold_ints; cbn; lia).
  split; [exact Hok|]. apply (proj2 (record_roundtrip (mkKeyValue "k" "v" 1 2 3 4) 20 Hok)). vm_compute. lia.
Defined.

(** ** Snapshots and restarts *)

Section restarts.
Context {DB : Type} `{!ByteDB DB, !ByteDBLaws DB, !MapOrder, !ProtoWire pbLease, !TextWire LeaseInfo, !Gob}.

Lemma snapshot_map (d : DB) : healthy d -> list_to_map (db_seek d "").1 = contents d.
Proof.
  intros Hh. rewrite db_seek_healthy by done. cbn [fst]. apply map_eq. intros k.
  assert (Hnd : NoDup (entries_from "" (contents d)).*1).
  { pose proof (entries_from_sorted "" (contents d)) as Hs. induction Hs as [|p l _ IH Hf]; [constructor|]. rewrite fmap_cons. apply NoDup_cons. split; [|done].
    intros Hin. apply list_elem_of_fmap in Hin as (q & Hq & Hin). rewrite Forall_forall in Hf. specialize (Hf q Hin). cbn in Hf. by rewrite Hq, str_ltb_irrefl in Hf. }
  destruct (contents d !! k) as [v|] eqn:E.
  - apply elem_of_list_to_map_1; [done|]. apply elem_of_entries_from. split; [done|].
    destruct k; done.
  - apply not_elem_of_list_to_map_1. intros Hk. apply list_elem_of_fmap in Hk as ([k' v'] & -> & Hin). apply elem_of_entries_from in Hin as [Hin _]. cbn in E. congruence.
Qed.

(** Replacing all entries of a map. *)
Lemma apply_replace (m m' : gmap string string) l :
  (forall k, k ∈ l.*1 <-> is_Some (m !! k)) ->
  apply_batch (((fun p : string * string => WDelete p.1) <$> l) ++ ((fun p => WPut p.1 p.2) <$> range_map m')) m = m'.
Proof.
  intros Hl. apply map_eq. intros k. rewrite apply_batch_lookup, last_write_app.
  destruct (last_write ((fun p => WPut p.1 p.2) <$> range_map m') k) as [w|] eqn:E.
  - apply last_such_Some in E as [Hin Hk]. apply list_elem_of_fmap in Hin as ([j v] & -> & Hin). cbn in *.
    apply String.eqb_eq in Hk as ->. by apply elem_of_range_map in Hin.
  - apply last_such_None in E. rewrite Forall_fmap, Forall_forall in E.
    assert (Hm' : m' !! k = None).
    { destruct (m' !! k) as [v|] eqn:Ek; [|done]. apply elem_of_range_map in Ek. specialize (E _ Ek). cbn in E. by rewrite String.eqb_refl in E. }
    rewrite Hm'. destruct (last_write (_ <$> l) k) as [w|] eqn:E2.
    + apply last_such_Some in E2 as [Hin _]. by apply list_elem_of_fmap in Hin as (p & -> & _).
    + destruct (m !! k) as [v|] eqn:Em; [|done]. exfalso. apply last_such_None in E2. rewrite Forall_fmap, Forall_forall in E2.
      pose proof (proj2 (Hl k) (mk_is_Some _ _ Em)) as Hin. apply list_elem_of_fmap in Hin as (p & -> & Hp). specialize (E2 p Hp). cbn in E2.
      by rewrite String.eqb_refl in E2.
Qed.

Lemma recover_ok (r : RocksDB DB) (m : gmap string string) :
  healthy (db r) ->
  exists d, recoverFromSnapshot r (gob_encode_map m) = (setDb r d, Ok tt) /\ healthy d /\ contents d = m.
Proof.
  intros Hh. unfold recoverFromSnapshot. rewrite gob_map_roundtrip.
  destruct (write_ok r (((fun p => WDelete p.1) <$> (db_seek (db r) "").1) ++ ((fun p => WPut p.1 p.2) <$> range_map m)) Hh) as (d & -> & Hd & Hc).
  exists d. split_and!; [done|done|]. rewrite Hc. apply apply_replace. intros k. rewrite db_seek_healthy by done. cbn [fst].
  rewrite list_elem_of_fmap. split.
  - intros ([k' v] & -> & Hin). apply elem_of_entries_from in Hin as [Hin _]. eauto.
  - intros [v Hk]. exists (k, v). split; [done|]. apply elem_of_entries_from. split; [done|]. by destruct k.
Qed.

End restarts.

(** A snapshot read by any other store replaces everything it had by what the
    first one has, so that both answer every query of records and leases alike; but
    the store goes on with the revision it had before. *)
Theorem rocks_snapshot_roundtrip `{ByteDBLaws DB, !MapOrder, !ProtoWire pbLease, !TextWire LeaseInfo, !Gob}
    {goodKey : string -> Prop} (r1 r2 : RocksDB DB) (a1 a2 : State) :
  Inv (goodKey := goodKey) r1 a1 -> Inv (goodKey := goodKey) r2 a2 ->
  exists r, reload r2 (Loaded_ (GetSnapshot r1)) = Some r /\
    (forall key rangeEnd limit, rangeKvs r key rangeEnd limit = rangeKvs r1 key rangeEnd limit) /\
    (forall id, getLease r id = getLease r1 id) /\
    CurrentRevision r = CurrentRevision r2 /\ watches r = watches r2.
Proof.
  intros HI1 HI2. unfold reload, GetSnapshot. rewrite snapshot_map by apply HI1.
  destruct (recover_ok r2 (contents (db r1)) (inv_healthy _ _ HI2)) as (d & -> & Hd & Hc).
  exists (setDb r2 d). split; [done|].
  assert (HI : Inv (goodKey := goodKey) (setDb r2 d) (mkState (a_kvs a1) (a_leases a1) (a_rev a2) (a_subs a2))).
  { destruct HI1, HI2. constructor; cbn; rewrite ?Hc; done. }
  split_and!; [|intros id; by rewrite (getLease_ok _ _ id HI), (getLease_ok _ _ id HI1)|done|done].
  intros key rangeEnd limit. by rewrite (aRange_query _ _ _ _ _ HI), (aRange_query _ _ _ _ _ HI1).
Qed.

(** Two replicas: one that applied a put and a grant, one that did not. *)
Definition advanced : RocksDB MemDB := default exStore (fst <$> putUnlocked true exStore "k" "v" 0).

Lemma advanced_Inv : Inv (goodKey := fun _ => True) advanced (aPut emptyState "k" "v" 0).
Proof.
  destruct (put_ok (pb := true) (goodKey := fun _ => True) exStore emptyState "k" "v" 0 exStore_Inv) as (r & Hr & _ & HI);
    [split; done|unfold_ints; lia|done|]. unfold advanced. by rewrite Hr.
Qed.

Lemma rocks_snapshot_roundtrip_witness :
  exists r, reload exStore (Loaded_ (GetSnapshot advanced)) = Some r /\ rangeKvs r "k" "" 0 = rangeKvs advanced "k" "" 0 /\
    CurrentRevision r = 0 /\ CurrentRevision advanced = 1.
Proof.
  destruct (rocks_snapshot_roundtrip advanced exStore _ _ advanced_Inv exStore_Inv) as (r & Hr & Hk & _ & Hc & _).
  exists r. split_and!; [exact Hr|apply Hk|exact Hc|reflexivity].
Defined.

(** A store opened again on its own database starts at revision 0, as the
    bytes it stored are not what it decodes, and the next put of a key stores
    modification revision 1, however far the revision was. *)
Theorem rocks_restart_resets_revision `{ByteDBLaws DB, !MapOrder, !ProtoWire pbLease, !TextWire LeaseInfo, !Gob} (pb : bool)
    (goodKey : string -> Prop) `{!LeaseStorable pb goodKey} (r : RocksDB DB) (a : State) (key value : string) :
  Inv (goodKey := goodKey) r a -> contents (db r) !! revisionKey = Some (put_le 8 (wrap_u64 (a_rev a))) ->
  gob_int64 (put_le 8 (wrap_u64 (a_rev a))) = None -> sizesOk key value ->
  exists r0 r1 kv, NewRocksDB (db r) NoSnapshot = Some r0 /\ CurrentRevision r0 = 0 /\
    putUnlocked pb r0 key value 0 = Some (r1, Ok tt) /\ getKeyValue r1 key = Some (Ok (Some kv)) /\
    ModRevision kv = 1 /\ CreateRevision kv = match a_kvs a !! key with Some old => CreateRevision old | None => 1 end.
Proof.
  intros HI Hrev Hgob Hs. set (r0 := mkRocksDB (db r) 0 ∅ noPending None 0).
  assert (Hload : loadCurrentRevision r0 = 0).
  { unfold loadCurrentRevision, r0. cbn [db]. rewrite db_get_healthy by apply HI. unfold bytes_at. rewrite Hrev.
    change (default "" (Some ?x)) with x. rewrite Hgob. by case_match. }
  assert (HI0 : Inv (goodKey := goodKey) r0 (mkState (a_kvs a) (a_leases a) 0 ∅)) by (destruct HI; by constructor).
  destruct (put_ok (pb := pb) r0 _ key value 0 HI0 Hs) as (r1 & Hput & _ & HI1); [unfold_ints; lia|done|].
  exists r0, r1, (nextKv (a_kvs a !! key) key value 0 1). split_and!; [|done|exact Hput| | |].
  - unfold NewRocksDB. cbn [reload mbind option_bind]. change (mkRocksDB (db r) 0 ∅ (mkPending ∅ ∅ 0 0 ∅ []) None 0) with r0. by rewrite Hload.
  - rewrite (getKeyValue_ok r1 _ key HI1). unfold aPut. cbn. by rewrite lookup_insert_eq.
  - by destruct (a_kvs a !! key).
  - by destruct (a_kvs a !! key).
Qed.

Lemma rocks_restart_resets_revision_witness :
  CurrentRevision advanced = 1 /\
  exists r0 r1 kv, NewRocksDB (db advanced) NoSnapshot = Some r0 /\ CurrentRevision r0 = 0 /\
    putUnlocked true r0 "j" "w" 0 = Some (r1, Ok tt) /\ getKeyValue r1 "j" = Some (Ok (Some kv)) /\
    ModRevision kv = 1 /\ CreateRevision kv = 1.
Proof.
  split; [reflexivity|].
  destruct (rocks_restart_resets_revision true (fun _ => True) advanced _ "j" "w" advanced_Inv (eq_refl : contents (db advanced) !! revisionKey = _)
    (eq_refl : gob_int64 (Gob := snapshotGob) _ = None) (conj eq_refl eq_refl))
    as (r0 & r1 & kv & H0 & H1 & H2 & H3 & H4 & H5).
  exists r0, r1, kv. by split_and!.
Defined.

(** ** What the answers leave out *)

(** With a limit, a range of more records than that answers exactly the limit
    of them, counts only those, and says that there are no more. *)
Theorem rocks_range_hides_more `{ByteDBLaws DB, !MapOrder, !ProtoWire pbLease, !TextWire LeaseInfo, !Gob}
    {goodKey : string -> Prop} (r : RocksDB DB) (a : State) (key rangeEnd : string) (limit rev : Z) :
  Inv (goodKey := goodKey) r a -> 0 < limit < Z.of_nat (length (aRecords a key rangeEnd)) ->
  exists reads, Range r key rangeEnd limit rev =
    Some (mkRangeResponse (take (Z.to_nat limit) (aRecords a key rangeEnd)) false limit (a_rev a), reads).
Proof.
  intros HI Hlim. rewrite (Range_ok r a) by done. exists (countRead r). unfold aRange. destruct (Z.gtb_spec limit 0); [|lia].
  do 3 f_equal. rewrite length_take. lia.
Qed.

Definition twice : RocksDB MemDB := default exStore (fst <$> putUnlocked true advanced "l" "w" 0).

Lemma twice_Inv : Inv (goodKey := fun _ => True) twice (aPut (aPut emptyState "k" "v" 0) "l" "w" 0).
Proof.
  destruct (put_ok (pb := true) (goodKey := fun _ => True) advanced _ "l" "w" 0 advanced_Inv) as (r & Hr & _ & HI);
    [split; done|unfold_ints; lia|done|]. unfold twice. by rewrite Hr.
Qed.

Lemma rocks_range_hides_more_witness :
  exists reads, Range twice "a" nulKey 1 0 = Some (mkRangeResponse [mkKeyValue "k" "v" 1 1 1 0] false 1 2, reads).
Proof.
  destruct (rocks_range_hides_more twice _ "a" nulKey 1 0 twice_Inv) as [reads Hr]; [vm_compute; done|].
  exists reads. rewrite Hr. vm_compute. reflexivity.
Defined.

(** A client's deletion of a range, when the records are not gob streams, is
    answered without a proposal: nothing deleted, whatever the range holds. *)
Theorem rocks_range_delete_refused `{ByteDBLaws DB, !MapOrder, !ProtoWire pbLease, !TextWire LeaseInfo, !Gob,
      !ProtoWire pbRaftOperation} {goodKey : string -> Prop} (r : RocksDB DB) (a : State) (key rangeEnd : string) (o : SendOutcome) :
  Inv (goodKey := goodKey) r a -> rangeEnd <> "" ->
  Forall (fun kv => gob_kv (encodeKeyValue kv) = None) (aRecords a key rangeEnd) ->
  exists c, DeleteRange r key rangeEnd = Some c /\ begin r c o = (r, inl (Ok (RepDelete 0 [] (a_rev a)))).
Proof.
  intros HI Hne Hgob. unfold DeleteRange. rewrite (deletedRecords_ok r a) by done. cbn [mbind option_bind]. eexists. split; [done|].
  apply String.eqb_neq in Hne. unfold aReported, aRecords in *. rewrite Hne in *.
  assert (Hnil : omap (fun kv => gob_kv (encodeKeyValue kv)) (entriesIn (a_kvs a) key rangeEnd) = []).
  { clear -Hgob. induction Hgob as [|kv l Hkv _ IH]; [done|]. cbn. by rewrite Hkv. }
  rewrite Hnil. unfold begin. cbn. unfold CurrentRevision. by rewrite (inv_rev _ _ HI).
Qed.

(** A [RaftOperation] nobody can encode: the call does not get that far. *)
#[local] Program Instance noOperations : ProtoWire pbRaftOperation := {
  proto_marshal _ := None; proto_unmarshal _ := Some (mkPbRaftOperation "" "" "" 0 "" "" 0 [] [] []);
  proto_zero := mkPbRaftOperation "" "" "" 0 "" "" 0 [] [] [];
}.
Next Obligation. done. Qed.
Next Obligation. done. Qed.

Lemma rocks_range_delete_refused_witness :
  aRecords (aPut emptyState "k" "v" 0) "a" nulKey = [mkKeyValue "k" "v" 1 1 1 0] /\
  exists c, DeleteRange advanced "a" nulKey = Some c /\ begin advanced c SendOk = (advanced, inl (Ok (RepDelete 0 [] 1))).
Proof.
  split; [vm_compute; reflexivity|].
  apply (rocks_range_delete_refused advanced _ "a" nulKey SendOk advanced_Inv); [done|]. apply Forall_true. done.
Defined.
