(* ===== verification/RocksBatch.v ===== *)
(** * Commits as one batch ([applyOperationsBatch] of [internal/rocksdb/kvstore.go])

    The operations of a commit are prepared against the database as it was before
    the commit and written together.  When none reads what an earlier one writes,
    that is the same as a commit for each of them; when one does, something is lost.
    A commit whose write fails leaves its clients waiting. *)

From stdpp Require Import pretty.
From S2P Require Import Prelude GoBytes KvTypes ShardedMap MemoryEtcd BatchApply RaftCodec OrderedTree ByteDB RocksCodec RocksEtcd RocksRaft RocksEtcdSpec RocksEtcdRefine RocksEtcdTheorems.

(** ** What an operation reads

    A put reads the record of its key and its lease, a deletion the records of its
    keys, a revocation its lease; a transaction may read anything. *)

Definition readsKey (op : RaftOperation) (k : string) : bool :=
  if decide (ro_Type op = TPut) then String.eqb k (ro_Key op)
  else if decide (ro_Type op = TDelete)
  then if String.eqb (ro_RangeEnd op) "" then String.eqb k (ro_Key op) else betweenKeys (ro_Key op) (ro_RangeEnd op) k
  else bool_decide (ro_Type op = TTxn).

Definition readsLease (op : RaftOperation) (id : Z) : bool :=
  if decide (ro_Type op = TPut) then negb (ro_LeaseID op =? 0) && (id =? ro_LeaseID op)
  else if decide (ro_Type op = TLeaseRevoke) then id =? ro_LeaseID op
  else bool_decide (ro_Type op = TTxn).

Definition readsWrite (op : RaftOperation) (w : AWrite) : bool :=
  match w with
  | AwSetKv k _ | AwDelKv k => readsKey op k
  | AwSetLease id _ | AwDelLease id => readsLease op id
  end.

Section spec.
Context `{!MapOrder, !Gob}.

(** No operation reads what an earlier one is going to write. *)
Fixpoint independentFrom (c : ACommit) (ops : list (Z * RaftOperation)) : bool :=
  match ops with
  | [] => true
  | (now, op) :: ops' => forallb (fun w => negb (readsWrite op w)) (cm_writes c) && independentFrom (aPrepare now c op) ops'
  end.

Definition independent (a : State) (ops : list (Z * RaftOperation)) : bool := independentFrom (startCommit a) ops.

(** A commit for each operation. *)
Fixpoint aEach (a : State) (ops : list (Z * RaftOperation)) : State * gmap string TxnResponse :=
  match ops with
  | [] => (a, ∅)
  | p :: ops' =>
      let '(a1, answers) := aCommit a [p] in
      let '(a2, answers') := aEach a1 ops' in
      (a2, answers' ∪ answers)
  end.

(** ** A commit of independent operations *)

Lemma kvs_unread op k : readsKey op k = true -> forall ws kvs, forallb (fun w => negb (readsWrite op w)) ws = true ->
  fold_left writeKv ws kvs !! k = kvs !! k.
Proof.
  intros Hk. induction ws as [|w ws IH]; intros kvs Hf; [done|]. cbn [forallb fold_left] in *. apply andb_true_iff in Hf as [Hw Hf].
  rewrite IH by done. destruct w as [k' kv|k'| |]; cbn in *; try done.
  - apply lookup_insert_ne. intros ->. by rewrite Hk in Hw.
  - apply lookup_delete_ne. intros ->. by rewrite Hk in Hw.
Qed.

Lemma leases_unread op id : readsLease op id = true -> forall ws ls, forallb (fun w => negb (readsWrite op w)) ws = true ->
  fold_left writeLease ws ls !! id = ls !! id.
Proof.
  intros Hk. induction ws as [|w ws IH]; intros ls Hf; [done|]. cbn [forallb fold_left] in *. apply andb_true_iff in Hf as [Hw Hf].
  rewrite IH by done. destruct w as [| |id' l|id']; cbn in *; try done.
  - apply lookup_insert_ne. intros ->. by rewrite Hk in Hw.
  - apply lookup_delete_ne. intros ->. by rewrite Hk in Hw.
Qed.

(** Nothing is published where nothing is written. *)
Definition quiet (c : ACommit) : Prop := cm_writes c = [] -> cm_events c = [].

Lemma quiet_extend c a ws evs : quiet c -> (ws = [] -> evs = []) -> quiet (extend c a ws evs).
Proof. intros Hq He. unfold quiet. cbn. intros [Hw ->]%app_eq_nil. by rewrite Hq, He. Qed.

Lemma quiet_prepare now c op : quiet c -> quiet (aPrepare now c op).
Proof.
  intros Hq. unfold aPrepare. repeat case_decide; try done; try (by apply quiet_extend).
  - apply quiet_extend; [done|]. by intros ->%fmap_nil_inv.
  - by destruct (aTxn _ _ _ _).
Qed.

Lemma finish_extend c ws evs : finishCommit (extend c (cm_state c) ws evs) =
  finishCommit (extend (startCommit (finishCommit c)) (finishCommit c) ws evs).
Proof. unfold finishCommit, publish, aWrites. cbn. by rewrite !fold_left_app. Qed.

Lemma finish_extend_bump c ws evs : finishCommit (extend c (bump (cm_state c)) ws evs) =
  finishCommit (extend (startCommit (finishCommit c)) (bump (finishCommit c)) ws evs).
Proof. unfold finishCommit, publish, aWrites, bump, nextRev. cbn. by rewrite !fold_left_app. Qed.

(** Two stores with the same records in a range delete the same. *)
Lemma deletedKeys_same a a' key rangeEnd :
  (forall k, (if String.eqb rangeEnd "" then String.eqb k key else betweenKeys key rangeEnd k) = true -> a_kvs a !! k = a_kvs a' !! k) ->
  deletedKeys a key rangeEnd = deletedKeys a' key rangeEnd /\
  omap (fun k => a_kvs a !! k) (deletedKeys a key rangeEnd) = omap (fun k => a_kvs a' !! k) (deletedKeys a' key rangeEnd).
Proof.
  intros Hk. unfold deletedKeys. destruct (String.eqb rangeEnd "").
  { split; [done|]. cbn. by rewrite (Hk key) by apply String.eqb_refl. }
  assert (Hf : filter (fun p : string * KeyValue => betweenKeys key rangeEnd p.1 = true) (a_kvs a) =
               filter (fun p : string * KeyValue => betweenKeys key rangeEnd p.1 = true) (a_kvs a')).
  { apply map_eq. intros k. rewrite !map_lookup_filter. destruct (betweenKeys key rangeEnd k) eqn:Ek.
    - by rewrite (Hk k Ek).
    - destruct (a_kvs a !! k), (a_kvs a' !! k); cbn; rewrite ?option_guard_False; cbn; congruence. }
  rewrite Hf. split; [done|]. set (l := sorted_entries _).
  assert (Hl : Forall (fun p : string * KeyValue => betweenKeys key rangeEnd p.1 = true) l).
  { apply Forall_forall. intros [k kv] Hin. unfold l in Hin. rewrite sorted_entries_perm, elem_of_map_to_list in Hin.
    by apply map_lookup_filter_Some in Hin as [_ ?]. }
  induction Hl as [|p l Hp _ IH]; [done|]. rewrite fmap_cons. cbn [omap list_omap]. rewrite (Hk p.1 Hp).
  destruct (a_kvs a' !! p.1); [by f_equal|done].
Qed.

Lemma prepare_independent now c op :
  quiet c -> forallb (fun w => negb (readsWrite op w)) (cm_writes c) = true ->
  finishCommit (aPrepare now c op) = (aCommit (finishCommit c) [(now, op)]).1 /\
  cm_answers (aPrepare now c op) = (aCommit (finishCommit c) [(now, op)]).2 ∪ cm_answers c.
Proof.
  intros Hq Hf. change (aCommit (finishCommit c) [(now, op)]) with
    (finishCommit (aPrepare now (startCommit (finishCommit c)) op), cm_answers (aPrepare now (startCommit (finishCommit c)) op)).
  cbn [fst snd]. unfold aPrepare. cbn [startCommit cm_state].
  assert (Hkv : forall k, readsKey op k = true -> a_kvs (finishCommit c) !! k = a_kvs (cm_state c) !! k) by (intros k Hk; by apply (kvs_unread op)).
  assert (Hls : forall id, readsLease op id = true -> a_leases (finishCommit c) !! id = a_leases (cm_state c) !! id) by (intros id Hid; by apply (leases_unread op)).
  unfold readsKey, readsLease in Hkv, Hls. unfold nextRev. change (a_rev (finishCommit c)) with (a_rev (cm_state c)).
  destruct (decide (ro_Type op = TPut)) as [E1|E1].
  { rewrite (Hkv (ro_Key op)) by apply String.eqb_refl.
    assert (Ha : attachWrites (finishCommit c) (ro_LeaseID op) (ro_Key op) = attachWrites (cm_state c) (ro_LeaseID op) (ro_Key op)).
    { unfold attachWrites. destruct (ro_LeaseID op =? 0) eqn:El; [done|]. by rewrite Hls by (by rewrite Z.eqb_refl). }
    rewrite Ha. split; [apply finish_extend_bump|cbn; by rewrite (left_id_L ∅ _)]. }
  destruct (decide (ro_Type op = TDelete)) as [E2|E2].
  { destruct (deletedKeys_same (finishCommit c) (cm_state c) (ro_Key op) (ro_RangeEnd op)) as [-> ->]; [exact Hkv|].
    split; [apply finish_extend_bump|cbn; by rewrite (left_id_L ∅ _)]. }
  destruct (decide (ro_Type op = TLeaseGrant)) as [E3|E3]; [split; [apply finish_extend|cbn; by rewrite (left_id_L ∅ _)]|].
  destruct (decide (ro_Type op = TLeaseRevoke)) as [E4|E4].
  { assert (Hr : revokeWrites (finishCommit c) (ro_LeaseID op) = revokeWrites (cm_state c) (ro_LeaseID op)).
    { unfold revokeWrites. by rewrite Hls by apply Z.eqb_refl. }
    rewrite Hr. split; [apply finish_extend|cbn; by rewrite (left_id_L ∅ _)]. }
  destruct (decide (ro_Type op = TTxn)) as [E5|E5].
  - assert (Hw : cm_writes c = []).
    { destruct (cm_writes c) as [|w ws]; [done|]. exfalso. cbn in Hf. apply andb_true_iff in Hf as [Hf _]. revert Hf.
      unfold readsWrite, readsKey, readsLease. rewrite E5. destruct w; cbn; done. }
    pose proof (Hq Hw) as He. assert (Hc : finishCommit c = cm_state c).
    { unfold finishCommit. rewrite Hw, He. by destruct (cm_state c). }
    rewrite Hc. destruct (aTxn _ _ _ _) as [a1 resp]. unfold finishCommit. cbn. rewrite Hw, He. split; [done|].
    destruct (String.eqb _ ""); [by rewrite (left_id_L ∅ _)|]. by rewrite <- insert_union_l, (left_id_L ∅ _).
  - split; [|cbn; by rewrite (left_id_L ∅ _)]. unfold finishCommit at 2. cbn. by destruct (finishCommit c).
Qed.

Lemma prepareAll_independent ops : forall c, quiet c -> independentFrom c ops = true ->
  finishCommit (aPrepareAll c ops) = (aEach (finishCommit c) ops).1 /\
  cm_answers (aPrepareAll c ops) = (aEach (finishCommit c) ops).2 ∪ cm_answers c.
Proof.
  induction ops as [|[now op] ops IH]; intros c Hq Hi; [cbn; by rewrite (left_id_L ∅ _)|].
  cbn [independentFrom] in Hi. apply andb_true_iff in Hi as [Hf Hi]. destruct (prepare_independent now c op Hq Hf) as [Hs Ha].
  destruct (IH _ (quiet_prepare now c op Hq) Hi) as [IHs IHa].
  change (aPrepareAll c ((now, op) :: ops)) with (aPrepareAll (aPrepare now c op) ops). rewrite IHs, IHa, Hs, Ha. cbn [aEach].
  destruct (aCommit (finishCommit c) [(now, op)]) as [a1 answers]. cbn [fst snd]. destruct (aEach a1 ops) as [a2 answers'].
  cbn. by rewrite (assoc_L (∪)).
Qed.

Lemma commit_independent a ops : independent a ops = true -> aCommit a ops = aEach a ops.
Proof.
  intros Hi. destruct (prepareAll_independent ops (startCommit a)) as [Hs Ha]; [done|done|]. unfold aCommit.
  assert (Hstart : finishCommit (startCommit a) = a) by (by destruct a). rewrite Hstart in Hs, Ha. rewrite Hs, Ha. cbn.
  rewrite (right_id_L ∅ _). by destruct (aEach a ops).
Qed.

End spec.

Section batch.
Context {DB : Type} `{!ByteDB DB, !ByteDBLaws DB, !MapOrder, !ProtoWire pbLease, !TextWire LeaseInfo, !Gob}.
Context {pb : bool} {goodKey : string -> Prop} `{!LeaseStorable pb goodKey}.

Local Abbreviation inv := (Inv (goodKey := goodKey)).

(** A commit for each operation. *)
Fixpoint applyEach (r : RocksDB DB) (ops : list (Z * RaftOperation)) : option (RocksDB DB) :=
  match ops with
  | [] => Some r
  | p :: ops' => r1 ← applyOperationsBatch pb r [p]; applyEach r1 ops'
  end.

Lemma applyEach_ok ops : forall r a, inv r a -> pendingOk (pending r) -> opsValid (goodKey := goodKey) ops ->
  exists r1, applyEach r ops = Some r1 /\ inv r1 (aEach a ops).1 /\ pendingOk (pending r1) /\
    pendingTxnResults (pending r1) = (aEach a ops).2 ∪ pendingTxnResults (pending r).
Proof.
  induction ops as [|p ops IH]; intros r a HI Hp Hv; [exists r; cbn; by rewrite (left_id_L ∅ _)|]. apply Forall_cons in Hv as [Hv Hvs].
  destruct (commit_ok (pb := pb) r a [p] HI Hp) as (r1 & E & HI1 & Hp1 & Ht1 & _); [by constructor|]. cbn [applyEach aEach]. rewrite E. cbn [mbind option_bind].
  destruct (IH _ _ HI1 Hp1 Hvs) as (r2 & E2 & HI2 & Hp2 & Ht2). exists r2. destruct (aCommit a [p]) as [a1 answers]. cbn [fst snd] in *.
  destruct (aEach a1 ops) as [a2 answers']. cbn [fst snd] in *. split_and!; try done. by rewrite Ht2, Ht1, (assoc_L (∪)).
Qed.

End batch.

(** ** Properties *)

(** C6: A commit of puts, deletions of keys and of ranges, grants, revocations and
    transactions of which none reads a record or a lease that an earlier one of the
    commit writes (a transaction, which may read anything, comes before everything
    that writes) leaves the store as a commit for each operation does, in their
    order: the same records, leases, revision and events to every watch, the same
    answers of transactions.  No client of the commit waits any more.  The database
    works, keys and values put are shorter than 4 GiB, keys put with a lease are such
    that the lease encoding can write them, and the clock stays in 64 bits. *)
Theorem rocks_batch_equals_sequence `{ByteDBLaws DB, !MapOrder, !ProtoWire pbLease, !TextWire LeaseInfo, !Gob} (pb : bool)
    (goodKey : string -> Prop) `{!LeaseStorable pb goodKey} (r : RocksDB DB) (a : State) (ops : list (Z * RaftOperation)) :
  Inv (goodKey := goodKey) r a -> pendingOk (pending r) -> opsValid (goodKey := goodKey) ops -> independent a ops = true ->
  exists r1 r2, applyOperationsBatch pb r ops = Some r1 /\ applyEach (pb := pb) r ops = Some r2 /\
    (forall key rangeEnd limit, rangeKvs r1 key rangeEnd limit = rangeKvs r2 key rangeEnd limit) /\
    (forall id, getLease r1 id = getLease r2 id) /\
    CurrentRevision r1 = CurrentRevision r2 /\ watches r1 = watches r2 /\
    pendingTxnResults (pending r1) = pendingTxnResults (pending r2) /\
    (forall s, s ∈ seqs ops -> s <> "" -> pendingOps (pending r1) !! s = None).
Proof.
  intros HI Hp Hv Hi.
  destruct (commit_ok (pb := pb) r a ops HI Hp Hv) as (r1 & E1 & HI1 & _ & Ht1 & Hgone).
  destruct (applyEach_ok (pb := pb) ops r a HI Hp Hv) as (r2 & E2 & HI2 & _ & Ht2).
  rewrite (commit_independent a ops Hi) in HI1, Ht1. exists r1, r2. split_and!; [done|done| | | | |by rewrite Ht1, Ht2|done].
  - intros. by rewrite (aRange_query _ _ _ _ _ HI1), (aRange_query _ _ _ _ _ HI2).
  - intros. by rewrite (getLease_ok _ _ _ HI1), (getLease_ok _ _ _ HI2).
  - unfold CurrentRevision. by rewrite (inv_rev _ _ HI1), (inv_rev _ _ HI2).
  - by rewrite (inv_subs _ _ HI1), (inv_subs _ _ HI2).
Qed.

Definition demoBatch : list (Z * RaftOperation) :=
  [(5, mkRaftOperation TTxn "" "" 0 "" "seq-1" 0 [] [mkOp OpPut "b" "2" "" 0 0] []); (5, putCmd "a" "1" 0); (5, grantCmd 7 60);
   (6, deleteCmd "b" "d"); (6, revokeCmd 8); (6, putCmd "d" "3" 9)].

Lemma demoBatch_valid : opsValid (goodKey := fun _ => True) demoBatch.
Proof. repeat constructor; cbn; try done; try (unfold_ints; lia); intros; repeat split; try done; unfold_ints; lia. Qed.

Lemma rocks_batch_equals_sequence_witness :
  exists r1 r2, applyOperationsBatch true exStore demoBatch = Some r1 /\ applyEach (pb := true) exStore demoBatch = Some r2 /\
    rangeKvs r1 "a" nulKey 0 = rangeKvs r2 "a" nulKey 0 /\ CurrentRevision r1 = CurrentRevision r2.
Proof.
  destruct (rocks_batch_equals_sequence true (fun _ => True) exStore emptyState demoBatch exStore_Inv noPending_ok demoBatch_valid)
    as (r1 & r2 & E1 & E2 & Hk & _ & Hc & _).
  - vm_compute. reflexivity.
  - exists r1, r2. split_and!; [exact E1|exact E2|apply Hk|exact Hc].
Defined.

Lemma putCmd_valid {goodKey : string -> Prop} key value lid : sizesOk key value -> is_i64 lid -> (lid <> 0 -> goodKey key) ->
  opValid (goodKey := goodKey) (putCmd key value lid).
Proof. intros Hs Hl Hk. split; [done|]. by split. Qed.

Lemma otherCmd_valid {goodKey : string -> Prop} op : ro_Type op <> TPut -> ro_ThenOps op = [] -> ro_ElseOps op = [] ->
  opValid (goodKey := goodKey) op.
Proof. intros Ht Hth Hel. split; [done|]. by rewrite Hth, Hel. Qed.

Section prepare.
Context `{!MapOrder, !Gob}.

Lemma aPrepare_put now c key value lid : aPrepare now c (putCmd key value lid) =
  let a := cm_state c in let kv := nextKv (a_kvs a !! key) key value lid (nextRev a) in
  extend c (bump a) (AwSetKv key kv :: attachWrites a lid key) [mkWatchEvent EventTypePut (Some kv) (a_kvs a !! key) (nextRev a)].
Proof. done. Qed.

Lemma aPrepare_delete now c key rangeEnd : aPrepare now c (deleteCmd key rangeEnd) =
  let a := cm_state c in let keys := deletedKeys a key rangeEnd in
  extend c (bump a) (AwDelKv <$> keys) (deleteEvent (nextRev a) <$> omap (fun k => a_kvs a !! k) keys).
Proof. done. Qed.

Lemma aPrepare_grant now c id ttl :
  aPrepare now c (grantCmd id ttl) = extend c (cm_state c) [AwSetLease id (mkLease id ttl now ∅)] [].
Proof. done. Qed.

Lemma aPrepare_revoke now c id : aPrepare now c (revokeCmd id) = extend c (cm_state c) (revokeWrites (cm_state c) id) [].
Proof. done. Qed.

(** The two puts of a key, in one commit and in two. *)
Lemma two_puts a n1 n2 key v1 v2 : a_kvs a !! key = None ->
  let ops := [(n1, putCmd key v1 0); (n2, putCmd key v2 0)] in
  let rev1 := nextRev a in
  let rev2 := wrap_i64 (rev1 + 1) in
  a_kvs (aCommit a ops).1 !! key = Some (mkKeyValue key v2 rev2 rev2 1 0) /\
  a_kvs (aEach a ops).1 !! key = Some (mkKeyValue key v2 rev1 rev2 2 0).
Proof.
  intros Hnone ops rev1 rev2. unfold ops, aCommit. cbn [aEach aPrepareAll fold_left fst snd]. unfold aCommit. cbn [aPrepareAll fold_left fst snd].
  rewrite !aPrepare_put. cbn -[wrap_i64]. by rewrite !lookup_insert_eq, Hnone.
Qed.

End prepare.

(** Two puts of a new key in one commit do not see each other: the record is
    left with version 1 and created at the second put, where one after the other
    they leave version 2, created at the first. *)
Theorem batch_puts_forget_each_other `{ByteDBLaws DB, !MapOrder, !ProtoWire pbLease, !TextWire LeaseInfo, !Gob} (pb : bool)
    (goodKey : string -> Prop) `{!LeaseStorable pb goodKey} (r : RocksDB DB) (a : State) (n1 n2 : Z) (key v1 v2 : string) :
  Inv (goodKey := goodKey) r a -> pendingOk (pending r) -> is_i64 n1 -> is_i64 n2 -> sizesOk key v1 -> sizesOk key v2 ->
  a_kvs a !! key = None ->
  let ops := [(n1, putCmd key v1 0); (n2, putCmd key v2 0)] in
  let rev1 := nextRev a in
  let rev2 := wrap_i64 (rev1 + 1) in
  exists r1 r2, applyOperationsBatch pb r ops = Some r1 /\ applyEach (pb := pb) r ops = Some r2 /\
    getKeyValue r1 key = Some (Ok (Some (mkKeyValue key v2 rev2 rev2 1 0))) /\
    getKeyValue r2 key = Some (Ok (Some (mkKeyValue key v2 rev1 rev2 2 0))).
Proof.
  intros HI Hp Hn1 Hn2 Hs1 Hs2 Hnone ops rev1 rev2.
  assert (Hv : opsValid (goodKey := goodKey) ops).
  { repeat (constructor; [split; [done|by apply putCmd_valid]|]). constructor. }
  destruct (commit_ok (pb := pb) r a ops HI Hp Hv) as (r1 & E1 & HI1 & _).
  destruct (applyEach_ok (pb := pb) ops r a HI Hp Hv) as (r2 & E2 & HI2 & _). exists r1, r2.
  rewrite (getKeyValue_ok _ _ _ HI1), (getKeyValue_ok _ _ _ HI2).
  destruct (two_puts a n1 n2 key v1 v2 Hnone) as [Hc He]. split_and!; [exact E1|exact E2| |]; 
    [exact (f_equal (fun o => Some (Ok o)) Hc)|exact (f_equal (fun o => Some (Ok o)) He)].
Qed.

Lemma batch_puts_forget_each_other_witness :
  exists r1 r2, applyOperationsBatch true exStore [(5, putCmd "k" "v" 0); (5, putCmd "k" "w" 0)] = Some r1 /\
    applyEach (pb := true) exStore [(5, putCmd "k" "v" 0); (5, putCmd "k" "w" 0)] = Some r2 /\
    getKeyValue r1 "k" = Some (Ok (Some (mkKeyValue "k" "w" 2 2 1 0))) /\
    getKeyValue r2 "k" = Some (Ok (Some (mkKeyValue "k" "w" 1 2 2 0))).
Proof.
  apply (batch_puts_forget_each_other true (fun _ => True) exStore emptyState 5 5 "k" "v" "w" exStore_Inv noPending_ok);
    try done; unfold_ints; lia.
Defined.

(** A put in the commit that grants its lease does not find it: the record
    names the lease, but the lease has no keys, and revoking it leaves the record. *)
Theorem batch_put_misses_grant `{ByteDBLaws DB, !MapOrder, !ProtoWire pbLease, !TextWire LeaseInfo, !Gob} (pb : bool)
    (goodKey : string -> Prop) `{!LeaseStorable pb goodKey} (r : RocksDB DB) (a : State) (n1 n2 n3 id ttl : Z) (key value : string) :
  Inv (goodKey := goodKey) r a -> pendingOk (pending r) -> is_i64 n1 -> is_i64 n2 -> is_i64 n3 -> id <> 0 -> is_i64 id ->
  sizesOk key value -> goodKey key -> a_leases a !! id = None ->
  exists r1 r2 kv, applyOperationsBatch pb r [(n1, grantCmd id ttl); (n2, putCmd key value id)] = Some r1 /\
    getLease r1 id = Ok (Some (mkLease id ttl n1 ∅)) /\
    applyOperationsBatch pb r1 [(n3, revokeCmd id)] = Some r2 /\
    getKeyValue r2 key = Some (Ok (Some kv)) /\ Value kv = value /\ Lease kv = id.
Proof.
  intros HI Hp Hn1 Hn2 Hn3 Hid Hi64 Hs Hk Hnone.
  assert (Hv1 : opsValid (goodKey := goodKey) [(n1, grantCmd id ttl); (n2, putCmd key value id)]) 
    by (constructor; [split; [done|by apply otherCmd_valid]|constructor; [split; [done|by apply putCmd_valid]|constructor]]).
  assert (Hv2 : opsValid (goodKey := goodKey) [(n3, revokeCmd id)]) by (constructor; [split; [done|by apply otherCmd_valid]|constructor]).
  destruct (commit_ok (pb := pb) r a _ HI Hp Hv1) as (r1 & E1 & HI1 & Hp1 & _).
  destruct (commit_ok (pb := pb) r1 _ _ HI1 Hp1 Hv2) as (r2 & E2 & HI2 & _).
  set (kv := nextKv (a_kvs a !! key) key value id (nextRev a)).
  assert (Ha : a_kvs (aCommit a [(n1, grantCmd id ttl); (n2, putCmd key value id)]).1 = <[key := kv]> (a_kvs a) /\
    a_leases (aCommit a [(n1, grantCmd id ttl); (n2, putCmd key value id)]).1 = <[id := mkLease id ttl n1 ∅]> (a_leases a)).
  { unfold aCommit. cbn [aPrepareAll fold_left fst snd]. rewrite aPrepare_grant, aPrepare_put. cbn.
    unfold attachWrites. apply Z.eqb_neq in Hid. cbn. rewrite Hid, Hnone. done. }
  destruct (aCommit a _) as [a1 answers]. cbn [fst] in *. destruct Ha as [Hak Hal].
  exists r1, r2, kv. split_and!; [exact E1| |exact E2| | |].
  - by rewrite (getLease_ok _ _ _ HI1), Hal, lookup_insert_eq.
  - rewrite (getKeyValue_ok _ _ _ HI2). unfold aCommit. cbn [aPrepareAll fold_left fst snd].
    rewrite aPrepare_revoke. cbn. unfold revokeWrites. rewrite Hal, lookup_insert_eq.
    pose proof (range_map_perm (V := bool) ∅) as Hperm. rewrite map_to_list_empty in Hperm. apply Permutation_nil_r in Hperm.
    cbn [l_Keys]. rewrite Hperm. cbn. by rewrite Hak, lookup_insert_eq.
  - unfold kv. by destruct (a_kvs a !! key).
  - unfold kv. by destruct (a_kvs a !! key).
Qed.

Lemma batch_put_misses_grant_witness :
  exists r1 r2 kv, applyOperationsBatch true exStore [(5, grantCmd 7 60); (5, putCmd "k" "v" 7)] = Some r1 /\
    getLease r1 7 = Ok (Some (mkLease 7 60 5 ∅)) /\
    applyOperationsBatch true r1 [(6, revokeCmd 7)] = Some r2 /\
    getKeyValue r2 "k" = Some (Ok (Some kv)) /\ Value kv = "v" /\ Lease kv = 7.
Proof.
  apply (batch_put_misses_grant true (fun _ => True) exStore emptyState 5 5 6 7 60 "k" "v" exStore_Inv noPending_ok); try done; unfold_ints; lia.
Defined.

Lemma str_ltb_nul k : str_ltb k nulKey = true -> k = "".
Proof.
  destruct k as [|c k]; [done|]. unfold str_ltb, String.ltb. cbn. rewrite ascii_compare_val. pose proof (byte_val_range c).
  change (byte_val Ascii.zero) with 0. destruct (Z.compare_spec (byte_val c) 0); [|lia|done]. by destruct k.
Qed.

(** A commit of a deletion of all keys from a key on deletes nothing and
    costs a revision, whatever the store holds. *)
Theorem batch_delete_from_key_deletes_nothing `{ByteDBLaws DB, !MapOrder, !ProtoWire pbLease, !TextWire LeaseInfo, !Gob} (pb : bool)
    (goodKey : string -> Prop) `{!LeaseStorable pb goodKey} (r : RocksDB DB) (a : State) (now : Z) (key : string) :
  Inv (goodKey := goodKey) r a -> pendingOk (pending r) -> is_i64 now -> key <> "" ->
  exists r1, applyOperationsBatch pb r [(now, deleteCmd key nulKey)] = Some r1 /\
    (forall k rangeEnd limit, rangeKvs r1 k rangeEnd limit = rangeKvs r k rangeEnd limit) /\
    CurrentRevision r1 = wrap_i64 (CurrentRevision r + 1) /\ watches r1 = watches r.
Proof.
  intros HI Hp Hn Hne. destruct (commit_ok (pb := pb) r a [(now, deleteCmd key nulKey)] HI Hp) as (r1 & E1 & HI1 & _);
    [constructor; [split; [done|by apply otherCmd_valid]|constructor]|].
  assert (Hnil : deletedKeys a key nulKey = []).
  { unfold deletedKeys. change (String.eqb nulKey "") with false. cbn match. set (m := filter _ _). enough (m = ∅) as -> by (vm_compute; done).
    apply map_empty. intros k. unfold m. rewrite map_lookup_filter. destruct (a_kvs a !! k) as [kv|]; [|done]. cbn.
    rewrite option_guard_False; [done|]. unfold betweenKeys. intros [Hge Hlt]%andb_true_iff. cbn in *. apply str_ltb_nul in Hlt as ->. by destruct key. }
  assert (Ha : (aCommit a [(now, deleteCmd key nulKey)]).1 = bump a).
  { unfold aCommit. cbn [aPrepareAll fold_left fst snd]. rewrite aPrepare_delete. cbn zeta. cbn [startCommit cm_state].
    by rewrite Hnil. }
  rewrite Ha in HI1.
  exists r1. split_and!; [exact E1| | |].
  - intros k rangeEnd limit. by rewrite (aRange_query _ _ _ _ _ HI1), (aRange_query _ _ _ _ _ HI).
  - unfold CurrentRevision. by rewrite (inv_rev _ _ HI1), (inv_rev _ _ HI).
  - by rewrite (inv_subs _ _ HI1), (inv_subs _ _ HI).
Qed.

Lemma advanced_pending : pendingOk (pending advanced).
Proof. exact noPending_ok. Qed.

Lemma batch_delete_from_key_deletes_nothing_witness :
  exists r1, applyOperationsBatch true advanced [(5, deleteCmd "a" nulKey)] = Some r1 /\
    rangeKvs r1 "a" nulKey 0 = rangeKvs advanced "a" nulKey 0 /\ CurrentRevision r1 = 2.
Proof.
  destruct (batch_delete_from_key_deletes_nothing true (fun _ => True) advanced _ 5 "a" advanced_Inv advanced_pending) as (r1 & E1 & Hk & Hr & _); [unfold_ints; lia|done|].
  exists r1. split_and!; [exact E1|apply Hk|]. rewrite Hr. vm_compute. reflexivity.
Defined.

Lemma leaseWrites_0 {DB : Type} `{!ByteDB DB, !MapOrder, !ProtoWire pbLease, !TextWire LeaseInfo} pb (r : RocksDB DB) key :
  leaseWrites pb r key 0 = Ok [].
Proof. done. Qed.

(** When the database takes the new revision and refuses the batch, the commit
    leaves no trace but the revision: the record is as it was, nobody is told, and
    the client that waits for it is not woken. *)
Theorem batch_failed_write_strands_client `{ByteDBLaws DB, !MapOrder, !ProtoWire pbLease, !TextWire LeaseInfo, !Gob} (pb : bool)
    (r r1 : RocksDB DB) (prev : option KeyValue) (now rev : Z) (key value seq : string) (d : DB) (e : DbError) :
  getKeyValue r key = Some (Ok prev) -> incrementRevision r = (r1, Ok rev) ->
  db_write (db r1) [WPut (kvKey key) (encodeKeyValue (nextKv prev key value 0 rev))] = (d, Some e) ->
  exists r2, applyOperationsBatch pb r [(now, mkRaftOperation TPut key value 0 "" seq 0 [] [] [])] = Some r2 /\
    CurrentRevision r2 = wrap_i64 (CurrentRevision r + 1) /\
    contents (db r2) = <[revisionKey := put_le 8 (wrap_u64 (CurrentRevision r2))]> (contents (db r)) /\
    pendingOps (pending r2) = pendingOps (pending r) /\ watches r2 = watches r.
Proof.
  intros Hget Hinc Hfail. unfold applyOperationsBatch. cbn [prepareOps].
  assert (Hop : prepareOp pb (mkBatchState r [] []) now (mkRaftOperation TPut key value 0 "" seq 0 [] [] []) =
    x ← preparePutBatch pb r [] key value 0; Some (prepared (mkBatchState r [] []) x)) by done.
  rewrite Hop. unfold preparePutBatch. rewrite Hget. cbn [mbind option_bind orNil]. rewrite Hinc, leaseWrites_0. cbn [mbind option_bind prepared app].
  unfold write. cbn [bs_store bs_batch]. rewrite Hfail. cbn. eexists. split; [done|]. cbn.
  unfold incrementRevision, write in Hinc. cbn [db setRevision] in Hinc.
  destruct (db_write (db r) _) as [d1 [e1|]] eqn:Ew; cbn in Hinc; [done|]. injection Hinc as <- <-. cbn in *.
  split_and!; [done| |done|done]. rewrite (db_write_failed _ _ _ _ Hfail), (db_write_ok _ _ _ Ew). done.
Qed.

(** The first write works, the second does not; a client waits for "seq-1". *)
Definition flaky : RocksDB MemDB :=
  mkRocksDB (mkMemDB ∅ [false; true] []) 0 ∅ (mkPending {["seq-1" := 0%nat]} ∅ 1 1 ∅ []) None 0.

Lemma batch_failed_write_strands_client_witness :
  exists r2, applyOperationsBatch true flaky [(5, mkRaftOperation TPut "k" "v" 0 "" "seq-1" 0 [] [] [])] = Some r2 /\
    CurrentRevision r2 = 1 /\ pendingOps (pending r2) = {["seq-1" := 0%nat]} /\ contents (db r2) !! kvKey "k" = None.
Proof.
  assert (H1 : getKeyValue flaky "k" = Some (Ok None)) by reflexivity.
  assert (H2 : incrementRevision flaky = ((incrementRevision flaky).1, Ok 1)) by reflexivity.
  assert (H3 : db_write (db (incrementRevision flaky).1) [WPut (kvKey "k") (encodeKeyValue (nextKv None "k" "v" 0 1))] =
    (mkMemDB (md_data (db (incrementRevision flaky).1)) [] [], Some IOError)) by reflexivity.
  destruct (batch_failed_write_strands_client true flaky _ None 5 1 "k" "v" "seq-1" _ IOError H1 H2 H3) as (r2 & E2 & Hr & Hc & Hp & _).
  exists r2. split_and!; [exact E2|exact Hr|exact Hp|]. rewrite Hc. vm_compute. reflexivity.
Defined.
