(* ===== verification/RocksEngines.v ===== *)
(** * Two storage engines, one log

    The in-memory store ([internal/memory]) and the RocksDB store
    ([internal/rocksdb]) read the same committed operations from their commit
    channels, each in commits of its own: the in-memory store runs them as batches
    of goroutines ([applyBatch]), the RocksDB store writes one batch
    ([applyOperationsBatch]).  Their revisions count deletions differently, so
    their records are compared by value, lease and version. *)

From S2P Require Import Prelude GoBytes OrderedTree KvTypes ShardedMap MemoryEtcd EtcdFacts EtcdOps BatchApply BatchTheorems RaftCodec MemoryRaft MemorySystem MemoryTheorems EtcdReplica.
From S2P Require Import ByteDB RocksCodec RocksEtcd RocksRaft RocksEtcdSpec RocksEtcdRefine RocksEtcdTheorems RocksBatch.

(** Puts, deletions and grants.  A deletion without an upper bound is left out: the
    RocksDB store takes the NUL byte that says so for a key. *)
Definition common (op : RaftOperation) : Prop :=
  ro_Type op <> TTxn /\ ro_Type op <> TLeaseRevoke /\ (ro_Type op = TDelete -> ro_RangeEnd op <> nulKey).

(** ** Both specifications keep the same records *)

Section agree.
Context `{!MapOrder, !Gob}.

Definition sameRecords (s : AState) (a : State) : Prop := erase <$> a_data s = erase <$> a_kvs a.

Record Agree (s : AState) (a : State) : Prop := mkAgree { ag_keyed : keyed (a_data s); ag_same : sameRecords s a }.

Lemma agree_lookup s a k : Agree s a -> erase <$> a_data s !! k = erase <$> a_kvs a !! k.
Proof. intros HA. by rewrite <- !lookup_fmap, (ag_same _ _ HA). Qed.

Lemma aCommit_one a now op : (aCommit a [(now, op)]).1 = finishCommit (aPrepare now (startCommit a) op).
Proof. done. Qed.

Lemma agree_put s a now op : Agree s a -> ro_Type op = TPut -> Agree (a_step 0 s op) (aCommit a [(now, op)]).1.
Proof.
  intros HA Et. rewrite aCommit_one. unfold a_step, toRaftOp, aPrepare. rewrite Et, !decide_True by done. cbn [a_apply].
  constructor; [apply keyed_put, HA|]. apply map_eq. intros k. rewrite !lookup_fmap. cbn.
  assert (Hw : forall ws kvs, (forall w, w ∈ ws -> exists id l, w = AwSetLease id l) -> fold_left writeKv ws kvs = kvs).
  { induction ws as [|w ws IH]; intros kvs Hall; [done|]. cbn. destruct (Hall w) as (id & l & ->); [by left|]. apply IH. intros w' ?. apply Hall. by right. }
  rewrite Hw.
  2:{ intros w Hin. unfold attachWrites in Hin. destruct (_ =? 0); [by apply elem_of_nil in Hin|]. destruct (a_leases a !! _); [|by apply elem_of_nil in Hin].
      apply list_elem_of_singleton in Hin as ->. by eexists _, _. }
  destruct (decide (ro_Key op = k)) as [->|Hne]; [|rewrite !lookup_insert_ne by done; by apply agree_lookup].
  rewrite !lookup_insert_eq. pose proof (agree_lookup s a k HA) as Hk. destruct (a_data s !! k), (a_kvs a !! k); try done.
  injection Hk as H1 H2 H3. unfold erase. cbn. by rewrite H3.
Qed.

Lemma deleted_lookup keys : forall (kvs : gmap string KeyValue) k,
  fold_left writeKv (AwDelKv <$> keys) kvs !! k = if decide (k ∈ keys) then None else kvs !! k.
Proof.
  induction keys as [|j keys IH]; intros kvs k; [by rewrite decide_False by (apply not_elem_of_nil)|].
  rewrite fmap_cons. cbn [fold_left writeKv]. rewrite IH. destruct (decide (k ∈ keys)) as [Hin|Hn].
  - by rewrite decide_True by (by right).
  - destruct (decide (j = k)) as [->|Hne].
    + by rewrite lookup_delete_eq, decide_True by (by left).
    + rewrite lookup_delete_ne by done. rewrite decide_False; [done|]. rewrite elem_of_cons. by intros [->|].
Qed.

Lemma elem_of_deletedKeys a key rangeEnd k :
  k ∈ deletedKeys a key rangeEnd <-> if String.eqb rangeEnd "" then k = key else is_Some (a_kvs a !! k) /\ betweenKeys key rangeEnd k = true.
Proof.
  unfold deletedKeys. destruct (String.eqb rangeEnd ""); [apply list_elem_of_singleton|]. rewrite list_elem_of_fmap. split.
  - intros ([j kv] & -> & Hin). rewrite sorted_entries_perm, elem_of_map_to_list in Hin. apply map_lookup_filter_Some in Hin as [Hk Hb]. by split; [eexists|].
  - intros [[kv Hk] Hb]. exists (k, kv). split; [done|]. rewrite sorted_entries_perm, elem_of_map_to_list. by apply map_lookup_filter_Some.
Qed.

Lemma agree_delete s a now op : Agree s a -> ro_Type op = TDelete -> ro_RangeEnd op <> nulKey ->
  Agree (a_step 0 s op) (aCommit a [(now, op)]).1.
Proof.
  intros HA Et Hnul. rewrite aCommit_one. unfold a_step, toRaftOp, aPrepare. rewrite Et. rewrite !decide_False by done. rewrite !decide_True by done.
  cbn [a_apply]. constructor; [apply keyed_without, HA|]. apply map_eq. intros k. rewrite !lookup_fmap. pose proof (agree_lookup s a k HA) as Hk.
  change (a_kvs (finishCommit _)) with (fold_left writeKv (AwDelKv <$> deletedKeys a (ro_Key op) (ro_RangeEnd op)) (a_kvs a)).
  cbn [a_deleteDirect a_remove a_data]. rewrite deleted_lookup, without_lookup.
  destruct (a_kvs a !! k) as [kv'|] eqn:E'; destruct (a_data s !! k) as [kv|] eqn:E; try done; [|by repeat case_decide].
  enough (k ∈ deletedKeys a (ro_Key op) (ro_RangeEnd op) <-> k ∈ Key <$> rangeRecords (a_data s) (ro_Key op) (ro_RangeEnd op)) as Hiff
    by (repeat case_decide; tauto || done).
  rewrite elem_of_deletedKeys, rangeRecords_keys by apply HA. rewrite E, E'. destruct (String.eqb (ro_RangeEnd op) "") eqn:Ee.
  - unfold matchWatch. rewrite Ee. rewrite String.eqb_eq. split; [intros ->; by split|by intros [_ ->]].
  - apply String.eqb_neq in Ee. rewrite matchWatch_range by done. unfold betweenKeys, inKeyRange. apply String.eqb_neq in Hnul. rewrite Hnul. cbn.
    split; intros [_ Hb]; (split; [by eexists|done]).
Qed.

Lemma agree_step s a now op : Agree s a -> common op -> Agree (a_step 0 s op) (aCommit a [(now, op)]).1.
Proof.
  intros HA (Ht & Hr & Hd). destruct (decide (ro_Type op = TPut)) as [|E1]; [by apply agree_put|].
  destruct (decide (ro_Type op = TDelete)) as [|E2]; [apply agree_delete; auto|].
  rewrite aCommit_one. unfold a_step, toRaftOp, aPrepare. rewrite !(decide_False (P := ro_Type op = TPut)) by done.
  rewrite !(decide_False (P := ro_Type op = TDelete)) by done. destruct (decide (ro_Type op = TLeaseGrant)); [by destruct HA|].
  rewrite !decide_False by done. by destruct HA.
Qed.

Lemma agree_each ops : forall s a, Agree s a -> Forall (fun p => common p.2) ops -> Agree (a_steps s ops.*2) (aEach a ops).1.
Proof.
  induction ops as [|[now op] ops IH]; intros s a HA Hc; [done|]. apply Forall_cons in Hc as [Hc Hcs]. rewrite fmap_cons. cbn [aEach].
  pose proof (agree_step s a now op HA Hc) as HA1. destruct (aCommit a [(now, op)]) as [a1 answers]. cbn [fst snd] in *.
  specialize (IH _ _ HA1 Hcs). by destruct (aEach a1 ops).
Qed.

(** Independent operations in every commit, from a state on. *)
Fixpoint independentCommits (a : State) (commits : list (list (Z * RaftOperation))) : bool :=
  match commits with
  | [] => true
  | ops :: commits' => independent a ops && independentCommits (aCommit a ops).1 commits'
  end.

Definition aCommits (a : State) (commits : list (list (Z * RaftOperation))) : State :=
  fold_left (fun a ops => (aCommit a ops).1) commits a.

Lemma agree_commits commits : forall s a, Agree s a -> Forall (Forall (fun p => common p.2)) commits -> independentCommits a commits = true ->
  Agree (a_steps s (concat commits).*2) (aCommits a commits).
Proof.
  induction commits as [|ops commits IH]; intros s a HA Hc Hi; [done|]. apply Forall_cons in Hc as [Hc Hcs]. cbn [independentCommits] in Hi.
  apply andb_true_iff in Hi as [Hi1 Hi]. cbn [concat aCommits fold_left]. rewrite fmap_app. unfold a_steps. rewrite fold_left_app.
  apply IH; [|done|done]. rewrite commit_independent by done. by apply agree_each.
Qed.

End agree.

(** ** Both engines *)

Section memory.
Context `{!MapOrder}.

(** Commits read by the in-memory store. *)
Inductive memoryCommits : Memory -> list (list RaftOperation) -> Memory -> Prop :=
  | memoryCommits_nil m : memoryCommits m [] m
  | memoryCommits_cons m ops m1 commits m' : applyBatch m ops (Some m1) -> memoryCommits m1 commits m' -> memoryCommits m (ops :: commits) m'.

Lemma memoryCommits_total cls commits : forall m, MemorySystem.Pending m cls -> exists m', memoryCommits m commits m'.
Proof.
  induction commits as [|ops commits IH]; intros m HP; [eexists; constructor|].
  destruct (applyBatch_total m ops) as [o Ho]. destruct (applyBatch_ok m ops o cls HP Ho) as (m1 & -> & HP1 & _).
  destruct (IH m1 HP1) as [m' Hm']. exists m'. by econstructor.
Qed.

Lemma memory_follows commits : forall m m',
  wf_etcd (m_etcd m) -> measure (m_etcd m) + weights (concat commits) <= int64_max -> Forall replicable (concat commits) -> memoryCommits m commits m' ->
  wf_etcd (m_etcd m') /\ similar (abs (m_etcd m')) (a_steps (abs (m_etcd m)) (concat commits)).
Proof.
  induction commits as [|ops commits IH]; intros m m' Hwf Hm Hrep Hrun; inversion Hrun as [|? ? m1 ? ? Hb Hrun']; subst; [done|].
  cbn [concat] in *. rewrite weights_app in Hm. apply Forall_app in Hrep as [Hr1 Hr2]. pose proof (weights_length ops). pose proof (weights_length (concat commits)).
  destruct (applyBatch_follows m ops m1 Hwf ltac:(lia) Hr1 Hb) as (Hwf1 & Hm1 & Hs1).
  destruct (IH m1 m' Hwf1 ltac:(lia) Hr2 Hrun') as [Hwf' Hs]. split; [done|]. etransitivity; [exact Hs|]. unfold a_steps. rewrite fold_left_app.
  apply steps_similar; [by apply abs_keyed| |done|done].
  by apply keyed_steps; [apply abs_keyed|].
Qed.

Definition emptyRecords : AState := mkAState ∅ 0 ∅.

Lemma memory_from_empty commits m :
  weights (concat commits) <= int64_max -> Forall replicable (concat commits) -> memoryCommits NewMemory commits m ->
  forall key, erase <$> Get (kvData (m_etcd m)) key = erase <$> a_data (a_steps emptyRecords (concat commits)) !! key.
Proof.
  intros Hw Hrep Hrun key.
  assert (Habs : abs (m_etcd NewMemory) = emptyRecords).
  { unfold abs. change (kvData (m_etcd NewMemory)) with (NewMap (M := ShardedMap)). by rewrite contents_new. }
  assert (Hm : measure (m_etcd NewMemory) + weights (concat commits) <= int64_max).
  { unfold measure. change (kvData (m_etcd NewMemory)) with (NewMap (M := ShardedMap)). rewrite contents_new, map_size_empty. exact Hw. }
  destruct (memory_follows commits NewMemory m (wf_NewMemoryEtcd (M := ShardedMap)) Hm Hrep Hrun) as [Hwf Hs]. rewrite Habs in Hs.
  rewrite Get_contents by apply Hwf. exact (similar_lookup _ _ key Hs).
Qed.

End memory.

Section rocks.
Context {DB : Type} `{!ByteDB DB, !ByteDBLaws DB, !MapOrder, !ProtoWire pbLease, !TextWire LeaseInfo, !Gob}.
Context {pb : bool} {goodKey : string -> Prop} `{!LeaseStorable pb goodKey}.

(** Commits read by the RocksDB store. *)
Fixpoint rocksCommits (r : RocksDB DB) (commits : list (list (Z * RaftOperation))) : option (RocksDB DB) :=
  match commits with
  | [] => Some r
  | ops :: commits' => r1 ← applyOperationsBatch pb r ops; rocksCommits r1 commits'
  end.

Lemma rocksCommits_ok commits : forall r a, Inv (goodKey := goodKey) r a -> pendingOk (pending r) ->
  Forall (opsValid (goodKey := goodKey)) commits ->
  exists r1, rocksCommits r commits = Some r1 /\ Inv (goodKey := goodKey) r1 (aCommits a commits).
Proof.
  induction commits as [|ops commits IH]; intros r a HI Hp Hv; [by exists r|]. apply Forall_cons in Hv as [Hv Hvs].
  destruct (commit_ok (pb := pb) r a ops HI Hp Hv) as (r1 & E & HI1 & Hp1 & _). cbn [rocksCommits]. rewrite E. cbn [mbind option_bind]. by apply IH.
Qed.

End rocks.

(** C20: From empty stores, the same committed puts, deletions (of keys and of ranges
    with an upper bound) and grants leave the in-memory engine and the RocksDB
    engine with the same keys, values, versions and leases of records, however the
    operations are cut into commits on each side and however the goroutines of the
    in-memory engine are scheduled, if on the RocksDB side no operation of a commit
    reads what an earlier one of that commit writes.  Keys and values are shorter
    than 4 GiB, the lease encoding can write the keys put with a lease, clocks and
    counts stay in 64 bits, and the database works. *)
Theorem engines_agree `{ByteDBLaws DB, !MapOrder, !ProtoWire pbLease, !TextWire LeaseInfo, !Gob} (pb : bool)
    (goodKey : string -> Prop) `{!LeaseStorable pb goodKey} (d : DB) (commits : list (list (Z * RaftOperation)))
    (mcommits : list (list RaftOperation)) (m : Memory) :
  healthy d -> ByteDB.contents d = ∅ -> Forall (opsValid (goodKey := goodKey)) commits ->
  Forall (Forall (fun p => common p.2)) commits -> independentCommits emptyState commits = true ->
  concat mcommits = (concat commits).*2 -> weights (concat mcommits) <= int64_max -> memoryCommits NewMemory mcommits m ->
  exists r0 r, RocksRaft.NewRocksDB d RocksRaft.NoSnapshot = Some r0 /\ rocksCommits (pb := pb) r0 commits = Some r /\
    forall key, exists kv, getKeyValue r key = Some (Ok kv) /\ erase <$> kv = erase <$> Get (kvData (m_etcd m)) key.
Proof.
  intros Hh Hc Hv Hcm Hi Hlog Hw Hrun. destruct (NewRocksDB_empty (P := goodKey) d Hh Hc) as [Hnew HI].
  destruct (rocksCommits_ok (pb := pb) commits _ _ HI noPending_ok Hv) as (r & E & HI1). eexists _, r. split_and!; [done|exact E|].
  assert (Hrep : Forall replicable (concat mcommits)).
  { rewrite Hlog. apply Forall_fmap, Forall_concat. eapply Forall_impl; [exact Hcm|]. intros ops Hops. eapply Forall_impl; [exact Hops|].
    intros p (Ht & _) Et. cbn in Et. done. }
  assert (HA : Agree emptyRecords emptyState) by (constructor; [apply map_Forall_empty|done]).
  pose proof (agree_commits commits _ _ HA Hcm Hi) as HA1. rewrite <- Hlog in HA1. intros key. exists (a_kvs (aCommits emptyState commits) !! key).
  split; [exact (getKeyValue_ok _ _ _ HI1)|]. rewrite (memory_from_empty mcommits m Hw Hrep Hrun key). symmetry. by apply agree_lookup.
Qed.

Definition demoCommits : list (list (Z * RaftOperation)) :=
  [[(5, putCmd "a" "1" 0); (5, putCmd "b" "2" 0); (5, grantCmd 7 60)]; [(6, putCmd "c" "3" 7); (6, putCmd "a" "4" 0); (6, deleteCmd "b" "c")]].

Lemma demoCommits_valid : Forall (opsValid (goodKey := fun _ => True)) demoCommits.
Proof.
  unfold demoCommits, opsValid. repeat apply Forall_cons_2; try apply Forall_nil_2; (split; [cbn; unfold_ints; lia|]);
    first [by apply otherCmd_valid|apply putCmd_valid; [done|unfold_ints; lia|done]].
Qed.

Lemma demoCommits_common : Forall (Forall (fun p => common p.2)) demoCommits.
Proof. unfold demoCommits. repeat apply Forall_cons_2; try apply Forall_nil_2; done. Qed.

Lemma engines_agree_witness :
  exists r0 r m, RocksRaft.NewRocksDB emptyDB RocksRaft.NoSnapshot = Some r0 /\ rocksCommits (pb := true) r0 demoCommits = Some r /\
    memoryCommits NewMemory [(concat demoCommits).*2] m /\
    exists kv, getKeyValue r "a" = Some (Ok kv) /\ erase <$> kv = erase <$> Get (kvData (m_etcd m)) "a".
Proof.
  destruct (memoryCommits_total [] [(concat demoCommits).*2] NewMemory Pending_new) as [m Hm].
  destruct (engines_agree true (fun _ => True) emptyDB demoCommits [(concat demoCommits).*2] m) as (r0 & r & H0 & H1 & Hk).
  - by split.
  - reflexivity.
  - exact demoCommits_valid.
  - exact demoCommits_common.
  - vm_compute. reflexivity.
  - apply app_nil_r.
  - vm_compute. discriminate.
  - exact Hm.
  - exists r0, r, m. split_and!; [exact H0|exact H1|exact Hm|apply Hk].
Defined.
