(* ===== verification/StoreApi.v ===== *)
(** * The store interface of the servers ([internal/kvstore/store.go])

    [Store] has the calls the gRPC servers and the managers behind them make,
    over any state and error type; [StoreLaws] is what they promise each other: a
    store works for a number of writes, a range returns the records it names, and
    writes change those records.  The in-memory store is an instance. *)

From S2P Require Import Prelude GoBytes OrderedTree KvTypes ShardedMap MemoryEtcd EtcdFacts EtcdOps EtcdTheorems.

(** A call that writes returns the store with its answer.  [now] is the clock
    the store reads; a lease may be the nil pointer. *)
Class Store (S : Type) := {
  StoreErr : Type;
  st_Range : S -> string -> string -> Z -> Z -> result StoreErr RangeResponse;
  st_PutWithLease : Z -> S -> string -> string -> Z -> S * result StoreErr (Z * option KeyValue);
  st_DeleteRange : S -> string -> string -> S * result StoreErr (Z * list KeyValue * Z);
  st_Txn : Z -> S -> list Compare -> list Op -> list Op -> S * result StoreErr TxnResponse;
  st_Compact : S -> Z -> S * result StoreErr unit;
  st_CurrentRevision : S -> Z;
  st_LeaseGrant : Z -> S -> Z -> Z -> S * result StoreErr LeaseInfo;
  st_LeaseRevoke : S -> Z -> S * result StoreErr unit;
  st_LeaseRenew : Z -> S -> Z -> S * result StoreErr LeaseInfo;
  st_LeaseTimeToLive : S -> Z -> result StoreErr (option LeaseInfo);
  st_Leases : S -> result StoreErr (list LeaseInfo);
  st_GetRaftStatus : S -> RaftStatus;
}.

(** The values a store has under its keys. *)
Definition valuesOf (d : gmap string KeyValue) : gmap string string := Value <$> d.

Lemma valuesOf_outside key d : valuesOf (outside key "" d) = delete key (valuesOf d).
Proof.
  unfold valuesOf. rewrite <- fmap_delete. f_equal. apply map_eq. intros k. apply option_eq. intros kv. unfold outside.
  rewrite map_lookup_filter_Some, lookup_delete_Some. simpl. unfold matchWatch. cbn.
  destruct (String.eqb_spec k key); naive_solver.
Qed.

Class StoreLaws (S : Type) `{!Store S} := {
  st_ready : nat -> S -> Prop;
  st_contents : S -> gmap string KeyValue;
  st_keyed n s : st_ready n s -> keyed (st_contents s);
  st_ready_le n m s : (n <= m)%nat -> st_ready m s -> st_ready n s;
  st_Range_spec n s key rangeEnd limit :
    st_ready n s -> exists resp, st_Range s key rangeEnd limit 0 = Ok resp /\
      rr_Kvs resp = (if limit >? 0 then take (Z.to_nat limit) (rangeRecords (st_contents s) key rangeEnd)
                     else rangeRecords (st_contents s) key rangeEnd);
  st_Put_spec now n s key value :
    st_ready (Datatypes.S n) s -> exists s' r, st_PutWithLease now s key value 0 = (s', Ok r) /\
      st_ready n s' /\ valuesOf (st_contents s') = <[key := value]> (valuesOf (st_contents s));
  st_DeleteRange_spec n s key rangeEnd :
    st_ready (Datatypes.S n) s -> exists s' r, st_DeleteRange s key rangeEnd = (s', Ok r) /\
      st_ready n s' /\ st_contents s' = outside key rangeEnd (st_contents s);
}.

(** ** The in-memory store *)

Section memory.
Context {M : Type} `{!KvMap M, !KvMapLaws M, !MapOrder}.

#[global] Instance memory_store : Store (MemoryEtcd M) := {
  StoreErr := EtcdError;
  st_Range m key rangeEnd limit rev := Ok (RangeQuery m key rangeEnd limit rev);
  st_PutWithLease := PutWithLease;
  st_DeleteRange m key rangeEnd := let '(m', r) := DeleteRange m key rangeEnd in (m', Ok r);
  st_Txn := Txn;
  st_Compact := Compact;
  st_CurrentRevision := CurrentRevision;
  st_LeaseGrant := LeaseGrant;
  st_LeaseRevoke := LeaseRevoke;
  st_LeaseRenew := LeaseRenew;
  st_LeaseTimeToLive m id :=
    match LeaseTimeToLive m id with Ok l => Ok (Some l) | Err e => Err e end;
  st_Leases m := Ok (Leases m);
  st_GetRaftStatus := GetRaftStatus;
}.

Lemma memory_range m key rangeEnd limit rev :
  wf_etcd m ->
  rr_Kvs (RangeQuery m key rangeEnd limit rev) =
    if limit >? 0 then take (Z.to_nat limit) (rangeRecords (contents (kvData m)) key rangeEnd)
    else rangeRecords (contents (kvData m)) key rangeEnd.
Proof.
  intros Hwf. unfold RangeQuery, rangeUnlocked. cbn zeta. rewrite selectRange_records by done.
  unfold rangeRecords, applyLimit. destruct (Z.gtb_spec limit 0); cbn [andb rr_Kvs].
  2:{ by destruct (String.eqb rangeEnd ""). }
  destruct (String.eqb rangeEnd "").
  - destruct (Z.gtb_spec (Z.of_nat (length (option_list (contents (kvData m) !! key)))) limit); [done|].
    cbn [rr_Kvs]. rewrite take_ge by lia. done.
  - set (l := entriesIn _ _ _). destruct (Z.gtb_spec (Z.of_nat (length l)) limit).
    + rewrite length_take. replace (Z.of_nat (Z.to_nat limit `min` length l) >? limit) with false
        by (symmetry; rewrite Z.gtb_ltb; apply Z.ltb_ge; lia). done.
    + replace (Z.of_nat (length l) >? limit) with false by (symmetry; rewrite Z.gtb_ltb; apply Z.ltb_ge; lia).
      cbn [rr_Kvs]. rewrite take_ge by lia. done.
Qed.

#[global, refine] Instance memory_laws : StoreLaws (MemoryEtcd M) := {
  st_ready n m := wf_etcd m /\ revision m + Z.of_nat n <= int64_max;
  st_contents m := contents (kvData m);
}.
Proof.
  - intros n m [Hwf _]. apply (wd_keyed _ _ (we_data _ Hwf)).
  - intros n k m Hnk [Hwf Hr]. split; [done|lia].
  - intros n m key rangeEnd limit [Hwf _]. eexists. split; [reflexivity|]. by apply memory_range.
  - intros now n m key value [Hwf Hr]. cbn [st_PutWithLease memory_store].
    unfold PutWithLease. cbn zeta. destruct (storeKv_spec m key value 0 Hwf ltac:(lia))
      as (m' & -> & Hwf' & Hd & Hr' & _ & _). cbn [Z.eqb].
    eexists _, _. split; [reflexivity|]. split; [split; [by apply wf_notifyWatches|cbn; lia]|].
    cbn [notifyWatches setWatches kvData]. rewrite Hd. unfold valuesOf. rewrite fmap_insert.
    by destruct (contents (kvData m) !! key).
  - intros n m key rangeEnd [Hwf Hr]. cbn [st_DeleteRange memory_store]. unfold DeleteRange.
    destruct (deleteUnlockedEvents_spec m key rangeEnd Hwf ltac:(lia)) as (m' & evs & -> & Hwf' & Hd & Hr' & _).
    destruct (notifyAll_data evs m') as (Hdn & Hrn & _).
    eexists _, _. split; [reflexivity|]. split; [split; [by apply wf_notifyAll|]|by rewrite Hdn].
    rewrite Hrn, Hr'. destruct (rangeRecords _ _ _); lia.
Defined.

End memory.
