(* ===== verification/EtcdApi.v ===== *)
(** * The KV service of the gRPC server ([api/etcd/kv.go], [errors.go])

    Handlers turn a request into one call of the store and its answer into a
    reply.  A [bytes] field of a request is an [option]: the key of a request is
    nil when the client sends none.  [mvccpb.KeyValue] has the fields of the
    store's record and is not told apart from it; neither are the fields of the
    requests that no handler reads. *)

From S2P Require Import Prelude GoBytes KvTypes ShardedMap MemoryEtcd RaftCodec StoreApi.

(** ** Errors *)

Inductive ApiError : Set :=
  | ErrKeyNotFound | ErrCompacted | ErrFutureRev | ErrLeaseNotFound | ErrLeaseExpired | ErrTooManyLeases
  | ErrTxnConflict | ErrPermissionDenied | ErrAuthFailed | ErrInvalidArgument | ErrWatchCanceled.

Inductive Code : Set :=
  | NotFound | OutOfRange | ResourceExhausted | FailedPrecondition | PermissionDenied | Unauthenticated
  | InvalidArgument | Canceled | Internal.

(** An error value: one that wraps a known error, a gRPC status, or any other. *)
Inductive GoError : Set := KnownError (e : ApiError) | StatusError (c : Code) | PlainError.

Definition errorCodeMap (e : ApiError) : Code :=
  match e with
  | ErrKeyNotFound => NotFound
  | ErrCompacted => OutOfRange
  | ErrFutureRev => OutOfRange
  | ErrLeaseNotFound => NotFound
  | ErrLeaseExpired => NotFound
  | ErrTooManyLeases => ResourceExhausted
  | ErrTxnConflict => FailedPrecondition
  | ErrPermissionDenied => PermissionDenied
  | ErrAuthFailed => Unauthenticated
  | ErrInvalidArgument => InvalidArgument
  | ErrWatchCanceled => Canceled
  end.

Definition toGRPCError (e : GoError) : Code :=
  match e with StatusError c => c | KnownError e => errorCodeMap e | PlainError => Internal end.

(** ** Messages *)

Record ResponseHeader := mkHeader { h_ClusterId : Z; h_MemberId : Z; h_Revision : Z; h_RaftTerm : Z }.

Record RangeRequest := mkRangeRequest { rq_Key : option string; rq_RangeEnd : string; rq_Limit : Z; rq_Revision : Z }.
Record PutRequest := mkPutRequest { pq_Key : option string; pq_Value : string; pq_Lease : Z; pq_PrevKv : bool }.
Record DeleteRangeRequest := mkDeleteRangeRequest { dq_Key : option string; dq_RangeEnd : string; dq_PrevKv : bool }.

(** [cmp.Target] and [cmp.Result] are the numbers of the enumerations. *)
Record CompareMsg := mkCompareMsg { cm_Result : Z; cm_Target : Z; cm_Key : string; cm_TargetUnion : option pbTargetUnion }.

(** The contents of a nested transaction are never looked at. *)
Inductive RequestOp :=
  | RequestRange (r : RangeRequest)
  | RequestPut (p : PutRequest)
  | RequestDeleteRange (d : DeleteRangeRequest)
  | RequestTxn
  | RequestNone.

Record TxnRequest := mkTxnRequest { tq_Compare : list CompareMsg; tq_Success : list RequestOp; tq_Failure : list RequestOp }.

Record RangeReply := mkRangeReply { ra_Header : option ResponseHeader; ra_Kvs : list KeyValue; ra_More : bool; ra_Count : Z }.
Record PutReply := mkPutReply { pa_Header : option ResponseHeader; pa_PrevKv : option KeyValue }.
Record DeleteRangeReply := mkDeleteRangeReply { da_Header : option ResponseHeader; da_Deleted : Z; da_PrevKvs : list KeyValue }.
Inductive ResponseOp :=
  | ResponseRange (r : RangeReply)
  | ResponsePut (p : PutReply)
  | ResponseDeleteRange (d : DeleteRangeReply)
  | ResponseNone.
Record TxnReply := mkTxnReply { ta_Header : ResponseHeader; ta_Succeeded : bool; ta_Responses : list ResponseOp }.

(** [string(b)] *)
Definition str (b : option string) : string := default "" b.

(** ** Conversions *)

(** [GetVersion] and the like give 0 when another case of the union is set. *)
Definition unionVersion (u : option pbTargetUnion) : Z := match u with Some (pb_Version v) => v | _ => 0 end.
Definition unionCreate (u : option pbTargetUnion) : Z := match u with Some (pb_CreateRevision v) => v | _ => 0 end.
Definition unionMod (u : option pbTargetUnion) : Z := match u with Some (pb_ModRevision v) => v | _ => 0 end.
Definition unionValue (u : option pbTargetUnion) : string := match u with Some (pb_Value v) => v | _ => "" end.
Definition unionLease (u : option pbTargetUnion) : Z := match u with Some (pb_Lease v) => v | _ => 0 end.

(** A number that no case of a switch names leaves the zero value. *)
Definition convertCompare (cmp : CompareMsg) : Compare :=
  let u := cm_TargetUnion cmp in
  let '(target, union) :=
    match cm_Target cmp with
    | 0 => (CompareVersion, mkCompareUnion (unionVersion u) 0 0 "" 0)
    | 1 => (CompareCreate, mkCompareUnion 0 (unionCreate u) 0 "" 0)
    | 2 => (CompareMod, mkCompareUnion 0 0 (unionMod u) "" 0)
    | 3 => (CompareValue, mkCompareUnion 0 0 0 (unionValue u) 0)
    | 4 => (CompareLease, mkCompareUnion 0 0 0 "" (unionLease u))
    | _ => (CompareVersion, mkCompareUnion 0 0 0 "" 0)
    end in
  let result :=
    match cm_Result cmp with
    | 0 => CompareEqual | 1 => CompareGreater | 2 => CompareLess | 3 => CompareNotEqual
    | _ => CompareEqual
    end in
  mkCompare target result (cm_Key cmp) union.

Definition convertRequestOp (reqOp : RequestOp) : Op :=
  match reqOp with
  | RequestRange r => mkOp OpRange (str (rq_Key r)) (rq_RangeEnd r) "" (rq_Limit r) 0
  | RequestPut p => mkOp OpPut (str (pq_Key p)) "" (pq_Value p) 0 (pq_Lease p)
  | RequestDeleteRange d => mkOp OpDelete (str (dq_Key d)) (dq_RangeEnd d) "" 0 0
  | RequestTxn | RequestNone => mkOp OpRange "" "" "" 0 0
  end.

Definition convertOpResponse (opResp : OpResponse) : ResponseOp :=
  match opResp with
  | RespRange r => ResponseRange (mkRangeReply None (rr_Kvs r) (rr_More r) (rr_Count r))
  | RespPut p => ResponsePut (mkPutReply None (pr_PrevKv p))
  | RespDelete d => ResponseDeleteRange (mkDeleteRangeReply None (dr_Deleted d) (dr_PrevKvs d))
  | RespEmpty => ResponseNone
  end.

(** ** Handlers *)

Section kv.
Context {S : Type} `{!Store S}.
Variables (clusterID memberID now : Z).

Definition getResponseHeader (s : S) : ResponseHeader :=
  mkHeader clusterID memberID (st_CurrentRevision s) (rs_Term (st_GetRaftStatus s)).

Definition setRevision (h : ResponseHeader) (revision : Z) : ResponseHeader :=
  mkHeader (h_ClusterId h) (h_MemberId h) revision (h_RaftTerm h).

(** The store's errors are not among those [errorCodeMap] knows. *)
Definition storeError {A} (e : StoreErr) : result Code A := Err (toGRPCError PlainError).

Definition KV_Range (s : S) (req : RangeRequest) : result Code RangeReply :=
  match st_Range s (str (rq_Key req)) (rq_RangeEnd req) (rq_Limit req) (rq_Revision req) with
  | Err e => storeError e
  | Ok resp => Ok (mkRangeReply (Some (getResponseHeader s)) (rr_Kvs resp) (rr_More resp) (rr_Count resp))
  end.

Definition KV_Put (s : S) (req : PutRequest) : S * result Code PutReply :=
  match st_PutWithLease now s (str (pq_Key req)) (pq_Value req) (pq_Lease req) with
  | (s', Err e) => (s', storeError e)
  | (s', Ok (revision, prevKv)) =>
      (s', Ok (mkPutReply (Some (setRevision (getResponseHeader s') revision)) (if pq_PrevKv req then prevKv else None)))
  end.

Definition KV_DeleteRange (s : S) (req : DeleteRangeRequest) : S * result Code DeleteRangeReply :=
  match st_DeleteRange s (str (dq_Key req)) (dq_RangeEnd req) with
  | (s', Err e) => (s', storeError e)
  | (s', Ok (deleted, prevKvs, revision)) =>
      (s', Ok (mkDeleteRangeReply (Some (setRevision (getResponseHeader s') revision)) deleted
                 (if dq_PrevKv req then prevKvs else [])))
  end.

Definition KV_Txn (s : S) (req : TxnRequest) : S * result Code TxnReply :=
  match st_Txn now s (convertCompare <$> tq_Compare req) (convertRequestOp <$> tq_Success req)
          (convertRequestOp <$> tq_Failure req) with
  | (s', Err e) => (s', storeError e)
  | (s', Ok resp) =>
      (s', Ok (mkTxnReply (setRevision (getResponseHeader s') (tr_Revision resp)) (tr_Succeeded resp)
                 (convertOpResponse <$> tr_Responses resp)))
  end.

Definition KV_Compact (s : S) (revision : Z) : S * result Code ResponseHeader :=
  match st_Compact s revision with
  | (s', Err e) => (s', storeError e)
  | (s', Ok _) => (s', Ok (getResponseHeader s'))
  end.

End kv.
