(* ===== verification/Auth.v ===== *)
(** * Users, roles and tokens ([api/etcd/auth_manager.go], [auth_types.go])

    Users, roles and tokens are cached in maps and kept as JSON under
    [/__auth/] in the store.  An operation returns the manager with its result,
    as one that fails has often changed the cache before.  The store is reached
    through its interface [Store]; JSON is a [TextWire] and bcrypt is [Crypto].
    [now] is the clock in nanoseconds.  The maps are [sync.Map]s and no lock spans
    an operation of the manager; an operation here is one step, as calls that do
    not overlap run it. *)

From S2P Require Import Prelude GoBytes KvTypes ShardedMap MemoryEtcd BatchApply RaftCodec StoreApi.

(** ** What the manager uses *)

(** [bcrypt.GenerateFromPassword] with the salt it draws, and
    [CompareHashAndPassword]. *)
Class Crypto := {
  bcrypt_hash : Z -> Z -> string -> option string;
  bcrypt_check : string -> string -> bool;
  bcrypt_accepts cost salt password hash : bcrypt_hash cost salt password = Some hash -> bcrypt_check hash password = true;
}.

(** ** Data *)

Inductive PermissionType : Set := PermissionRead | PermissionWrite | PermissionReadWrite | PermissionOther (n : Z).

#[global] Instance PermissionType_eq_dec : EqDecision PermissionType.
Proof. solve_decision. Defined.

Record Permission := mkPermission { p_Type : PermissionType; p_Key : string; p_RangeEnd : string }.

Record UserInfo := mkUserInfo { u_Name : string; u_PasswordHash : string; u_Roles : list string; u_CreatedAt : Z }.
Record RoleInfo := mkRoleInfo { r_Name : string; r_Permissions : list Permission; r_CreatedAt : Z }.
Record TokenInfo := mkTokenInfo { t_Token : string; t_Username : string; t_ExpiresAt : Z }.

Definition authEnabledKey : string := "/__auth/enabled".
Definition authUserPrefix : string := "/__auth/users/".
Definition authRolePrefix : string := "/__auth/roles/".
Definition authTokenPrefix : string := "/__auth/tokens/".

(** [prefix + "\xff"] *)
Definition prefixEnd (prefix : string) : string := prefix +:+ String (byte_of 255) "".

Inductive AuthError : Set :=
  | NoRootUser | UserNotFound (name : string) | InvalidPassword | InvalidToken | TokenExpired | AuthDenied
  | UserExists (name : string) | HashFailed | RandFailed | MarshalError | PersistFailed
  | RootUserKept | RootRoleKept | RoleNotFound (name : string) | RoleExists (name : string)
  | RoleNotHeld | PermissionNotFound | PermissionMissing.

(** [t.Unix()] *)
Definition unix (now : Z) : Z := now / 1000000000.

(** [keyInRange], on keys as strings *)
Definition keyInRange (key start end_ : string) : bool :=
  if str_len end_ =? 0 then String.eqb key start
  else str_leb start key && (String.eqb end_ nulKey || str_ltb key end_).

(** The switch over the wanted type. *)
Definition covers (have want : PermissionType) : bool :=
  match want with
  | PermissionRead => bool_decide (have = PermissionRead \/ have = PermissionReadWrite)
  | PermissionWrite => bool_decide (have = PermissionWrite \/ have = PermissionReadWrite)
  | PermissionReadWrite => bool_decide (have = PermissionReadWrite)
  | PermissionOther _ => false
  end.

Definition grants (perm : Permission) (key : string) (want : PermissionType) : bool :=
  covers (p_Type perm) want && keyInRange key (p_Key perm) (p_RangeEnd perm).

Definition setRoles (u : UserInfo) (roles : list string) : UserInfo :=
  mkUserInfo (u_Name u) (u_PasswordHash u) roles (u_CreatedAt u).
Definition setHash (u : UserInfo) (hash : string) : UserInfo := mkUserInfo (u_Name u) hash (u_Roles u) (u_CreatedAt u).
Definition setPermissions (r : RoleInfo) (ps : list Permission) : RoleInfo := mkRoleInfo (r_Name r) ps (r_CreatedAt r).

(** The roles left when one is taken away. *)
Definition otherRoles (name : string) (roles : list string) : list string := List.filter (fun r => negb (String.eqb r name)) roles.

Section auth.
Context {S : Type} `{!Store S, !MapOrder, !Crypto, !TextWire UserInfo, !TextWire RoleInfo, !TextWire TokenInfo}.

Record AuthManager := mkAuthManager {
  store : S;
  enabled : bool;
  users : gmap string UserInfo;
  roles : gmap string RoleInfo;
  tokens : gmap string TokenInfo;
  tokenTTL : Z;
  bcryptCost : Z;
}.

Definition setStore (am : AuthManager) (s : S) : AuthManager :=
  mkAuthManager s (enabled am) (users am) (roles am) (tokens am) (tokenTTL am) (bcryptCost am).
Definition setEnabled (am : AuthManager) (b : bool) : AuthManager :=
  mkAuthManager (store am) b (users am) (roles am) (tokens am) (tokenTTL am) (bcryptCost am).
Definition setUsers (am : AuthManager) (us : gmap string UserInfo) : AuthManager :=
  mkAuthManager (store am) (enabled am) us (roles am) (tokens am) (tokenTTL am) (bcryptCost am).
Definition setRoleMap (am : AuthManager) (rs : gmap string RoleInfo) : AuthManager :=
  mkAuthManager (store am) (enabled am) (users am) rs (tokens am) (tokenTTL am) (bcryptCost am).
Definition setTokens (am : AuthManager) (ts : gmap string TokenInfo) : AuthManager :=
  mkAuthManager (store am) (enabled am) (users am) (roles am) ts (tokenTTL am) (bcryptCost am).

(** The clock, for the calls of one operation. *)
Variable now : Z.

(** ** Loading *)

(** The loop that decodes what a range found; what does not decode is skipped. *)
Definition loadAll {A} `{!TextWire A} (name : A -> string) (valid : A -> bool) (kvs : list KeyValue) (m : gmap string A) :
    gmap string A :=
  fold_left (fun m kv =>
    match text_unmarshal (Value kv) with
    | Some a => if valid a then <[name a := a]> m else m
    | None => m
    end) kvs m.

Definition loadPrefix {A} `{!TextWire A} (am : AuthManager) (prefix : string) (name : A -> string) (valid : A -> bool)
    (m : gmap string A) : gmap string A :=
  match st_Range (store am) prefix (prefixEnd prefix) 0 0 with
  | Ok resp => loadAll name valid (rr_Kvs resp) m
  | Err _ => m
  end.

Definition loadState (am : AuthManager) : AuthManager :=
  let e := match st_Range (store am) authEnabledKey "" 1 0 with
           | Ok resp => match rr_Kvs resp with kv :: _ => String.eqb (Value kv) "true" | [] => enabled am end
           | Err _ => enabled am
           end in
  mkAuthManager (store am) e
    (loadPrefix am authUserPrefix u_Name (fun _ => true) (users am))
    (loadPrefix am authRolePrefix r_Name (fun _ => true) (roles am))
    (loadPrefix am authTokenPrefix t_Token (fun t => t_ExpiresAt t >? unix now) (tokens am))
    (tokenTTL am) (bcryptCost am).

Definition NewAuthManager (s : S) (ttl cost : Z) : AuthManager :=
  loadState (mkAuthManager s false ∅ ∅ ∅ ttl cost).

(** ** Persisting *)

(** [json.Marshal] and [PutWithLease] *)
Definition persist {A} `{!TextWire A} (am : AuthManager) (key : string) (a : A) : AuthManager * result AuthError unit :=
  match text_marshal a with
  | None => (am, Err MarshalError)
  | Some data =>
      match st_PutWithLease now (store am) key data 0 with
      | (s, Ok _) => (setStore am s, Ok tt)
      | (s, Err _) => (setStore am s, Err PersistFailed)
      end
  end.

(** ... whose errors are dropped *)
Definition persistQuietly {A} `{!TextWire A} (am : AuthManager) (key : string) (a : A) : AuthManager :=
  setStore am (st_PutWithLease now (store am) key (default "" (text_marshal a)) 0).1.

(** [DeleteRange], and whether it succeeded *)
Definition erase (am : AuthManager) (key rangeEnd : string) : AuthManager * bool :=
  match st_DeleteRange (store am) key rangeEnd with
  | (s, Ok _) => (setStore am s, true)
  | (s, Err _) => (setStore am s, false)
  end.

(** ** Switching authentication *)

Definition IsEnabled (am : AuthManager) : bool := enabled am.

Definition putFlag (am : AuthManager) (value : string) : AuthManager * result AuthError unit :=
  match st_PutWithLease now (store am) authEnabledKey value 0 with
  | (s, Ok _) => (setStore am s, Ok tt)
  | (s, Err _) => (setStore am s, Err PersistFailed)
  end.

Definition Enable (am : AuthManager) : AuthManager * result AuthError unit :=
  match users am !! "root" with
  | None => (am, Err NoRootUser)
  | Some _ => if enabled am then (am, Ok tt) else putFlag (setEnabled am true) "true"
  end.

Definition Disable (am : AuthManager) : AuthManager * result AuthError unit :=
  match putFlag (setEnabled am false) "false" with
  | (am1, Err e) => (am1, Err e)
  | (am1, Ok _) =>
      match erase (setTokens am1 ∅) authTokenPrefix (prefixEnd authTokenPrefix) with
      | (am2, true) => (am2, Ok tt)
      | (am2, false) => (am2, Err PersistFailed)
      end
  end.

(** ** Tokens *)

(** [token] is what [generateToken] draws; [None] when the random source fails. *)
Definition Authenticate (token : option string) (am : AuthManager) (username password : string) :
    AuthManager * result AuthError string :=
  match users am !! username with
  | None => (am, Err (UserNotFound username))
  | Some user =>
      if negb (bcrypt_check (u_PasswordHash user) password) then (am, Err InvalidPassword)
      else
        match token with
        | None => (am, Err RandFailed)
        | Some token =>
            let info := mkTokenInfo token username (unix (now + tokenTTL am)) in
            match persist (setTokens am (<[token := info]> (tokens am))) (authTokenPrefix +:+ token) info with
            | (am1, Ok _) => (am1, Ok token)
            | (am1, Err e) => (am1, Err e)
            end
        end
  end.

Definition ValidateToken (am : AuthManager) (token : string) : result AuthError TokenInfo :=
  match tokens am !! token with
  | None => Err InvalidToken
  | Some info => if unix now >? t_ExpiresAt info then Err TokenExpired else Ok info
  end.

(** The loop over the tokens that deletes some of them; its errors are dropped. *)
Fixpoint dropTokens (am : AuthManager) (ts : list string) : AuthManager :=
  match ts with
  | [] => am
  | t :: ts' => dropTokens (erase (setTokens am (delete t (tokens am))) (authTokenPrefix +:+ t) "").1 ts'
  end.

Definition tokensWhere (am : AuthManager) (p : TokenInfo -> bool) : list string :=
  (List.filter (fun x => p x.2) (range_map (tokens am))).*1.

Definition dropUserTokens (am : AuthManager) (name : string) : AuthManager :=
  dropTokens am (tokensWhere am (fun info => String.eqb (t_Username info) name)).

(** One tick of the cleanup. *)
Definition cleanupExpiredTokens (am : AuthManager) : AuthManager :=
  dropTokens am (tokensWhere am (fun info => t_ExpiresAt info <? unix now)).

(** ** Permissions *)

Definition roleGrants (am : AuthManager) (key : string) (want : PermissionType) (roleName : string) : bool :=
  match roles am !! roleName with
  | None => false
  | Some role => existsb (fun perm => grants perm key want) (r_Permissions role)
  end.

Definition CheckPermission (am : AuthManager) (username key : string) (want : PermissionType) : result AuthError unit :=
  if String.eqb username "root" then Ok tt
  else
    match users am !! username with
    | None => Err (UserNotFound username)
    | Some user => if existsb (roleGrants am key want) (u_Roles user) then Ok tt else Err AuthDenied
    end.

(** ** Users *)

Definition hashPassword (am : AuthManager) (salt : Z) (password : string) : result AuthError string :=
  match bcrypt_hash (bcryptCost am) salt password with Some h => Ok h | None => Err HashFailed end.

Definition checkPasswordHash (password hash : string) : bool := bcrypt_check hash password.

Definition AddUser (salt : Z) (am : AuthManager) (name password : string) : AuthManager * result AuthError unit :=
  match users am !! name with
  | Some _ => (am, Err (UserExists name))
  | None =>
      match hashPassword am salt password with
      | Err e => (am, Err e)
      | Ok hash =>
          let user := mkUserInfo name hash [] (unix now) in
          match persist am (authUserPrefix +:+ name) user with
          | (am1, Err e) => (am1, Err e)
          | (am1, Ok _) => (setUsers am1 (<[name := user]> (users am1)), Ok tt)
          end
      end
  end.

Definition DeleteUser (am : AuthManager) (name : string) : AuthManager * result AuthError unit :=
  if String.eqb name "root" then (am, Err RootUserKept)
  else
    match users am !! name with
    | None => (am, Err (UserNotFound name))
    | Some _ =>
        match erase am (authUserPrefix +:+ name) "" with
        | (am1, false) => (am1, Err PersistFailed)
        | (am1, true) => (dropUserTokens (setUsers am1 (delete name (users am1))) name, Ok tt)
        end
    end.

Definition GetUser (am : AuthManager) (name : string) : result AuthError UserInfo :=
  match users am !! name with None => Err (UserNotFound name) | Some u => Ok u end.

Definition ListUsers (am : AuthManager) : list UserInfo := (range_map (users am)).*2.

(** The cached record is changed first. *)
Definition updateUser (am : AuthManager) (name : string) (u : UserInfo) : AuthManager * result AuthError unit :=
  persist (setUsers am (<[name := u]> (users am))) (authUserPrefix +:+ name) u.

Definition ChangePassword (salt : Z) (am : AuthManager) (name newPassword : string) : AuthManager * result AuthError unit :=
  match users am !! name with
  | None => (am, Err (UserNotFound name))
  | Some user =>
      match hashPassword am salt newPassword with
      | Err e => (am, Err e)
      | Ok hash =>
          match updateUser am name (setHash user hash) with
          | (am1, Err e) => (am1, Err e)
          | (am1, Ok _) => (dropUserTokens am1 name, Ok tt)
          end
      end
  end.

Definition GrantRole (am : AuthManager) (username rolename : string) : AuthManager * result AuthError unit :=
  match users am !! username with
  | None => (am, Err (UserNotFound username))
  | Some user =>
      match roles am !! rolename with
      | None => (am, Err (RoleNotFound rolename))
      | Some _ =>
          if existsb (String.eqb rolename) (u_Roles user) then (am, Ok tt)
          else updateUser am username (setRoles user (u_Roles user ++ [rolename]))
      end
  end.

Definition RevokeRole (am : AuthManager) (username rolename : string) : AuthManager * result AuthError unit :=
  match users am !! username with
  | None => (am, Err (UserNotFound username))
  | Some user =>
      if existsb (String.eqb rolename) (u_Roles user)
      then updateUser am username (setRoles user (otherRoles rolename (u_Roles user)))
      else (am, Err RoleNotHeld)
  end.

(** ** Roles *)

Definition AddRole (am : AuthManager) (name : string) : AuthManager * result AuthError unit :=
  match roles am !! name with
  | Some _ => (am, Err (RoleExists name))
  | None =>
      let role := mkRoleInfo name [] (unix now) in
      match persist am (authRolePrefix +:+ name) role with
      | (am1, Err e) => (am1, Err e)
      | (am1, Ok _) => (setRoleMap am1 (<[name := role]> (roles am1)), Ok tt)
      end
  end.

(** Takes the role from the users that have it; errors are dropped. *)
Fixpoint dropRole (am : AuthManager) (name : string) (us : list (string * UserInfo)) : AuthManager :=
  match us with
  | [] => am
  | (username, user) :: us' =>
      if existsb (String.eqb name) (u_Roles user)
      then
        let u := setRoles user (otherRoles name (u_Roles user)) in
        dropRole (persistQuietly (setUsers am (<[username := u]> (users am))) (authUserPrefix +:+ username) u) name us'
      else dropRole am name us'
  end.

Definition DeleteRole (am : AuthManager) (name : string) : AuthManager * result AuthError unit :=
  if String.eqb name "root" then (am, Err RootRoleKept)
  else
    match roles am !! name with
    | None => (am, Err (RoleNotFound name))
    | Some _ =>
        let am1 := dropRole am name (range_map (users am)) in
        match erase (setRoleMap am1 (delete name (roles am1))) (authRolePrefix +:+ name) "" with
        | (am2, true) => (am2, Ok tt)
        | (am2, false) => (am2, Err PersistFailed)
        end
    end.

Definition GetRole (am : AuthManager) (name : string) : result AuthError RoleInfo :=
  match roles am !! name with None => Err (RoleNotFound name) | Some r => Ok r end.

Definition ListRoles (am : AuthManager) : list RoleInfo := (range_map (roles am)).*2.

Definition updateRole (am : AuthManager) (name : string) (r : RoleInfo) : AuthManager * result AuthError unit :=
  persist (setRoleMap am (<[name := r]> (roles am))) (authRolePrefix +:+ name) r.

Definition GrantPermission (am : AuthManager) (rolename : string) (perm : Permission) : AuthManager * result AuthError unit :=
  match roles am !! rolename with
  | None => (am, Err (RoleNotFound rolename))
  | Some role => updateRole am rolename (setPermissions role (r_Permissions role ++ [perm]))
  end.

(** Every permission on the range goes, whatever its type. *)
Definition samePermRange (key rangeEnd : string) (perm : Permission) : bool :=
  String.eqb (p_Key perm) key && String.eqb (p_RangeEnd perm) rangeEnd.

Definition RevokePermission (am : AuthManager) (rolename key rangeEnd : string) : AuthManager * result AuthError unit :=
  match roles am !! rolename with
  | None => (am, Err (RoleNotFound rolename))
  | Some role =>
      if existsb (samePermRange key rangeEnd) (r_Permissions role)
      then updateRole am rolename (setPermissions role (List.filter (fun p => negb (samePermRange key rangeEnd p)) (r_Permissions role)))
      else (am, Err PermissionNotFound)
  end.

End auth.

Arguments AuthManager : clear implicits.
