(* ===== verification/AuthRefine.v ===== *)
(** * What authentication promises, and that the manager keeps it

    [AuthState] is the state without a store: the flag, the users, the roles, the
    tokens that are accepted and the tokens that are kept.  [specStep] runs one
    operation on it; starting the server again keeps everything but the tokens
    that have expired.  [authStep] is the same operation of [Auth].
    [Durable] relates the cache to the records under [/__auth/]: every change the
    cache has is in the store.  Every operation on a working store preserves it
    and does what the specification says. *)

From S2P Require Import Prelude GoBytes OrderedTree KvTypes ShardedMap MemoryEtcd EtcdFacts BatchApply RaftCodec StoreApi Auth.

Inductive AuthOp :=
  | AuEnable | AuDisable
  | AuAuthenticate (token : option string) (username password : string)
  | AuValidate (token : string)
  | AuCheck (username key : string) (want : PermissionType)
  | AuCleanup
  | AuAddUser (salt : Z) (name password : string)
  | AuDeleteUser (name : string)
  | AuGetUser (name : string)
  | AuListUsers
  | AuChangePassword (salt : Z) (name password : string)
  | AuGrantRole (username rolename : string)
  | AuRevokeRole (username rolename : string)
  | AuAddRole (name : string)
  | AuDeleteRole (name : string)
  | AuGetRole (name : string)
  | AuListRoles
  | AuGrantPermission (rolename : string) (perm : Permission)
  | AuRevokePermission (rolename key rangeEnd : string)
  | AuRestart.

Inductive AuthAnswer :=
  | AnsUnit (r : result AuthError unit)
  | AnsToken (r : result AuthError string)
  | AnsInfo (r : result AuthError TokenInfo)
  | AnsUser (r : result AuthError UserInfo)
  | AnsUsers (l : list UserInfo)
  | AnsRole (r : result AuthError RoleInfo)
  | AnsRoles (l : list RoleInfo).

(** ** The specification *)

Record AuthState := mkAuthState {
  a_enabled : bool;
  a_users : gmap string UserInfo;
  a_roles : gmap string RoleInfo;
  a_tokens : gmap string TokenInfo;
  a_stored : gmap string TokenInfo;
}.

Definition noAuth : AuthState := mkAuthState false ∅ ∅ ∅ ∅.

Definition withUsers (st : AuthState) (us : gmap string UserInfo) : AuthState :=
  mkAuthState (a_enabled st) us (a_roles st) (a_tokens st) (a_stored st).
Definition withRoles (st : AuthState) (rs : gmap string RoleInfo) : AuthState :=
  mkAuthState (a_enabled st) (a_users st) rs (a_tokens st) (a_stored st).
Definition withTokens (st : AuthState) (ts kept : gmap string TokenInfo) : AuthState :=
  mkAuthState (a_enabled st) (a_users st) (a_roles st) ts kept.
Definition withFlag (st : AuthState) (b : bool) : AuthState :=
  mkAuthState b (a_users st) (a_roles st) (a_tokens st) (a_stored st).

(** The accepted tokens of a kind go. *)
Definition withoutTokens (p : TokenInfo -> bool) (st : AuthState) : AuthState :=
  let gone := filter (fun x => p x.2 = true) (a_tokens st) in
  withTokens st (a_tokens st ∖ gone) (a_stored st ∖ gone).

Definition logOut (name : string) : AuthState -> AuthState :=
  withoutTokens (fun info => String.eqb (t_Username info) name).

(** The permission is in one of the roles. *)
Definition roleAllows (st : AuthState) (key : string) (want : PermissionType) (name : string) : bool :=
  match a_roles st !! name with
  | Some role => existsb (fun perm => grants perm key want) (r_Permissions role)
  | None => false
  end.

Definition withoutRole (name : string) (u : UserInfo) : UserInfo := setRoles u (otherRoles name (u_Roles u)).

Section spec.
Context `{!MapOrder, !Crypto}.
Variables (now ttl cost : Z).

Definition on {A} (e : AuthError) (o : option A) (st : AuthState) (f : A -> AuthState * result AuthError unit) :
    AuthState * AuthAnswer :=
  match o with
  | None => (st, AnsUnit (Err e))
  | Some a => let '(st', r) := f a in (st', AnsUnit r)
  end.

Definition specStep (st : AuthState) (op : AuthOp) : AuthState * AuthAnswer :=
  let user name := on (UserNotFound name) (a_users st !! name) st in
  let role name := on (RoleNotFound name) (a_roles st !! name) st in
  match op with
  | AuEnable => on NoRootUser (a_users st !! "root") st (fun _ => (withFlag st true, Ok tt))
  | AuDisable => (withTokens (withFlag st false) ∅ ∅, AnsUnit (Ok tt))
  | AuAuthenticate token username password =>
      match a_users st !! username with
      | None => (st, AnsToken (Err (UserNotFound username)))
      | Some u =>
          if negb (bcrypt_check (u_PasswordHash u) password) then (st, AnsToken (Err InvalidPassword))
          else
            match token with
            | None => (st, AnsToken (Err RandFailed))
            | Some t =>
                let info := mkTokenInfo t username (unix (now + ttl)) in
                (withTokens st (<[t := info]> (a_tokens st)) (<[t := info]> (a_stored st)), AnsToken (Ok t))
            end
      end
  | AuValidate t =>
      (st, AnsInfo match a_tokens st !! t with
                   | None => Err InvalidToken
                   | Some info => if unix now >? t_ExpiresAt info then Err TokenExpired else Ok info
                   end)
  | AuCheck username key want =>
      (st, AnsUnit (if String.eqb username "root" then Ok tt
                    else match a_users st !! username with
                         | None => Err (UserNotFound username)
                         | Some u => if existsb (roleAllows st key want) (u_Roles u) then Ok tt else Err AuthDenied
                         end))
  | AuCleanup => (withoutTokens (fun info => t_ExpiresAt info <? unix now) st, AnsUnit (Ok tt))
  | AuAddUser salt name password =>
      match a_users st !! name, bcrypt_hash cost salt password with
      | Some _, _ => (st, AnsUnit (Err (UserExists name)))
      | None, None => (st, AnsUnit (Err HashFailed))
      | None, Some h => (withUsers st (<[name := mkUserInfo name h [] (unix now)]> (a_users st)), AnsUnit (Ok tt))
      end
  | AuDeleteUser name =>
      if String.eqb name "root" then (st, AnsUnit (Err RootUserKept))
      else user name (fun _ => (logOut name (withUsers st (delete name (a_users st))), Ok tt))
  | AuGetUser name =>
      (st, AnsUser match a_users st !! name with None => Err (UserNotFound name) | Some u => Ok u end)
  | AuListUsers => (st, AnsUsers (range_map (a_users st)).*2)
  | AuChangePassword salt name password =>
      user name (fun u =>
        match bcrypt_hash cost salt password with
        | None => (st, Err HashFailed)
        | Some h => (logOut name (withUsers st (<[name := setHash u h]> (a_users st))), Ok tt)
        end)
  | AuGrantRole username rolename =>
      user username (fun u =>
        match a_roles st !! rolename with
        | None => (st, Err (RoleNotFound rolename))
        | Some _ =>
            if bool_decide (rolename ∈ u_Roles u) then (st, Ok tt)
            else (withUsers st (<[username := setRoles u (u_Roles u ++ [rolename])]> (a_users st)), Ok tt)
        end)
  | AuRevokeRole username rolename =>
      user username (fun u =>
        if bool_decide (rolename ∈ u_Roles u)
        then (withUsers st (<[username := withoutRole rolename u]> (a_users st)), Ok tt)
        else (st, Err RoleNotHeld))
  | AuAddRole name =>
      match a_roles st !! name with
      | Some _ => (st, AnsUnit (Err (RoleExists name)))
      | None => (withRoles st (<[name := mkRoleInfo name [] (unix now)]> (a_roles st)), AnsUnit (Ok tt))
      end
  | AuDeleteRole name =>
      if String.eqb name "root" then (st, AnsUnit (Err RootRoleKept))
      else role name (fun _ =>
             (withRoles (withUsers st (withoutRole name <$> a_users st)) (delete name (a_roles st)), Ok tt))
  | AuGetRole name =>
      (st, AnsRole match a_roles st !! name with None => Err (RoleNotFound name) | Some r => Ok r end)
  | AuListRoles => (st, AnsRoles (range_map (a_roles st)).*2)
  | AuGrantPermission rolename perm =>
      role rolename (fun r =>
        (withRoles st (<[rolename := setPermissions r (r_Permissions r ++ [perm])]> (a_roles st)), Ok tt))
  | AuRevokePermission rolename key rangeEnd =>
      role rolename (fun r =>
        if existsb (samePermRange key rangeEnd) (r_Permissions r)
        then (withRoles st (<[rolename := setPermissions r
                (List.filter (fun p => negb (samePermRange key rangeEnd p)) (r_Permissions r))]> (a_roles st)), Ok tt)
        else (st, Err PermissionNotFound))
  | AuRestart =>
      (withTokens st (filter (fun x => t_ExpiresAt x.2 > unix now) (a_stored st)) (a_stored st), AnsUnit (Ok tt))
  end.

End spec.

Definition runSpec `{!MapOrder, !Crypto} (ttl cost : Z) : list (Z * AuthOp) -> AuthState -> AuthState * list AuthAnswer :=
  fix go ops st :=
    match ops with
    | [] => (st, [])
    | (now, op) :: ops' =>
        let '(st1, ans) := specStep now ttl cost st op in
        let '(st2, answers) := go ops' st1 in (st2, ans :: answers)
    end.

(** ** The operations of the manager *)

Section run.
Context {S : Type} `{!Store S, !MapOrder, !Crypto, !TextWire UserInfo, !TextWire RoleInfo, !TextWire TokenInfo}.

Definition unitOp (x : AuthManager S * result AuthError unit) : AuthManager S * AuthAnswer := (x.1, AnsUnit x.2).

Definition authStep (now : Z) (am : AuthManager S) (op : AuthOp) : AuthManager S * AuthAnswer :=
  match op with
  | AuEnable => unitOp (Enable now am)
  | AuDisable => unitOp (Disable now am)
  | AuAuthenticate token username password =>
      let '(am', r) := Authenticate now token am username password in (am', AnsToken r)
  | AuValidate token => (am, AnsInfo (ValidateToken now am token))
  | AuCheck username key want => (am, AnsUnit (CheckPermission am username key want))
  | AuCleanup => (cleanupExpiredTokens now am, AnsUnit (Ok tt))
  | AuAddUser salt name password => unitOp (AddUser now salt am name password)
  | AuDeleteUser name => unitOp (DeleteUser am name)
  | AuGetUser name => (am, AnsUser (GetUser am name))
  | AuListUsers => (am, AnsUsers (ListUsers am))
  | AuChangePassword salt name password => unitOp (ChangePassword now salt am name password)
  | AuGrantRole username rolename => unitOp (GrantRole now am username rolename)
  | AuRevokeRole username rolename => unitOp (RevokeRole now am username rolename)
  | AuAddRole name => unitOp (AddRole now am name)
  | AuDeleteRole name => unitOp (DeleteRole now am name)
  | AuGetRole name => (am, AnsRole (GetRole am name))
  | AuListRoles => (am, AnsRoles (ListRoles am))
  | AuGrantPermission rolename perm => unitOp (GrantPermission now am rolename perm)
  | AuRevokePermission rolename key rangeEnd => unitOp (RevokePermission now am rolename key rangeEnd)
  | AuRestart => (NewAuthManager now (store am) (tokenTTL am) (bcryptCost am), AnsUnit (Ok tt))
  end.

Fixpoint runAuth (am : AuthManager S) (ops : list (Z * AuthOp)) : AuthManager S * list AuthAnswer :=
  match ops with
  | [] => (am, [])
  | (now, op) :: ops' =>
      let '(am1, ans) := authStep now am op in
      let '(am2, answers) := runAuth am1 ops' in (am2, ans :: answers)
  end.

End run.

(** ** Encodings *)

(** What JSON keeps: strings in UTF-8, which has no byte [\xff]. *)
Class AuthWire `{!Crypto, !TextWire UserInfo, !TextWire RoleInfo, !TextWire TokenInfo} (goodText : string -> Prop) := {
  user_wire u : goodText (u_Name u) -> goodText (u_PasswordHash u) -> Forall goodText (u_Roles u) ->
    text_exact u /\ is_Some (text_marshal u);
  role_wire r : goodText (r_Name r) -> text_exact r /\ is_Some (text_marshal r);
  token_wire t : goodText (t_Token t) -> goodText (t_Username t) -> text_exact t /\ is_Some (text_marshal t);
  goodText_below s : goodText s -> str_ltb s (String (byte_of 255) "") = true;
  hash_good cost salt password h : bcrypt_hash cost salt password = Some h -> goodText h;
}.

(** ** Keys *)

Lemma append_inj (p s t : string) : p +:+ s = p +:+ t -> s = t.
Proof. induction p as [|c p IH]; [done|]. intros [= H]. by apply IH. Qed.

(** The keys of a prefix that a load finds. *)
Lemma in_prefix p x : str_ltb x (String (byte_of 255) "") = true ->
  matchWatch (p +:+ x) p (prefixEnd p) = true.
Proof.
  intros Hx. unfold matchWatch. replace (String.eqb (prefixEnd p) "") with false.
  2:{ symmetry. apply String.eqb_neq. unfold prefixEnd. by destruct p. }
  rewrite str_leb_prefix. cbn. apply orb_true_iff. right. unfold str_ltb, String.ltb in *.
  unfold prefixEnd. by rewrite str_compare_prefix.
Qed.

(** A key between a prefix and its end has the prefix. *)
Lemma between_prefix p k :
  str_leb p k = true -> str_ltb k (prefixEnd p) = true -> exists x, k = p +:+ x.
Proof.
  revert k. induction p as [|c p IH]; intros k H1 H2; [by exists k|].
  destruct k as [|c' k]; [done|]. unfold str_leb, str_ltb, String.leb, String.ltb, prefixEnd in *. simpl in H1, H2.
  unfold Ascii.compare in *.
  destruct (N.compare_spec (N_of_ascii c) (N_of_ascii c')) as [E|E|E]; [| |done].
  - rewrite <- E, N.compare_refl in H2.
    destruct (IH k H1 H2) as [x ->]. exists x. cbn. f_equal.
    rewrite <- (ascii_N_embedding c), <- (ascii_N_embedding c'). by rewrite E.
  - rewrite (proj2 (N.compare_gt_iff _ _)) in H2 by done. done.
Qed.

Lemma prefixEnd_not_nul p : p <> "" -> String.eqb (prefixEnd p) nulKey = false.
Proof.
  intros Hp. apply String.eqb_neq. destruct p as [|c [|c' p]]; [done| |]; intros [=].
Qed.

Lemma prefix_range p k : p <> "" ->
  matchWatch k p (prefixEnd p) = true <-> exists x, k = p +:+ x /\ str_ltb x (String (byte_of 255) "") = true.
Proof.
  intros Hp. split.
  - unfold matchWatch. replace (String.eqb (prefixEnd p) "") with false.
    2:{ symmetry. apply String.eqb_neq. unfold prefixEnd. by destruct p. }
    rewrite prefixEnd_not_nul by done. cbn. intros [H1 H2]%andb_true_iff.
    destruct (between_prefix p k H1 H2) as [x ->]. exists x. split; [done|].
    unfold str_ltb, String.ltb, prefixEnd in *. by rewrite str_compare_prefix in H2.
  - intros (x & -> & Hx). by apply in_prefix.
Qed.

(** ** A cache and the records of its prefix *)

Definition mirrors {A} `{!TextWire A} (prefix : string) (ok : string -> A -> Prop) (m : gmap string A)
    (kv : gmap string string) : Prop :=
  (forall x, kv !! (prefix +:+ x) = m !! x ≫= text_marshal) /\ map_Forall ok m.

Section mirrors.
Context {A : Type} `{!TextWire A} (prefix : string) (ok : string -> A -> Prop).

Lemma mirrors_insert m kv x a d :
  mirrors prefix ok m kv -> ok x a -> text_marshal a = Some d ->
  mirrors prefix ok (<[x := a]> m) (<[prefix +:+ x := d]> kv).
Proof.
  intros [Hk Hm] Ha Hd. split; [|by apply map_Forall_insert_2]. intros y. destruct (decide (x = y)) as [->|Hne].
  - by rewrite !lookup_insert_eq.
  - rewrite !lookup_insert_ne; [apply Hk|done|]. by intros ?%append_inj.
Qed.

Lemma mirrors_delete m kv x :
  mirrors prefix ok m kv -> mirrors prefix ok (delete x m) (delete (prefix +:+ x) kv).
Proof.
  intros [Hk Hm]. split; [|by apply map_Forall_delete]. intros y. destruct (decide (x = y)) as [->|Hne].
  - by rewrite !lookup_delete_eq.
  - rewrite !lookup_delete_ne; [apply Hk|done|]. by intros ?%append_inj.
Qed.

Lemma mirrors_frame m kv kv' :
  (forall x, kv' !! (prefix +:+ x) = kv !! (prefix +:+ x)) -> mirrors prefix ok m kv -> mirrors prefix ok m kv'.
Proof. intros He [Hk Hm]. split; [|done]. intros x. by rewrite He. Qed.

(** A load finds exactly what the cache had. *)
Context (name : A -> string) (valid : A -> bool).

Lemma loadAll_lookup kvs : forall (m : gmap string A) x a,
  NoDup (Key <$> kvs) ->
  Forall (fun kv => exists b, text_unmarshal (Value kv) = Some b /\ Key kv = prefix +:+ name b) kvs ->
  (loadAll name valid kvs m !! x = Some a <->
   (exists kv, kv ∈ kvs /\ text_unmarshal (Value kv) = Some a /\ valid a = true /\ name a = x) \/
   (m !! x = Some a /\
    ~ exists kv b, kv ∈ kvs /\ text_unmarshal (Value kv) = Some b /\ valid b = true /\ name b = x)).
Proof.
  induction kvs as [|kv kvs IH]; intros m x a Hnd Hall.
  { cbn. set_solver. }
  change (loadAll name valid (kv :: kvs) m) with (loadAll name valid kvs
    match text_unmarshal (Value kv) with Some a => if valid a then <[name a := a]> m else m | None => m end).
  apply NoDup_cons in Hnd as [Hnin Hnd]. apply Forall_cons in Hall as [(b & Hb & Hkey) Hall].
  rewrite IH by done. rewrite Hb. setoid_rewrite elem_of_cons.
  assert (Hother : forall kv' b', kv' ∈ kvs -> text_unmarshal (Value kv') = Some b' -> name b' <> name b).
  { intros kv' b' Hin Hb' Hn. apply Hnin. apply list_elem_of_fmap. exists kv'. split; [|done].
    rewrite Forall_forall in Hall. destruct (Hall _ Hin) as (b2 & Hb2 & Hk2). rewrite Hb' in Hb2. simplify_eq.
    by rewrite Hkey, Hk2, Hn. }
  destruct (valid b) eqn:Hv.
  - destruct (decide (x = name b)) as [->|Hne].
    + rewrite lookup_insert_eq. split.
      * intros [(kv' & Hin & Hb' & _ & Hn)|[? _]]; [by destruct (Hother kv' a)|simplify_eq]. left. exists kv. auto.
      * intros [(kv' & [->|Hin] & Hb' & _ & Hn)|[_ Hno]].
        -- right. split; [congruence|]. intros (kv' & b' & Hin & Hb'' & _ & Hn'). by destruct (Hother kv' b').
        -- by destruct (Hother kv' a).
        -- destruct Hno. exists kv, b. auto.
    + rewrite lookup_insert_ne by done. split.
      * intros [(kv' & Hin & H)|[Hm Hno]]; [left; exists kv'; tauto|]. right. split; [done|].
        intros (kv' & b' & [->|Hin] & Hb' & Hv' & Hn'); [congruence|]. apply Hno. eauto 10.
      * intros [(kv' & [->|Hin] & Hb' & Hv' & Hn)|[Hm Hno]]; [congruence|left; eauto 10|]. right. split; [done|].
        intros (kv' & b' & Hin & H). apply Hno. exists kv', b'. tauto.
  - split.
    + intros [(kv' & Hin & H)|[Hm Hno]]; [left; exists kv'; tauto|]. right. split; [done|].
      intros (kv' & b' & [->|Hin] & Hb' & Hv' & Hn'); [congruence|]. apply Hno. eauto 10.
    + intros [(kv' & [->|Hin] & Hb' & Hv' & Hn)|[Hm Hno]]; [congruence|left; eauto 10|]. right. split; [done|].
      intros (kv' & b' & Hin & H). apply Hno. exists kv', b'. tauto.
Qed.

Lemma loadAll_mirrors (d : gmap string KeyValue) m :
  prefix <> "" -> keyed d -> mirrors prefix ok m (valuesOf d) ->
  (forall x a, ok x a -> name a = x /\ (text_exact a /\ is_Some (text_marshal a)) /\ str_ltb x (String (byte_of 255) "") = true) ->
  loadAll name valid (rangeRecords d prefix (prefixEnd prefix)) ∅ = filter (fun p => valid p.2 = true) m.
Proof.
  intros Hp Hkd [Hk Hm] Hok.
  assert (Hrec : forall kv, kv ∈ rangeRecords d prefix (prefixEnd prefix) <->
    d !! Key kv = Some kv /\ exists x, Key kv = prefix +:+ x /\ str_ltb x (String (byte_of 255) "") = true).
  { intros kv. rewrite elem_of_rangeRecords by done. by rewrite (prefix_range prefix) by done. }
  assert (Hval : forall x kv, d !! (prefix +:+ x) = Some kv -> m !! x ≫= text_marshal = Some (Value kv)).
  { intros x kv Hd. rewrite <- Hk. unfold valuesOf. by rewrite lookup_fmap, Hd. }
  assert (Hdec : forall x kv, d !! (prefix +:+ x) = Some kv ->
    exists a, m !! x = Some a /\ text_unmarshal (Value kv) = Some a /\ name a = x).
  { intros x kv Hd. specialize (Hval _ _ Hd). destruct (m !! x) as [a|] eqn:E; [|done]. exists a.
    destruct (Hok _ _ (Hm _ _ E)) as (Hn & [Hex _] & _). split; [done|]. split; [|done]. by eapply text_roundtrip. }
  apply map_eq. intros x. apply option_eq. intros a. rewrite loadAll_lookup.
  - rewrite map_lookup_filter_Some, lookup_empty. cbn [snd]. split.
    + intros [(kv & [Hd (y & Hy & _)]%Hrec & Hb & Hv & Hn)|[? _]]; [|done]. rewrite Hy in Hd.
      destruct (Hdec _ _ Hd) as (a' & Hm' & Hb' & Hn'). simplify_eq. done.
    + intros [Hmx Hv]. left. destruct (Hok _ _ (Hm _ _ Hmx)) as (Hn & [_ [v Hmar]] & Hlt).
      pose proof (Hk x) as Hx. rewrite Hmx in Hx. cbn in Hx. unfold valuesOf in Hx. rewrite lookup_fmap in Hx.
      assert (Hs : is_Some (d !! (prefix +:+ x))).
      { destruct (d !! (prefix +:+ x)); [by eexists|]. cbn in Hx.
        by rewrite Hmar in Hx. }
      destruct Hs as [kv Hd]. exists kv. destruct (Hdec _ _ Hd) as (a' & Hm' & Hb' & Hn'). simplify_eq.
      pose proof (Hkd _ _ Hd) as Hkey. cbn in Hkey. rewrite Hrec, Hkey. eauto 10.
  - by apply rangeRecords_nodup.
  - apply Forall_forall. intros kv [Hd (y & Hx & _)]%Hrec. rewrite Hx in Hd.
    destruct (Hdec _ _ Hd) as (b & _ & Hb & Hn). exists b. by rewrite Hn.
Qed.

End mirrors.

(** ** What the loops do to the cache, whatever the store does *)

Section cache.
Context {S : Type} `{!Store S, !MapOrder, !TextWire UserInfo}.

Implicit Types (am : AuthManager S).

Lemma delete_all_lookup {A} (ts : list string) : forall (m : gmap string A) x,
  fold_left (fun m t => delete t m) ts m !! x = if decide (x ∈ ts) then None else m !! x.
Proof.
  induction ts as [|t ts IH]; intros m x; cbn [fold_left]; [by rewrite decide_False by (by intros ?%elem_of_nil)|]. rewrite IH.
  destruct (decide (x ∈ ts)) as [Hin|Hin]; [by rewrite decide_True by (by right)|].
  destruct (decide (x = t)) as [->|Hne].
  - rewrite decide_True by (by left). by rewrite lookup_delete_eq.
  - rewrite decide_False by (intros [?|?]%elem_of_cons; done). by rewrite lookup_delete_ne.
Qed.

Lemma dropTokens_cache ts : forall am,
  exists s', dropTokens am ts = setStore (setTokens am (fold_left (fun m t => delete t m) ts (tokens am))) s'.
Proof.
  induction ts as [|t ts IH]; intros am; cbn [dropTokens fold_left].
  { exists (store am). by destruct am. }
  unfold erase. destruct (st_DeleteRange _ _ _) as [s1 [r|e]]; destruct (IH (setStore (setTokens am (delete t (tokens am))) s1)) as [s' Hs];
    exists s'; exact Hs.
Qed.

Lemma elem_of_tokensWhere am p x :
  x ∈ tokensWhere am p <-> exists info, tokens am !! x = Some info /\ p info = true.
Proof.
  unfold tokensWhere. rewrite list_elem_of_fmap. setoid_rewrite list_elem_of_In. setoid_rewrite filter_In.
  setoid_rewrite <- list_elem_of_In. split.
  - intros ([y info] & -> & Hin & Hp). exists info. by rewrite elem_of_range_map in Hin.
  - intros (info & Hx & Hp). exists (x, info). by rewrite elem_of_range_map.
Qed.

Lemma length_tokensWhere am p : (length (tokensWhere am p) <= size (tokens am))%nat.
Proof.
  unfold tokensWhere. rewrite length_fmap.
  assert (Hr : length (range_map (tokens am)) = size (tokens am)).
  { rewrite (Permutation_length (range_map_perm _)). apply length_map_to_list. }
  rewrite <- Hr. apply filter_length_le.
Qed.

Lemma delete_where am p (m : gmap string TokenInfo) :
  fold_left (fun m t => delete t m) (tokensWhere am p) m = m ∖ filter (fun x => p x.2 = true) (tokens am).
Proof.
  apply map_eq. intros x. rewrite delete_all_lookup, lookup_difference.
  destruct (filter _ (tokens am) !! x) as [info|] eqn:E.
  - apply map_lookup_filter_Some in E. rewrite decide_True by (apply elem_of_tokensWhere; eauto). done.
  - rewrite decide_False; [done|]. intros (info & Hx & Hp)%elem_of_tokensWhere.
    rewrite map_lookup_filter_None in E. destruct E as [E|E]; [congruence|]. by apply (E info).
Qed.

Lemma existsb_elem (name : string) (l : list string) : existsb (String.eqb name) l = bool_decide (name ∈ l).
Proof.
  apply eq_true_iff_eq. rewrite bool_decide_eq_true, existsb_exists, list_elem_of_In. split.
  - by intros (x & Hx & ->%String.eqb_eq).
  - intros Hin. exists name. by rewrite String.eqb_refl.
Qed.

Lemma withoutRole_id name u : name ∉ u_Roles u -> withoutRole name u = u.
Proof.
  intros Hn. destruct u as [nm h rs c]. unfold withoutRole, setRoles, otherRoles. cbn in *. f_equal.
  induction rs as [|r rs IH]; [done|]. cbn. rewrite not_elem_of_cons in Hn. destruct Hn as [Hr Hn].
  assert ((r =? name)%string = false) as -> by (by apply String.eqb_neq). cbn. by rewrite IH.
Qed.

(** The role is taken from the users of the list. *)
Lemma dropRole_cache now name us : forall am,
  NoDup us.*1 -> (forall x u, (x, u) ∈ us -> users am !! x = Some u) ->
  exists s' U, dropRole now am name us = setStore (setUsers am U) s' /\
    forall x : string, U !! x = if decide (x ∈ us.*1) then withoutRole name <$> users am !! x else users am !! x.
Proof.
  induction us as [|[x u] us IH]; intros am Hnd Hin.
  { exists (store am), (users am). split; [by destruct am|done]. }
  rewrite fmap_cons in *. cbn [fst] in *. apply NoDup_cons in Hnd as [Hnin Hnd]. cbn [dropRole].
  assert (Hx : users am !! x = Some u) by (apply Hin; by left).
  assert (Hrest : forall y v, (y, v) ∈ us -> y <> x).
  { intros y v Hy ->. apply Hnin. apply list_elem_of_fmap. by exists (x, v). }
  rewrite existsb_elem. case_bool_decide as Hrole.
  - fold (withoutRole name u). unfold persistQuietly.
    set (am1 := setStore (setUsers am (<[x := withoutRole name u]> (users am))) _).
    assert (Hin1 : forall y v, (y, v) ∈ us -> users am1 !! y = Some v).
    { intros y v Hy. cbn [am1 users setStore setUsers]. rewrite lookup_insert_ne by (intros <-; by eapply Hrest).
      apply Hin. by right. }
    destruct (IH am1 Hnd Hin1) as (s2 & U & Hd & HU).
    exists s2, U. split; [exact Hd|]. intros y. rewrite HU. cbn [am1 users setStore setUsers].
    destruct (decide (y = x)) as [->|Hne].
    + rewrite (decide_False (P := x ∈ us.*1)) by done. rewrite decide_True by (by left). by rewrite lookup_insert_eq, Hx.
    + rewrite lookup_insert_ne by done. apply decide_ext. rewrite elem_of_cons. tauto.
  - assert (Hin1 : forall y v, (y, v) ∈ us -> users am !! y = Some v) by (intros y v Hy; apply Hin; by right).
    destruct (IH am Hnd Hin1) as (s2 & U & Hd & HU).
    exists s2, U. split; [exact Hd|]. intros y. rewrite HU.
    destruct (decide (y = x)) as [->|Hne].
    + rewrite (decide_False (P := x ∈ us.*1)) by done. rewrite decide_True by (by left). rewrite Hx. cbn.
      by rewrite withoutRole_id.
    + apply decide_ext. rewrite elem_of_cons. tauto.
Qed.

Lemma dropRole_users now name am :
  exists s', dropRole now am name (range_map (users am)) = setStore (setUsers am (withoutRole name <$> users am)) s'.
Proof.
  destruct (dropRole_cache now name (range_map (users am)) am) as (s' & U & Hd & HU).
  - apply range_map_nodup.
  - intros x u. apply elem_of_range_map.
  - exists s'. rewrite Hd. do 2 f_equal. apply map_eq. intros x. rewrite HU, lookup_fmap. case_decide as Hx; [done|].
    destruct (users am !! x) as [u|] eqn:E; [|done]. destruct Hx. apply list_elem_of_fmap. exists (x, u).
    by rewrite elem_of_range_map.
Qed.

End cache.

(** ** The whole state *)

Section refine.
Context {S : Type} `{!Store S, !StoreLaws S, !MapOrder, !Crypto, !TextWire UserInfo, !TextWire RoleInfo, !TextWire TokenInfo}.
Context {goodText : string -> Prop} `{!AuthWire goodText}.

Implicit Types (am : AuthManager S).

Definition userOk (x : string) (u : UserInfo) : Prop :=
  u_Name u = x /\ goodText x /\ goodText (u_PasswordHash u) /\ Forall goodText (u_Roles u).
Definition roleOk (x : string) (r : RoleInfo) : Prop := r_Name r = x /\ goodText x.
Definition tokenOk (x : string) (t : TokenInfo) : Prop := t_Token t = x /\ goodText x /\ goodText (t_Username t).

Definition vals (s : S) : gmap string string := valuesOf (st_contents s).

(** [kept] are the tokens in the store: the expired ones that a load skipped are
    still there. *)
Record Durable (n : nat) (am : AuthManager S) (kept : gmap string TokenInfo) : Prop := {
  du_ready : st_ready n (store am);
  du_flag : vals (store am) !! authEnabledKey = Some "true" <-> enabled am = true;
  du_users : mirrors authUserPrefix userOk (users am) (vals (store am));
  du_roles : mirrors authRolePrefix roleOk (roles am) (vals (store am));
  du_tokens : mirrors authTokenPrefix tokenOk kept (vals (store am));
}.

Definition view (am : AuthManager S) (kept : gmap string TokenInfo) : AuthState :=
  mkAuthState (enabled am) (users am) (roles am) (tokens am) kept.

Lemma Durable_le n m am kept : (n <= m)%nat -> Durable m am kept -> Durable n am kept.
Proof. intros Hle []. split; try done. by eapply st_ready_le. Qed.

(** A write under one prefix leaves the others. *)
Ltac other_key := unfold authEnabledKey, authUserPrefix, authRolePrefix, authTokenPrefix in *; simpl; intros [=].
Ltac frame := eapply mirrors_frame; [|eassumption]; intros ?;
  first [rewrite lookup_insert_ne by other_key | rewrite lookup_delete_ne by other_key]; done.

Lemma storePut_ok n now s key value :
  st_ready (Datatypes.S n) s -> exists s' r, st_PutWithLease now s key value 0 = (s', Ok r) /\ st_ready n s' /\
    vals s' = <[key := value]> (vals s).
Proof. apply st_Put_spec. Qed.

Lemma persist_ok {A} `{!TextWire A} n now s key (a : A) d :
  st_ready (Datatypes.S n) s -> text_marshal a = Some d ->
  exists s', (forall am, store am = s -> persist now am key a = (setStore am s', Ok tt) /\
                                         persistQuietly now am key a = setStore am s') /\
    st_ready n s' /\ vals s' = <[key := d]> (vals s).
Proof.
  intros Hr Hd. destruct (storePut_ok n now s key d Hr) as (s' & r & Hput & Hr' & Hv). exists s'. split; [|done].
  intros am <-. unfold persist, persistQuietly. rewrite Hd. simpl. rewrite Hput. split; reflexivity.
Qed.

Lemma durable_user n now am kept x u :
  Durable (Datatypes.S n) am kept -> userOk x u ->
  exists s', (forall am0, store am0 = store am -> persist now am0 (authUserPrefix +:+ x) u = (setStore am0 s', Ok tt) /\
                                                  persistQuietly now am0 (authUserPrefix +:+ x) u = setStore am0 s') /\
    Durable n (setStore (setUsers am (<[x := u]> (users am))) s') kept.
Proof.
  intros [Hr Hf Hu Ho Ht] Hok. pose proof Hok as (Hn & Hx & Hh & Hrs).
  destruct (user_wire u) as [_ [d Hd]]; [by rewrite Hn|done|done|].
  destruct (persist_ok n now (store am) (authUserPrefix +:+ x) u d Hr Hd) as (s' & Hp & Hr' & Hv).
  exists s'. split; [done|]. split; cbn [store enabled users roles setStore setUsers]; rewrite ?Hv; try done.
  - rewrite lookup_insert_ne by other_key. done.
  - by apply mirrors_insert.
  - by frame.
  - by frame.
Qed.

Lemma durable_role n now am kept x r :
  Durable (Datatypes.S n) am kept -> roleOk x r ->
  exists s', (forall am0, store am0 = store am -> persist now am0 (authRolePrefix +:+ x) r = (setStore am0 s', Ok tt)) /\
    Durable n (setStore (setRoleMap am (<[x := r]> (roles am))) s') kept.
Proof.
  intros [Hr Hf Hu Ho Ht] Hok. pose proof Hok as (Hn & Hx).
  destruct (role_wire r) as [_ [d Hd]]; [by rewrite Hn|].
  destruct (persist_ok n now (store am) (authRolePrefix +:+ x) r d Hr Hd) as (s' & Hp & Hr' & Hv).
  exists s'. split; [intros am0 Hs0; by apply Hp|]. split; cbn [store enabled users roles setStore setRoleMap]; rewrite ?Hv; try done.
  - rewrite lookup_insert_ne by other_key. done.
  - by frame.
  - by apply mirrors_insert.
  - by frame.
Qed.

Lemma durable_token n now am kept x t :
  Durable (Datatypes.S n) am kept -> tokenOk x t ->
  exists s', (forall am0, store am0 = store am -> persist now am0 (authTokenPrefix +:+ x) t = (setStore am0 s', Ok tt)) /\
    Durable n (setStore (setTokens am (<[x := t]> (tokens am))) s') (<[x := t]> kept).
Proof.
  intros [Hr Hf Hu Ho Ht] Hok. pose proof Hok as (Hn & Hx & Hun).
  destruct (token_wire t) as [_ [d Hd]]; [by rewrite Hn|done|].
  destruct (persist_ok n now (store am) (authTokenPrefix +:+ x) t d Hr Hd) as (s' & Hp & Hr' & Hv).
  exists s'. split; [intros am0 Hs0; by apply Hp|]. split; cbn [store enabled users roles setStore setTokens]; rewrite ?Hv; try done.
  - rewrite lookup_insert_ne by other_key. done.
  - by frame.
  - by frame.
  - by apply mirrors_insert.
Qed.

Lemma durable_flag n now am kept b :
  Durable (Datatypes.S n) am kept ->
  exists s', putFlag now (setEnabled am b) (if b then "true" else "false") = (setStore (setEnabled am b) s', Ok tt) /\
    Durable n (setStore (setEnabled am b) s') kept.
Proof.
  intros [Hr Hf Hu Ho Ht]. destruct (storePut_ok n now (store am) authEnabledKey (if b then "true" else "false") Hr)
    as (s' & r & Hput & Hr' & Hv). exists s'. unfold putFlag. cbn [store setEnabled]. rewrite Hput. split; [done|].
  split; cbn [store enabled users roles setStore setEnabled]; rewrite ?Hv; try done; try by frame.
  rewrite lookup_insert_eq. by destruct b.
Qed.

(** ** Deletions *)

Lemma erase_key n am key :
  st_ready (Datatypes.S n) (store am) ->
  exists s', erase am key "" = (setStore am s', true) /\ st_ready n s' /\ vals s' = delete key (vals (store am)).
Proof.
  intros Hr. destruct (st_DeleteRange_spec n (store am) key "" Hr) as (s' & r & Hdel & Hr' & Hc).
  exists s'. unfold erase. rewrite Hdel. split_and!; [done|done|]. unfold vals. rewrite Hc. unfold valuesOf.
  apply map_eq. intros x. rewrite lookup_fmap, lookup_delete, lookup_fmap. unfold outside.
  destruct (decide (key = x)) as [->|Hne].
  - replace (filter _ _ !! x) with (@None KeyValue); [done|]. symmetry. apply map_lookup_filter_None. right. intros kv _.
    unfold matchWatch. cbn. by rewrite String.eqb_refl.
  - f_equal. apply option_eq. intros kv. rewrite map_lookup_filter_Some. unfold matchWatch. cbn.
    assert ((x =? key)%string = false) as -> by (apply String.eqb_neq; congruence). naive_solver.
Qed.

Lemma durable_eraseUser n am kept x :
  Durable (Datatypes.S n) am kept ->
  exists s', erase am (authUserPrefix +:+ x) "" = (setStore am s', true) /\
    Durable n (setStore (setUsers am (delete x (users am))) s') kept.
Proof.
  intros [Hr Hf Hu Ho Ht]. destruct (erase_key n am (authUserPrefix +:+ x) Hr) as (s' & He & Hr' & Hv).
  exists s'. split; [done|]. split; cbn [store enabled users roles setStore setUsers]; rewrite ?Hv; try done.
  - rewrite lookup_delete_ne by other_key. done.
  - by apply mirrors_delete.
  - by frame.
  - by frame.
Qed.

Lemma durable_eraseRole n am kept x :
  Durable (Datatypes.S n) am kept ->
  exists s', erase (setRoleMap am (delete x (roles am))) (authRolePrefix +:+ x) "" =
      (setStore (setRoleMap am (delete x (roles am))) s', true) /\
    Durable n (setStore (setRoleMap am (delete x (roles am))) s') kept.
Proof.
  intros [Hr Hf Hu Ho Ht].
  destruct (erase_key n (setRoleMap am (delete x (roles am))) (authRolePrefix +:+ x) Hr) as (s' & He & Hr' & Hv).
  exists s'. split; [done|]. cbn [store setRoleMap] in Hv.
  split; cbn [store enabled users roles setStore setRoleMap]; rewrite ?Hv; try done.
  - rewrite lookup_delete_ne by other_key. done.
  - by frame.
  - by apply mirrors_delete.
  - by frame.
Qed.

Lemma durable_eraseToken n am kept x :
  Durable (Datatypes.S n) am kept ->
  let am0 := setTokens am (delete x (tokens am)) in
  exists s', erase am0 (authTokenPrefix +:+ x) "" = (setStore am0 s', true) /\
    Durable n (setStore am0 s') (delete x kept).
Proof.
  intros [Hr Hf Hu Ho Ht] am0.
  destruct (erase_key n am0 (authTokenPrefix +:+ x) Hr) as (s' & He & Hr' & Hv).
  exists s'. split; [done|]. cbn [store setTokens am0] in Hv.
  split; cbn [store enabled users roles setStore setTokens am0]; rewrite ?Hv; try done.
  - rewrite lookup_delete_ne by other_key. done.
  - by frame.
  - by frame.
  - by apply mirrors_delete.
Qed.

(** The deletion of all tokens. *)
Lemma durable_eraseTokens n am kept :
  Durable (Datatypes.S n) am kept ->
  let am0 := setTokens am ∅ in
  exists s', erase am0 authTokenPrefix (prefixEnd authTokenPrefix) = (setStore am0 s', true) /\
    Durable n (setStore am0 s') ∅.
Proof.
  intros [Hr Hf Hu Ho Ht] am0.
  destruct (st_DeleteRange_spec n (store am) authTokenPrefix (prefixEnd authTokenPrefix) Hr) as (s' & r & Hdel & Hr' & Hc).
  exists s'. unfold erase. cbn [store setTokens am0]. rewrite Hdel. split; [done|].
  assert (Hv : forall k, vals s' !! k = if matchWatch k authTokenPrefix (prefixEnd authTokenPrefix) then None else vals (store am) !! k).
  { intros k. unfold vals, valuesOf. rewrite Hc, !lookup_fmap. unfold outside. destruct (matchWatch k _ _) eqn:E.
    - replace (filter _ _ !! k) with (@None KeyValue); [done|]. symmetry. apply map_lookup_filter_None. right.
      intros kv _. cbn. congruence.
    - f_equal. apply option_eq. intros kv. rewrite map_lookup_filter_Some. cbn. naive_solver. }
  assert (Hout : forall k, (forall x, k <> authTokenPrefix +:+ x) -> vals s' !! k = vals (store am) !! k).
  { intros k Hk. rewrite Hv. destruct (matchWatch k _ _) eqn:E; [|done].
    apply prefix_range in E as (x & -> & _); [|done]. by destruct (Hk x). }
  split; cbn [store enabled users roles setStore setTokens am0]; try done.
  - rewrite Hout by (intros x; other_key). done.
  - eapply mirrors_frame; [|done]. intros x. apply Hout. intros y. other_key.
  - eapply mirrors_frame; [|done]. intros x. apply Hout. intros y. other_key.
  - split; [|apply map_Forall_empty]. intros x. rewrite lookup_empty. cbn. rewrite Hv.
    destruct (matchWatch _ _ _) eqn:E; [done|]. destruct Ht as [Hk Hok]. rewrite Hk.
    destruct (kept !! x) as [t|] eqn:Ex; [|done]. destruct (Hok _ _ Ex) as (_ & Hx & _).
    rewrite in_prefix in E by (by apply goodText_below). done.
Qed.

(** ** The loops *)

Lemma dropTokens_ok ts : forall n am kept,
  Durable (length ts + n) am kept -> Durable n (dropTokens am ts) (fold_left (fun m t => delete t m) ts kept).
Proof.
  induction ts as [|t ts IH]; intros n am kept HD; cbn [dropTokens fold_left]; [done|].
  destruct (durable_eraseToken _ am kept t HD) as (s1 & -> & HD1). by apply IH.
Qed.

Lemma dropWhere_ok p n am kept :
  Durable (size (tokens am) + n) am kept ->
  exists s', dropTokens am (tokensWhere am p) = setStore (setTokens am (tokens am ∖ filter (fun x => p x.2 = true) (tokens am))) s' /\
    Durable n (setStore (setTokens am (tokens am ∖ filter (fun x => p x.2 = true) (tokens am))) s')
      (kept ∖ filter (fun x => p x.2 = true) (tokens am)).
Proof.
  intros HD. pose proof (length_tokensWhere am p). rewrite <- !delete_where.
  destruct (dropTokens_cache (tokensWhere am p) am) as [s' Hs]. exists s'. split; [done|]. rewrite <- Hs.
  apply dropTokens_ok. eapply Durable_le; [|done]. lia.
Qed.

Lemma withoutRole_ok name x u : userOk x u -> userOk x (withoutRole name u).
Proof.
  intros (Hn & Hx & Hh & Hr). split_and!; try done. cbn. unfold otherRoles. rewrite Forall_forall in *.
  intros r [Hin _]%list_elem_of_In%filter_In. apply Hr. by apply list_elem_of_In.
Qed.

Lemma dropRole_ok now name us : forall n am kept,
  NoDup us.*1 -> (forall x u, (x, u) ∈ us -> users am !! x = Some u) -> Durable (length us + n) am kept ->
  Durable n (dropRole now am name us) kept.
Proof.
  induction us as [|[x u] us IH]; intros n am kept Hnd Hin HD; [done|].
  rewrite fmap_cons in Hnd. apply NoDup_cons in Hnd as [Hnin Hnd]. cbn [dropRole fst] in *.
  rewrite existsb_elem. case_bool_decide as Hrole.
  - assert (Hok : userOk x (withoutRole name u)).
    { apply withoutRole_ok. apply (proj2 (du_users _ _ _ HD)). apply Hin. by left. }
    destruct (durable_user _ now am kept x _ HD Hok) as (s1 & Hp & HD1). fold (withoutRole name u).
    rewrite (proj2 (Hp (setUsers am (<[x := withoutRole name u]> (users am))) eq_refl)).
    apply IH; [done| |done]. intros y v Hy. cbn [users setStore setUsers].
    rewrite lookup_insert_ne; [apply Hin; by right|]. intros <-. apply Hnin. apply list_elem_of_fmap. by exists (x, v).
  - apply IH; [done|intros y v Hy; apply Hin; by right|]. eapply Durable_le; [|done]. simpl. lia.
Qed.

Lemma dropRole_all now name n am kept :
  Durable (size (users am) + n) am kept ->
  exists s', dropRole now am name (range_map (users am)) = setStore (setUsers am (withoutRole name <$> users am)) s' /\
    Durable n (setStore (setUsers am (withoutRole name <$> users am)) s') kept.
Proof.
  intros HD. destruct (dropRole_users now name am) as [s' Hs]. exists s'. split; [done|]. rewrite <- Hs.
  apply dropRole_ok; [apply range_map_nodup|intros x u; apply elem_of_range_map|].
  by rewrite (Permutation_length (range_map_perm _)), length_map_to_list.
Qed.

(** ** Starting again *)

Lemma load_users am n kept : Durable n am kept ->
  forall m0 : AuthManager S, store m0 = store am ->
  loadPrefix m0 authUserPrefix u_Name (fun _ => true) ∅ = users am /\
  loadPrefix m0 authRolePrefix r_Name (fun _ => true) ∅ = roles am /\
  forall v, loadPrefix m0 authTokenPrefix t_Token v ∅ = filter (fun x => v x.2 = true) kept.
Proof.
  intros [Hr Hf Hu Ho Ht] m0 Hs. pose proof (st_keyed _ _ Hr) as Hk. unfold loadPrefix. rewrite Hs.
  assert (Hid : forall A (m : gmap string A), filter (fun p => true = true) m = m).
  { intros A m. apply map_filter_id. done. }
  split_and!; [| |intros v].
  - destruct (st_Range_spec _ _ authUserPrefix (prefixEnd authUserPrefix) 0 Hr) as (resp & -> & ->). cbn [Z.gtb Z.compare].
    rewrite (loadAll_mirrors authUserPrefix userOk _ _ _ (users am)); [apply Hid|done|done|done|].
    intros x u (Hn & Hx & Hh & Hrs). split; [done|split; [|by apply goodText_below]].
    apply user_wire; by rewrite ?Hn.
  - destruct (st_Range_spec _ _ authRolePrefix (prefixEnd authRolePrefix) 0 Hr) as (resp & -> & ->). cbn [Z.gtb Z.compare].
    rewrite (loadAll_mirrors authRolePrefix roleOk _ _ _ (roles am)); [apply Hid|done|done|done|].
    intros x r (Hn & Hx). split; [done|split; [|by apply goodText_below]]. apply role_wire; by rewrite ?Hn.
  - destruct (st_Range_spec _ _ authTokenPrefix (prefixEnd authTokenPrefix) 0 Hr) as (resp & -> & ->). cbn [Z.gtb Z.compare].
    rewrite (loadAll_mirrors authTokenPrefix tokenOk _ _ _ kept); [done|done|done|done|].
    intros x t (Hn & Hx & Hun). split; [done|split; [|by apply goodText_below]]. apply token_wire; by rewrite ?Hn.
Qed.

Lemma NewAuthManager_ok now n am kept : Durable n am kept ->
  NewAuthManager now (store am) (tokenTTL am) (bcryptCost am) =
    setTokens am (filter (fun x => (t_ExpiresAt x.2 >? unix now) = true) kept).
Proof.
  intros HD. pose proof (load_users _ _ _ HD) as HL. destruct HD as [Hr Hf Hu Ho Ht]. unfold NewAuthManager, loadState.
  set (m0 := mkAuthManager (store am) false ∅ ∅ ∅ (tokenTTL am) (bcryptCost am)). destruct (HL m0 eq_refl) as (H1 & H2 & H3).
  change (users m0) with (∅ : gmap string UserInfo). change (roles m0) with (∅ : gmap string RoleInfo).
  change (tokens m0) with (∅ : gmap string TokenInfo). rewrite H1, H2, H3. cbn [m0 store tokenTTL bcryptCost enabled].
  destruct (st_Range_spec _ _ authEnabledKey "" 1 Hr) as (resp & -> & ->). cbn [Z.gtb Z.compare].
  unfold setTokens. f_equal. unfold rangeRecords. cbn [String.eqb]. unfold vals, valuesOf in Hf. rewrite lookup_fmap in Hf.
  change (Z.to_nat 1) with 1%nat.
  destruct (st_contents (store am) !! authEnabledKey) as [kv|]; simpl in *.
  - destruct (String.eqb_spec (Value kv) "true") as [Hv|Hv]; [symmetry; apply Hf; by rewrite Hv|].
    destruct (enabled am); [|done]. destruct Hf as [_ Hf]. specialize (Hf eq_refl). congruence.
  - destruct (enabled am); [|done]. by destruct Hf as [_ Hf]; specialize (Hf eq_refl).
Qed.

End refine.
