(* ===== verification/AuthTheorems.v ===== *)
(** * Theorems about authentication

    Every run of the manager on a working store, restarts included, gives the
    answers of the specification. *)

From S2P Require Import Prelude GoBytes OrderedTree KvTypes ShardedMap MemoryEtcd EtcdFacts BatchApply RaftCodec StoreApi Auth AuthRefine.

Section steps.
Context {S : Type} `{!Store S, !StoreLaws S, !MapOrder, !Crypto, !TextWire UserInfo, !TextWire RoleInfo, !TextWire TokenInfo}.
Context {goodText : string -> Prop} `{!AuthWire goodText}.

Implicit Types (am : AuthManager S).

Local Abbreviation durable := (Durable (goodText := goodText)).

(** New names and tokens are UTF-8. *)
Definition opOk (op : AuthOp) : Prop :=
  match op with
  | AuAuthenticate (Some t) _ _ => goodText t
  | AuAddUser _ name _ | AuAddRole name => goodText name
  | _ => True
  end.

(** The calls of the store an operation can make. *)
Definition writesOf am : nat := 2 + size (users am) + size (tokens am).

(** One operation does what the specification says. *)
Definition Refines (now : Z) (n : nat) am (kept : gmap string TokenInfo) (op : AuthOp) : Prop :=
  exists am' kept' ans, authStep now am op = (am', ans) /\
    specStep now (tokenTTL am) (bcryptCost am) (view am kept) op = (view am' kept', ans) /\
    durable n am' kept' /\ tokenTTL am' = tokenTTL am /\ bcryptCost am' = bcryptCost am.

Variables (now : Z) (n : nat) (am : AuthManager S) (kept : gmap string TokenInfo).
Hypothesis HD : durable (writesOf am + n) am kept.

Lemma durable_here : durable n am kept.
Proof. eapply Durable_le; [|done]. lia. Qed.

Lemma durable_one : durable (Datatypes.S n) am kept.
Proof. eapply Durable_le; [|done]. unfold writesOf. lia. Qed.

Lemma unchanged op ans :
  authStep now am op = (am, ans) -> specStep now (tokenTTL am) (bcryptCost am) (view am kept) op = (view am kept, ans) ->
  Refines now n am kept op.
Proof. intros H1 H2. exists am, kept, ans. split_and!; try done. apply durable_here. Qed.

(** A branch that leaves everything as it was. *)
Ltac same := exists am, kept; eexists; split_and!; try done; apply durable_here.

(** An operation that only looks. *)
Ltac looks := eapply unchanged; reflexivity.

Lemma refines_flag op : op = AuEnable \/ op = AuDisable -> Refines now n am kept op.
Proof.
  intros [-> | ->]; unfold Refines; cbn [authStep specStep on view a_users].
  - unfold unitOp, Enable. destruct (users am !! "root") as [u|] eqn:Hu; [|same].
    destruct (enabled am) eqn:E.
    + exists am, kept, (AnsUnit (Ok tt)). split_and!; try done; [|apply durable_here].
      unfold on, withFlag, view. cbn. by rewrite E.
    + destruct (durable_flag n now am kept true durable_one) as (s' & -> & HD'). eexists _, kept, _. by split_and!.
  - unfold unitOp, Disable. assert (H2 : durable (Datatypes.S (Datatypes.S n)) am kept).
    { eapply Durable_le; [|done]. unfold writesOf. lia. }
    destruct (durable_flag _ now am kept false H2) as (s1 & -> & HD1).
    destruct (durable_eraseTokens n _ kept HD1) as (s2 & -> & HD2). eexists _, ∅, _. by split_and!.
Qed.

Lemma refines_authenticate token username password :
  opOk (AuAuthenticate token username password) -> Refines now n am kept (AuAuthenticate token username password).
Proof.
  intros Hok. unfold Refines. cbn [authStep specStep view a_users]. unfold Authenticate.
  destruct (users am !! username) as [u|] eqn:Hu;
    [|same].
  destruct (bcrypt_check (u_PasswordHash u) password); cbn [negb];
    [|same].
  destruct token as [t|]; [|same].
  destruct (durable_token n now am kept t (mkTokenInfo t username (unix (now + tokenTTL am))) durable_one) as (s' & Hp & HD').
  { split_and!; [done|done|]. cbn. by apply (proj2 (du_users _ _ _ HD) _ _ Hu). }
  rewrite Hp by done. eexists _, _, _. by split_and!.
Qed.

Lemma refines_cleanup : Refines now n am kept AuCleanup.
Proof.
  unfold Refines. cbn [authStep specStep]. unfold cleanupExpiredTokens.
  destruct (dropWhere_ok (goodText := goodText) (fun info => t_ExpiresAt info <? unix now) n am kept) as (s' & -> & HD').
  { eapply Durable_le; [|done]. unfold writesOf. lia. }
  eexists _, _, _. by split_and!.
Qed.

Lemma refines_restart : Refines now n am kept AuRestart.
Proof.
  unfold Refines. cbn [authStep specStep]. rewrite (NewAuthManager_ok now _ am kept HD).
  eexists _, kept, _. split_and!; try done; [|by destruct durable_here].
  unfold withTokens, view. cbn. do 2 f_equal. apply map_filter_ext. intros x t _. cbn.
  rewrite Z.gtb_ltb, Z.ltb_lt. lia.
Qed.

(** ** Users *)

Lemma refines_addUser salt name password :
  goodText name -> Refines now n am kept (AuAddUser salt name password).
Proof.
  intros Hok. unfold Refines. cbn [authStep specStep view a_users]. unfold unitOp, AddUser, hashPassword.
  destruct (users am !! name); [same|].
  destruct (bcrypt_hash (bcryptCost am) salt password) as [h|] eqn:Hh;
    [|same].
  destruct (durable_user n now am kept name (mkUserInfo name h [] (unix now)) durable_one) as (s' & Hp & HD').
  { split_and!; [done|done| |constructor]. by eapply hash_good. }
  rewrite (proj1 (Hp am eq_refl)). eexists _, _, _. by split_and!.
Qed.

Lemma logOut_ok name am1 kept1 m :
  durable (size (tokens am1) + m) am1 kept1 ->
  exists s', dropUserTokens am1 name = setStore (setTokens am1 (a_tokens (logOut name (view am1 kept1)))) s' /\
    durable m (setStore (setTokens am1 (a_tokens (logOut name (view am1 kept1)))) s') (a_stored (logOut name (view am1 kept1))).
Proof. apply dropWhere_ok. Qed.

Lemma refines_deleteUser name : Refines now n am kept (AuDeleteUser name).
Proof.
  unfold Refines. cbn [authStep specStep view a_users]. unfold unitOp, DeleteUser, on.
  destruct (String.eqb name "root"); [same|].
  destruct (users am !! name); [|same].
  destruct (durable_eraseUser (goodText := goodText) (size (tokens am) + n) am kept name) as (s' & -> & HD').
  { eapply Durable_le; [|done]. unfold writesOf. lia. }
  set (am1 := setUsers (setStore am s') (delete name (users (setStore am s')))).
  destruct (logOut_ok name am1 kept n HD') as (s2 & -> & HD2).
  eexists _, _, _. split_and!; [reflexivity| |exact HD2|done|done]. done.
Qed.

Lemma refines_changePassword salt name password : Refines now n am kept (AuChangePassword salt name password).
Proof.
  unfold Refines. cbn [authStep specStep view a_users]. unfold unitOp, ChangePassword, on, hashPassword, updateUser.
  destruct (users am !! name) as [u|] eqn:Hu; [|same].
  destruct (bcrypt_hash (bcryptCost am) salt password) as [h|] eqn:Hh;
    [|same].
  destruct (durable_user (goodText := goodText) (size (tokens am) + n) now am kept name (setHash u h)) as (s' & Hp & HD').
  { eapply Durable_le; [|done]. unfold writesOf. lia. }
  { destruct (proj2 (du_users _ _ _ HD) _ _ Hu) as (? & ? & ? & ?). split_and!; try done. by eapply hash_good. }
  rewrite (proj1 (Hp (setUsers am _) eq_refl)).
  destruct (logOut_ok name (setStore (setUsers am (<[name := setHash u h]> (users am))) s') kept n HD') as (s2 & -> & HD2).
  eexists _, _, _. split_and!; [reflexivity| |exact HD2|done|done]. done.
Qed.

Lemma refines_grantRole username rolename : Refines now n am kept (AuGrantRole username rolename).
Proof.
  unfold Refines. cbn [authStep specStep view a_users a_roles]. unfold unitOp, GrantRole, on, updateUser.
  destruct (users am !! username) as [u|] eqn:Hu; [|same].
  destruct (roles am !! rolename) as [r|] eqn:Hr; [|same].
  rewrite existsb_elem. case_bool_decide; [same|].
  destruct (durable_user n now am kept username (setRoles u (u_Roles u ++ [rolename])) durable_one) as (s' & Hp & HD').
  { destruct (proj2 (du_users _ _ _ HD) _ _ Hu) as (? & ? & ? & ?). destruct (proj2 (du_roles _ _ _ HD) _ _ Hr).
    split_and!; try done. cbn. apply Forall_app. by split; [|constructor]. }
  rewrite (proj1 (Hp (setUsers am _) eq_refl)). eexists _, _, _. by split_and!.
Qed.

Lemma refines_revokeRole username rolename : Refines now n am kept (AuRevokeRole username rolename).
Proof.
  unfold Refines. cbn [authStep specStep view a_users a_roles]. unfold unitOp, RevokeRole, on, updateUser.
  destruct (users am !! username) as [u|] eqn:Hu; [|same].
  rewrite existsb_elem. case_bool_decide; [|same].
  destruct (durable_user n now am kept username (withoutRole rolename u) durable_one) as (s' & Hp & HD').
  { apply withoutRole_ok. apply (proj2 (du_users _ _ _ HD) _ _ Hu). }
  fold (withoutRole rolename u). rewrite (proj1 (Hp (setUsers am _) eq_refl)). eexists _, _, _. by split_and!.
Qed.

(** ** Roles *)

Lemma refines_addRole name : goodText name -> Refines now n am kept (AuAddRole name).
Proof.
  intros Hok. unfold Refines. cbn [authStep specStep view a_roles]. unfold unitOp, AddRole.
  destruct (roles am !! name); [same|].
  destruct (durable_role n now am kept name (mkRoleInfo name [] (unix now)) durable_one) as (s' & Hp & HD'); [done|].
  rewrite Hp by done. eexists _, _, _. by split_and!.
Qed.

Lemma refines_deleteRole name : Refines now n am kept (AuDeleteRole name).
Proof.
  unfold Refines. cbn [authStep specStep view a_users a_roles]. unfold unitOp, DeleteRole, on.
  destruct (String.eqb name "root"); [same|].
  destruct (roles am !! name) as [r|] eqn:Hr; [|same].
  destruct (dropRole_all (goodText := goodText) now name (Datatypes.S n) am kept) as (s1 & -> & HD1).
  { eapply Durable_le; [|done]. unfold writesOf. lia. }
  destruct (durable_eraseRole n _ kept name HD1) as (s2 & -> & HD2). eexists _, _, _. by split_and!.
Qed.

Lemma refines_updateRole r rolename ps :
  roles am !! rolename = Some r ->
  exists s', updateRole now am rolename (setPermissions r ps) = (setStore (setRoleMap am (<[rolename := setPermissions r ps]> (roles am))) s', Ok tt) /\
    durable n (setStore (setRoleMap am (<[rolename := setPermissions r ps]> (roles am))) s') kept.
Proof.
  intros Hr. destruct (durable_role n now am kept rolename (setPermissions r ps) durable_one) as (s' & Hp & HD').
  { apply (proj2 (du_roles _ _ _ HD) _ _ Hr). }
  exists s'. unfold updateRole. by rewrite Hp.
Qed.

Lemma refines_permission op :
  (exists rolename perm, op = AuGrantPermission rolename perm) \/ (exists rolename key rangeEnd, op = AuRevokePermission rolename key rangeEnd) ->
  Refines now n am kept op.
Proof.
  intros [(rolename & perm & ->)|(rolename & key & rangeEnd & ->)]; unfold Refines; cbn [authStep specStep view a_roles];
    unfold unitOp, GrantPermission, RevokePermission, on;
    (destruct (roles am !! rolename) as [r|] eqn:Hr; [|same]).
  - destruct (refines_updateRole r rolename (r_Permissions r ++ [perm]) Hr) as (s' & -> & HD'). eexists _, _, _. by split_and!.
  - destruct (existsb _ _); [|same].
    destruct (refines_updateRole r rolename (List.filter (fun p => negb (samePermRange key rangeEnd p)) (r_Permissions r)) Hr)
      as (s' & -> & HD'). eexists _, _, _. by split_and!.
Qed.

Lemma authStep_refines op : opOk op -> Refines now n am kept op.
Proof.
  destruct op; intros Hok.
  - apply refines_flag. by left.
  - apply refines_flag. by right.
  - by apply refines_authenticate.
  - looks.
  - looks.
  - apply refines_cleanup.
  - by apply refines_addUser.
  - apply refines_deleteUser.
  - looks.
  - looks.
  - apply refines_changePassword.
  - apply refines_grantRole.
  - apply refines_revokeRole.
  - by apply refines_addRole.
  - apply refines_deleteRole.
  - looks.
  - looks.
  - apply refines_permission. eauto.
  - apply refines_permission. eauto.
  - apply refines_restart.
Qed.

End steps.

(** ** Runs *)

(** The accepted tokens are stored, and an operation adds one record at most. *)
Definition weight (st : AuthState) : nat := size (a_users st) + size (a_stored st).

Lemma size_delete_le {A} (m : gmap string A) k : (size (delete k m) <= size m)%nat.
Proof. apply map_subseteq_size, delete_subseteq. Qed.

Lemma size_difference_le {A} (m m2 : gmap string A) : (size (m ∖ m2) <= size m)%nat.
Proof. apply map_subseteq_size, map_subseteq_difference_l. done. Qed.

Lemma size_insert_same {A} (m : gmap string A) k v w : m !! k = Some w -> size (<[k := v]> m) = size m.
Proof. intros Hk. by rewrite map_size_insert, Hk. Qed.

Lemma difference_mono {A} (m1 m2 m3 : gmap string A) : m1 ⊆ m2 -> m1 ∖ m3 ⊆ m2 ∖ m3.
Proof.
  rewrite !map_subseteq_spec. intros Hs i x. rewrite !lookup_difference_Some. intros [H1 H2]. split; [by apply Hs|done].
Qed.

Definition small (k : nat) (st : AuthState) : Prop := a_tokens st ⊆ a_stored st /\ (weight st <= k)%nat.

Section bounds.
Context `{!MapOrder, !Crypto}.

Lemma small_withUsers k st us : small k st -> (size us <= Datatypes.S (size (a_users st)))%nat ->
  small (Datatypes.S k) (withUsers st us).
Proof. unfold small, weight. intros [Hs Hw] Hu. cbn. split; [done|lia]. Qed.

Lemma small_withoutTokens k p st : small k st -> small k (withoutTokens p st).
Proof.
  unfold small, weight. intros [Hs Hw]. cbn. split; [by apply difference_mono|].
  pose proof (size_difference_le (a_stored st) (filter (fun x => p x.2 = true) (a_tokens st))). lia.
Qed.

Lemma small_step k now ttl cost st op : small k st -> small (Datatypes.S k) (specStep now ttl cost st op).1.
Proof.
  intros Hsm. assert (Hle : small (Datatypes.S k) st) by (destruct Hsm; split; [done|lia]).
  assert (Hins : forall name u v, a_users st !! name = Some u -> small k (withUsers st (<[name := v]> (a_users st)))).
  { intros name u v Hu. destruct Hsm as [Hs Hw]. split; [done|]. unfold weight in *. cbn.
    by rewrite (size_insert_same _ _ _ _ Hu). }
  assert (Hok : forall st', small k st' -> small (Datatypes.S k) st') by (intros st' []; split; [done|lia]).
  destruct op; cbn; unfold on; repeat case_match; cbn; simplify_eq; try done; try by (apply Hok; eauto).
  - destruct Hsm as [Hs Hw]. split; [done|]. unfold weight in *. cbn. rewrite map_size_empty. lia.
  - destruct Hsm as [Hs Hw]. split; [by apply insert_mono|]. unfold weight in *. cbn.
    etrans; [apply Nat.add_le_mono_l, size_insert_le|lia].
  - by apply Hok, small_withoutTokens.
  - apply small_withUsers; [done|]. apply size_insert_le.
  - apply Hok, small_withoutTokens. destruct Hsm as [Hs Hw]. split; [done|]. unfold weight in *. cbn.
    pose proof (size_delete_le (a_users st) name). lia.
  - apply Hok, small_withoutTokens. eauto.
  - destruct Hsm as [Hs Hw]. split; [done|]. unfold weight in *. cbn. rewrite map_size_fmap. lia.
  - destruct Hsm as [Hs Hw]. split; [apply map_filter_subseteq|]. unfold weight in *. cbn. lia.
Qed.
End bounds.

(** The calls of the store that [l] operations can make when there are [k]
    records. *)
Fixpoint authWrites (k l : nat) : nat :=
  match l with O => O | Datatypes.S l' => 2 + k + authWrites (Datatypes.S k) l' end.

Section runs.
Context {S : Type} `{!Store S, !StoreLaws S, !MapOrder, !Crypto, !TextWire UserInfo, !TextWire RoleInfo, !TextWire TokenInfo}.
Context {goodText : string -> Prop} `{!AuthWire goodText}.

Lemma runAuth_refines (ops : list (Z * AuthOp)) : forall k n (am : AuthManager S) kept,
  Forall (fun p => opOk (goodText := goodText) p.2) ops -> small k (view am kept) ->
  Durable (goodText := goodText) (authWrites k (length ops) + n) am kept ->
  exists am' kept', Durable (goodText := goodText) n am' kept' /\
    runSpec (tokenTTL am) (bcryptCost am) ops (view am kept) = (view am' kept', (runAuth am ops).2) /\
    (runAuth am ops).1 = am'.
Proof.
  induction ops as [|[now op] ops IH]; intros k n am kept Hok Hsm HD; simpl.
  { by exists am, kept. }
  apply Forall_cons in Hok as [Hop Hok]. pose proof Hsm as [Hsub Hw]. cbn in Hop, Hsub.
  assert (HD1 : Durable (goodText := goodText) (writesOf am + (authWrites (Datatypes.S k) (length ops) + n)) am kept).
  { eapply Durable_le; [|exact HD]. apply map_subseteq_size in Hsub. unfold writesOf, weight, view in *. simpl in *. lia. }
  destruct (authStep_refines now _ am kept HD1 op Hop) as (am1 & kept1 & ans & Hstep & Hspec & HD2 & Httl & Hcost).
  rewrite Hstep, Hspec. pose proof (small_step k now (tokenTTL am) (bcryptCost am) _ op Hsm) as Hsm1.
  rewrite Hspec in Hsm1. cbn [fst] in Hsm1.
  destruct (IH _ n am1 kept1 Hok Hsm1 HD2) as (am2 & kept2 & HD3 & Hrun & <-).
  rewrite <- Httl, <- Hcost, Hrun. exists (runAuth am1 ops).1, kept2. destruct (runAuth am1 ops). by split_and!.
Qed.

Lemma fresh_manager (s : S) n now ttl cost :
  st_ready n s -> vals s !! authEnabledKey = None ->
  (forall p x, p ∈ [authUserPrefix; authRolePrefix; authTokenPrefix] -> vals s !! (p +:+ x) = None) ->
  NewAuthManager now s ttl cost = mkAuthManager s false ∅ ∅ ∅ ttl cost /\
  Durable (goodText := goodText) n (mkAuthManager s false ∅ ∅ ∅ ttl cost) ∅.
Proof.
  intros Hr Hf Hp.
  assert (HD : Durable (goodText := goodText) n (mkAuthManager s false ∅ ∅ ∅ ttl cost) ∅).
  { split; cbn; [done|by rewrite Hf| | |]; (split; [|apply map_Forall_empty]);
      intros x; rewrite lookup_empty; apply Hp; repeat ((by left) || right). }
  split; [|done]. pose proof (NewAuthManager_ok now n _ _ HD) as HN. cbn [store tokenTTL bcryptCost] in HN. rewrite HN.
  unfold setTokens. cbn. by rewrite map_filter_empty.
Qed.

End runs.

(** C10: over a store that works and has no authentication records, every run of
    operations, with the server started again at any moments, gives the answers
    of the specification: users, roles, permissions, the flag and the tokens
    that have not expired survive, and nothing else does. *)
Theorem auth_refines {S : Type} `{StoreLaws S, !MapOrder, !Crypto, !TextWire UserInfo, !TextWire RoleInfo, !TextWire TokenInfo}
    {goodText : string -> Prop} `{!AuthWire goodText} (s : S) (now ttl cost : Z) (ops : list (Z * AuthOp)) :
  st_ready (authWrites 0 (length ops)) s -> vals s !! authEnabledKey = None ->
  (forall p x, p ∈ [authUserPrefix; authRolePrefix; authTokenPrefix] -> vals s !! (p +:+ x) = None) ->
  Forall (fun p => opOk (goodText := goodText) p.2) ops ->
  let '(am, answers) := runAuth (NewAuthManager now s ttl cost) ops in
  let '(st, expected) := runSpec ttl cost ops noAuth in
  answers = expected /\ IsEnabled am = a_enabled st /\ users am = a_users st /\ roles am = a_roles st /\ tokens am = a_tokens st.
Proof.
  intros Hr Hf Hp Hok. destruct (fresh_manager (goodText := goodText) s _ now ttl cost Hr Hf Hp) as [-> HD].
  rewrite <- (Nat.add_0_r (authWrites _ _)) in HD.
  assert (Hsm : small 0 (view (mkAuthManager s false ∅ ∅ ∅ ttl cost) ∅)) by (split; [done|by unfold weight, view; cbn [a_users a_stored users]; rewrite !map_size_empty]).
  destruct (runAuth_refines ops 0 0 _ ∅ Hok Hsm HD) as (am' & kept' & _ & Hrun & Ham).
  change noAuth with (view (mkAuthManager s false ∅ ∅ ∅ ttl cost) ∅). cbn [tokenTTL bcryptCost] in Hrun. rewrite Hrun.
  destruct (runAuth _ ops) as [am answers]. cbn in Ham. by subst am'.
Qed.
