(* ===== verification/AuthServer.v ===== *)
(** * The gRPC server with authentication ([api/etcd/auth_interceptor.go],
    [auth.go])

    [AuthInterceptor] decides whether the handler of a call runs, and as which
    user.  The handlers of the Auth service are calls of the manager, those of the
    KV service work on the same store.  [serve] is one unary call of a client: the
    interceptor, then the handler. *)

From S2P Require Import Prelude GoBytes KvTypes ShardedMap MemoryEtcd BatchApply RaftCodec StoreApi EtcdApi Auth.

(** ** Calls

    What the generated code hands to the interceptor: the name of the method and
    the request.  [Other] is a call of a method of the other services, whose
    handlers are an argument of [serve]. *)

Record PermissionMsg := mkPermissionMsg { pm_PermType : Z; pm_Key : string; pm_RangeEnd : string }.

Inductive KvCall :=
  | CRange (r : RangeRequest) | CPut (p : PutRequest) | CDeleteRange (d : DeleteRangeRequest) | CTxn (t : TxnRequest)
  | CCompact (revision : Z).

Inductive AuthCall :=
  | CAuthEnable | CAuthDisable | CAuthStatus
  | CAuthenticate (name password : string)
  | CUserAdd (name password : string) | CUserDelete (name : string) | CUserGet (name : string) | CUserList
  | CUserChangePassword (name password : string)
  | CUserGrantRole (user role : string) | CUserRevokeRole (name role : string)
  | CRoleAdd (name : string) | CRoleDelete (role : string) | CRoleGet (role : string) | CRoleList
  | CRoleGrantPermission (name : string) (perm : option PermissionMsg)
  | CRoleRevokePermission (role key rangeEnd : string).

Inductive Call := KV (c : KvCall) | Auth (c : AuthCall) | Other (method : string).

Definition kvMethod (c : KvCall) : string :=
  match c with
  | CRange _ => "/etcdserverpb.KV/Range"
  | CPut _ => "/etcdserverpb.KV/Put"
  | CDeleteRange _ => "/etcdserverpb.KV/DeleteRange"
  | CTxn _ => "/etcdserverpb.KV/Txn"
  | CCompact _ => "/etcdserverpb.KV/Compact"
  end.

Definition authMethod (c : AuthCall) : string :=
  match c with
  | CAuthEnable => "/etcdserverpb.Auth/AuthEnable"
  | CAuthDisable => "/etcdserverpb.Auth/AuthDisable"
  | CAuthStatus => "/etcdserverpb.Auth/AuthStatus"
  | CAuthenticate _ _ => "/etcdserverpb.Auth/Authenticate"
  | CUserAdd _ _ => "/etcdserverpb.Auth/UserAdd"
  | CUserDelete _ => "/etcdserverpb.Auth/UserDelete"
  | CUserGet _ => "/etcdserverpb.Auth/UserGet"
  | CUserList => "/etcdserverpb.Auth/UserList"
  | CUserChangePassword _ _ => "/etcdserverpb.Auth/UserChangePassword"
  | CUserGrantRole _ _ => "/etcdserverpb.Auth/UserGrantRole"
  | CUserRevokeRole _ _ => "/etcdserverpb.Auth/UserRevokeRole"
  | CRoleAdd _ => "/etcdserverpb.Auth/RoleAdd"
  | CRoleDelete _ => "/etcdserverpb.Auth/RoleDelete"
  | CRoleGet _ => "/etcdserverpb.Auth/RoleGet"
  | CRoleList => "/etcdserverpb.Auth/RoleList"
  | CRoleGrantPermission _ _ => "/etcdserverpb.Auth/RoleGrantPermission"
  | CRoleRevokePermission _ _ _ => "/etcdserverpb.Auth/RoleRevokePermission"
  end.

Definition fullMethod (c : Call) : string :=
  match c with KV c => kvMethod c | Auth c => authMethod c | Other method => method end.

(** ** The interceptor *)

Definition isAuthAPI (method : string) : bool := String.prefix "/etcdserverpb.Auth/" method.

(** Methods that write, for which the key is the empty string. *)
Definition adminMethods : list string :=
  ["/etcdserverpb.KV/Compact"; "/etcdserverpb.Cluster/MemberAdd"; "/etcdserverpb.Cluster/MemberRemove";
   "/etcdserverpb.Cluster/MemberUpdate"; "/etcdserverpb.Cluster/MemberPromote"; "/etcdserverpb.Maintenance/Defragment";
   "/etcdserverpb.Maintenance/MoveLeader"].

(** The key, nil for none, and the permission; an error when the request is not
    of the method's type. *)
Definition extractPermissionFromRequest (method : string) (c : Call) : result unit (option string * PermissionType) :=
  if String.eqb method "/etcdserverpb.KV/Range" then
    match c with KV (CRange r) => Ok (rq_Key r, PermissionRead) | _ => Err tt end
  else if String.eqb method "/etcdserverpb.KV/Put" then
    match c with KV (CPut p) => Ok (pq_Key p, PermissionWrite) | _ => Err tt end
  else if String.eqb method "/etcdserverpb.KV/DeleteRange" then
    match c with KV (CDeleteRange d) => Ok (dq_Key d, PermissionWrite) | _ => Err tt end
  else if String.eqb method "/etcdserverpb.KV/Txn" then
    match c with
    | KV (CTxn t) =>
        Ok (if bool_decide (0 < length (tq_Success t))%nat || bool_decide (0 < length (tq_Failure t))%nat then Some "" else None,
            PermissionReadWrite)
    | _ => Err tt
    end
  else if existsb (String.eqb method) adminMethods then Ok (Some "", PermissionWrite)
  else Ok (None, PermissionRead).

Section server.
Context {S : Type} `{!Store S, !MapOrder, !Crypto, !TextWire UserInfo, !TextWire RoleInfo, !TextWire TokenInfo}.
Variables (clusterID memberID now : Z).

Implicit Types (am : AuthManager S).

(** [md] is the [token] entry of the metadata, [None] when there is no metadata.
    [Ok] means that the handler runs, with the user that is put in its context. *)
Definition userOfToken am (md : option (list string)) : result Code string :=
  match md with
  | None => Err Unauthenticated
  | Some [] => Err Unauthenticated
  | Some (token :: _) =>
      match ValidateToken now am token with
      | Err _ => Err Unauthenticated
      | Ok info => Ok (t_Username info)
      end
  end.

Definition checkRootPermission am (md : option (list string)) : result Code (option string) :=
  match userOfToken am md with
  | Err c => Err c
  | Ok username => if String.eqb username "root" then Ok (Some username) else Err PermissionDenied
  end.

Definition AuthInterceptor am (md : option (list string)) (method : string) (c : Call) : result Code (option string) :=
  if negb (IsEnabled am) then Ok None
  else if isAuthAPI method then
    if String.eqb method "/etcdserverpb.Auth/AuthDisable" then checkRootPermission am md else Ok None
  else
    match userOfToken am md with
    | Err c => Err c
    | Ok username =>
        match extractPermissionFromRequest method c with
        | Err _ => Err InvalidArgument
        | Ok (None, _) => Ok (Some username)
        | Ok (Some key, permType) =>
            match CheckPermission am username key permType with
            | Err _ => Err PermissionDenied
            | Ok _ => Ok (Some username)
            end
        end
    end.

(** ** Handlers *)

Inductive Reply :=
  | RRange (r : RangeReply) | RPut (r : PutReply) | RDeleteRange (r : DeleteRangeReply) | RTxn (r : TxnReply)
  | RHeader (h : ResponseHeader)
  | RStatus (h : ResponseHeader) (enabled : bool)
  | RToken (h : ResponseHeader) (token : string)
  | RNames (h : ResponseHeader) (names : list string)
  | RPermissions (h : ResponseHeader) (perms : list PermissionMsg)
  | ROther.

Definition permissionType (n : Z) : PermissionType :=
  match n with 0 => PermissionRead | 1 => PermissionWrite | 2 => PermissionReadWrite | _ => PermissionOther n end.
Definition permissionNumber (t : PermissionType) : Z :=
  match t with PermissionRead => 0 | PermissionWrite => 1 | PermissionReadWrite => 2 | PermissionOther n => n end.

Definition pbPermission (p : Permission) : PermissionMsg := mkPermissionMsg (permissionNumber (p_Type p)) (p_Key p) (p_RangeEnd p).

(** The manager's errors are plain ones. *)
Definition answer {A} am (r : result AuthError A) (f : ResponseHeader -> A -> Reply) : result Code Reply :=
  match r with
  | Err _ => Err (toGRPCError PlainError)
  | Ok a => Ok (f (getResponseHeader clusterID memberID (store am)) a)
  end.

Definition done (x : AuthManager S * result AuthError unit) : AuthManager S * result Code Reply :=
  (x.1, answer x.1 x.2 (fun h _ => RHeader h)).

Definition RoleGrantPermission am (name : string) (perm : option PermissionMsg) : AuthManager S * result Code Reply :=
  match perm with
  | None => (am, Err (toGRPCError PlainError))
  | Some p => done (GrantPermission now am name (mkPermission (permissionType (pm_PermType p)) (pm_Key p) (pm_RangeEnd p)))
  end.

(** [salt] and [token] are what the random source gives a call that asks it. *)
Definition handleAuth (salt : Z) (token : option string) am (c : AuthCall) : AuthManager S * result Code Reply :=
  match c with
  | CAuthEnable => done (Enable now am)
  | CAuthDisable => done (Disable now am)
  | CAuthStatus => (am, Ok (RStatus (getResponseHeader clusterID memberID (store am)) (IsEnabled am)))
  | CAuthenticate name password =>
      let '(am', r) := Authenticate now token am name password in (am', answer am' r RToken)
  | CUserAdd name password => done (AddUser now salt am name password)
  | CUserDelete name => done (DeleteUser am name)
  | CUserGet name => (am, answer am (GetUser am name) (fun h u => RNames h (u_Roles u)))
  | CUserList => (am, answer am (Ok (ListUsers am)) (fun h us => RNames h (u_Name <$> us)))
  | CUserChangePassword name password => done (ChangePassword now salt am name password)
  | CUserGrantRole user role => done (GrantRole now am user role)
  | CUserRevokeRole name role => done (RevokeRole now am name role)
  | CRoleAdd name => done (AddRole now am name)
  | CRoleDelete role => done (DeleteRole now am role)
  | CRoleGet role => (am, answer am (GetRole am role) (fun h r => RPermissions h (pbPermission <$> r_Permissions r)))
  | CRoleList => (am, answer am (Ok (ListRoles am)) (fun h rs => RNames h (r_Name <$> rs)))
  | CRoleGrantPermission name perm => RoleGrantPermission am name perm
  | CRoleRevokePermission role key rangeEnd => done (RevokePermission now am role key rangeEnd)
  end.

Definition onStore {A} am (x : S * result Code A) (f : A -> Reply) : AuthManager S * result Code Reply :=
  (setStore am x.1, match x.2 with Ok a => Ok (f a) | Err e => Err e end).

Definition handleKv am (c : KvCall) : AuthManager S * result Code Reply :=
  match c with
  | CRange r => onStore am (store am, KV_Range clusterID memberID (store am) r) RRange
  | CPut p => onStore am (KV_Put clusterID memberID now (store am) p) RPut
  | CDeleteRange d => onStore am (KV_DeleteRange clusterID memberID (store am) d) RDeleteRange
  | CTxn t => onStore am (KV_Txn clusterID memberID now (store am) t) RTxn
  | CCompact rev => onStore am (KV_Compact clusterID memberID (store am) rev) RHeader
  end.

(** The handlers of the other services. *)
Variable others : string -> S -> S * result Code unit.

Definition handle (salt : Z) (token : option string) am (c : Call) : AuthManager S * result Code Reply :=
  match c with
  | KV c => handleKv am c
  | Auth c => handleAuth salt token am c
  | Other method => onStore am (others method (store am)) (fun _ => ROther)
  end.

(** One unary call. *)
Definition serve (md : option (list string)) (salt : Z) (token : option string) am (c : Call) : AuthManager S * result Code Reply :=
  match AuthInterceptor am md (fullMethod c) c with
  | Err e => (am, Err e)
  | Ok _ => handle salt token am c
  end.

End server.
