(* ===== verification/AuthServerTheorems.v ===== *)
(** * What the authenticated server guarantees, and what it does not *)

From S2P Require Import Prelude GoBytes OrderedTree KvTypes ShardedMap MemoryEtcd EtcdFacts BatchApply RaftCodec StoreApi EtcdApi Auth AuthRefine AuthTheorems AuthServer.

(** ** Permissions *)

Definition inInterval (key start end_ : string) : Prop :=
  (end_ = "" /\ key = start) \/
  (end_ <> "" /\ str_leb start key = true /\ (end_ = nulKey \/ str_ltb key end_ = true)).

Definition permits (p : Permission) (key : string) (want : PermissionType) : Prop :=
  want ∈ [PermissionRead; PermissionWrite; PermissionReadWrite] /\
  (p_Type p = want \/ p_Type p = PermissionReadWrite) /\ inInterval key (p_Key p) (p_RangeEnd p).

Lemma keyInRange_spec key start end_ : keyInRange key start end_ = true <-> inInterval key start end_.
Proof.
  unfold keyInRange, inInterval, str_len. destruct end_ as [|c e]; cbn [String.length].
  - change (Z.of_nat 0 =? 0) with true. cbn [andb]. rewrite String.eqb_eq. naive_solver.
  - replace (Z.of_nat (Datatypes.S (String.length e)) =? 0) with false by (symmetry; apply Z.eqb_neq; lia).
    rewrite andb_true_iff, orb_true_iff, String.eqb_eq. naive_solver.
Qed.

Lemma grants_spec p key want : grants p key want = true <-> permits p key want.
Proof.
  unfold grants, permits. rewrite andb_true_iff, keyInRange_spec. rewrite !elem_of_cons, elem_of_nil.
  destruct want; cbn [covers]; rewrite ?bool_decide_eq_true; intuition (try done; auto).
Qed.

Section permissions.
Context {S : Type} `{!Store S}.

(** Root may do everything, other users what a permission of one of their roles
    allows. *)
Definition allowed (am : AuthManager S) (username key : string) (want : PermissionType) : Prop :=
  username = "root" \/
  exists u role r p, users am !! username = Some u /\ role ∈ u_Roles u /\ roles am !! role = Some r /\
    p ∈ r_Permissions r /\ permits p key want.

Lemma CheckPermission_spec (am : AuthManager S) username key want :
  CheckPermission am username key want = Ok tt <-> allowed am username key want.
Proof.
  unfold CheckPermission, allowed. destruct (String.eqb_spec username "root") as [->|Hne]; [naive_solver|].
  destruct (users am !! username) as [u|]; [|naive_solver].
  destruct (existsb _ _) eqn:E.
  - apply existsb_exists in E as (role & Hrole%list_elem_of_In & Hg). split; [intros _; right|done].
    unfold roleGrants in Hg. destruct (roles am !! role) as [r|] eqn:Hr; [|done].
    apply existsb_exists in Hg as (p & Hp%list_elem_of_In & Hg%grants_spec). exists u, role, r, p. by split_and!.
  - split; [done|]. intros [?|(u' & role & r & p & [= <-] & Hrole & Hr & Hp & Hg)]; [done|].
    apply not_true_iff_false in E. destruct E. apply existsb_exists. exists role. split; [by apply list_elem_of_In|].
    unfold roleGrants. rewrite Hr. apply existsb_exists. exists p. split; [by apply list_elem_of_In|by apply grants_spec].
Qed.

End permissions.

(** What a KV call is checked for; a nil key is not checked. *)
Definition required (c : KvCall) : option string * PermissionType :=
  match c with
  | CRange r => (rq_Key r, PermissionRead)
  | CPut p => (pq_Key p, PermissionWrite)
  | CDeleteRange d => (dq_Key d, PermissionWrite)
  | CTxn t => (match tq_Success t ++ tq_Failure t with [] => None | _ => Some "" end, PermissionReadWrite)
  | CCompact _ => (Some "", PermissionWrite)
  end.

Lemma extract_required c : extractPermissionFromRequest (kvMethod c) (KV c) = Ok (required c).
Proof.
  destruct c as [r|p|d|t|rev]; try reflexivity. unfold extractPermissionFromRequest, kvMethod, required. simpl.
  destruct (tq_Success t), (tq_Failure t); reflexivity.
Qed.

(** C27: while authentication is on, a KV call reaches its handler exactly when it
    has a token that is known and has not expired and its user may use the key
    of the request, if there is one, in the way the call does; any other KV call
    changes nothing. *)
Theorem interceptor_guards_kv {S : Type} `{!Store S, !MapOrder, !Crypto, !TextWire UserInfo, !TextWire RoleInfo, !TextWire TokenInfo}
    (cluster member now salt : Z) (others : string -> S -> S * result Code unit) (am : AuthManager S)
    (md : option (list string)) (token : option string) (c : KvCall) :
  IsEnabled am = true ->
  let authorized := exists t rest info, md = Some (t :: rest) /\ tokens am !! t = Some info /\
      unix now <= t_ExpiresAt info /\
      match required c with (Some key, want) => allowed am (t_Username info) key want | (None, _) => True end in
  (authorized -> serve cluster member now others md salt token am (KV c) = handleKv cluster member now am c) /\
  (~ authorized -> exists code, serve cluster member now others md salt token am (KV c) = (am, Err code)).
Proof.
  intros He authorized.
  assert (Hiff : (exists u, AuthInterceptor now am md (kvMethod c) (KV c) = Ok u) <-> authorized).
  { unfold AuthInterceptor. rewrite He. cbn [negb]. replace (isAuthAPI (kvMethod c)) with false by (by destruct c).
    rewrite extract_required. unfold authorized, userOfToken, ValidateToken.
    destruct md as [[|t rest]|]; [naive_solver| |naive_solver].
    destruct (tokens am !! t) as [info|] eqn:Ht; [|naive_solver].
    rewrite Z.gtb_ltb. destruct (Z.ltb_spec (t_ExpiresAt info) (unix now)) as [Hlt|Hge].
    { split; [naive_solver|]. intros (t' & rest' & info' & [= <- <-] & Ht' & Hle & _). simplify_eq. lia. }
    destruct (required c) as [[key|] want]; [|split; [|eauto]; intros _; eauto 10].
    pose proof (CheckPermission_spec am (t_Username info) key want) as Hspec.
    destruct (CheckPermission am (t_Username info) key want) as [[]|e].
    - split; [|eauto]. intros _. exists t, rest, info. split_and!; try done. by apply Hspec.
    - split; [naive_solver|]. intros (t' & rest' & info' & [= <- <-] & Ht' & _ & Ha). simplify_eq.
      apply Hspec in Ha. done. }
  unfold serve. cbn [fullMethod]. split.
  - intros [u ->]%Hiff. done.
  - intros Hno. destruct (AuthInterceptor now am md (kvMethod c) (KV c)) as [u|code] eqn:E; [|by exists code].
    destruct Hno. apply Hiff. eauto.
Qed.

(** ** The cache is well formed *)

(** Records are under their own names; the roles users have exist, and so do the
    users of tokens. *)
Record WellFormed {S : Type} (am : AuthManager S) : Prop := {
  wf_user x u : users am !! x = Some u -> u_Name u = x /\ forall r, r ∈ u_Roles u -> is_Some (roles am !! r);
  wf_role x r : roles am !! x = Some r -> r_Name r = x;
  wf_token t info : tokens am !! t = Some info -> t_Token info = t /\ is_Some (users am !! t_Username info);
}.

Section wellformed.
Context {S : Type} `{!Store S, !MapOrder, !Crypto, !TextWire UserInfo, !TextWire RoleInfo, !TextWire TokenInfo}.
Variables (clusterID memberID now : Z) (others : string -> S -> S * result Code unit).

Implicit Types (am : AuthManager S).

Lemma WellFormed_store am s : WellFormed am -> WellFormed (setStore am s).
Proof. by intros []. Qed.

Lemma WellFormed_flag am b : WellFormed am -> WellFormed (setEnabled am b).
Proof. by intros []. Qed.

(** A write changes the store alone. *)
Lemma persist_cache {A} `{!TextWire A} am key (a : A) :
  exists s r, persist now am key a = (setStore am s, r).
Proof.
  unfold persist. destruct (text_marshal a); [|exists (store am); eexists; by destruct am].
  destruct (st_PutWithLease _ _ _ _ _) as [s1 [r1|e1]]; eauto.
Qed.

Lemma erase_cache am key rangeEnd : exists s b, erase am key rangeEnd = (setStore am s, b).
Proof. unfold erase. destruct (st_DeleteRange _ _ _) as [s1 [r1|e1]]; eauto. Qed.

Lemma putFlag_cache am v : exists s r, putFlag now am v = (setStore am s, r).
Proof. unfold putFlag. destruct (st_PutWithLease _ _ _ _ _) as [s1 [r1|e1]]; eauto. Qed.

Lemma WellFormed_addUser am x u :
  WellFormed am -> u_Name u = x -> (forall r, r ∈ u_Roles u -> is_Some (roles am !! r)) ->
  WellFormed (setUsers am (<[x := u]> (users am))).
Proof.
  intros [Hu Hr Ht] Hn Hroles. split; cbn; [|done|].
  - intros y v. rewrite lookup_insert. case_decide as Heq; [|apply Hu]. intros [= <-]. by subst.
  - intros t info Hti. destruct (Ht _ _ Hti) as [H1 H2]. split; [done|]. rewrite lookup_insert. by case_decide.
Qed.

Lemma WellFormed_addRole am x r : WellFormed am -> r_Name r = x -> WellFormed (setRoleMap am (<[x := r]> (roles am))).
Proof.
  intros [Hu Hr Ht] Hn. split; cbn; [| |done].
  - intros y v Hv. destruct (Hu _ _ Hv) as [H1 H2]. split; [done|]. intros role Hrole. rewrite lookup_insert.
    case_decide; [done|]. by apply H2.
  - intros y v. rewrite lookup_insert. case_decide as Heq; [|apply Hr]. intros [= <-]. by subst.
Qed.

Lemma WellFormed_tokens am ts : WellFormed am -> ts ⊆ tokens am -> WellFormed (setTokens am ts).
Proof.
  intros [Hu Hr Ht] Hs. split; [done|done|]. intros t info Hti. apply Ht. by eapply lookup_weaken.
Qed.

Lemma tokens_after am p :
  exists s', dropTokens am (tokensWhere am p) = setStore (setTokens am (tokens am ∖ filter (fun x => p x.2 = true) (tokens am))) s'.
Proof. rewrite <- delete_where. apply dropTokens_cache. Qed.

Lemma WellFormed_dropWhere am p : WellFormed am -> WellFormed (dropTokens am (tokensWhere am p)).
Proof.
  intros Hwf. destruct (tokens_after am p) as [s' ->]. apply WellFormed_store, WellFormed_tokens; [done|].
  by apply map_subseteq_difference_l.
Qed.

Lemma without_where am p t info :
  (tokens am ∖ filter (fun x => p x.2 = true) (tokens am)) !! t = Some info -> tokens am !! t = Some info /\ p info = false.
Proof.
  rewrite lookup_difference_Some, map_lookup_filter_None. intros [Ht [Hn|Hn]]; [congruence|]. split; [done|].
  apply not_true_iff_false. by apply (Hn info).
Qed.

(** A user goes with the tokens of the user. *)
Lemma WellFormed_deleteUser am name :
  WellFormed am -> WellFormed (dropUserTokens (setUsers am (delete name (users am))) name).
Proof.
  intros [Hu Hr Ht]. unfold dropUserTokens.
  destruct (tokens_after (setUsers am (delete name (users am))) (fun info => String.eqb (t_Username info) name)) as [s' ->].
  split; cbn.
  - intros y v [_ Hv]%lookup_delete_Some. by apply Hu.
  - done.
  - intros t info Hd. apply (without_where am (fun info => String.eqb (t_Username info) name)) in Hd as [Hti Hne%String.eqb_neq].
    destruct (Ht _ _ Hti) as [H1 H2].
    split; [done|]. by rewrite lookup_delete_ne.
Qed.

Lemma WellFormed_deleteRole am name :
  WellFormed am ->
  WellFormed (setRoleMap (setUsers am (withoutRole name <$> users am)) (delete name (roles am))).
Proof.
  intros [Hu Hr Ht]. split; cbn [users roles tokens setRoleMap setUsers].
  - intros y v. rewrite lookup_fmap. intros (u & Hy & ->)%fmap_Some. destruct (Hu _ _ Hy) as [H1 H2]. split; [done|].
    intros r [Hin Hne]%list_elem_of_In%filter_In. rewrite lookup_delete_ne; [apply H2; by apply list_elem_of_In|].
    intros ->. by rewrite String.eqb_refl in Hne.
  - intros y v [_ Hv]%lookup_delete_Some. by apply Hr.
  - intros t info Hti. destruct (Ht _ _ Hti) as [H1 H2]. split; [done|]. rewrite lookup_fmap. by apply fmap_is_Some.
Qed.

(** Splits the calls of the store of an operation. *)
Ltac calls := repeat match goal with
  | |- context [persist now ?am ?k ?a] => destruct (persist_cache am k a) as (? & [[]|?] & ->)
  | |- context [erase ?am ?k ?e] => destruct (erase_cache am k e) as (? & [] & ->)
  | |- context [putFlag now ?am ?v] => destruct (putFlag_cache am v) as (? & [[]|?] & ->)
  end; cbn [fst snd].

Lemma WellFormed_users am salt token c :
  WellFormed am ->
  match c with
  | CAuthEnable | CAuthDisable | CAuthenticate _ _ | CUserAdd _ _ | CUserDelete _ | CUserChangePassword _ _
  | CUserGrantRole _ _ | CUserRevokeRole _ _ => True | _ => False
  end -> WellFormed (handleAuth clusterID memberID now salt token am c).1.
Proof.
  intros Hwf Hc. destruct c; try done; cbn [handleAuth done fst].
  - unfold Enable. destruct (users am !! "root"); [|done]. destruct (enabled am); [done|].
    calls; by apply WellFormed_store, WellFormed_flag.
  - unfold Disable. calls; by repeat first [apply WellFormed_store | apply WellFormed_tokens | apply WellFormed_flag | apply map_empty_subseteq].
  - unfold Authenticate. destruct (users am !! name) as [u|] eqn:Hu; [|done].
    destruct (negb _); [done|]. destruct token as [t|]; [|done].
    set (info := mkTokenInfo t name _).
    assert (Hwf1 : WellFormed (setTokens am (<[t := info]> (tokens am)))).
    { destruct Hwf as [H1 H2 H3]. split; [done|done|]. cbn. intros t' info'. rewrite lookup_insert.
      case_decide as Ht; [|apply H3]. intros [= <-]. split; [done|]. by exists u. }
    calls; by apply WellFormed_store.
  - unfold AddUser. destruct (users am !! name); [done|]. destruct (hashPassword _ _ _) as [h|]; [|done].
    calls; [|by apply WellFormed_store]. apply WellFormed_addUser; [by apply WellFormed_store|done|].
    intros r Hr. cbn in Hr. by apply elem_of_nil in Hr.
  - unfold DeleteUser. destruct (String.eqb name "root"); [done|]. destruct (users am !! name); [|done].
    calls; [|by apply WellFormed_store]. apply WellFormed_deleteUser. by apply WellFormed_store.
  - unfold ChangePassword, updateUser. destruct (users am !! name) as [u|] eqn:Hu; [|done].
    destruct (hashPassword _ _ _) as [h|]; [|done]. destruct (wf_user _ Hwf _ _ Hu) as [Hn Hr].
    calls; [apply WellFormed_dropWhere|]; by apply WellFormed_store, WellFormed_addUser.
  - unfold GrantRole, updateUser. destruct (users am !! user) as [u|] eqn:Hu; [|done].
    destruct (roles am !! role) as [r|] eqn:Hrole; [|done]. destruct (existsb _ _); [done|].
    destruct (wf_user _ Hwf _ _ Hu) as [Hn Hr]. calls; apply WellFormed_store, WellFormed_addUser; try done;
      intros r' [Hin| ->%list_elem_of_singleton]%elem_of_app; eauto.
  - unfold RevokeRole, updateUser. destruct (users am !! name) as [u|] eqn:Hu; [|done].
    destruct (existsb _ _); [|done]. destruct (wf_user _ Hwf _ _ Hu) as [Hn Hr].
    calls; apply WellFormed_store, WellFormed_addUser; try done; intros r' [Hin _]%list_elem_of_In%filter_In;
      apply Hr; by apply list_elem_of_In.
Qed.

Lemma WellFormed_roles am salt token c :
  WellFormed am ->
  match c with
  | CRoleAdd _ | CRoleDelete _ | CRoleGrantPermission _ _ | CRoleRevokePermission _ _ _ => True | _ => False
  end -> WellFormed (handleAuth clusterID memberID now salt token am c).1.
Proof.
  intros Hwf Hc. destruct c; try done; cbn [handleAuth done fst].
  - unfold AddRole. destruct (roles am !! name); [done|]. calls; [|by apply WellFormed_store].
    apply WellFormed_addRole; [by apply WellFormed_store|done].
  - unfold DeleteRole. destruct (String.eqb role "root"); [done|]. destruct (roles am !! role); [|done].
    destruct (dropRole_users now role am) as [s' ->]. calls; apply WellFormed_store;
      exact (WellFormed_store _ s' (WellFormed_deleteRole am role Hwf)).
  - destruct perm as [p|]; [|done]. cbn. unfold GrantPermission, updateRole. destruct (roles am !! name) as [r|] eqn:Hr; [|done].
    calls; apply WellFormed_store, WellFormed_addRole; try done; exact (wf_role _ Hwf _ _ Hr).
  - unfold RevokePermission, updateRole. destruct (roles am !! role) as [r|] eqn:Hr; [|done]. destruct (existsb _ _); [|done].
    calls; apply WellFormed_store, WellFormed_addRole; try done; exact (wf_role _ Hwf _ _ Hr).
Qed.

Lemma WellFormed_handleAuth am salt token c :
  WellFormed am -> WellFormed (handleAuth clusterID memberID now salt token am c).1.
Proof.
  intros Hwf. destruct c; try (by apply WellFormed_users); try (by apply WellFormed_roles); done.
Qed.

End wellformed.

(** Calls of clients one after the other, at any times and with any store calls of
    others in between, clean-ups of the tokens, and a store that anyone changes. *)
Inductive serve_step {S : Type} `{!Store S, !MapOrder, !Crypto, !TextWire UserInfo, !TextWire RoleInfo, !TextWire TokenInfo}
    (am : AuthManager S) : AuthManager S -> Prop :=
  | sv_call cluster member now salt (others : string -> S -> S * result Code unit) md token (c : Call) :
      serve_step am (serve cluster member now others md salt token am c).1
  | sv_cleanup now : serve_step am (cleanupExpiredTokens now am)
  | sv_store s : serve_step am (setStore am s).

(** A range finds nothing under the prefix, or fails. *)
Definition noRecords {S : Type} `{!Store S} (s : S) (prefix : string) : Prop :=
  match st_Range s prefix (prefixEnd prefix) 0 0 with Ok resp => rr_Kvs resp = [] | Err _ => True end.

Lemma WellFormed_new {S : Type} `{!Store S, !TextWire UserInfo, !TextWire RoleInfo, !TextWire TokenInfo} now (s : S) ttl cost :
  noRecords s authUserPrefix -> noRecords s authRolePrefix -> noRecords s authTokenPrefix -> WellFormed (NewAuthManager now s ttl cost).
Proof.
  assert (Hl : forall A (w : TextWire A) name valid prefix, noRecords s prefix ->
    loadPrefix (mkAuthManager s false ∅ ∅ ∅ ttl cost) prefix name valid (∅ : gmap string A) = ∅).
  { intros A w name valid prefix. unfold noRecords, loadPrefix. cbn [store]. destruct (st_Range s _ _ _ _); [|done]. by intros ->. }
  intros Hu Hr Ht. unfold NewAuthManager, loadState. cbn [users roles tokens]. rewrite !Hl by done.
  split; intros *; cbn; by rewrite lookup_empty.
Qed.

(** C30: a manager that starts on a store without users, roles and tokens stays
    well formed under calls that do not overlap: whatever the store answers then,
    writes that fail included, no call of a client and no clean-up of the tokens
    breaks the cache: records stay under their names, the roles a user has exist
    and the user of an accepted token exists. *)
Theorem auth_cache_well_formed {S : Type} `{!Store S, !MapOrder, !Crypto, !TextWire UserInfo, !TextWire RoleInfo, !TextWire TokenInfo}
    (start : Z) (s : S) (ttl cost : Z) (am : AuthManager S)
    (Hu : noRecords s authUserPrefix) (Hr : noRecords s authRolePrefix) (Ht : noRecords s authTokenPrefix)
    (Hrun : rtc serve_step (NewAuthManager start s ttl cost) am) :
  WellFormed am.
Proof.
  pose proof (WellFormed_new start s ttl cost Hu Hr Ht) as Hwf. clear Hu Hr Ht.
  induction Hrun as [am|am am1 am2 Hs _ IH]; [done|]. apply IH.
  destruct Hs as [cluster member now salt others md token c|now|s']; [|by apply WellFormed_dropWhere|by apply WellFormed_store].
  unfold serve. destruct (AuthInterceptor _ _ _ _ _); [|done].
  destruct c as [[]|c|method]; try (by apply WellFormed_store); try by apply WellFormed_handleAuth.
Qed.

(** ** Passwords *)

(** A password change that succeeds leaves no accepted token of the user, and
    only the new password opens the account; one that the store refused has
    changed the password all the same and left the tokens. *)
Theorem password_change_logs_out {S : Type} `{!Store S, !MapOrder, !Crypto, !TextWire UserInfo, !TextWire TokenInfo}
    (am : AuthManager S) (now salt : Z) (name password hash : string) (u : UserInfo) :
  users am !! name = Some u -> bcrypt_hash (bcryptCost am) salt password = Some hash ->
  let '(am', r) := ChangePassword now salt am name password in
  users am' = <[name := setHash u hash]> (users am) /\
  (forall t p, bcrypt_check hash p = false -> (Authenticate now t am' name p).2 = Err InvalidPassword) /\
  bcrypt_check hash password = true /\
  match r with
  | Ok _ => forall t info, tokens am' !! t = Some info <-> tokens am !! t = Some info /\ t_Username info <> name
  | Err _ => tokens am' = tokens am
  end.
Proof.
  intros Hu Hh. unfold ChangePassword, hashPassword, updateUser. rewrite Hu, Hh.
  destruct (persist_cache now (setUsers am (<[name := setHash u hash]> (users am))) (authUserPrefix +:+ name) (setHash u hash))
    as (s & r & ->).
  assert (Hauth : forall am', users am' = <[name := setHash u hash]> (users am) ->
    forall t p, bcrypt_check hash p = false -> (Authenticate now t am' name p).2 = Err InvalidPassword).
  { intros am' Hus t p Hp. unfold Authenticate. rewrite Hus, lookup_insert_eq. cbn [u_PasswordHash setHash]. by rewrite Hp. }
  pose proof (bcrypt_accepts _ _ _ _ Hh) as Hacc.
  destruct r as [[]|e]; [|by split_and!; [|apply Hauth| |]].
  unfold dropUserTokens. set (am1 := setStore _ s).
  destruct (tokens_after am1 (fun info => String.eqb (t_Username info) name)) as [s' ->].
  split_and!; [done|by apply Hauth|done|]. intros t info. cbn [tokens setStore setTokens]. split.
  - intros Hd. by apply (without_where am1 (fun info => String.eqb (t_Username info) name)) in Hd as [Ht Hne%String.eqb_neq].
  - intros [Ht Hne]. apply lookup_difference_Some. split; [done|]. apply map_lookup_filter_None. right.
    intros info' Ht' Heq%String.eqb_eq. change (tokens am1) with (tokens am) in Ht'. cbn in Heq. congruence.
Qed.

(** The Enable call whose write fails answers an error but has switched
    authentication on; called again it answers success without writing, and a
    server started on that store has authentication off. *)
Theorem enable_retry_not_persisted {S : Type} `{StoreLaws S, !MapOrder, !Crypto, !TextWire UserInfo, !TextWire RoleInfo, !TextWire TokenInfo}
    (am : AuthManager S) (now : Z) (u : UserInfo) (s : S) (e : StoreErr) (n : nat) :
  users am !! "root" = Some u -> enabled am = false ->
  st_PutWithLease now (store am) authEnabledKey "true" 0 = (s, Err e) ->
  st_ready n s -> st_contents s !! authEnabledKey = None ->
  let '(am1, r1) := Enable now am in
  let '(am2, r2) := Enable now am1 in
  r1 = Err PersistFailed /\ IsEnabled am1 = true /\ r2 = Ok tt /\ am2 = am1 /\
  IsEnabled (NewAuthManager now (store am2) (tokenTTL am2) (bcryptCost am2)) = false.
Proof.
  intros Hu He Hput Hr Hn. unfold Enable at 1. rewrite Hu, He. unfold putFlag. cbn [store setEnabled]. rewrite Hput.
  unfold Enable. cbn [users enabled setStore setEnabled]. rewrite Hu. split_and!; try done.
  unfold NewAuthManager, loadState, IsEnabled. cbn [enabled store setStore].
  destruct (st_Range_spec _ _ authEnabledKey "" 1 Hr) as (resp & -> & ->). unfold rangeRecords. cbn [String.eqb]. by rewrite Hn.
Qed.

(** ** What the interceptor lets through *)

(** The state after a server is started again on a store with no records. *)
Lemma empty_store_disabled {S : Type} `{StoreLaws S, !MapOrder, !Crypto, !TextWire UserInfo, !TextWire RoleInfo, !TextWire TokenInfo}
    (s : S) n now ttl cost :
  st_ready n s -> st_contents s = ∅ -> NewAuthManager now s ttl cost = mkAuthManager s false ∅ ∅ ∅ ttl cost.
Proof.
  intros Hr Hc.
  assert (Hempty : forall key rangeEnd limit, exists resp, st_Range s key rangeEnd limit 0 = Ok resp /\ rr_Kvs resp = []).
  { intros key rangeEnd limit. destruct (st_Range_spec _ _ key rangeEnd limit Hr) as (resp & -> & Hk). exists resp. split; [done|].
    assert (rangeRecords (st_contents s) key rangeEnd = []) as Hnil.
    { rewrite Hc. unfold rangeRecords. destruct (String.eqb rangeEnd ""); [done|].
      apply elem_of_nil_inv. intros kv (k & Hk' & _)%elem_of_entriesIn. done. }
    rewrite Hk, Hnil. destruct (limit >? 0); [apply take_nil|done]. }
  unfold NewAuthManager, loadState, loadPrefix. cbn [store enabled users roles tokens tokenTTL bcryptCost].
  destruct (Hempty authEnabledKey "" 1) as (r1 & -> & ->).
  destruct (Hempty authUserPrefix (prefixEnd authUserPrefix) 0) as (r2 & -> & ->).
  destruct (Hempty authRolePrefix (prefixEnd authRolePrefix) 0) as (r3 & -> & ->).
  by destruct (Hempty authTokenPrefix (prefixEnd authTokenPrefix) 0) as (r4 & -> & ->).
Qed.

(** A user without any permission can delete every record, those of
    authentication included: a request with no key is not checked, and the store
    takes it for the empty key; a server started on the store has no users and
    authentication off. *)
Theorem any_user_deletes_everything {S : Type} `{StoreLaws S, !MapOrder, !Crypto, !TextWire UserInfo, !TextWire RoleInfo, !TextWire TokenInfo}
    (cluster member now salt ttl cost : Z) (others : string -> S -> S * result Code unit) (am : AuthManager S) (n : nat)
    (t : string) (rest : list string) (info : TokenInfo) (token : option string) :
  st_ready (Datatypes.S n) (store am) -> IsEnabled am = true ->
  tokens am !! t = Some info -> unix now <= t_ExpiresAt info ->
  let '(am', r) := serve cluster member now others (Some (t :: rest)) salt token am
                     (KV (CDeleteRange (mkDeleteRangeRequest None nulKey false))) in
  (exists reply, r = Ok reply) /\ st_contents (store am') = ∅ /\
  NewAuthManager now (store am') ttl cost = mkAuthManager (store am') false ∅ ∅ ∅ ttl cost.
Proof.
  intros Hr He Ht Hle. unfold serve, AuthInterceptor. rewrite He. unfold userOfToken, ValidateToken. rewrite Ht.
  replace (unix now >? t_ExpiresAt info) with false by (symmetry; rewrite Z.gtb_ltb; apply Z.ltb_ge; lia).
  cbn [negb fullMethod]. rewrite extract_required. cbn [isAuthAPI kvMethod required dq_Key handle handleKv].
  destruct (st_DeleteRange_spec n (store am) "" nulKey Hr) as (s' & [[deleted prev] rev] & Hdel & Hr' & Hc).
  unfold KV_DeleteRange, onStore. cbn [str dq_Key dq_RangeEnd default]. rewrite Hdel. cbn [fst snd].
  assert (Hempty : st_contents s' = ∅).
  { rewrite Hc. apply map_empty. intros k. apply map_lookup_filter_None. right. intros kv _. cbn.
    unfold matchWatch. cbn. by destruct k. }
  split; [eauto|]. split; [done|]. by apply (empty_store_disabled s' n).
Qed.

(** The Auth service is not checked, but for switching authentication off. *)
Lemma auth_call_free {S : Type} `{!Store S} (am : AuthManager S) md now c :
  c <> CAuthDisable -> exists o, AuthInterceptor now am md (fullMethod (Auth c)) (Auth c) = Ok o.
Proof.
  intros Hc. unfold AuthInterceptor. destruct (negb _); [eauto|]. replace (isAuthAPI _) with true by (by destruct c).
  destruct c; try (eexists; reflexivity). done.
Qed.

(** C37: the Auth service asks for no token: when the store works, a client
    without one sets the password of root, logs in as root and switches
    authentication off. *)
Theorem anyone_becomes_root {S : Type} `{StoreLaws S, !MapOrder, !Crypto, !TextWire UserInfo, !TextWire RoleInfo, !TextWire TokenInfo}
    {goodText : string -> Prop} `{!AuthWire goodText} (cluster member now salt : Z)
    (others : string -> S -> S * result Code unit) (am : AuthManager S) (kept : gmap string TokenInfo)
    (u : UserInfo) (password hash t : string) :
  Durable (goodText := goodText) (writesOf am + 3) am kept -> users am !! "root" = Some u ->
  bcrypt_hash (bcryptCost am) salt password = Some hash -> goodText t -> 0 <= tokenTTL am ->
  let call := serve cluster member now others in
  let am1 := (call None salt None am (Auth (CUserChangePassword "root" password))).1 in
  let '(am2, r2) := call None salt (Some t) am1 (Auth (CAuthenticate "root" password)) in
  let '(am3, r3) := call (Some [t]) salt None am2 (Auth CAuthDisable) in
  (exists h, r2 = Ok (RToken h t)) /\ (exists h, r3 = Ok (RHeader h)) /\ IsEnabled am3 = false.
Proof.
  intros HD Hu Hh Hgood Httl call. subst call.
  destruct (refines_changePassword now 3 am kept HD salt "root" password) as (am1 & kept1 & ans1 & Hstep & Hspec & HD1 & Httl1 & _).
  cbn [authStep] in Hstep. unfold unitOp in Hstep. injection Hstep as Ham1 _.
  cbn [specStep view a_users] in Hspec. unfold on in Hspec. rewrite Hu, Hh in Hspec. injection Hspec as _ Hus _ _ _ _.
  unfold serve. destruct (auth_call_free am None now (CUserChangePassword "root" password)) as [o1 ->]; [done|].
  cbn [handle handleAuth done fst]. rewrite Ham1.
  destruct (auth_call_free am1 None now (CAuthenticate "root" password)) as [o2 ->]; [done|].
  cbn [handle handleAuth]. unfold Authenticate. rewrite <- Hus, lookup_insert_eq. cbn [u_PasswordHash setHash].
  rewrite (bcrypt_accepts _ _ _ _ Hh). cbn [negb]. set (info := mkTokenInfo t "root" _).
  destruct (durable_token (goodText := goodText) 2 now am1 kept1 t info HD1) as (s2 & Hp & HD2).
  { split_and!; [done|done|]. by apply (proj2 (du_users _ _ _ HD) "root" u). }
  rewrite Hp by done.
  set (am2 := setStore (setTokens am1 _) s2) in *. cbn [answer].
  assert (Hin : exists o, AuthInterceptor now am2 (Some [t]) (fullMethod (Auth CAuthDisable)) (Auth CAuthDisable) = Ok o).
  { unfold AuthInterceptor. destruct (negb _); [eauto|]. cbn. unfold checkRootPermission, userOfToken, ValidateToken. cbn.
    rewrite lookup_insert_eq. cbn. rewrite Z.gtb_ltb.
    destruct (Z.ltb_spec (unix (now + tokenTTL am1)) (unix now)) as [Hlt|]; [|cbn; eauto].
    unfold unix in Hlt. pose proof (Z.div_le_mono now (now + tokenTTL am1) 1000000000). lia. }
  destruct Hin as [o3 ->]. cbn [handle handleAuth]. unfold Disable.
  destruct (durable_flag 1 now am2 _ false HD2) as (s3 & -> & HD3).
  destruct (durable_eraseTokens 0 _ _ HD3) as (s4 & -> & HD4). cbn [done fst snd answer].
  split_and!; [eauto|eauto|done].
Qed.
