(* ===== verification/AuthExamples.v ===== *)
(** * Concrete runs of the authenticated server

    Users, roles and tokens are written as the binary digits of a number, as the
    leases of [RocksEtcdRefine]; a hash is the password with a mark.  The store is
    the in-memory one. *)

From stdpp Require Import pretty countable.
From S2P Require Import Prelude GoBytes OrderedTree KvTypes ShardedMap MemoryEtcd EtcdFacts EtcdOps EtcdTheorems BatchApply RaftCodec RocksEtcdRefine.
From S2P Require Import StoreApi EtcdApi Auth AuthRefine AuthTheorems AuthServer AuthServerTheorems.

(** ** Encodings *)

#[global] Instance PermissionType_countable : Countable PermissionType.
Proof.
  refine (inj_countable' (fun t => match t with PermissionRead => inl true | PermissionWrite => inl false
                                   | PermissionReadWrite => inr None | PermissionOther n => inr (Some n) end)
    (fun x => match x with inl true => PermissionRead | inl false => PermissionWrite
              | inr None => PermissionReadWrite | inr (Some n) => PermissionOther n end) _).
  abstract (by intros []).
Defined.

#[global] Instance Permission_dec : EqDecision Permission.
Proof. solve_decision. Defined.
#[global] Instance Permission_countable : Countable Permission.
Proof.
  refine (inj_countable' (fun p => (p_Type p, p_Key p, p_RangeEnd p)) (fun '(t, k, e) => mkPermission t k e) _).
  abstract (by intros []).
Defined.

#[global] Instance UserInfo_dec : EqDecision UserInfo.
Proof. solve_decision. Defined.
#[global] Instance UserInfo_countable : Countable UserInfo.
Proof.
  refine (inj_countable' (fun u => (u_Name u, u_PasswordHash u, u_Roles u, u_CreatedAt u))
    (fun '(n, h, rs, c) => mkUserInfo n h rs c) _).
  abstract (by intros []).
Defined.

#[global] Instance RoleInfo_dec : EqDecision RoleInfo.
Proof. solve_decision. Defined.
#[global] Instance RoleInfo_countable : Countable RoleInfo.
Proof.
  refine (inj_countable' (fun r => (r_Name r, r_Permissions r, r_CreatedAt r)) (fun '(n, ps, c) => mkRoleInfo n ps c) _).
  abstract (by intros []).
Defined.

#[global] Instance TokenInfo_dec : EqDecision TokenInfo.
Proof. solve_decision. Defined.
#[global] Instance TokenInfo_countable : Countable TokenInfo.
Proof.
  refine (inj_countable' (fun t => (t_Token t, t_Username t, t_ExpiresAt t)) (fun '(t, u, e) => mkTokenInfo t u e) _).
  abstract (by intros []).
Defined.

Lemma digits_untagged p q : q ∈ ["PB:"; "SNAP-PB:"; "LEASE-PB:"] -> cutPrefix q (digits p) = None.
Proof.
  intros Hq. assert (q = "PB:" \/ q = "SNAP-PB:" \/ q = "LEASE-PB:") as [-> | [-> | ->]] by set_solver; by destruct p.
Qed.

#[global, refine] Instance digitText (A : Type) `{Countable A} : TextWire A := {
  text_marshal a := Some (digits (encode a));
  text_unmarshal s := p ← undigits s; decode p;
  text_exact _ := True;
}.
Proof.
  - intros a b _ [= <-]. rewrite undigits_digits. cbn. apply decode_encode.
  - intros a b p [= <-]. apply digits_untagged.
Defined.

#[global, refine] Instance toyCrypto : Crypto := {
  bcrypt_hash _ _ password := Some ("h" +:+ password);
  bcrypt_check hash password := String.eqb hash ("h" +:+ password);
}.
Proof. intros cost salt password hash [= <-]. apply String.eqb_refl. Defined.

Definition below255 (s : string) : Prop := str_ltb s (String (byte_of 255) "") = true.

#[global, refine] Instance digitWire : AuthWire below255 := {}.
Proof.
  - intros u _ _ _. split; [done|by eexists].
  - intros r _. split; [done|by eexists].
  - intros t _ _. split; [done|by eexists].
  - done.
  - intros cost salt password h [= <-]. reflexivity.
Defined.

(** ** A run with a restart *)

Definition freshStore : MemoryEtcd ShardedMap := NewMemoryEtcd.

Definition readA : Permission := mkPermission PermissionRead "a" "b".

Definition authOps : list (Z * AuthOp) :=
  [(0, AuAddUser 1 "root" "r"); (0, AuAddUser 1 "bob" "pw"); (0, AuAddRole "reader"); (0, AuGrantPermission "reader" readA);
   (0, AuGrantRole "bob" "reader"); (0, AuEnable); (0, AuAuthenticate (Some "tok") "bob" "pw");
   (secondsNs 5, AuRestart); (secondsNs 6, AuValidate "tok"); (secondsNs 6, AuCheck "bob" "aa" PermissionRead);
   (secondsNs 6, AuCheck "bob" "aa" PermissionWrite); (secondsNs 11, AuRestart); (secondsNs 11, AuValidate "tok")].

Lemma fresh_ready n : Z.of_nat n <= int64_max -> st_ready n freshStore.
Proof. intros Hn. split; [apply wf_NewMemoryEtcd|]. exact Hn. Qed.

Lemma fresh_vals k : vals freshStore !! k = None.
Proof.
  unfold vals, valuesOf. change (st_contents freshStore) with (contents (M := ShardedMap) NewMap).
  by rewrite contents_new, fmap_empty, lookup_empty.
Qed.

Lemma authOps_ok : Forall (fun p => opOk (goodText := below255) p.2) authOps.
Proof. repeat constructor. Qed.

Lemma auth_refines_witness :
  (runAuth (NewAuthManager 0 freshStore (secondsNs 10) 4) authOps).2 =
  [AnsUnit (Ok tt); AnsUnit (Ok tt); AnsUnit (Ok tt); AnsUnit (Ok tt); AnsUnit (Ok tt); AnsUnit (Ok tt); AnsToken (Ok "tok");
   AnsUnit (Ok tt); AnsInfo (Ok (mkTokenInfo "tok" "bob" 10)); AnsUnit (Ok tt); AnsUnit (Err AuthDenied);
   AnsUnit (Ok tt); AnsInfo (Err InvalidToken)].
Proof.
  assert (Hready : st_ready (authWrites 0 (length authOps)) freshStore) by (apply fresh_ready; vm_compute; discriminate).
  pose proof (auth_refines (goodText := below255) freshStore 0 (secondsNs 10) 4 authOps Hready
    (fresh_vals authEnabledKey) (fun p x _ => fresh_vals (p +:+ x)) authOps_ok) as Hr.
  destruct (runAuth _ authOps) as [am answers].
  assert (Hspec : (runSpec (secondsNs 10) 4 authOps noAuth).2 =
    [AnsUnit (Ok tt); AnsUnit (Ok tt); AnsUnit (Ok tt); AnsUnit (Ok tt); AnsUnit (Ok tt); AnsUnit (Ok tt); AnsToken (Ok "tok");
     AnsUnit (Ok tt); AnsInfo (Ok (mkTokenInfo "tok" "bob" 10)); AnsUnit (Ok tt); AnsUnit (Err AuthDenied);
     AnsUnit (Ok tt); AnsInfo (Err InvalidToken)]) by (vm_compute; reflexivity).
  destruct (runSpec _ _ authOps noAuth) as [st expected]. destruct Hr as [-> _]. exact Hspec.
Defined.

(** ** The server *)

Definition quiet (_ : string) (s : MemoryEtcd ShardedMap) : MemoryEtcd ShardedMap * result Code unit := (s, Ok tt).

Definition bob : UserInfo := mkUserInfo "bob" "hpw" ["reader"] 0.
Definition root : UserInfo := mkUserInfo "root" "hr" [] 0.
Definition bobToken : TokenInfo := mkTokenInfo "tok" "bob" 10.

(** A server with authentication on, over a store with two keys. *)
Definition demoServer : AuthManager (MemoryEtcd ShardedMap) :=
  mkAuthManager demo true (<["bob" := bob]> {["root" := root]}) {["reader" := mkRoleInfo "reader" [readA] 0]}
    {["tok" := bobToken]} (secondsNs 10) 4.

Definition rangeOf (key : string) : KvCall := CRange (mkRangeRequest (Some key) "" 0 0).

Lemma demo_allowed : allowed demoServer "bob" "aa" PermissionRead.
Proof.
  right. exists bob, "reader", (mkRoleInfo "reader" [readA] 0), readA. split_and!.
  - vm_compute. reflexivity.
  - by left.
  - vm_compute. reflexivity.
  - by left.
  - apply grants_spec. vm_compute. reflexivity.
Qed.

Lemma interceptor_guards_kv_witness :
  serve 1 1 (secondsNs 3) quiet (Some ["tok"]) 0 None demoServer (KV (rangeOf "aa")) =
    handleKv 1 1 (secondsNs 3) demoServer (rangeOf "aa") /\
  (exists code, serve 1 1 (secondsNs 3) quiet None 0 None demoServer (KV (rangeOf "aa")) = (demoServer, Err code)).
Proof.
  split.
  - destruct (interceptor_guards_kv 1 1 (secondsNs 3) 0 quiet demoServer (Some ["tok"]) None (rangeOf "aa") eq_refl) as [H _].
    apply H. exists "tok", [], bobToken. split_and!; [done|vm_compute; reflexivity|vm_compute; discriminate|]. exact demo_allowed.
  - destruct (interceptor_guards_kv 1 1 (secondsNs 3) 0 quiet demoServer None None (rangeOf "aa") eq_refl) as [_ H].
    apply H. by intros (t & rest & info & Hmd & _).
Defined.

Lemma demoServer_wf : WellFormed demoServer.
Proof.
  split; cbn [users roles tokens demoServer].
  - intros x u. rewrite lookup_insert. case_decide as Hx; [intros [= <-]; subst x|].
    + split; [done|]. intros r Hr. cbn in Hr. apply list_elem_of_singleton in Hr as ->. vm_compute. by eexists.
    + intros [<- <-]%lookup_singleton_Some. split; [done|]. intros r Hr. by apply elem_of_nil in Hr.
  - by intros x r [<- <-]%lookup_singleton_Some.
  - intros t info [<- <-]%lookup_singleton_Some. split; [done|]. vm_compute. by eexists.
Qed.

(** A user is added, authentication stays off, and the user gets a role. *)
Definition withBob : AuthManager (MemoryEtcd ShardedMap) :=
  let call am c := (serve 1 1 (secondsNs 3) quiet None 0 None am (Auth c)).1 in
  call (call (call (NewAuthManager 0 freshStore (secondsNs 10) 4) (CUserAdd "bob" "pw")) (CRoleAdd "reader")) (CUserGrantRole "bob" "reader").

Lemma auth_cache_well_formed_witness :
  WellFormed withBob /\ (u_Roles <$> users withBob !! "bob") = Some ["reader"].
Proof.
  split; [|vm_compute; reflexivity].
  apply (auth_cache_well_formed 0 freshStore (secondsNs 10) 4 withBob); [vm_compute; reflexivity..|].
  unfold withBob. cbv zeta.
  eapply rtc_l; [apply (sv_call _ 1 1 (secondsNs 3) 0 quiet None None (Auth (CUserAdd "bob" "pw")))|].
  eapply rtc_l; [apply (sv_call _ 1 1 (secondsNs 3) 0 quiet None None (Auth (CRoleAdd "reader")))|].
  eapply rtc_l; [apply (sv_call _ 1 1 (secondsNs 3) 0 quiet None None (Auth (CUserGrantRole "bob" "reader")))|].
  apply rtc_refl.
Defined.

Lemma password_change_logs_out_witness :
  let '(am', r) := ChangePassword 0 1 demoServer "bob" "new" in
  r = Ok tt /\ tokens am' !! "tok" = None /\ (Authenticate 0 None am' "bob" "pw").2 = Err InvalidPassword.
Proof.
  assert (Hb : users demoServer !! "bob" = Some bob) by (vm_compute; reflexivity).
  pose proof (password_change_logs_out demoServer 0 1 "bob" "new" "hnew" bob Hb eq_refl) as H.
  assert (Hr : (ChangePassword 0 1 demoServer "bob" "new").2 = Ok tt) by (vm_compute; reflexivity).
  destruct (ChangePassword 0 1 demoServer "bob" "new") as [am' r]. cbn in Hr. subst r. destruct H as (_ & Hp & _ & Ht).
  split_and!; [done| |by apply Hp].
  destruct (tokens am' !! "tok") as [info|] eqn:E; [|done]. apply Ht in E as [Hti Hne].
  change (({["tok" := bobToken]} : gmap string TokenInfo) !! "tok" = Some info) in Hti. apply lookup_singleton_Some in Hti as [_ <-]. done.
Defined.

Lemma demo_ready : st_ready 1 demo.
Proof. split; [exact demo_wf|]. vm_compute. discriminate. Qed.

Lemma any_user_deletes_everything_witness :
  let '(am', r) := serve 1 1 (secondsNs 3) quiet (Some ["tok"]) 0 None demoServer
                     (KV (CDeleteRange (mkDeleteRangeRequest None nulKey false))) in
  st_contents (store am') = ∅ /\ IsEnabled (NewAuthManager (secondsNs 3) (store am') 0 4) = false.
Proof.
  assert (Ht : tokens demoServer !! "tok" = Some bobToken) by (vm_compute; reflexivity).
  pose proof (any_user_deletes_everything 1 1 (secondsNs 3) 0 0 4 quiet demoServer 0 "tok" [] bobToken None demo_ready eq_refl Ht
    ltac:(vm_compute; discriminate)) as H.
  destruct (serve _ _ _ _ _ _ _ _ _) as [am' r]. destruct H as (_ & Hc & Hn). split; [exact Hc|].
  by rewrite Hn.
Defined.

(** Root is there and authentication is on. *)
Definition setupOps : list (Z * AuthOp) := [(0, AuAddUser 1 "root" "r"); (0, AuEnable)].
Definition rootServer : AuthManager (MemoryEtcd ShardedMap) := (runAuth (NewAuthManager 0 freshStore (secondsNs 10) 4) setupOps).1.

Lemma rootServer_durable : exists kept, Durable (goodText := below255) 20 rootServer kept.
Proof.
  assert (Hready : st_ready (authWrites 0 2 + 20) freshStore) by (apply fresh_ready; vm_compute; discriminate).
  destruct (fresh_manager (goodText := below255) freshStore _ 0 (secondsNs 10) 4 Hready (fresh_vals authEnabledKey)
    (fun p x _ => fresh_vals (p +:+ x))) as [Hn HD].
  assert (Hok : Forall (fun p => opOk (goodText := below255) p.2) setupOps) by repeat constructor.
  assert (Hsm : small 0 (view (mkAuthManager freshStore false ∅ ∅ ∅ (secondsNs 10) 4) ∅)).
  { split; [done|]. by unfold weight, view; cbn [a_users a_stored users]; rewrite !map_size_empty. }
  destruct (runAuth_refines setupOps 0 20 _ ∅ Hok Hsm HD) as (am' & kept' & HD' & _ & Ham).
  exists kept'. unfold rootServer. by rewrite Hn, Ham.
Qed.

Lemma anyone_becomes_root_witness :
  let call := serve 1 1 0 quiet in
  let am1 := (call None 0 None rootServer (Auth (CUserChangePassword "root" "mine"))).1 in
  let am2 := (call None 0 (Some "t") am1 (Auth (CAuthenticate "root" "mine"))).1 in
  let '(am3, r3) := call (Some ["t"]) 0 None am2 (Auth CAuthDisable) in
  IsEnabled rootServer = true /\ (exists h, r3 = Ok (RHeader h)) /\ IsEnabled am3 = false.
Proof.
  destruct rootServer_durable as [kept HD].
  assert (Hu : users rootServer !! "root" = Some (mkUserInfo "root" "hr" [] 0)) by (vm_compute; reflexivity).
  pose proof (anyone_becomes_root (goodText := below255) 1 1 0 0 quiet rootServer kept (mkUserInfo "root" "hr" [] 0) "mine" "hmine" "t") as H.
  cbn zeta in *. set (am1 := (serve 1 1 0 quiet None 0 None rootServer (Auth (CUserChangePassword "root" "mine"))).1) in *.
  destruct (serve 1 1 0 quiet None 0 (Some "t") am1 (Auth (CAuthenticate "root" "mine"))) as [am2 r2]. cbn [fst] in *.
  destruct (serve 1 1 0 quiet (Some ["t"]) 0 None am2 (Auth CAuthDisable)) as [am3 r3].
  destruct H as (_ & Hr & He); [|exact Hu|done|reflexivity|vm_compute; discriminate|split_and!; [vm_compute; reflexivity|exact Hr|exact He]].
  eapply Durable_le; [|exact HD]. vm_compute. lia.
Defined.

(** ** A failing store *)

(** A store that refuses writes. *)
#[local] Instance refusing : Store (MemoryEtcd ShardedMap) := {
  StoreErr := unit;
  st_Range m key rangeEnd limit rev := Ok (RangeQuery m key rangeEnd limit rev);
  st_PutWithLease _ m _ _ _ := (m, Err tt);
  st_DeleteRange m key rangeEnd := (m, Err tt);
  st_Txn _ m _ _ _ := (m, Err tt);
  st_Compact m _ := (m, Err tt);
  st_CurrentRevision := CurrentRevision;
  st_LeaseGrant _ m _ _ := (m, Err tt);
  st_LeaseRevoke m _ := (m, Err tt);
  st_LeaseRenew _ m _ := (m, Err tt);
  st_LeaseTimeToLive m _ := Err tt;
  st_Leases m := Err tt;
  st_GetRaftStatus := GetRaftStatus;
}.

#[local, refine] Instance refusing_laws : StoreLaws (MemoryEtcd ShardedMap) (Store0 := refusing) := {
  st_ready n m := n = O /\ wf_etcd m;
  st_contents m := contents (kvData m);
}.
Proof.
  - intros n m [_ Hwf]. apply (wd_keyed _ _ (we_data _ Hwf)).
  - intros n k m Hnk [-> Hwf]. split; [lia|done].
  - intros n m key rangeEnd limit [_ Hwf]. eexists. split; [reflexivity|]. by apply memory_range.
  - by intros now n m key value [? _].
  - by intros n m key rangeEnd [? _].
Defined.

Definition offServer : AuthManager (MemoryEtcd ShardedMap) :=
  mkAuthManager freshStore false {["root" := root]} ∅ ∅ (secondsNs 10) 4.

Lemma enable_retry_not_persisted_witness :
  let '(am1, r1) := Enable (Store0 := refusing) 0 offServer in
  let '(am2, r2) := Enable (Store0 := refusing) 0 am1 in
  r1 = Err PersistFailed /\ IsEnabled am1 = true /\ r2 = Ok tt /\
  IsEnabled (NewAuthManager (Store0 := refusing) 0 (store am2) (secondsNs 10) 4) = false.
Proof.
  assert (Hc : contents (kvData freshStore) !! authEnabledKey = None).
  { change (contents (kvData freshStore)) with (contents (M := ShardedMap) NewMap). by rewrite contents_new, lookup_empty. }
  pose proof (enable_retry_not_persisted (Store0 := refusing) offServer 0 root freshStore tt 0
    (lookup_singleton_eq "root" root) eq_refl eq_refl (conj eq_refl wf_NewMemoryEtcd) Hc) as H.
  destruct (Enable 0 offServer) as [am1 r1]. destruct (Enable 0 am1) as [am2 r2]. destruct H as (? & ? & ? & Ham & Hn).
  by split_and!.
Defined.
