(* ===== verification/LeaseServer.v ===== *)
(** * Leases and alarms of the gRPC server ([api/etcd/lease_manager.go],
    [lease.go], [alarm_manager.go])

    The lease manager remembers the leases granted through this server and
    revokes the expired ones; everything else it leaves to the store.  A handler
    that panics returns [None].  A lease it remembers is the store's own: the
    manager reads its times, which only a renewal changes.  The order in which a tick visits the expired
    leases is an argument. *)

From S2P Require Import Prelude GoBytes OrderedTree KvTypes ShardedMap MemoryEtcd EtcdFacts EtcdOps EtcdTheorems RaftCodec StoreApi EtcdApi.
From Stdlib Require Import Floats.SpecFloat.

Section lease_manager.
Context {S : Type} `{!Store S}.

Record LeaseManager := mkLeaseManager {
  lm_leases : gmap Z LeaseInfo;
  lm_stopped : bool;
  lm_maxLeaseCount : Z;
}.

(** [limits] is the configured maximum, [None] without limits. *)
Definition NewLeaseManager (limits : option Z) : LeaseManager := mkLeaseManager ∅ false (default 0 limits).

Definition setKnown (lm : LeaseManager) (ls : gmap Z LeaseInfo) : LeaseManager :=
  mkLeaseManager ls (lm_stopped lm) (lm_maxLeaseCount lm).

Definition Stop (lm : LeaseManager) : LeaseManager := mkLeaseManager (lm_leases lm) true (lm_maxLeaseCount lm).

Definition Grant (now : Z) (s : S) (lm : LeaseManager) (id ttl : Z) : S * LeaseManager * result GoError LeaseInfo :=
  if lm_stopped lm then (s, lm, Err (KnownError ErrLeaseNotFound))
  else if (lm_maxLeaseCount lm >? 0) && (Z.of_nat (size (lm_leases lm)) >=? lm_maxLeaseCount lm)
  then (s, lm, Err (KnownError ErrTooManyLeases))
  else
    match st_LeaseGrant now s id ttl with
    | (s', Err _) => (s', lm, Err PlainError)
    | (s', Ok lease) => (s', setKnown lm (<[id := lease]> (lm_leases lm)), Ok lease)
    end.

(** The lease is forgotten before the store is asked. *)
Definition Revoke (s : S) (lm : LeaseManager) (id : Z) : S * LeaseManager * result GoError unit :=
  match lm_leases lm !! id with
  | None => (s, lm, Err (KnownError ErrLeaseNotFound))
  | Some _ =>
      let '(s', r) := st_LeaseRevoke s id in
      (s', setKnown lm (delete id (lm_leases lm)), match r with Ok _ => Ok tt | Err _ => Err PlainError end)
  end.

Definition RenewLease (now : Z) (s : S) (lm : LeaseManager) (id : Z) : S * LeaseManager * result GoError LeaseInfo :=
  match lm_leases lm !! id with
  | None => (s, lm, Err (KnownError ErrLeaseNotFound))
  | Some _ =>
      match st_LeaseRenew now s id with
      | (s', Err _) => (s', lm, Err PlainError)
      | (s', Ok lease) => (s', setKnown lm (<[id := lease]> (lm_leases lm)), Ok lease)
      end
  end.

Definition TimeToLive (s : S) (lm : LeaseManager) (id : Z) : result GoError (option LeaseInfo) :=
  match lm_leases lm !! id with
  | None => Err (KnownError ErrLeaseNotFound)
  | Some _ => match st_LeaseTimeToLive s id with Ok l => Ok l | Err _ => Err PlainError end
  end.

Definition ListLeases (s : S) : result GoError (list LeaseInfo) :=
  match st_Leases s with Ok ls => Ok ls | Err _ => Err PlainError end.

(** ** The tick *)

Definition expired (now : Z) (lm : LeaseManager) (id : Z) : Prop :=
  exists l, lm_leases lm !! id = Some l /\ IsExpired now (Some l) = true.

#[global] Instance expired_dec now lm id : Decision (expired now lm id).
Proof.
  unfold expired. destruct (lm_leases lm !! id) as [l|]; [|right; abstract by intros (l & [=] & _)].
  destruct (IsExpired now (Some l)) eqn:E; [left; by exists l|right; abstract (intros (l' & [= <-] & He); congruence)].
Defined.

Fixpoint revokeAll (s : S) (lm : LeaseManager) (ids : list Z) : S * LeaseManager :=
  match ids with
  | [] => (s, lm)
  | id :: ids' => let '(s', lm', _) := Revoke s lm id in revokeAll s' lm' ids'
  end.

(** [ids] lists the expired leases in the order of Go's map. *)
Definition checkExpiredLeases (now : Z) (ids : list Z) (s : S) (lm : LeaseManager) : S * LeaseManager := revokeAll s lm ids.

Definition visits (now : Z) (lm : LeaseManager) (ids : list Z) : Prop := NoDup ids /\ forall id, id ∈ ids <-> expired now lm id.

(** ** The Lease service *)

Variables (clusterID memberID : Z).

Record LeaseReply := mkLeaseReply { lr_Header : ResponseHeader; lr_ID : Z; lr_TTL : Z }.

Definition fail {A} (e : GoError) : result Code A := Err (toGRPCError e).

Definition LeaseGrantHandler (now : Z) (s : S) (lm : LeaseManager) (id ttl : Z) : S * LeaseManager * result Code LeaseReply :=
  let id := if id =? 0 then wrap_i64 (st_CurrentRevision s + 1) else id in
  match Grant now s lm id ttl with
  | (s', lm', Err e) => (s', lm', fail e)
  | (s', lm', Ok l) => (s', lm', Ok (mkLeaseReply (getResponseHeader clusterID memberID s') (l_ID l) (l_TTL l)))
  end.

Definition LeaseRevokeHandler (s : S) (lm : LeaseManager) (id : Z) : S * LeaseManager * result Code ResponseHeader :=
  match Revoke s lm id with
  | (s', lm', Err e) => (s', lm', fail e)
  | (s', lm', Ok _) => (s', lm', Ok (getResponseHeader clusterID memberID s'))
  end.

(** The stream: the replies to the requests up to the first error. *)
Fixpoint LeaseKeepAlive (s : S) (lm : LeaseManager) (reqs : list (Z * Z)) :
    S * LeaseManager * (list LeaseReply * option Code) :=
  match reqs with
  | [] => (s, lm, ([], None))
  | (now, id) :: reqs' =>
      match RenewLease now s lm id with
      | (s', lm', Err e) => (s', lm', ([], Some (toGRPCError e)))
      | (s', lm', Ok l) =>
          let reply := mkLeaseReply (getResponseHeader clusterID memberID s') (l_ID l) (l_TTL l) in
          let '(s2, lm2, (replies, err)) := LeaseKeepAlive s' lm' reqs' in (s2, lm2, (reply :: replies, err))
      end
  end.

Record TimeToLiveReply := mkTimeToLiveReply {
  tl_Header : ResponseHeader; tl_ID : Z; tl_TTL : Z; tl_GrantedTTL : Z; tl_Keys : list string;
}.

(** A nil lease is dereferenced. *)
Definition LeaseTimeToLiveHandler `{!MapOrder} (now : Z) (s : S) (lm : LeaseManager) (id : Z) (keys : bool) :
    option (result Code TimeToLiveReply) :=
  match TimeToLive s lm id with
  | Err e => Some (fail e)
  | Ok None => None
  | Ok (Some l) =>
      Some (Ok (mkTimeToLiveReply (getResponseHeader clusterID memberID s) (l_ID l) (Remaining now (Some l)) (l_TTL l)
                  (if keys then (range_map (l_Keys l)).*1 else [])))
  end.

Definition LeasesHandler (s : S) : result Code (ResponseHeader * list Z) :=
  match ListLeases s with
  | Err e => fail e
  | Ok ls => Ok (getResponseHeader clusterID memberID s, l_ID <$> ls)
  end.

End lease_manager.

(** ** Alarms *)

Inductive AlarmType : Set := AlarmNone | AlarmNoSpace | AlarmCorrupt.

#[global] Instance AlarmType_eq_dec : EqDecision AlarmType.
Proof. solve_decision. Defined.

Record AlarmMember := mkAlarm { al_MemberID : Z; al_Alarm : AlarmType }.

Definition AlarmManager := gmap Z AlarmMember.

Definition NewAlarmManager : AlarmManager := ∅.

Definition Activate (am : AlarmManager) (alarm : AlarmMember) : AlarmManager := <[al_MemberID alarm := alarm]> am.

Definition Deactivate (am : AlarmManager) (memberID : Z) (alarmType : AlarmType) : AlarmManager :=
  match am !! memberID with
  | Some alarm =>
      if bool_decide (al_Alarm alarm = alarmType) || bool_decide (alarmType = AlarmNone) then delete memberID am else am
  | None => am
  end.

Definition GetAlarm (am : AlarmManager) (memberID : Z) : option AlarmMember := am !! memberID.

(** In no particular order. *)
Definition ListAlarms (am : AlarmManager) : list AlarmMember := (map_to_list am).*2.

(** [int64(float64(quotaBytes)*0.9)]; 0.9 is the float64 nearest to it. *)
Definition ninetyPercent (quotaBytes : Z) : Z :=
  int64_of_f64 (SFmul 53 1024 (f64_of_int quotaBytes) (S754_finite false 8106479329266893 (-53))).

Definition CheckStorageQuota (am : AlarmManager) (memberID dbSize quotaBytes : Z) : AlarmManager :=
  if quotaBytes <=? 0 then am
  else if dbSize >=? quotaBytes then Activate am (mkAlarm memberID AlarmNoSpace)
  else if dbSize <? ninetyPercent quotaBytes then Deactivate am memberID AlarmNoSpace
  else am.

Definition HasAlarm (am : AlarmManager) (alarmType : AlarmType) : bool :=
  existsb (fun alarm => bool_decide (alarmType = AlarmNone) || bool_decide (al_Alarm alarm = alarmType)) (ListAlarms am).

Example ninetyPercent_values : ninetyPercent <$> [0; 10; 100; 1000; 2147483648] = [0; 9; 90; 900; 1932735283].
Proof. vm_compute. reflexivity. Qed.

(** ** The lease manager over the in-memory store *)

Section tick.
Context {M : Type} `{!KvMap M, !KvMapLaws M, !MapOrder}.

Implicit Types (m : MemoryEtcd M).

Local Abbreviation data m := (contents (kvData m)).

Definition keysOfLease m (id : Z) : list string :=
  match leases m !! id with Some l => (range_map (l_Keys l)).*1 | None => [] end.

(** The keys attached to the leases of a list. *)
Definition attachedKeys m (ids : list Z) : list string := concat (keysOfLease m <$> ids).

Lemma attachedKeys_delete m m' id ids :
  leases m' = delete id (leases m) -> id ∉ ids -> attachedKeys m' ids = attachedKeys m ids.
Proof.
  intros Hl Hn. unfold attachedKeys. f_equal. apply list_fmap_ext. intros i id' Hi%list_elem_of_lookup_2.
  unfold keysOfLease. rewrite Hl. by rewrite lookup_delete_ne by set_solver.
Qed.

Lemma without_app ks1 ks2 (d : gmap string KeyValue) : without (ks1 ++ ks2) d = without ks2 (without ks1 d).
Proof.
  apply map_eq. intros k. rewrite !without_lookup. destruct (decide (k ∈ ks1)), (decide (k ∈ ks2)), (decide (k ∈ ks1 ++ ks2)); set_solver.
Qed.

(** A revocation, whether the store has the lease or not. *)
Lemma Revoke_spec m lm id l :
  wf_etcd m -> lm_leases lm !! id = Some l -> revision m + Z.of_nat (length (keysOfLease m id)) <= int64_max ->
  exists m' r, Revoke m lm id = (m', setKnown lm (delete id (lm_leases lm)), r) /\ wf_etcd m' /\
    data m' = without (keysOfLease m id) (data m) /\ leases m' = delete id (leases m) /\
    revision m' <= revision m + Z.of_nat (length (keysOfLease m id)).
Proof.
  intros Hwf Hl Hb. unfold Revoke, keysOfLease in *. rewrite Hl. cbn [st_LeaseRevoke memory_store].
  destruct (leases m !! id) as [l'|] eqn:E.
  - rewrite length_fmap, (Permutation_length (range_map_perm _)), length_map_to_list in *.
    destruct (LeaseRevoke_spec m id l' Hwf E Hb) as (m' & -> & Hwf' & Hd & Hls & Hr). exists m', (Ok tt). split_and!; try done.
    rewrite Hr. pose proof (filter_length_le (isKey (data m)) (range_map (l_Keys l')).*1) as Hle.
    unfold existing. rewrite length_fmap, (Permutation_length (range_map_perm _)), length_map_to_list in Hle. lia.
  - unfold LeaseRevoke. rewrite E. eexists m, _. split_and!; try done; [by rewrite without_nil|by rewrite delete_id|simpl; lia].
Qed.

Lemma revokeAll_spec ids : forall m lm,
  wf_etcd m -> NoDup ids -> (forall id, id ∈ ids -> is_Some (lm_leases lm !! id)) ->
  revision m + Z.of_nat (length (attachedKeys m ids)) <= int64_max ->
  let '(m', lm') := revokeAll m lm ids in
  wf_etcd m' /\ data m' = without (attachedKeys m ids) (data m) /\
  (forall id, leases m' !! id = if decide (id ∈ ids) then None else leases m !! id) /\
  (forall id, lm_leases lm' !! id = if decide (id ∈ ids) then None else lm_leases lm !! id).
Proof.
  induction ids as [|id ids IH]; intros m lm Hwf Hnd Hin Hb; cbn [revokeAll].
  { split_and!; [done|by rewrite without_nil|done|done]. }
  apply NoDup_cons in Hnd as [Hnin Hnd]. destruct (Hin id) as [l Hl]; [by left|].
  unfold attachedKeys in Hb. rewrite fmap_cons in Hb. cbn [concat] in Hb. rewrite length_app in Hb.
  destruct (Revoke_spec m lm id l Hwf Hl) as (m1 & r & -> & Hwf1 & Hd1 & Hls1 & Hr1); [lia|].
  pose proof (attachedKeys_delete m m1 id ids Hls1 Hnin) as Hk.
  specialize (IH m1 (setKnown lm (delete id (lm_leases lm))) Hwf1 Hnd).
  destruct (revokeAll m1 _ ids) as [m2 lm2]. destruct IH as (Hwf2 & Hd2 & Hls2 & Hlm2).
  { intros id' Hid'. cbn. rewrite lookup_delete_ne by set_solver. apply Hin. by right. }
  { rewrite Hk. fold (attachedKeys m ids) in Hb. lia. }
  assert (Hgone : forall (x : Z) A (mp : gmap Z A), (if decide (x ∈ ids) then None else delete id mp !! x) =
    if decide (x ∈ id :: ids) then None else mp !! x).
  { intros x A mp. rewrite lookup_delete. destruct (decide (x ∈ ids)), (decide (x ∈ id :: ids)), (decide (id = x)); set_solver. }
  split_and!; [done| | |].
  - rewrite Hd2, Hk, Hd1, <- without_app. done.
  - intros x. rewrite Hls2, Hls1. apply Hgone.
  - intros x. rewrite Hlm2. cbn [lm_leases setKnown]. apply Hgone.
Qed.

End tick.

(** A tick of the lease manager, in whatever order it visits the leases,
    leaves it with the leases that have not expired; the store loses the expired
    ones with every key attached to them, and nothing else. *)
Theorem expired_leases_revoked `{KvMapLaws M, !MapOrder} (m : MemoryEtcd M) (lm : LeaseManager) (now : Z) (ids : list Z) :
  wf_etcd m -> visits now lm ids -> revision m + Z.of_nat (length (attachedKeys m ids)) <= int64_max ->
  let '(m', lm') := checkExpiredLeases now ids m lm in
  lm_leases lm' = filter (fun p => IsExpired now (Some p.2) = false) (lm_leases lm) /\
  (forall k, Get (kvData m') k = if decide (k ∈ attachedKeys m ids) then None else Get (kvData m) k) /\
  (forall id, leases m' !! id = if decide (expired now lm id) then None else leases m !! id).
Proof.
  intros Hwf [Hnd Hids] Hb. pose proof (revokeAll_spec ids m lm Hwf Hnd) as Hs. unfold checkExpiredLeases.
  destruct (revokeAll m lm ids) as [m' lm']. destruct Hs as (Hwf' & Hd & Hls & Hlm); [|done|].
  { intros id (l & Hl & _)%Hids. by exists l. }
  split_and!.
  - apply map_eq. intros id. rewrite Hlm. apply option_eq. intros l. rewrite map_lookup_filter_Some. cbn [snd].
    case_decide as Hin; rewrite Hids in Hin.
    + split; [done|]. intros [Hl Hne]. destruct Hin as (l' & Hl' & He). congruence.
    + split; [|naive_solver]. intros Hl. split; [done|]. apply not_true_iff_false. intros He. apply Hin. by exists l.
  - intros k. rewrite !Get_contents by (apply Hwf || apply Hwf'). by rewrite Hd, without_lookup.
  - intros id. rewrite Hls. apply decide_ext. apply Hids.
Qed.

Definition demoManager : LeaseManager := mkLeaseManager (leases demo) false 0.

Lemma expired_leases_revoked_witness :
  let now := secondsNs 60 in
  let '(m', lm') := checkExpiredLeases now [7] demo demoManager in
  Get (kvData demo) "b" <> None /\ Get (kvData m') "b" = None /\ Get (kvData m') "a" = Get (kvData demo) "a" /\
  leases m' !! 7 = None.
Proof.
  assert (Hv : visits (secondsNs 60) demoManager [7]).
  { split; [apply NoDup_singleton|]. intros id. rewrite list_elem_of_singleton. unfold expired.
    assert (Hl : lm_leases demoManager = {[7 := mkLease 7 60 0 {["b" := true]}]}) by (vm_compute; reflexivity).
    rewrite Hl. split.
    - intros ->. eexists. split; [apply lookup_singleton_eq|]. vm_compute. reflexivity.
    - by intros (l & [<- _]%lookup_singleton_Some & _). }
  assert (Hb : revision demo + Z.of_nat (length (attachedKeys demo [7])) <= int64_max) by (vm_compute; discriminate).
  pose proof (expired_leases_revoked demo demoManager (secondsNs 60) [7] demo_wf Hv Hb) as H. cbn zeta.
  destruct (checkExpiredLeases (secondsNs 60) [7] demo demoManager) as [m' lm']. destruct H as (_ & Hk & Hl).
  split_and!; [vm_compute; discriminate|rewrite Hk; vm_compute; reflexivity|rewrite Hk; vm_compute; reflexivity|].
  rewrite Hl. rewrite decide_True; [done|]. apply (proj2 Hv). by left.
Defined.

(** A manager started again knows no lease: the leases of the store answer
    "not found" and their ticks never come. *)
Theorem restarted_manager_forgets {S : Type} `{!Store S} (s : S) (limits : option Z) (now id : Z) :
  let lm := NewLeaseManager limits in
  Revoke s lm id = (s, lm, Err (KnownError ErrLeaseNotFound)) /\
  RenewLease now s lm id = (s, lm, Err (KnownError ErrLeaseNotFound)) /\
  TimeToLive s lm id = Err (KnownError ErrLeaseNotFound) /\
  forall ids, visits now lm ids -> checkExpiredLeases now ids s lm = (s, lm).
Proof.
  cbn zeta. split_and!; try reflexivity. intros ids [_ Hids].
  assert (ids = []) as ->; [|done]. apply elem_of_nil_inv. by intros id' (l & Hl & _)%Hids.
Qed.

(** Two grants that leave the choice of the ID to the server, with no write
    between them, choose the same one; the second is refused. *)
Theorem lease_ids_collide :
  let '(m1, lm1, r1) := LeaseGrantHandler 1 1 0 demo (NewLeaseManager None) 0 60 in
  let '(_, _, r2) := LeaseGrantHandler 1 1 0 m1 lm1 0 60 in
  (exists reply, r1 = Ok reply /\ lr_ID reply = 3) /\ r2 = Err Internal.
Proof. vm_compute. split; [eexists; split; reflexivity|reflexivity]. Qed.
