(* ===== verification/WatchServer.v ===== *)
(** * The watch service ([api/etcd/watch.go] and [watch_manager.go])

    [WatchManager] keeps the watches of all clients by ID; [Watch] serves one
    stream, and a goroutine per watch sends its events ([sendEvents]).  They run
    concurrently with the store: a step is what a call does between two points
    where another goroutine can come in (an atomic variable, a lock, a call of the
    store, a [Recv] or a [Send]).  [WatchStore] is what the service asks of a
    store, [WatchStoreLaws] what it relies on; the in-memory store is an instance.

    A channel is named by the ID of its watch and the number of channels made for
    that ID; a closed one keeps the events that were buffered.  The environment
    chooses which goroutine runs, what clients send, whether a [Send] succeeds,
    and in which order Go's map iterations go. *)

From S2P Require Import Prelude GoBytes KvTypes ShardedMap MemoryEtcd EtcdFacts EtcdApi.

(** ** Stores as the service sees them *)

(** [WatchChange] is what a store does to its subscriptions of its own accord:
    notifications, replays, and the timers of slow watches. *)
Class WatchStore (S : Type) := {
  WatchErr : Type;
  WatchChange : Type;
  w_subs : S -> gmap Z watchSubscription;
  w_setSubs : S -> gmap Z watchSubscription -> S;
  w_WatchWithOptions : S -> string -> string -> Z -> Z -> option WatchOptions -> S * result WatchErr bool;
  w_Watch : S -> string -> string -> Z -> Z -> S * result WatchErr bool;
  w_CancelWatch : S -> Z -> S * result WatchErr unit;
  w_change : S -> WatchChange -> S;
  w_CurrentRevision : S -> Z;
  w_GetRaftStatus : S -> RaftStatus;
}.

Definition newSub (key rangeEnd : string) (startRevision watchID : Z) (opts : option WatchOptions) : watchSubscription :=
  let o := default (mkWatchOptions false false [] false) opts in
  mkWatch watchID key rangeEnd startRevision [] [] false (wo_PrevKV o) (wo_ProgressNotify o) (wo_Filters o) (wo_Fragment o).

(** An event a watch may get: of a record in its range, with the previous one
    only if that was asked for. *)
Definition event_for (key rangeEnd : string) (prevKV : bool) (ev : WatchEvent) : Prop :=
  (exists kv, we_Kv ev = Some kv /\ matchWatch (Key kv) key rangeEnd = true) /\ (we_PrevKv ev = None \/ prevKV = true).

Definition sub_events (sub : watchSubscription) : list WatchEvent := ws_eventCh sub ++ ws_slow sub.

Definition sub_for (key rangeEnd : string) (prevKV : bool) (sub : watchSubscription) : Prop :=
  ws_key sub = key /\ ws_rangeEnd sub = rangeEnd /\ ws_prevKV sub = prevKV /\
  Forall (event_for key rangeEnd prevKV) (sub_events sub).

(** A subscription keeps what it asked for and gets only such events. *)
Definition evolves (sub sub' : watchSubscription) : Prop :=
  forall key rangeEnd prevKV, sub_for key rangeEnd prevKV sub -> sub_for key rangeEnd prevKV sub'.

Class WatchStoreLaws (S : Type) `{!WatchStore S} := {
  w_ok : S -> Prop;
  w_change_ok : WatchChange -> Prop;
  w_subs_setSubs s ws : w_subs (w_setSubs s ws) = ws;
  w_ok_setEvents s id sub ch : w_ok s -> w_subs s !! id = Some sub ->
    w_ok (w_setSubs s (<[id := setEvents sub ch (ws_slow sub)]> (w_subs s)));
  w_Watch_spec s key rangeEnd startRevision id :
    w_Watch s key rangeEnd startRevision id = w_WatchWithOptions s key rangeEnd startRevision id None;
  w_WatchWithOptions_spec s key rangeEnd startRevision id opts : w_ok s ->
    match w_subs s !! id with
    | Some _ => exists e, w_WatchWithOptions s key rangeEnd startRevision id opts = (s, Err e)
    | None => exists s' replay, w_WatchWithOptions s key rangeEnd startRevision id opts = (s', Ok replay) /\
        w_ok s' /\ w_subs s' = <[id := newSub key rangeEnd startRevision id opts]> (w_subs s)
    end;
  w_CancelWatch_spec s id : w_ok s -> w_ok (w_CancelWatch s id).1 /\ w_subs (w_CancelWatch s id).1 = delete id (w_subs s);
  w_change_spec s c : w_ok s -> w_change_ok c -> w_ok (w_change s c) /\
    forall id sub', w_subs (w_change s c) !! id = Some sub' -> exists sub, w_subs s !! id = Some sub /\ evolves sub sub';
}.

(** ** Messages *)

Inductive pbFilter := NOPUT | NODELETE | OtherFilter (n : Z).

Record WatchCreateRequest := mkWatchCreate {
  wc_Key : string; wc_RangeEnd : string; wc_StartRevision : Z; wc_ProgressNotify : bool; wc_Filters : list pbFilter;
  wc_PrevKv : bool; wc_WatchId : Z; wc_Fragment : bool;
}.

Inductive WatchRequest := CreateRequest (r : WatchCreateRequest) | CancelRequest (watchID : Z) | OtherRequest.

Inductive pbEventType := PUT | DELETE.

Record pbEvent := mkPbEvent { pe_Type : pbEventType; pe_Kv : option KeyValue; pe_PrevKv : option KeyValue }.

Record WatchResponse := mkWatchResponse {
  wr_Header : ResponseHeader; wr_WatchId : Z; wr_Created : bool; wr_Canceled : bool; wr_CancelReason : string;
  wr_Events : list pbEvent;
}.

Fixpoint convertFilters (etcdFilters : list pbFilter) : list WatchFilterType :=
  match etcdFilters with
  | [] => []
  | NOPUT :: fs => FilterNoPut :: convertFilters fs
  | NODELETE :: fs => FilterNoDelete :: convertFilters fs
  | OtherFilter _ :: fs => convertFilters fs
  end.

Definition convertEvent (event : WatchEvent) : pbEvent :=
  mkPbEvent match we_Type event with EventTypePut => PUT | EventTypeDelete => DELETE end (we_Kv event) (we_PrevKv event).

(** ** The manager *)

Definition Chan : Type := Z * nat.

(** The field [cancel] of the code is never set. *)
Record watchStream := mkWatchStream {
  st_watchID : Z; st_key : string; st_rangeEnd : string; st_startRevision : Z; st_eventCh : Chan;
}.

Record WatchManager := mkWatchManager {
  wm_watches : gmap Z watchStream; nextID : Z; stopped : bool; maxWatchCount : Z;
}.

(** [limits] is the [MaxWatchCount] of the configuration, if one is passed. *)
Definition NewWatchManager (limits : option Z) : WatchManager := mkWatchManager ∅ 0 false (default 0 limits).

Definition setWatchStreams (wm : WatchManager) (ws : gmap Z watchStream) : WatchManager :=
  mkWatchManager ws (nextID wm) (stopped wm) (maxWatchCount wm).

(** [wm.nextID.Add(1)] *)
Definition addNextID (wm : WatchManager) : WatchManager * Z :=
  let id := wrap_i64 (nextID wm + 1) in (mkWatchManager (wm_watches wm) id (stopped wm) (maxWatchCount wm), id).

Definition GetEventChan (wm : WatchManager) (watchID : Z) : option Chan := st_eventCh <$> wm_watches wm !! watchID.

(** ** Goroutines *)

Record CreateCall := mkCreateCall { ca_key : string; ca_rangeEnd : string; ca_startRevision : Z; ca_opts : option WatchOptions }.

(** Where a [CreateWithID] and a [Cancel] are. *)
Inductive CreatePc := Loading | Counting | Checking | Subscribing | Registering (c : Chan).
Inductive CancelPc := Deleting | Unsubscribing.

Inductive HandlerPc :=
  | Receiving
  | Numbering (req : WatchCreateRequest)
  | Creating (watchID : Z) (req : WatchCreateRequest) (pc : CreatePc)
  | Refusing
  | Confirming (watchID : Z)
  | Canceling (watchID : Z) (pc : CancelPc)
  | Answering (watchID : Z)
  | Cleaning (rest : gset Z)
  | CleaningOne (watchID : Z) (pc : CancelPc) (rest : gset Z)
  | Returned.

Record Handler := mkHandler { h_pc : HandlerPc; streamWatches : gset Z }.

Inductive SenderPc := Getting | Ranging (c : Chan) | SendFailed (pc : CancelPc) | SenderDone.
Record Sender := mkSender { sd_stream : nat; sd_watchID : Z; sd_pc : SenderPc }.

(** A [Send] on a stream, and whether it succeeded. *)
Record Sent := mkSent { sn_stream : nat; sn_resp : WatchResponse; sn_ok : bool }.

Definition createCall (req : WatchCreateRequest) : CreateCall :=
  mkCreateCall (wc_Key req) (wc_RangeEnd req) (wc_StartRevision req)
    (Some (mkWatchOptions (wc_PrevKv req) (wc_ProgressNotify req) (convertFilters (wc_Filters req)) (wc_Fragment req))).

Section server.
Context {S : Type} `{!WatchStore S}.
Variables (clusterID memberID : Z).

Record Server := mkServer {
  store : S;
  generation : gmap Z nat;
  closedCh : gmap Chan (list WatchEvent);
  watchMgr : WatchManager;
  handlers : gmap nat Handler;
  senders : list Sender;
  log : list Sent;
}.

Definition NewServer (s : S) (limits : option Z) : Server := mkServer s ∅ ∅ (NewWatchManager limits) ∅ [] [].

Definition channelOf (st : Server) (watchID : Z) : Chan := (watchID, default O (generation st !! watchID)).

(** The store with the channels of the subscriptions that are gone closed. *)
Definition setStore (st : Server) (s : S) : Server :=
  mkServer s (generation st)
    (kmap (channelOf st) (ws_eventCh <$> w_subs (store st) ∖ w_subs s) ∪ closedCh st)
    (watchMgr st) (handlers st) (senders st) (log st).

Definition makeChan (st : Server) (watchID : Z) : Server :=
  mkServer (store st) (<[watchID := Datatypes.S (channelOf st watchID).2]> (generation st)) (closedCh st)
    (watchMgr st) (handlers st) (senders st) (log st).
Definition setMgr (st : Server) (wm : WatchManager) : Server :=
  mkServer (store st) (generation st) (closedCh st) wm (handlers st) (senders st) (log st).
Definition setHandler (st : Server) (s : nat) (h : Handler) : Server :=
  mkServer (store st) (generation st) (closedCh st) (watchMgr st) (<[s := h]> (handlers st)) (senders st) (log st).
Definition setSenders (st : Server) (sds : list Sender) : Server :=
  mkServer (store st) (generation st) (closedCh st) (watchMgr st) (handlers st) sds (log st).
Definition send (st : Server) (s : nat) (resp : WatchResponse) (ok : bool) : Server :=
  mkServer (store st) (generation st) (closedCh st) (watchMgr st) (handlers st) (senders st) (log st ++ [mkSent s resp ok]).

(** ** The manager's calls *)

Definition CreateWithID_step (st : Server) (watchID : Z) (a : CreateCall) (pc : CreatePc) : Server * (CreatePc + Z) :=
  let wm := watchMgr st in
  match pc with
  | Loading => (st, if stopped wm then inr (-1) else inl Counting)
  | Counting =>
      (st, if (maxWatchCount wm >? 0) && (Z.of_nat (size (wm_watches wm)) >=? maxWatchCount wm) then inr (-1) else inl Checking)
  | Checking => (st, match wm_watches wm !! watchID with Some _ => inr (-1) | None => inl Subscribing end)
  | Subscribing =>
      match
        match ca_opts a with
        | Some o => w_WatchWithOptions (store st) (ca_key a) (ca_rangeEnd a) (ca_startRevision a) watchID (Some o)
        | None => w_Watch (store st) (ca_key a) (ca_rangeEnd a) (ca_startRevision a) watchID
        end
      with
      | (s', Err _) => (setStore st s', inr (-1))
      | (s', Ok _) => let st' := makeChan (setStore st s') watchID in (st', inl (Registering (channelOf st' watchID)))
      end
  | Registering c =>
      let ws := mkWatchStream watchID (ca_key a) (ca_rangeEnd a) (ca_startRevision a) c in
      (setMgr st (setWatchStreams wm (<[watchID := ws]> (wm_watches wm))), inr watchID)
  end.

Inductive CancelErr := ErrWatchCanceled | StoreFailed (e : WatchErr).

Definition Cancel_step (st : Server) (watchID : Z) (pc : CancelPc) : Server * (CancelPc + result CancelErr unit) :=
  match pc with
  | Deleting =>
      match wm_watches (watchMgr st) !! watchID with
      | None => (st, inr (Err ErrWatchCanceled))
      | Some _ => (setMgr st (setWatchStreams (watchMgr st) (delete watchID (wm_watches (watchMgr st)))), inl Unsubscribing)
      end
  | Unsubscribing =>
      let '(s', r) := w_CancelWatch (store st) watchID in
      (setStore st s', inr match r with Ok _ => Ok tt | Err e => Err (StoreFailed e) end)
  end.

(** The lock is held while the watches are cancelled; the order does not matter. *)
Definition Stop (st : Server) : Server :=
  let wm := watchMgr st in
  if stopped wm then st
  else
    setMgr (setStore st (fold_left (fun s id => (w_CancelWatch s id).1) (elements (dom (wm_watches wm))) (store st)))
      (mkWatchManager ∅ (nextID wm) true (maxWatchCount wm)).

(** ** The handler of a stream *)

Definition getResponseHeader (st : Server) : ResponseHeader :=
  mkHeader clusterID memberID (w_CurrentRevision (store st)) (rs_Term (w_GetRaftStatus (store st))).

Definition createdResponse (st : Server) (watchID : Z) : WatchResponse :=
  mkWatchResponse (getResponseHeader st) watchID true false "" [].
Definition refusedResponse (st : Server) : WatchResponse :=
  mkWatchResponse (getResponseHeader st) (-1) false true "failed to create watch" [].
Definition canceledResponse (st : Server) (watchID : Z) : WatchResponse :=
  mkWatchResponse (getResponseHeader st) watchID false true "" [].

(** The revision of the header is the one of the event. *)
Definition eventResponse (st : Server) (watchID : Z) (event : WatchEvent) : WatchResponse :=
  let h := getResponseHeader st in
  mkWatchResponse (mkHeader (h_ClusterId h) (h_MemberId h) (we_Revision event) (h_RaftTerm h)) watchID false false ""
    [convertEvent event].

(** A request, or the error of [Recv], which ends the loop. *)
Definition Watch_recv (h : Handler) (req : option WatchRequest) : Handler :=
  mkHandler
    match req with
    | None => Cleaning (streamWatches h)
    | Some (CreateRequest r) => if wc_WatchId r =? 0 then Numbering r else Creating (wc_WatchId r) r Loading
    | Some (CancelRequest watchID) => Canceling watchID Deleting
    | Some OtherRequest => Receiving
    end (streamWatches h).

(** The next step of the handler of stream [s]; [ok] is the outcome of a [Send]. *)
Definition Watch_step (st : Server) (s : nat) (h : Handler) (ok : bool) : Server * Handler :=
  let sw := streamWatches h in
  match h_pc h with
  | Receiving | Returned => (st, h)
  | Numbering req =>
      let '(wm, watchID) := addNextID (watchMgr st) in (setMgr st wm, mkHandler (Creating watchID req Loading) sw)
  | Creating id req pc =>
      match CreateWithID_step st id (createCall req) pc with
      | (st', inl pc') => (st', mkHandler (Creating id req pc') sw)
      | (st', inr watchID) => (st', mkHandler (if watchID <? 0 then Refusing else Confirming watchID) sw)
      end
  | Refusing => (send st s (refusedResponse st) ok, mkHandler (if ok then Receiving else Cleaning sw) sw)
  | Confirming watchID =>
      let st' := send st s (createdResponse st watchID) ok in
      if ok
      then (setSenders st' (senders st' ++ [mkSender s watchID Getting]),
            mkHandler Receiving (if watchID >? 0 then {[watchID]} ∪ sw else sw))
      else (st', mkHandler (Cleaning sw) sw)
  | Canceling watchID pc =>
      match Cancel_step st watchID pc with
      | (st', inl pc') => (st', mkHandler (Canceling watchID pc') sw)
      | (st', inr _) => (st', mkHandler (Answering watchID) sw)
      end
  | Answering watchID =>
      (send st s (canceledResponse st watchID) ok,
       if ok then mkHandler Receiving (sw ∖ {[watchID]}) else mkHandler (Cleaning sw) sw)
  | Cleaning rest => (st, mkHandler (if decide (rest = ∅) then Returned else Cleaning rest) sw)
  | CleaningOne watchID pc rest =>
      match Cancel_step st watchID pc with
      | (st', inl pc') => (st', mkHandler (CleaningOne watchID pc' rest) sw)
      | (st', inr _) => (st', mkHandler (Cleaning rest) sw)
      end
  end.

(** The deferred cleanup goes to one of the watches left. *)
Definition Watch_cleanup (h : Handler) (watchID : Z) : Handler :=
  match h_pc h with
  | Cleaning rest =>
      if decide (watchID ∈ rest) then mkHandler (CleaningOne watchID Deleting (rest ∖ {[watchID]})) (streamWatches h) else h
  | _ => h
  end.

(** ** The goroutine of a watch *)

Inductive Received := Got (event : WatchEvent) | Blocked | Closed.

(** A receive from a channel. *)
Definition receiveFrom (st : Server) (c : Chan) : Server * Received :=
  match closedCh st !! c with
  | Some (ev :: evs) =>
      (mkServer (store st) (generation st) (<[c := evs]> (closedCh st)) (watchMgr st) (handlers st) (senders st) (log st),
       Got ev)
  | Some [] => (st, Closed)
  | None =>
      match w_subs (store st) !! c.1 with
      | Some sub =>
          if decide (channelOf st c.1 = c) then
            match ws_eventCh sub with
            | ev :: evs =>
                (setStore st (w_setSubs (store st) (<[c.1 := setEvents sub evs (ws_slow sub)]> (w_subs (store st)))), Got ev)
            | [] => (st, Blocked)
            end
          else (st, Blocked)
      | None => (st, Blocked)
      end
  end.

Definition sendEvents_step (st : Server) (sd : Sender) (ok : bool) : Server * SenderPc :=
  match sd_pc sd with
  | Getting => (st, match GetEventChan (watchMgr st) (sd_watchID sd) with Some c => Ranging c | None => SenderDone end)
  | Ranging c =>
      match receiveFrom st c with
      | (st', Got event) =>
          (send st' (sd_stream sd) (eventResponse st' (sd_watchID sd) event) ok, if ok then Ranging c else SendFailed Deleting)
      | (st', Blocked) => (st', Ranging c)
      | (st', Closed) => (st', SenderDone)
      end
  | SendFailed pc =>
      match Cancel_step st (sd_watchID sd) pc with
      | (st', inl pc') => (st', SendFailed pc')
      | (st', inr _) => (st', SenderDone)
      end
  | SenderDone => (st, SenderDone)
  end.

(** ** Runs *)

Inductive Event :=
  | EOpen (s : nat)
  | ERecv (s : nat) (req : option WatchRequest)
  | ERun (s : nat) (ok : bool)
  | ECleanup (s : nat) (watchID : Z)
  | ESender (i : nat) (ok : bool)
  | EStop
  | EStore (c : WatchChange).

(** An event that is not enabled changes nothing. *)
Definition step (st : Server) (e : Event) : Server :=
  match e with
  | EOpen s => match handlers st !! s with None => setHandler st s (mkHandler Receiving ∅) | Some _ => st end
  | ERecv s req =>
      match handlers st !! s with
      | Some (mkHandler Receiving sw) => setHandler st s (Watch_recv (mkHandler Receiving sw) req)
      | _ => st
      end
  | ERun s ok =>
      match handlers st !! s with
      | Some h => let '(st', h') := Watch_step st s h ok in setHandler st' s h'
      | None => st
      end
  | ECleanup s watchID =>
      match handlers st !! s with Some h => setHandler st s (Watch_cleanup h watchID) | None => st end
  | ESender i ok =>
      match senders st !! i with
      | Some sd =>
          let '(st', pc) := sendEvents_step st sd ok in
          setSenders st' (<[i := mkSender (sd_stream sd) (sd_watchID sd) pc]> (senders st'))
      | None => st
      end
  | EStop => Stop st
  | EStore c => setStore st (w_change (store st) c)
  end.

Definition run (st : Server) (events : list Event) : Server := fold_left step events st.

End server.

Arguments Server : clear implicits.
Arguments Event : clear implicits.
Arguments Event S {_}.

(** ** Accounting

    A subscription of the store is registered with the manager, or a call that
    is going to register or cancel it is under way; a registered watch is held by
    a stream that will cancel it, unless its ID is not positive or the response
    that tells the client of it could not be sent. *)

Definition cancelling (pc : CancelPc) : Prop := pc = Unsubscribing.

Definition inflight (pc : HandlerPc) (id : Z) : Prop :=
  match pc with
  | Creating id' _ (Registering _) => id' = id
  | Canceling id' Unsubscribing | CleaningOne id' Unsubscribing _ => id' = id
  | _ => False
  end.

Definition inflightSender (sd : Sender) (id : Z) : Prop := sd_watchID sd = id /\ sd_pc sd = SendFailed Unsubscribing.

Definition holds (h : Handler) (id : Z) : Prop :=
  match h_pc h with
  | Confirming id' => id' = id \/ id ∈ streamWatches h
  | Canceling id' Unsubscribing | Answering id' => id' <> id /\ id ∈ streamWatches h
  | Cleaning rest | CleaningOne _ Unsubscribing rest => id ∈ rest
  | CleaningOne id' Deleting rest => id' = id \/ id ∈ rest
  | Returned => False
  | _ => id ∈ streamWatches h
  end.

Section accounting.
Context {S : Type} `{!WatchStore S, !WatchStoreLaws S}.
Variables (clusterID memberID : Z).

Abbreviation step := (step clusterID memberID).
Abbreviation run := (run clusterID memberID).

Definition accounted (st : Server S) (id : Z) : Prop :=
  is_Some (wm_watches (watchMgr st) !! id) \/
  (exists s h, handlers st !! s = Some h /\ inflight (h_pc h) id) \/
  (exists i sd, senders st !! i = Some sd /\ inflightSender sd id).

(** The client was not told of the watch, or its ID is not positive. *)
Definition lost (st : Server S) (id : Z) : Prop :=
  id <= 0 \/ exists x, x ∈ log st /\ wr_Created (sn_resp x) = true /\ wr_WatchId (sn_resp x) = id /\ sn_ok x = false.

Definition held_ (st : Server S) (id : Z) : Prop := exists s h, handlers st !! s = Some h /\ holds h id.

Record inv (st : Server S) : Prop := {
  inv_store : w_ok (store st);
  inv_subs id : is_Some (w_subs (store st) !! id) -> accounted st id;
  inv_watches id : is_Some (wm_watches (watchMgr st) !! id) -> held_ st id \/ lost st id;
}.

Definition change_ok (e : Event S) : Prop := match e with EStore c => w_change_ok c | _ => True end.

(** A step of one handler, of one sender goroutine, and of the rest. *)
Lemma inv_handler st st' s h h' :
  inv st -> handlers st !! s = Some h -> handlers st' = <[s := h']> (handlers st) -> w_ok (store st') ->
  senders st `prefix_of` senders st' -> log st `prefix_of` log st' ->
  (forall id, is_Some (w_subs (store st') !! id) -> is_Some (wm_watches (watchMgr st') !! id) \/ inflight (h_pc h') id \/
    is_Some (w_subs (store st) !! id) /\
    (is_Some (wm_watches (watchMgr st) !! id) \/ inflight (h_pc h) id ->
      is_Some (wm_watches (watchMgr st') !! id) \/ inflight (h_pc h') id)) ->
  (forall id, is_Some (wm_watches (watchMgr st') !! id) -> holds h' id \/ lost st' id \/
    is_Some (wm_watches (watchMgr st) !! id) /\ (holds h id -> holds h' id \/ lost st' id)) ->
  inv st'.
Proof.
  intros [Hok Hsub Hw] Hh Hh' Hok' Hsd Hlog H1 H2. split; [done|..]; intros id Hid.
  - destruct (H1 id Hid) as [?|[?|[Hs Hn]]]; [by left|right; left; exists s, h'; by rewrite Hh', lookup_insert_eq|].
    assert (Hmine : is_Some (wm_watches (watchMgr st') !! id) \/ inflight (h_pc h') id -> accounted st' id).
    { intros [?|?]; [by left|right; left; exists s, h'; by rewrite Hh', lookup_insert_eq]. }
    destruct (Hsub id Hs) as [?|[(s0 & h0 & Hl & Hi)|(i & sd & Hl & Hi)]]; [auto|..].
    + destruct (decide (s0 = s)) as [->|]; [rewrite Hh in Hl; injection Hl as <-; auto|].
      right; left. exists s0, h0. by rewrite Hh', lookup_insert_ne.
    + right; right. exists i, sd. split; [|done]. by eapply prefix_lookup_Some.
  - destruct (H2 id Hid) as [?|[?|(Hs & Hn)]]; [left; exists s, h'; by rewrite Hh', lookup_insert_eq|by right|].
    destruct (Hw id Hs) as [(s0 & h0 & Hl & Hi)|[Hneg|(x & Hx & Hr)]].
    + destruct (decide (s0 = s)) as [->|]; [rewrite Hh in Hl; injection Hl as <-|left; exists s0, h0; by rewrite Hh', lookup_insert_ne].
      destruct (Hn Hi); [|by right]. left; exists s, h'. by rewrite Hh', lookup_insert_eq.
    + by right; left.
    + right; right. exists x. split; [|done]. destruct Hlog as [more ->]. apply elem_of_app; by left.
Qed.

Lemma inv_sender st st' i sd sd' :
  inv st -> senders st !! i = Some sd -> senders st' = <[i := sd']> (senders st) -> handlers st' = handlers st ->
  w_ok (store st') -> log st `prefix_of` log st' ->
  (forall id, is_Some (w_subs (store st') !! id) -> is_Some (w_subs (store st) !! id) /\
    (is_Some (wm_watches (watchMgr st) !! id) -> is_Some (wm_watches (watchMgr st') !! id) \/ inflightSender sd' id) /\
    (inflightSender sd id -> inflightSender sd' id)) ->
  (forall id, is_Some (wm_watches (watchMgr st') !! id) -> is_Some (wm_watches (watchMgr st) !! id)) ->
  inv st'.
Proof.
  intros [Hok Hsub Hw] Hi Hi' Hh' Hok' Hlog H1 H2.
  assert (Hmine : senders st' !! i = Some sd').
  { rewrite Hi', list_lookup_insert_eq; [done|]. by eapply lookup_lt_Some. }
  split; [done|..]; intros id Hid.
  - destruct (H1 id Hid) as (Hs & Hn & Hf).
    destruct (Hsub id Hs) as [Hm|[(s0 & h0 & Hl & Hin)|(j & sd0 & Hl & Hin)]].
    + destruct (Hn Hm); [by left|]. right; right. by exists i, sd'.
    + right; left. exists s0, h0. by rewrite Hh'.
    + right; right. destruct (decide (j = i)) as [->|Hne]; [exists i, sd'; naive_solver|].
      exists j, sd0. by rewrite Hi', list_lookup_insert_ne by done.
  - destruct (Hw id (H2 id Hid)) as [(s0 & h0 & Hl & Hin)|[Hneg|(x & Hx & Hr)]].
    + left. exists s0, h0. by rewrite Hh'.
    + by right; left.
    + right; right. exists x. split; [|done]. destruct Hlog as [more ->]. apply elem_of_app; by left.
Qed.

Lemma inv_frame st st' :
  inv st -> senders st' = senders st -> handlers st' = handlers st -> w_ok (store st') -> log st' = log st ->
  (forall id, is_Some (w_subs (store st') !! id) -> is_Some (w_subs (store st) !! id) /\
    (is_Some (wm_watches (watchMgr st) !! id) -> is_Some (wm_watches (watchMgr st') !! id))) ->
  (forall id, is_Some (wm_watches (watchMgr st') !! id) -> is_Some (wm_watches (watchMgr st) !! id)) ->
  inv st'.
Proof.
  intros [Hok Hsub Hw] Hi' Hh' Hok' Hlog H1 H2. split; [done|..]; intros id Hid.
  - destruct (H1 id Hid) as [Hs Hn]. unfold accounted. rewrite Hh', Hi'.
    destruct (Hsub id Hs) as [?|[?|?]]; auto.
  - unfold held_, lost. rewrite Hh', Hlog. by apply Hw, H2.
Qed.


(** A call of the store that ends in [s']. *)
Lemma Subscribing_store s a watchID s' r :
  w_ok s ->
  match ca_opts a with
  | Some o => w_WatchWithOptions s (ca_key a) (ca_rangeEnd a) (ca_startRevision a) watchID (Some o)
  | None => w_Watch s (ca_key a) (ca_rangeEnd a) (ca_startRevision a) watchID
  end = (s', r) ->
  match r with
  | Err _ => s' = s
  | Ok _ => w_ok s' /\ w_subs s !! watchID = None /\
      w_subs s' = <[watchID := newSub (ca_key a) (ca_rangeEnd a) (ca_startRevision a) watchID (ca_opts a)]> (w_subs s)
  end.
Proof.
  intros Hok. replace (match ca_opts a with Some _ => _ | None => _ end)
    with (w_WatchWithOptions s (ca_key a) (ca_rangeEnd a) (ca_startRevision a) watchID (ca_opts a))
    by (destruct (ca_opts a); [done|by rewrite w_Watch_spec]).
  pose proof (w_WatchWithOptions_spec s (ca_key a) (ca_rangeEnd a) (ca_startRevision a) watchID (ca_opts a) Hok) as Hw.
  destruct (w_subs s !! watchID).
  - destruct Hw as [e ->]. by intros [= <- <-].
  - destruct Hw as (s1 & replay & -> & ? & ?). by intros [= <- <-].
Qed.

(** Calls of the manager, and what they leave. *)
Lemma CreateWithID_step_spec st watchID a pc st' r :
  w_ok (store st) -> CreateWithID_step st watchID a pc = (st', r) ->
  handlers st' = handlers st /\ senders st' = senders st /\ log st' = log st /\ w_ok (store st') /\
  (forall id, is_Some (w_subs (store st') !! id) ->
    is_Some (w_subs (store st) !! id) \/ id = watchID /\ exists c, r = inl (Registering c)) /\
  (forall id, is_Some (wm_watches (watchMgr st') !! id) <->
    is_Some (wm_watches (watchMgr st) !! id) \/ id = watchID /\ r = inr watchID /\ exists c, pc = Registering c) /\
  (forall c, pc = Registering c -> r = inr watchID).
Proof.
  intros Hok. destruct pc as [| | | |c]; cbn [CreateWithID_step].
  1-3: intros [= <- <-]; repeat split; try done; naive_solver.
  - destruct (match ca_opts a with Some _ => _ | None => _ end) as [s1 res] eqn:E; destruct res as [b|e];
      apply (Subscribing_store _ _ _ _ _ Hok) in E; intros [= <- <-]; cbn [setStore makeChan].
    + destruct E as (Hok' & _ & Hsub). cbn. repeat split; try done; [|naive_solver..].
      intros id. rewrite Hsub, lookup_insert_is_Some'. intros [->|]; [right|by left]. eauto.
    + cbn in E. subst s1. repeat split; try done; naive_solver.
  - intros [= <- <-]. cbn. repeat split; try done; try naive_solver.
    + intros [->|?]%lookup_insert_is_Some'; [right|by left]. eauto.
    + intros [?|(-> & _)]; apply lookup_insert_is_Some'; auto.
Qed.

Lemma Cancel_step_spec st watchID pc st' r :
  w_ok (store st) -> Cancel_step st watchID pc = (st', r) ->
  handlers st' = handlers st /\ senders st' = senders st /\ log st' = log st /\ w_ok (store st') /\
  match pc with
  | Deleting =>
      store st' = store st /\ (r = inl Unsubscribing \/ ~ is_Some (wm_watches (watchMgr st) !! watchID) /\ exists e, r = inr e) /\
      forall id, is_Some (wm_watches (watchMgr st') !! id) <-> id <> watchID /\ is_Some (wm_watches (watchMgr st) !! id)
  | Unsubscribing =>
      watchMgr st' = watchMgr st /\ (exists e, r = inr e) /\ w_subs (store st') = delete watchID (w_subs (store st))
  end.
Proof.
  intros Hok. destruct pc; cbn [Cancel_step].
  - destruct (wm_watches (watchMgr st) !! watchID) eqn:E; intros [= <- <-]; cbn.
    + split_and!; auto. intros id. rewrite lookup_delete_is_Some. naive_solver.
    + split_and!; auto; [right; split; [by intros [? [=]]|eauto]|].
      intros id. split; [|by intros []]. intros Hi. split; [|done]. intros ->. rewrite E in Hi. by destruct Hi.
  - pose proof (w_CancelWatch_spec (store st) watchID Hok) as [H1 H2].
    destruct (w_CancelWatch (store st) watchID) as [s1 r1]. intros [= <- <-]. cbn in *. eauto 10.
Qed.



Ltac by_local := first [done | by apply prefix_app_r].

Lemma lost_created st st' s id :
  log st' = log st ++ [mkSent s (createdResponse clusterID memberID st id) false] -> lost st' id.
Proof. intros Hl. right. exists (mkSent s (createdResponse clusterID memberID st id) false). rewrite Hl. set_solver. Qed.

(** A step of a handler that leaves the store and the manager alone. *)
Lemma inv_local st st' s h h' :
  inv st -> handlers st !! s = Some h -> handlers st' = <[s := h']> (handlers st) -> store st' = store st ->
  wm_watches (watchMgr st') = wm_watches (watchMgr st) -> senders st `prefix_of` senders st' -> log st `prefix_of` log st' ->
  (forall id, inflight (h_pc h) id -> inflight (h_pc h') id) -> (forall id, holds h id -> holds h' id \/ lost st' id) -> inv st'.
Proof.
  intros HI Hh Hh' Hs Hm Hsd Hlog H1 H2. eapply inv_handler; try done.
  - rewrite Hs. apply HI.
  - intros id Hid. rewrite Hs in Hid. rewrite Hm. naive_solver.
  - intros id Hid. rewrite Hm in Hid. naive_solver.
Qed.

Lemma inv_creating st s id req pc sw st' h' :
  inv st -> handlers st !! s = Some (mkHandler (Creating id req pc) sw) ->
  match CreateWithID_step st id (createCall req) pc with
  | (st', inl pc') => (st', mkHandler (Creating id req pc') sw)
  | (st', inr watchID) => (st', mkHandler (if watchID <? 0 then Refusing else Confirming watchID) sw)
  end = (st', h') -> inv (setHandler st' s h').
Proof.
  intros HI Hh Hm. pose proof (inv_store _ HI) as Hok.
  destruct (CreateWithID_step _ _ _ _) as [st1 r] eqn:E.
  destruct (CreateWithID_step_spec _ _ _ _ _ _ Hok E) as (Eh & Es & El & Ho & E1 & E2 & E3).
  assert (st' = st1) as -> by (destruct r; by injection Hm).
  assert (Hholds : forall id', id' ∈ sw -> holds h' id').
  { intros id' ?. destruct r as [|w]; injection Hm as <-; [done|]. destruct (w <? 0); [done|by right]. }
  eapply inv_handler; try done; cbn; rewrite ?Eh, ?Es, ?El; try done; intros id' Hid.
  - destruct (E1 id' Hid) as [?|(-> & c & ->)]; [|injection Hm as <-; by right; left].
    right; right. split; [done|]. destruct pc; intros [Hw|Hf]; try done; left; apply E2; [auto..|].
    cbn in Hf. subst id'. right. rewrite (E3 _ eq_refl). eauto.
  - apply E2 in Hid as [?|(-> & -> & _)]; [right; right; auto|].
    injection Hm as <-. destruct (Z.ltb_spec id 0); [right; left; left; lia|left; by left].
Qed.

(** A step of [Cancel] in a handler. *)
Lemma inv_cancel st s h id pc st1 r h' :
  inv st -> handlers st !! s = Some h -> Cancel_step st id pc = (st1, r) ->
  (forall id', inflight (h_pc h) id' -> pc = Unsubscribing /\ id' = id) ->
  (r = inl Unsubscribing -> inflight (h_pc h') id) ->
  (forall id', holds h id' -> holds h' id' \/ pc = Deleting /\ id' = id) -> inv (setHandler st1 s h').
Proof.
  intros HI Hh E H1 H2 H3. pose proof (inv_store _ HI) as Hok.
  destruct (Cancel_step_spec _ _ _ _ _ Hok E) as (Eh & Es & El & Ho & Hpc).
  eapply inv_handler; try done; cbn; rewrite ?Eh, ?Es, ?El; try done; intros id' Hid.
  - destruct pc; destruct Hpc as (Hs & Hr & Hw).
    + rewrite Hs in Hid. right; right. split; [done|]. intros [Hm|Hf]; [|by destruct (H1 _ Hf)].
      destruct (decide (id' = id)) as [->|]; [|left; by apply Hw]. destruct Hr as [->|[Hn _]]; [auto|done].
    + rewrite Hw in Hid. apply lookup_delete_is_Some in Hid as [Hne Hid]. rewrite Hs. right; right. split; [done|].
      intros [Hm|Hf]; [by left|]. by destruct (H1 _ Hf) as [_ ->].
  - right; right. destruct pc; destruct Hpc as (Hs & Hr & Hw).
    + apply Hw in Hid as [Hne Hid]. split; [done|]. intros Hld. destruct (H3 _ Hld) as [?|[_ ->]]; [by left|done].
    + rewrite Hs in Hid. split; [done|]. intros Hld. destruct (H3 _ Hld) as [?|[[=] _]]. by left.
Qed.

Lemma inv_Watch_step st s h ok st' h' :
  inv st -> handlers st !! s = Some h -> Watch_step clusterID memberID st s h ok = (st', h') -> inv (setHandler st' s h').
Proof.
  intros HI Hh. pose proof (inv_store _ HI) as Hok. destruct h as [pc sw]. unfold Watch_step; cbn [h_pc streamWatches].
  destruct pc as [|req|id req cpc| |id|id xpc|id|rest|id xpc rest|].
  - intros [= <- <-]. eapply inv_local; try by_local; cbn; naive_solver.
  - intros [= <- <-]. eapply inv_local; try by_local; cbn; naive_solver.
  - by apply inv_creating.
  - intros [= <- <-]. eapply inv_local; try by_local; cbn; destruct ok; cbn; naive_solver.
  - destruct ok; intros [= <- <-].
    + eapply inv_local; try by_local; cbn. intros id' [->|?]; [|left; destruct (Z.gtb_spec id 0); set_solver].
      destruct (Z.gtb_spec id' 0); [left; set_solver|]. right. by left.
    + eapply inv_local; try by_local; cbn.
      intros id' [->|?]; [right; by eapply lost_created|by left].
  - destruct (Cancel_step st id xpc) as [st1 r] eqn:E. intros Hm.
    destruct r as [xpc'|]; injection Hm as <- <-; (eapply inv_cancel; [done..|cbn; intros id'|cbn|cbn; intros id'; destruct (decide (id = id'))]);
      destruct xpc; try destruct xpc'; naive_solver.
  - intros [= <- <-]. eapply inv_local; try by_local; cbn; destruct ok; cbn; set_solver.
  - intros [= <- <-]. eapply inv_local; try by_local; cbn; case_decide; cbn; set_solver.
  - destruct (Cancel_step st id xpc) as [st1 r] eqn:E. intros Hm.
    destruct r as [xpc'|]; injection Hm as <- <-; (eapply inv_cancel; [done..|cbn; intros id'|cbn|cbn; intros id'; destruct (decide (id = id'))]);
      destruct xpc; try destruct xpc'; naive_solver.
  - intros [= <- <-]. eapply inv_local; try by_local; cbn; naive_solver.
Qed.

(** Closing, replaying and notifying. *)
Lemma inv_setStore st s' :
  inv st -> w_ok s' -> (forall id, is_Some (w_subs s' !! id) -> is_Some (w_subs (store st) !! id)) -> inv (setStore st s').
Proof. intros HI Hok Hs. eapply inv_frame; try done. cbn. naive_solver. Qed.

Lemma inv_handler_local st s h h' :
  inv st -> handlers st !! s = Some h -> (forall id, inflight (h_pc h) id -> inflight (h_pc h') id) ->
  (forall id, holds h id -> holds h' id) -> inv (setHandler st s h').
Proof. intros. eapply inv_local; try done. naive_solver. Qed.

Lemma inv_receiveFrom st c st' r : inv st -> receiveFrom st c = (st', r) ->
  inv st' /\ handlers st' = handlers st /\ senders st' = senders st /\ log st' = log st.
Proof.
  intros HI. unfold receiveFrom. destruct (closedCh st !! c) as [[|ev evs]|]; [by intros [= <- <-]|..].
  - intros [= <- <-]. split; [|done]. eapply (inv_frame st); try done. apply HI.
  - destruct (w_subs (store st) !! c.1) as [sub|] eqn:E; [|by intros [= <- <-]].
    case_decide; [|by intros [= <- <-]]. destruct (ws_eventCh sub) as [|ev evs] eqn:Ech; intros [= <- <-]; [done|].
    split; [|done]. apply inv_setStore; [done|apply w_ok_setEvents; [apply HI|done]|].
    intros id. rewrite w_subs_setSubs, lookup_insert_is_Some'. intros [<-|?]; [by rewrite E|done].
Qed.

Lemma inv_sendEvents_step st i sd ok st' pc :
  inv st -> senders st !! i = Some sd -> sendEvents_step clusterID memberID st sd ok = (st', pc) ->
  inv (setSenders st' (<[i := mkSender (sd_stream sd) (sd_watchID sd) pc]> (senders st'))).
Proof.
  intros HI Hi. destruct sd as [s id spc]. unfold sendEvents_step. cbn [sd_pc sd_stream sd_watchID] in *.
  assert (Hquiet : forall st1 pc1, inv st1 -> senders st1 !! i = Some (mkSender s id spc) -> spc <> SendFailed Unsubscribing ->
    inv (setSenders st1 (<[i := mkSender s id pc1]> (senders st1)))).
  { intros st1 pc1 HI1 Hi1 Hne. eapply inv_sender; try done; [apply HI1|]. cbn. unfold inflightSender. naive_solver. }
  destruct spc as [|c|xpc|].
  - intros [= <- <-]. by apply Hquiet.
  - destruct (receiveFrom st c) as [st1 r] eqn:E.
    destruct (inv_receiveFrom _ _ _ _ HI E) as (HI1 & Eh & Es & El). rewrite <- Es in Hi.
    destruct r; intros [= <- <-]; [|by apply Hquiet..]. eapply (inv_sender st1); try done; cbn; [apply HI1|by apply prefix_app_r|].
    unfold inflightSender. naive_solver.
  - destruct (Cancel_step st id xpc) as [st1 r] eqn:E. pose proof (inv_store _ HI) as Hok.
    destruct (Cancel_step_spec _ _ _ _ _ Hok E) as (Eh & Es & El & Ho & Hpc).
    intros Hm. assert (st' = st1) as -> by (destruct r; by injection Hm).
    eapply (inv_sender st); try done; cbn; rewrite ?Es, ?El; try done.
    + intros id' Hid. unfold inflightSender. cbn. destruct xpc; destruct Hpc as (Hs & Hr & Hw).
      * rewrite Hs in Hid. split; [done|]. split; [|naive_solver]. intros Hm'.
        destruct (decide (id' = id)) as [->|]; [|left; by apply Hw]. right.
        destruct Hr as [->|[Hn _]]; [by injection Hm as <-|done].
      * rewrite Hw in Hid. apply lookup_delete_is_Some in Hid as [Hne Hid]. rewrite Hs. naive_solver.
    + intros id'. destruct xpc; destruct Hpc as (Hs & Hr & Hw); [|by rewrite Hs]. by intros [_ ?]%Hw.
  - intros [= <- <-]. by apply Hquiet.
Qed.

Lemma cancel_all ids : forall s, w_ok s ->
  w_ok (fold_left (fun s id => (w_CancelWatch s id).1) ids s) /\
  forall id, is_Some (w_subs (fold_left (fun s id => (w_CancelWatch s id).1) ids s) !! id) ->
    is_Some (w_subs s !! id) /\ id ∉ ids.
Proof.
  induction ids as [|i ids IH]; intros s Hok; cbn [fold_left]; [split; [done|]; set_solver|].
  destruct (w_CancelWatch_spec s i Hok) as [Hok' Hs]. destruct (IH _ Hok') as [Hok2 H]. split; [done|].
  intros id Hid. destruct (H id Hid) as [Hid' Hn]. rewrite Hs in Hid'. apply lookup_delete_is_Some in Hid' as [? ?]. set_solver.
Qed.

Lemma inv_step st e : change_ok e -> inv st -> inv (step st e).
Proof.
  intros Hc HI. destruct e as [s|s req|s ok|s id|i ok| |c]; cbn [WatchServer.step].
  - destruct (handlers st !! s) eqn:E; [done|]. destruct HI as [Hok Hs Hw].
    assert (Hfresh : forall s0 h, handlers st !! s0 = Some h -> <[s := mkHandler Receiving ∅]> (handlers st) !! s0 = Some h).
    { intros s0 h Hl. rewrite lookup_insert_ne; [done|]. intros ->. congruence. }
    split; [done|..]; intros id Hid; unfold accounted, held_.
    + destruct (Hs id Hid) as [?|[(?&?&?&?)|?]]; eauto 8.
    + destruct (Hw id Hid) as [(?&?&?&?)|?]; eauto 8.
  - destruct (handlers st !! s) as [[[] sw]|] eqn:E; try done. eapply inv_handler_local; [done..| |]; [done|].
    destruct req as [[r|id|]|]; unfold Watch_recv; cbn; [destruct (wc_WatchId r =? 0)|..]; done.
  - destruct (handlers st !! s) as [h|] eqn:E; [|done].
    destruct (Watch_step clusterID memberID st s h ok) as [st' h'] eqn:E'. by eapply inv_Watch_step.
  - destruct (handlers st !! s) as [h|] eqn:E; [|done]. destruct h as [pc sw].
    unfold Watch_cleanup; cbn [h_pc streamWatches]. destruct pc; try (by eapply inv_handler_local).
    case_decide; eapply inv_handler_local; try done. cbn. intros id'. destruct (decide (id = id')); set_solver.
  - destruct (senders st !! i) as [sd|] eqn:E; [|done].
    destruct (sendEvents_step clusterID memberID st sd ok) as [st' pc] eqn:E'. by eapply inv_sendEvents_step.
  - unfold Stop. destruct (stopped (watchMgr st)); [done|].
    destruct (cancel_all (elements (dom (wm_watches (watchMgr st)))) (store st) (inv_store _ HI)) as [Hok Hs].
    eapply inv_frame; try done; cbn; [|by intros id [? [=]]]. intros id Hid. destruct (Hs id Hid) as [? Hn].
    split; [done|]. intros Hm. destruct Hn. apply elem_of_elements. by apply elem_of_dom.
  - destruct (w_change_spec (store st) c (inv_store _ HI) Hc) as [Hok Hs].
    apply inv_setStore; [done..|]. intros id [sub' Hsub]. destruct (Hs _ _ Hsub) as (sub & -> & _). eauto.
Qed.

Lemma inv_run events st : Forall change_ok events -> inv st -> inv (run st events).
Proof. intros Hc. revert st. induction Hc as [|e events He Hc IH]; intros st HI; cbn; [done|]. by apply IH, inv_step. Qed.

Lemma inv_init s limits : w_ok s -> w_subs s = ∅ -> inv (NewServer s limits).
Proof. intros Hok Hs. split; [done|..]; cbn; [rewrite Hs|]; intros id [? [=]]. Qed.

(** Every call of [Watch] has returned, and no goroutine is cancelling a watch. *)
Definition quiet (st : Server S) : Prop :=
  map_Forall (fun _ h => h_pc h = Returned) (handlers st) /\ Forall (fun sd => sd_pc sd <> SendFailed Unsubscribing) (senders st).

(** C13: whatever the goroutines of the watch service do and in whatever order, a
    subscription of the store is registered with the manager or a call that
    registers or cancels it is under way; a registered watch is held by a stream
    that still runs, except those whose ID is not positive or of which the client
    could not be told.  So when all streams have ended only those are left. *)
Theorem watches_do_not_leak s limits events (Hok : w_ok s) (Hs : w_subs s = ∅) (Hc : Forall change_ok events) :
  let st := run (NewServer s limits) events in
  (forall id, is_Some (w_subs (store st) !! id) -> accounted st id) /\
  (forall id, is_Some (wm_watches (watchMgr st) !! id) -> held_ st id \/ lost st id) /\
  (quiet st -> forall id, is_Some (w_subs (store st) !! id) \/ is_Some (wm_watches (watchMgr st) !! id) -> lost st id).
Proof.
  cbn zeta. set (st := run _ _). assert (HI : inv st) by by apply inv_run, inv_init.
  destruct HI as [_ Hsub Hw]. split; [done|]. split; [done|]. intros [Hq1 Hq2].
  assert (Hlost : forall id, is_Some (wm_watches (watchMgr st) !! id) -> lost st id).
  { intros id Hid. destruct (Hw id Hid) as [(s0 & h & Hl & Hh)|?]; [|done].
    apply Hq1 in Hl. unfold holds in Hh. by rewrite Hl in Hh. }
  intros id [Hid|]; [|auto]. destruct (Hsub id Hid) as [?|[(s0 & h & Hl & Hh)|(i & sd & Hl & _ & Hsd)]]; [auto|..].
  - apply Hq1 in Hl. by rewrite Hl in Hh.
  - by apply (Forall_lookup_1 _ _ _ _ Hq2) in Hl.
Qed.

End accounting.
