(* ===== verification/WatchDelivery.v ===== *)
(** * What the watch service delivers ([api/etcd/watch.go])

    When the server chooses the IDs, an event goes to the stream that asked for
    its watch, after the response that told of it, and is of the range that was
    asked for; the in-memory store as a [WatchStore]; and runs that show what goes
    wrong with IDs that clients choose. *)

From S2P Require Import Prelude GoBytes KvTypes ShardedMap MemoryEtcd EtcdFacts EtcdApi WatchServer.

Definition pbEvent_for (r : WatchCreateRequest) (e : pbEvent) : Prop :=
  (exists kv, pe_Kv e = Some kv /\ matchWatch (Key kv) (wc_Key r) (wc_RangeEnd r) = true) /\
  (pe_PrevKv e = None \/ wc_PrevKv r = true).

(** Among what was sent is the response that tells stream [s] of its watch. *)
Definition told (l : list Sent) (s : nat) (watchID : Z) : Prop :=
  exists x, x ∈ l /\ sn_stream x = s /\ wr_Created (sn_resp x) = true /\ wr_WatchId (sn_resp x) = watchID /\ sn_ok x = true.

Lemma told_app l m s id : told l s id -> told (l ++ m) s id.
Proof. intros (x & Hx & H). exists x. split; [apply elem_of_app; by left|done]. Qed.

Section delivery.
Context {S : Type} `{!WatchStore S, !WatchStoreLaws S}.
Variables (clusterID memberID : Z).

Abbreviation step := (step clusterID memberID).
Abbreviation run := (run clusterID memberID).
Abbreviation wants r := (event_for (wc_Key r) (wc_RangeEnd r) (wc_PrevKv r)).
Abbreviation sub_wants r := (sub_for (wc_Key r) (wc_RangeEnd r) (wc_PrevKv r)).

(** The stream and the request each ID was given to. *)
Abbreviation Owner := (gmap Z (nat * WatchCreateRequest)).

Definition asked (past : list (Event S)) (s : nat) (r : WatchCreateRequest) : Prop := ERecv s (Some (CreateRequest r)) ∈ past.

Definition handler_ok (past : list (Event S)) (owner : Owner) (s : nat) (h : Handler) : Prop :=
  match h_pc h with
  | Numbering r => asked past s r
  | Creating id r pc => owner !! id = Some (s, r) /\ (forall c, pc = Registering c -> c.1 = id)
  | Confirming id => exists r, owner !! id = Some (s, r)
  | _ => True
  end.

Definition sender_ok (owner : Owner) (l : list Sent) (sd : Sender) : Prop :=
  (exists r, owner !! sd_watchID sd = Some (sd_stream sd, r)) /\ told l (sd_stream sd) (sd_watchID sd) /\
  forall c, sd_pc sd = Ranging c -> c.1 = sd_watchID sd.

Definition sent_ok (owner : Owner) (l : list Sent) (x : Sent) : Prop :=
  forall e, e ∈ wr_Events (sn_resp x) -> exists r, owner !! wr_WatchId (sn_resp x) = Some (sn_stream x, r) /\
    pbEvent_for r e /\ told l (sn_stream x) (wr_WatchId (sn_resp x)).

Record dinv (past : list (Event S)) (owner : Owner) (st : Server S) : Prop := {
  d_ok : w_ok (store st);
  d_next : 0 <= nextID (watchMgr st) <= Z.of_nat (length past);
  d_fresh id o : owner !! id = Some o -> 0 < id <= nextID (watchMgr st);
  d_asked id s r : owner !! id = Some (s, r) -> asked past s r;
  d_handlers s h : handlers st !! s = Some h -> handler_ok past owner s h;
  d_subs id sub : w_subs (store st) !! id = Some sub -> exists s r, owner !! id = Some (s, r) /\ sub_wants r sub;
  d_closed c evs : closedCh st !! c = Some evs -> exists s r, owner !! c.1 = Some (s, r) /\ Forall (wants r) evs;
  d_watches id ws : wm_watches (watchMgr st) !! id = Some ws -> (st_eventCh ws).1 = id;
  d_senders i sd : senders st !! i = Some sd -> sender_ok owner (log st) sd;
  d_log i x : log st !! i = Some x -> sent_ok owner (take i (log st)) x;
}.

(** ** The parts of the state *)

Lemma d_setHandler past owner st s h : dinv past owner st -> handler_ok past owner s h -> dinv past owner (setHandler st s h).
Proof.
  intros [] Hh. split; try done. intros s' h'. cbn. rewrite lookup_insert. case_decide; [intros [= <-]; congruence|auto].
Qed.

Lemma d_setMgr past owner st wm :
  dinv past owner st -> nextID wm = nextID (watchMgr st) ->
  (forall id ws, wm_watches wm !! id = Some ws -> (st_eventCh ws).1 = id) -> dinv past owner (setMgr st wm).
Proof. intros [] Hn Hw. split; cbn; rewrite ?Hn; done. Qed.

Lemma d_setSenders past owner st sds :
  dinv past owner st -> (forall i sd, sds !! i = Some sd -> sender_ok owner (log st) sd) -> dinv past owner (setSenders st sds).
Proof. intros [] Hs. by split. Qed.

Lemma d_send past owner st s resp ok :
  dinv past owner st -> sent_ok owner (log st) (mkSent s resp ok) -> dinv past owner (send st s resp ok).
Proof.
  intros [] Hs. split; try done; cbn.
  - intros i sd Hi. destruct (d_senders0 i sd Hi) as (? & ? & ?). split; [done|]. split; [by apply told_app|done].
  - intros i x. rewrite lookup_snoc_Some. intros [[Hi Hx]|[-> <-]].
    + rewrite take_app_le by lia. auto.
    + by rewrite take_app_length.
Qed.

#[local] Instance channelOf_inj (st : Server S) : Inj (=) (=) (channelOf st).
Proof. by intros ?? [= ?]. Qed.

Lemma d_setStore past owner st s' :
  dinv past owner st -> w_ok s' ->
  (forall id sub', w_subs s' !! id = Some sub' -> exists s r, owner !! id = Some (s, r) /\ sub_wants r sub') ->
  dinv past owner (setStore st s').
Proof.
  intros [] Hok Hs. split; try done. cbn. intros c evs. rewrite lookup_union_Some_raw. intros [Hk|[_ Hc]]; [|auto].
  apply lookup_kmap_Some in Hk as (id & -> & Hl); [|apply _]. apply lookup_fmap_Some in Hl as (sub & <- & Hl).
  apply lookup_difference_Some in Hl as [Hl _]. destruct (d_subs0 _ _ Hl) as (s & r & Ho & _ & _ & _ & Hev).
  exists s, r. split; [done|]. by apply Forall_app in Hev as [? _].
Qed.

Lemma d_past past owner st e : dinv past owner st -> dinv (past ++ [e]) owner st.
Proof.
  intros []. assert (Happ : forall s r, asked past s r -> asked (past ++ [e]) s r).
  { intros s r H. apply elem_of_app. by left. }
  split; try done; [rewrite length_app; cbn; lia|eauto|].
  intros s h Hh. specialize (d_handlers0 s h Hh). unfold handler_ok in *. destruct (h_pc h); auto.
Qed.


(** ** The calls *)

Lemma newSub_wants r id : sub_wants r (newSub (wc_Key r) (wc_RangeEnd r) (wc_StartRevision r) id (ca_opts (createCall r))).
Proof. by repeat split. Qed.

Lemma d_CreateWithID past owner st s id r pc st' res :
  dinv past owner st -> owner !! id = Some (s, r) -> (forall c, pc = Registering c -> c.1 = id) ->
  CreateWithID_step st id (createCall r) pc = (st', res) ->
  dinv past owner st' /\ handlers st' = handlers st /\
  match res with inl pc' => forall c, pc' = Registering c -> c.1 = id | inr v => v = -1 \/ v = id end.
Proof.
  intros HI Ho Hpc. destruct pc as [| | | |c]; cbn [CreateWithID_step].
  1-3: intros [= <- <-]; split_and!; try done; repeat case_match; naive_solver.
  - destruct (match ca_opts (createCall r) with Some _ => _ | None => _ end) as [s1 res1] eqn:E.
    apply (Subscribing_store _ _ _ _ _ (d_ok _ _ _ HI)) in E. destruct res1 as [b|e]; cbn in E; intros [= <- <-].
    + destruct E as (Hok & _ & Hs). split_and!; [|done|by intros c [= <-]].
      assert (HI' : dinv past owner (setStore st s1)); [|by destruct HI'].
      apply d_setStore; [done..|]. intros id' sub'. rewrite Hs, lookup_insert. case_decide as Heq; [subst id'|by apply HI].
      intros [= <-]. exists s, r. split; [done|]. apply newSub_wants.
    + subst s1. split_and!; [|done|by left]. apply d_setStore; [done|apply HI|apply HI].
  - intros [= <- <-]. split_and!; [|done|by right]. apply d_setMgr; [done..|]. intros id' ws. cbn.
    rewrite lookup_insert. case_decide as Heq; [|by apply HI]. intros [= <-]. cbn. subst id'. by apply Hpc.
Qed.

Lemma d_Cancel past owner st id pc st' res :
  dinv past owner st -> Cancel_step st id pc = (st', res) ->
  dinv past owner st' /\ handlers st' = handlers st /\ senders st' = senders st /\ log st' = log st.
Proof.
  intros HI. destruct pc; cbn [Cancel_step].
  - destruct (wm_watches (watchMgr st) !! id) eqn:E; intros [= <- <-]; split_and!; try done.
    apply d_setMgr; [done..|]. intros id' ws; cbn; intros [_ Hw]%lookup_delete_Some. by apply (d_watches _ _ _ HI).
  - destruct (w_CancelWatch_spec (store st) id (d_ok _ _ _ HI)) as [Hok Hs].
    destruct (w_CancelWatch (store st) id) as [s1 r1]. intros [= <- <-]. split_and!; try done.
    apply d_setStore; [done..|]. intros id' sub'. cbn in Hs. rewrite Hs. intros [_ Hl]%lookup_delete_Some. by apply HI.
Qed.

Lemma d_receiveFrom past owner st c st' res :
  dinv past owner st -> receiveFrom st c = (st', res) ->
  dinv past owner st' /\ senders st' = senders st /\ log st' = log st /\
  forall ev, res = Got ev -> exists s r, owner !! c.1 = Some (s, r) /\ wants r ev.
Proof.
  intros HI. unfold receiveFrom. destruct (closedCh st !! c) as [[|ev evs]|] eqn:Ec; [by intros [= <- <-]|..].
  - destruct (d_closed _ _ _ HI _ _ Ec) as (s & r & Ho & [Hev Hevs]%Forall_cons).
    intros [= <- <-]. split_and!; try done; [|intros ev' [= <-]; eauto].
    destruct HI. split; try done. cbn. intros c' evs'. rewrite lookup_insert. case_decide; [subst c'|auto]. intros [= <-]; eauto.
  - destruct (w_subs (store st) !! c.1) as [sub|] eqn:E; [|by intros [= <- <-]].
    destruct (d_subs _ _ _ HI _ _ E) as (s & r & Ho & Hk & Hr & Hp & Hevs).
    case_decide; [|by intros [= <- <-]]. unfold sub_events in Hevs.
    destruct (ws_eventCh sub) as [|ev evs] eqn:Ech; intros [= <- <-]; [done|].
    apply Forall_cons in Hevs as [Hev Hevs]. split_and!; try done; [|intros ev' [= <-]; eauto].
    apply d_setStore; [done|apply w_ok_setEvents; [apply HI|done]|].
    intros id sub'. rewrite w_subs_setSubs, lookup_insert. case_decide as Heq; [subst id|by apply HI].
    intros [= <-]. exists s, r. by repeat split.
Qed.

(** ** Steps *)

Lemma d_number past owner st s r sw :
  dinv past owner st -> handlers st !! s = Some (mkHandler (Numbering r) sw) ->
  nextID (watchMgr st) < Z.of_nat (length past) <= int64_max ->
  let '(wm, id) := addNextID (watchMgr st) in
  exists owner', dinv past owner' (setHandler (setMgr st wm) s (mkHandler (Creating id r Loading) sw)).
Proof.
  intros HI Hh Hn. pose proof (d_next _ _ _ HI) as Hpos. unfold addNextID. rewrite wrap_i64_id by (unfold is_i64, int64_min, int64_max in *; lia).
  set (id := nextID (watchMgr st) + 1). assert (Hnew : owner !! id = None).
  { destruct (owner !! id) as [o|] eqn:E; [|done]. apply (d_fresh _ _ _ HI) in E. lia. }
  exists (<[id := (s, r)]> owner).
  assert (Hkeep : forall i o, owner !! i = Some o -> <[id := (s, r)]> owner !! i = Some o).
  { intros i o Hi. rewrite lookup_insert_ne; [done|congruence]. }
  pose proof (d_handlers _ _ _ HI s _ Hh) as Hasked. cbn in Hasked.
  apply d_setHandler; [|split; [apply lookup_insert_eq|done]].
  destruct HI. split; try done; cbn.
  - lia.
  - intros i o. rewrite lookup_insert. case_decide; [subst; lia|]. intros Ho. apply d_fresh0 in Ho. lia.
  - intros i s' r'. rewrite lookup_insert. case_decide; [by intros [= <- <-]|apply d_asked0].
  - intros s' h Hl. specialize (d_handlers0 s' h Hl). unfold handler_ok in *. destruct (h_pc h); naive_solver.
  - naive_solver.
  - naive_solver.
  - intros i sd Hi. destruct (d_senders0 i sd Hi) as ([r' ?] & ? & ?). split; eauto.
  - intros i x Hi e He. destruct (d_log0 i x Hi e He) as (r' & ? & ?). eauto.
Qed.


Lemma no_events owner l s resp ok : wr_Events resp = [] -> sent_ok owner l (mkSent s resp ok).
Proof. intros H e. cbn. rewrite H. by intros ?%elem_of_nil. Qed.

Lemma d_Watch_step past owner st s h ok st' h' :
  dinv past owner st -> handlers st !! s = Some h -> (forall r, h_pc h <> Numbering r) ->
  Watch_step clusterID memberID st s h ok = (st', h') -> dinv past owner (setHandler st' s h').
Proof.
  intros HI Hh Hnn. pose proof (d_handlers _ _ _ HI s h Hh) as Hok. destruct h as [pc sw].
  unfold Watch_step, handler_ok in *; cbn [h_pc streamWatches] in *.
  destruct pc as [|req|id r cpc| |id|id xpc|id|rest|id xpc rest|].
  - intros [= <- <-]. by apply d_setHandler.
  - by destruct (Hnn req).
  - destruct Hok as [Ho Hc]. destruct (CreateWithID_step _ _ _ _) as [st1 res] eqn:E.
    destruct (d_CreateWithID _ _ _ _ _ _ _ _ _ HI Ho Hc E) as (HI1 & _ & Hres).
    destruct res as [pc'|v]; intros [= <- <-]; apply d_setHandler; try done.
    unfold handler_ok; cbn. destruct (v <? 0) eqn:Ev; [done|].
    destruct Hres as [->| ->]; [done|by eexists].
  - intros [= <- <-]. apply d_setHandler; [by apply d_send, no_events|by destruct ok].
  - pose proof (d_send _ _ _ s _ ok HI (no_events owner (log st) s (createdResponse clusterID memberID st id) ok eq_refl)) as HI1.
    destruct ok; intros [= <- <-]; apply d_setHandler; try done.
    apply d_setSenders; [done|]. intros i sd. rewrite lookup_snoc_Some. intros [[_ Hi]|[_ <-]]; [by apply (d_senders _ _ _ HI1 i)|].
    split; [done|]. split; [|done]. exists (mkSent s (createdResponse clusterID memberID st id) true). split; [|done].
    apply elem_of_app. right. by apply list_elem_of_singleton.
  - destruct (Cancel_step st id xpc) as [st1 res] eqn:E. destruct (d_Cancel _ _ _ _ _ _ _ HI E) as (HI1 & _).
    destruct res; intros [= <- <-]; by apply d_setHandler.
  - intros [= <- <-]. apply d_setHandler; [by apply d_send, no_events|by destruct ok].
  - intros [= <- <-]. apply d_setHandler; [done|]. unfold handler_ok; cbn. by case_decide.
  - destruct (Cancel_step st id xpc) as [st1 res] eqn:E. destruct (d_Cancel _ _ _ _ _ _ _ HI E) as (HI1 & _).
    destruct res; intros [= <- <-]; by apply d_setHandler.
  - intros [= <- <-]. by apply d_setHandler.
Qed.

Lemma wants_event r ev : wants r ev -> pbEvent_for r (convertEvent ev).
Proof. done. Qed.

Lemma d_sendEvents_step past owner st i sd ok st' pc :
  dinv past owner st -> senders st !! i = Some sd -> sendEvents_step clusterID memberID st sd ok = (st', pc) ->
  dinv past owner (setSenders st' (<[i := mkSender (sd_stream sd) (sd_watchID sd) pc]> (senders st'))).
Proof.
  intros HI Hi. destruct (d_senders _ _ _ HI _ _ Hi) as ([r Ho] & Htold & Hc).
  assert (Hset : forall st1 pc1, dinv past owner st1 -> (forall c, pc1 = Ranging c -> c.1 = sd_watchID sd) ->
    told (log st1) (sd_stream sd) (sd_watchID sd) ->
    dinv past owner (setSenders st1 (<[i := mkSender (sd_stream sd) (sd_watchID sd) pc1]> (senders st1)))).
  { intros st1 pc1 HI1 Hc1 Ht1. apply d_setSenders; [done|]. intros j sd1. rewrite list_lookup_insert.
    case_decide; [intros [= <-]; split; [by exists r|done]|by apply (d_senders _ _ _ HI1)]. }
  unfold sendEvents_step. destruct (sd_pc sd) as [|c|xpc|] eqn:Epc.
  - intros [= <- <-]. apply Hset; [done| |done]. unfold GetEventChan.
    destruct (wm_watches (watchMgr st) !! sd_watchID sd) as [ws|] eqn:E; cbn; [|done].
    intros c [= <-]. by apply (d_watches _ _ _ HI).
  - destruct (receiveFrom st c) as [st1 res] eqn:E. destruct (d_receiveFrom _ _ _ _ _ _ HI E) as (HI1 & Es & El & Hev).
    specialize (Hc c eq_refl). destruct res as [ev| |]; intros [= <- <-]; [|by (apply Hset; [done|naive_solver|by rewrite El])..].
    apply Hset; [| |cbn; apply told_app; by rewrite El].
    + apply d_send; [done|]. intros e He. cbn in He. apply list_elem_of_singleton in He as ->.
      destruct (Hev ev eq_refl) as (s' & r' & Ho' & Hw). rewrite Hc, Ho in Ho'. injection Ho' as <- <-.
      exists r. split; [done|]. split; [by apply wants_event|cbn; by rewrite El].
    + destruct ok; [by intros c' [= <-]|done].
  - destruct (Cancel_step st (sd_watchID sd) xpc) as [st1 res] eqn:E. destruct (d_Cancel _ _ _ _ _ _ _ HI E) as (HI1 & _ & _ & El).
    destruct res; intros [= <- <-]; (apply Hset; [done..|by rewrite El]).
  - intros [= <- <-]. by apply Hset.
Qed.

Lemma d_cancel_all past owner ids : forall st, dinv past owner st ->
  forall s', s' = fold_left (fun s id => (w_CancelWatch s id).1) ids (store st) ->
  w_ok s' /\ forall id sub, w_subs s' !! id = Some sub -> w_subs (store st) !! id = Some sub.
Proof.
  intros st HI s' ->. generalize (store st) (d_ok _ _ _ HI). induction ids as [|i ids IH]; intros s Hok; [done|].
  destruct (w_CancelWatch_spec s i Hok) as [Hok' Hs]. destruct (IH _ Hok') as [? H]. split; [done|].
  intros id sub Hl. apply H in Hl. rewrite Hs in Hl. by apply lookup_delete_Some in Hl as [_ ?].
Qed.

Definition server_numbers (e : Event S) : Prop :=
  match e with ERecv _ (Some (CreateRequest r)) => wc_WatchId r = 0 | _ => True end.

Lemma d_step past owner st e :
  dinv past owner st -> change_ok e -> server_numbers e -> Z.of_nat (length past) < int64_max ->
  exists owner', dinv (past ++ [e]) owner' (step st e).
Proof.
  intros HI0 Hc Hn Hlen. pose proof (d_past _ _ _ e HI0) as HI. destruct e as [s|s req|s ok|s id|i ok| |c]; cbn [WatchServer.step].
  - exists owner. destruct (handlers st !! s) eqn:E; [done|]. by apply d_setHandler.
  - exists owner. destruct (handlers st !! s) as [[[] sw]|] eqn:E; try done. apply d_setHandler; [done|].
    destruct req as [[r|id|]|]; try done. unfold Watch_recv. cbn in Hn. rewrite Hn. cbn.
    apply elem_of_app. right. by apply list_elem_of_singleton.
  - destruct (handlers st !! s) as [h|] eqn:E; [|by exists owner].
    destruct (h_pc h) as [|r| | | | | | | |] eqn:Epc.
    2:{ destruct h as [pc sw]. cbn in Epc. subst pc. unfold Watch_step; cbn [h_pc streamWatches].
      pose proof (d_next _ _ _ HI0). apply (d_number _ _ _ s r sw HI E). rewrite length_app; cbn. lia. }
    all: exists owner; destruct (Watch_step clusterID memberID st s h ok) as [st' h'] eqn:E'; eapply d_Watch_step; try done; congruence.
  - exists owner. destruct (handlers st !! s) as [h|] eqn:E; [|done]. apply d_setHandler; [done|].
    pose proof (d_handlers _ _ _ HI s h E) as Hh. unfold Watch_cleanup. destruct (h_pc h) eqn:Epc; try done. by case_decide.
  - exists owner. destruct (senders st !! i) as [sd|] eqn:E; [|done].
    destruct (sendEvents_step clusterID memberID st sd ok) as [st' pc] eqn:E'. by eapply d_sendEvents_step.
  - exists owner. unfold Stop. destruct (stopped (watchMgr st)); [done|].
    destruct (d_cancel_all _ _ (elements (dom (wm_watches (watchMgr st)))) _ HI _ eq_refl) as [Hok Hs].
    apply d_setMgr; [|done..]. apply d_setStore; [done..|]. intros id sub Hl. by apply HI, Hs.
  - exists owner. destruct (w_change_spec (store st) c (d_ok _ _ _ HI) Hc) as [Hok Hs]. apply d_setStore; [done..|].
    intros id sub' Hl. destruct (Hs _ _ Hl) as (sub & Hsub & Hev). destruct (d_subs _ _ _ HI _ _ Hsub) as (s & r & Ho & Hw).
    exists s, r. split; [done|]. by apply Hev.
Qed.

Lemma d_run events : forall past owner st,
  dinv past owner st -> Forall change_ok events -> Forall server_numbers events ->
  Z.of_nat (length past + length events) <= int64_max -> exists owner', dinv (past ++ events) owner' (run st events).
Proof.
  induction events as [|e events IH]; intros past owner st HI Hc Hn Hlen; [exists owner; by rewrite app_nil_r|].
  apply Forall_cons in Hc as [Hc Hcs]. apply Forall_cons in Hn as [Hn Hns]. cbn [length] in Hlen.
  destruct (d_step past owner st e HI Hc Hn ltac:(lia)) as [owner1 HI1].
  replace (past ++ e :: events) with ((past ++ [e]) ++ events) by by rewrite <- app_assoc.
  apply (IH _ owner1); [done..|]. rewrite length_app. cbn. lia.
Qed.

Lemma d_init s limits : w_ok s -> w_subs s = ∅ -> dinv [] ∅ (NewServer s limits).
Proof. intros Hok Hs. split; cbn; try done. intros id sub. by rewrite Hs. Qed.

(** C16: when clients leave the choice of IDs to the server, each ID stands for one
    request of one stream, and every event the service sends under it goes to that
    stream, after the response that told it of the watch, is of a record in the
    range the request named, and has the previous record only if it asked for it. *)
Theorem watch_events_asked_for s limits events (Hok : w_ok s) (Hs : w_subs s = ∅) (Hc : Forall change_ok events)
    (Hn : Forall server_numbers events) (Hlen : Z.of_nat (length events) <= int64_max) :
  exists owner : gmap Z (nat * WatchCreateRequest),
    (forall id s r, owner !! id = Some (s, r) -> ERecv s (Some (CreateRequest r)) ∈ events) /\
    forall i x e, log (run (NewServer s limits) events) !! i = Some x -> e ∈ wr_Events (sn_resp x) ->
      exists r, owner !! wr_WatchId (sn_resp x) = Some (sn_stream x, r) /\ pbEvent_for r e /\
        told (take i (log (run (NewServer s limits) events))) (sn_stream x) (wr_WatchId (sn_resp x)).
Proof.
  destruct (d_run events [] ∅ (NewServer s limits) (d_init s limits Hok Hs) Hc Hn Hlen) as [owner HI].
  exists owner. split; [apply (d_asked _ _ _ HI)|]. intros i x e Hi. by apply (d_log _ _ _ HI).
Qed.

End delivery.

(** ** The in-memory store *)

(** What [MemoryEtcd] does to its watches: the notifications of both paths, the
    replay of a new watch, the goroutines of slow watches; and its other state
    changes. *)
Inductive MemoryChange (M : Type) :=
  | MNotify (event : WatchEvent)
  | MNotifyDirect (key : string) (kv : KeyValue) (t : EventType)
  | MReplay (watchID : Z)
  | MSlow (watchID : Z) (i : nat)
  | MTimeout (watchID : Z)
  | MData (d : M) (revision : Z) (ls : gmap Z LeaseInfo).
Arguments MNotify {M}.
Arguments MNotifyDirect {M}.
Arguments MReplay {M}.
Arguments MSlow {M}.
Arguments MTimeout {M}.
Arguments MData {M}.

Lemma sub_for_snoc key rangeEnd prevKV sub ev :
  sub_for key rangeEnd prevKV sub -> event_for key rangeEnd prevKV ev ->
  sub_for key rangeEnd prevKV (setEvents sub (ws_eventCh sub ++ [ev]) (ws_slow sub)) /\
  sub_for key rangeEnd prevKV (setEvents sub (ws_eventCh sub) (ws_slow sub ++ [ev])).
Proof.
  intros (? & ? & ? & [Hc Hs]%Forall_app) Hev.
  assert (Hev1 : Forall (event_for key rangeEnd prevKV) [ev]) by by apply Forall_singleton.
  split; (repeat split; [done..|]); unfold sub_events; cbn; repeat apply Forall_app_2; done.
Qed.

Lemma notifySub_evolves ev sub : is_Some (we_Kv ev) -> evolves sub (notifySub ev sub).
Proof.
  intros [kv Hkv] key rangeEnd prevKV Hs. unfold notifySub. rewrite Hkv. destruct Hs as (Hk & Hr & Hp & Hev).
  destruct (ws_closed sub); [by repeat split|]. destruct (matchWatch _ _ _) eqn:E; [|by repeat split].
  destruct (shouldFilter _ _); [by repeat split|]. cbn [negb].
  set (ev' := if ws_prevKV sub then ev else _).
  assert (Hev' : event_for key rangeEnd prevKV ev').
  { subst ev'. rewrite <- Hk, <- Hr. unfold event_for. destruct (ws_prevKV sub) eqn:Ep; cbn; split; eauto. }
  destruct (sub_for_snoc key rangeEnd prevKV sub ev') as [H1 H2]; [by repeat split|done|]. by destruct (hasRoom sub).
Qed.

Lemma notifySubDirect_evolves key kv t sub : Key kv = key -> evolves sub (notifySubDirect key kv t sub).
Proof.
  intros Hkey k r p Hs. unfold notifySubDirect, watchMatches. fold (matchWatch key (ws_key sub) (ws_rangeEnd sub)).
  destruct (matchWatch _ _ _) eqn:E; [|done]. destruct (hasRoom sub); [|done].
  apply sub_for_snoc; [done|]. destruct Hs as (<- & <- & _). split; [exists kv; by rewrite Hkey|by left].
Qed.

Lemma sendHistorical_evolves kvs : Forall (fun p => Key p.2 = p.1) kvs -> forall sub, evolves sub (sendHistorical kvs sub).
Proof.
  induction 1 as [|[k kv] kvs Hk _ IH]; intros sub key rangeEnd prevKV Hs; [done|]. cbn in Hk.
  unfold sendHistorical. cbn [fold_left]. apply IH. cbn [fst snd].
  destruct (matchWatch k (ws_key sub) (ws_rangeEnd sub)) eqn:E; [|done]. destruct (hasRoom sub); [|done].
  apply sub_for_snoc; [done|]. destruct Hs as (<- & <- & _). split; [exists kv; by rewrite Hk|by left].
Qed.

Lemma slowSend_evolves i sub : evolves sub (slowSend i sub).
Proof.
  intros key rangeEnd prevKV Hs. unfold slowSend. destruct (ws_slow sub !! i) as [ev|] eqn:E; [|done].
  destruct (hasRoom sub); [|done]. destruct Hs as (? & ? & ? & [Hc Hsl]%Forall_app). split_and!; try done.
  unfold sub_events. cbn. repeat apply Forall_app_2; [done|..].
  - apply Forall_singleton. by apply (Forall_lookup_1 _ _ _ _ Hsl E).
  - rewrite delete_take_drop. apply Forall_app_2; [by apply Forall_take|by apply Forall_drop].
Qed.

Section memory.
Context {M : Type} `{!KvMap M, !KvMapLaws M, !MapOrder}.

Definition memoryChange (m : MemoryEtcd M) (c : MemoryChange M) : MemoryEtcd M :=
  match c with
  | MNotify event => notifyWatches m event
  | MNotifyDirect key kv t => notifyWatchers m key kv t
  | MReplay watchID => sendHistoricalEvents m watchID
  | MSlow watchID i => slowSendEvent m watchID i
  | MTimeout watchID => slowSendTimeout m watchID
  | MData d rev ls => setData m d rev ls
  end.

#[global] Instance memory_watches : WatchStore (MemoryEtcd M) := {
  WatchErr := EtcdError;
  WatchChange := MemoryChange M;
  w_subs := watches;
  w_setSubs := setWatches;
  w_WatchWithOptions := WatchWithOptions;
  w_Watch := Watch;
  w_CancelWatch := CancelWatch;
  w_change := memoryChange;
  w_CurrentRevision := CurrentRevision;
  w_GetRaftStatus := GetRaftStatus;
}.

Definition memory_ok (m : MemoryEtcd M) : Prop :=
  wf_map (kvData m) /\ keyed (contents (kvData m)) /\ map_Forall (fun _ sub => ws_closed sub = false) (watches m).

Definition memory_change_ok (c : MemoryChange M) : Prop :=
  match c with
  | MNotify event => is_Some (we_Kv event)
  | MNotifyDirect key kv _ => Key kv = key
  | MData d _ _ => wf_map d /\ keyed (contents d)
  | _ => True
  end.

(** A change of the subscriptions one by one. *)
Lemma memory_fmap m (f : watchSubscription -> watchSubscription) :
  memory_ok m -> (forall sub, ws_closed (f sub) = ws_closed sub) -> (forall sub, evolves sub (f sub)) ->
  memory_ok (setWatches m (f <$> watches m)) /\
  forall id sub', (f <$> watches m) !! id = Some sub' -> exists sub, watches m !! id = Some sub /\ evolves sub sub'.
Proof.
  intros (Hm & Hk & Hc) Hf He. split.
  - split_and!; [done..|]. intros id sub' Hl. cbn in Hl. apply lookup_fmap_Some in Hl as (sub & <- & Hl). rewrite Hf. by apply (Hc id).
  - intros id sub' Hl. apply lookup_fmap_Some in Hl as (sub & <- & Hl). eauto.
Qed.

Lemma memory_alter m (f : watchSubscription -> watchSubscription) watchID :
  memory_ok m -> (forall sub, ws_closed (f sub) = ws_closed sub) -> (forall sub, evolves sub (f sub)) ->
  memory_ok (setWatches m (alter f watchID (watches m))) /\
  forall id sub', alter f watchID (watches m) !! id = Some sub' -> exists sub, watches m !! id = Some sub /\ evolves sub sub'.
Proof.
  intros (Hm & Hk & Hc) Hf He. split.
  - split_and!; [done..|]. intros id sub' Hl. cbn in Hl. apply lookup_alter_Some in Hl as [(-> & sub & Hl & ->)|[_ Hl]];
      [rewrite Hf|]; by apply (Hc id).
  - intros id sub' Hl. apply lookup_alter_Some in Hl as [(-> & sub & Hl & ->)|[_ Hl]]; eauto. exists sub'. split; [done|by intros ?].
Qed.

Lemma notifySub_closed ev sub : ws_closed (notifySub ev sub) = ws_closed sub.
Proof. unfold notifySub. repeat case_match; done. Qed.
Lemma notifySubDirect_closed key kv t sub : ws_closed (notifySubDirect key kv t sub) = ws_closed sub.
Proof. unfold notifySubDirect. by repeat case_match. Qed.
Lemma sendHistorical_closed kvs : forall sub, ws_closed (sendHistorical kvs sub) = ws_closed sub.
Proof. induction kvs as [|p kvs IH]; intros sub; [done|]. unfold sendHistorical; cbn [fold_left]. etransitivity; [apply IH|]. by case_match. Qed.
Lemma slowSend_closed i sub : ws_closed (slowSend i sub) = ws_closed sub.
Proof. unfold slowSend. by repeat case_match. Qed.

Lemma memory_cancel m id : memory_ok m -> memory_ok (CancelWatch m id).1 /\ watches (CancelWatch m id).1 = delete id (watches m).
Proof.
  intros (Hm & Hk & Hc). unfold CancelWatch. destruct (watches m !! id) as [sub|] eqn:E.
  - rewrite (Hc id sub E). split; [split_and!; [done..|by apply map_Forall_delete]|done].
  - split; [done|]. by rewrite delete_id.
Qed.

#[global, refine] Instance memory_watch_laws : WatchStoreLaws (MemoryEtcd M) := {
  w_ok := memory_ok;
  w_change_ok := memory_change_ok;
}.
Proof.
  - done.
  - intros m id sub ch (Hm & Hk & Hc) Hl. split_and!; [done..|]. apply map_Forall_insert_2; [|done]. exact (Hc id sub Hl).
  - done.
  - intros m key rangeEnd rev id opts (Hm & Hk & Hc). cbn. unfold WatchWithOptions. destruct (watches m !! id); [eauto|].
    eexists _, _. split; [done|]. split; [|done]. split_and!; [done..|]. by apply map_Forall_insert_2.
  - intros m id. apply memory_cancel.
  - intros m c Hok Hc. destruct c as [ev|key kv t|id|id i|id|d rev ls]; cbn [w_subs w_change memory_watches memoryChange].
    + apply memory_fmap; [done|apply notifySub_closed|]. intros sub. by apply notifySub_evolves.
    + apply memory_fmap; [done|apply notifySubDirect_closed|]. intros sub. by apply notifySubDirect_evolves.
    + apply memory_alter; [done|apply sendHistorical_closed|]. apply sendHistorical_evolves. destruct Hok as (Hm & Hk & _).
      apply Forall_forall. intros [k kv]. rewrite elem_of_range_map, GetAll_contents by done. apply Hk.
    + apply memory_alter; [done|apply slowSend_closed|apply slowSend_evolves].
    + unfold slowSendTimeout. destruct (memory_cancel m id Hok) as [Hok' Hs]. split; [done|].
      intros id' sub'. rewrite Hs. intros [_ Hl]%lookup_delete_Some. exists sub'. split; [done|by intros ?].
    + destruct Hok as (_ & _ & Hcl). split; [by destruct Hc|]. intros id sub' Hl. exists sub'. split; [done|by intros ?].
Defined.

End memory.

(** ** Runs *)

Definition demoStore : MemoryEtcd ShardedMap := NewMemoryEtcd.

Lemma demoStore_ok : w_ok demoStore.
Proof. split; [apply (wf_new_map (M := ShardedMap))|]. split; [|done]. intros k kv Hl. exfalso. revert Hl. change (kvData demoStore) with (NewMap (M := ShardedMap)). by rewrite (contents_new (M := ShardedMap)). Qed.

Definition watchKey (key : string) (watchID : Z) : WatchCreateRequest := mkWatchCreate key "" 0 false [] false watchID false.

(** A request of stream [s], and its handler up to the next [Recv]. *)
Definition request (s : nat) (req : WatchRequest) : list (Event (MemoryEtcd ShardedMap)) :=
  ERecv s (Some req) :: replicate 8 (ERun s true).

Definition putEvent (key value : string) (rev : Z) : Event (MemoryEtcd ShardedMap) :=
  EStore (MNotify (mkWatchEvent EventTypePut (Some (mkKeyValue key value rev rev 1 0)) None rev)).

(** Stream [s] ends and cancels the watch [watchID]. *)
Definition ends (s : nat) (watchID : Z) : list (Event (MemoryEtcd ShardedMap)) :=
  [ERecv s None; ECleanup s watchID; ERun s true; ERun s true; ERun s true].

Abbreviation runs events := (WatchServer.run 1 1 (NewServer demoStore None) events).

(** What each stream was sent of events: the watch ID, the key and the value. *)
Definition delivered (st : Server (MemoryEtcd ShardedMap)) : list (nat * Z * list (string * string)) :=
  omap (fun x => match wr_Events (sn_resp x) with
                 | [] => None
                 | evs => Some (sn_stream x, wr_WatchId (sn_resp x), omap (fun e => (fun kv => (Key kv, Value kv)) <$> pe_Kv e) evs)
                 end) (log st).

Definition demoRun : list (Event (MemoryEtcd ShardedMap)) :=
  [EOpen 1; EOpen 2] ++ request 1 (CreateRequest (watchKey "a" 0)) ++ request 2 (CreateRequest (watchKey "b" 0)) ++
  [ESender 0 true; ESender 1 true; putEvent "b" "x" 1; ESender 0 true; ESender 1 true] ++ ends 1 1 ++ ends 2 2 ++
  [ESender 0 true; ESender 1 true].

Lemma demoRun_ok : Forall change_ok demoRun /\ Forall server_numbers demoRun.
Proof. split; repeat constructor; eexists; reflexivity. Qed.

Lemma watches_do_not_leak_witness :
  quiet (runs demoRun) /\ delivered (runs demoRun) = [(2%nat, 2, [("b", "x")])] /\
  forall id, is_Some (w_subs (store (runs demoRun)) !! id) -> lost (runs demoRun) id.
Proof.
  assert (Hq : quiet (runs demoRun)).
  { split; [apply map_Forall_to_list|]; vm_compute; repeat constructor; discriminate. }
  split; [exact Hq|]. split; [vm_compute; reflexivity|]. intros id Hid.
  destruct (watches_do_not_leak 1 1 demoStore None demoRun demoStore_ok eq_refl (proj1 demoRun_ok)) as (_ & _ & H).
  apply H; [exact Hq|left; exact Hid].
Defined.

Lemma watch_events_asked_for_witness :
  exists owner : gmap Z (nat * WatchCreateRequest),
    (exists r, owner !! 2 = Some (2%nat, r)) /\ Z.of_nat (length demoRun) <= int64_max.
Proof.
  destruct (watch_events_asked_for 1 1 demoStore None demoRun demoStore_ok eq_refl (proj1 demoRun_ok) (proj2 demoRun_ok)
    ltac:(vm_compute; discriminate)) as (owner & _ & H).
  exists owner. split; [|vm_compute; discriminate].
  destruct (H 2%nat (mkSent 2 (mkWatchResponse (mkHeader 1 1 1 1) 2 false false ""
    [mkPbEvent PUT (Some (mkKeyValue "b" "x" 1 1 1 0)) None]) true) (mkPbEvent PUT (Some (mkKeyValue "b" "x" 1 1 1 0)) None)
    ltac:(vm_compute; reflexivity) ltac:(by apply list_elem_of_singleton)) as (r & Ho & _).
  exists r. exact Ho.
Defined.

(** Stream 2 cancels the watch of stream 1 and makes one of the same ID before the
    goroutine of stream 1 has looked up its channel. *)
Definition stolen : list (Event (MemoryEtcd ShardedMap)) :=
  [EOpen 1; EOpen 2] ++ request 1 (CreateRequest (watchKey "a" 0)) ++
  request 2 (CancelRequest 1) ++ request 2 (CreateRequest (watchKey "secret" 1)) ++
  [ESender 0 true; putEvent "a" "x" 1; putEvent "secret" "y" 2; ESender 0 true].

(** C39: the IDs of watches are shared by all clients: a stream cancels the watch of
    another, makes its own under that ID, and the other stream, which asked for [a]
    only, gets the event of [secret] while the events of [a] go to nobody. *)
Theorem watch_ids_shared :
  delivered (runs stolen) = [(1%nat, 1, [("secret", "y")])] /\
  (forall s r, ERecv s (Some (CreateRequest r)) ∈ stolen -> wc_Key r = "secret" -> s = 2%nat) /\
  (forall id sub, w_subs (store (runs stolen)) !! id = Some sub -> ws_key sub <> "a").
Proof.
  split; [vm_compute; reflexivity|]. split.
  - intros s r Hin Hk. unfold stolen, request in Hin. cbn in Hin.
    repeat (apply elem_of_cons in Hin as [Hin|Hin]; [try discriminate; injection Hin as -> ->; done|]). by apply elem_of_nil in Hin.
  - apply map_Forall_to_list. vm_compute. repeat constructor. discriminate.
Qed.

(** A client names its watch -1: it is made, and refused; when the stream has ended
    it is still there, and with a limit of one no client gets a watch any more. *)
Definition negativeRun : list (Event (MemoryEtcd ShardedMap)) :=
  [EOpen 1] ++ request 1 (CreateRequest (watchKey "a" (-1))) ++ [ERecv 1 None; ERun 1 true; ERun 1 true].

Example negative_id_leaks :
  let st := WatchServer.run 1 1 (NewServer demoStore (Some 1)) negativeRun in
  let st' := WatchServer.run 1 1 st (EOpen 2 :: request 2 (CreateRequest (watchKey "b" 0))) in
  quiet st /\ dom (w_subs (store st)) = {[-1]} /\ dom (wm_watches (watchMgr st)) = {[-1]} /\
  Forall (fun x => wr_Created (sn_resp x) = false /\ wr_CancelReason (sn_resp x) = "failed to create watch"%string) (log st').
Proof.
  cbn zeta. split; [split; [apply map_Forall_to_list|]; vm_compute; repeat constructor; discriminate|].
  split_and!; vm_compute; [reflexivity..|]. repeat constructor.
Qed.

(** The limit is tested before the watch is made: two streams pass it together. *)
Definition overLimit : list (Event (MemoryEtcd ShardedMap)) :=
  [EOpen 1; EOpen 2; ERecv 1 (Some (CreateRequest (watchKey "a" 0))); ERecv 2 (Some (CreateRequest (watchKey "b" 0)))] ++
  mjoin (replicate 6 [ERun 1 true; ERun 2 true]).

Example limit_overrun : size (wm_watches (watchMgr (WatchServer.run 1 1 (NewServer demoStore (Some 1)) overLimit))) = 2%nat.
Proof. vm_compute. reflexivity. Qed.
