(* ===== verification/Program.v ===== *)
(** * Handlers that may halt

    A small monad for code that updates one state, step by step, and may end in
    [log.Fatalf], a panic or the [return] of an event loop; the state reached is
    kept in all cases.  [keeps] and [wp] are the rules to reason about it. *)

From S2P Require Import Prelude.

Inductive Halt := Fatal (why : string) | Panic (why : string) | Returned.

Definition Prog (N A : Type) : Type := N -> N * result Halt A.

#[export] Instance prog_ret N : MRet (Prog N) := fun A x n => (n, Ok x).
#[export] Instance prog_bind N : MBind (Prog N) :=
  fun A B k m n => match m n with (n', Ok x) => k x n' | (n', Err h) => (n', Err h) end.

Definition modify {N} (f : N -> N) : Prog N unit := fun n => (f n, Ok tt).
Definition gets {N A} (f : N -> A) : Prog N A := fun n => (n, Ok (f n)).
Definition halt {N A} (h : Halt) : Prog N A := fun n => (n, Err h).
Definition when {N} (b : bool) (m : Prog N unit) : Prog N unit := if b then m else mret tt.

Lemma bind_bind {N A B C} (m : Prog N A) (k : A -> Prog N B) (h : B -> Prog N C) n :
  ((m ≫= k) ≫= h) n = (m ≫= fun x => k x ≫= h) n.
Proof. unfold mbind, prog_bind. by destruct (m n) as [n' [x|e]]. Qed.

Lemma bind_cong {N A B} (m : Prog N A) (k k' : A -> Prog N B) n :
  (forall x n', k x n' = k' x n') -> (m ≫= k) n = (m ≫= k') n.
Proof. intros Hk. unfold mbind, prog_bind. by destruct (m n) as [n' [x|e]]. Qed.

Lemma bind_ok {N A B} (m : Prog N A) (k : A -> Prog N B) n n' x : m n = (n', Ok x) -> (m ≫= k) n = k x n'.
Proof. intros Hm. unfold mbind, prog_bind. by rewrite Hm. Qed.

(** ** Invariants *)

(** [I] holds after [m], however it ends. *)
Definition keeps {N A} (I : N -> Prop) (m : Prog N A) : Prop := forall n, I n -> I (m n).1.

Create HintDb keeps.

Section keeps.
Context {N : Type} (I : N -> Prop).

Lemma keeps_ret {A} (x : A) : keeps I (mret x).
Proof. by intros n Hn. Qed.

Lemma keeps_bind {A B} (m : Prog N A) (k : A -> Prog N B) :
  keeps I m -> (forall x, keeps I (k x)) -> keeps I (m ≫= k).
Proof.
  intros Hm Hk n Hn. specialize (Hm n Hn). unfold mbind, prog_bind. destruct (m n) as [n' [x|h]]; [by apply Hk|done].
Qed.

Lemma keeps_modify f : (forall n, I n -> I (f n)) -> keeps I (modify f).
Proof. intros Hf n Hn. by apply Hf. Qed.

Lemma keeps_gets {A} (f : N -> A) : keeps I (gets f).
Proof. by intros n Hn. Qed.

Lemma keeps_halt {A} h : keeps I (halt h : Prog N A).
Proof. by intros n Hn. Qed.

Lemma keeps_when b m : keeps I m -> keeps I (when b m).
Proof. intros Hm. destruct b; [done|apply keeps_ret]. Qed.

Lemma keeps_if {A} (b : bool) (m1 m2 : Prog N A) : keeps I m1 -> keeps I m2 -> keeps I (if b then m1 else m2).
Proof. by destruct b. Qed.

End keeps.

#[export] Hint Resolve keeps_ret keeps_bind keeps_gets keeps_halt keeps_when keeps_if : keeps.

(** ** Outcomes *)

(** [m], started in [n], ends with [Q], or halts with [E]. *)
Definition wp {N A} (m : Prog N A) (Q : A -> N -> Prop) (E : Halt -> N -> Prop) (n : N) : Prop :=
  match m n with (n', Ok x) => Q x n' | (n', Err h) => E h n' end.

Section wp.
Context {N : Type}.

Lemma wp_ret {A} (x : A) Q E (n : N) : Q x n -> wp (mret x) Q E n.
Proof. done. Qed.

Lemma wp_bind {A B} (m : Prog N A) (k : A -> Prog N B) Q E n :
  wp m (fun x => wp (k x) Q E) E n -> wp (m ≫= k) Q E n.
Proof. unfold wp, mbind, prog_bind. by destruct (m n) as [n' [x|h]]. Qed.

Lemma wp_modify f (Q : unit -> N -> Prop) E n : Q tt (f n) -> wp (modify f) Q E n.
Proof. done. Qed.

Lemma wp_gets {A} (f : N -> A) (Q : A -> N -> Prop) E n : Q (f n) n -> wp (gets f) Q E n.
Proof. done. Qed.

Lemma wp_halt {A} h Q (E : Halt -> N -> Prop) n : E h n -> wp (halt h : Prog N A) Q E n.
Proof. done. Qed.

Lemma wp_mono {A} (m : Prog N A) (Q Q' : A -> N -> Prop) (E E' : Halt -> N -> Prop) n :
  wp m Q E n -> (forall x n', Q x n' -> Q' x n') -> (forall h n', E h n' -> E' h n') -> wp m Q' E' n.
Proof. unfold wp. destruct (m n) as [n' [x|h]]; auto. Qed.

Lemma wp_keeps {A} (m : Prog N A) (I : N -> Prop) n : keeps I m -> I n -> wp m (fun _ => I) (fun _ => I) n.
Proof. intros Hm Hn. specialize (Hm n Hn). unfold wp. by destruct (m n) as [n' [x|h]]. Qed.

Lemma keeps_wp {A} (m : Prog N A) (I : N -> Prop) : (forall n, I n -> wp m (fun _ => I) (fun _ => I) n) -> keeps I m.
Proof. intros Hw n Hn. specialize (Hw n Hn). unfold wp in Hw. by destruct (m n) as [n' [x|h]]. Qed.

End wp.
