(* ===== verification/RaftNode.v ===== *)
(** * Raft nodes: the code of both engines ([internal/raft])

    A node sits between the proposal channels, the etcd Raft library, the stable
    storage and the commit channel of the store.  [node_memory.go] and
    [node_rocksdb.go] have the same methods but for storage and start-up; the
    common ones are here, over the classes [RaftLibrary] and [LogStorage].  What a
    node sends anywhere is appended to [out]. *)

From S2P Require Import Prelude GoBytes KvTypes MemoryEtcd LeaseRead ReadIndex ProposalBatcher RaftLog Program.
Local Open Scope go_scope.

(** ** What the Raft library exchanges with the node *)

Inductive ConfChangeType := ConfChangeAddNode | ConfChangeRemoveNode | ConfChangeUpdateNode | ConfChangeAddLearnerNode.

Record ConfChange := mkConfChange { cc_ID : Z; cc_Type : ConfChangeType; cc_NodeID : Z; cc_Context : string }.

(** [cc.Unmarshal(data)], whose error is not looked at: what [cc] holds then. *)
Class ConfWire := {
  cw_marshal : ConfChange -> string;
  cw_unmarshal : string -> ConfChange;
  cw_roundtrip cc : cw_unmarshal (cw_marshal cc) = cc;
}.

(** [raftpb.EntryNormal] and [raftpb.EntryConfChange] *)
Definition EntryNormal : Z := 0.
Definition EntryConfChange : Z := 1.

(** A message to a peer: its type, addressee, snapshot, and the rest of it. *)
Record Message := mkMessage { m_Type : Z; m_To : Z; m_Snapshot : Snapshot; m_Body : string }.

Definition MsgSnap : Z := 7.

(** [raft.Ready]; of the soft state only whether the node leads. *)
Record Ready := mkReady {
  rd_SoftState : option bool;
  rd_HardState : HardState;
  rd_Snapshot : Snapshot;
  rd_Entries : list Entry;
  rd_CommittedEntries : list Entry;
  rd_Messages : list Message;
}.

(** [raft.IsEmptyHardState] *)
Definition IsEmptyHardState (st : HardState) : bool := (hs_Term st =? 0) && (hs_Vote st =? 0) && (hs_Commit st =? 0).

(** [raft.Status]; of [Progress] whether each node was active of late. *)
Record LibStatus := mkLibStatus {
  ls_ID : Z; ls_Term : Z; ls_Lead : Z; ls_State : string; ls_Applied : Z; ls_Commit : Z; ls_Progress : list bool;
}.

Inductive LibCall :=
  | Propose (data : string)
  | ProposeConfChange (cc : ConfChange)
  | Tick
  | Advance
  | StepMsg (m : Message)
  | LibTransferLeadership (lead transferee : Z)
  | LibReportUnreachable (id : Z)
  | LibReportSnapshot (id : Z) (failed : bool)
  | StopNode.

Class RaftLibrary (R : Type) := {
  lib_call : R -> LibCall -> R;
  lib_applyConfChange : R -> ConfChange -> R * ConfState;
  lib_status : R -> LibStatus;
}.

(** [raft.Storage] with its writing methods *)
Class LogStorage (L : Type) := {
  ls_setHardState : L -> HardState -> L * option StorageError;
  ls_applySnapshot : L -> Snapshot -> L * option StorageError;
  ls_append : L -> list Entry -> L * option StorageError;
  ls_createSnapshot : L -> Z -> ConfState -> string -> L * result StorageError Snapshot;
  ls_compact : L -> Z -> L * option StorageError;
  ls_snapshot : L -> result StorageError Snapshot;
  ls_initialState : L -> result StorageError (HardState * ConfState);
}.

#[export] Instance rocks_log_storage {DB} `{!ByteDB.ByteDB DB, !RaftWire Entry, !RaftWire HardState, !RaftWire ConfState,
    !RaftWire Snapshot} : LogStorage (RocksDBStorage DB) := {
  ls_setHardState := SetHardState;
  ls_applySnapshot := ApplySnapshot;
  ls_append := Append;
  ls_createSnapshot := CreateSnapshot;
  ls_compact := Compact;
  ls_snapshot := Snapshot_;
  ls_initialState := InitialState;
}.

(** ** The node *)

(** The fields of [rc] that are set at creation and those of [rc.cfg] in use. *)
Record NodeConfig := mkNodeConfig {
  nc_id : Z;
  nc_peers : list string;
  nc_join : bool;
  nc_witness : bool;
  nc_batch : bool;
  nc_leaseRead : bool;
  nc_electionTick : Z;
  nc_heartbeatTick : Z;
  nc_tickInterval : Z;
  nc_clockDrift : Z;
}.

(** The call of [SaveSnap] and, in the in-memory node, the two writes of the
    write-ahead log after it: the first that fails. *)
Inductive SaveOutcome := SaveOk | SnapFileFails | WalSnapshotFails | ReleaseFails.

(** [OReload] is nil on the commit channel; the index of the snapshot it stands
    for is recorded with it. *)
Inductive Output :=
  | OCommit (data : list string)
  | OReload (index : Z)
  | OLib (c : LibCall)
  | OAddPeer (id : Z) (url : string)
  | ORemovePeer (id : Z)
  | OSend (ms : list Message)
  | OSnapFile (sn : Snapshot) (ok : bool)
  | OWalSnapshot (index term : Z) (cs : ConfState) (ok : bool)
  | OWalRelease (index : Z) (ok : bool)
  | OWal (st : HardState) (ents : list Entry) (ok : bool)
  | OStopTransport
  | OStopBatcher
  | OCloseCommit
  | OError
  | OCloseStorage.

Record raftNode (L R : Type) := mkNode {
  cfg : NodeConfig;
  confState : ConfState;
  snapshotIndex : Z;
  appliedIndex : Z;
  node : R;
  raftStorage : L;
  leaseManager : option LeaseManager;
  readIndexManager : option ReadIndexManager;
  readChans : gmap nat Z;
  (** the channels the proposing goroutine reads: whether each is still there *)
  proposeC : bool;
  batchedProposeC : bool;
  confChangeC : bool;
  confChangeCount : Z;
  (** [stopc] is closed *)
  stopc : bool;
  out : list Output;
}.
Arguments mkNode {L R}.
Arguments cfg {L R}. Arguments confState {L R}. Arguments snapshotIndex {L R}. Arguments appliedIndex {L R}.
Arguments node {L R}. Arguments raftStorage {L R}. Arguments leaseManager {L R}. Arguments readIndexManager {L R}.
Arguments readChans {L R}. Arguments proposeC {L R}. Arguments batchedProposeC {L R}. Arguments confChangeC {L R}.
Arguments confChangeCount {L R}. Arguments stopc {L R}. Arguments out {L R}.

Definition defaultSnapshotCount : Z := 10000.
Definition snapshotCatchUpEntriesN : Z := 10000.

(** What the world answers while one event is handled: the time of a renewal,
    which branch the two [select]s with [stopc] take, the store's snapshot, and
    the outcomes of saving a snapshot of the Ready, the Ready itself and a
    snapshot of this node. *)
Record Answers := mkAnswers {
  a_now : Z;
  a_commits : bool;
  a_applied : bool;
  a_getSnapshot : option string;
  a_save : SaveOutcome;
  a_wal : bool;
  a_saveOwn : SaveOutcome;
}.

Section node.
Context {L R : Type}.

(** ** Field updates *)

Definition setConfState (cs : ConfState) (n : raftNode L R) : raftNode L R :=
  mkNode (cfg n) cs (snapshotIndex n) (appliedIndex n) (node n) (raftStorage n) (leaseManager n) (readIndexManager n)
    (readChans n) (proposeC n) (batchedProposeC n) (confChangeC n) (confChangeCount n) (stopc n) (out n).
Definition setIndexes (snap applied : Z) (n : raftNode L R) : raftNode L R :=
  mkNode (cfg n) (confState n) snap applied (node n) (raftStorage n) (leaseManager n) (readIndexManager n)
    (readChans n) (proposeC n) (batchedProposeC n) (confChangeC n) (confChangeCount n) (stopc n) (out n).
Definition setNode (r : R) (n : raftNode L R) : raftNode L R :=
  mkNode (cfg n) (confState n) (snapshotIndex n) (appliedIndex n) r (raftStorage n) (leaseManager n) (readIndexManager n)
    (readChans n) (proposeC n) (batchedProposeC n) (confChangeC n) (confChangeCount n) (stopc n) (out n).
Definition setStorage (s : L) (n : raftNode L R) : raftNode L R :=
  mkNode (cfg n) (confState n) (snapshotIndex n) (appliedIndex n) (node n) s (leaseManager n) (readIndexManager n)
    (readChans n) (proposeC n) (batchedProposeC n) (confChangeC n) (confChangeCount n) (stopc n) (out n).
Definition setLeaseManager (lm : option LeaseManager) (n : raftNode L R) : raftNode L R :=
  mkNode (cfg n) (confState n) (snapshotIndex n) (appliedIndex n) (node n) (raftStorage n) lm (readIndexManager n)
    (readChans n) (proposeC n) (batchedProposeC n) (confChangeC n) (confChangeCount n) (stopc n) (out n).
Definition setReadIndex (rm : option ReadIndexManager) (chans : gmap nat Z) (n : raftNode L R) : raftNode L R :=
  mkNode (cfg n) (confState n) (snapshotIndex n) (appliedIndex n) (node n) (raftStorage n) (leaseManager n) rm
    chans (proposeC n) (batchedProposeC n) (confChangeC n) (confChangeCount n) (stopc n) (out n).
Definition setSources (p b c : bool) (count : Z) (n : raftNode L R) : raftNode L R :=
  mkNode (cfg n) (confState n) (snapshotIndex n) (appliedIndex n) (node n) (raftStorage n) (leaseManager n) (readIndexManager n)
    (readChans n) p b c count (stopc n) (out n).
Definition setStopc (b : bool) (n : raftNode L R) : raftNode L R :=
  mkNode (cfg n) (confState n) (snapshotIndex n) (appliedIndex n) (node n) (raftStorage n) (leaseManager n) (readIndexManager n)
    (readChans n) (proposeC n) (batchedProposeC n) (confChangeC n) (confChangeCount n) b (out n).
Definition addOut (o : Output) (n : raftNode L R) : raftNode L R :=
  mkNode (cfg n) (confState n) (snapshotIndex n) (appliedIndex n) (node n) (raftStorage n) (leaseManager n) (readIndexManager n)
    (readChans n) (proposeC n) (batchedProposeC n) (confChangeC n) (confChangeCount n) (stopc n) (out n ++ [o]).

Definition emit (o : Output) : Prog (raftNode L R) unit := modify (addOut o).

Context `{!RaftLibrary R, !LogStorage L, !BatchJson, !ConfWire, !MapOrder}.

Definition callLib (c : LibCall) : Prog (raftNode L R) unit :=
  modify (fun n => setNode (lib_call (node n) c) n);; emit (OLib c).

(** A call of the storage. *)
Definition storage {A} (f : L -> L * A) : Prog (raftNode L R) A :=
  fun n => let '(s, x) := f (raftStorage n) in (setStorage s n, Ok x).

(** ** Committed entries *)

Definition isWitness (n : raftNode L R) : bool := nc_witness (cfg n).

Definition entriesToApply (ents : list Entry) : Prog (raftNode L R) (list Entry) :=
  match ents with
  | [] => mret []
  | e0 :: _ =>
      applied ← gets appliedIndex;
      if e_Index e0 >? wrap_u64 (applied + 1)
      then halt (Fatal "first index of committed entry should <= progress.appliedIndex+1")
      else
        let skip := wrap_u64 (applied - e_Index e0 + 1) in
        mret (if skip <? Z.of_nat (length ents) then drop (Z.to_nat skip) ents else [])
  end.

(** An entry that changes the membership; false if it removes this node. *)
Definition applyConfEntry (e : Entry) : Prog (raftNode L R) bool :=
  let cc := cw_unmarshal (e_Data e) in
  modify (fun n => let '(r, cs) := lib_applyConfChange (node n) cc in setConfState cs (setNode r n));;
  match cc_Type cc with
  | ConfChangeAddNode =>
      when (negb (String.eqb (cc_Context cc) "")) (emit (OAddPeer (cc_NodeID cc) (cc_Context cc)));; mret true
  | ConfChangeRemoveNode =>
      id ← gets (fun n => nc_id (cfg n));
      if cc_NodeID cc =? wrap_u64 id then mret false
      else emit (ORemovePeer (cc_NodeID cc));; mret true
  | _ => mret true
  end.

(** The proposals of a normal entry. *)
Definition entryData (batched : bool) (e : Entry) : list string :=
  if String.eqb (e_Data e) "" then []
  else if batched then match DecodeBatch (e_Data e) with Ok proposals => proposals | Err _ => [] end
  else [e_Data e].

(** The loop of [publishEntries]; [None] if the node is removed. *)
Fixpoint publishLoop (ents : list Entry) (data : list string) : Prog (raftNode L R) (option (list string)) :=
  match ents with
  | [] => mret (Some data)
  | e :: ents' =>
      if e_Type e =? EntryNormal then
        batched ← gets (fun n => nc_batch (cfg n));
        publishLoop ents' (data ++ entryData batched e)
      else if e_Type e =? EntryConfChange then
        stays ← applyConfEntry e;
        if stays : bool then publishLoop ents' data else mret None
      else publishLoop ents' data
  end.

Fixpoint witnessLoop (ents : list Entry) : Prog (raftNode L R) bool :=
  match ents with
  | [] => mret true
  | e :: ents' =>
      if e_Type e =? EntryConfChange then
        stays ← applyConfEntry e;
        if stays : bool then witnessLoop ents' else mret false
      else witnessLoop ents'
  end.

Definition setApplied (index : Z) : Prog (raftNode L R) unit := modify (fun n => setIndexes (snapshotIndex n) index n).

(** [None] is [(nil, false)]; [Some b] is true with a channel to wait on if [b]. *)
Definition publishEntriesAsWitness (ents : list Entry) (lastIndex : Z) : Prog (raftNode L R) (option bool) :=
  stays ← witnessLoop ents;
  if stays : bool then setApplied lastIndex;; mret (Some false) else mret None.

Definition notifyApplied : Prog (raftNode L R) unit :=
  modify (fun n =>
    match readIndexManager n with
    | Some rm =>
        if nc_leaseRead (cfg n)
        then let '(rm', chans) := NotifyApplied rm (readChans n) (appliedIndex n) in setReadIndex (Some rm') chans n
        else n
    | None => n
    end).

Definition publishEntries (a : Answers) (ents : list Entry) : Prog (raftNode L R) (option bool) :=
  match last ents with
  | None => mret (Some false)
  | Some en =>
      witness ← gets isWitness;
      if witness : bool then publishEntriesAsWitness ents (e_Index en)
      else
        collected ← publishLoop ents [];
        match collected with
        | None => mret None
        | Some [] => setApplied (e_Index en);; notifyApplied;; mret (Some false)
        | Some data =>
            if a_commits a
            then emit (OCommit data);; setApplied (e_Index en);; notifyApplied;; mret (Some true)
            else mret None
        end
  end.

(** ** Snapshots *)

Definition publishSnapshot (snapshotToSave : Snapshot) : Prog (raftNode L R) unit :=
  if IsEmptySnap snapshotToSave then mret tt
  else
    applied ← gets appliedIndex;
    if sn_Index snapshotToSave <=? applied then halt (Fatal "snapshot index should > progress.appliedIndex")
    else
      emit (OReload (sn_Index snapshotToSave));;
      modify (setConfState (sn_ConfState snapshotToSave));;
      modify (setIndexes (sn_Index snapshotToSave) (sn_Index snapshotToSave)).

(** Where the log is cut when a snapshot is taken at [applied]. *)
Definition compactIndexAt (applied : Z) : Z :=
  if applied >? snapshotCatchUpEntriesN then applied - snapshotCatchUpEntriesN else 1.

(** [save] is the node's [saveSnap]: true if it succeeds. *)
Definition maybeTriggerSnapshot (save : Snapshot -> SaveOutcome -> Prog (raftNode L R) bool) (a : Answers)
    (applyDoneC : bool) : Prog (raftNode L R) unit :=
  applied ← gets appliedIndex;
  snapped ← gets snapshotIndex;
  if wrap_u64 (applied - snapped) <=? defaultSnapshotCount then mret tt
  else if applyDoneC && negb (a_applied a) then mret tt
  else
    match a_getSnapshot a with
    | None => halt (Panic "getSnapshot")
    | Some data =>
        cs ← gets confState;
        snap ← storage (fun s => ls_createSnapshot s applied cs data);
        match snap with
        | Err _ => halt (Panic "CreateSnapshot")
        | Ok sn =>
            saved ← save sn (a_saveOwn a);
            if negb saved then halt (Panic "saveSnap")
            else
              err ← storage (fun s => ls_compact s (compactIndexAt applied));
              match err with
              | None | Some ErrCompacted => modify (setIndexes applied applied)
              | Some _ => halt (Panic "Compact")
              end
        end
    end.

(** ** Messages, leases and membership *)

Definition processMessages (n : raftNode L R) (ms : list Message) : list Message :=
  (fun m => if m_Type m =? MsgSnap
            then mkMessage (m_Type m) (m_To m)
                   (mkSnapshot (sn_Data (m_Snapshot m)) (confState n) (sn_Index (m_Snapshot m)) (sn_Term (m_Snapshot m)))
                   (m_Body m)
            else m) <$> ms.

Definition leads (n : raftNode L R) : bool :=
  nc_leaseRead (cfg n) && match leaseManager n with Some lm => isLeader lm | None => false end.

Definition tryRenewLease (now : Z) (n : raftNode L R) : raftNode L R :=
  let progress := ls_Progress (lib_status (node n)) in
  let totalNodes := Z.of_nat (length progress) in
  let activeNodes := Z.of_nat (length (List.filter id progress)) in
  setLeaseManager ((fun lm => (RenewLease now lm activeNodes totalNodes).1) <$> leaseManager n) n.

(** [case <-leaseRenewTicker.C] *)
Definition onRenewTick (now : Z) : Prog (raftNode L R) unit :=
  modify (fun n =>
    if leads n && (length (ls_Progress (lib_status (node n))) =? 1)%nat then tryRenewLease now n else n).

(** A change of role in a Ready. *)
Definition onSoftState (ss : option bool) : Prog (raftNode L R) unit :=
  modify (fun n =>
    match ss with
    | Some leader =>
        if nc_leaseRead (cfg n)
        then setLeaseManager ((if leader : bool then OnBecomeLeader else OnBecomeFollower) <$> leaseManager n) n
        else n
    | None => n
    end).

(** The renewal after the messages of a Ready are sent. *)
Definition onReadyRenew (now : Z) : Prog (raftNode L R) unit :=
  modify (fun n => if leads n then tryRenewLease now n else n).

(** The function given to [StartAutoDetection], and what it does with the result. *)
Definition detectedSize (n : raftNode L R) : Z :=
  let size := length (ls_Progress (lib_status (node n))) in
  Z.of_nat (if (size =? 0)%nat then length (nc_peers (cfg n)) else size).

Definition sendMessages (ms : list Message) : Prog (raftNode L R) unit :=
  modify (fun n => addOut (OSend (processMessages n ms)) n).

(** ** The proposing goroutine *)

Inductive ProposeInput :=
  | PropIn (data : string)
  | PropClosed
  | ConfIn (cc : ConfChange)
  | ConfClosed.

(** The condition of its loop. *)
Definition proposing (n : raftNode L R) : bool :=
  (if nc_batch (cfg n) then batchedProposeC n else proposeC n) && confChangeC n.

(** One round of the loop, or the end of the goroutine. *)
Definition proposeRound (i : ProposeInput) : Prog (raftNode L R) unit :=
  go ← gets proposing;
  if negb go then modify (setStopc true)
  else
    match i with
    | PropIn data => callLib (Propose data)
    | PropClosed =>
        modify (fun n =>
          if nc_batch (cfg n) then setSources (proposeC n) false (confChangeC n) (confChangeCount n) n
          else setSources false (batchedProposeC n) (confChangeC n) (confChangeCount n) n)
    | ConfIn cc =>
        modify (fun n => setSources (proposeC n) (batchedProposeC n) (confChangeC n) (wrap_u64 (confChangeCount n + 1)) n);;
        count ← gets confChangeCount;
        callLib (ProposeConfChange (mkConfChange count (cc_Type cc) (cc_NodeID cc) (cc_Context cc)))
    | ConfClosed => modify (fun n => setSources (proposeC n) (batchedProposeC n) false (confChangeCount n) n)
    end.

(** ** Stopping *)

Definition stopHTTP : Prog (raftNode L R) unit := emit OStopTransport.

Definition writeError : Prog (raftNode L R) unit :=
  stopHTTP;; emit OCloseCommit;; emit OError;; callLib StopNode;; halt Returned.

(** [closeStorage] is the last call of the [stop] of the node on RocksDB. *)
Definition stopNode (closeStorage : Prog (raftNode L R) unit) : Prog (raftNode L R) unit :=
  stopHTTP;;
  hasBatcher ← gets (fun n => nc_batch (cfg n) && negb (isWitness n));
  when hasBatcher (emit OStopBatcher);;
  emit OCloseCommit;; callLib StopNode;; closeStorage;; halt Returned.

(** ** Start-up *)

(** The lease managers, if lease reads are on. *)
Definition leaseManagers (now : Z) (c : NodeConfig) : option LeaseManager * option ReadIndexManager :=
  if nc_leaseRead c then
    let smart := UpdateClusterSize now (NewSmartLeaseConfig now true) (Z.of_nat (length (nc_peers c))) in
    (Some (NewLeaseManager (wrap_i64 (nc_electionTick c * nc_tickInterval c))
             (wrap_i64 (nc_heartbeatTick c * nc_tickInterval c)) (nc_clockDrift c) (Some smart)),
     Some (NewReadIndexManager (Some smart)))
  else (None, None).

(** The peers the transport is told of. *)
Definition addPeers (c : NodeConfig) : list Output :=
  omap (fun p => let i := Z.of_nat p.1 + 1 in if i =? nc_id c then None else Some (OAddPeer i p.2))
    (imap (fun i url => (i, url)) (nc_peers c)).

(** A node as [serveChannels] finds it: its indexes are those of the snapshot in
    the storage. *)
Definition startNode (now : Z) (c : NodeConfig) (s : L) (r : R) : result Halt (raftNode L R) :=
  match ls_snapshot s with
  | Err _ => Err (Panic "Snapshot")
  | Ok snap =>
      let '(lm, rm) := leaseManagers now c in
      Ok (mkNode c (sn_ConfState snap) (sn_Index snap) (sn_Index snap) r s lm rm ∅
            true (nc_batch c && negb (nc_witness c)) true 0 false (addPeers c))
  end.

(** ** The event loop *)

Inductive Event :=
  | ETick
  | ERenewTick
  | EReady (rd : Ready)
  | ETransportError
  | EStopped.

Definition handleEvent (handleReady : Answers -> Ready -> Prog (raftNode L R) unit) (closeStorage : Prog (raftNode L R) unit)
    (a : Answers) (e : Event) : Prog (raftNode L R) unit :=
  match e with
  | ETick => callLib Tick
  | ERenewTick => onRenewTick (a_now a)
  | EReady rd => handleReady a rd
  | ETransportError => writeError
  | EStopped => stopNode closeStorage
  end.

(** ** Calls from outside *)

Definition Process (m : Message) : Prog (raftNode L R) unit := callLib (StepMsg m).
Definition IsIDRemoved (id : Z) : bool := false.
Definition ReportUnreachable (id : Z) : Prog (raftNode L R) unit := callLib (LibReportUnreachable id).
Definition ReportSnapshot (id : Z) (failed : bool) : Prog (raftNode L R) unit := callLib (LibReportSnapshot id failed).
Definition TransferLeadership (targetID : Z) : Prog (raftNode L R) unit := callLib (LibTransferLeadership 0 targetID).
Definition Status (n : raftNode L R) : RaftStatus :=
  let st := lib_status (node n) in
  mkRaftStatus (ls_ID st) (ls_Term st) (ls_Lead st) (ls_State st) (ls_Applied st) (ls_Commit st).
Definition IsStopped (n : raftNode L R) : bool := stopc n.

End node.
