(* ===== verification/RaftNodeMemory.v ===== *)
(** * The Raft node of the in-memory engine ([internal/raft/node_memory.go])

    Entries and hard states go to the write-ahead log of etcd before they go to
    the library's in-memory storage [L], which is filled from it at start-up.
    What etcd's snapshot and log files answer is an argument. *)

From S2P Require Import Prelude GoBytes KvTypes LeaseRead ReadIndex ProposalBatcher RaftLog Program RaftNode.

(** ** Start-up *)

(** What [snapshotter.LoadNewestAvailable] answers. *)
Inductive LoadOutcome := LoadFailed | LoadNoSnapshot | LoadOk (sn : Snapshot).

(** The directory of the log: whether it exists, and what listing its snapshots,
    loading the newest, and reading it from there give. *)
Record WalDir := mkWalDir {
  wd_exists : bool;
  wd_lists : bool;
  wd_load : LoadOutcome;
  wd_read : option (HardState * list Entry);
}.

(** The outer [None] is [log.Fatalf], the inner one a nil snapshot. *)
Definition loadSnapshot (w : WalDir) : option (option Snapshot) :=
  if wd_exists w then
    if wd_lists w then
      match wd_load w with LoadFailed => None | LoadNoSnapshot => Some None | LoadOk sn => Some (Some sn) end
    else None
  else Some (Some emptySnapshot).

Section memory.
Context {L R : Type} `{!RaftLibrary R, !LogStorage L, !BatchJson, !ConfWire, !MapOrder}.

(** [newStorage] is [raft.NewMemoryStorage()]; its errors are not looked at. *)
Definition replayWAL (newStorage : L) (w : WalDir) : option L :=
  snapshot ← loadSnapshot w;
  '(st, ents) ← wd_read w;
  let s1 := match snapshot with Some sn => (ls_applySnapshot newStorage sn).1 | None => newStorage end in
  let s2 := (ls_setHardState s1 st).1 in
  Some (ls_append s2 ents).1.

(** [start] is [raft.RestartNode] on true and [raft.StartNode] on false. *)
Definition startMemory (start : bool -> L -> R) (newStorage : L) (now : Z) (c : NodeConfig) (w : WalDir) :
    result Halt (raftNode L R) :=
  match replayWAL newStorage w with
  | None => Err (Fatal "store")
  | Some s => startNode now c s (start (wd_exists w || nc_join c) s)
  end.

(** ** The event loop *)

(** The snapshot file first, then its record in the log. *)
Definition saveSnapMemory (sn : Snapshot) (o : SaveOutcome) : Prog (raftNode L R) bool :=
  match o with
  | SnapFileFails => emit (OSnapFile sn false);; mret false
  | _ =>
      emit (OSnapFile sn true);;
      match o with
      | WalSnapshotFails => emit (OWalSnapshot (sn_Index sn) (sn_Term sn) (sn_ConfState sn) false);; mret false
      | _ =>
          emit (OWalSnapshot (sn_Index sn) (sn_Term sn) (sn_ConfState sn) true);;
          let released := match o with ReleaseFails => false | _ => true end in
          emit (OWalRelease (sn_Index sn) released);; mret released
      end
  end.

(** [case rd := <-rc.node.Ready()] *)
Definition readyMemory (a : Answers) (rd : Ready) : Prog (raftNode L R) unit :=
  onSoftState (rd_SoftState rd);;
  let hasSnap := negb (IsEmptySnap (rd_Snapshot rd)) in
  when hasSnap (saveSnapMemory (rd_Snapshot rd) (a_save a);; mret tt);;
  emit (OWal (rd_HardState rd) (rd_Entries rd) (a_wal a));;
  when hasSnap (storage (fun s => ls_applySnapshot s (rd_Snapshot rd));; publishSnapshot (rd_Snapshot rd));;
  storage (fun s => ls_append s (rd_Entries rd));;
  sendMessages (rd_Messages rd);;
  onReadyRenew (a_now a);;
  ents ← entriesToApply (rd_CommittedEntries rd);
  published ← publishEntries a ents;
  match published with
  | None => stopNode (mret tt)
  | Some applyDoneC => maybeTriggerSnapshot saveSnapMemory a applyDoneC;; callLib Advance
  end.

(** [serveRaft] up to the listener: the address of this node. *)
Definition serveRaftMemory (n : raftNode L R) : option string :=
  let peerIndex := nc_id (cfg n) - 1 in
  if (peerIndex <? 0) || (peerIndex >=? Z.of_nat (length (nc_peers (cfg n)))) then None
  else nc_peers (cfg n) !! Z.to_nat peerIndex.

End memory.
