(* ===== verification/RaftNodeRocks.v ===== *)
(** * The Raft node of the persistent engine ([internal/raft/node_rocksdb.go])

    The log is [RocksDBStorage], in the database the state machine uses too.  The
    methods [raftNodeRocks] shares with [raftNode] are written twice in the code;
    here they are the definitions of [RaftNode] under their names. *)

From stdpp Require Import pretty.
From S2P Require Import Prelude GoBytes ByteDB KvTypes MemoryEtcd LeaseRead ReadIndex ProposalBatcher RaftLog Program RaftNode RaftNodeMemory.
Local Open Scope go_scope.

Section rocks.
Context {DB R : Type} `{!ByteDB DB, !RaftWire Entry, !RaftWire HardState, !RaftWire ConfState, !RaftWire Snapshot}.
Context `{!RaftLibrary R, !BatchJson, !ConfWire, !MapOrder}.
#[local] Abbreviation raftNodeRocks := (raftNode (RocksDBStorage DB) R).

(** ** Start-up *)

(** [None] is [log.Fatalf]. *)
Definition loadSnapshotRocks (o : LoadOutcome) : option Snapshot :=
  match o with LoadFailed => None | LoadNoSnapshot => Some emptySnapshot | LoadOk sn => Some sn end.

Definition nodeName (id : Z) : string := "node_" +:+ pretty id.

(** The storage is opened and the newest snapshot file put over it. *)
Definition initRocksDBStorage (d : DB) (id : Z) (o : LoadOutcome) : result Halt (RocksDBStorage DB) :=
  match NewRocksDBStorage d (nodeName id) with
  | Err _ => Err (Fatal "failed to create RocksDB storage")
  | Ok s =>
      match loadSnapshotRocks o with
      | None => Err (Fatal "store: error loading snapshot")
      | Some snapshot =>
          if IsEmptySnap snapshot then Ok s
          else match ApplySnapshot s snapshot with
               | (s', None) => Ok s'
               | (_, Some _) => Err (Fatal "failed to apply snapshot")
               end
      end
  end.

(** [start] is [raft.RestartNode] on true and [raft.StartNode] on false. *)
Definition startRocks (start : bool -> RocksDBStorage DB -> R) (now : Z) (c : NodeConfig) (d : DB) (o : LoadOutcome) :
    result Halt raftNodeRocks :=
  s <-! initRocksDBStorage d (nc_id c) o;
  match InitialState s with
  | Err _ => Err (Fatal "store: failed to get initial state")
  | Ok (hardState, _) => startNode now c s (start (negb (IsEmptyHardState hardState) || nc_join c) s)
  end.

(** Who runs the goroutine below. *)
Definition needsInitialSnapshot (c : NodeConfig) (hardState : HardState) : bool :=
  IsEmptyHardState hardState && negb (nc_join c) && negb (nc_witness c).

(** The goroutine that gives a new cluster its first snapshot. *)
Definition createInitialSnapshot (data : option string) : Prog raftNodeRocks unit :=
  snap ← gets (fun n => Snapshot_ (raftStorage n));
  match snap with
  | Ok sn =>
      if IsEmptySnap sn then
        match data with
        | None => mret tt
        | Some data => cs ← gets confState; storage (fun s => CreateSnapshot s 0 cs data);; mret tt
        end
      else mret tt
  | Err _ => mret tt
  end.

(** ** The event loop *)

Definition saveSnapRocks (sn : Snapshot) (o : SaveOutcome) : Prog raftNodeRocks bool :=
  let ok := match o with SnapFileFails => false | _ => true end in
  emit (OSnapFile sn ok);; mret ok.

(** A write of the storage that must succeed. *)
Definition mustStore (why : string) (f : RocksDBStorage DB -> RocksDBStorage DB * option StorageError) : Prog raftNodeRocks unit :=
  err ← storage f;
  match err with None => mret tt | Some _ => halt (Fatal why) end.

(** [case rd := <-rc.node.Ready()] *)
Definition readyRocks (a : Answers) (rd : Ready) : Prog raftNodeRocks unit :=
  onSoftState (rd_SoftState rd);;
  when (negb (IsEmptyHardState (rd_HardState rd)))
    (mustStore "failed to save hard state" (fun s => SetHardState s (rd_HardState rd)));;
  when (negb (IsEmptySnap (rd_Snapshot rd)))
    (mustStore "failed to apply snapshot" (fun s => ApplySnapshot s (rd_Snapshot rd));;
     saved ← saveSnapRocks (rd_Snapshot rd) (a_save a);
     (if saved : bool then mret tt else halt (Fatal "failed to save snapshot"));;
     publishSnapshot (rd_Snapshot rd));;
  when (negb (length (rd_Entries rd) =? 0)%nat)
    (mustStore "failed to append entries" (fun s => Append s (rd_Entries rd)));;
  sendMessages (rd_Messages rd);;
  onReadyRenew (a_now a);;
  ents ← entriesToApply (rd_CommittedEntries rd);
  published ← publishEntries a ents;
  match published with
  | None => stopNode (emit OCloseStorage)
  | Some applyDoneC => maybeTriggerSnapshot saveSnapRocks a applyDoneC;; callLib Advance
  end.

(** [serveRaft] up to the listener; [None] is an index out of range. *)
Definition serveRaftRocks (n : raftNodeRocks) : option string :=
  let peerIndex := nc_id (cfg n) - 1 in
  if peerIndex <? 0 then None else nc_peers (cfg n) !! Z.to_nat peerIndex.

End rocks.

(** ** The methods both nodes have *)

Module Rocks.

Definition raftNodeRocks (DB R : Type) : Type := raftNode (RocksDBStorage DB) R.

Section rocks.
Context {DB R : Type} `{!ByteDB DB, !RaftWire Entry, !RaftWire HardState, !RaftWire ConfState, !RaftWire Snapshot}.
Context `{!RaftLibrary R, !BatchJson, !ConfWire, !MapOrder}.

Definition addPeers : NodeConfig -> list Output := addPeers.
Definition leaseManagers : Z -> NodeConfig -> option LeaseManager * option ReadIndexManager := leaseManagers.
Definition detectedSize : raftNodeRocks DB R -> Z := detectedSize.
Definition startNode : Z -> NodeConfig -> RocksDBStorage DB -> R -> result Halt (raftNodeRocks DB R) := startNode.
Definition entriesToApply : list Entry -> Prog (raftNodeRocks DB R) (list Entry) := entriesToApply.
Definition publishEntries : Answers -> list Entry -> Prog (raftNodeRocks DB R) (option bool) := publishEntries.
Definition publishEntriesAsWitness : list Entry -> Z -> Prog (raftNodeRocks DB R) (option bool) := publishEntriesAsWitness.
Definition publishSnapshot : Snapshot -> Prog (raftNodeRocks DB R) unit := publishSnapshot.
Definition maybeTriggerSnapshot : Answers -> bool -> Prog (raftNodeRocks DB R) unit := maybeTriggerSnapshot saveSnapRocks.
Definition processMessages : raftNodeRocks DB R -> list Message -> list Message := processMessages.
Definition tryRenewLease : Z -> raftNodeRocks DB R -> raftNodeRocks DB R := tryRenewLease.
Definition writeError : Prog (raftNodeRocks DB R) unit := writeError.
Definition stop : Prog (raftNodeRocks DB R) unit := stopNode (emit OCloseStorage).
Definition serveChannels : Answers -> Event -> Prog (raftNodeRocks DB R) unit := handleEvent readyRocks (emit OCloseStorage).
Definition proposeRound : ProposeInput -> Prog (raftNodeRocks DB R) unit := proposeRound.
Definition Process : Message -> Prog (raftNodeRocks DB R) unit := Process.
Definition ReportUnreachable : Z -> Prog (raftNodeRocks DB R) unit := ReportUnreachable.
Definition ReportSnapshot : Z -> bool -> Prog (raftNodeRocks DB R) unit := ReportSnapshot.
Definition TransferLeadership : Z -> Prog (raftNodeRocks DB R) unit := TransferLeadership.
Definition Status : raftNodeRocks DB R -> RaftStatus := Status.
Definition IsStopped : raftNodeRocks DB R -> bool := IsStopped.

End rocks.
End Rocks.
