(* ===== verification/RaftNodeRuns.v ===== *)
(** * Runs of a Raft node

    The event loop, the proposing goroutine and the callers of a node interleaved,
    as a step relation over either engine, and what a node hands to the store: the
    committed log, every proposal once and in order. *)

From S2P Require Import Prelude GoBytes KvTypes LeaseRead ReadIndex ProposalBatcher RaftLog RaftLogRefine Program RaftNode.

(** One engine: its handling of a Ready and the end of its [stop]. *)
Class NodeEngine (L R : Type) := {
  ne_ready : Answers -> Ready -> Prog (raftNode L R) unit;
  ne_close : Prog (raftNode L R) unit;
}.

Section runs.
Context {L R : Type} `{!RaftLibrary R, !LogStorage L, !BatchJson, !ConfWire, !MapOrder, !NodeEngine L R}.
Implicit Types n : raftNode L R.

(** ** Steps *)

Definition halted {A} (r : result Halt A) : option Halt := match r with Ok _ => None | Err h => Some h end.

(** [ok] says which Readys the library produces. *)
Inductive node_step (ok : Ready -> Prop) : raftNode L R * option Halt -> raftNode L R * option Halt -> Prop :=
  | ns_event n a e n' r :
      (forall rd, e = EReady rd -> ok rd) ->
      handleEvent ne_ready ne_close a e n = (n', r) -> node_step ok (n, None) (n', halted r)
  | ns_propose n i n' r : proposeRound i n = (n', r) -> node_step ok (n, None) (n', halted r)
  | ns_call n c n' r : callLib c n = (n', r) -> node_step ok (n, None) (n', halted r)
  | ns_detect n now :
      node_step ok (n, None)
        (setLeaseManager ((fun lm => setSmart lm (fun slc => UpdateClusterSize now slc (detectedSize n))) <$> leaseManager n) n, None)
  | ns_reads n rm chans : node_step ok (n, None) (setReadIndex rm chans n, None).

Definition node_reach (ok : Ready -> Prop) (n0 : raftNode L R) (s : raftNode L R * option Halt) : Prop :=
  rtc (node_step ok) (n0, None) s.

(** ** What the store is given *)

(** The index of the snapshot the store loaded last, and the data since. *)
Definition deliver (acc : Z * list string) (o : Output) : Z * list string :=
  match o with OCommit data => (acc.1, acc.2 ++ data) | OReload i => (i, []) | _ => acc end.

Definition delivered (start : Z) (os : list Output) : Z * list string := fold_left deliver os (start, []).

Definition normalData (batched : bool) (e : Entry) : list string :=
  if e_Type e =? EntryNormal then entryData batched e else [].

(** The proposals of the entries after [lo] up to [hi]. *)
Definition proposals (batched : bool) (lg : list Entry) (lo hi : Z) : list string :=
  concat (normalData batched <$> drop (Z.to_nat lo) (take (Z.to_nat hi) lg)).

(** The Readys of a library whose committed log is (a prefix of) [lg]: committed
    entries are consecutive entries of it. *)
Definition ready_of (lg : list Entry) (rd : Ready) : Prop :=
  (exists k m, rd_CommittedEntries rd = take m (drop k lg)) /\
  0 <= sn_Index (rd_Snapshot rd) < 2 ^ 64 - 1.

Lemma delivered_snoc start os o : delivered start (os ++ [o]) = deliver (delivered start os) o.
Proof. unfold delivered. by rewrite fold_left_app. Qed.

(** The part of a node deliveries depend on. *)
Definition view (start : Z) n : NodeConfig * Z * (Z * list string) := (cfg n, appliedIndex n, delivered start (out n)).

Section view.
Context (start : Z) (v : NodeConfig * Z * (Z * list string)).
Let I n := view start n = v.

Lemma keeps_addOut o : match o with OCommit _ | OReload _ => False | _ => True end -> keeps I (emit o).
Proof.
  intros Ho. apply keeps_modify. unfold I, view. intros n <-. simpl. rewrite delivered_snoc. by destruct o.
Qed.

Lemma keeps_storage {A} (f : L -> L * A) : keeps I (storage f).
Proof. intros n Hn. unfold storage. by destruct (f (raftStorage n)). Qed.

Lemma keeps_callLib c : keeps I (callLib c).
Proof. apply keeps_bind; [by apply keeps_modify|]. intros _. by apply keeps_addOut. Qed.

(** The applied index is part of the view. *)
Lemma keeps_applied {A} (k : Z -> Prog (raftNode L R) A) : keeps I (k v.1.2) -> keeps I (gets appliedIndex ≫= k).
Proof. intros Hk n Hn. specialize (Hk n Hn). unfold I, view in Hn. rewrite <- Hn in Hk. exact Hk. Qed.

Lemma keeps_setIndexes snap : keeps I (modify (setIndexes snap v.1.2)).
Proof. apply keeps_modify. unfold I, view. by intros n <-. Qed.

Hint Resolve keeps_addOut keeps_storage keeps_callLib keeps_setIndexes : keeps.

Lemma keeps_applyConfEntry e : keeps I (applyConfEntry e).
Proof.
  unfold applyConfEntry. apply keeps_bind.
  { apply keeps_modify. intros n Hn. by destruct (lib_applyConfChange (node n) (cw_unmarshal (e_Data e))). }
  intros _. destruct (cc_Type _); auto 6 with keeps.
Qed.

Lemma keeps_witnessLoop ents : keeps I (witnessLoop ents).
Proof.
  induction ents as [|e ents IH]; simpl; [auto with keeps|].
  destruct (e_Type e =? EntryConfChange); [|done]. apply keeps_bind; [apply keeps_applyConfEntry|]. intros []; auto with keeps.
Qed.

Lemma keeps_sendMessages ms : keeps I (sendMessages ms).
Proof. apply keeps_modify. unfold I, view. intros n <-. simpl. by rewrite delivered_snoc. Qed.

Lemma keeps_tryRenew now n : I n -> I (tryRenewLease now n).
Proof. done. Qed.

Lemma keeps_onSoftState ss : keeps I (onSoftState ss).
Proof. apply keeps_modify. intros n Hn. destruct ss; [|done]. by destruct (nc_leaseRead (cfg n)). Qed.

Lemma keeps_onReadyRenew now : keeps I (onReadyRenew now).
Proof. apply keeps_modify. intros n Hn. by destruct (leads n). Qed.

Lemma keeps_onRenewTick now : keeps I (onRenewTick now).
Proof. apply keeps_modify. intros n Hn. by destruct (leads n && _). Qed.

Lemma keeps_maybeTriggerSnapshot save a done :
  (forall sn o, keeps I (save sn o)) -> keeps I (maybeTriggerSnapshot save a done).
Proof.
  intros Hs. unfold maybeTriggerSnapshot. apply keeps_applied. set (applied := v.1.2).
  apply keeps_bind; [auto with keeps|]. intros snapped. apply keeps_if; [auto with keeps|]. apply keeps_if; [auto with keeps|].
  destruct (a_getSnapshot a) as [data|]; [|auto with keeps].
  apply keeps_bind; [auto with keeps|]. intros cs. apply keeps_bind; [auto with keeps|]. intros [sn|e]; [|auto with keeps].
  apply keeps_bind; [auto with keeps|]. intros saved. apply keeps_if; [auto with keeps|].
  apply keeps_bind; [auto with keeps|]. intros [[]|]; auto with keeps.
Qed.

Lemma keeps_stop close : keeps I close -> keeps I (stopNode close).
Proof. intros Hc. unfold stopNode, stopHTTP. auto 12 with keeps. Qed.

Lemma keeps_writeError : keeps I writeError.
Proof. unfold writeError, stopHTTP. auto 12 with keeps. Qed.

Lemma keeps_proposeRound i : keeps I (proposeRound i).
Proof.
  unfold proposeRound. apply keeps_bind; [auto with keeps|]. intros go. apply keeps_if; [by apply keeps_modify|].
  destruct i.
  - auto with keeps.
  - apply keeps_modify. intros n Hn. by destruct (nc_batch (cfg n)).
  - apply keeps_bind; [by apply keeps_modify|]. auto with keeps.
  - by apply keeps_modify.
Qed.

(** The proposals collected are those of the entries. *)
Lemma publishLoop_spec ents : forall data n, I n ->
  wp (publishLoop ents data)
    (fun x n' => I n' /\ (x = None \/ x = Some (data ++ concat (normalData (nc_batch v.1.1) <$> ents)))) (fun _ _ => False) n.
Proof.
  induction ents as [|e ents IH]; intros data n Hn; simpl.
  { apply wp_ret. split; [done|]. right. by rewrite app_nil_r. }
  unfold normalData at 1. destruct (Z.eqb_spec (e_Type e) EntryNormal) as [Ht|Ht].
  - apply wp_bind, wp_gets. replace (nc_batch (cfg n)) with (nc_batch v.1.1) by (unfold I, view in Hn; by rewrite <- Hn).
    eapply wp_mono; [by apply IH| |done]. intros x n' [Hn' Hx]. split; [done|]. by rewrite app_assoc.
  - assert (Hrest : forall n, I n -> wp (publishLoop ents data)
      (fun x n' => I n' /\ (x = None \/ x = Some (data ++ [] ++ concat (normalData (nc_batch v.1.1) <$> ents)))) (fun _ _ => False) n).
    { intros n' Hn'. by apply IH. }
    destruct (e_Type e =? EntryConfChange); [|by apply Hrest].
    apply wp_bind. pose proof (keeps_applyConfEntry e n Hn) as Hk.
    assert (Hh : exists b, (applyConfEntry e n).2 = Ok b).
    { unfold applyConfEntry. generalize (cw_unmarshal (e_Data e)). intros cc. unfold mbind, prog_bind, modify, mret, prog_ret, gets, emit, when.
      destruct (cc_Type cc); [destruct (negb _)| |..]; simpl; try destruct (_ =? _); by eexists. }
    destruct Hh as [b Hb]. unfold wp at 1. destruct (applyConfEntry e n) as [n' r]. simpl in Hb, Hk. subst r.
    destruct b; [by apply Hrest|]. apply wp_ret. split; [done|by left].
Qed.

Lemma keeps_notifyApplied : keeps I notifyApplied.
Proof.
  apply keeps_modify. intros n Hn. destruct (readIndexManager n) as [rm|]; [|done].
  destruct (nc_leaseRead (cfg n)); [|done]. by destruct (NotifyApplied rm (readChans n) (appliedIndex n)).
Qed.

End view.

(** ** Following the log *)

Definition wf_committed (lg : list Entry) : Prop := numbered 1 lg /\ Z.of_nat (length lg) + 1 < 2 ^ 64.

(** What the store of a node should have got; a witness gives it nothing. *)
Definition expected (c : NodeConfig) (lg : list Entry) (lo hi : Z) : list string :=
  if nc_witness c then [] else proposals (nc_batch c) lg lo hi.

Record Follows (start : Z) (c : NodeConfig) (lg : list Entry) n : Prop := {
  fo_cfg : cfg n = c;
  fo_range : 0 <= (delivered start (out n)).1 <= appliedIndex n;
  fo_u64 : appliedIndex n + 1 < 2 ^ 64;
  fo_data : (delivered start (out n)).2 = expected c lg (delivered start (out n)).1 (appliedIndex n);
}.

Lemma Follows_same start c lg n n' : Follows start c lg n -> view start n' = view start n -> Follows start c lg n'.
Proof. intros [Hc Hr Hu Hd] Hv. injection Hv as Ec Ea Eo. by split; rewrite ?Ec, ?Ea, ?Eo. Qed.

Lemma Follows_view start c lg {A} (m : Prog (raftNode L R) A) :
  (forall v, keeps (fun n => view start n = v) m) -> keeps (Follows start c lg) m.
Proof. intros Hm n Hn. eapply Follows_same; [done|]. by apply Hm. Qed.

(** [lg[lo:hi]] *)
Definition segment (lg : list Entry) (lo hi : Z) : list Entry := drop (Z.to_nat lo) (take (Z.to_nat hi) lg).

Lemma segment_empty lg lo : segment lg lo lo = [].
Proof. unfold segment. apply drop_ge. rewrite length_take. lia. Qed.

Lemma segment_app lg lo mid hi : 0 <= lo <= mid -> mid <= hi -> segment lg lo hi = segment lg lo mid ++ segment lg mid hi.
Proof.
  intros Hlo Hhi. unfold segment.
  rewrite <- (take_drop (Z.to_nat mid) (take (Z.to_nat hi) lg)) at 1. rewrite take_take, Nat.min_l by lia.
  destruct (decide (Z.to_nat mid <= length lg)%nat) as [Hl|Hl].
  - rewrite drop_app_le by (rewrite length_take; lia). done.
  - rewrite (drop_ge (take (Z.to_nat hi) lg) (Z.to_nat mid)) by (rewrite length_take; lia). by rewrite !app_nil_r.
Qed.

Lemma proposals_segment batched lg lo hi : proposals batched lg lo hi = concat (normalData batched <$> segment lg lo hi).
Proof. done. Qed.

Lemma proposals_app batched lg lo mid hi : 0 <= lo <= mid -> mid <= hi ->
  proposals batched lg lo hi = proposals batched lg lo mid ++ concat (normalData batched <$> segment lg mid hi).
Proof. intros Hlo Hhi. by rewrite !proposals_segment, (segment_app lg lo mid hi), fmap_app, concat_app. Qed.

Lemma last_segment lg lo hi en : numbered 1 lg -> 0 <= lo -> hi <= Z.of_nat (length lg) ->
  last (segment lg lo hi) = Some en -> e_Index en = hi /\ lo < hi.
Proof.
  intros Hn Hlo Hhi Hl. rewrite last_lookup in Hl. unfold segment in *.
  assert (Hlen : length (drop (Z.to_nat lo) (take (Z.to_nat hi) lg)) = (Z.to_nat hi - Z.to_nat lo)%nat).
  { rewrite length_drop, length_take. lia. }
  rewrite Hlen in Hl. destruct (decide (lo < hi)) as [Hlt|].
  - rewrite lookup_drop in Hl. apply lookup_take_Some in Hl as [Hl _]. apply Hn in Hl. split; [|done]. lia.
  - rewrite drop_ge in Hl by (rewrite length_take; lia). done.
Qed.

(** Only entries that were not applied are left, and none is missing. *)
Lemma entriesToApply_spec lg k m n :
  wf_committed lg -> 0 <= appliedIndex n -> appliedIndex n + 1 < 2 ^ 64 ->
  wp (entriesToApply (take m (drop k lg)))
    (fun ents n' => n' = n /\ (ents = [] \/ exists hi, appliedIndex n <= hi <= Z.of_nat (length lg) /\ ents = segment lg (appliedIndex n) hi))
    (fun _ n' => n' = n) n.
Proof.
  intros [Hn Hlen] Ha Hu. unfold entriesToApply. destruct (take m (drop k lg)) as [|e0 es] eqn:E.
  { apply wp_ret. split; [done|by left]. }
  assert (He0 : lg !! k = Some e0).
  { assert (Hl : take m (drop k lg) !! 0%nat = Some e0) by by rewrite E.
    apply lookup_take_Some in Hl as [Hl _]. by rewrite lookup_drop, Nat.add_0_r in Hl. }
  apply wp_bind, wp_gets. rewrite (wrap_u64_id (_ + 1)) by (unfold_ints; lia). rewrite (Hn _ _ He0).
  assert (Hk : (k < length lg)%nat) by by eapply lookup_lt_Some.
  destruct (Z.gtb_spec (1 + Z.of_nat k) (appliedIndex n + 1)) as [Hgt|Hle]; [reflexivity|].
  rewrite wrap_u64_id by (unfold_ints; lia). cbn zeta. apply wp_ret. split; [done|].
  destruct (Z.ltb_spec (appliedIndex n - (1 + Z.of_nat k) + 1) (Z.of_nat (length (e0 :: es)))) as [Hlt|]; [|by left]. right.
  assert (Hl : length (e0 :: es) = Nat.min m (length lg - k)) by (by rewrite <- E, length_take, length_drop).
  exists (Z.of_nat (Nat.min (k + m) (length lg))). split; [lia|]. rewrite <- E.
  unfold segment. rewrite take_drop_commute, drop_drop. f_equal; [lia|].
  destruct (decide (k + m <= length lg)%nat).
  - by rewrite Nat2Z.id, Nat.min_l by lia.
  - rewrite !take_ge by lia. done.
Qed.

Lemma wp_view start {A} (m : Prog (raftNode L R) A) n :
  (forall v, keeps (fun n => view start n = v) m) ->
  wp m (fun _ n' => view start n' = view start n) (fun _ n' => view start n' = view start n) n.
Proof. intros Hm. by apply (wp_keeps m (fun n' => view start n' = view start n)). Qed.

(** The applied index moves to [hi] with the data up to there delivered. *)
Lemma Follows_applied start c lg n n' hi snap :
  Follows start c lg n -> appliedIndex n <= hi -> hi + 1 < 2 ^ 64 -> cfg n' = c ->
  delivered start (out n') = ((delivered start (out n)).1, expected c lg (delivered start (out n)).1 hi) ->
  Follows start c lg (setIndexes snap hi n').
Proof.
  intros [Hc Hr Hu Hd] Hhi Hu' Hc' Hd'. split; cbn [setIndexes cfg appliedIndex out]; rewrite ?Hd'; [done| |lia|done].
  cbn [fst]. lia.
Qed.

Lemma Follows_notify start c lg : keeps (Follows start c lg) notifyApplied.
Proof. apply Follows_view, keeps_notifyApplied. Qed.

Lemma expected_app start c lg n hi : Follows start c lg n -> appliedIndex n <= hi ->
  expected c lg (delivered start (out n)).1 hi =
    (delivered start (out n)).2 ++ (if nc_witness c then [] else concat (normalData (nc_batch c) <$> segment lg (appliedIndex n) hi)).
Proof.
  intros [Hc Hr Hu Hd] Hhi. rewrite Hd. unfold expected. destruct (nc_witness c); [done|]. by apply proposals_app.
Qed.

Lemma publishEntries_follows start c lg a ents n :
  wf_committed lg -> Follows start c lg n ->
  (ents = [] \/ exists hi, appliedIndex n <= hi <= Z.of_nat (length lg) /\ ents = segment lg (appliedIndex n) hi) ->
  wp (publishEntries a ents) (fun _ => Follows start c lg) (fun _ => Follows start c lg) n.
Proof.
  intros Hwf Hn Hents. pose proof Hn as [Hc Hr Hu Hd]. unfold publishEntries.
  destruct (last ents) as [en|] eqn:El; [|by apply wp_ret].
  destruct Hents as [->|(hi & Hhi & ->)]; [done|].
  apply last_segment in El as [Hei Hlt]; [|apply Hwf|lia|lia]. rewrite Hei. clear en Hei.
  pose proof (expected_app start c lg n hi Hn ltac:(lia)) as Hexp.
  assert (Hlen : hi + 1 < 2 ^ 64) by (destruct Hwf; lia).
  assert (Hset : forall n', view start n' = (c, appliedIndex n, delivered start (out n)) ->
    expected c lg (delivered start (out n)).1 hi = (delivered start (out n)).2 -> Follows start c lg (setIndexes (snapshotIndex n') hi n')).
  { intros n' Hv Hsame. injection Hv as Hcfg _ Hout. apply (Follows_applied start c lg n); [done|lia|done|done|].
    rewrite Hsame. rewrite Hout. by destruct (delivered start (out n)). }
  assert (Hnow : view start n = (c, appliedIndex n, delivered start (out n))) by (unfold view; by rewrite Hc).
  apply wp_bind, wp_gets. unfold isWitness. rewrite Hc. destruct (nc_witness c) eqn:Hw.
  - unfold publishEntriesAsWitness. apply wp_bind.
    eapply wp_mono; [apply wp_view; intros v; apply keeps_witnessLoop|..]; cbn beta; rewrite Hnow.
    + intros [] n' Hv.
      * apply wp_bind, wp_modify, wp_ret. apply Hset; [done|]. by rewrite Hexp, app_nil_r.
      * apply wp_ret. eapply Follows_same; [exact Hn|]. by rewrite Hnow.
    + intros h n' Hv. eapply Follows_same; [exact Hn|]. by rewrite Hnow.
  - apply wp_bind. eapply wp_mono; [by apply (publishLoop_spec start (view start n))| |done].
    cbn beta. rewrite Hnow. cbn [fst app]. intros x n' [Hv Hx]. destruct Hx as [->| ->].
    { apply wp_ret. eapply Follows_same; [exact Hn|]. by rewrite Hnow. }
    destruct (concat _) as [|d ds] eqn:Eds.
    + apply wp_bind, wp_modify, wp_bind. eapply wp_mono; [apply (wp_keeps _ _ _ (Follows_notify start c lg))|..]; try done.
      apply Hset; [done|]. by rewrite Hexp, app_nil_r.
    + destruct (a_commits a); [|apply wp_ret; eapply Follows_same; [exact Hn|]; by rewrite Hnow].
      apply wp_bind, wp_modify, wp_bind, wp_modify, wp_bind.
      eapply wp_mono; [apply (wp_keeps _ _ _ (Follows_notify start c lg))|..]; try done.
      injection Hv as Hcfg _ Hout. apply (Follows_applied start c lg n); [done|lia|done|done|].
      cbn [addOut out]. rewrite delivered_snoc, Hout, Hexp. done.
Qed.

(** Handling committed entries of the log, and then anything that follows it. *)
Lemma keeps_publish start c lg a ces (k : option bool -> Prog (raftNode L R) unit) :
  wf_committed lg -> (exists i m, ces = take m (drop i lg)) -> (forall x, keeps (Follows start c lg) (k x)) ->
  keeps (Follows start c lg) (ents ← entriesToApply ces; published ← publishEntries a ents; k published).
Proof.
  intros Hwf (i & m & ->) Hk. apply keeps_wp. intros n Hn. pose proof Hn as [Hc Hr Hu Hd].
  apply wp_bind. eapply wp_mono; [by apply (entriesToApply_spec lg i m n); [done|lia|]| |by intros h n' ->].
  cbn beta. intros ents n' [-> Hents]. apply wp_bind. eapply wp_mono; [by apply publishEntries_follows| |done].
  cbn beta. intros x n' Hn'. by apply wp_keeps.
Qed.

Lemma keeps_publishSnapshot start c lg sn : wf_committed lg -> 0 <= sn_Index sn < 2 ^ 64 - 1 ->
  keeps (Follows start c lg) (publishSnapshot sn).
Proof.
  intros Hwf Hsn. unfold publishSnapshot. apply keeps_if; [auto with keeps|]. intros n [Hc Hr Hu Hd].
  unfold mbind, prog_bind, gets. destruct (_ <=? _); [done|]. unfold emit, modify. simpl.
  split; simpl; rewrite ?delivered_snoc; simpl; [done|lia|lia|].
  unfold expected. rewrite proposals_segment, segment_empty. by destruct (nc_witness c).
Qed.

End runs.

(** ** Engines *)

(** An engine hands on what is committed: its Ready handler follows the log, its
    [stop] delivers nothing. *)
Class NodeEngineLaws (L R : Type) `{!RaftLibrary R, !LogStorage L, !BatchJson, !ConfWire, !MapOrder, !NodeEngine L R} := {
  ne_ready_follows start c lg a rd :
    wf_committed lg -> ready_of lg rd -> keeps (Follows (L := L) (R := R) start c lg) (ne_ready a rd);
  ne_close_view start v : keeps (fun n : raftNode L R => view start n = v) ne_close;
}.

Section reach.
Context {L R : Type} `{NodeEngineLaws L R}.
Implicit Types n : raftNode L R.

Lemma handleEvent_follows start c lg a e :
  wf_committed lg -> (forall rd, e = EReady rd -> ready_of lg rd) ->
  keeps (Follows start c lg) (handleEvent (L := L) (R := R) ne_ready ne_close a e).
Proof.
  intros Hwf Hrd. destruct e; simpl.
  - apply Follows_view. intros v. apply keeps_callLib.
  - apply Follows_view. intros v. apply keeps_onRenewTick.
  - apply ne_ready_follows; auto.
  - apply Follows_view. intros v. apply keeps_writeError.
  - apply Follows_view. intros v. apply keeps_stop, ne_close_view.
Qed.

Lemma node_step_follows start c lg s s' :
  wf_committed lg -> node_step (ready_of lg) s s' -> Follows start c lg s.1 -> Follows start c lg s'.1.
Proof.
  intros Hwf Hs Hn. destruct Hs as [n a e n' r Hok He|n i n' r He|n cl n' r He|n now|n rm chans]; simpl in *.
  - pose proof (handleEvent_follows start c lg a e Hwf Hok n Hn) as Hk. by rewrite He in Hk.
  - assert (Hk : keeps (Follows start c lg) (proposeRound (L := L) (R := R) i)).
    { apply Follows_view. intros v. apply keeps_proposeRound. }
    specialize (Hk n Hn). by rewrite He in Hk.
  - assert (Hk : keeps (Follows start c lg) (callLib (L := L) (R := R) cl)).
    { apply Follows_view. intros v. apply keeps_callLib. }
    specialize (Hk n Hn). by rewrite He in Hk.
  - by eapply Follows_same.
  - by eapply Follows_same.
Qed.

Lemma startNode_follows now c (s : L) (r : R) lg n :
  startNode now c s r = Ok n -> 0 <= appliedIndex n < 2 ^ 64 - 1 -> Follows (appliedIndex n) c lg n.
Proof.
  unfold startNode. intros Hs Ha. destruct (ls_snapshot s) as [snap|]; [|done].
  destruct (leaseManagers now c) as [lm rm]. simplify_eq. simpl in *.
  assert (Hd : delivered (sn_Index snap) (addPeers c) = (sn_Index snap, [])).
  { unfold addPeers. generalize (imap (fun i url => (i, url)) (nc_peers c)). intros l.
    unfold delivered. induction l as [|p l IH]; [done|]. cbn. destruct (_ =? _); [exact IH|]. exact IH. }
  split; simpl; rewrite ?Hd; simpl; [done|lia|lia|].
  unfold expected. rewrite proposals_segment, segment_empty. by destruct (nc_witness c).
Qed.

Lemma node_reach_follows now c (s : L) (r : R) lg n0 st :
  wf_committed lg -> startNode now c s r = Ok n0 -> 0 <= appliedIndex n0 < 2 ^ 64 - 1 ->
  node_reach (ready_of lg) n0 st -> Follows (appliedIndex n0) c lg st.1.
Proof.
  intros Hwf Hs Ha Hr. pose proof (startNode_follows now c s r lg n0 Hs Ha) as Hn.
  remember (appliedIndex n0) as start eqn:E. clear E Hs Ha. unfold node_reach in Hr.
  change n0 with (n0, @None Halt).1 in Hn. revert Hn Hr. generalize (n0, @None Halt). intros s0 Hn Hr.
  induction Hr as [s0|s0 s1 s2 Hstep _ IH]; [done|]. apply IH. by eapply node_step_follows.
Qed.

(** C9: a data node, whatever its engine and however its event loop, the proposing
    goroutine and the callers interleave, even if it stops or dies: since the
    store loaded its last snapshot it was given the proposals of exactly the
    committed entries after that snapshot up to [appliedIndex], each once and in
    log order. *)
Theorem node_publishes_log now c (s : L) (r : R) lg n0 n h
    (Hwf : wf_committed lg) (Hs : startNode now c s r = Ok n0) (Ha : 0 <= appliedIndex n0 < 2 ^ 64 - 1)
    (Hw : nc_witness c = false) (Hr : node_reach (ready_of lg) n0 (n, h)) :
  let loaded := (delivered (appliedIndex n0) (out n)).1 in
  loaded <= appliedIndex n /\
  (delivered (appliedIndex n0) (out n)).2 = proposals (nc_batch c) lg loaded (appliedIndex n).
Proof.
  pose proof (node_reach_follows now c s r lg n0 (n, h) Hwf Hs Ha Hr) as [_ Hrange _ Hd]. simpl in *.
  split; [lia|]. rewrite Hd. unfold expected. by rewrite Hw.
Qed.

End reach.
