(* ===== verification/RaftNodeTheorems.v ===== *)
(** * Properties of the Raft nodes

    Both engines hand the committed log on; what the batcher of a leader sent
    arrives as it was proposed; the persistent node stores before it sends; what
    snapshots keep of the log; witnesses. *)

From S2P Require Import Prelude GoBytes ByteDB KvTypes LeaseRead ReadIndex ProposalBatcher RaftLog RaftLogRefine.
From S2P Require Import Program RaftNode RaftNodeMemory RaftNodeRocks RaftNodeRuns.

(** ** The engines *)

Section memory.
Context {L R : Type} `{!RaftLibrary R, !LogStorage L, !BatchJson, !ConfWire, !MapOrder}.

Definition memoryEngine : NodeEngine L R := {| ne_ready := readyMemory; ne_close := mret tt |}.

Lemma keeps_saveSnapMemory start v sn o : keeps (fun n : raftNode L R => view start n = v) (saveSnapMemory sn o).
Proof.
  unfold saveSnapMemory. destruct o; repeat (apply keeps_bind; [by apply keeps_addOut|intros _]); auto with keeps.
Qed.

#[export] Instance memoryEngine_laws : NodeEngineLaws L R (NodeEngine0 := memoryEngine).
Proof.
  split.
  2:{ intros. apply keeps_ret. }
  intros start c lg a rd Hwf [Hc Hsn]. unfold memoryEngine, ne_ready, readyMemory.
  assert (Hv : forall A (m : Prog (raftNode L R) A), (forall v, keeps (fun n => view start n = v) m) -> keeps (Follows start c lg) m)
    by (intros; by apply Follows_view).
  apply keeps_bind; [apply Hv; intros; apply keeps_onSoftState|intros _].
  apply keeps_bind.
  { apply keeps_when, keeps_bind; [apply Hv; intros; apply keeps_saveSnapMemory|auto with keeps]. }
  intros _. apply keeps_bind; [apply Hv; intros; by apply keeps_addOut|intros _].
  apply keeps_bind.
  { apply keeps_when, keeps_bind; [apply Hv; intros; apply keeps_storage|intros _]. by apply keeps_publishSnapshot. }
  intros _. apply keeps_bind; [apply Hv; intros; apply keeps_storage|intros _].
  apply keeps_bind; [apply Hv; intros; apply keeps_sendMessages|intros _].
  apply keeps_bind; [apply Hv; intros; apply keeps_onReadyRenew|intros _].
  apply (keeps_publish start c lg a (rd_CommittedEntries rd)
    (fun published => match published with
     | None => stopNode (mret tt)
     | Some applyDoneC => maybeTriggerSnapshot saveSnapMemory a applyDoneC;; callLib Advance
     end)); [done|done|].
  intros [done_|]; apply Hv; intros v; [|by apply keeps_stop; auto with keeps].
  apply keeps_bind; [apply keeps_maybeTriggerSnapshot; intros; apply keeps_saveSnapMemory|intros _; apply keeps_callLib].
Qed.

End memory.

Section rocks.
Context {DB R : Type} `{!ByteDB DB, !RaftWire Entry, !RaftWire HardState, !RaftWire ConfState, !RaftWire Snapshot}.
Context `{!RaftLibrary R, !BatchJson, !ConfWire, !MapOrder}.

Definition rocksEngine : NodeEngine (RocksDBStorage DB) R := {| ne_ready := readyRocks; ne_close := emit OCloseStorage |}.

Lemma keeps_saveSnapRocks start v sn o : keeps (fun n : raftNode (RocksDBStorage DB) R => view start n = v) (saveSnapRocks sn o).
Proof. unfold saveSnapRocks. apply keeps_bind; [by apply keeps_addOut|auto with keeps]. Qed.

Lemma keeps_mustStore start v why f : keeps (fun n : raftNode (RocksDBStorage DB) R => view start n = v) (mustStore why f).
Proof. unfold mustStore. apply keeps_bind; [apply keeps_storage|]. intros []; auto with keeps. Qed.

#[export] Instance rocksEngine_laws : NodeEngineLaws (RocksDBStorage DB) R (NodeEngine0 := rocksEngine).
Proof.
  split.
  2:{ intros. by apply keeps_addOut. }
  intros start c lg a rd Hwf [Hc Hsn]. unfold rocksEngine, ne_ready, readyRocks.
  assert (Hv : forall A (m : Prog (raftNode (RocksDBStorage DB) R) A),
    (forall v, keeps (fun n => view start n = v) m) -> keeps (Follows start c lg) m) by (intros; by apply Follows_view).
  apply keeps_bind; [apply Hv; intros; apply keeps_onSoftState|intros _].
  apply keeps_bind; [apply keeps_when, Hv; intros; apply keeps_mustStore|intros _].
  apply keeps_bind.
  { apply keeps_when. apply keeps_bind; [apply Hv; intros; apply keeps_mustStore|intros _].
    apply keeps_bind; [apply Hv; intros; apply keeps_saveSnapRocks|intros saved].
    apply keeps_bind; [apply keeps_if; auto with keeps|intros _]. by apply keeps_publishSnapshot. }
  intros _. apply keeps_bind; [apply keeps_when, Hv; intros; apply keeps_mustStore|intros _].
  apply keeps_bind; [apply Hv; intros; apply keeps_sendMessages|intros _].
  apply keeps_bind; [apply Hv; intros; apply keeps_onReadyRenew|intros _].
  apply (keeps_publish start c lg a (rd_CommittedEntries rd)
    (fun published => match published with
     | None => stopNode (emit OCloseStorage)
     | Some applyDoneC => maybeTriggerSnapshot saveSnapRocks a applyDoneC;; callLib Advance
     end)); [done|done|].
  intros [done_|]; apply Hv; intros v; [|by apply keeps_stop, keeps_addOut].
  apply keeps_bind; [apply keeps_maybeTriggerSnapshot; intros; apply keeps_saveSnapRocks|intros _; apply keeps_callLib].
Qed.

End rocks.

(** ** From the batcher of a leader to the stores *)

Section delivery.
Context {L R : Type} `{NodeEngineLaws L R}.

(** What was proposed: the data of the normal entries that have some. *)
Definition proposed (lg : list Entry) : list string :=
  e_Data <$> List.filter (fun e => (e_Type e =? EntryNormal) && negb (String.eqb (e_Data e) "")) lg.

Lemma proposed_decoded lg : forall decoded,
  Forall2 (fun d ps => DecodeBatch d = Ok ps) (proposed lg) decoded -> concat (normalData true <$> lg) = concat decoded.
Proof.
  induction lg as [|e lg IH]; intros decoded Hd; [by apply Forall2_nil_inv_l in Hd as ->|].
  rewrite fmap_cons. cbn [concat]. unfold proposed in Hd. cbn [List.filter] in Hd. unfold normalData at 1, entryData.
  destruct (e_Type e =? EntryNormal); cbn [andb] in Hd; [|by apply IH].
  destruct (String.eqb (e_Data e) ""); cbn [negb] in Hd; [by apply IH|].
  rewrite fmap_cons in Hd. apply Forall2_cons_inv_l in Hd as (ps & decoded' & Hps & Hd & ->). cbn [concat]. by rewrite Hps, (IH decoded').
Qed.

Lemma proposals_prefix batched lg hi : proposals batched lg 0 hi `prefix_of` concat (normalData batched <$> lg).
Proof.
  unfold proposals. exists (concat (normalData batched <$> drop (Z.to_nat hi) lg)).
  rewrite <- concat_app, <- fmap_app. change (drop (Z.to_nat 0) ?l) with l. by rewrite take_drop.
Qed.

(** C24: batches of a leader, decoded on every node.  If the data in the committed
    log are what a running batcher sent, of proposals that are not empty and do not
    themselves read as a batch, then these proposals, but for those still in the
    buffer, were cut into batches, and the store of any node with batching on that
    never loaded a snapshot has been given, in order, a prefix of what the batches
    leave of them, and all of it once the node has applied the whole log: a
    proposal sent alone is unchanged, of one in a larger batch each byte that is not
    UTF-8 is replaced.  Proposals of text all arrive as they were. *)
Theorem batched_proposals_delivered config (b : ProposalBatcher) now c (s : L) (r : R) lg n0 n h
    (Hwf : wf_committed lg) (Hs : startNode now c s r = Ok n0) (Ha : appliedIndex n0 = 0)
    (Hw : nc_witness c = false) (Hbatch : nc_batch c = true) (Hr : node_reach (ready_of lg) n0 (n, h))
    (Hload : (delivered 0 (out n)).1 = 0)
    (Hb : b_reachable config b) (Hstop : stopped b = false) (Hp : Forall single (received b)) (Hlg : proposed lg = sent b) :
  exists batches, Forall2 (fun ps d => EncodeBatch ps = Ok d) batches (sent b) /\ concat batches ++ buffer b = received b /\
    (delivered 0 (out n)).2 `prefix_of` concat (arrives <$> batches) /\
    (Z.of_nat (length lg) <= appliedIndex n -> (delivered 0 (out n)).2 = concat (arrives <$> batches)) /\
    (Forall (fun p => asText p = p) (received b) -> concat (arrives <$> batches) = concat batches).
Proof.
  destruct (b_reachable_order config b Hb) as [?|(bs & Henc & Hne & Hrecv & _)]; [congruence|].
  assert (Hdec : concat (normalData true <$> lg) = concat (arrives <$> bs)).
  { apply proposed_decoded. rewrite Hlg. apply sent_decoded; [done|done|]. rewrite <- Hrecv in Hp. by apply Forall_app in Hp as [Hp _]. }
  pose proof (node_reach_follows now c s r lg n0 (n, h) Hwf Hs ltac:(lia) Hr) as [_ _ _ Hd]. simpl in Hd.
  rewrite Ha, Hload in Hd. unfold expected in Hd. rewrite Hw, Hbatch in Hd. rewrite Hd.
  exists bs. split; [done|]. split; [done|]. split; [|split].
  - etrans; [apply proposals_prefix|]. by rewrite Hdec.
  - intros Hall. unfold proposals. rewrite take_ge by lia. change (drop (Z.to_nat 0) lg) with lg. by rewrite Hdec.
  - rewrite <- Hrecv. intros [Ht _]%Forall_app. by apply concat_arrives_text.
Qed.

End delivery.

(** ** The in-memory node: what is saved, what is sent *)

Section order.
Context {L R : Type} `{!RaftLibrary R, !LogStorage L, !BatchJson, !ConfWire, !MapOrder}.
Implicit Types n : raftNode L R.

(** The writes of [saveSnap], up to the first that fails. *)
Definition saveOutputs (sn : Snapshot) (o : SaveOutcome) : list Output :=
  let wal := OWalSnapshot (sn_Index sn) (sn_Term sn) (sn_ConfState sn) in
  match o with
  | SnapFileFails => [OSnapFile sn false]
  | WalSnapshotFails => [OSnapFile sn true; wal false]
  | ReleaseFails => [OSnapFile sn true; wal true; OWalRelease (sn_Index sn) false]
  | SaveOk => [OSnapFile sn true; wal true; OWalRelease (sn_Index sn) true]
  end.

Lemma saveSnapMemory_out sn o n : exists n' b, saveSnapMemory sn o n = (n', Ok b) /\ out n' = out n ++ saveOutputs sn o /\
  appliedIndex n' = appliedIndex n.
Proof.
  exists (saveSnapMemory sn o n).1, (match o with SaveOk => true | _ => false end).
  destruct o; (split; [reflexivity|]); split; try done; simpl; by rewrite <- ?app_assoc.
Qed.

(** Everything a node puts out is added at the end. *)
Definition grows (n0 n : raftNode L R) : Prop := out n0 `prefix_of` out n.

Lemma grows_emit n0 o : keeps (grows n0) (emit o).
Proof. apply keeps_modify. unfold grows. intros n Hn. cbn. by apply prefix_app_r. Qed.

Lemma grows_callLib n0 c : keeps (grows n0) (callLib c).
Proof. apply keeps_bind; [by apply keeps_modify|]. intros _. apply grows_emit. Qed.

Lemma grows_storage n0 {A} (f : L -> L * A) : keeps (grows n0) (storage f).
Proof. intros n Hn. unfold storage. by destruct (f (raftStorage n)). Qed.

Hint Resolve grows_emit grows_callLib grows_storage : keeps.

Lemma grows_applyConfEntry n0 e : keeps (grows n0) (applyConfEntry e).
Proof.
  unfold applyConfEntry. apply keeps_bind.
  { apply keeps_modify. intros n Hn. by destruct (lib_applyConfChange (node n) (cw_unmarshal (e_Data e))). }
  intros _. destruct (cc_Type _); auto 6 with keeps.
Qed.

Lemma grows_publishLoop n0 ents : forall data, keeps (grows n0) (publishLoop ents data).
Proof.
  induction ents as [|e ents IH]; intros data; simpl; [auto with keeps|].
  apply keeps_if; [apply keeps_bind; auto with keeps|]. apply keeps_if; [|done].
  apply keeps_bind; [apply grows_applyConfEntry|]. intros []; auto with keeps.
Qed.

Lemma grows_witnessLoop n0 ents : keeps (grows n0) (witnessLoop ents).
Proof.
  induction ents as [|e ents IH]; simpl; [auto with keeps|].
  apply keeps_if; [|done]. apply keeps_bind; [apply grows_applyConfEntry|]. intros []; auto with keeps.
Qed.

Lemma grows_notifyApplied n0 : keeps (grows n0) notifyApplied.
Proof.
  apply keeps_modify. intros n Hn. destruct (readIndexManager n) as [rm|]; [|done].
  destruct (nc_leaseRead (cfg n)); [|done]. by destruct (NotifyApplied rm (readChans n) (appliedIndex n)).
Qed.

Lemma grows_publishEntries n0 a ents : keeps (grows n0) (publishEntries a ents).
Proof.
  unfold publishEntries, publishEntriesAsWitness, setApplied. destruct (last ents) as [en|]; [|auto with keeps].
  apply keeps_bind; [auto with keeps|]. intros []; (apply keeps_bind; [auto using grows_publishLoop, grows_witnessLoop|]).
  - intros []; [|auto with keeps]. apply keeps_bind; [by apply keeps_modify|auto with keeps].
  - intros [[|d ds]|]; [| |auto with keeps].
    + apply keeps_bind; [by apply keeps_modify|]. auto using grows_notifyApplied with keeps.
    + apply keeps_if; [|auto with keeps]. apply keeps_bind; [apply grows_emit|intros _].
      apply keeps_bind; [by apply keeps_modify|]. auto using grows_notifyApplied with keeps.
Qed.

Lemma grows_maybeTriggerSnapshot n0 save a waits :
  (forall sn o, keeps (grows n0) (save sn o)) -> keeps (grows n0) (maybeTriggerSnapshot save a waits).
Proof.
  intros Hs. unfold maybeTriggerSnapshot. apply keeps_bind; [auto with keeps|]. intros applied.
  apply keeps_bind; [auto with keeps|]. intros snapped. apply keeps_if; [auto with keeps|]. apply keeps_if; [auto with keeps|].
  destruct (a_getSnapshot a) as [data|]; [|auto with keeps].
  apply keeps_bind; [auto with keeps|]. intros cs. apply keeps_bind; [auto with keeps|]. intros [sn|e]; [|auto with keeps].
  apply keeps_bind; [auto with keeps|]. intros saved. apply keeps_if; [auto with keeps|].
  apply keeps_bind; [auto with keeps|]. assert (Hset : keeps (grows n0) (modify (setIndexes applied applied))) by by apply keeps_modify.
  intros [[]|]; auto with keeps.
Qed.

Lemma grows_stop n0 : keeps (grows n0) (stopNode (mret tt)).
Proof. unfold stopNode, stopHTTP. auto 15 with keeps. Qed.

(** What follows the messages of a Ready. *)
Definition restMemory (a : Answers) (rd : Ready) : Prog (raftNode L R) unit :=
  onReadyRenew (a_now a);;
  ents ← entriesToApply (rd_CommittedEntries rd);
  published ← publishEntries a ents;
  match published with
  | None => stopNode (mret tt)
  | Some applyDoneC => maybeTriggerSnapshot saveSnapMemory a applyDoneC;; callLib Advance
  end.

Lemma grows_restMemory n0 a rd : keeps (grows n0) (restMemory a rd).
Proof.
  unfold restMemory. apply keeps_bind.
  { apply keeps_modify. intros n Hn. by destruct (leads n). }
  intros _. apply keeps_bind.
  { unfold entriesToApply. destruct (rd_CommittedEntries rd); [auto with keeps|]. apply keeps_bind; [auto with keeps|]. auto with keeps. }
  intros ents. apply keeps_bind; [apply grows_publishEntries|]. intros [waits|]; [|apply grows_stop].
  apply keeps_bind; [|auto with keeps]. apply grows_maybeTriggerSnapshot. intros sn o. unfold saveSnapMemory.
  destruct o; auto 8 with keeps.
Qed.

(** The in-memory node writes before it sends, and sends whatever came of the
    writes.  A Ready is handled in this order: the snapshot file, its record in
    the write-ahead log, the hard state and the entries, the snapshot to the
    store, the messages; the outcome of the writes is not looked at. *)
Theorem memory_ready_order a rd n
    (Hsnap : IsEmptySnap (rd_Snapshot rd) = true \/ appliedIndex n < sn_Index (rd_Snapshot rd)) :
  exists ms rest, length ms = length (rd_Messages rd) /\
    out (readyMemory a rd n).1 = out n ++
      (if IsEmptySnap (rd_Snapshot rd) then [] else saveOutputs (rd_Snapshot rd) (a_save a)) ++
      [OWal (rd_HardState rd) (rd_Entries rd) (a_wal a)] ++
      (if IsEmptySnap (rd_Snapshot rd) then [] else [OReload (sn_Index (rd_Snapshot rd))]) ++
      [OSend ms] ++ rest.
Proof.
  unfold readyMemory. cbn zeta. set (sn := rd_Snapshot rd) in *. fold (restMemory a rd).
  set (n1 := (onSoftState (rd_SoftState rd) n).1).
  assert (Hs1 : onSoftState (rd_SoftState rd) n = (n1, Ok tt)) by done.
  assert (Hn1 : out n1 = out n /\ appliedIndex n1 = appliedIndex n).
  { unfold n1, onSoftState, modify. destruct (rd_SoftState rd); [|done]. cbn. by destruct (nc_leaseRead (cfg n)). }
  clearbody n1. destruct Hn1 as [Ho1 Ha1]. rewrite (bind_ok _ _ _ _ _ Hs1). clear Hs1.
  (* the messages and what follows, from any state *)
  assert (Htail : forall m, exists ms rest, length ms = length (rd_Messages rd) /\
    out ((storage (fun s => ls_append s (rd_Entries rd));; sendMessages (rd_Messages rd);; restMemory a rd) m).1 =
      out m ++ [OSend ms] ++ rest).
  { intros m. unfold mbind at 1, prog_bind at 1, storage at 1. destruct (ls_append _ _) as [s x].
    unfold mbind at 1, prog_bind at 1. unfold sendMessages, modify. set (ms := processMessages _ _).
    set (m' := addOut (OSend ms) _).
    destruct (grows_restMemory m' a rd m') as [rest Hrest]; [unfold grows; reflexivity|].
    exists ms, rest. split; [apply length_fmap|]. rewrite Hrest. unfold m'. cbn. by rewrite <- app_assoc. }
  destruct (IsEmptySnap sn) eqn:Ee; cbn [negb when].
  - rewrite (bind_ok (mret tt) _ n1 n1 tt eq_refl). rewrite (bind_ok (emit _) _ n1 _ tt eq_refl).
    rewrite (bind_ok (mret tt) _ _ _ tt eq_refl).
    destruct (Htail (addOut (OWal (rd_HardState rd) (rd_Entries rd) (a_wal a)) n1)) as (ms & rest & Hlen & Ht).
    exists ms, rest. split; [done|]. rewrite Ht. cbn. by rewrite Ho1, <- app_assoc.
  - destruct Hsnap as [|Hgt]; [congruence|].
    destruct (saveSnapMemory_out sn (a_save a) n1) as (n2 & b & Hs2 & Ho2 & Ha2).
    assert (Hsave : (saveSnapMemory sn (a_save a);; mret tt) n1 = (n2, Ok tt)) by (by rewrite (bind_ok _ _ _ _ _ Hs2)).
    rewrite (bind_ok _ _ _ _ _ Hsave). rewrite (bind_ok (emit _) _ n2 _ tt eq_refl).
    set (n3 := addOut _ n2).
    assert (Hpub : exists n4, (storage (fun s => ls_applySnapshot s sn);; publishSnapshot sn) n3 = (n4, Ok tt) /\
      out n4 = out n3 ++ [OReload (sn_Index sn)]).
    { unfold publishSnapshot. rewrite Ee. unfold mbind, prog_bind, storage, gets, emit, modify.
      destruct (ls_applySnapshot (raftStorage n3) sn) as [s x]. cbn [appliedIndex setStorage].
      replace (appliedIndex n3) with (appliedIndex n) by (unfold n3; cbn; congruence).
      rewrite (proj2 (Z.leb_gt _ _)) by done. by eexists. }
    destruct Hpub as (n4 & Hpub & Ho4). rewrite (bind_ok _ _ _ _ _ Hpub).
    destruct (Htail n4) as (ms & rest & Hlen & Ht). exists ms, rest. split; [done|]. rewrite Ht, Ho4. unfold n3. cbn. rewrite Ho2, Ho1.
    by rewrite <- !app_assoc.
Qed.

End order.
