(* ===== verification/RaftNodeStorage.v ===== *)
(** * What a Raft node keeps on disk

    The node on RocksDB writes the hard state, the snapshot and the entries of a
    Ready before it sends its messages, and its own snapshots do not cut the log
    beyond the entries kept for slow followers.  The disk may fail at any write. *)

From S2P Require Import Prelude GoBytes ByteDB KvTypes LeaseRead ReadIndex ProposalBatcher RaftLog RaftLogRefine RaftLogTheorems.
From S2P Require Import Program RaftNode RaftNodeMemory RaftNodeRocks RaftNodeRuns.

Section storage.
Context {DB R : Type} `{ByteDBLaws DB}.
Context `{!RaftWire Entry, !RaftWire HardState, !RaftWire ConfState, !RaftWire Snapshot}.
Context `{!RaftLibrary R, !BatchJson, !ConfWire, !MapOrder}.
Implicit Types (s : RocksDBStorage DB) (lg : RLog) (n : raftNode (RocksDBStorage DB) R).

(** ** A call that succeeds *)

Definition failed (r : Resp) : bool := match r with RErr _ => true | _ => false end.

Lemma write_fields s batch : exists d, (write s batch).1 = setDb s d.
Proof. unfold write. destruct (db_write (db s) batch) as [d e]. by exists d. Qed.

(** The cached indexes after a command that did not fail. *)
Lemma step_cached s lg c :
  Rep s lg -> cmdOk lg c -> c <> CReopen -> failed (step s c).2 = false ->
  firstIndex (step s c).1 = rl_off (rl_step lg c).1 + 1 /\ lastIndex (step s c).1 = rl_last (rl_step lg c).1.
Proof.
  intros HR Hok Hc Hr. pose proof (Rep_first _ _ HR) as Hf. pose proof (Rep_last _ _ HR) as Hl.
  pose proof (Rep_wf _ _ HR) as Hwf.
  destruct c; cbn [step rl_step fst snd done] in *; try done; cbn [failed] in *.
  - destruct es as [|e0 es]; [done|]. pose proof Hok as (_ & Henc & Hi & _).
    destruct (putEntries_ok (nodeID s) (e0 :: es) Henc) as [puts Hputs].
    rewrite (Append_batch s lg e0 es puts HR Hok Hputs) in *.
    destruct (write_fields (setLast s (e_Index e0 + Z.of_nat (length es))) (appendBatch s e0 es puts)) as [d ->].
    cbn [setDb setLast firstIndex lastIndex]. split; [done|]. rewrite rl_append_last by done. cbn [length]. lia.
  - unfold SetHardState, saveMessage. destruct (marshal st) as [data|]; [|done].
    destruct (write_fields s [WPut (prefixedKey (nodeID s) hardStateKey) data]) as [d ->]. done.
  - unfold SetConfState, saveMessage. destruct (marshal cs) as [data|]; [|done].
    destruct (write_fields s [WPut (prefixedKey (nodeID s) confStateKey) data]) as [d ->]. done.
  - assert (Hlg : rl_off (rl_createSnapshot lg index cs data).1 = rl_off lg /\ rl_last (rl_createSnapshot lg index cs data).1 = rl_last lg).
    { unfold rl_createSnapshot. destruct (_ <? _); [done|]. by destruct (_ >? _). }
    destruct Hlg as [-> ->]. unfold CreateSnapshot, saveMessage. destruct (_ <? _); [done|]. destruct (_ >? _); [done|].
    destruct (snapshotTerm s index) as [t|]; [|done]. cbn zeta. destruct (marshal _) as [dd|]; [|done].
    destruct (write_fields s [WPut (prefixedKey (nodeID s) snapshotKey) dd]) as [d Hd].
    destruct (write s _) as [s1 [e|]]; simpl in Hd |- *; by subst s1.
  - pose proof Hok as ([snapData Hsn] & [csData Hcs] & Hpos & Hb). unfold rl_applySnapshot.
    destruct (Z.eqb_spec (sn_Index snap) 0) as [Hz|Hz].
    { unfold ApplySnapshot, IsEmptySnap. by rewrite Hz. }
    destruct (Z.leb_spec (sn_Index snap) (rl_off lg)) as [Hle|Hgt].
    { unfold ApplySnapshot, IsEmptySnap. rewrite (proj2 (Z.eqb_neq _ _) Hz), (Rep_pred _ _ HR). cbn zeta.
      by rewrite (proj2 (Z.leb_le _ _) Hle). }
    rewrite (ApplySnapshot_batch s lg snap snapData csData) in * by done.
    destruct (ApplySnapshot_persisted s lg snap snapData csData HR Hgt Hb Hsn Hcs) as (_ & Hlast & _).
    destruct (write_fields (setLast s (Z.max (sn_Index snap) (lastIndex s))) (snapshotBatch s snap snapData csData)) as [d Hd].
    destruct (write _ _) as [s1 [e|]]; [done|]. simpl in Hd. subst s1. cbn [fst setFirst firstIndex lastIndex setDb setLast].
    change (mkRLog (sn_Index snap) _ _ _ _) with (rl_restored lg snap). rewrite Hlast, Hl. done.
  - unfold Compact, rl_compact in *. rewrite Hf, Hl in *. destruct (Z.leb_spec index (rl_off lg + 1)); [done|].
    rewrite Z.gtb_ltb in *. destruct (Z.ltb_spec (rl_last lg) index); [done|].
    destruct (Compact_persisted s lg index HR ltac:(lia)) as (_ & Hlast & _).
    destruct (write_fields s (setFirstIndexWithWB s (deleteEntries (nodeID s) (indexes_to (rl_off lg + 1) index)) index)) as [d Hd].
    destruct (write s _) as [s1 [e|]]; [done|]. simpl in Hd. subst s1. cbn [fst setFirst firstIndex lastIndex setDb].
    change (mkRLog (index - 1) _ _ _ _) with (rl_compacted lg index). rewrite Hlast, Hl. split; [simpl; lia|done].
Qed.

(** On any disk, a command that did not fail did what the abstract log does. *)
Lemma step_success s lg c :
  Rep s lg -> cmdOk lg c -> c <> CReopen -> failed (step s c).2 = false ->
  nodeID (step s c).1 = nodeID s /\ Rep (step s c).1 (rl_step lg c).1.
Proof.
  intros HR Hok Hc Hr. destruct (step_atomic s lg c HR Hok Hc) as [Hn Ha].
  destruct (step_cached s lg c HR Hok Hc Hr) as [Hf Hl]. split; [done|].
  destruct (step s c).2; try done; destruct Ha as [Hw HP]; constructor; try done; by rewrite Hn.
Qed.

(** And one that failed left the bytes of the log as they were. *)
Lemma step_failure s lg c :
  Rep s lg -> cmdOk lg c -> c <> CReopen -> failed (step s c).2 = true ->
  nodeID (step s c).1 = nodeID s /\ contents (db (step s c).1) = contents (db s).
Proof. intros HR Hok Hc Hr. destruct (step_atomic s lg c HR Hok Hc) as [Hn Ha]. split; [done|]. by destruct (step s c).2. Qed.

(** ** A snapshot of the node *)

(** Where the node may have cut its log: the last 10000 applied entries stay. *)
Definition cutBound (applied : Z) : Z := applied - snapshotCatchUpEntriesN - 1.

(** The snapshot of the node itself, of what it has applied. *)
Definition ownSnapshot (applied : Z) (lg : RLog) (sn : Snapshot) : Prop :=
  rl_off lg <= applied <= rl_last lg /\ sn_Index sn = applied /\ sn_Term sn = rl_snapshotTerm lg applied.

(** The entries up to a bound may be gone, and the snapshot may be the node's. *)
Record trimmed (applied : Z) (lg lg' : RLog) : Prop := {
  tr_hard : rl_hard lg' = rl_hard lg;
  tr_snap : rl_snap lg' = rl_snap lg \/ exists sn, rl_snap lg' = Some sn /\ ownSnapshot applied lg sn;
  tr_last : rl_last lg' = rl_last lg;
  tr_off : rl_off lg <= rl_off lg' <= Z.max (rl_off lg) (cutBound applied);
  tr_entry i : rl_off lg' < i -> rl_entry lg' i = rl_entry lg i;
}.

(** The disk of the node called [name] holds the log. *)
Definition OnDisk (name : string) (s : RocksDBStorage DB) (lg : RLog) : Prop :=
  nodeID s = name /\ wf_log lg /\ Persisted name (contents (db s)) lg.

Lemma Rep_OnDisk s lg : Rep s lg -> OnDisk (nodeID s) s lg.
Proof. intros HR. split; [done|]. split; apply HR. Qed.

Lemma trimmed_refl applied lg : trimmed applied lg lg.
Proof. constructor; [done|by left|done|lia|done]. Qed.

(** What a call of the storage leaves on disk, if it fails and if not. *)
Lemma step_OnDisk s lg c :
  Rep s lg -> cmdOk lg c -> c <> CReopen ->
  exists lg', OnDisk (nodeID s) (step s c).1 lg' /\ (lg' = lg \/ lg' = (rl_step lg c).1) /\
    (failed (step s c).2 = false -> Rep (step s c).1 lg' /\ nodeID (step s c).1 = nodeID s).
Proof.
  intros HR Hok Hc. destruct (failed (step s c).2) eqn:Ef.
  - destruct (step_failure s lg c HR Hok Hc Ef) as [Hn Hcon]. exists lg. split; [|by split; [left|]].
    split; [done|]. rewrite Hcon. split; apply HR.
  - destruct (step_success s lg c HR Hok Hc Ef) as [Hn HR']. exists (rl_step lg c).1.
    split; [rewrite <- Hn; by apply Rep_OnDisk|]. split; [by right|done].
Qed.

Lemma trimmed_create lg index cs data : trimmed index lg (rl_createSnapshot lg index cs data).1.
Proof.
  unfold rl_createSnapshot. destruct (Z.ltb_spec index (rl_off lg)); [apply trimmed_refl|]. rewrite Z.gtb_ltb.
  destruct (Z.ltb_spec (rl_last lg) index); [apply trimmed_refl|].
  constructor; [done| |done|cbn; lia|done]. right. eexists. split; [done|]. by split; [lia|].
Qed.

Lemma trimmed_compact applied lg lg1 index :
  trimmed applied lg lg1 -> index - 1 <= cutBound applied -> trimmed applied lg (rl_compact lg1 index).1.
Proof.
  intros Ht Hb. unfold rl_compact. destruct (Z.leb_spec index (rl_off lg1 + 1)); [done|]. rewrite Z.gtb_ltb.
  destruct (Z.ltb_spec (rl_last lg1) index); [done|]. destruct Ht as [Hh Hs Hl Ho He].
  constructor; [done|done| |cbn; lia|].
  - rewrite <- Hl. unfold rl_last in *. cbn. rewrite length_drop. lia.
  - intros i Hi. cbn [fst rl_off] in Hi. rewrite <- He by lia. apply rl_drop_entry; cbn [fst rl_off rl_ents]; [lia|done|done].
Qed.

Hypothesis snapshots_encode : forall sn : Snapshot, encodes sn.

Definition Kept (name : string) (applied : Z) (lg : RLog) n : Prop :=
  appliedIndex n = applied /\ exists lg', OnDisk name (raftStorage n) lg' /\ trimmed applied lg lg'.

Lemma storage_wp {A} (f : RocksDBStorage DB -> RocksDBStorage DB * A) (Q : A -> raftNode (RocksDBStorage DB) R -> Prop) E n :
  Q (f (raftStorage n)).2 (setStorage (f (raftStorage n)).1 n) -> wp (storage f) Q E n.
Proof. unfold wp, storage. by destruct (f (raftStorage n)). Qed.

(** A snapshot of the node itself, on any disk. *)
Lemma maybeTriggerSnapshot_kept a waits n lg :
  Rep (raftStorage n) lg ->
  wp (maybeTriggerSnapshot saveSnapRocks a waits)
    (fun _ => Kept (nodeID (raftStorage n)) (appliedIndex n) lg) (fun _ => Kept (nodeID (raftStorage n)) (appliedIndex n) lg) n.
Proof.
  intros HR. set (name := nodeID (raftStorage n)). set (applied := appliedIndex n).
  assert (Hsame : Kept name applied lg n).
  { split; [done|]. exists lg. split; [by apply Rep_OnDisk|apply trimmed_refl]. }
  unfold maybeTriggerSnapshot. apply wp_bind, wp_gets, wp_bind, wp_gets.
  destruct (_ <=? _); [by apply wp_ret|]. destruct (waits && _); [by apply wp_ret|].
  destruct (a_getSnapshot a) as [data|]; [|by apply wp_halt].
  apply wp_bind, wp_gets, wp_bind, storage_wp. cbn [ls_createSnapshot rocks_log_storage]. set (cs := confState n).
  destruct (step_OnDisk (raftStorage n) lg (CCreateSnapshot applied cs data)) as (lg1 & Hd1 & Hlg1 & Hrep1);
    [done|apply snapshots_encode|done|].
  assert (Ht1 : trimmed applied lg lg1) by (destruct Hlg1 as [-> | ->]; [apply trimmed_refl|apply trimmed_create]).
  cbn [step] in Hd1, Hrep1. fold applied. destruct (CreateSnapshot (raftStorage n) applied cs data) as [s1 [sn|e]]; cbn [fst snd] in *.
  2:{ apply wp_halt. split; [done|]. by exists lg1. }
  destruct (Hrep1 eq_refl) as (HR1 & Hn1). unfold saveSnapRocks. cbn zeta.
  apply wp_bind, wp_bind, wp_modify, wp_ret. destruct (negb _).
  { apply wp_halt. split; [done|]. by exists lg1. }
  apply wp_bind, storage_wp. cbn [ls_compact rocks_log_storage raftStorage addOut setStorage].
  destruct (step_OnDisk s1 lg1 (CCompact (compactIndexAt applied))) as (lg2 & Hd2 & Hlg2 & _); [done|done|done|].
  assert (Ht2 : trimmed applied lg lg2).
  { destruct Hlg2 as [-> | ->]; [done|]. cbn [rl_step fst]. unfold compactIndexAt, snapshotCatchUpEntriesN. destruct (Z.gtb_spec applied 10000).
    - apply trimmed_compact; [done|]. unfold cutBound, snapshotCatchUpEntriesN. lia.
    - unfold rl_compact. rewrite (proj2 (Z.leb_le _ _)); [done|]. pose proof (wl_off _ (Rep_wf _ _ HR1)). lia. }
  cbn [step done fst] in Hd2. rewrite Hn1 in Hd2.
  assert (Hkept : Kept name applied lg (setStorage (Compact s1 (compactIndexAt applied)).1 (addOut (OSnapFile sn
    match a_saveOwn a with SnapFileFails => false | _ => true end) (setStorage s1 n)))).
  { split; [done|]. by exists lg2. }
  destruct (Compact s1 (compactIndexAt applied)) as [s2 [[]|]]; cbn [fst snd] in *; try by apply wp_halt.
  - apply wp_modify. destruct Hkept as (? & lg' & ?). split; [done|]. by exists lg'.
  - apply wp_modify. destruct Hkept as (? & lg' & ?). split; [done|]. by exists lg'.
Qed.

(** ** The rest of a Ready does not touch the storage *)

Section store.
Context (s0 : RocksDBStorage DB).
Let I n := raftStorage n = s0.

Lemma keeps_store_modify f : (forall n, raftStorage (f n) = raftStorage n) -> keeps I (modify f).
Proof. intros Hf. apply keeps_modify. unfold I. intros n <-. apply Hf. Qed.

Hint Resolve keeps_store_modify : keeps.

Lemma keeps_store_emit o : keeps I (emit o).
Proof. by apply keeps_store_modify. Qed.

Lemma keeps_store_callLib c : keeps I (callLib c).
Proof. apply keeps_bind; [by apply keeps_store_modify|]. intros _. apply keeps_store_emit. Qed.

Lemma keeps_store_applyConfEntry e : keeps I (applyConfEntry e).
Proof.
  unfold applyConfEntry. apply keeps_bind.
  { apply keeps_store_modify. intros n. by destruct (lib_applyConfChange (node n) (cw_unmarshal (e_Data e))). }
  intros _. destruct (cc_Type _); auto 6 using keeps_store_emit with keeps.
Qed.

Lemma keeps_store_publishLoop ents : forall data, keeps I (publishLoop ents data).
Proof.
  induction ents as [|e ents IH]; intros data; simpl; [auto with keeps|].
  apply keeps_if; [apply keeps_bind; auto with keeps|]. apply keeps_if; [|done].
  apply keeps_bind; [apply keeps_store_applyConfEntry|]. intros []; auto with keeps.
Qed.

Lemma keeps_store_witnessLoop ents : keeps I (witnessLoop ents).
Proof.
  induction ents as [|e ents IH]; simpl; [auto with keeps|].
  apply keeps_if; [|done]. apply keeps_bind; [apply keeps_store_applyConfEntry|]. intros []; auto with keeps.
Qed.

Lemma keeps_store_notifyApplied : keeps I notifyApplied.
Proof.
  apply keeps_store_modify. intros n. destruct (readIndexManager n) as [rm|]; [|done].
  destruct (nc_leaseRead (cfg n)); [|done]. by destruct (NotifyApplied rm (readChans n) (appliedIndex n)).
Qed.

Lemma keeps_store_publishEntries a ents : keeps I (publishEntries a ents).
Proof.
  unfold publishEntries, publishEntriesAsWitness, setApplied. destruct (last ents) as [en|]; [|auto with keeps].
  apply keeps_bind; [auto with keeps|]. intros []; (apply keeps_bind; [auto using keeps_store_publishLoop, keeps_store_witnessLoop|]).
  - intros []; [|auto with keeps]. apply keeps_bind; [by apply keeps_store_modify|auto with keeps].
  - intros [[|d ds]|]; [| |auto with keeps].
    + apply keeps_bind; [by apply keeps_store_modify|]. auto using keeps_store_notifyApplied with keeps.
    + apply keeps_if; [|auto with keeps]. apply keeps_bind; [apply keeps_store_emit|intros _].
      apply keeps_bind; [by apply keeps_store_modify|]. auto using keeps_store_notifyApplied with keeps.
Qed.

Lemma keeps_store_entriesToApply ents : keeps I (entriesToApply ents).
Proof.
  unfold entriesToApply. destruct ents; [auto with keeps|]. apply keeps_bind; [auto with keeps|]. intros x.
  apply keeps_if; auto with keeps.
Qed.

Lemma keeps_store_stop : keeps I (stopNode (emit OCloseStorage)).
Proof. unfold stopNode, stopHTTP. auto 15 using keeps_store_emit, keeps_store_callLib with keeps. Qed.

End store.

(** ** Write ahead *)

(** The storage calls of a Ready. *)
Definition readyCmds (rd : Ready) : list Cmd :=
  (if IsEmptyHardState (rd_HardState rd) then [] else [CSetHardState (rd_HardState rd)]) ++
  (if IsEmptySnap (rd_Snapshot rd) then [] else [CApplySnapshot (rd_Snapshot rd)]) ++
  (if (length (rd_Entries rd) =? 0)%nat then [] else [CAppend (rd_Entries rd)]).

Definition isSend (o : Output) : bool := match o with OSend _ => true | _ => false end.

(** What a node put out since [n0]. *)
Definition since n0 n : list Output := drop (length (out n0)) (out n).

Definition quiet n0 n : Prop := exists new, out n = out n0 ++ new /\ forallb (fun o => negb (isSend o)) new = true.

Lemma quiet_emit n0 n o : isSend o = false -> quiet n0 n -> quiet n0 (addOut o n).
Proof.
  intros Ho (new & Hn & Hq). exists (new ++ [o]). cbn. rewrite Hn, app_assoc. split; [done|].
  by rewrite forallb_app, Hq; simpl; rewrite Ho.
Qed.

Lemma quiet_no_send n0 n : quiet n0 n -> existsb isSend (since n0 n) = false.
Proof.
  intros (new & Hn & Hq). unfold since. rewrite Hn, drop_app_length. clear Hn.
  induction new as [|o new IH]; [done|]. simpl in *. apply andb_true_iff in Hq as [Ho Hq]. apply negb_true_iff in Ho. by rewrite Ho, IH.
Qed.

(** A command that must succeed: it does, or the node dies before it sent anything. *)
Lemma mustStore_wp why f c n n0 lg (Q : unit -> raftNode (RocksDBStorage DB) R -> Prop) :
  Rep (raftStorage n) lg -> cmdOk lg c -> c <> CReopen -> (forall s, step s c = done (f s)) -> quiet n0 n ->
  (forall s', Rep s' (rl_step lg c).1 -> nodeID s' = nodeID (raftStorage n) -> Q tt (setStorage s' n)) ->
  wp (mustStore why f) Q (fun _ => quiet n0) n.
Proof.
  intros HR Hok Hc Hf Hq HQ. unfold mustStore. apply wp_bind, storage_wp.
  pose proof (step_success (raftStorage n) lg c HR Hok Hc) as Hs. rewrite Hf in Hs. unfold done in Hs.
  destruct (f (raftStorage n)) as [s' [e|]]; cbn [fst snd failed] in *; [by apply wp_halt|].
  destruct (Hs eq_refl) as [Hn HR']. apply wp_ret. by apply HQ.
Qed.

(** The first half of the handler: it ends with everything stored, or has sent
    nothing. *)
Definition Saved (name : string) (lg : RLog) n0 n : Prop :=
  Rep (raftStorage n) lg /\ nodeID (raftStorage n) = name /\ quiet n0 n.

Lemma save_step name lg lg' n0 why f c (b : bool) n :
  Saved name lg n0 n -> (b = true -> cmdOk lg c /\ c <> CReopen /\ (forall s, step s c = done (f s)) /\ lg' = (rl_step lg c).1) ->
  (b = false -> lg' = lg) ->
  wp (when b (mustStore why f)) (fun _ => Saved name lg' n0) (fun _ => quiet n0) n.
Proof.
  intros (HR & Hn & Hq) Hb Hnb. destruct b; cbn [when].
  - destruct (Hb eq_refl) as (Hok & Hc & Hf & ->). eapply mustStore_wp; [done..|].
    intros s' HR' Hn'. split; [done|]. cbn. split; [congruence|]. exact Hq.
  - apply wp_ret. rewrite Hnb by done. done.
Qed.

Lemma rl_run_app cs1 : forall lg cs2, (rl_run lg (cs1 ++ cs2)).1 = (rl_run (rl_run lg cs1).1 cs2).1.
Proof.
  induction cs1 as [|c cs1 IH]; intros lg cs2; [done|]. cbn [app rl_run].
  destruct (rl_step lg c) as [lg1 r]. specialize (IH lg1 cs2).
  destruct (rl_run lg1 cs1) as [lg2 rs]. cbn [fst] in *. rewrite <- IH. by destruct (rl_run lg1 (cs1 ++ cs2)).
Qed.

Lemma traceOk_app cs1 : forall lg cs2, traceOk lg (cs1 ++ cs2) -> traceOk lg cs1 /\ traceOk (rl_run lg cs1).1 cs2.
Proof.
  induction cs1 as [|c cs1 IH]; intros lg cs2; [done|]. cbn [app traceOk rl_run]. intros [Hc Hcs].
  destruct (IH _ _ Hcs) as [H1' H2']. destruct (rl_step lg c) as [lg1 r]. simpl in *.
  by destruct (rl_run lg1 cs1).
Qed.

Lemma rl_run_one lg c : (rl_run lg [c]).1 = (rl_step lg c).1.
Proof. cbn. by destruct (rl_step lg c). Qed.

(** The saving half of [readyRocks]. *)
Definition saveReady (a : Answers) (rd : Ready) : Prog (raftNode (RocksDBStorage DB) R) unit :=
  onSoftState (rd_SoftState rd);;
  when (negb (IsEmptyHardState (rd_HardState rd)))
    (mustStore "failed to save hard state" (fun s => SetHardState s (rd_HardState rd)));;
  when (negb (IsEmptySnap (rd_Snapshot rd)))
    (mustStore "failed to apply snapshot" (fun s => ApplySnapshot s (rd_Snapshot rd));;
     saved ← saveSnapRocks (rd_Snapshot rd) (a_save a);
     (if saved : bool then mret tt else halt (Fatal "failed to save snapshot"));;
     publishSnapshot (rd_Snapshot rd));;
  when (negb (length (rd_Entries rd) =? 0)%nat)
    (mustStore "failed to append entries" (fun s => Append s (rd_Entries rd))).

Lemma saveReady_wp a rd n lg :
  Rep (raftStorage n) lg -> traceOk lg (readyCmds rd) ->
  wp (saveReady a rd) (fun _ => Saved (nodeID (raftStorage n)) (rl_run lg (readyCmds rd)).1 n) (fun _ => quiet n) n.
Proof.
  intros HR Hok. set (name := nodeID (raftStorage n)). unfold readyCmds in *.
  set (cs1 := if IsEmptyHardState _ then _ else _) in *. set (cs2 := if IsEmptySnap _ then _ else _) in *.
  set (cs3 := if (_ =? 0)%nat then _ else _) in *.
  apply traceOk_app in Hok as [Hok1 Hok]. apply traceOk_app in Hok as [Hok2 Hok3]. rewrite !rl_run_app.
  set (lg1 := (rl_run lg cs1).1) in *. set (lg2 := (rl_run lg1 cs2).1) in *.
  assert (Hq : quiet n n) by (exists []; by rewrite app_nil_r).
  unfold saveReady. apply wp_bind, wp_modify. apply wp_bind.
  eapply wp_mono; [eapply (save_step name lg lg1 n _ _ (CSetHardState (rd_HardState rd)))|..]; [| | | |done].
  { unfold Saved. destruct (rd_SoftState rd); [destruct (nc_leaseRead (cfg n))|]; done. }
  { intros Hb. apply negb_true_iff in Hb. unfold lg1, cs1 in *. rewrite Hb in *. rewrite rl_run_one. by destruct Hok1. }
  { intros Hb. apply negb_false_iff in Hb. unfold lg1, cs1. by rewrite Hb. }
  cbn beta. intros _ n1 Hs1. apply wp_bind.
  assert (Hsnap : wp (when (negb (IsEmptySnap (rd_Snapshot rd)))
    (mustStore "failed to apply snapshot" (fun s => ApplySnapshot s (rd_Snapshot rd));;
     saved ← saveSnapRocks (rd_Snapshot rd) (a_save a);
     (if saved : bool then mret tt else halt (Fatal "failed to save snapshot"));;
     publishSnapshot (rd_Snapshot rd))) (fun _ => Saved name lg2 n) (fun _ => quiet n) n1).
  { unfold lg2, cs2 in *. destruct (IsEmptySnap (rd_Snapshot rd)) eqn:Ee; cbn [negb when]; [by apply wp_ret|].
    destruct Hs1 as (HR1 & Hn1 & Hq1). destruct Hok2 as [Hc _]. apply wp_bind.
    eapply (mustStore_wp _ _ (CApplySnapshot (rd_Snapshot rd))); [done..|]. intros s' HR' Hn'.
    rewrite rl_run_one. unfold saveSnapRocks. cbn zeta. apply wp_bind, wp_bind, wp_modify, wp_ret, wp_bind.
    set (n2 := addOut _ _).
    assert (Hs2 : Saved name (rl_step lg1 (CApplySnapshot (rd_Snapshot rd))).1 n n2).
    { split; [done|]. split; [cbn; congruence|]. by apply quiet_emit. }
    destruct (a_save a); try (apply wp_halt, Hs2); apply wp_ret; unfold publishSnapshot; rewrite Ee;
      (apply wp_bind, wp_gets; destruct (_ <=? _); [apply wp_halt, Hs2|]; apply wp_bind, wp_modify, wp_bind, wp_modify, wp_modify;
       destruct Hs2 as (? & ? & ?); split; [done|]; split; [done|]; by apply quiet_emit). }
  eapply wp_mono; [exact Hsnap| |done]. cbn beta. intros _ n2 Hs2.
  eapply (save_step name lg2 _ n _ _ (CAppend (rd_Entries rd))); [done| |].
  - intros Hb. apply negb_true_iff in Hb. unfold cs3 in *. rewrite Hb in *. rewrite rl_run_one. by destruct Hok3.
  - intros Hb. apply negb_false_iff in Hb. unfold cs3 in *. by rewrite Hb.
Qed.

(** The rest of it. *)
Definition restReady (a : Answers) (rd : Ready) : Prog (raftNode (RocksDBStorage DB) R) unit :=
  sendMessages (rd_Messages rd);;
  onReadyRenew (a_now a);;
  ents ← entriesToApply (rd_CommittedEntries rd);
  published ← publishEntries a ents;
  match published with
  | None => stopNode (emit OCloseStorage)
  | Some applyDoneC => maybeTriggerSnapshot saveSnapRocks a applyDoneC;; callLib Advance
  end.

Lemma readyRocks_split a rd n : readyRocks a rd n = (saveReady a rd;; restReady a rd) n.
Proof.
  unfold readyRocks, saveReady. symmetry. rewrite bind_bind. apply bind_cong. intros _ n1.
  rewrite bind_bind. apply bind_cong. intros _ n2. rewrite bind_bind. by apply bind_cong.
Qed.

Lemma keeps_store_wp {A} (m : Prog (raftNode (RocksDBStorage DB) R) A) n :
  (forall s, keeps (fun n => raftStorage n = s) m) ->
  wp m (fun _ n' => raftStorage n' = raftStorage n) (fun _ n' => raftStorage n' = raftStorage n) n.
Proof. intros Hm. by apply (wp_keeps m (fun n' => raftStorage n' = raftStorage n)). Qed.

Lemma restReady_wp a rd n lg :
  Rep (raftStorage n) lg ->
  let name := nodeID (raftStorage n) in
  wp (restReady a rd) (fun _ n' => Kept name (appliedIndex n') lg n') (fun _ n' => Kept name (appliedIndex n') lg n') n.
Proof.
  intros HR name. set (s := raftStorage n) in *.
  assert (Hsame : forall n', raftStorage n' = s -> Kept name (appliedIndex n') lg n').
  { intros n' Hn'. split; [done|]. exists lg. rewrite Hn'. split; [by apply Rep_OnDisk|apply trimmed_refl]. }
  assert (Hstep : forall A (m : Prog (raftNode (RocksDBStorage DB) R) A) (k : A -> Prog (raftNode (RocksDBStorage DB) R) unit) n1,
    raftStorage n1 = s -> (forall s, keeps (fun n => raftStorage n = s) m) ->
    (forall x n2, raftStorage n2 = s ->
      wp (k x) (fun _ n' => Kept name (appliedIndex n') lg n') (fun _ n' => Kept name (appliedIndex n') lg n') n2) ->
    wp (m ≫= k) (fun _ n' => Kept name (appliedIndex n') lg n') (fun _ n' => Kept name (appliedIndex n') lg n') n1).
  { intros A m k n1 Hn1 Hm Hk. apply wp_bind. eapply wp_mono; [by apply keeps_store_wp|..]; cbn beta; rewrite Hn1; [done|].
    intros _ n2 Hn2. by apply Hsame. }
  unfold restReady. apply Hstep; [done|intros; by apply keeps_store_modify|]. intros _ n1 Hn1.
  apply Hstep; [done| |].
  { intros s'. apply keeps_store_modify. intros n'. by destruct (leads n'). }
  intros _ n2 Hn2. apply Hstep; [done|intros; apply keeps_store_entriesToApply|]. intros ents n3 Hn3.
  apply Hstep; [done|intros; apply keeps_store_publishEntries|]. intros [waits|] n4 Hn4.
  - apply wp_bind. rewrite <- Hn4 in HR. eapply wp_mono; [by apply maybeTriggerSnapshot_kept|..]; cbn beta; rewrite Hn4.
    + intros _ n5 (Ha & lg' & Hk). unfold callLib, emit. apply wp_bind, wp_modify, wp_modify. split; [done|].
      cbn. rewrite Ha. by exists lg'.
    + intros h n5 (Ha & Hk). split; [done|]. by rewrite Ha.
  - eapply wp_mono; [by apply keeps_store_wp; intros; apply keeps_store_stop|..]; cbn beta; rewrite Hn4;
      intros; by apply Hsame.
Qed.

(** C19: write-ahead, for a Ready without a snapshot whose entries continue the log
    or replace its end and stop no earlier than it.  Whatever the disk does while
    it is handled: if the node sent messages, then a later open of the bytes it
    left on disk gives a log with the hard state and the entries of that Ready, of
    which at most entries more than ten thousand below the applied index are gone,
    and whose snapshot is the one before or the node's own at the applied index.
    (The store of the node keeps its data in the same database and clears it when
    it loads a snapshot.) *)
Theorem rocks_ready_write_ahead a rd n n' r lg (d : DB)
    (HR : Rep (raftStorage n) lg) (Hsnap : IsEmptySnap (rd_Snapshot rd) = true) (Hok : traceOk lg (readyCmds rd))
    (Hrun : readyRocks a rd n = (n', r))
    (Hsent : existsb isSend (since n n') = true) (Hd : healthy d) (Hcont : contents d = contents (db (raftStorage n'))) :
  exists s' lg', NewRocksDBStorage d (nodeID (raftStorage n)) = Ok s' /\ Rep s' lg' /\
    trimmed (appliedIndex n') (rl_run lg (readyCmds rd)).1 lg'.
Proof.
  rewrite readyRocks_split in Hrun. set (name := nodeID (raftStorage n)). set (lg1 := (rl_run lg (readyCmds rd)).1).
  assert (Hwp : wp (saveReady a rd;; restReady a rd)
    (fun _ n' => quiet n n' \/ Kept name (appliedIndex n') lg1 n') (fun _ n' => quiet n n' \/ Kept name (appliedIndex n') lg1 n') n).
  { apply wp_bind. eapply wp_mono; [by apply saveReady_wp| |by left]. cbn beta. intros _ n1 (HR1 & Hn1 & _).
    eapply wp_mono; [by apply restReady_wp|..]; cbn beta; rewrite Hn1; by right. }
  unfold wp in Hwp. rewrite Hrun in Hwp.
  assert (Hkept : Kept name (appliedIndex n') lg1 n').
  { destruct r; destruct Hwp as [Hq|Hk]; try done; apply quiet_no_send in Hq; congruence. }
  destruct Hkept as (_ & lg' & (Hn' & Hwf & HP) & Ht). rewrite <- Hcont in HP.
  pose proof (NewRocksDBStorage_persisted d name lg' Hd Hwf HP) as Hnew.
  eexists. exists lg'. split; [exact Hnew|]. split; [|done]. by apply Rep_reopen.
Qed.

(** ** A working disk *)

(** On a working disk a data node that has its log up to what it applied takes
    its snapshot without a panic: the snapshot has the data, the membership and
    the term of the applied entry, it is in the storage and in a file, and the log
    is cut ten thousand entries before it if it reaches that far. *)
Theorem rocks_snapshot_succeeds a waits n lg data
    (Hh : healthy (db (raftStorage n))) (HR : Rep (raftStorage n) lg)
    (Hin : rl_off lg <= appliedIndex n <= rl_last lg)
    (Hdue : wrap_u64 (appliedIndex n - snapshotIndex n) > defaultSnapshotCount)
    (Hwait : waits = true -> a_applied a = true) (Hdata : a_getSnapshot a = Some data) (Hsave : a_saveOwn a = SaveOk) :
  let sn := mkSnapshot data (confState n) (appliedIndex n) (rl_snapshotTerm lg (appliedIndex n)) in
  let lg1 := (rl_createSnapshot lg (appliedIndex n) (confState n) data).1 in
  exists n', maybeTriggerSnapshot saveSnapRocks a waits n = (n', Ok tt) /\
    snapshotIndex n' = appliedIndex n /\ appliedIndex n' = appliedIndex n /\ out n' = out n ++ [OSnapFile sn true] /\
    rl_snapshot lg1 = sn /\ healthy (db (raftStorage n')) /\ Rep (raftStorage n') (rl_compact lg1 (compactIndexAt (appliedIndex n))).1.
Proof.
  cbn zeta. set (applied := appliedIndex n) in *. set (cs := confState n). set (sn := mkSnapshot data cs applied _).
  assert (Hcreate : rl_createSnapshot lg applied cs data = (mkRLog (rl_off lg) (rl_ents lg) (Some sn) (rl_hard lg) (rl_conf lg), RSnapshot sn)).
  { unfold rl_createSnapshot. rewrite Z.gtb_ltb. destruct (Z.ltb_spec applied (rl_off lg)); [lia|].
    by destruct (Z.ltb_spec (rl_last lg) applied); [lia|]. }
  rewrite Hcreate. cbn [fst]. set (lg1 := mkRLog _ _ _ _ _) in *.
  destruct (rl_step_refines (raftStorage n) lg (CCreateSnapshot applied cs data) Hh HR (snapshots_encode _)) as (Hh1 & HR1 & Hr1).
  cbn [step rl_step] in Hh1, HR1, Hr1. rewrite Hcreate in HR1, Hr1.
  destruct (CreateSnapshot (raftStorage n) applied cs data) as [s1 [sn1|e]] eqn:E1; cbn [fst snd answer] in *; [|done].
  injection Hr1 as ->.
  assert (Hlast : rl_last lg1 = rl_last lg) by done.
  destruct (rl_step_refines s1 lg1 (CCompact (compactIndexAt applied)) Hh1 HR1 I) as (Hh2 & HR2 & Hr2).
  cbn [step rl_step done fst snd] in Hh2, HR2, Hr2.
  assert (Hcompact : (Compact s1 (compactIndexAt applied)).2 = None \/ (Compact s1 (compactIndexAt applied)).2 = Some ErrCompacted).
  { pose proof (wl_off _ (Rep_wf _ _ HR)) as Hoff.
    unfold rl_compact in Hr2. rewrite Z.gtb_ltb in Hr2.
    destruct (Z.leb_spec (compactIndexAt applied) (rl_off lg1 + 1)) as [|Hgt].
    - right. destruct (Compact s1 _).2; cbn in Hr2; congruence.
    - destruct (Z.ltb_spec (rl_last lg1) (compactIndexAt applied)) as [Hlt|].
      + unfold compactIndexAt, snapshotCatchUpEntriesN in Hlt, Hgt. change (rl_off lg1) with (rl_off lg) in Hgt.
        destruct (Z.gtb_spec applied 10000); lia.
      + left. by destruct (Compact s1 _).2. }
  destruct (Compact s1 (compactIndexAt applied)) as [s2 err] eqn:E2. cbn [fst snd] in *.
  exists (setIndexes applied applied (setStorage s2 (addOut (OSnapFile sn true) (setStorage s1 n)))).
  split; [|split_and!; done].
  unfold maybeTriggerSnapshot, mbind, prog_bind, gets, storage. fold applied cs.
  rewrite (proj2 (Z.leb_gt _ _)) by lia.
  replace (waits && negb (a_applied a)) with false by (destruct waits; [by rewrite Hwait|done]).
  rewrite Hdata. cbn [ls_createSnapshot rocks_log_storage]. fold cs. rewrite E1, Hsave.
  unfold saveSnapRocks, emit, modify, mbind, prog_bind, mret, prog_ret.
  cbn [negb ls_compact rocks_log_storage raftStorage setStorage addOut]. rewrite E2.
  by destruct Hcompact as [->| ->].
Qed.

(** The snapshot the node makes for a new cluster is an empty one to the library:
    its index is 0. *)
Theorem rocks_initial_snapshot_is_empty n data
    (Hh : healthy (db (raftStorage n))) (HR : Rep (raftStorage n) rl_init) :
  exists n' sn, createInitialSnapshot (Some data) n = (n', Ok tt) /\ Snapshot_ (raftStorage n') = Ok sn /\
    sn_Data sn = data /\ IsEmptySnap sn = true.
Proof.
  destruct (rl_step_refines (raftStorage n) rl_init (CCreateSnapshot 0 (confState n) data) Hh HR (snapshots_encode _)) as (Hh1 & HR1 & Hr1).
  cbn [step rl_step fst snd] in Hr1, HR1, Hh1.
  unfold createInitialSnapshot, mbind, prog_bind, gets, storage. unfold Snapshot_ at 1.
  rewrite (loadSnapshot_spec _ _ Hh HR). change (IsEmptySnap (rl_snapshot rl_init)) with true. cbn match.
  destruct (CreateSnapshot (raftStorage n) 0 (confState n) data) as [s1 r1] eqn:E1. cbn [fst snd] in *.
  exists (setStorage s1 n), (rl_snapshot (rl_createSnapshot rl_init 0 (confState n) data).1).
  split; [cbn [ls_createSnapshot rocks_log_storage]; by rewrite E1|]. cbn [raftStorage setStorage]. unfold Snapshot_.
  rewrite (loadSnapshot_spec _ _ Hh1 HR1). by split_and!.
Qed.

End storage.
