(* ===== verification/RaftNodeExamples.v ===== *)
(** * Concrete runs of the Raft nodes

    A library that records the calls it gets, an encoding of membership changes,
    nodes on an in-memory database, and the runs at which the theorems about nodes
    are applied. *)

From stdpp Require Import countable.
From S2P Require Import Prelude GoBytes GoStrings KvTypes ByteDB LeaseRead ReadIndex ProposalBatcher RaftLog RaftLogRefine RaftLogTheorems.
From S2P Require Import Program RaftNode RaftNodeMemory RaftNodeRocks RaftNodeRuns RaftNodeTheorems RaftNodeStorage.

(** ** Instances *)

#[global] Instance ccType_eq_dec : EqDecision ConfChangeType.
Proof. solve_decision. Defined.

Definition ccTypeNat (t : ConfChangeType) : nat :=
  match t with ConfChangeAddNode => 0 | ConfChangeRemoveNode => 1 | ConfChangeUpdateNode => 2 | ConfChangeAddLearnerNode => 3 end.
Definition ccTypeOf (n : nat) : ConfChangeType :=
  match n with 0 => ConfChangeAddNode | 1 => ConfChangeRemoveNode | 2 => ConfChangeUpdateNode | _ => ConfChangeAddLearnerNode end%nat.

#[global, refine] Instance ccType_countable : Countable ConfChangeType := inj_countable' ccTypeNat ccTypeOf _.
Proof. by intros []. Defined.

#[global] Instance confChange_eq_dec : EqDecision ConfChange.
Proof. solve_decision. Defined.
#[global, refine] Instance confChange_countable : Countable ConfChange :=
  inj_countable' (fun c => (cc_ID c, cc_Type c, cc_NodeID c, cc_Context c)) (fun '(i, t, n, x) => mkConfChange i t n x) _.
Proof. by intros []. Defined.

#[global, refine] Instance countableConf : ConfWire := {
  cw_marshal cc := default "" (rw_marshal cc);
  cw_unmarshal d := default (mkConfChange 0 ConfChangeAddNode 0 "") (rw_unmarshal d);
}.
Proof. intros cc. cbn. rewrite bits_pos_bits, decode_encode. done. Defined.

(** The calls the library got, in their order. *)
#[global] Instance recordingLibrary : RaftLibrary (list LibCall) := {
  lib_call calls c := calls ++ [c];
  lib_applyConfChange calls cc := (calls, emptyConfState);
  lib_status calls := mkLibStatus 1 1 1 "StateLeader" 0 0 [true; true; false];
}.

#[global] Instance rocks_engine_example : NodeEngine (RocksDBStorage MemDB) (list LibCall) := rocksEngine.

Definition threeNodes_cfg (batch : bool) : NodeConfig :=
  mkNodeConfig 1 ["a"; "b"; "c"] false false batch true 10 1 (100 * LeaseRead.millisecond) (100 * LeaseRead.millisecond).

(** Every write succeeds and every choice is the good one. *)
Definition fine : Answers := mkAnswers 0 true true (Some "store") SaveOk true SaveOk.

Definition started (batch : bool) : raftNode (RocksDBStorage MemDB) (list LibCall) :=
  match startNode 0 (threeNodes_cfg batch) opened [] with
  | Ok n => n
  | Err _ => mkNode (threeNodes_cfg batch) emptyConfState 0 0 [] opened None None ∅ true true true 0 false []
  end.

Lemma started_eq batch : startNode 0 (threeNodes_cfg batch) opened [] = Ok (started batch).
Proof. by destruct batch; vm_compute. Qed.

Lemma log3_committed : wf_committed log3.
Proof. split; [unfold log3; concrete_log|done]. Qed.

Definition readyOf (hs : HardState) (ents committed : list Entry) (ms : list Message) : Ready :=
  mkReady None hs emptySnapshot ents committed ms.

(** ** Delivery *)

(** Two committed entries, then the third with the second again. *)
Definition rd12 : Ready := readyOf emptyHardState [] (take 2 log3) [].
Definition rd23 : Ready := readyOf emptyHardState [] (take 2 (drop 1 log3)) [].

Definition ran123 : raftNode (RocksDBStorage MemDB) (list LibCall) := (readyRocks fine rd23 (readyRocks fine rd12 (started false)).1).1.

Lemma ready_step lg (n n' : raftNode (RocksDBStorage MemDB) (list LibCall)) rd :
  ready_of lg rd -> readyRocks fine rd n = (n', Ok tt) -> node_step (ready_of lg) (n, None) (n', None).
Proof.
  intros Hrd Hn. apply (ns_event (ready_of lg) n fine (EReady rd) n' (Ok tt)); [|exact Hn]. by intros rd' [= <-].
Qed.

Lemma ran123_reach : node_reach (ready_of log3) (started false) (ran123, None).
Proof.
  eapply rtc_l; [apply (ready_step _ _ (readyRocks fine rd12 (started false)).1 rd12)|].
  - split; [by exists 0%nat, 2%nat|done].
  - vm_compute. reflexivity.
  - eapply rtc_l; [apply (ready_step _ _ ran123 rd23)|apply rtc_refl]; [|vm_compute; reflexivity].
    split; [by exists 1%nat, 2%nat|done].
Qed.

Lemma node_publishes_log_witness :
  (delivered 0 (out ran123)).2 = ["a"; "b"; "c"] /\ (delivered 0 (out ran123)).2 = proposals false log3 (delivered 0 (out ran123)).1 (appliedIndex ran123).
Proof.
  split; [vm_compute; reflexivity|].
  destruct (node_publishes_log 0 (threeNodes_cfg false) opened [] log3 (started false) ran123 None) as [_ H];
    [apply log3_committed|apply started_eq|vm_compute; split; congruence|reflexivity|apply ran123_reach|].
  exact H.
Defined.

(** ** Batches *)

(** The batcher got "p", a byte that is not text and "r" and sent the first two as
    one batch, which is committed between an empty entry and a change of the
    membership. *)
Definition noText : string := bytes_of [255].

Definition batcher3 : ProposalBatcher := onInput true (onInput true (onInput true (NewProposalBatcher twoAtATime) "p") noText) "r".

Lemma batcher3_reach : b_reachable twoAtATime batcher3.
Proof.
  eapply rtc_l; [apply (bs_input true _ "p"); [reflexivity|discriminate]|].
  eapply rtc_l; [apply (bs_input true _ noText); [reflexivity|discriminate]|].
  eapply rtc_l; [apply (bs_input true _ "r"); [reflexivity|discriminate]|]. apply rtc_refl.
Qed.

Definition batchLog : list Entry :=
  [ent 1 1 ""; ent 2 1 (default "" (head (sent batcher3))); mkEntry 1 3 EntryConfChange (cw_marshal (mkConfChange 1 ConfChangeAddNode 4 "d"))].

Definition rdBatch : Ready := readyOf (mkHardState 1 1 3) batchLog batchLog [].
Definition ranBatch : raftNode (RocksDBStorage MemDB) (list LibCall) := (readyRocks fine rdBatch (started true)).1.

Lemma ranBatch_reach : node_reach (ready_of batchLog) (started true) (ranBatch, None).
Proof.
  eapply rtc_l; [apply (ready_step _ _ ranBatch rdBatch)|apply rtc_refl].
  - split; [by exists 0%nat, 3%nat|done].
  - vm_compute. reflexivity.
Qed.

Lemma batched_proposals_delivered_witness :
  appliedIndex ranBatch = 3 /\ (delivered 0 (out ranBatch)).2 = ["p"; bytes_of [239; 191; 189]] /\
  exists batches, concat batches ++ buffer batcher3 = ["p"; noText; "r"] /\ (delivered 0 (out ranBatch)).2 = concat (arrives <$> batches).
Proof.
  split; [vm_compute; reflexivity|]. split; [vm_compute; reflexivity|].
  destruct (batched_proposals_delivered twoAtATime batcher3 0 (threeNodes_cfg true) opened [] batchLog (started true) ranBatch None)
    as (batches & _ & Hb & _ & H & _).
  - split; [|done]. unfold batchLog. concrete_log.
  - apply started_eq.
  - vm_compute. reflexivity.
  - reflexivity.
  - reflexivity.
  - apply ranBatch_reach.
  - vm_compute. reflexivity.
  - apply batcher3_reach.
  - reflexivity.
  - repeat constructor; discriminate.
  - vm_compute. reflexivity.
  - exists batches. split; [exact Hb|]. apply H. vm_compute. discriminate.
Defined.

(** ** Storage *)

Definition msg (to : Z) : Message := mkMessage 3 to emptySnapshot "m".

(** A disk that refuses the write of the snapshot file's Ready: the in-memory node
    sends all the same. *)
Definition walFails : Answers := mkAnswers 0 true true (Some "store") SnapFileFails false SaveOk.
Definition rdSnap : Ready := mkReady None (mkHardState 2 1 5) (mkSnapshot "s" emptyConfState 5 2) [ent 6 2 "f"] [] [msg 2].

Lemma memory_ready_order_witness :
  exists ms rest, length ms = 1%nat /\ out (readyMemory walFails rdSnap (started false)).1 = out (started false) ++
    [OSnapFile (mkSnapshot "s" emptyConfState 5 2) false; OWal (mkHardState 2 1 5) [ent 6 2 "f"] false; OReload 5; OSend ms] ++ rest.
Proof.
  destruct (memory_ready_order walFails rdSnap (started false)) as (ms & rest & Hl & Ho); [right; reflexivity|].
  exists ms, rest. split; [exact Hl|exact Ho].
Defined.

(** The same Ready on a working database, which then refuses a write. *)
Definition rdVote : Ready := readyOf (mkHardState 2 1 0) [ent 1 2 "x"] [] [msg 2].
Definition ranVote : raftNode (RocksDBStorage MemDB) (list LibCall) := (readyRocks fine rdVote (started false)).1.

Lemma started_rep : Rep (raftStorage (started false)) rl_init.
Proof. exact (proj2 opened_rep). Qed.

Lemma every_snapshot_encodes (sn : Snapshot) : encodes sn.
Proof. by eexists. Qed.

Lemma rocks_ready_write_ahead_witness :
  exists s' lg', NewRocksDBStorage (db (raftStorage ranVote)) "n1" = Ok s' /\ Rep s' lg' /\ rl_hard lg' = Some (mkHardState 2 1 0) /\ rl_last lg' = 1.
Proof.
  destruct (rocks_ready_write_ahead every_snapshot_encodes fine rdVote (started false) ranVote (Ok tt) rl_init (db (raftStorage ranVote))) as (s' & lg' & Hn & HR & Ht).
  - apply started_rep.
  - reflexivity.
  - concrete_log.
  - vm_compute. reflexivity.
  - vm_compute. reflexivity.
  - vm_compute. done.
  - reflexivity.
  - exists s', lg'. split; [exact Hn|]. split; [exact HR|]. split; [apply Ht|apply Ht].
Defined.

(** A log of ten thousand and one entries. *)
Definition manyEntries : list Entry := (fun i => ent i 1 "x") <$> seqZ 1 10001.

Lemma manyEntries_numbered : numbered 1 manyEntries.
Proof.
  intros i e He. unfold manyEntries in He. rewrite list_lookup_fmap in He.
  destruct (seqZ 1 10001 !! i) as [z|] eqn:E; [|done]. apply lookup_seqZ in E as [-> _]. by injection He as <-.
Qed.

Lemma manyEntries_length : Z.of_nat (length manyEntries) = 10001.
Proof. unfold manyEntries. rewrite length_fmap, length_seqZ. lia. Qed.

Lemma manyEntries_ok : appendOk rl_init manyEntries.
Proof.
  pose proof manyEntries_numbered as Hn.
  pose proof manyEntries_length as Hl.
  assert (He : Forall encodes manyEntries) by (apply List.Forall_forall; intros e _; by eexists).
  destruct manyEntries as [|e0 es] eqn:E; [done|]. pose proof (Hn 0%nat e0 eq_refl) as H0. cbn [rl_off rl_init] in *.
  unfold appendOk. rewrite H0. change (1 + Z.of_nat 0) with 1. split; [done|]. split; [done|]. rewrite Hl.
  change (rl_last rl_init) with 0. cbn [rl_off rl_init]. lia.
Qed.

Lemma rocks_snapshot_succeeds_witness :
  exists (s : RocksDBStorage MemDB) n', maybeTriggerSnapshot saveSnapRocks fine true (setIndexes 0 10001 (setStorage s (started false))) = (n', Ok tt) /\
    snapshotIndex n' = 10001.
Proof.
  destruct opened_rep as [Hh HR].
  destruct (Append_refines opened rl_init manyEntries Hh HR manyEntries_ok) as (s & _ & Hhs & HRs).
  assert (Hlast : rl_last (rl_append rl_init manyEntries) = 10001).
  { unfold rl_append, rl_last. destruct manyEntries as [|e0 es] eqn:E; [by pose proof manyEntries_length; rewrite E in *|].
    cbn [rl_init rl_off rl_ents]. rewrite length_app, take_nil. pose proof manyEntries_length. rewrite E in *. cbn [length] in *. lia. }
  destruct (rocks_snapshot_succeeds every_snapshot_encodes fine true (setIndexes 0 10001 (setStorage s (started false)))
    (rl_append rl_init manyEntries) "store") as (n' & Hn & Hi & _).
  - exact Hhs.
  - exact HRs.
  - rewrite Hlast. done.
  - reflexivity.
  - reflexivity.
  - reflexivity.
  - reflexivity.
  - exists s, n'. split; [exact Hn|exact Hi].
Defined.

(** * One database for the Raft log and the state machine

    [cmd/metastore/main.go] gives the node on RocksDB and its store the same
    database.  A snapshot of the store is a dump of all of it, and reloading one
    replaces all of it, the log and the vote of the node included.  A restart
    without a snapshot file starts the node at index 0 on a store that has kept
    the effect of everything it applied. *)

From S2P Require Import Prelude GoBytes KvTypes ShardedMap MemoryEtcd BatchApply RaftCodec OrderedTree ByteDB LeaseRead ReadIndex ProposalBatcher.
From S2P Require Import RaftLog RaftLogRefine RaftLogTheorems Program RaftNode RaftNodeMemory RaftNodeRocks RaftNodeRuns.
From S2P Require Import RocksCodec RocksEtcd RocksRaft RocksEtcdSpec RocksEtcdRefine RocksEtcdTheorems RocksBatch.

Section shared.
Context {DB R : Type} `{!ByteDB DB, !ByteDBLaws DB, !MapOrder, !ProtoWire pbLease, !TextWire LeaseInfo, !Gob}.
Context `{!RaftWire Entry, !RaftWire HardState, !RaftWire ConfState, !RaftWire Snapshot}.
Context `{!RaftLibrary R, !BatchJson, !ConfWire}.

Lemma reload_contents (r1 r2 : RocksDB DB) :
  healthy (RocksEtcd.db r1) -> healthy (RocksEtcd.db r2) ->
  exists r, RocksRaft.reload r2 (Loaded_ (RocksRaft.GetSnapshot r1)) = Some r /\ healthy (RocksEtcd.db r) /\
    contents (RocksEtcd.db r) = contents (RocksEtcd.db r1).
Proof.
  intros Hh1 Hh2. unfold RocksRaft.reload, RocksRaft.GetSnapshot. rewrite snapshot_map by done.
  destruct (recover_ok r2 (contents (RocksEtcd.db r1)) Hh2) as (d & -> & Hd & Hc). by exists (RocksEtcd.setDb r2 d).
Qed.

Lemma InitialState_empty (s : RocksDBStorage DB) : healthy (RaftLog.db s) -> Rep s rl_init ->
  InitialState s = Ok (emptyHardState, emptyConfState).
Proof. intros Hh HR. by rewrite (InitialState_refines s rl_init). Qed.

(** Where a node starts when it finds no snapshot file. *)
Lemma startRocks_index start now c (d : DB) lg :
  healthy d -> wf_log lg -> Persisted (nodeName (nc_id c)) (contents d) lg ->
  exists n : RaftNode.raftNode (RocksDBStorage DB) R, startRocks start now c d LoadNoSnapshot = Ok n /\
    appliedIndex n = sn_Index (rl_snapshot lg) /\ Rep (raftStorage n) lg.
Proof.
  intros Hh Hwf HP. unfold startRocks, initRocksDBStorage.
  rewrite (NewRocksDBStorage_persisted d _ lg Hh Hwf HP). cbn [loadSnapshotRocks result_bind].
  change (IsEmptySnap emptySnapshot) with true. cbn match. cbn [result_bind].
  pose proof (Rep_reopen d _ lg Hwf HP) as HR. set (s := mkStorage d _ _ _) in *.
  rewrite (InitialState_refines s lg) by done. unfold startNode. cbn [ls_snapshot rocks_log_storage]. unfold Snapshot_.
  rewrite (loadSnapshot_spec s lg Hh HR). destruct (leaseManagers now c) as [lm rm]. eexists. split; [done|]. by split.
Qed.

End shared.

(** A snapshot from another node erases the Raft state of the node that
    installs it.  Before, the database holds the node's term and vote and its
    log; after its store has loaded the snapshot, the storage opened on the same
    database is empty: first index 1, no entries, no term and no vote. *)
Theorem snapshot_erases_raft_state {DB : Type} `{ByteDBLaws DB, !MapOrder, !ProtoWire pbLease, !TextWire LeaseInfo, !Gob,
      !RaftWire Entry, !RaftWire HardState, !RaftWire ConfState, !RaftWire Snapshot}
    (sender receiver : RocksDB DB) (name : string) (lg : RLog) (st : HardState)
    (Hs : healthy (RocksEtcd.db sender)) (Hr : healthy (RocksEtcd.db receiver))
    (Hwf : wf_log lg) (HP : Persisted name (contents (RocksEtcd.db receiver)) lg) (Hst : rl_hard lg = Some st)
    (Hother : forall key, bytes_at (contents (RocksEtcd.db sender)) (prefixedKey name key) = "") :
  exists r s0 s1,
    RocksRaft.reload receiver (Loaded_ (RocksRaft.GetSnapshot sender)) = Some r /\
    NewRocksDBStorage (RocksEtcd.db receiver) name = Ok s0 /\
    (exists cs, InitialState s0 = Ok (st, cs)) /\ LastIndex s0 = rl_last lg /\
    NewRocksDBStorage (RocksEtcd.db r) name = Ok s1 /\
    InitialState s1 = Ok (emptyHardState, emptyConfState) /\ FirstIndex s1 = 1 /\ LastIndex s1 = 0.
Proof.
  destruct (reload_contents sender receiver Hs Hr) as (r & Hrel & Hh & Hc).
  destruct (NewRocksDBStorage_fresh (RocksEtcd.db r) name Hh) as (s1 & Hs1 & Hh1 & HR1).
  { intros k. rewrite Hc. apply Hother. }
  pose proof (Rep_reopen _ _ _ Hwf HP) as HR0.
  eexists r, _, s1. split; [exact Hrel|]. split; [by apply (NewRocksDBStorage_persisted _ name lg)|].
  split; [rewrite (InitialState_refines _ lg) by done; rewrite Hst; by eexists|]. split; [done|].
  split; [exact Hs1|]. split; [by apply InitialState_empty|]. split; [apply HR1|apply HR1].
Qed.

(** A persistent node that restarts before its first snapshot applies its log
    again.  It starts at index 0, so it publishes the committed entries from the
    first one on; the store, opened on its own database, still has what they did,
    and a put that is delivered again counts as a second one. *)
Theorem rocks_restart_applies_again {DB R : Type} `{ByteDBLaws DB, !MapOrder, !ProtoWire pbLease, !TextWire LeaseInfo, !Gob,
      !RaftWire Entry, !RaftWire HardState, !RaftWire ConfState, !RaftWire Snapshot, !RaftLibrary R, !BatchJson, !ConfWire}
    (pb : bool) (goodKey : string -> Prop) `{!LeaseStorable pb goodKey} start now t (c : NodeConfig) (r : RocksDB DB) (a : State)
    (lg : RLog) (key value : string)
    (HI : Inv (goodKey := goodKey) r a) (Hs : sizesOk key value) (Ht : is_i64 t)
    (Hgob : forall s z, gob_int64 s = Some z -> is_i64 z)
    (Hput : a_kvs a !! key = Some (nextKv None key value 0 1))
    (Hwf : wf_log lg) (HP : Persisted (nodeName (nc_id c)) (contents (RocksEtcd.db r)) lg)
    (Hsnap : rl_snap lg = None) (Hoff : rl_off lg = 0) :
  exists (n : RaftNode.raftNode (RocksDBStorage DB) R) r1 r2 kv,
    startRocks start now c (RocksEtcd.db r) LoadNoSnapshot = Ok n /\ appliedIndex n = 0 /\
    NewRocksDB (RocksEtcd.db r) NoSnapshot = Some r1 /\
    applyOperationsBatch pb r1 [(t, putCmd key value 0)] = Some r2 /\
    getKeyValue r2 key = Some (Ok (Some kv)) /\ Version kv = 2.
Proof.
  destruct (startRocks_index start now c (RocksEtcd.db r) lg (inv_healthy _ _ HI) Hwf HP) as (n & Hn & Ha & _).
  unfold rl_snapshot in Ha. rewrite Hsnap, Hoff in Ha.
  set (r0 := mkRocksDB (RocksEtcd.db r) 0 ∅ (mkPending ∅ ∅ 0 0 ∅ []) None 0).
  set (rev := loadCurrentRevision r0).
  assert (HI0 : Inv (goodKey := goodKey) (setRevision r0 rev) (mkState (a_kvs a) (a_leases a) rev ∅)).
  { destruct HI; constructor; cbn; try done. unfold rev, loadCurrentRevision. repeat case_match; try done; try (unfold_ints; lia); by eapply Hgob. }
  destruct (commit_ok (pb := pb) (setRevision r0 rev) _ [(t, putCmd key value 0)] HI0) as (r2 & Hr2 & HI2 & _).
  { by constructor. }
  { constructor; [split; [done|apply putCmd_valid; [done|unfold_ints; lia|done]]|constructor]. }
  exists n, (setRevision r0 rev), r2, (nextKv (Some (nextKv None key value 0 1)) key value 0 (wrap_i64 (rev + 1))).
  split_and!; [exact Hn|exact Ha|done|exact Hr2| |done].
  rewrite (getKeyValue_ok _ _ _ HI2). unfold aCommit. cbn [aPrepareAll fold_left fst snd]. rewrite aPrepare_put.
  cbn zeta. cbn -[nextKv wrap_i64]. by rewrite lookup_insert_eq, Hput.
Qed.

(** ** Witnesses *)

(** The database of node 1, with a log of one entry, a term and a vote. *)
Definition openedNode1 : RocksDBStorage MemDB :=
  match NewRocksDBStorage emptyDB "node_1" with Ok s => s | Err _ => mkStorage emptyDB "node_1" 0 0 end.
Definition node1DB : MemDB := RaftLog.db (Append (SetHardState openedNode1 (mkHardState 1 2 1)).1 [ent 1 1 "put"]).1.
Definition node1Log : RLog := mkRLog 0 [ent 1 1 "put"] None (Some (mkHardState 1 2 1)) None.

Lemma node1Log_wf : wf_log node1Log.
Proof. constructor; [done|done|]. cbn. concrete_log. Qed.

(** A database with these bytes holds the log. *)
Ltac persisted :=
  constructor; [vm_compute; reflexivity|vm_compute; reflexivity| |vm_compute; reflexivity|vm_compute; reflexivity|vm_compute; reflexivity];
  intros [|[|i]] e He; cbn in He; simplify_eq; vm_compute; reflexivity.

Lemma snapshot_erases_raft_state_witness :
  exists r s1, RocksRaft.reload (mkRocksDB node1DB 0 ∅ noPending None 1) (Loaded_ (RocksRaft.GetSnapshot advanced)) = Some r /\
    NewRocksDBStorage (RocksEtcd.db r) "node_1" = Ok s1 /\ InitialState s1 = Ok (emptyHardState, emptyConfState) /\ LastIndex s1 = 0.
Proof.
  destruct (snapshot_erases_raft_state advanced (mkRocksDB node1DB 0 ∅ noPending None 1) "node_1" node1Log (mkHardState 1 2 1))
    as (r & s0 & s1 & Hr & _ & _ & _ & Hs1 & Hi & _ & Hl).
  - apply advanced_Inv.
  - by split.
  - apply node1Log_wf.
  - persisted.
  - reflexivity.
  - intros key. assert (Hd : contents (RocksEtcd.db advanced) = <[kvKey "k" := bytes_at (contents (RocksEtcd.db advanced)) (kvKey "k")]>
      (<["meta:revision" := bytes_at (contents (RocksEtcd.db advanced)) "meta:revision"]> ∅)) by (vm_compute; reflexivity).
    rewrite Hd. unfold bytes_at at 1. rewrite !lookup_insert_ne by discriminate. done.
  - exists r, s1. split_and!; [exact Hr|exact Hs1|exact Hi|exact Hl].
Defined.

(** The store of node 1 on that database. *)
Definition store1 : RocksDB MemDB := mkRocksDB node1DB 0 ∅ noPending None 1.

Lemma store1_Inv : Inv (goodKey := fun _ => True) store1 emptyState.
Proof. by constructor. Qed.

Definition store1put : RocksDB MemDB := default store1 (fst <$> putUnlocked true store1 "k" "v" 0).

Lemma store1put_Inv : Inv (goodKey := fun _ => True) store1put (aPut emptyState "k" "v" 0).
Proof.
  destruct (put_ok (pb := true) (goodKey := fun _ => True) store1 emptyState "k" "v" 0 store1_Inv) as (r & Hr & _ & HI);
    [split; done|unfold_ints; lia|done|]. unfold store1put. by rewrite Hr.
Qed.

Lemma rocks_restart_applies_again_witness :
  exists (n : RaftNode.raftNode (RocksDBStorage MemDB) (list LibCall)) r1 r2 kv,
    startRocks (fun _ _ => []) 0 (threeNodes_cfg false) (RocksEtcd.db store1put) LoadNoSnapshot = Ok n /\ appliedIndex n = 0 /\
    NewRocksDB (RocksEtcd.db store1put) NoSnapshot = Some r1 /\ applyOperationsBatch true r1 [(0, putCmd "k" "v" 0)] = Some r2 /\
    getKeyValue r2 "k" = Some (Ok (Some kv)) /\ Version kv = 2.
Proof.
  apply (rocks_restart_applies_again true (fun _ => True) (fun _ _ => []) 0 0 (threeNodes_cfg false) store1put (aPut emptyState "k" "v" 0)
    node1Log "k" "v" store1put_Inv).
  - split; done.
  - unfold_ints. lia.
  - done.
  - vm_compute. reflexivity.
  - apply node1Log_wf.
  - persisted.
  - reflexivity.
  - reflexivity.
Defined.
