(* ===== verification/Config.v ===== *)
(** * Configuration ([pkg/config/config.go])

    The configuration as it is read from YAML, filled with defaults, changed by
    the environment and checked.  Durations are nanoseconds; the YAML library, the
    file system and the environment are arguments. *)

From Stdlib Require Import Floats.SpecFloat.
From S2P Require Import Prelude GoBytes KvTypes LeaseRead ProposalBatcher RaftNode.
Local Open Scope go_scope.

Definition millisecond : Z := 1000000.
Definition second : Z := 1000 * millisecond.
Definition minute : Z := 60 * second.
Definition hour : Z := 60 * minute.

(** ** Structures *)

Record EtcdConfig := mkEtcdConfig { etcd_Address : string }.
Record HTTPConfig := mkHTTPConfig { http_Address : string }.
Record MySQLConfig := mkMySQLConfig { mysql_Address : string; mysql_Username : string; mysql_Password : string }.

Record GRPCConfig := mkGRPCConfig {
  grpc_MaxRecvMsgSize : Z; grpc_MaxSendMsgSize : Z; grpc_MaxConcurrentStreams : Z;
  grpc_InitialWindowSize : Z; grpc_InitialConnWindowSize : Z;
  grpc_KeepaliveTime : Z; grpc_KeepaliveTimeout : Z; grpc_MaxConnectionIdle : Z;
  grpc_MaxConnectionAge : Z; grpc_MaxConnectionAgeGrace : Z;
  grpc_EnableRateLimit : bool; grpc_RateLimitQPS : Z; grpc_RateLimitBurst : Z;
}.

Record LimitsConfig := mkLimitsConfig {
  lim_MaxConnections : Z; lim_MaxWatchCount : Z; lim_MaxLeaseCount : Z;
  lim_MaxRequestSize : Z; lim_MaxMemoryMB : Z; lim_MaxRequests : Z;
}.

Record LeaseConfig := mkLeaseConfig { lease_CheckInterval : Z; lease_DefaultTTL : Z }.

Record AuthConfig := mkAuthConfig {
  auth_TokenTTL : Z; auth_TokenCleanupInterval : Z; auth_BcryptCost : Z; auth_EnableAudit : bool;
}.

Record MaintenanceConfig := mkMaintenanceConfig { maint_SnapshotChunkSize : Z }.

Record ReliabilityConfig := mkReliabilityConfig {
  rel_ShutdownTimeout : Z; rel_DrainTimeout : Z;
  rel_EnableCRC : bool; rel_EnableHealthCheck : bool; rel_EnablePanicRecovery : bool;
}.

Record LogConfig := mkLogConfig {
  log_Level : string; log_Encoding : string; log_OutputPaths : list string; log_ErrorOutputPaths : list string;
}.

Record MonitoringConfig := mkMonitoringConfig {
  mon_EnablePrometheus : bool; mon_PrometheusPort : Z; mon_SlowRequestThreshold : Z;
}.

Record PerformanceConfig := mkPerformanceConfig {
  perf_EnableProtobuf : bool; perf_EnableSnapshotProtobuf : bool; perf_EnableLeaseProtobuf : bool;
}.

Definition NodeRoleData : string := "data".
Definition NodeRoleWitness : string := "witness".

Record WitnessConfig := mkWitnessConfig { wit_PersistVote : bool; wit_ForwardRequests : bool }.

Record RaftBatchConfig := mkRaftBatchConfig {
  rb_Enable : bool; rb_MinBatchSize : Z; rb_MaxBatchSize : Z; rb_MinTimeout : Z; rb_MaxTimeout : Z;
  rb_LoadThreshold : spec_float;
}.

Record LeaseReadConfig := mkLeaseReadConfig { lr_Enable : bool; lr_ClockDrift : Z; lr_ReadTimeout : Z }.

Record RaftConfig := mkRaftConfig {
  raft_NodeRole : string; raft_Witness : WitnessConfig;
  raft_TickInterval : Z; raft_ElectionTick : Z; raft_HeartbeatTick : Z;
  raft_MaxSizePerMsg : Z; raft_MaxInflightMsgs : Z; raft_MaxUncommittedEntriesSize : Z;
  raft_PreVote : bool; raft_CheckQuorum : bool;
  raft_Batch : RaftBatchConfig; raft_LeaseRead : LeaseReadConfig;
}.

Record RocksDBConfig := mkRocksDBConfig {
  rdb_BlockCacheSize : Z; rdb_WriteBufferSize : Z; rdb_MaxWriteBufferNumber : Z; rdb_MinWriteBufferNumberToMerge : Z;
  rdb_MaxBackgroundJobs : Z; rdb_Level0FileNumCompactionTrigger : Z; rdb_Level0SlowdownWritesTrigger : Z;
  rdb_Level0StopWritesTrigger : Z; rdb_BloomFilterBitsPerKey : Z; rdb_BlockBasedTableBloomFilter : bool;
  rdb_MaxOpenFiles : Z; rdb_UseFsync : bool; rdb_BytesPerSync : Z;
}.

Record MVCCRetentionConfig := mkMVCCRetentionConfig { ret_MaxRevisions : Z; ret_MaxAge : Z }.
Record MVCCAutoCompactionConfig := mkMVCCAutoCompactionConfig {
  ac_Enable : bool; ac_Mode : string; ac_Retention : Z; ac_Period : Z;
}.
Record MVCCCompactionConfig := mkMVCCCompactionConfig { cp_BatchSize : Z; cp_BatchInterval : Z }.
Record MVCCConfig := mkMVCCConfig {
  mvcc_Retention : MVCCRetentionConfig; mvcc_AutoCompaction : MVCCAutoCompactionConfig; mvcc_Compaction : MVCCCompactionConfig;
}.

Record ServerConfig := mkServerConfig {
  ClusterID : Z; MemberID : Z;
  Etcd : EtcdConfig; HTTP : HTTPConfig; MySQL : MySQLConfig;
  GRPC : GRPCConfig; Limits : LimitsConfig; LeaseCfg : LeaseConfig; AuthCfg : AuthConfig;
  Maintenance : MaintenanceConfig; Reliability : ReliabilityConfig; LogCfg : LogConfig; Monitoring : MonitoringConfig;
  Performance : PerformanceConfig; RaftCfg : RaftConfig; RocksDBCfg : RocksDBConfig; MVCC : MVCCConfig;
}.

(** [Config] has one field, [Server]. *)
Definition Config : Type := ServerConfig.

Definition IsWitness (r : RaftConfig) : bool := String.eqb (raft_NodeRole r) NodeRoleWitness.
Definition IsDataNode (r : RaftConfig) : bool :=
  String.eqb (raft_NodeRole r) NodeRoleData || String.eqb (raft_NodeRole r) "".

(** ** Defaults *)

(** [if x == 0 { x = d }] and its like for strings and lists *)
Definition orInt (x d : Z) : Z := if x =? 0 then d else x.
Definition orStr (s d : string) : string := if String.eqb s "" then d else s.
Definition orList (l d : list string) : list string := match l with [] => d | _ => l end.
Definition orFloat (x d : spec_float) : spec_float := if SFeqb x (S754_zero false) then d else x.

Definition defaultGRPC (g : GRPCConfig) : GRPCConfig :=
  mkGRPCConfig (orInt (grpc_MaxRecvMsgSize g) 4194304) (orInt (grpc_MaxSendMsgSize g) 4194304)
    (orInt (grpc_MaxConcurrentStreams g) 2048) (orInt (grpc_InitialWindowSize g) 8388608)
    (orInt (grpc_InitialConnWindowSize g) 16777216) (orInt (grpc_KeepaliveTime g) (10 * second))
    (orInt (grpc_KeepaliveTimeout g) (10 * second)) (orInt (grpc_MaxConnectionIdle g) (300 * second))
    (orInt (grpc_MaxConnectionAge g) (10 * minute)) (orInt (grpc_MaxConnectionAgeGrace g) (10 * second))
    (grpc_EnableRateLimit g) (grpc_RateLimitQPS g) (grpc_RateLimitBurst g).

Definition defaultLimits (l : LimitsConfig) : LimitsConfig :=
  mkLimitsConfig (orInt (lim_MaxConnections l) 1000) (orInt (lim_MaxWatchCount l) 10000) (orInt (lim_MaxLeaseCount l) 10000)
    (orInt (lim_MaxRequestSize l) 1572864) (orInt (lim_MaxMemoryMB l) 8192) (orInt (lim_MaxRequests l) 5000).

Definition defaultLease (l : LeaseConfig) : LeaseConfig :=
  mkLeaseConfig (orInt (lease_CheckInterval l) second) (orInt (lease_DefaultTTL l) (60 * second)).

Definition defaultAuth (a : AuthConfig) : AuthConfig :=
  mkAuthConfig (orInt (auth_TokenTTL a) (24 * hour)) (orInt (auth_TokenCleanupInterval a) (5 * minute))
    (orInt (auth_BcryptCost a) 10) (auth_EnableAudit a).

(** The two checks are switched on whatever was configured. *)
Definition defaultReliability (r : ReliabilityConfig) : ReliabilityConfig :=
  mkReliabilityConfig (orInt (rel_ShutdownTimeout r) (30 * second)) (orInt (rel_DrainTimeout r) (5 * second))
    (rel_EnableCRC r) true true.

Definition defaultLog (l : LogConfig) : LogConfig :=
  mkLogConfig (orStr (log_Level l) "info") (orStr (log_Encoding l) "json")
    (orList (log_OutputPaths l) ["stdout"]) (orList (log_ErrorOutputPaths l) ["stderr"]).

Definition defaultMonitoring (m : MonitoringConfig) : MonitoringConfig :=
  mkMonitoringConfig true (orInt (mon_PrometheusPort m) 9090) (orInt (mon_SlowRequestThreshold m) (100 * millisecond)).

Definition defaultBatch (b : RaftBatchConfig) : RaftBatchConfig :=
  mkRaftBatchConfig true (orInt (rb_MinBatchSize b) 1) (orInt (rb_MaxBatchSize b) 256)
    (orInt (rb_MinTimeout b) (5 * millisecond)) (orInt (rb_MaxTimeout b) (20 * millisecond))
    (orFloat (rb_LoadThreshold b) (f64_ratio 7 10)).

(** Lease reads are on for data nodes and off for witnesses. *)
Definition defaultLeaseRead (witness : bool) (l : LeaseReadConfig) : LeaseReadConfig :=
  mkLeaseReadConfig (negb witness) (orInt (lr_ClockDrift l) (100 * millisecond)) (orInt (lr_ReadTimeout l) (5 * second)).

Definition defaultRaft (r : RaftConfig) : RaftConfig :=
  let role := orStr (raft_NodeRole r) NodeRoleData in
  let witness := String.eqb role NodeRoleWitness in
  mkRaftConfig role
    (mkWitnessConfig (witness || wit_PersistVote (raft_Witness r)) (wit_ForwardRequests (raft_Witness r)))
    (orInt (raft_TickInterval r) (100 * millisecond)) (orInt (raft_ElectionTick r) 10) (orInt (raft_HeartbeatTick r) 1)
    (orInt (raft_MaxSizePerMsg r) 4194304) (orInt (raft_MaxInflightMsgs r) 1024)
    (orInt (raft_MaxUncommittedEntriesSize r) (2 ^ 30)) true true
    (defaultBatch (raft_Batch r)) (defaultLeaseRead witness (raft_LeaseRead r)).

Definition defaultRocksDB (r : RocksDBConfig) : RocksDBConfig :=
  mkRocksDBConfig (orInt (rdb_BlockCacheSize r) 268435456) (orInt (rdb_WriteBufferSize r) 67108864)
    (orInt (rdb_MaxWriteBufferNumber r) 3) (orInt (rdb_MinWriteBufferNumberToMerge r) 1)
    (orInt (rdb_MaxBackgroundJobs r) 4) (orInt (rdb_Level0FileNumCompactionTrigger r) 4)
    (orInt (rdb_Level0SlowdownWritesTrigger r) 20) (orInt (rdb_Level0StopWritesTrigger r) 36)
    (orInt (rdb_BloomFilterBitsPerKey r) 10) true (orInt (rdb_MaxOpenFiles r) 10000) (rdb_UseFsync r)
    (orInt (rdb_BytesPerSync r) 1048576).

Definition defaultMVCC (m : MVCCConfig) : MVCCConfig :=
  mkMVCCConfig
    (mkMVCCRetentionConfig (orInt (ret_MaxRevisions (mvcc_Retention m)) 1000) (ret_MaxAge (mvcc_Retention m)))
    (mkMVCCAutoCompactionConfig true (orStr (ac_Mode (mvcc_AutoCompaction m)) "revision")
       (orInt (ac_Retention (mvcc_AutoCompaction m)) 1000) (ac_Period (mvcc_AutoCompaction m)))
    (mkMVCCCompactionConfig (orInt (cp_BatchSize (mvcc_Compaction m)) 1000)
       (orInt (cp_BatchInterval (mvcc_Compaction m)) (10 * millisecond))).

Definition SetDefaults (c : Config) : Config :=
  mkServerConfig (ClusterID c) (MemberID c)
    (mkEtcdConfig (orStr (etcd_Address (Etcd c)) ":2379")) (mkHTTPConfig (orStr (http_Address (HTTP c)) ":9121"))
    (mkMySQLConfig (orStr (mysql_Address (MySQL c)) ":3306") (orStr (mysql_Username (MySQL c)) "root") (mysql_Password (MySQL c)))
    (defaultGRPC (GRPC c)) (defaultLimits (Limits c)) (defaultLease (LeaseCfg c)) (defaultAuth (AuthCfg c))
    (mkMaintenanceConfig (orInt (maint_SnapshotChunkSize (Maintenance c)) 4194304))
    (defaultReliability (Reliability c)) (defaultLog (LogCfg c)) (defaultMonitoring (Monitoring c))
    (mkPerformanceConfig true true true) (defaultRaft (RaftCfg c)) (defaultRocksDB (RocksDBCfg c)) (defaultMVCC (MVCC c)).

(** The zero value, with the fields [DefaultConfig] sets. *)
Definition zeroConfig (clusterID memberID : Z) (etcdAddress : string) : Config :=
  mkServerConfig clusterID memberID (mkEtcdConfig etcdAddress) (mkHTTPConfig "") (mkMySQLConfig "" "" "")
    (mkGRPCConfig 0 0 0 0 0 0 0 0 0 0 false 0 0) (mkLimitsConfig 0 0 0 0 0 0) (mkLeaseConfig 0 0) (mkAuthConfig 0 0 0 false)
    (mkMaintenanceConfig 0) (mkReliabilityConfig 0 0 false false false) (mkLogConfig "" "" [] []) (mkMonitoringConfig false 0 0)
    (mkPerformanceConfig false false false)
    (mkRaftConfig "" (mkWitnessConfig false false) 0 0 0 0 0 0 false false
       (mkRaftBatchConfig false 0 0 0 0 (S754_zero false)) (mkLeaseReadConfig false 0 0))
    (mkRocksDBConfig 0 0 0 0 0 0 0 0 0 false 0 false 0)
    (mkMVCCConfig (mkMVCCRetentionConfig 0 0) (mkMVCCAutoCompactionConfig false "" 0 0) (mkMVCCCompactionConfig 0 0)).

Definition DefaultConfig (clusterID memberID : Z) (etcdAddress : string) : Config :=
  SetDefaults (zeroConfig clusterID memberID etcdAddress).

(** ** The environment *)

Definition digitOf (c : ascii) : option Z :=
  let d := byte_val c - 48 in if (0 <=? d) && (d <=? 9) then Some d else None.

Fixpoint parseDigits (s : string) (acc : Z) : option Z :=
  match s with
  | "" => Some acc
  | String c s' => match digitOf c with Some d => parseDigits s' (10 * acc + d) | None => None end
  end.

(** [strconv.ParseUint(s, 10, 64)] *)
Definition parseUint (s : string) : option Z :=
  if String.eqb s "" then None
  else match parseDigits s 0 with Some n => if n <? 2 ^ 64 then Some n else None | None => None end.

(** An identifier from the environment: kept if it does not parse. *)
Definition envId (s : string) (old : Z) : Z := if String.eqb s "" then old else default old (parseUint s).

Definition OverrideFromEnv (getenv : string -> string) (c : Config) : Config :=
  mkServerConfig (envId (getenv "METASTORE_CLUSTER_ID") (ClusterID c)) (envId (getenv "METASTORE_MEMBER_ID") (MemberID c))
    (mkEtcdConfig (orStr (getenv "METASTORE_ETCD_ADDRESS") (etcd_Address (Etcd c)))) (HTTP c) (MySQL c)
    (GRPC c) (Limits c) (LeaseCfg c) (AuthCfg c) (Maintenance c) (Reliability c)
    (mkLogConfig (orStr (getenv "METASTORE_LOG_LEVEL") (log_Level (LogCfg c)))
       (orStr (getenv "METASTORE_LOG_ENCODING") (log_Encoding (LogCfg c))) (log_OutputPaths (LogCfg c)) (log_ErrorOutputPaths (LogCfg c)))
    (Monitoring c) (Performance c) (RaftCfg c) (RocksDBCfg c) (MVCC c).

(** ** Validation *)

Definition validLogLevels : list string := ["debug"; "info"; "warn"; "error"; "dpanic"; "panic"; "fatal"].

Definition electionTimeoutOf (r : RaftConfig) : Z := wrap_i64 (raft_ElectionTick r * raft_TickInterval r).

Definition validateRaft (r : RaftConfig) : result string unit :=
  fail_if negb (String.eqb (raft_NodeRole r) "") && negb (String.eqb (raft_NodeRole r) NodeRoleData)
    && negb (IsWitness r) with "raft.node_role must be either 'data' or 'witness'";
  fail_if IsWitness r && lr_Enable (raft_LeaseRead r) with "witness nodes cannot have lease_read enabled (no data to serve)";
  fail_if raft_TickInterval r <=? 0 with "raft.tick_interval must be > 0";
  fail_if raft_ElectionTick r <=? 0 with "raft.election_tick must be > 0";
  fail_if raft_HeartbeatTick r <=? 0 with "raft.heartbeat_tick must be > 0";
  fail_if raft_ElectionTick r <=? raft_HeartbeatTick r with "raft.election_tick must be > raft.heartbeat_tick";
  fail_if raft_MaxSizePerMsg r =? 0 with "raft.max_size_per_msg must be > 0";
  fail_if raft_MaxInflightMsgs r <=? 0 with "raft.max_inflight_msgs must be > 0";
  Ok tt.

Definition validateBatch (b : RaftBatchConfig) : result string unit :=
  if rb_Enable b then
    fail_if rb_MinBatchSize b <=? 0 with "raft.batch.min_batch_size must be > 0";
    fail_if rb_MaxBatchSize b <=? 0 with "raft.batch.max_batch_size must be > 0";
    fail_if rb_MinBatchSize b >? rb_MaxBatchSize b with "raft.batch.min_batch_size must be <= max_batch_size";
    fail_if rb_MinTimeout b <=? 0 with "raft.batch.min_timeout must be > 0";
    fail_if rb_MaxTimeout b <=? 0 with "raft.batch.max_timeout must be > 0";
    fail_if rb_MinTimeout b >? rb_MaxTimeout b with "raft.batch.min_timeout must be <= max_timeout";
    fail_if SFltb (rb_LoadThreshold b) (S754_zero false) || SFltb (f64_of_int 1) (rb_LoadThreshold b)
      with "raft.batch.load_threshold must be between 0.0 and 1.0";
    Ok tt
  else Ok tt.

Definition validateLeaseRead (r : RaftConfig) : result string unit :=
  let l := raft_LeaseRead r in
  if lr_Enable l then
    fail_if lr_ClockDrift l <=? 0 with "raft.lease_read.clock_drift must be > 0";
    fail_if lr_ReadTimeout l <=? 0 with "raft.lease_read.read_timeout must be > 0";
    fail_if lr_ClockDrift l >=? electionTimeoutOf r with "raft.lease_read.clock_drift must be < election_timeout";
    Ok tt
  else Ok tt.

Definition validateMVCC (m : MVCCConfig) : result string unit :=
  let a := mvcc_AutoCompaction m in
  fail_if ret_MaxRevisions (mvcc_Retention m) <=? 0 with "mvcc.retention.max_revisions must be > 0";
  fail_if ret_MaxAge (mvcc_Retention m) <? 0 with "mvcc.retention.max_age must be >= 0";
  fail_if ac_Enable a && negb (String.eqb (ac_Mode a) "revision") && negb (String.eqb (ac_Mode a) "periodic")
    with "mvcc.auto_compaction.mode must be 'revision' or 'periodic'";
  fail_if ac_Enable a && String.eqb (ac_Mode a) "revision" && (ac_Retention a <=? 0)
    with "mvcc.auto_compaction.retention must be > 0 in revision mode";
  fail_if ac_Enable a && String.eqb (ac_Mode a) "periodic" && (ac_Period a <=? 0)
    with "mvcc.auto_compaction.period must be > 0 in periodic mode";
  fail_if cp_BatchSize (mvcc_Compaction m) <=? 0 with "mvcc.compaction.batch_size must be > 0";
  fail_if cp_BatchInterval (mvcc_Compaction m) <? 0 with "mvcc.compaction.batch_interval must be >= 0";
  Ok tt.

Definition Validate (c : Config) : result string unit :=
  fail_if ClusterID c =? 0 with "cluster_id is required and must be non-zero";
  fail_if MemberID c =? 0 with "member_id is required and must be non-zero";
  fail_if String.eqb (etcd_Address (Etcd c)) "" with "etcd.address is required";
  fail_if grpc_MaxRecvMsgSize (GRPC c) <? 0 with "grpc.max_recv_msg_size must be >= 0";
  fail_if grpc_MaxSendMsgSize (GRPC c) <? 0 with "grpc.max_send_msg_size must be >= 0";
  fail_if lim_MaxConnections (Limits c) <=? 0 with "limits.max_connections must be > 0";
  fail_if lim_MaxWatchCount (Limits c) <=? 0 with "limits.max_watch_count must be > 0";
  fail_if lim_MaxLeaseCount (Limits c) <=? 0 with "limits.max_lease_count must be > 0";
  fail_if lease_CheckInterval (LeaseCfg c) <=? 0 with "lease.check_interval must be > 0";
  fail_if auth_TokenTTL (AuthCfg c) <=? 0 with "auth.token_ttl must be > 0";
  fail_if (auth_BcryptCost (AuthCfg c) <? 4) || (auth_BcryptCost (AuthCfg c) >? 31)
    with "auth.bcrypt_cost must be between 4 and 31";
  fail_if maint_SnapshotChunkSize (Maintenance c) <=? 0 with "maintenance.snapshot_chunk_size must be > 0";
  fail_if negb (bool_decide (log_Level (LogCfg c) ∈ validLogLevels))
    with "log.level must be one of: debug, info, warn, error, dpanic, panic, fatal";
  fail_if negb (String.eqb (log_Encoding (LogCfg c)) "json") && negb (String.eqb (log_Encoding (LogCfg c)) "console")
    with "log.encoding must be either 'json' or 'console'";
  _ <-! validateRaft (RaftCfg c);
  _ <-! validateBatch (raft_Batch (RaftCfg c));
  _ <-! validateLeaseRead (RaftCfg c);
  validateMVCC (MVCC c).

(** ** Loading *)

(** What reading and parsing the file gives. *)
Inductive ConfigFile :=
  | FileMissing
  | FileUnreadable
  | FileMalformed
  | FileHas (c : Config).

(** The errors of [os.ReadFile], of the YAML library and of [Validate], and
    [fmt.Errorf("msg: %w", err)]. *)
Inductive ConfigError :=
  | PathNotExist
  | PathOther
  | YamlError
  | InvalidConfig (why : string)
  | Wrapped (msg : string) (err : ConfigError).

(** [os.IsNotExist], which does not look inside a wrapped error. *)
Definition IsNotExist (e : ConfigError) : bool := match e with PathNotExist => true | _ => false end.

Definition checked (c : Config) : result ConfigError Config :=
  match Validate c with Ok _ => Ok c | Err why => Err (Wrapped "invalid config" (InvalidConfig why)) end.

Definition LoadConfig (getenv : string -> string) (f : ConfigFile) : result ConfigError Config :=
  match f with
  | FileMissing => Err (Wrapped "failed to read config file" PathNotExist)
  | FileUnreadable => Err (Wrapped "failed to read config file" PathOther)
  | FileMalformed => Err (Wrapped "failed to parse config" YamlError)
  | FileHas c => checked (OverrideFromEnv getenv (SetDefaults c))
  end.

Definition LoadConfigOrDefault (getenv : string -> string) (path : string) (f : ConfigFile) (clusterID memberID : Z)
    (etcdAddress : string) : result ConfigError Config :=
  let useDefault := checked (OverrideFromEnv getenv (DefaultConfig clusterID memberID etcdAddress)) in
  if String.eqb path "" then useDefault
  else
    match LoadConfig getenv f with
    | Ok cfg => Ok cfg
    | Err err => if IsNotExist err then useDefault else Err err
    end.

(** ** Nodes *)

(** The fields of a node that come from the command line and the configuration. *)
Definition nodeConfig (id : Z) (peers : list string) (join : bool) (c : Config) : NodeConfig :=
  let r := RaftCfg c in
  mkNodeConfig id peers join (IsWitness r) (rb_Enable (raft_Batch r)) (lr_Enable (raft_LeaseRead r))
    (raft_ElectionTick r) (raft_HeartbeatTick r) (raft_TickInterval r) (lr_ClockDrift (raft_LeaseRead r)).
