(* ===== verification/ConfigTheorems.v ===== *)
(** * Properties of the configuration

    What a loaded configuration satisfies, and what it makes of a Raft node: the
    length of its leases, and witnesses that stop as soon as they start. *)

From Stdlib Require Import Floats.SpecFloat.
From S2P Require Import Prelude GoBytes ByteDB KvTypes LeaseRead ReadIndex ProposalBatcher RaftLog RaftLogTheorems Program RaftNode RaftNodeExamples Config.
Local Open Scope go_scope.

(** ** Defaults *)

Lemma orInt_idem x d : orInt (orInt x d) d = orInt x d.
Proof. unfold orInt. destruct (Z.eqb_spec x 0) as [->|Hx]; [by destruct (d =? 0)|]. by apply Z.eqb_neq in Hx as ->. Qed.

Lemma orStr_idem s d : orStr (orStr s d) d = orStr s d.
Proof. unfold orStr. destruct (String.eqb s "") eqn:E; [by destruct (String.eqb d "")|]. by rewrite E. Qed.

Lemma orStr_later env s d : orStr (orStr env (orStr s d)) d = orStr env (orStr s d).
Proof. unfold orStr at 2 4. destruct (String.eqb env "") eqn:E; [apply orStr_idem|]. unfold orStr. by rewrite E. Qed.

Lemma orList_idem l d : orList (orList l d) d = orList l d.
Proof. unfold orList. by destruct l, d. Qed.

Lemma orFloat_idem x d : orFloat (orFloat x d) d = orFloat x d.
Proof. unfold orFloat. destruct (SFeqb x _) eqn:E; [by destruct (SFeqb d _)|]. by rewrite E. Qed.

Create Rewrite HintDb defaults.
#[local] Hint Rewrite orInt_idem orStr_idem orStr_later orList_idem orFloat_idem : defaults.

Lemma defaultRaft_idem r : defaultRaft (defaultRaft r) = defaultRaft r.
Proof.
  unfold defaultRaft, defaultBatch, defaultLeaseRead.
  cbn [raft_NodeRole raft_Witness raft_TickInterval raft_ElectionTick raft_HeartbeatTick raft_MaxSizePerMsg raft_MaxInflightMsgs
    raft_MaxUncommittedEntriesSize raft_Batch raft_LeaseRead rb_MinBatchSize rb_MaxBatchSize rb_MinTimeout rb_MaxTimeout
    rb_LoadThreshold lr_ClockDrift lr_ReadTimeout wit_PersistVote wit_ForwardRequests].
  autorewrite with defaults. by rewrite orb_assoc, orb_diag.
Qed.

(** Filling in the defaults once is enough, and the environment leaves none out. *)
Lemma SetDefaults_filled getenv c :
  SetDefaults (OverrideFromEnv getenv (SetDefaults c)) = OverrideFromEnv getenv (SetDefaults c).
Proof.
  unfold SetDefaults, OverrideFromEnv.
  cbn [ClusterID MemberID Etcd HTTP MySQL GRPC Limits LeaseCfg AuthCfg Maintenance Reliability LogCfg Monitoring Performance
    RaftCfg RocksDBCfg MVCC etcd_Address http_Address mysql_Address mysql_Username mysql_Password maint_SnapshotChunkSize].
  rewrite defaultRaft_idem.
  unfold defaultGRPC, defaultLimits, defaultLease, defaultAuth, defaultReliability, defaultLog, defaultMonitoring, defaultRocksDB, defaultMVCC.
  simpl. by autorewrite with defaults.
Qed.

(** ** Loaded configurations *)

Definition filled (getenv : string -> string) (c : Config) : Prop :=
  SetDefaults c = c /\ (exists c0, c = OverrideFromEnv getenv (SetDefaults c0)) /\ Validate c = Ok tt.

Lemma Validate_tt c u : Validate c = Ok u -> Validate c = Ok tt.
Proof. by destruct u. Qed.

Lemma checked_filled getenv c0 c : checked (OverrideFromEnv getenv (SetDefaults c0)) = Ok c -> filled getenv c.
Proof.
  unfold checked. destruct (Validate _) as [u|] eqn:E; [|done]. intros. simplify_eq.
  split_and!; [apply SetDefaults_filled|by eexists|by eapply Validate_tt].
Qed.

Lemma LoadConfigOrDefault_filled getenv path f cid mid addr c :
  LoadConfigOrDefault getenv path f cid mid addr = Ok c -> filled getenv c.
Proof.
  unfold LoadConfigOrDefault. destruct (String.eqb path ""); [by apply checked_filled|].
  unfold LoadConfig. destruct f as [| | |c0]; [done|done|done|]. destruct (checked _) as [c'|e] eqn:E.
  - intros. simplify_eq. by eapply checked_filled.
  - intros Hd. case_match; [|done]. by apply checked_filled in Hd.
Qed.

(** What [Validate] guarantees of the Raft part. *)
Record validRaft (r : RaftConfig) : Prop := {
  vr_role : raft_NodeRole r = "" \/ raft_NodeRole r = NodeRoleData \/ raft_NodeRole r = NodeRoleWitness;
  vr_lease_witness : IsWitness r = true -> lr_Enable (raft_LeaseRead r) = false;
  vr_tick : 0 < raft_TickInterval r;
  vr_ticks : 0 < raft_HeartbeatTick r < raft_ElectionTick r;
  vr_inflight : 0 < raft_MaxInflightMsgs r;
  vr_batch : rb_Enable (raft_Batch r) = true ->
    0 < rb_MinBatchSize (raft_Batch r) <= rb_MaxBatchSize (raft_Batch r) /\
    0 < rb_MinTimeout (raft_Batch r) <= rb_MaxTimeout (raft_Batch r);
  vr_lease : lr_Enable (raft_LeaseRead r) = true ->
    0 < lr_ClockDrift (raft_LeaseRead r) < electionTimeoutOf r /\ 0 < lr_ReadTimeout (raft_LeaseRead r);
}.

Ltac by_check := repeat (case_match; simplify_eq); bool_to_prop; try lia; try done.

Lemma validateRaft_spec r : validateRaft r = Ok tt ->
  (raft_NodeRole r = "" \/ raft_NodeRole r = NodeRoleData \/ raft_NodeRole r = NodeRoleWitness) /\
  (IsWitness r = true -> lr_Enable (raft_LeaseRead r) = false) /\ 0 < raft_TickInterval r /\
  0 < raft_HeartbeatTick r < raft_ElectionTick r /\ 0 < raft_MaxInflightMsgs r.
Proof.
  unfold validateRaft. intros Hv.
  assert (Hrole : negb (String.eqb (raft_NodeRole r) "") && negb (String.eqb (raft_NodeRole r) NodeRoleData) && negb (IsWitness r) = false).
  { by destruct (_ && _ && _). }
  rewrite Hrole in Hv.
  assert (Hlr : IsWitness r && lr_Enable (raft_LeaseRead r) = false) by by destruct (_ && _).
  rewrite Hlr in Hv.
  split_and!; try by by_check.
  - unfold IsWitness in Hrole. destruct (String.eqb_spec (raft_NodeRole r) ""); [by left|].
    destruct (String.eqb_spec (raft_NodeRole r) NodeRoleData); [by right; left|].
    destruct (String.eqb_spec (raft_NodeRole r) NodeRoleWitness); [by right; right|done].
  - intros Hw. by rewrite Hw in Hlr.
Qed.

Lemma validateBatch_spec b : validateBatch b = Ok tt -> rb_Enable b = true ->
  0 < rb_MinBatchSize b <= rb_MaxBatchSize b /\ 0 < rb_MinTimeout b <= rb_MaxTimeout b.
Proof. unfold validateBatch. intros Hv He. rewrite He in Hv. repeat (case_match; simplify_eq). bool_to_prop. lia. Qed.

Lemma validateLeaseRead_spec r : validateLeaseRead r = Ok tt -> lr_Enable (raft_LeaseRead r) = true ->
  0 < lr_ClockDrift (raft_LeaseRead r) < electionTimeoutOf r /\ 0 < lr_ReadTimeout (raft_LeaseRead r).
Proof.
  unfold validateLeaseRead. intros Hv He. rewrite He in Hv. cbn zeta in Hv.
  destruct (Z.leb_spec (lr_ClockDrift (raft_LeaseRead r)) 0); [done|].
  destruct (Z.leb_spec (lr_ReadTimeout (raft_LeaseRead r)) 0); [done|].
  rewrite Z.geb_leb in Hv. destruct (Z.leb_spec (electionTimeoutOf r) (lr_ClockDrift (raft_LeaseRead r))); [done|]. lia.
Qed.

(** The compaction of the MVCC store always has something to keep and to do. *)
Definition validCompaction (m : MVCCConfig) : Prop :=
  0 < ret_MaxRevisions (mvcc_Retention m) /\ 0 <= ret_MaxAge (mvcc_Retention m) /\
  0 < cp_BatchSize (mvcc_Compaction m) /\ 0 <= cp_BatchInterval (mvcc_Compaction m) /\
  (ac_Enable (mvcc_AutoCompaction m) = true ->
    (ac_Mode (mvcc_AutoCompaction m) = "revision" /\ 0 < ac_Retention (mvcc_AutoCompaction m)) \/
    (ac_Mode (mvcc_AutoCompaction m) = "periodic" /\ 0 < ac_Period (mvcc_AutoCompaction m))).

Lemma validateMVCC_spec m : validateMVCC m = Ok tt -> validCompaction m.
Proof.
  unfold validateMVCC, validCompaction. cbn zeta. intros Hv.
  destruct (Z.leb_spec (ret_MaxRevisions (mvcc_Retention m)) 0); [done|].
  destruct (Z.ltb_spec (ret_MaxAge (mvcc_Retention m)) 0); [done|].
  destruct (ac_Enable (mvcc_AutoCompaction m)); cbn [andb] in Hv.
  2:{ by_check. }
  destruct (String.eqb_spec (ac_Mode (mvcc_AutoCompaction m)) "revision") as [Hm|Hm]; cbn [negb andb] in Hv.
  - rewrite Hm in Hv. cbn in Hv. by_check. split_and!; try lia. intros _. left. split; [done|lia].
  - destruct (String.eqb_spec (ac_Mode (mvcc_AutoCompaction m)) "periodic") as [Hp|Hp]; cbn [negb andb] in Hv; [|done].
    by_check. split_and!; try lia. intros _. right. split; [done|lia].
Qed.

Lemma Validate_spec c : Validate c = Ok tt ->
  ClusterID c <> 0 /\ MemberID c <> 0 /\ validRaft (RaftCfg c) /\ validCompaction (MVCC c).
Proof.
  unfold Validate. intros Hv.
  destruct (Z.eqb_spec (ClusterID c) 0); [done|]. destruct (Z.eqb_spec (MemberID c) 0); [done|].
  do 12 (match type of Hv with (if ?b then _ else _) = _ => destruct b; [done|] end).
  destruct (validateRaft (RaftCfg c)) as [[]|] eqn:Er; [|done]. destruct (validateBatch (raft_Batch (RaftCfg c))) as [[]|] eqn:Eb; [|done].
  destruct (validateLeaseRead (RaftCfg c)) as [[]|] eqn:El; [|done]. cbn in Hv.
  split; [done|]. split; [done|]. split; [|by apply validateMVCC_spec].
  apply validateRaft_spec in Er as (?&?&?&?&?). constructor; try done.
  - by apply validateBatch_spec.
  - by apply validateLeaseRead_spec.
Qed.

(** A configuration the program starts with is complete (filling in defaults
    changes nothing) and its Raft and compaction parts are in range; if a file was
    named it comes from that file: with no file there the program does not start. *)
Theorem loaded_config_valid getenv path f clusterID memberID addr c
    (Hc : LoadConfigOrDefault getenv path f clusterID memberID addr = Ok c) :
  SetDefaults c = c /\ ClusterID c <> 0 /\ MemberID c <> 0 /\ validRaft (RaftCfg c) /\ validCompaction (MVCC c) /\
  (path <> "" -> exists c0, f = FileHas c0 /\ c = OverrideFromEnv getenv (SetDefaults c0)).
Proof.
  destruct (LoadConfigOrDefault_filled _ _ _ _ _ _ _ Hc) as (Hd & _ & Hv).
  apply Validate_spec in Hv as (?&?&?&?). do 5 (split; [done|]). intros Hp.
  unfold LoadConfigOrDefault in Hc. apply String.eqb_neq in Hp. rewrite Hp in Hc. destruct f as [| | |c0]; try done.
  exists c0. split; [done|]. unfold LoadConfig, checked in Hc. destruct (Validate (OverrideFromEnv getenv (SetDefaults c0))); by simplify_eq.
Qed.

(** ** Nodes of a loaded configuration *)

(** What the defaults switch on, and what they switch off on witnesses. *)
Lemma filled_forced c : SetDefaults c = c ->
  rb_Enable (raft_Batch (RaftCfg c)) = true /\ lr_Enable (raft_LeaseRead (RaftCfg c)) = negb (IsWitness (RaftCfg c)) /\
  raft_PreVote (RaftCfg c) = true /\ raft_CheckQuorum (RaftCfg c) = true.
Proof. intros <-. done. Qed.

Section nodes.
Context {L R : Type} `{!RaftLibrary R, !LogStorage L, !BatchJson, !ConfWire, !MapOrder}.

(** A witness of any configuration the program starts with stops at once.  The
    defaults force batching on, a witness has no batcher, so its proposing
    goroutine finds no channel to read, whatever is sent to it, and closes [stopc];
    the event loop then closes the commit channel and returns. *)
Theorem witness_stops getenv path f clusterID memberID addr c id peers join now (s : L) (r : R) n
    (Hc : LoadConfigOrDefault getenv path f clusterID memberID addr = Ok c) (Hw : IsWitness (RaftCfg c) = true)
    (Hn : startNode now (nodeConfig id peers join c) s r = Ok n) (i : ProposeInput) :
  proposeRound i n = (setStopc true n, Ok tt) /\
  forall ready a, handleEvent ready (mret tt) a EStopped (setStopc true n) =
    (addOut (OLib StopNode) (setNode (lib_call r StopNode) (addOut OCloseCommit (addOut OStopTransport (setStopc true n)))), Err Returned).
Proof.
  destruct (LoadConfigOrDefault_filled _ _ _ _ _ _ _ Hc) as (Hd & _ & _).
  apply filled_forced in Hd as (Hb & _).
  unfold startNode in Hn. destruct (ls_snapshot s) as [snap|]; [|done]. destruct (leaseManagers _ _) as [lm rm]. simplify_eq.
  unfold nodeConfig. rewrite Hb, Hw. cbn [nc_batch nc_witness negb andb]. split; [done|]. intros ready a. done.
Qed.

(** Leases of a loaded configuration.  A data node starts with a lease manager
    whose lease is over before an election timeout has passed if, and only if, the
    election timeout is longer than the floor of 50ms; from a clock drift on that
    leaves the floor, by half an election timeout and the drift. *)
Theorem loaded_lease_length getenv path f clusterID memberID addr c id peers join now (s : L) (r : R) n
    (Hc : LoadConfigOrDefault getenv path f clusterID memberID addr = Ok c) (Hw : IsWitness (RaftCfg c) = false)
    (Hn : startNode now (nodeConfig id peers join c) s r = Ok n)
    (Hbig : raft_ElectionTick (RaftCfg c) * raft_TickInterval (RaftCfg c) * 3 <= int64_max) :
  let timeout := raft_ElectionTick (RaftCfg c) * raft_TickInterval (RaftCfg c) in
  exists lm, leaseManager n = Some lm /\
    (leaseDuration lm < timeout <-> minLeaseDuration < timeout) /\
    (minDuration (Z.quot timeout 2) (raft_HeartbeatTick (RaftCfg c) * raft_TickInterval (RaftCfg c) * 3)
       - lr_ClockDrift (raft_LeaseRead (RaftCfg c)) >= minLeaseDuration ->
     leaseDuration lm <= Z.quot timeout 2 - lr_ClockDrift (raft_LeaseRead (RaftCfg c))).
Proof.
  destruct (LoadConfigOrDefault_filled _ _ _ _ _ _ _ Hc) as (Hd & _ & Hv).
  apply filled_forced in Hd as (_ & Hl & _). apply Validate_spec in Hv as (_ & _ & [_ _ Ht Hticks _ _ Hdrift] & _).
  rewrite Hw in Hl. specialize (Hdrift Hl).
  unfold startNode, leaseManagers in Hn. destruct (ls_snapshot s) as [snap|]; [|done]. unfold nodeConfig in Hn.
  cbn [nc_leaseRead nc_electionTick nc_tickInterval nc_heartbeatTick nc_clockDrift] in Hn. rewrite Hl in Hn. cbn [negb] in Hn. injection Hn as <-.
  cbn zeta. eexists. split; [reflexivity|].
  set (E := raft_ElectionTick (RaftCfg c) * raft_TickInterval (RaftCfg c)) in *.
  set (B := raft_HeartbeatTick (RaftCfg c) * raft_TickInterval (RaftCfg c)) in *.
  assert (HB : 0 < B < E) by (unfold B, E; nia).
  assert (HE : electionTimeoutOf (RaftCfg c) = E) by (unfold electionTimeoutOf; apply wrap_i64_id; fold E; unfold_ints; lia).
  rewrite HE in Hdrift. unfold leaseDuration, NewLeaseManager. cbn [electionTimeout heartbeatTick clockDrift].
  rewrite (proj2 (Z.eqb_neq _ 0)) by lia. rewrite !(wrap_i64_id E), !(wrap_i64_id B), (wrap_i64_id (B * 3)) by (unfold_ints; lia).
  pose proof (Z.quot_pos E 2 ltac:(lia) ltac:(lia)). assert (Z.quot E 2 <= E) by (apply Z.quot_le_upper_bound; lia).
  assert (Z.quot E 2 < E) by (apply Z.quot_lt_upper_bound; lia).
  assert (Hm : 0 <= minDuration (Z.quot E 2) (B * 3) <= Z.quot E 2).
  { unfold minDuration. destruct (Z.ltb_spec (Z.quot E 2) (B * 3)); lia. }
  generalize dependent (minDuration (Z.quot E 2) (B * 3)). intros m Hm.
  rewrite (wrap_i64_id (m - _)) by (unfold_ints; lia). unfold minLeaseDuration, LeaseRead.millisecond.
  destruct (Z.leb_spec (m - lr_ClockDrift (raft_LeaseRead (RaftCfg c))) 0); [lia|].
  destruct (Z.ltb_spec (m - lr_ClockDrift (raft_LeaseRead (RaftCfg c))) (50 * 1000000)); lia.
Qed.

End nodes.

(** ** Witnesses *)

Definition noEnv (name : string) : string := "".

(** The zero configuration of a file that only names the node and its role. *)
Definition roleFile (role : string) : Config :=
  let z := zeroConfig 1 1 "" in
  mkServerConfig (ClusterID z) (MemberID z) (Etcd z) (HTTP z) (MySQL z) (GRPC z) (Limits z) (LeaseCfg z) (AuthCfg z)
    (Maintenance z) (Reliability z) (LogCfg z) (Monitoring z) (Performance z)
    (mkRaftConfig role (raft_Witness (RaftCfg z)) 0 0 0 0 0 0 false false (raft_Batch (RaftCfg z)) (raft_LeaseRead (RaftCfg z)))
    (RocksDBCfg z) (MVCC z).

Definition roleConfig (role : string) : Config := SetDefaults (roleFile role).

Lemma roleConfig_loads role : role = "data" \/ role = "witness" ->
  LoadConfigOrDefault noEnv "metastore.yaml" (FileHas (roleFile role)) 1 1 ":2379" = Ok (roleConfig role).
Proof. by intros [-> | ->]; vm_compute. Qed.

Definition roleNode (role : string) : raftNode (RocksDBStorage MemDB) (list LibCall) :=
  match startNode 0 (nodeConfig 1 ["a"; "b"; "c"] false (roleConfig role)) opened [] with Ok n => n | Err _ => started false end.

Lemma roleNode_starts role : role = "data" \/ role = "witness" ->
  startNode 0 (nodeConfig 1 ["a"; "b"; "c"] false (roleConfig role)) opened [] = Ok (roleNode role).
Proof. by intros [-> | ->]; vm_compute. Qed.

Lemma loaded_config_valid_witness : SetDefaults (roleConfig "data") = roleConfig "data" /\ validRaft (RaftCfg (roleConfig "data")).
Proof.
  destruct (loaded_config_valid noEnv "metastore.yaml" (FileHas (roleFile "data")) 1 1 ":2379" (roleConfig "data")) as (Hd & _ & _ & Hr & _);
    [by apply roleConfig_loads; left|]. split; [exact Hd|exact Hr].
Defined.

Lemma witness_stops_witness :
  proposeRound (ConfIn (mkConfChange 0 ConfChangeAddNode 4 "d")) (roleNode "witness") = (setStopc true (roleNode "witness"), Ok tt).
Proof.
  apply (witness_stops noEnv "metastore.yaml" (FileHas (roleFile "witness")) 1 1 ":2379" (roleConfig "witness") 1 ["a"; "b"; "c"] false 0
    opened []).
  - by apply roleConfig_loads; right.
  - reflexivity.
  - by apply roleNode_starts; right.
Defined.

Lemma loaded_lease_length_witness :
  exists lm, leaseManager (roleNode "data") = Some lm /\ leaseDuration lm < 1000 * LeaseRead.millisecond.
Proof.
  destruct (loaded_lease_length noEnv "metastore.yaml" (FileHas (roleFile "data")) 1 1 ":2379" (roleConfig "data") 1 ["a"; "b"; "c"] false 0
    opened [] (roleNode "data")) as (lm & Hlm & Hlt & _).
  - by apply roleConfig_loads; left.
  - reflexivity.
  - by apply roleNode_starts; left.
  - vm_compute. discriminate.
  - exists lm. split; [exact Hlm|]. apply Hlt. vm_compute. reflexivity.
Defined.
