(* ===== verification/Reliability.v ===== *)
(** * Validation, limits, panics, shutdown and health ([pkg/reliability], [pkg/health], [pkg/grpc])

    What surrounds the handlers of the servers.  The CRC-32 of [hash/crc32] is
    computed bit by bit.  A handler ends in an [Outcome], a panic included, and an
    interceptor is a function on outcomes; counters that calls share are stepped
    through one atomic operation at a time, for any interleaving of the calls. *)

From S2P Require Import Prelude GoBytes KvTypes StoreApi EtcdApi Config.

(** ** Validation of data ([validation.go]) *)

(** [crc32.ChecksumIEEE] *)
Definition crcPoly : Z := 0xEDB88320.
Definition crcBit (c : Z) : Z := if Z.odd c then Z.lxor (Z.shiftr c 1) crcPoly else Z.shiftr c 1.
Definition crcByte (c : Z) (b : ascii) : Z := Nat.iter 8 crcBit (Z.lxor c (byte_val b)).
Fixpoint crcUpdate (c : Z) (data : string) : Z :=
  match data with EmptyString => c | String b data' => crcUpdate (crcByte c b) data' end.
Definition crcMask : Z := 0xFFFFFFFF.
Definition ChecksumIEEE (data : string) : Z := Z.lxor (crcUpdate crcMask data) crcMask.

Record DataValidator := mkValidator { enableCRC : bool }.
Definition NewDataValidator (enable : bool) : DataValidator := mkValidator enable.

Inductive ValidationError :=
  | CRCMismatch (expected got : Z) | TooShort | KeyEmpty | KeyTooLarge (n : Z) | ValueTooLarge (n : Z)
  | NegativeRevision (rev : Z) | NegativeLease (id : Z).

(** The global [ValidationErrorCounter] is passed along. *)
Definition ValidateData (dv : DataValidator) (counter : Z) (data : string) (expectedCRC : Z) : Z * result ValidationError unit :=
  if negb (enableCRC dv) then (counter, Ok tt)
  else
    let actualCRC := ChecksumIEEE data in
    if negb (actualCRC =? expectedCRC) then (wrap_i64 (counter + 1), Err (CRCMismatch expectedCRC actualCRC))
    else (counter, Ok tt).

Definition ComputeCRC (dv : DataValidator) (data : string) : Z := if enableCRC dv then ChecksumIEEE data else 0.

Definition AppendCRC (dv : DataValidator) (data : string) : string :=
  if enableCRC dv then data +:+ put_le 4 (ChecksumIEEE data) else data.

Definition ValidateAndStripCRC (dv : DataValidator) (counter : Z) (data : string) : Z * result ValidationError string :=
  if negb (enableCRC dv) then (counter, Ok data)
  else if str_len data <? 4 then (wrap_i64 (counter + 1), Err TooShort)
  else
    let dataLen := (String.length data - 4)%nat in
    let expectedCRC := get_le (str_drop dataLen data) in
    let actualCRC := ChecksumIEEE (str_take dataLen data) in
    if negb (actualCRC =? expectedCRC) then (wrap_i64 (counter + 1), Err (CRCMismatch expectedCRC actualCRC))
    else (counter, Ok (str_take dataLen data)).

Definition ValidateKeyValue (key value : string) : result ValidationError unit :=
  if str_len key =? 0 then Err KeyEmpty
  else if str_len key >? 1536 then Err (KeyTooLarge (str_len key))
  else if str_len value >? 1024 * 1024 then Err (ValueTooLarge (str_len value))
  else Ok tt.

Definition ValidateRevision (rev : Z) : result ValidationError unit := if rev <? 0 then Err (NegativeRevision rev) else Ok tt.
Definition ValidateLease (id : Z) : result ValidationError unit := if id <? 0 then Err (NegativeLease id) else Ok tt.

(** [None] is a panic: the slice expression goes below 0. *)
Definition ValidateSnapshot (dv : DataValidator) (counter : Z) (snapshot : string) : option (Z * result ValidationError unit) :=
  if str_len snapshot =? 0 then Some (counter, Ok tt)
  else if str_len snapshot <? 4 then None
  else
    let n := (String.length snapshot - 4)%nat in
    Some (ValidateData dv counter (str_take n snapshot) (get_le (str_drop n snapshot))).

Definition CreateSnapshot (dv : DataValidator) (data : string) : string := AppendCRC dv data.

(** *** The checksum tells strings apart that differ in one byte *)

Definition is_crc (c : Z) : Prop := 0 <= c < 2 ^ 32.

Lemma lxor_range n a b : 0 <= n -> 0 <= a < 2 ^ n -> 0 <= b < 2 ^ n -> 0 <= Z.lxor a b < 2 ^ n.
Proof.
  intros Hn Ha Hb. assert (Hnn : 0 <= Z.lxor a b) by (apply Z.lxor_nonneg; lia). split; [done|].
  destruct (decide (Z.lxor a b = 0)) as [->|]; [lia|]. apply Z.log2_lt_pow2; [lia|].
  destruct (decide (n = 0)) as [->|]; [exfalso; assert (a = 0 /\ b = 0) as [-> ->] by lia; done|].
  pose proof (Z.log2_lxor a b ltac:(lia) ltac:(lia)).
  assert (Hlog : forall x, 0 <= x < 2 ^ n -> Z.log2 x < n).
  { intros x Hx. destruct (decide (x = 0)) as [->|]; [cbn; lia|]. apply Z.log2_lt_pow2; lia. }
  pose proof (Hlog a Ha). pose proof (Hlog b Hb). lia.
Qed.

Lemma shiftr_crc c : is_crc c -> 0 <= Z.shiftr c 1 < 2 ^ 31.
Proof. unfold is_crc. rewrite Z.shiftr_div_pow2 by lia. intros ?. split; [apply Z.div_pos|apply Z.div_lt_upper_bound]; lia. Qed.

Lemma crcBit_range c : is_crc c -> is_crc (crcBit c).
Proof.
  intros Hc. pose proof (shiftr_crc c Hc). unfold crcBit. destruct (Z.odd c); [|unfold is_crc; lia].
  apply lxor_range; unfold crcPoly; lia.
Qed.

(** The top bit of the next state is the one that was shifted out. *)
Lemma crcBit_top c : is_crc c -> Z.testbit (crcBit c) 31 = Z.odd c.
Proof.
  intros Hc. pose proof (shiftr_crc c Hc) as Hs.
  assert (Ht : Z.testbit (Z.shiftr c 1) 31 = false).
  { destruct (decide (Z.shiftr c 1 = 0)) as [->|]; [done|]. apply Z.bits_above_log2; [lia|]. apply Z.log2_lt_pow2; lia. }
  unfold crcBit. destruct (Z.odd c); [|done]. by rewrite Z.lxor_spec, Ht.
Qed.

Lemma crcBit_inj c d : is_crc c -> is_crc d -> crcBit c = crcBit d -> c = d.
Proof.
  intros Hc Hd He. assert (Ho : Z.odd c = Z.odd d) by (rewrite <- !crcBit_top by done; by rewrite He).
  assert (Hs : Z.shiftr c 1 = Z.shiftr d 1).
  { unfold crcBit in He. rewrite Ho in He. destruct (Z.odd d); [|done].
    rewrite <- (Z.lxor_0_r (Z.shiftr c 1)), <- (Z.lxor_0_r (Z.shiftr d 1)), <- (Z.lxor_nilpotent crcPoly), <- !Z.lxor_assoc.
    by rewrite He. }
  rewrite !Z.shiftr_div_pow2 in Hs by lia. change (2 ^ 1) with 2 in Hs.
  rewrite (Z.div_mod c 2), (Z.div_mod d 2) by lia. rewrite !Zmod_odd, Ho, Hs. done.
Qed.

Lemma iter_crcBit n c : is_crc c -> is_crc (Nat.iter n crcBit c).
Proof. intros. induction n; [done|]. by apply crcBit_range. Qed.

Lemma iter_crcBit_inj n c d : is_crc c -> is_crc d -> Nat.iter n crcBit c = Nat.iter n crcBit d -> c = d.
Proof. intros Hc Hd. induction n; [done|]. cbn. intros He. apply IHn, crcBit_inj; [by apply iter_crcBit..|done]. Qed.

Lemma byte_crc c b : is_crc c -> is_crc (Z.lxor c (byte_val b)).
Proof. intros. pose proof (byte_val_range b). apply lxor_range; unfold is_crc in *; lia. Qed.

Lemma crcByte_range c b : is_crc c -> is_crc (crcByte c b).
Proof. intros. by apply iter_crcBit, byte_crc. Qed.

Lemma lxor_cancel_l a b c : Z.lxor a b = Z.lxor a c -> b = c.
Proof.
  intros H. rewrite <- (Z.lxor_0_l b), <- (Z.lxor_0_l c), <- (Z.lxor_nilpotent a), !Z.lxor_assoc. by rewrite H.
Qed.

Lemma crcByte_inj_l c d b : is_crc c -> is_crc d -> crcByte c b = crcByte d b -> c = d.
Proof.
  intros Hc Hd He. apply iter_crcBit_inj in He; [|by apply byte_crc..].
  rewrite (Z.lxor_comm c), (Z.lxor_comm d) in He. by apply lxor_cancel_l in He.
Qed.

Lemma crcByte_inj_r c a b : is_crc c -> crcByte c a = crcByte c b -> a = b.
Proof.
  intros Hc He. apply iter_crcBit_inj in He; [|by apply byte_crc..]. apply lxor_cancel_l in He.
  rewrite <- (byte_of_val a), <- (byte_of_val b). by rewrite He.
Qed.

Lemma crcUpdate_range s : forall c, is_crc c -> is_crc (crcUpdate c s).
Proof. induction s as [|b s IH]; intros c Hc; [done|]. by apply IH, crcByte_range. Qed.

Lemma crcUpdate_inj s : forall c d, is_crc c -> is_crc d -> crcUpdate c s = crcUpdate d s -> c = d.
Proof.
  induction s as [|b s IH]; intros c d Hc Hd He; [done|]. apply IH in He; [|by apply crcByte_range..].
  by eapply crcByte_inj_l.
Qed.

Lemma crcUpdate_app s t : forall c, crcUpdate c (s +:+ t) = crcUpdate (crcUpdate c s) t.
Proof. induction s as [|b s IH]; intros c; [done|]. apply IH. Qed.

Lemma crcMask_crc : is_crc crcMask.
Proof. by unfold is_crc, crcMask. Qed.

Lemma ChecksumIEEE_range s : is_crc (ChecksumIEEE s).
Proof. apply lxor_range; [lia|apply crcUpdate_range, crcMask_crc|apply crcMask_crc]. Qed.

Lemma ChecksumIEEE_byte l x y r : ChecksumIEEE (l +:+ String x r) = ChecksumIEEE (l +:+ String y r) -> x = y.
Proof.
  unfold ChecksumIEEE. intros He. rewrite !(Z.lxor_comm _ crcMask) in He. apply lxor_cancel_l in He.
  rewrite !crcUpdate_app in He. cbn in He. pose proof (crcUpdate_range l _ crcMask_crc) as Hl.
  apply crcUpdate_inj in He; [|by apply crcByte_range..]. by eapply crcByte_inj_r.
Qed.

Lemma get_le_inj s : forall t, String.length s = String.length t -> get_le s = get_le t -> s = t.
Proof.
  induction s as [|a s IH]; intros [|b t]; try done. intros [= Hl].
  change (byte_val a + Z.shiftl (get_le s) 8 = byte_val b + Z.shiftl (get_le t) 8 -> String a s = String b t).
  rewrite !Z.shiftl_mul_pow2 by lia. change (2 ^ 8) with 256. intros He.
  pose proof (byte_val_range a). pose proof (byte_val_range b).
  assert (byte_val a = byte_val b) by lia. assert (get_le s = get_le t) by lia.
  rewrite <- (byte_of_val a), <- (byte_of_val b). f_equal; [congruence|]. by apply IH.
Qed.

Lemma str_app_cases s : forall c l x r, s +:+ c = l +:+ String x r ->
  (exists m, s = l +:+ String x m /\ r = m +:+ c) \/ (exists m, l = s +:+ m /\ c = m +:+ String x r).
Proof.
  induction s as [|a s IH]; intros c l x r He; [right; by exists l|].
  destruct l as [|b l]; injection He as -> He; [left; by exists s|].
  destruct (IH _ _ _ _ He) as [(m & -> & ->)|(m & -> & ->)]; [left|right]; by exists m.
Qed.

Lemma crc_codeword_byte data data' crc' l r x y :
  data +:+ put_le 4 (ChecksumIEEE data) = l +:+ String x r -> data' +:+ crc' = l +:+ String y r ->
  String.length data' = String.length data -> ChecksumIEEE data' = get_le crc' -> x = y.
Proof.
  intros H1 H2 Hl He. pose proof (ChecksumIEEE_range data) as Hr.
  assert (Hput : get_le (put_le 4 (ChecksumIEEE data)) = ChecksumIEEE data) by (rewrite get_put_le; by apply Z.mod_small).
  apply str_app_cases in H1 as [(m & Hd & ->)|(m & -> & Hc)].
  - replace (l +:+ String y (m +:+ put_le 4 (ChecksumIEEE data)))
      with ((l +:+ String y m) +:+ put_le 4 (ChecksumIEEE data)) in H2 by by rewrite str_app_assoc.
    apply str_app_inj_l in H2 as [-> ->]; [|by rewrite Hl, Hd, !str_length_app].
    rewrite Hput, Hd in He. symmetry. by eapply ChecksumIEEE_byte.
  - rewrite str_app_assoc in H2. apply str_app_inj_l in H2 as [-> ->]; [|done].
    rewrite <- Hput, Hc in He. apply get_le_inj in He; [|by rewrite !str_length_app].
    apply str_app_inj_l in He as [_ [= ->]]; done.
Qed.

(** C33: a checksum that was appended is found right and stripped again, whatever the
    data; a string that differs from it in one byte, of the data or of the checksum,
    is refused and counted. *)
Theorem crc_one_byte (dv : DataValidator) (counter : Z) (data l r : string) (x y : ascii)
    (Hon : enableCRC dv = true) (Hs : AppendCRC dv data = l +:+ String x r) (Hne : x <> y) :
  ValidateAndStripCRC dv counter (AppendCRC dv data) = (counter, Ok data) /\
  exists expected got, ValidateAndStripCRC dv counter (l +:+ String y r) = (wrap_i64 (counter + 1), Err (CRCMismatch expected got)).
Proof.
  revert Hs. unfold ValidateAndStripCRC, AppendCRC. rewrite Hon. cbn [negb]. intros Hs.
  assert (Hsplit : forall s, String.length s = (String.length data + 4)%nat ->
    (str_len s <? 4) = false /\ String.length (str_take (String.length s - 4) s) = String.length data /\
    str_take (String.length s - 4) s +:+ str_drop (String.length s - 4) s = s /\ (String.length s - 4)%nat = String.length data).
  { intros s Hl. split; [apply Z.ltb_ge; unfold str_len; lia|]. rewrite str_take_length by lia.
    split; [lia|]. split; [apply str_take_drop|lia]. }
  split.
  - destruct (Hsplit (data +:+ put_le 4 (ChecksumIEEE data))) as (-> & _ & _ & ->); [by rewrite str_length_app, put_le_length|].
    rewrite str_take_app, str_drop_app, get_put_le, Z.mod_small by apply ChecksumIEEE_range. by rewrite Z.eqb_refl.
  - assert (Hlen : String.length (l +:+ String y r) = (String.length data + 4)%nat).
    { transitivity (String.length (l +:+ String x r)); [by rewrite !str_length_app|].
      by rewrite <- Hs, str_length_app, put_le_length. }
    destruct (Hsplit _ Hlen) as (-> & Ht & Htd & Hn). rewrite Hn in *.
    set (d' := str_take _ _) in *. set (c' := str_drop _ _) in *.
    assert (Hneq : ChecksumIEEE d' <> get_le c'); [|apply Z.eqb_neq in Hneq; rewrite Hneq; eauto].
    intros He. apply Hne. apply (crc_codeword_byte data d' c' l r x y); done.
Qed.

(** ** Outcomes and panics ([panic.go], [interceptor.go]) *)

(** An error of a call: a gRPC status, or any other error value. *)
Inductive RpcError := Status (c : Code) | PlainErr.

Inductive Outcome (A : Type) := Done (r : result RpcError A) | Panicked.
Arguments Done {A}.
Arguments Panicked {A}.

(** Called in a deferred function it catches the panic, if there still is one. *)
Definition RecoverPanic (PanicCounter : Z) (panicking : bool) : Z := if panicking then wrap_i64 (PanicCounter + 1) else PanicCounter.

(** [SafeGo]: the goroutine ends, the process goes on. *)
Definition SafeGo {A} (PanicCounter : Z) (o : Outcome A) : Z :=
  RecoverPanic PanicCounter match o with Panicked => true | Done _ => false end.

(** [SafeGoWithRestart]: the runs of [fn] that panic ([true]) one after the other,
    and how many were started. *)
Fixpoint restarts (maxRestarts restartCount : Z) (runs : list bool) : nat :=
  match runs with
  | [] => 0
  | panics :: runs' =>
      Datatypes.S (if panics && ((maxRestarts =? 0) || (restartCount + 1 <? maxRestarts)) then restarts maxRestarts (restartCount + 1) runs'
         else 0)
  end.
Definition SafeGoWithRestart (maxRestarts : Z) (runs : list bool) : nat := restarts maxRestarts 0 runs.

Definition PanicMiddleware {A} (PanicCounter : Z) (o : Outcome A) : Z * result RpcError A :=
  match o with Panicked => (wrap_i64 (PanicCounter + 1), Err PlainErr) | Done r => (PanicCounter, r) end.

(** The interceptor of the etcd server: it recovers, and then [RecoverPanic] finds
    no panic any more. *)
Definition PanicRecoveryInterceptor {A} (PanicCounter : Z) (o : Outcome A) : Z * Outcome A :=
  match o with Panicked => (RecoverPanic PanicCounter false, Done (Err PlainErr)) | Done r => (PanicCounter, Done r) end.

Lemma grpc_panics_not_counted {A} (counter : Z) (o : Outcome A) : (PanicRecoveryInterceptor counter o).1 = counter.
Proof. by destruct o. Qed.

(** With a maximum of [n] a goroutine that always panics is started [n] times, and
    so restarted [n - 1] times. *)
Lemma restarts_always (n : nat) : forall m k, (k < Z.to_nat m)%nat -> restarts m (Z.of_nat k) (replicate n true) = Nat.min n (Z.to_nat m - k).
Proof.
  induction n as [|n IH]; intros m k Hk; [done|]. cbn [replicate restarts andb].
  destruct (Z.eqb_spec m 0); [lia|]. cbn [orb].
  replace (Z.of_nat k + 1) with (Z.of_nat (Datatypes.S k)) by lia. destruct (Z.ltb_spec (Z.of_nat (Datatypes.S k)) m); [|lia].
  rewrite IH by lia. lia.
Qed.

(** ** Limits on calls ([limits.go], [interceptor.go]) *)

Record ResourceLimits := mkResourceLimits {
  MaxConnections : Z; MaxRequests : Z; MaxMemoryBytes : Z; MaxRequestSize : Z; RequestTimeout : Z; ConnectionTimeout : Z;
}.

Definition DefaultLimits : ResourceLimits :=
  mkResourceLimits 1000 5000 (8 * 1024 * 1024 * 1024) (4 * 1024 * 1024) (30 * second) (10 * second).

Record Connection := mkConnection { co_ID : string; co_RemoteAddr : string; co_CreatedAt : Z; co_LastActive : Z }.

Record ResourceManager := mkResourceManager {
  limits : ResourceLimits; currentConnections : Z; currentRequests : Z; connections : gmap string Connection;
}.

Definition NewResourceManager (l : ResourceLimits) : ResourceManager := mkResourceManager l 0 0 ∅.

(** The atomic additions to the two counters *)
Definition addConnections (n : Z) (rm : ResourceManager) : ResourceManager * Z :=
  let c := wrap_i64 (currentConnections rm + n) in (mkResourceManager (limits rm) c (currentRequests rm) (connections rm), c).
Definition addRequests (n : Z) (rm : ResourceManager) : ResourceManager * Z :=
  let c := wrap_i64 (currentRequests rm + n) in (mkResourceManager (limits rm) (currentConnections rm) c (connections rm), c).
Definition setConnections (rm : ResourceManager) (cs : gmap string Connection) : ResourceManager :=
  mkResourceManager (limits rm) (currentConnections rm) (currentRequests rm) cs.

(** One call at a time; the two times are those of the new record. *)
Definition AcquireConnection (created active : Z) (rm : ResourceManager) (connID remoteAddr : string) :
    ResourceManager * result RpcError unit :=
  let '(rm1, current) := addConnections 1 rm in
  if current >? MaxConnections (limits rm) then ((addConnections (-1) rm1).1, Err (Status ResourceExhausted))
  else (setConnections rm1 (<[connID := mkConnection connID remoteAddr created active]> (connections rm1)), Ok tt).

Definition ReleaseConnection (rm : ResourceManager) (connID : string) : ResourceManager :=
  (addConnections (-1) (setConnections rm (delete connID (connections rm)))).1.

Definition UpdateConnectionActivity (now : Z) (rm : ResourceManager) (connID : string) : ResourceManager :=
  setConnections rm (alter (fun c => mkConnection (co_ID c) (co_RemoteAddr c) (co_CreatedAt c) now) connID (connections rm)).

Definition CheckRequestSize (rm : ResourceManager) (size : Z) : result RpcError unit :=
  if size >? MaxRequestSize (limits rm) then Err (Status InvalidArgument) else Ok tt.

(** [alloc] is what the runtime reports, [m.Alloc]. *)
Definition CheckMemory (rm : ResourceManager) (alloc : Z) : result RpcError unit :=
  if wrap_i64 alloc >? MaxMemoryBytes (limits rm) then Err (Status ResourceExhausted) else Ok tt.

Record ResourceStats := mkResourceStats {
  rst_CurrentConnections : Z; rst_MaxConnections : Z; rst_CurrentRequests : Z; rst_MaxRequests : Z;
  rst_MemoryUsageBytes : Z; rst_MaxMemoryBytes : Z; rst_ActiveConnections : Z;
}.

Definition GetStats (rm : ResourceManager) (alloc : Z) : ResourceStats :=
  mkResourceStats (currentConnections rm) (MaxConnections (limits rm)) (currentRequests rm) (MaxRequests (limits rm))
    (wrap_i64 alloc) (MaxMemoryBytes (limits rm)) (Z.of_nat (size (connections rm))).

Record ConnectionTracker := mkTracker { maxConnections : Z; activeConns : Z }.

Definition NewConnectionTracker (max : Z) : ConnectionTracker := mkTracker max 0.
Definition addConns (n : Z) (ct : ConnectionTracker) : ConnectionTracker * Z :=
  let c := wrap_i64 (activeConns ct + n) in (mkTracker (maxConnections ct) c, c).
Definition Count (ct : ConnectionTracker) : Z := activeConns ct.

(** *** A counter with a limit

    [LimitInterceptor] and the interceptors of [ConnectionTracker] count a call in
    with one atomic addition, look at the sum, and count it out again when it is
    refused or, in a deferred function, when its handler has returned or panicked.
    [g_admit] is what is checked before. *)
Class Gate (G : Type) := {
  g_limit : G -> Z;
  g_count : G -> Z;
  g_add : Z -> G -> G * Z;
  g_admit : G -> Z -> bool;
}.

Class GateLaws (G : Type) `{!Gate G} := {
  g_add_count n g : g_count (g_add n g).1 = wrap_i64 (g_count g + n) /\ (g_add n g).2 = wrap_i64 (g_count g + n);
  g_add_limit n g : g_limit (g_add n g).1 = g_limit g;
}.

#[global] Instance requests_gate : Gate ResourceManager := {
  g_limit rm := MaxRequests (limits rm);
  g_count := currentRequests;
  g_add := addRequests;
  g_admit rm alloc := match CheckMemory rm alloc with Ok _ => true | Err _ => false end;
}.
#[global, refine] Instance requests_gate_laws : GateLaws ResourceManager := {}.
Proof. all: done. Defined.

#[global] Instance tracker_gate : Gate ConnectionTracker := {
  g_limit := maxConnections;
  g_count := activeConns;
  g_add := addConns;
  g_admit _ _ := true;
}.
#[global, refine] Instance tracker_gate_laws : GateLaws ConnectionTracker := {}.
Proof. all: done. Defined.

(** Where a call is: before the checks, counted in, refused but still counted, in its
    handler, about to be counted out, and gone. *)
Inductive CallPc (A : Type) :=
  | Arriving | Entering | Rejecting | Inside | Leaving (o : Outcome A) | Left (o : Outcome A).
Arguments Arriving {A}.
Arguments Entering {A}.
Arguments Rejecting {A}.
Arguments Inside {A}.
Arguments Leaving {A}.
Arguments Left {A}.

Section gate.
Context {G A : Type} `{!Gate G}.

Record Calls := mkCalls { gate : G; calls : list (CallPc A) }.

Inductive CallEvent :=
  | CArrive
  | CStep (i : nat) (alloc : Z)
  | CFinish (i : nat) (o : Outcome A).

Definition exhausted : Outcome A := Done (Err (Status ResourceExhausted)).

Definition call_step (g : G) (pc : CallPc A) (alloc : Z) : G * CallPc A :=
  match pc with
  | Arriving => (g, if g_admit g alloc then Entering else Left exhausted)
  | Entering => let '(g', current) := g_add 1 g in (g', if current >? g_limit g then Rejecting else Inside)
  | Rejecting => ((g_add (-1) g).1, Left exhausted)
  | Inside => (g, Inside)
  | Leaving o => ((g_add (-1) g).1, Left o)
  | Left o => (g, Left o)
  end.

Definition calls_step (st : Calls) (e : CallEvent) : Calls :=
  match e with
  | CArrive => mkCalls (gate st) (calls st ++ [Arriving])
  | CStep i alloc =>
      match calls st !! i with
      | Some pc => let '(g, pc') := call_step (gate st) pc alloc in mkCalls g (<[i := pc']> (calls st))
      | None => st
      end
  | CFinish i o => match calls st !! i with Some Inside => mkCalls (gate st) (<[i := Leaving o]> (calls st)) | _ => st end
  end.

Definition calls_run (g : G) (events : list CallEvent) : Calls := fold_left calls_step events (mkCalls g []).

(** A call whose handler runs or has just ended; and one that is counted. *)
Definition admitted (pc : CallPc A) : Z := match pc with Inside | Leaving _ => 1 | _ => 0 end.
Definition counted (pc : CallPc A) : Z := match pc with Rejecting | Inside | Leaving _ => 1 | _ => 0 end.

End gate.
Arguments Calls : clear implicits.
Arguments CallEvent : clear implicits.

Section gate_laws.
Context {G A : Type} `{!Gate G, !GateLaws G}.
Implicit Types st : Calls G A.

Record gate_inv (limit : Z) st : Prop := {
  gi_limit : g_limit (gate st) = limit;
  gi_count : g_count (gate st) = totalOf counted (calls st);
  gi_admitted : totalOf admitted (calls st) <= Z.max 0 limit;
}.

Lemma counted_bounds (l : list (CallPc A)) : 0 <= totalOf counted l <= Z.of_nat (length l).
Proof. apply totalOf_bounds. intros []; cbn; lia. Qed.

Lemma admitted_counted (l : list (CallPc A)) : totalOf admitted l <= totalOf counted l.
Proof. induction l as [|[] l IH]; cbn; lia. Qed.

Lemma calls_length (g : G) (events : list (CallEvent A)) : (length (calls (calls_run g events)) <= length events)%nat.
Proof.
  unfold calls_run. assert (H : forall st, (length (calls (fold_left calls_step events st)) <= length (calls st) + length events)%nat).
  { induction events as [|e events IH]; intros st; cbn; [lia|]. etransitivity; [apply IH|].
    assert (length (calls (calls_step st e)) <= Datatypes.S (length (calls st)))%nat; [|lia].
    destruct e; cbn; repeat case_match; cbn; rewrite ?length_insert, ?length_app; cbn; lia. }
  apply (H (mkCalls g [])).
Qed.

(** A step of a call: what changes is one entry and, perhaps, the counter. *)
Lemma gate_inv_insert limit st g i pc pc' :
  gate_inv limit st -> calls st !! i = Some pc -> g_limit g = limit ->
  g_count g = g_count (gate st) - counted pc + counted pc' ->
  (admitted pc' <= admitted pc \/ totalOf counted (calls st) - counted pc + counted pc' <= limit) ->
  gate_inv limit (mkCalls g (<[i := pc']> (calls st))).
Proof.
  intros [Hl Hc Ha] Hi Hg Hcount Hadm. split; cbn; [done|..].
  - rewrite (totalOf_insert _ _ _ _ _ Hi). lia.
  - destruct Hadm as [Hadm|Hadm]; [rewrite (totalOf_insert _ _ _ _ _ Hi); lia|].
    pose proof (admitted_counted (<[i := pc']> (calls st))) as Hle. rewrite (totalOf_insert counted _ _ _ _ Hi) in Hle. lia.
Qed.

Lemma gate_inv_step limit st e :
  gate_inv limit st -> Z.of_nat (length (calls st)) < int64_max -> gate_inv limit (calls_step st e).
Proof.
  intros HI Hlen. pose proof (counted_bounds (calls st)) as Hb. pose proof HI as [Hl Hc Ha].
  destruct e as [|i alloc|i o]; cbn [calls_step].
  - split; cbn; rewrite ?totalOf_app; cbn; lia.
  - destruct (calls st !! i) as [pc|] eqn:E; [|done].
    destruct (g_add_count 1 (gate st)) as [H1 H1']. destruct (g_add_count (-1) (gate st)) as [H2 _].
    pose proof (g_add_limit 1 (gate st)) as H3. pose proof (g_add_limit (-1) (gate st)) as H4.
    rewrite wrap_i64_id in H1, H1', H2 by (unfold is_i64, int64_min, int64_max in *; lia).
    destruct pc; cbn [call_step].
    + destruct (g_admit (gate st) alloc); (eapply gate_inv_insert; [done..|cbn; lia|cbn; lia]).
    + destruct (g_add 1 (gate st)) as [g' current]. cbn in *. subst current.
      destruct (Z.gtb_spec (g_count (gate st) + 1) (g_limit (gate st)));
        (eapply gate_inv_insert; [done..|congruence|cbn; lia|cbn; lia]).
    + eapply gate_inv_insert; [done..|congruence|cbn; lia|cbn; lia].
    + eapply gate_inv_insert; [done..|cbn; lia|cbn; lia].
    + eapply gate_inv_insert; [done..|congruence|cbn; lia|cbn; lia].
    + eapply gate_inv_insert; [done..|cbn; lia|cbn; lia].
  - destruct (calls st !! i) as [[]|] eqn:E; try done. eapply gate_inv_insert; [done..|cbn; lia|cbn; lia].
Qed.

Lemma gate_inv_run (g : G) (events : list (CallEvent A)) :
  g_count g = 0 -> Z.of_nat (length events) < int64_max -> gate_inv (g_limit g) (calls_run g events).
Proof.
  intros Hg. induction events as [|e events IH] using rev_ind; intros Hlen; [split; cbn; [done|done|lia]|].
  unfold calls_run in *. rewrite fold_left_app. cbn. rewrite length_app in Hlen. cbn in Hlen.
  apply gate_inv_step; [apply IH; lia|]. pose proof (calls_length g events). unfold calls_run in *. lia.
Qed.

(** C38: however the calls interleave, and whether their handlers return or panic, no
    more handlers run at once than the limit allows; the counter is the number of
    calls counted in and not yet out, so it is back at 0 when all have left; and a
    call that finds fewer than the limit counted is admitted. *)
Theorem calls_within_limit (g : G) (events : list (CallEvent A)) (H0 : g_count g = 0)
    (Hlen : Z.of_nat (length events) < int64_max) :
  let st := calls_run g events in
  totalOf admitted (calls st) <= Z.max 0 (g_limit g) /\
  g_count (gate st) = totalOf counted (calls st) /\
  (Forall (fun pc => exists o, pc = Left o) (calls st) -> g_count (gate st) = 0) /\
  (forall i alloc, calls st !! i = Some Entering -> totalOf counted (calls st) < g_limit g ->
    calls (calls_step st (CStep i alloc)) !! i = Some Inside).
Proof.
  cbn zeta. pose proof (gate_inv_run g events H0 Hlen) as HI. set (st := calls_run g events) in *. destruct HI as [Hl Hc Ha].
  split; [done|]. split; [done|]. split.
  - intros Hall. rewrite Hc. clear Hc Ha. induction Hall as [|pc l [o ->] _ IH]; [done|]. exact IH.
  - intros i alloc Hi Hlt. cbn [calls_step]. rewrite Hi. cbn [call_step].
    destruct (g_add_count 1 (gate st)) as [_ H1]. destruct (g_add 1 (gate st)) as [g' current]. cbn in H1. subst current.
    pose proof (counted_bounds (calls st)). pose proof (calls_length g events) as Hn. fold st in Hn.
    rewrite wrap_i64_id by (unfold is_i64, int64_min, int64_max in *; lia).
    destruct (Z.gtb_spec (g_count (gate st) + 1) (g_limit (gate st))); [lia|]. cbn.
    apply list_lookup_insert_eq. by eapply lookup_lt_Some.
Qed.

End gate_laws.

(** *** The chain of interceptors ([pkg/grpc/server.go], [interceptor.go])

    An interceptor around one call, with the tracker they share; whether the rate
    limiter allows the call and how long its handler takes are arguments. *)
Section chain.
Context {A : Type}.

Definition Call : Type := ConnectionTracker -> ConnectionTracker * Outcome A.

Definition tracked (h : Call) : Call := fun ct =>
  let '(ct1, current) := addConns 1 ct in
  if current >? maxConnections ct then ((addConns (-1) ct1).1, Done (Err (Status ResourceExhausted)))
  else let '(ct2, o) := h ct1 in ((addConns (-1) ct2).1, o).

Definition rateLimited (allow : bool) (h : Call) : Call := fun ct =>
  if negb allow then (ct, Done (Err (Status ResourceExhausted))) else h ct.

(** The log of slow requests, and the counters of Prometheus, leave the call as it is. *)
Definition observed (h : Call) : Call := h.

Definition recovered (h : Call) : Call := fun ct =>
  match h ct with (ct', Panicked) => (ct', Done (Err (Status Internal))) | x => x end.

Definition buildUnaryInterceptors (cfg : Config) (withMetrics allow : bool) : list (Call -> Call) :=
  (if mon_EnablePrometheus (Monitoring cfg) && withMetrics then [observed] else []) ++
  (if rel_EnablePanicRecovery (Reliability cfg) then [recovered] else []) ++
  (if mon_SlowRequestThreshold (Monitoring cfg) >? 0 then [observed] else []) ++
  (if lim_MaxConnections (Limits cfg) >? 0 then [tracked] else []) ++
  (if grpc_EnableRateLimit (GRPC cfg) && (grpc_RateLimitQPS (GRPC cfg) >? 0) && (grpc_RateLimitBurst (GRPC cfg) >? 0)
   then [rateLimited allow] else []).

(** [ChainUnaryInterceptor]: the first is the outermost. *)
Definition chain (interceptors : list (Call -> Call)) (h : Call) : Call := foldr (fun i h => i h) h interceptors.

(** Handlers that leave the tracker as they found it. *)
Definition neutral (h : Call) : Prop := forall ct, is_i64 (activeConns ct + 1) -> is_i64 (activeConns ct) -> (h ct).1 = ct.

Lemma neutral_tracked h : (forall ct, (h ct).1 = ct) -> neutral (tracked h).
Proof.
  intros Hh [max n] H1 H2. unfold tracked, addConns. cbn in *. rewrite (wrap_i64_id (n + 1)) by done.
  destruct (n + 1 >? max); cbn.
  - replace (n + 1 + -1) with n by lia. by rewrite wrap_i64_id.
  - specialize (Hh (mkTracker max (n + 1))). destruct (h _) as [ct2 o]. cbn in Hh. subst ct2. cbn.
    replace (n + 1 + -1) with n by lia. by rewrite wrap_i64_id.
Qed.

(** With recovery on no panic leaves the chain, and the connection is counted out
    again in any case. *)
Lemma chain_recovers cfg withMetrics allow (h : Call) ct :
  rel_EnablePanicRecovery (Reliability cfg) = true -> (forall ct, (h ct).1 = ct) ->
  is_i64 (activeConns ct + 1) -> is_i64 (activeConns ct) ->
  exists r, chain (buildUnaryInterceptors cfg withMetrics allow) h ct = (ct, Done r).
Proof.
  intros Hon Hh H1 H2. unfold buildUnaryInterceptors, chain. rewrite Hon, !foldr_app.
  set (h1 := foldr (fun i h => i h) h (if _ && (_ >? 0) then _ else _)).
  assert (Hh1 : forall ct, (h1 ct).1 = ct).
  { intros ct'. subst h1. destruct (_ && (_ >? 0)); cbn; [|apply Hh]. unfold rateLimited. by destruct allow; cbn. }
  set (h2 := foldr _ h1 _). assert (Hh2 : neutral h2).
  { subst h2. destruct (lim_MaxConnections (Limits cfg) >? 0); cbn; [by apply neutral_tracked|intros ???; apply Hh1]. }
  set (h3 := foldr _ h2 _). assert (Hh3 : h3 ct = h2 ct) by (subst h3; by destruct (mon_SlowRequestThreshold (Monitoring cfg) >? 0)).
  set (h4 := foldr _ h3 _). assert (Hh4 : exists r, h4 ct = (ct, Done r)).
  { subst h4. cbn. unfold recovered. rewrite Hh3. specialize (Hh2 ct H1 H2). destruct (h2 ct) as [ct' [r|]]; cbn in Hh2; subst; eauto. }
  destruct Hh4 as [r Hr]. exists r. rewrite <- Hr. by destruct (mon_EnablePrometheus (Monitoring cfg) && withMetrics).
Qed.

End chain.

(** ** Limits of the etcd server ([api/etcd/server.go], [NewServer]) *)

(** The limits that are passed, or those of the configuration, or the defaults. *)
Definition serverLimits (cfg : option Config) (explicit : option ResourceLimits) : ResourceLimits :=
  match explicit with
  | Some l => l
  | None =>
      match cfg with
      | None => DefaultLimits
      | Some c =>
          let maxMemoryBytes := wrap_i64 (wrap_i64 (lim_MaxMemoryMB (Limits c) * 1024) * 1024) in
          mkResourceLimits (lim_MaxConnections (Limits c)) (lim_MaxRequests (Limits c))
            (if maxMemoryBytes =? 0 then 8 * 1024 * 1024 * 1024 else maxMemoryBytes) 0 0 0
      end
  end.

Definition serverShutdownTimeout (cfg : option Config) (explicit : Z) : Z :=
  let t := match cfg with Some c => if explicit =? 0 then rel_ShutdownTimeout (Reliability c) else explicit | None => explicit end in
  if t =? 0 then 30 * second else t.

Definition serverEnableCRC (cfg : option Config) (explicit : bool) : bool :=
  match cfg with Some c => if negb explicit then rel_EnableCRC (Reliability c) else explicit | None => explicit end.

(** ** Shutdown ([shutdown.go]) *)

Inductive ShutdownPhase := PhaseStopAccepting | PhaseDrainConnections | PhasePersistState | PhaseCloseResources.

#[global] Instance ShutdownPhase_eq_dec : EqDecision ShutdownPhase.
Proof. solve_decision. Defined.

Definition phases : list ShutdownPhase := [PhaseStopAccepting; PhaseDrainConnections; PhasePersistState; PhaseCloseResources].

(** How a hook ends: in time, with an error, in a panic, or after the deadline. *)
Inductive HookEnd := HookOk | HookErr (e : string) | HookPanic | HookLate.

(** A hook is known by a number; [gs_hooks] lists them as they were registered. *)
Record GracefulShutdown := mkGracefulShutdown {
  gs_hooks : list (ShutdownPhase * nat); gs_timeout : Z; gs_drainTimeout : Z; gs_done : bool;
}.

Definition NewGracefulShutdown (timeout : Z) (drainTimeout : option Z) : GracefulShutdown :=
  mkGracefulShutdown [] (if timeout =? 0 then 30 * second else timeout)
    match drainTimeout with Some d => if d >? 0 then d else 5 * second | None => 5 * second end false.

Definition RegisterHook (gs : GracefulShutdown) (phase : ShutdownPhase) (hook : nat) : GracefulShutdown :=
  mkGracefulShutdown (gs_hooks gs ++ [(phase, hook)]) (gs_timeout gs) (gs_drainTimeout gs) (gs_done gs).

Definition hooksOf (gs : GracefulShutdown) (phase : ShutdownPhase) : list nat :=
  omap (fun p => if decide (p.1 = phase) then Some p.2 else None) (gs_hooks gs).

Inductive PhaseError := PhaseFailed (n : Z) (first : string) | PhaseTimeout.

(** The hooks run concurrently; [ends] has how they end, in that order. *)
Definition executeHooks (ends : list HookEnd) : option PhaseError :=
  match ends with
  | [] => None
  | _ =>
      if existsb (fun e => match e with HookLate => true | _ => false end) ends then Some PhaseTimeout
      else
        match omap (fun e => match e with HookErr s => Some s | _ => None end) ends with
        | [] => None
        | s :: errs => Some (PhaseFailed (Z.of_nat (length (s :: errs))) s)
        end
  end.

(** What [Shutdown] does, one after the other: first the channel of [Done] is
    closed, then the hooks of each phase are started. *)
Inductive ShutdownAct := CloseDone | StartHook (phase : ShutdownPhase) (hook : nat) | PhaseEnd (phase : ShutdownPhase) (err : option PhaseError).

Definition runPhase (ends : nat -> HookEnd) (gs : GracefulShutdown) (phase : ShutdownPhase) : list ShutdownAct :=
  (StartHook phase <$> hooksOf gs phase) ++ [PhaseEnd phase (executeHooks (ends <$> hooksOf gs phase))].

Definition Shutdown (ends : nat -> HookEnd) (gs : GracefulShutdown) : GracefulShutdown * list ShutdownAct :=
  if gs_done gs then (gs, [])
  else
    (mkGracefulShutdown (gs_hooks gs) (gs_timeout gs) (gs_drainTimeout gs) true,
     CloseDone :: mjoin (runPhase ends gs <$> phases)).

Definition IsShuttingDown (gs : GracefulShutdown) : bool := gs_done gs.

Definition phaseName (phase : ShutdownPhase) : string :=
  match phase with
  | PhaseStopAccepting => "Stop Accepting"
  | PhaseDrainConnections => "Drain Connections"
  | PhasePersistState => "Persist State"
  | PhaseCloseResources => "Close Resources"
  end.

(** Errors and time-outs do not keep later phases from running. *)
Lemma shutdown_runs_every_hook ends gs phase hook :
  gs_done gs = false -> (phase, hook) ∈ gs_hooks gs -> StartHook phase hook ∈ (Shutdown ends gs).2.
Proof.
  intros Hd Hin. unfold Shutdown. rewrite Hd. cbn [snd]. apply elem_of_cons. right. apply list_elem_of_join.
  exists (runPhase ends gs phase). split.
  - unfold runPhase. apply elem_of_app. left. apply list_elem_of_fmap. exists hook. split; [done|].
    apply list_elem_of_omap. exists (phase, hook). split; [done|]. cbn. by rewrite decide_True.
  - apply list_elem_of_fmap. exists phase. split; [done|]. destruct phase; set_solver.
Qed.

(** [WaitForShutdown] of the server waits for [Done], which comes first of all. *)
Lemma done_before_hooks ends gs : gs_done gs = false -> head (Shutdown ends gs).2 = Some CloseDone.
Proof. intros Hd. unfold Shutdown. by rewrite Hd. Qed.

(** ** Health ([pkg/reliability/health.go], [pkg/health/health.go]) *)

Inductive ServingStatus := SERVING | NOT_SERVING | SERVICE_UNKNOWN.

(** The checkers by name: what each answers, an error or none. *)
Definition HealthManager_Check (checkers : gmap string bool) (serviceName : string) : ServingStatus :=
  if negb (String.eqb serviceName "") then
    match checkers !! serviceName with
    | Some fails => if fails : bool then NOT_SERVING else SERVING
    | None => SERVICE_UNKNOWN
    end
  else if existsb snd (map_to_list checkers) then NOT_SERVING else SERVING.

Inductive HealthStatus_ := StatusHealthy | StatusUnhealthy | StatusDegraded.

(** A checker's name, and what its check answers and whether with an error. *)
Record CheckerRun := mkCheckerRun { cr_Name : string; cr_Status : HealthStatus_; cr_Message : string; cr_Err : option string }.

Record HealthReport := mkHealthReport { hr_Status : HealthStatus_; hr_Checks : gmap string (HealthStatus_ * string) }.

Definition runChecker (report : HealthReport) (c : CheckerRun) : HealthReport :=
  let '(status, message) := match cr_Err c with Some e => (StatusUnhealthy, e) | None => (cr_Status c, cr_Message c) end in
  mkHealthReport
    match status, hr_Status report with
    | StatusUnhealthy, _ => StatusUnhealthy
    | StatusDegraded, StatusUnhealthy => StatusUnhealthy
    | StatusDegraded, _ => StatusDegraded
    | StatusHealthy, s => s
    end
    (<[cr_Name c := (status, message)]> (hr_Checks report)).

Record HealthServer := mkHealthServer { cachedReport : option HealthReport; cacheValidUntil : Z }.
Definition cacheDuration : Z := 5 * second.

(** [now] is read before the cache is looked at and [now'] after the checks; the
    times in a report are left out. *)
Definition HealthServer_Check (now now' : Z) (hs : HealthServer) (checkers : list CheckerRun) : HealthServer * HealthReport :=
  match cachedReport hs with
  | Some r => if now <? cacheValidUntil hs then (hs, r) else
      let r := fold_left runChecker checkers (mkHealthReport StatusHealthy ∅) in
      (mkHealthServer (Some r) (now' + cacheDuration), r)
  | None =>
      let r := fold_left runChecker checkers (mkHealthReport StatusHealthy ∅) in
      (mkHealthServer (Some r) (now' + cacheDuration), r)
  end.

Definition httpStatus (r : HealthReport) : Z := match hr_Status r with StatusUnhealthy => 503 | _ => 200 end.

Definition StoreChecker_Check (err : option string) : HealthStatus_ * string * option string :=
  match err with
  | Some e => (StatusUnhealthy, "store check failed: " +:+ e, Some e)
  | None => (StatusHealthy, "store is operational", None)
  end.

Definition RaftChecker_Check (isLeader hasQuorum : bool) (err : option string) : HealthStatus_ * string * option string :=
  match err with
  | Some e => (StatusUnhealthy, "raft check failed: " +:+ e, Some e)
  | None =>
      if negb hasQuorum then (StatusDegraded, "no quorum", None)
      else if isLeader then (StatusHealthy, "leader with quorum", None)
      else (StatusHealthy, "follower with quorum", None)
  end.

Definition failing (c : CheckerRun) : bool :=
  match cr_Err c, cr_Status c with Some _, _ => true | _, StatusUnhealthy => true | _, _ => false end.

(** The endpoint answers 503 exactly when one of the checks failed. *)
Lemma health_endpoint now now' hs checkers :
  cachedReport hs = None -> httpStatus (HealthServer_Check now now' hs checkers).2 = if existsb failing checkers then 503 else 200.
Proof.
  intros Hc. unfold HealthServer_Check. rewrite Hc. cbn [snd].
  assert (H : forall r, httpStatus (fold_left runChecker checkers r) = if existsb failing checkers then 503 else httpStatus r).
  { induction checkers as [|c cs IH]; intros r; [done|]. cbn [fold_left existsb]. rewrite IH.
    destruct (existsb failing cs); [by rewrite orb_true_r|]. rewrite orb_false_r.
    destruct c as [name [] msg [e|]], r as [[] cks]; done. }
  apply H.
Qed.

(** Three calls at a limit of two; the handler of the first panics. *)
Definition busyEvents : list (CallEvent unit) :=
  [CArrive; CArrive; CArrive; CStep 0 5; CStep 1 5; CStep 2 5; CStep 0 5; CStep 1 5; CStep 2 5; CStep 2 5; CFinish 0 Panicked;
   CStep 0 5; CArrive; CStep 3 5].

Definition busyManager : ResourceManager := NewResourceManager (mkResourceLimits 10 2 100 0 0 0).

Lemma calls_within_limit_witness :
  totalOf admitted (calls (calls_run busyManager busyEvents)) <= 2 /\
  calls (calls_step (calls_run busyManager busyEvents) (CStep 3 0)) !! 3%nat = Some Inside.
Proof.
  destruct (calls_within_limit (Gate0 := requests_gate) busyManager busyEvents ltac:(vm_compute; reflexivity) ltac:(vm_compute; reflexivity)) as (H1 & _ & _ & H2).
  split; [exact H1|]. apply H2; vm_compute; reflexivity.
Defined.

Lemma crc_one_byte_witness :
  ValidateAndStripCRC (mkValidator true) 0 (AppendCRC (mkValidator true) "abc") = (0, Ok "abc"%string) /\
  exists expected got, ValidateAndStripCRC (mkValidator true) 0 ("a" +:+ String "x" ("c" +:+ put_le 4 (ChecksumIEEE "abc")))
    = (1, Err (CRCMismatch expected got)).
Proof.
  apply (crc_one_byte (mkValidator true) 0 "abc" "a" ("c" +:+ put_le 4 (ChecksumIEEE "abc")) "b" "x" eq_refl);
    [vm_compute; reflexivity|discriminate].
Defined.

(** The check value of CRC-32. *)
Example crc_check_value : ChecksumIEEE "123456789" = 0xCBF43926.
Proof. vm_compute. reflexivity. Qed.

(** A snapshot made without a checksum is not one [ValidateSnapshot] can look at. *)
Example short_snapshot_panics : ValidateSnapshot (mkValidator false) 0 (CreateSnapshot (mkValidator false) "abc") = None.
Proof. reflexivity. Qed.
