(* ===== verification/LogRotation.v ===== *)
(** * Rotating log files ([pkg/log/rotation.go])

    The writer appends to one file; when that has reached its size, or on another
    day of the month, it is renamed to a backup that carries the time of day in
    its name, and a new file is opened.  Once a day old backups are removed.  What
    the file system answers to each call, and the times the clock shows, are data
    ([Os]); times are counted in whole seconds. *)

From S2P Require Import Prelude GoBytes OrderedTree.

(** ** Times *)

Record Time := mkTime { t_year : Z; t_month : Z; t_day : Z; t_hour : Z; t_minute : Z; t_second : Z }.

#[global] Instance Time_eq_dec : EqDecision Time.
Proof. solve_decision. Defined.

Definition thenCompare (c d : comparison) : comparison := match c with Eq => d | _ => c end.

Definition Time_compare (a b : Time) : comparison :=
  thenCompare (t_year a ?= t_year b) (thenCompare (t_month a ?= t_month b) (thenCompare (t_day a ?= t_day b)
    (thenCompare (t_hour a ?= t_hour b) (thenCompare (t_minute a ?= t_minute b) (t_second a ?= t_second b))))).

Definition Before (a b : Time) : bool := match Time_compare a b with Lt => true | _ => false end.

(** The last [n] decimal digits. *)
Fixpoint digits (n : nat) (z : Z) : string :=
  match n with
  | O => ""
  | S m => String (byte_of (48 + (z / 10 ^ Z.of_nat m) mod 10)) (digits m z)
  end.

(** [Format("2006-01-02-15-04-05")], for years of four digits. *)
Definition Format (t : Time) : string :=
  digits 4 (t_year t) +:+ "-" +:+ digits 2 (t_month t) +:+ "-" +:+ digits 2 (t_day t) +:+ "-" +:+
  digits 2 (t_hour t) +:+ "-" +:+ digits 2 (t_minute t) +:+ "-" +:+ digits 2 (t_second t).

(** ** Files *)

Record LogFile := mkLogFile { lf_Data : string; lf_ModTime : Time }.

(** The files by their paths. *)
Abbreviation FileSystem := (gmap string LogFile).

(** What happens during one call: the times read in it, which of the calls of the
    system succeed, and how many bytes a write that fails has written. *)
Record Os := mkOs {
  o_now : Time; o_stamp : Time; o_opened : Time; o_written : Time;
  o_mkdir : bool; o_open : bool; o_stat : bool; o_rename : bool; o_short : option nat;
}.

Record RotationConfig := mkRotationConfig {
  Filename : string; MaxSize : Z; MaxAge : Z; MaxBackups : Z; Compress : bool; LocalTime : bool;
}.

(** [rw_open]: the handle is of an open file. *)
Record RotatingFileWriter := mkWriter { config : RotationConfig; rw_open : bool; rw_size : Z; lastDay : Z }.

(** The writer, the files, and the backups that goroutines are about to compress. *)
Record System := mkSystem { files : FileSystem; writer : RotatingFileWriter; compressing : list string }.

Inductive LogErr := OpenFailed | FileClosed | ShortWrite.

Definition setFiles (st : System) (fs : FileSystem) : System := mkSystem fs (writer st) (compressing st).
Definition setWriter (st : System) (w : RotatingFileWriter) : System := mkSystem (files st) w (compressing st).

(** The file is created if it does not exist, also when [Stat] then fails. *)
Definition openFile (o : Os) (st : System) : System * option LogErr :=
  let w := writer st in
  let name := Filename (config w) in
  if negb (o_mkdir o) then (st, Some OpenFailed)
  else if negb (o_open o) then (st, Some OpenFailed)
  else
    let file := default (mkLogFile "" (o_opened o)) (files st !! name) in
    let st1 := setFiles st (<[name := file]> (files st)) in
    if negb (o_stat o) then (st1, Some OpenFailed)
    else (setWriter st1 (mkWriter (config w) true (str_len (lf_Data file)) (t_day (o_opened o))), None).

Definition withDefaults (c : RotationConfig) : RotationConfig :=
  mkRotationConfig (Filename c) (if MaxSize c =? 0 then 100 else MaxSize c) (if MaxAge c =? 0 then 7 else MaxAge c)
    (if MaxBackups c =? 0 then 10 else MaxBackups c) (Compress c) (LocalTime c).

Definition NewRotatingFileWriter (o : Os) (fs : FileSystem) (c : RotationConfig) : System * option LogErr :=
  openFile o (mkSystem fs (mkWriter (withDefaults c) false 0 0) []).

Definition sizeLimit (c : RotationConfig) : Z := wrap_i64 (wrap_i64 (MaxSize c * 1024) * 1024).

Definition shouldRotate (o : Os) (w : RotatingFileWriter) (writeLen : Z) : bool :=
  if wrap_i64 (rw_size w + writeLen) >=? sizeLimit (config w) then true
  else negb (t_day (o_now o) =? lastDay w).

Definition backupName (filename stamp : string) : string := filename +:+ "." +:+ stamp.

Definition rotate (o : Os) (st : System) : System * option LogErr :=
  let w := writer st in
  let c := config w in
  let st1 := setWriter st (mkWriter c false (rw_size w) (lastDay w)) in
  let backup := backupName (Filename c) (Format (o_stamp o)) in
  match (if o_rename o then files st !! Filename c else None) with
  | None => openFile o st1
  | Some file =>
      let st2 := mkSystem (<[backup := file]> (delete (Filename c) (files st))) (writer st1)
                   (if Compress c then compressing st ++ [backup] else compressing st) in
      openFile o st2
  end.

(** The number of bytes written and the error. *)
Definition Write (o : Os) (p : string) (st : System) : System * (Z * option LogErr) :=
  let '(st1, err) := if shouldRotate o (writer st) (str_len p) then rotate o st else (st, None) in
  match err with
  | Some e => (st1, (0, Some e))
  | None =>
      let w := writer st1 in
      if negb (rw_open w) then (st1, (0, Some FileClosed))
      else
        let data := match o_short o with Some k => str_take k p | None => p end in
        let n := str_len data in
        let fs := alter (fun f => mkLogFile (lf_Data f +:+ data) (o_written o)) (Filename (config w)) (files st1) in
        (mkSystem fs (mkWriter (config w) true (wrap_i64 (rw_size w + n)) (lastDay w)) (compressing st1),
         (n, if n <? str_len p then Some ShortWrite else None))
  end.

Definition Close (st : System) : System :=
  let w := writer st in setWriter st (mkWriter (config w) false (rw_size w) (lastDay w)).

(** [filepath.Glob] of the name and [.*]: in the order of the names.  [Glob] gives
    a meaning to the characters [*?[\] in the name and in its directory and answers
    clean paths; these definitions are for names without them that are clean. *)
Definition isBackup (filename name : string) : bool :=
  has_prefix (filename +:+ ".") name &&
  forallb (fun c => negb (byte_val c =? 47)) (String.list_ascii_of_string (str_drop (String.length filename + 1) name)).

Definition glob (filename : string) (fs : FileSystem) : list string :=
  (List.filter (fun p => isBackup filename p.1) (sorted_entries fs)).*1.

Definition removeOld (cutoff : Time) (fs : FileSystem) (file : string) : FileSystem :=
  match fs !! file with
  | None => fs
  | Some f => if Before (lf_ModTime f) cutoff then delete file fs else fs
  end.

(** [cutoff] is the time [MaxAge] days ago.  [None] is a panic: an index out of range. *)
Definition cleanup (cutoff : Time) (st : System) : option System :=
  let c := config (writer st) in
  let fs := glob (Filename c) (files st) in
  let fs1 := fold_left (removeOld cutoff) fs (files st) in
  let n := Z.of_nat (length fs) in
  if n >? MaxBackups c then
    if n - MaxBackups c >? n then None
    else Some (setFiles st (fold_left (fun t f => delete f t) (take (Z.to_nat (n - MaxBackups c)) fs) fs1))
  else Some (setFiles st fs1).

(** A goroutine of [compressFile]: it only renames. *)
Definition compressFile (filename : string) (st : System) : System :=
  match files st !! filename with
  | None => st
  | Some f => setFiles st (<[filename +:+ ".gz" := f]> (delete filename (files st)))
  end.

(** Names [Glob] takes literally and answers as they are: none of the characters
    it interprets, and no component that [Clean] would remove. *)
Fixpoint components (s : string) : string * list string :=
  match s with
  | EmptyString => ("", [])
  | String c s' => let '(x, l) := components s' in if byte_val c =? 47 then ("", x :: l) else (String c x, l)
  end.

Definition literalName (s : string) : bool :=
  let '(x, l) := components s in
  negb (String.eqb s "") &&
  forallb (fun c => negb (existsb (Z.eqb (byte_val c)) [42; 63; 91; 92])) (String.list_ascii_of_string s) &&
  forallb (fun y => negb (String.eqb y "." || String.eqb y "..")) (x :: l) && forallb (fun y => negb (String.eqb y "")) l.

(** ** What the files should hold *)

(** The backups with the times in their names, the oldest first, and the current
    file with the day it is for. *)
Record Log := mkLog { segments : list (Time * LogFile); current : LogFile; logDay : Z }.

Section spec.
Variable c : RotationConfig.

Definition limit : Z := MaxSize c * 1024 * 1024.

Definition dueAt (o : Os) (p : string) (a : Log) : bool :=
  (str_len (lf_Data (current a)) + str_len p >=? limit) || negb (t_day (o_now o) =? logDay a).

(** The time of the next backup is after those of the others. *)
Definition later (t : Time) (l : list (Time * LogFile)) : bool :=
  match last l with None => true | Some s => Before s.1 t end.

(** [None]: a backup would get a name that is not after the others. *)
Definition spec_write (o : Os) (p : string) (a : Log) : option Log :=
  if dueAt o p a then
    if later (o_stamp o) (segments a) then
      Some (mkLog (segments a ++ [(o_stamp o, current a)]) (mkLogFile p (o_written o)) (t_day (o_opened o)))
    else None
  else Some (mkLog (segments a) (mkLogFile (lf_Data (current a) +:+ p) (o_written o)) (logDay a)).

Definition young (cutoff : Time) (s : Time * LogFile) : bool := negb (Before (lf_ModTime s.2) cutoff).

(** The newest [MaxBackups] backups stay, of these the ones that are not too old. *)
Definition spec_cleanup (cutoff : Time) (a : Log) : Log :=
  mkLog (List.filter (young cutoff) (drop (length (segments a) - Z.to_nat (MaxBackups c)) (segments a))) (current a) (logDay a).

End spec.

(** ** Names of backups *)

Definition validTime (t : Time) : Prop :=
  0 <= t_year t < 10000 /\ 0 <= t_month t < 100 /\ 0 <= t_day t < 100 /\ 0 <= t_hour t < 100 /\ 0 <= t_minute t < 100 /\
  0 <= t_second t < 100.

Lemma digits_length n z : String.length (digits n z) = n.
Proof. induction n; cbn; congruence. Qed.

Lemma digits_compare n a b : String.compare (digits n a) (digits n b) = (a mod 10 ^ Z.of_nat n ?= b mod 10 ^ Z.of_nat n).
Proof.
  induction n as [|n IH]; [by rewrite !Z.mod_1_r|].
  cbn [digits String.compare]. rewrite ascii_compare_val, !byte_val_of, IH.
  assert (Hp : 0 < 10 ^ Z.of_nat n) by (apply Z.pow_pos_nonneg; lia).
  rewrite Nat2Z.inj_succ, Z.pow_succ_r, (Z.mul_comm 10), !Z.rem_mul_r by lia.
  pose proof (Z.mod_pos_bound (a / 10 ^ Z.of_nat n) 10 ltac:(lia)). pose proof (Z.mod_pos_bound (b / 10 ^ Z.of_nat n) 10 ltac:(lia)).
  pose proof (Z.mod_pos_bound a (10 ^ Z.of_nat n) Hp). pose proof (Z.mod_pos_bound b (10 ^ Z.of_nat n) Hp).
  set (p := 10 ^ Z.of_nat n) in *. set (da := (a / p) mod 10) in *. set (db := (b / p) mod 10) in *.
  set (ra := a mod p) in *. set (rb := b mod p) in *. clearbody da db ra rb p.
  rewrite !(Z.mod_small (48 + _)) by lia.
  destruct (Z.compare_spec (48 + da) (48 + db)), (Z.compare_spec ra rb), (Z.compare_spec (ra + p * da) (rb + p * db));
    try done; nia.
Qed.

Lemma digits_small n a b : 0 <= a < 10 ^ Z.of_nat n -> 0 <= b < 10 ^ Z.of_nat n ->
  String.compare (digits n a) (digits n b) = (a ?= b).
Proof. intros. rewrite digits_compare. by rewrite !Z.mod_small. Qed.

Lemma digits_then n a b s t : 0 <= a < 10 ^ Z.of_nat n -> 0 <= b < 10 ^ Z.of_nat n ->
  String.compare (digits n a +:+ s) (digits n b +:+ t) = thenCompare (a ?= b) (String.compare s t).
Proof. intros Ha Hb. rewrite str_compare_app by (by rewrite !digits_length). rewrite digits_small by done. by destruct (a ?= b). Qed.

(** Names sort as the times they carry. *)
Lemma Format_compare a b : validTime a -> validTime b -> String.compare (Format a) (Format b) = Time_compare a b.
Proof.
  intros (?&?&?&?&?&?) (?&?&?&?&?&?). unfold Format, Time_compare.
  do 5 (rewrite digits_then by (cbn; lia); rewrite (str_compare_prefix "-")). by rewrite digits_small by (cbn; lia).
Qed.

Lemma Format_inj a b : validTime a -> validTime b -> Format a = Format b -> Time_compare a b = Eq.
Proof.
  intros Ha Hb He. rewrite <- Format_compare, He by done.
  assert (H := str_compare_prefix (Format b) "" ""). by rewrite !str_app_nil_r in H.
Qed.

(** ** The files hold the log *)

Definition named (filename : string) (s : Time * LogFile) : string * LogFile := (backupName filename (Format s.1), s.2).

Definition inOrder (s t : Time * LogFile) : Prop := str_ltb (Format s.1) (Format t.1) = true.

(** Room for one more write below [2 ^ 62] bytes. *)
Record R (c : RotationConfig) (st : System) (a : Log) : Prop := {
  R_config : config (writer st) = c;
  R_open : rw_open (writer st) = true;
  R_current : files st !! Filename c = Some (current a);
  R_size : rw_size (writer st) = str_len (lf_Data (current a));
  R_day : lastDay (writer st) = logDay a;
  R_room : str_len (lf_Data (current a)) < 2 ^ 62;
  R_valid : Forall (fun s => validTime s.1) (segments a);
  R_sorted : StronglySorted inOrder (segments a);
  R_backups name f : isBackup (Filename c) name = true ->
    (files st !! name = Some f <-> (name, f) ∈ named (Filename c) <$> segments a);
  R_idle : compressing st = [];
}.

Lemma digits_no_slash n z : forallb (fun c => negb (byte_val c =? 47)) (String.list_ascii_of_string (digits n z)) = true.
Proof.
  induction n as [|n IH]; [done|]. cbn [digits String.list_ascii_of_string forallb]. rewrite IH, byte_val_of.
  pose proof (Z.mod_pos_bound (z / 10 ^ Z.of_nat n) 10 ltac:(lia)). rewrite (Z.mod_small (48 + _)) by lia.
  destruct (Z.eqb_spec (48 + (z / 10 ^ Z.of_nat n) mod 10) 47); [lia|done].
Qed.

Lemma ascii_list_app s t : String.list_ascii_of_string (s +:+ t) = String.list_ascii_of_string s ++ String.list_ascii_of_string t.
Proof.
  induction s as [|c s IH]; [done|]. change (String c s +:+ t) with (String c (s +:+ t)).
  cbn [String.list_ascii_of_string]. by rewrite IH.
Qed.

Lemma isBackup_Format filename t : isBackup filename (backupName filename (Format t)) = true.
Proof.
  unfold isBackup, backupName. replace (filename +:+ "." +:+ Format t) with ((filename +:+ ".") +:+ Format t) by apply str_app_assoc. rewrite has_prefix_app.
  replace (String.length filename + 1)%nat with (String.length (filename +:+ ".")) by (rewrite str_length_app; cbn; lia).
  rewrite str_drop_app. unfold Format. rewrite !ascii_list_app, !forallb_app, !digits_no_slash. done.
Qed.

Lemma prefix_length p : forall s, has_prefix p s = true -> (String.length p <= String.length s)%nat.
Proof.
  unfold has_prefix. induction p as [|a p IH]; intros [|b s]; cbn; try done; [lia|].
  destruct (Ascii.ascii_dec a b); [|done]. intros H%IH. lia.
Qed.

Lemma isBackup_ne filename name : isBackup filename name = true -> name <> filename.
Proof. intros [H _]%andb_prop ->. apply prefix_length in H. rewrite str_length_app in H. cbn in H. lia. Qed.

Lemma backup_inj filename s t : backupName filename s = backupName filename t -> s = t.
Proof. unfold backupName. intros H. apply str_app_inj_l in H as [_ H]; [|done]. by injection H. Qed.

Lemma named_sorted filename l : StronglySorted inOrder l ->
  StronglySorted (fun p q : string * LogFile => lessb p.1 q.1 = true) (named filename <$> l).
Proof.
  induction 1 as [|s l _ IH Hall]; cbn; constructor; [done|]. apply Forall_fmap. eapply Forall_impl; [exact Hall|].
  intros t Ht. unfold inOrder in Ht. cbn. change (str_ltb (backupName filename (Format s.1)) (backupName filename (Format t.1)) = true).
  unfold str_ltb, String.ltb, backupName in *. by rewrite !str_compare_prefix.
Qed.

Lemma named_nodup filename l : StronglySorted inOrder l -> NoDup (named filename <$> l).*1.
Proof.
  intros Hs%(named_sorted filename). induction Hs as [|p ps _ IH Hall]; cbn; constructor; [|done].
  intros (q & He & Hin)%list_elem_of_fmap. rewrite Forall_forall in Hall. specialize (Hall q Hin). rewrite He in Hall.
  by rewrite lessb_irrefl in Hall.
Qed.

(** The backups are found in the order of their times. *)
Lemma glob_segments c st a : R c st a -> glob (Filename c) (files st) = (named (Filename c) <$> segments a).*1.
Proof.
  intros [_ _ _ _ _ _ _ Hs Hb _]. unfold glob. f_equal. apply strictly_sorted_unique.
  - apply filter_sorted, sorted_entries_sorted.
  - by apply named_sorted.
  - intros [name f]. rewrite list_elem_of_In, filter_In, <- list_elem_of_In, sorted_entries_perm, elem_of_map_to_list. cbn. split.
    + intros [Hl Hi]. by apply Hb.
    + intros Hin. pose proof Hin as (s & [= Hn ->] & _)%list_elem_of_fmap.
      assert (Hi : isBackup (Filename c) name = true) by (rewrite Hn; apply isBackup_Format). split; [by apply Hb|done].
Qed.

Definition good (o : Os) : Prop :=
  validTime (o_stamp o) /\ o_mkdir o = true /\ o_open o = true /\ o_stat o = true /\ o_rename o = true /\ o_short o = None.

Definition goodConfig (c : RotationConfig) : Prop :=
  0 < MaxSize c <= 2 ^ 40 /\ 0 <= MaxBackups c /\ Compress c = false /\ literalName (Filename c) = true.

Lemma sizeLimit_limit c : goodConfig c -> sizeLimit c = limit c /\ 0 < limit c <= 2 ^ 60.
Proof.
  intros [Hm _]. unfold sizeLimit, limit. rewrite (wrap_i64_id (MaxSize c * 1024)) by (unfold is_i64, int64_min, int64_max; lia).
  rewrite wrap_i64_id by (unfold is_i64, int64_min, int64_max; lia). lia.
Qed.

Lemma due_spec c o p st a : R c st a -> goodConfig c -> str_len p < 2 ^ 62 -> shouldRotate o (writer st) (str_len p) = dueAt c o p a.
Proof.
  intros HR Hc Hp. unfold shouldRotate, dueAt. rewrite (R_config _ _ _ HR), (R_size _ _ _ HR), (R_day _ _ _ HR).
  pose proof (R_room _ _ _ HR). pose proof (str_len_nonneg p). pose proof (str_len_nonneg (lf_Data (current a))).
  rewrite wrap_i64_id by (unfold is_i64, int64_min, int64_max; lia). destruct (sizeLimit_limit c Hc) as [-> _].
  by destruct (_ >=? _).
Qed.

Lemma later_sorted t f l : validTime t -> Forall (fun s => validTime s.1) l -> StronglySorted inOrder l ->
  later t l = true -> StronglySorted inOrder (l ++ [(t, f)]).
Proof.
  intros Ht Hv Hs Hl. apply StronglySorted_app. split; [|split; [done|by repeat constructor]].
  intros x y Hx ->%list_elem_of_singleton. unfold later in Hl. destruct (last l) as [s|] eqn:E; [|by destruct l; [apply elem_of_nil in Hx|apply last_None in E]].
  apply last_Some in E as [l' ->]. apply Forall_app in Hv as [_ [Hvs _]%Forall_cons].
  assert (Hst : inOrder s (t, f)).
  { unfold inOrder, str_ltb, String.ltb. cbn. rewrite Format_compare by done. unfold Before in Hl. by destruct (Time_compare _ _). }
  apply elem_of_app in Hx as [Hx| ->%list_elem_of_singleton]; [|done].
  apply StronglySorted_app in Hs as (Hs & _ & _). specialize (Hs x s Hx ltac:(by apply list_elem_of_singleton)).
  unfold inOrder in *. by eapply str_ltb_trans.
Qed.

(** The write itself, with the file open. *)
Lemma append_refines c st a p t :
  R c st a -> str_len (lf_Data (current a)) + str_len p < 2 ^ 62 ->
  R c (mkSystem (alter (fun f => mkLogFile (lf_Data f +:+ p) t) (Filename c) (files st))
         (mkWriter c true (wrap_i64 (rw_size (writer st) + str_len p)) (lastDay (writer st))) (compressing st))
      (mkLog (segments a) (mkLogFile (lf_Data (current a) +:+ p) t) (logDay a)).
Proof.
  intros [Hc Ho Hf Hz Hd Hr Hv Hs Hb Hidle] Hp. split; cbn [files setWriter setFiles writer config rw_open rw_size lastDay current segments logDay lf_Data]; try done.
  - by rewrite lookup_alter_eq, Hf.
  - pose proof (str_len_nonneg p). pose proof (str_len_nonneg (lf_Data (current a))).
    rewrite Hz, str_len_app. apply wrap_i64_id.
    unfold is_i64, int64_min, int64_max. lia.
  - by rewrite str_len_app.
  - intros name f Hi. rewrite lookup_alter_ne; [by apply Hb|]. by apply not_eq_sym, isBackup_ne.
Qed.

Lemma rotate_refines c o st a :
  R c st a -> goodConfig c -> good o -> later (o_stamp o) (segments a) = true ->
  exists st', rotate o st = (st', None) /\
    R c st' (mkLog (segments a ++ [(o_stamp o, current a)]) (mkLogFile "" (o_opened o)) (t_day (o_opened o))).
Proof.
  intros [Hc Ho Hf Hz Hd Hr Hv Hs Hb Hidle] (_ & _ & Hno & _) (Ht & Hm & Hop & Hst & Hrn & _) Hl. unfold rotate. rewrite Hc, Hrn, Hf, Hno.
  set (b := backupName _ _). assert (Hbn : b <> Filename c) by (apply isBackup_ne, isBackup_Format).
  unfold openFile. cbn. rewrite Hm, Hop, Hst. cbn. rewrite lookup_insert_ne, lookup_delete_eq by done. cbn.
  eexists. split; [done|]. split; cbn [files setWriter setFiles writer config rw_open rw_size lastDay current segments logDay lf_Data]; try done.
  - by rewrite lookup_insert_eq.
  - apply Forall_app. by split; [|apply Forall_singleton].
  - by apply later_sorted.
  - intros name f Hi. pose proof (isBackup_ne _ _ Hi) as Hne. rewrite lookup_insert_ne by done. rewrite fmap_app, elem_of_app.
    cbn. rewrite list_elem_of_singleton. unfold named at 2. cbn. fold b. rewrite lookup_insert. case_decide as Hn.
    + subst name. split; [intros [= <-]; by right|]. intros [Hin|[= <-]]; [|done]. exfalso.
      pose proof (named_nodup (Filename c) _ (later_sorted _ (current a) _ Ht Hv Hs Hl)) as Hnd.
      rewrite !fmap_app in Hnd. apply NoDup_app in Hnd as (_ & Hnd & _). apply (Hnd b); [|by apply list_elem_of_singleton].
      apply list_elem_of_fmap. by exists (b, f).
    + rewrite lookup_delete_ne, Hb by done. split; [by left|]. intros [?|[= -> ->]]; done.
Qed.

Lemma Write_refines c o p st a a' :
  R c st a -> goodConfig c -> good o -> str_len p < 2 ^ 62 -> spec_write c o p a = Some a' ->
  exists st', Write o p st = (st', (str_len p, None)) /\ R c st' a'.
Proof.
  intros HR Hc Hg Hp. unfold spec_write, Write. rewrite (due_spec c o p st a) by done.
  destruct (sizeLimit_limit c Hc) as [_ Hlim]. pose proof (str_len_nonneg p) as Hp0.
  assert (Hend : forall st1 a1, R c st1 a1 -> str_len (lf_Data (current a1)) + str_len p < 2 ^ 62 ->
    exists st', (let w := writer st1 in
      if negb (rw_open w) then (st1, (0, Some FileClosed))
      else let data := match o_short o with Some k => str_take k p | None => p end in
        (mkSystem (alter (fun f => mkLogFile (lf_Data f +:+ data) (o_written o)) (Filename (config w)) (files st1))
           (mkWriter (config w) true (wrap_i64 (rw_size w + str_len data)) (lastDay w)) (compressing st1),
         (str_len data, if str_len data <? str_len p then Some ShortWrite else None))) = (st', (str_len p, None)) /\
      R c st' (mkLog (segments a1) (mkLogFile (lf_Data (current a1) +:+ p) (o_written o)) (logDay a1))).
  { intros st1 a1 HR1 Hp1. cbn zeta. destruct Hg as (_ & _ & _ & _ & _ & ->). rewrite (R_open _ _ _ HR1), (R_config _ _ _ HR1). cbn.
    rewrite Z.ltb_irrefl. eexists. split; [done|]. by apply append_refines. }
  unfold dueAt. destruct (_ || _) eqn:Ed.
  - destruct (later _ _) eqn:El; [|done]. intros [= <-].
    destruct (rotate_refines c o st a HR Hc Hg El) as (st1 & -> & HR1).
    destruct (Hend st1 _ HR1) as (st' & Hw & HR'); [change (0 + str_len p < 2 ^ 62); lia|]. exists st'. split; [exact Hw|exact HR'].
  - intros [= <-]. apply orb_false_iff in Ed as [Ed _]. rewrite Z.geb_leb, Z.leb_gt in Ed. apply Hend; [done|lia].
Qed.

(** *** Cleaning up *)

Lemma removeOld_fold cutoff names : forall fs k f,
  fold_left (removeOld cutoff) names fs !! k = Some f <->
  fs !! k = Some f /\ (k ∈ names -> Before (lf_ModTime f) cutoff = false).
Proof.
  induction names as [|n names IH]; intros fs k f; cbn [fold_left].
  { split; [|by intros [? _]]. intros H. split; [done|]. by intros ?%elem_of_nil. }
  rewrite IH, elem_of_cons. unfold removeOld. destruct (fs !! n) as [g|] eqn:En; [|naive_solver congruence].
  destruct (Before (lf_ModTime g) cutoff) eqn:Eb; [rewrite lookup_delete_Some|]; naive_solver congruence.
Qed.

Lemma delete_fold names : forall (fs : FileSystem) k f,
  fold_left (fun t n => delete n t) names fs !! k = Some f <-> fs !! k = Some f /\ k ∉ names.
Proof.
  induction names as [|n names IH]; intros fs k f; cbn [fold_left]; [set_solver|]. rewrite IH, lookup_delete_Some. set_solver.
Qed.

Lemma cleanup_files c st a cutoff : R c st a -> goodConfig c ->
  let names := (named (Filename c) <$> segments a).*1 in
  cleanup cutoff st = Some (setFiles st (fold_left (fun t n => delete n t)
    (take (length (segments a) - Z.to_nat (MaxBackups c)) names) (fold_left (removeOld cutoff) names (files st)))).
Proof.
  intros HR (_ & Hm & _) names. unfold cleanup. rewrite (R_config _ _ _ HR), (glob_segments c st a HR). fold names.
  assert (Hlen : length names = length (segments a)) by (unfold names; by rewrite !length_fmap). rewrite Hlen.
  destruct (Z.gtb_spec (Z.of_nat (length (segments a))) (MaxBackups c)) as [Hgt|Hle].
  - destruct (Z.gtb_spec (Z.of_nat (length (segments a)) - MaxBackups c) (Z.of_nat (length (segments a)))); [lia|].
    by replace (Z.to_nat (Z.of_nat (length (segments a)) - MaxBackups c)) with (length (segments a) - Z.to_nat (MaxBackups c))%nat by lia.
  - by replace (length (segments a) - Z.to_nat (MaxBackups c))%nat with O by lia.
Qed.

Lemma Forall_filter_drop {A} (P : A -> Prop) f d l : Forall P l -> Forall P (List.filter f (drop d l)).
Proof.
  rewrite !Forall_forall. intros H x [Hx _]%list_elem_of_In%filter_In. apply list_elem_of_In in Hx. by apply H, (subseteq_drop d).
Qed.

Lemma cleanup_refines c st a cutoff : R c st a -> goodConfig c ->
  exists st', cleanup cutoff st = Some st' /\ R c st' (spec_cleanup c cutoff a).
Proof.
  intros HR Hc. eexists. split; [by apply cleanup_files|]. set (names := _.*1). set (d := (_ - _)%nat).
  assert (Hnd : NoDup names) by apply named_nodup, (R_sorted _ _ _ HR).
  assert (Hbk : forall n, n ∈ names -> isBackup (Filename c) n = true).
  { intros n ([? g] & -> & (x & Hx & _)%list_elem_of_fmap)%list_elem_of_fmap. injection Hx as -> _. apply isBackup_Format. }
  destruct HR as [Hcf Ho Hf Hz Hd Hr Hv Hs Hb Hidle]. split; cbn [files setFiles writer spec_cleanup segments current logDay]; try done.
  - apply delete_fold. split; [apply removeOld_fold; split; [done|]|].
    + intros Hin%Hbk. by apply isBackup_ne in Hin.
    + intros Hin%subseteq_take%Hbk. by apply isBackup_ne in Hin.
  - by apply Forall_filter_drop.
  - apply filter_sorted. rewrite <- (take_drop d) in Hs. by apply StronglySorted_app in Hs as (_ & _ & ?).
  - intros name f Hi. rewrite delete_fold, removeOld_fold, Hb by done. split.
    + intros [[(s & Hn & Hin)%list_elem_of_fmap Hy] Ht]. apply list_elem_of_fmap. exists s. split; [done|].
      assert (Hname : named (Filename c) s ∈ named (Filename c) <$> segments a) by by apply list_elem_of_fmap_2.
      assert (Hnm : name ∈ names) by (rewrite <- Hn in Hname; apply list_elem_of_fmap; by exists (name, f)).
      apply list_elem_of_In, filter_In. split; [apply list_elem_of_In|].
      * rewrite <- (take_drop d (segments a)) in Hin. apply elem_of_app in Hin as [Hin|?]; [|done]. exfalso. apply Ht.
        unfold names. rewrite <- !fmap_take. apply list_elem_of_fmap. exists (name, f). split; [done|]. rewrite Hn. by apply list_elem_of_fmap_2.
      * unfold young. injection Hn as -> ->. by rewrite (Hy Hnm).
    + intros (s & Hn & [Hin Hy]%list_elem_of_In%filter_In)%list_elem_of_fmap. apply list_elem_of_In in Hin. injection Hn as -> ->.
      unfold young in Hy. apply negb_true_iff in Hy. split; [split; [|done]|].
      * apply list_elem_of_fmap. exists s. split; [done|]. by apply (subseteq_drop d).
      * intros Ht. rewrite <- (take_drop d names) in Hnd. apply NoDup_app in Hnd as (_ & Hnd & _). apply (Hnd _ Ht).
        unfold names. rewrite <- !fmap_drop. apply list_elem_of_fmap. exists (named (Filename c) s). split; [done|]. by apply list_elem_of_fmap_2.
Qed.

(** *** Runs *)

(** [LCompress i] runs the [i]-th of the goroutines that compress. *)
Inductive LogEvent := LWrite (o : Os) (p : string) | LCleanup (cutoff : Time) | LCompress (i : nat).

Definition log_step (st : System) (e : LogEvent) : option (System * list (Z * option LogErr)) :=
  match e with
  | LWrite o p => let '(st', r) := Write o p st in Some (st', [r])
  | LCleanup cutoff => st' ← cleanup cutoff st; Some (st', [])
  | LCompress i =>
      Some (match compressing st !! i with
            | Some name => mkSystem (files (compressFile name st)) (writer st) (delete i (compressing st))
            | None => st
            end, [])
  end.

(** [None] is a panic. *)
Fixpoint log_run (st : System) (events : list LogEvent) : option (System * list (Z * option LogErr)) :=
  match events with
  | [] => Some (st, [])
  | e :: es => '(st1, r1) ← log_step st e; '(st2, r2) ← log_run st1 es; Some (st2, r1 ++ r2)
  end.

Definition spec_step (c : RotationConfig) (a : Log) (e : LogEvent) : option Log :=
  match e with LWrite o p => spec_write c o p a | LCleanup cutoff => Some (spec_cleanup c cutoff a) | LCompress _ => Some a end.

Fixpoint spec_run (c : RotationConfig) (a : Log) (events : list LogEvent) : option Log :=
  match events with [] => Some a | e :: es => a' ← spec_step c a e; spec_run c a' es end.

Definition goodEvent (e : LogEvent) : Prop := match e with LWrite o p => good o /\ str_len p < 2 ^ 62 | _ => True end.

Definition writes (events : list LogEvent) : list string :=
  omap (fun e => match e with LWrite _ p => Some p | _ => None end) events.

Definition texts (l : list string) : string := foldr (fun s t => s +:+ t) "" l.

(** What is in the backups, in the order of their names, and in the file. *)
Definition logText (st : System) : string :=
  let name := Filename (config (writer st)) in
  texts ((fun n => default "" (lf_Data <$> files st !! n)) <$> glob name (files st)) +:+ default "" (lf_Data <$> files st !! name).

Definition specText (a : Log) : string := texts ((fun s => lf_Data s.2) <$> segments a) +:+ lf_Data (current a).

Lemma texts_app l m : texts (l ++ m) = texts l +:+ texts m.
Proof.
  induction l as [|s l IH]; [done|]. change (s +:+ texts (l ++ m) = (s +:+ texts l) +:+ texts m). by rewrite IH, str_app_assoc.
Qed.

Lemma logText_spec c st a : R c st a -> logText st = specText a.
Proof.
  intros HR. unfold logText, specText. rewrite (R_config _ _ _ HR), (glob_segments c st a HR), (R_current _ _ _ HR). cbn. f_equal. f_equal.
  rewrite <- !list_fmap_compose. apply list_fmap_ext. intros i s Hi. cbn.
  assert (Hb : files st !! backupName (Filename c) (Format s.1) = Some s.2); [|by rewrite Hb].
  apply (R_backups _ _ _ HR); [apply isBackup_Format|]. apply list_elem_of_fmap. exists s. split; [done|]. by eapply list_elem_of_lookup_2.
Qed.

Lemma log_run_refines c events : forall st a a', goodConfig c -> R c st a -> Forall goodEvent events -> spec_run c a events = Some a' ->
  exists st', log_run st events = Some (st', (fun p => (str_len p, None)) <$> writes events) /\ R c st' a'.
Proof.
  induction events as [|e es IH]; intros st a a' Hc HR Hg; cbn [spec_run log_run].
  { intros [= <-]. by exists st. }
  apply Forall_cons in Hg as [He Hg]. destruct (spec_step c a e) as [a1|] eqn:E; [|done]. cbn. intros Hrun.
  destruct e as [o p|cutoff|i]; cbn [spec_step log_step] in *.
  - destruct He as [He Hp]. destruct (Write_refines c o p st a a1 HR Hc He Hp E) as (st1 & -> & HR1). cbn.
    destruct (IH st1 a1 a' Hc HR1 Hg Hrun) as (st' & -> & HR'). by exists st'.
  - injection E as <-. destruct (cleanup_refines c st a cutoff HR Hc) as (st1 & -> & HR1). cbn.
    destruct (IH st1 _ a' Hc HR1 Hg Hrun) as (st' & -> & HR'). by exists st'.
  - injection E as <-. rewrite (R_idle _ _ _ HR). destruct (IH st a a' Hc HR Hg Hrun) as (st' & Hst & HR'). exists st'. split; [|done]. change (([] : list string) !! i) with (@None string). cbn. by rewrite Hst.
Qed.

Lemma new_refines o fs c :
  good o -> (forall name, name = Filename c \/ isBackup (Filename c) name = true -> fs !! name = None) ->
  exists st, NewRotatingFileWriter o fs c = (st, None) /\ R (withDefaults c) st (mkLog [] (mkLogFile "" (o_opened o)) (t_day (o_opened o))).
Proof.
  intros (Ht & Hm & Hop & Hst & Hrn & _) Hfs. unfold NewRotatingFileWriter, openFile. cbn. rewrite Hm, Hop, Hst. cbn.
  rewrite Hfs by by left. cbn. eexists. split; [done|].
  split; cbn [files setWriter setFiles writer config rw_open rw_size lastDay current segments logDay lf_Data Filename withDefaults];
    try done.
  - by rewrite lookup_insert_eq.
  - constructor.
  - intros name f Hi. rewrite lookup_insert_ne by by apply not_eq_sym, isBackup_ne. rewrite Hfs by by right. set_solver.
Qed.

Lemma spec_keeps c events : forall a a', spec_run c a events = Some a' ->
  (forall cutoff, LCleanup cutoff ∉ events) -> specText a' = specText a +:+ texts (writes events).
Proof.
  induction events as [|e es IH]; intros a a'; cbn [spec_run].
  { intros [= <-] _. by rewrite str_app_nil_r. }
  destruct (spec_step c a e) as [a1|] eqn:E; [|done]. cbn. intros Hrun Hno.
  rewrite (IH a1 a' Hrun) by (intros cutoff Hin; apply (Hno cutoff); by right).
  destruct e as [o p|cutoff|i]; [|exfalso; apply (Hno cutoff); by left|by injection E as <-].
  change (writes (LWrite o p :: es)) with (p :: writes es). change (texts (p :: writes es)) with (p +:+ texts (writes es)).
  transitivity ((specText a +:+ p) +:+ texts (writes es)); [f_equal|apply str_app_assoc]. cbn [spec_step] in E. unfold spec_write in E. destruct (dueAt c o p a).
  - destruct (later _ _); [|done]. injection E as <-. unfold specText. cbn.
    rewrite fmap_app, texts_app. cbn. change (texts [?x]) with (x +:+ ""). by rewrite str_app_nil_r.
  - injection E as <-. unfold specText. cbn. by rewrite str_app_assoc.
Qed.

Lemma spec_bounded c events : forall a a', goodConfig c -> spec_run c a events = Some a' ->
  str_len (lf_Data (current a)) < limit c -> str_len (lf_Data (current a')) < limit c \/ lf_Data (current a') ∈ writes events.
Proof.
  induction events as [|e es IH] using rev_ind; intros a a' Hc; [intros [= <-]; by left|].
  assert (Happ : spec_run c a (es ++ [e]) = a1 ← spec_run c a es; spec_step c a1 e).
  { clear. revert a. induction es as [|x es IH]; intros a; cbn; [by destruct (spec_step c a e)|].
    destruct (spec_step c a x); [apply IH|done]. }
  rewrite Happ. destruct (spec_run c a es) as [a1|] eqn:E; [|done]. cbn. intros Hs Hb.
  assert (Hw : writes (es ++ [e]) = writes es ++ writes [e]) by (unfold writes; apply omap_app). rewrite Hw, elem_of_app.
  destruct e as [o p|cutoff|i]; cbn in Hs.
  - unfold spec_write in Hs. destruct (dueAt c o p a1) eqn:Ed.
    + destruct (later _ _); [|done]. injection Hs as <-. right. right. by apply list_elem_of_singleton.
    + injection Hs as <-. left. cbn. apply orb_false_iff in Ed as [Ed _]. rewrite Z.geb_leb, Z.leb_gt in Ed. by rewrite str_len_app.
  - injection Hs as <-. cbn. destruct (IH a a1 Hc E Hb); [by left|right; by left].
  - injection Hs as <-. destruct (IH a a1 Hc E Hb); [by left|right; by left].
Qed.

(** C35: without compression, for a file name in which [Glob] reads no special
    character and which is clean, limits of 1 to 2^40 MB and a number of backups
    that is not negative; from a directory without the file and its backups,
    calls of the system that all succeed, writes below 2^62 bytes and at most one
    rotation a second: every write is written in full; the backups sort as their
    times and hold, with the file, exactly what the rotation at sizes and days and
    the cleaning by number and age should leave, and without cleaning everything
    that was written, in order; the file stays below its size but for a single
    write that is larger. *)
Theorem log_rotation_refines (c : RotationConfig) (o : Os) (fs : FileSystem) (events : list LogEvent) (a : Log)
    (Hc : goodConfig (withDefaults c)) (Ho : good o)
    (Hfs : forall name, name = Filename c \/ isBackup (Filename c) name = true -> fs !! name = None)
    (Hev : Forall goodEvent events)
    (Hrun : spec_run (withDefaults c) (mkLog [] (mkLogFile "" (o_opened o)) (t_day (o_opened o))) events = Some a) :
  exists st0 st, NewRotatingFileWriter o fs c = (st0, None) /\
    log_run st0 events = Some (st, (fun p => (str_len p, None)) <$> writes events) /\
    glob (Filename c) (files st) = (fun s => backupName (Filename c) (Format s.1)) <$> segments a /\
    logText st = specText a /\
    ((forall cutoff, LCleanup cutoff ∉ events) -> logText st = texts (writes events)) /\
    exists f, files st !! Filename c = Some f /\ (str_len (lf_Data f) < limit (withDefaults c) \/ lf_Data f ∈ writes events).
Proof.
  destruct (new_refines o fs c Ho Hfs) as (st0 & -> & HR0).
  destruct (log_run_refines _ events st0 _ a Hc HR0 Hev Hrun) as (st & Hr & HR). exists st0, st. split; [done|]. split; [done|].
  split; [transitivity (named (Filename c) <$> segments a).*1; [exact (glob_segments _ _ _ HR)|by rewrite <- list_fmap_compose]|].
  rewrite (logText_spec _ _ _ HR). split; [done|].
  split; [intros Hno; by rewrite (spec_keeps _ _ _ _ Hrun Hno)|]. exists (current a). split; [apply (R_current _ _ _ HR)|].
  eapply spec_bounded; [exact Hc|exact Hrun|]. destruct (sizeLimit_limit _ Hc). cbn. unfold str_len. cbn. lia.
Qed.

(** *** Two rotations in one second *)

Lemma rotate_overwrites o st : o_rename o = true ->
  let c := config (writer st) in
  is_Some (files st !! Filename c) ->
  rotate o st = rotate o (setFiles st (delete (backupName (Filename c) (Format (o_stamp o))) (files st))).
Proof.
  intros Hrn c [f Hf]. unfold rotate. fold c. cbn [setFiles files writer compressing setWriter]. fold c. rewrite Hrn, Hf.
  set (b := backupName _ _). rewrite lookup_delete_ne by (apply isBackup_ne, isBackup_Format). rewrite Hf.
  by rewrite (delete_delete _ (Filename c) b), insert_delete_eq.
Qed.

(** The second backup takes the name of the first, whose contents are lost, and the
    write succeeds. *)
Lemma same_second_loses c st a o p l f :
  R c st a -> goodConfig c -> good o -> str_len p < 2 ^ 62 -> dueAt c o p a = true -> segments a = l ++ [(o_stamp o, f)] ->
  exists st', Write o p st = (st', (str_len p, None)) /\
    logText st' = texts ((fun s => lf_Data s.2) <$> l) +:+ lf_Data (current a) +:+ p.
Proof.
  intros HR Hc Hg Hp Hd Hl. pose proof HR as [Hcf Ho Hf Hz Hday Hr Hv Hs Hb Hidle]. rewrite Hl in Hv, Hs.
  apply Forall_app in Hv as [Hv [Ht _]%Forall_cons]. apply StronglySorted_app in Hs as (Hlt & Hs & _).
  set (b := backupName (Filename c) (Format (o_stamp o))). set (st0 := setFiles st (delete b (files st))).
  assert (HR0 : R c st0 (mkLog l (current a) (logDay a))).
  { split; cbn [files setFiles writer st0 segments current logDay]; try done.
    - rewrite lookup_delete_ne; [done|]. apply isBackup_ne, isBackup_Format.
    - intros name g Hi. rewrite lookup_delete_Some, Hb, Hl, fmap_app, elem_of_app by done. cbn. rewrite list_elem_of_singleton.
      unfold named at 2. cbn. fold b. split; [intros [Hn [?|[= -> _]]]; [done|by destruct Hn]|]. intros Hin. split; [|by left].
      intros <-. apply list_elem_of_fmap in Hin as (s & Hn & Hin). injection Hn as Hn _. apply backup_inj in Hn.
      specialize (Hlt s (o_stamp o, f) Hin ltac:(by apply list_elem_of_singleton)). unfold inOrder in Hlt. cbn in Hlt.
      by rewrite Hn, str_ltb_irrefl in Hlt. }
  assert (Hw : Write o p st = Write o p st0).
  { unfold Write. change (writer st0) with (writer st). rewrite (due_spec c o p st a) by done. rewrite Hd.
    destruct Hg as (_ & _ & _ & _ & Hrn & _). rewrite (rotate_overwrites o st Hrn); rewrite Hcf; [done|by eexists]. }
  rewrite Hw. assert (Hlater : later (o_stamp o) l = true).
  { unfold later. destruct (last l) as [s|] eqn:E; [|done]. apply last_Some_elem_of in E.
    specialize (Hlt s (o_stamp o, f) E ltac:(by apply list_elem_of_singleton)). unfold inOrder, str_ltb, String.ltb in Hlt. cbn in Hlt.
    rewrite Forall_forall in Hv. rewrite Format_compare in Hlt by (done || by apply Hv). unfold Before. by destruct (Time_compare _ _). }
  destruct (Write_refines c o p st0 _ (mkLog (l ++ [(o_stamp o, current a)]) (mkLogFile p (o_written o)) (t_day (o_opened o)))
    HR0 Hc Hg Hp) as (st' & Hw' & HR'); [unfold spec_write; cbn; unfold dueAt in Hd; unfold dueAt; cbn; by rewrite Hd, Hlater|].
  exists st'. split; [done|]. rewrite (logText_spec _ _ _ HR'). unfold specText. cbn. rewrite fmap_app, texts_app. cbn.
  change (texts [?x]) with (x +:+ ""). by rewrite str_app_nil_r, str_app_assoc.
Qed.

(** *** A run *)

Definition on (d s : Z) : Os := let t := mkTime 2025 1 d 0 0 s in mkOs t t t t true true true true None.

Definition logConfig : RotationConfig := mkRotationConfig "logs/app.log" 0 0 1 false false.

Definition logEvents : list LogEvent :=
  [LWrite (on 1 0) "a"; LWrite (on 2 0) "b"; LWrite (on 2 1) "c"; LWrite (on 3 0) "d"; LCleanup (mkTime 2024 12 27 0 0 0)].

Lemma log_rotation_refines_witness :
  exists st0 st results, NewRotatingFileWriter (on 1 0) ∅ logConfig = (st0, None) /\ log_run st0 logEvents = Some (st, results) /\
    glob "logs/app.log" (files st) = ["logs/app.log.2025-01-03-00-00-00"%string] /\ logText st = "bcd"%string.
Proof.
  assert (Hgood : forall d s, 0 <= d < 100 -> 0 <= s < 100 -> good (on d s)).
  { intros d s Hd Hs. split; [|done]. unfold validTime. cbn. lia. }
  destruct (log_rotation_refines logConfig (on 1 0) ∅ logEvents
    (mkLog [(mkTime 2025 1 3 0 0 0, mkLogFile "bc" (mkTime 2025 1 2 0 0 1))] (mkLogFile "d" (mkTime 2025 1 3 0 0 0)) 3))
    as (st0 & st & H0 & Hr & Hg & Ht & _ & _).
  - split; [cbn; lia|]. split; [cbn; lia|]. split; reflexivity.
  - apply Hgood; lia.
  - intros name _. apply lookup_empty.
  - repeat constructor; apply Hgood || reflexivity; lia.
  - vm_compute. reflexivity.
  - exists st0, st, (map (fun p => (str_len p, None)) (writes logEvents)). split; [exact H0|]. split; [exact Hr|].
    split; [etransitivity; [exact Hg|vm_compute; reflexivity]|]. rewrite Ht. vm_compute. reflexivity.
Defined.
