(* ===== verification/Cluster.v ===== *)
(** * Members and maintenance ([api/etcd/cluster_manager.go], [cluster.go], [maintenance.go])

    [ClusterManager] keeps a list of members of its own beside Raft's and sends the
    changes to the node over a channel without waiting: [ready] says whether the
    node was there to receive one.  The IDs of new members are random and so
    arguments.  [MaintenanceServer] serves the members, alarms, snapshots and
    hashes of the store, of which it asks [Maint] beyond [Store]. *)

From stdpp Require Import pretty.
From S2P Require Import Prelude GoBytes KvTypes MemoryEtcd StoreApi EtcdApi LeaseServer RaftNode Reliability.

(** ** The cluster manager *)

Record MemberInfo := mkMember {
  mi_ID : Z; mi_Name : string; mi_PeerURLs : list string; mi_ClientURLs : list string; mi_IsLearner : bool; mi_IsWitness : bool;
}.

(** [confChangeC] is whether the channel is not nil; [sent] is what went into it. *)
Record ClusterManager := mkClusterManager { members : gmap Z MemberInfo; confChangeC : bool; sent : list ConfChange }.

Definition NewClusterManager (confChangeC : bool) : ClusterManager := mkClusterManager ∅ confChangeC [].

Definition setMembers (cm : ClusterManager) (ms : gmap Z MemberInfo) : ClusterManager :=
  mkClusterManager ms (confChangeC cm) (sent cm).

(** The [select] with a default; [None] is "confChange channel full". *)
Definition trySend (ready : bool) (cm : ClusterManager) (cc : ConfChange) : option ClusterManager :=
  if confChangeC cm then
    if ready then Some (mkClusterManager (members cm) true (sent cm ++ [cc])) else None
  else Some cm.

Inductive ClusterError := ChannelFull | MemberNotFound (id : Z) | AlreadyVoting (id : Z).

(** In no particular order. *)
Definition ListMembers (cm : ClusterManager) : list MemberInfo := (map_to_list (members cm)).*2.

Definition firstURL (peerURLs : list string) : string := match peerURLs with [] => "" | u :: _ => u end.

Definition AddMember (memberID : Z) (ready : bool) (cm : ClusterManager) (peerURLs : list string) (isLearner : bool) :
    ClusterManager * result ClusterError MemberInfo :=
  let member := mkMember memberID ("node-" +:+ pretty memberID) peerURLs [] isLearner false in
  let cc := mkConfChange 0 (if isLearner then ConfChangeAddLearnerNode else ConfChangeAddNode) memberID (firstURL peerURLs) in
  match trySend ready cm cc with
  | None => (cm, Err ChannelFull)
  | Some cm1 => (setMembers cm1 (<[memberID := member]> (members cm1)), Ok member)
  end.

Definition AddWitnessMember (memberID : Z) (ready : bool) (cm : ClusterManager) (peerURLs : list string) :
    ClusterManager * result ClusterError MemberInfo :=
  let member := mkMember memberID ("witness-" +:+ pretty memberID) peerURLs [] false true in
  match trySend ready cm (mkConfChange 0 ConfChangeAddNode memberID (firstURL peerURLs)) with
  | None => (cm, Err ChannelFull)
  | Some cm1 => (setMembers cm1 (<[memberID := member]> (members cm1)), Ok member)
  end.

Definition RemoveMember (ready : bool) (cm : ClusterManager) (id : Z) : ClusterManager * result ClusterError unit :=
  match members cm !! id with
  | None => (cm, Err (MemberNotFound id))
  | Some _ =>
      match trySend ready cm (mkConfChange 0 ConfChangeRemoveNode id "") with
      | None => (cm, Err ChannelFull)
      | Some cm1 => (setMembers cm1 (delete id (members cm1)), Ok tt)
      end
  end.

(** The URLs are set before the change is sent, and stay set if it is not. *)
Definition UpdateMember (ready : bool) (cm : ClusterManager) (id : Z) (peerURLs : list string) :
    ClusterManager * result ClusterError unit :=
  match members cm !! id with
  | None => (cm, Err (MemberNotFound id))
  | Some m =>
      let m' := mkMember (mi_ID m) (mi_Name m) peerURLs (mi_ClientURLs m) (mi_IsLearner m) (mi_IsWitness m) in
      let cm1 := setMembers cm (<[id := m']> (members cm)) in
      match trySend ready cm1 (mkConfChange 0 ConfChangeUpdateNode id (firstURL peerURLs)) with
      | None => (cm1, Err ChannelFull)
      | Some cm2 => (cm2, Ok tt)
      end
  end.

Definition asVoter (m : MemberInfo) : MemberInfo :=
  mkMember (mi_ID m) (mi_Name m) (mi_PeerURLs m) (mi_ClientURLs m) false (mi_IsWitness m).

Definition PromoteMember (ready : bool) (cm : ClusterManager) (id : Z) : ClusterManager * result ClusterError unit :=
  match members cm !! id with
  | None => (cm, Err (MemberNotFound id))
  | Some m =>
      if negb (mi_IsLearner m) then (cm, Err (AlreadyVoting id))
      else
        match trySend ready cm (mkConfChange 0 ConfChangeAddNode id "") with
        | None => (cm, Err ChannelFull)
        | Some cm1 => (setMembers cm1 (<[id := asVoter m]> (members cm1)), Ok tt)
        end
  end.

Definition ApplyConfChange (cm : ClusterManager) (cc : ConfChange) : ClusterManager :=
  let id := cc_NodeID cc in
  let added (isLearner : bool) := mkMember id ("node-" +:+ pretty id) [cc_Context cc] [] isLearner false in
  setMembers cm
    match cc_Type cc with
    | ConfChangeAddNode =>
        match members cm !! id with
        | Some m => <[id := asVoter m]> (members cm)
        | None => <[id := added false]> (members cm)
        end
    | ConfChangeAddLearnerNode => <[id := added true]> (members cm)
    | ConfChangeRemoveNode => delete id (members cm)
    | ConfChangeUpdateNode =>
        match members cm !! id with
        | Some m =>
            if str_len (cc_Context cc) >? 0
            then <[id := mkMember (mi_ID m) (mi_Name m) [cc_Context cc] (mi_ClientURLs m) (mi_IsLearner m) (mi_IsWitness m)]> (members cm)
            else members cm
        | None => members cm
        end
    end.

Definition GetMember (cm : ClusterManager) (id : Z) : result ClusterError MemberInfo :=
  match members cm !! id with Some m => Ok m | None => Err (MemberNotFound id) end.

Definition InitialMembers (cm : ClusterManager) (ms : list MemberInfo) : ClusterManager :=
  setMembers cm (fold_left (fun t m => <[mi_ID m := m]> t) ms (members cm)).

(** *** The list follows the changes that were sent *)

Inductive ClusterOp :=
  | OpAdd (memberID : Z) (ready : bool) (peerURLs : list string) (isLearner : bool)
  | OpAddWitness (memberID : Z) (ready : bool) (peerURLs : list string)
  | OpRemove (ready : bool) (id : Z)
  | OpUpdate (ready : bool) (id : Z) (peerURLs : list string)
  | OpPromote (ready : bool) (id : Z).

Definition clusterOp (cm : ClusterManager) (op : ClusterOp) : ClusterManager :=
  match op with
  | OpAdd id ready urls learner => (AddMember id ready cm urls learner).1
  | OpAddWitness id ready urls => (AddWitnessMember id ready cm urls).1
  | OpRemove ready id => (RemoveMember ready cm id).1
  | OpUpdate ready id urls => (UpdateMember ready cm id urls).1
  | OpPromote ready id => (PromoteMember ready cm id).1
  end.

(** Who is a member, and who of them a learner. *)
Definition roles (cm : ClusterManager) : gmap Z bool := mi_IsLearner <$> members cm.

(** What a configuration change does to them. *)
Definition changeRoles (r : gmap Z bool) (cc : ConfChange) : gmap Z bool :=
  match cc_Type cc with
  | ConfChangeAddNode => <[cc_NodeID cc := false]> r
  | ConfChangeAddLearnerNode => <[cc_NodeID cc := true]> r
  | ConfChangeRemoveNode => delete (cc_NodeID cc) r
  | ConfChangeUpdateNode => r
  end.

Lemma roles_ApplyConfChange cm cc : roles (ApplyConfChange cm cc) = changeRoles (roles cm) cc.
Proof.
  unfold roles, ApplyConfChange, changeRoles. destruct (cc_Type cc); cbn [members setMembers].
  - destruct (members cm !! cc_NodeID cc); by rewrite fmap_insert.
  - by rewrite fmap_delete.
  - destruct (members cm !! cc_NodeID cc) as [m|] eqn:E; [|done]. destruct (_ >? 0); [|done].
    rewrite fmap_insert. cbn. apply insert_id. by rewrite lookup_fmap, E.
  - by rewrite fmap_insert.
Qed.

Lemma roles_run ccs : forall cm, roles (fold_left ApplyConfChange ccs cm) = fold_left changeRoles ccs (roles cm).
Proof. induction ccs as [|cc ccs IH]; intros cm; [done|]. cbn. by rewrite IH, roles_ApplyConfChange. Qed.

Lemma clusterOp_roles cm op : confChangeC cm = true ->
  confChangeC (clusterOp cm op) = true /\
  exists ccs, sent (clusterOp cm op) = sent cm ++ ccs /\ roles (clusterOp cm op) = fold_left changeRoles ccs (roles cm).
Proof.
  intros Hc. assert (Hsame : exists ccs, sent cm = sent cm ++ ccs /\ roles cm = fold_left changeRoles ccs (roles cm))
    by (exists []; by rewrite app_nil_r).
  destruct op as [id ready urls learner|id ready urls|ready id|ready id urls|ready id]; cbn [clusterOp];
    unfold AddMember, AddWitnessMember, RemoveMember, UpdateMember, PromoteMember, trySend.
  - rewrite Hc. destruct ready; [|done]. split; [done|]. eexists. split; [done|]. cbn. unfold roles. cbn. rewrite fmap_insert.
    by destruct learner.
  - rewrite Hc. destruct ready; [|done]. split; [done|]. eexists. split; [done|]. unfold roles. cbn. by rewrite fmap_insert.
  - destruct (members cm !! id); [|done]. rewrite Hc. destruct ready; [|done]. split; [done|]. eexists. split; [done|].
    unfold roles. cbn. by rewrite fmap_delete.
  - destruct (members cm !! id) as [m|] eqn:E; [|done]. cbn [confChangeC setMembers]. rewrite Hc.
    assert (Hr : mi_IsLearner <$> <[id := mkMember (mi_ID m) (mi_Name m) urls (mi_ClientURLs m) (mi_IsLearner m) (mi_IsWitness m)]>
      (members cm) = roles cm).
    { rewrite fmap_insert. cbn. apply insert_id. unfold roles. by rewrite lookup_fmap, E. }
    destruct ready; (split; [done|]); [|by exists []; rewrite app_nil_r]. eexists. split; [done|]. unfold roles. cbn. done.
  - destruct (members cm !! id) as [m|]; [|done]. destruct (mi_IsLearner m); [|done]. cbn [negb]. rewrite Hc.
    destruct ready; [|done]. split; [done|]. eexists. split; [done|]. unfold roles. cbn. by rewrite fmap_insert.
Qed.

(** C36: with a channel to the node, a replica that applies the changes a manager has
    sent, in that order, to the members the manager began with has the same
    members and the same learners, whatever calls were made of the manager and
    whichever of them found the channel full. *)
Theorem members_follow_changes (cm replica : ClusterManager) (ops : list ClusterOp) (Hc : confChangeC cm = true)
    (Hr : roles replica = roles cm) :
  exists ccs, sent (fold_left clusterOp ops cm) = sent cm ++ ccs /\
    roles (fold_left ApplyConfChange ccs replica) = roles (fold_left clusterOp ops cm).
Proof.
  revert cm Hc Hr.
  assert (H : forall ops cm, confChangeC cm = true -> exists ccs, sent (fold_left clusterOp ops cm) = sent cm ++ ccs /\
    fold_left changeRoles ccs (roles cm) = roles (fold_left clusterOp ops cm)).
  { clear ops. induction ops as [|op ops IH]; intros cm Hc; [exists []; by rewrite app_nil_r|].
    destruct (clusterOp_roles cm op Hc) as (Hc' & ccs1 & Hs1 & Hr1). destruct (IH _ Hc') as (ccs2 & Hs2 & Hr2).
    exists (ccs1 ++ ccs2). cbn. split; [by rewrite Hs2, Hs1, app_assoc|]. by rewrite fold_left_app, <- Hr1. }
  intros cm Hc Hr. destruct (H ops cm Hc) as (ccs & Hs & Hro). exists ccs. split; [done|].
  rewrite roles_run. by rewrite Hr.
Qed.

(** *** What the list does not follow *)

Definition twoMembers : ClusterManager :=
  InitialMembers (NewClusterManager true) [mkMember 1 "node-1" ["u1"] [] false false; mkMember 2 "node-2" ["u2"] [] false false].

(** An update that is refused has taken place in the list. *)
Example refused_update :
  UpdateMember false twoMembers 1 ["new"] =
    (setMembers twoMembers (<[1 := mkMember 1 "node-1" ["new"] [] false false]> (members twoMembers)), Err ChannelFull).
Proof. reflexivity. Qed.

(** A replica knows a witness as an ordinary member. *)
Example witness_unknown_to_replicas :
  let '(cm, _) := AddWitnessMember 3 true twoMembers ["u3"] in
  (mi_IsWitness <$> members cm !! 3) = Some true /\
  (mi_IsWitness <$> members (fold_left ApplyConfChange (sent cm) twoMembers) !! 3) = Some false.
Proof. split; reflexivity. Qed.

(** ** The maintenance service *)

Class Maint (S : Type) := {
  mt_GetSnapshot : S -> result GoError string;
  mt_TransferLeadership : S -> Z -> result GoError unit;
}.

Record Member := mkPbMember {
  pm_ID : Z; pm_Name : string; pm_PeerURLs : list string; pm_ClientURLs : list string; pm_IsLearner : bool;
}.

Definition pbMember (m : MemberInfo) : Member := mkPbMember (mi_ID m) (mi_Name m) (mi_PeerURLs m) (mi_ClientURLs m) (mi_IsLearner m).

(** The member a peer URL of the command line stands for, the first being 1. *)
Definition peerMember (i : nat) (peerURL : string) : MemberInfo :=
  let memberID := Z.of_nat i + 1 in
  mkMember memberID ("node-" +:+ pretty memberID) [peerURL] ["http://127.0.0.1:" +:+ pretty (9120 + memberID)] false false.

(** [NewServer]: the manager when there is a channel. *)
Definition newClusterMgr (confChangeC : bool) (clusterPeers : list string) : option ClusterManager :=
  if confChangeC then Some (InitialMembers (NewClusterManager true) (imap peerMember clusterPeers)) else None.

Inductive AlarmAction := AlarmGet | AlarmActivate | AlarmDeactivate | AlarmOther (n : Z).
Record AlarmRequest := mkAlarmRequest { aq_Action : AlarmAction; aq_MemberID : Z; aq_Alarm : AlarmType }.
Record AlarmResponse := mkAlarmResponse { as_Header : ResponseHeader; as_Alarms : list AlarmMember }.

Record StatusResponse := mkStatusResponse {
  ss_Header : ResponseHeader; ss_Version : string; ss_DbSize : Z; ss_Leader : Z; ss_RaftIndex : Z; ss_RaftTerm : Z;
}.
Record HashKVResponse := mkHashKVResponse { hk_Header : ResponseHeader; hk_Hash : Z; hk_CompactRevision : Z }.
Record SnapshotResponse := mkSnapshotResponse { sr_Header : ResponseHeader; sr_RemainingBytes : Z; sr_Blob : string }.

Section maintenance.
Context {S : Type} `{!Store S, !Maint S}.
Variables (clusterID memberID : Z).

Abbreviation header := (getResponseHeader clusterID memberID).

Definition matches (req : AlarmRequest) (alarm : AlarmMember) : bool :=
  ((aq_MemberID req =? 0) || (al_MemberID alarm =? aq_MemberID req)) &&
  (bool_decide (aq_Alarm req = AlarmNone) || bool_decide (al_Alarm alarm = aq_Alarm req)).

Definition Alarm (s : S) (am : AlarmManager) (req : AlarmRequest) : AlarmManager * result Code AlarmResponse :=
  match aq_Action req with
  | AlarmGet =>
      let alarms := ListAlarms am in
      let alarms := if negb (aq_MemberID req =? 0) || negb (bool_decide (aq_Alarm req = AlarmNone))
                    then List.filter (matches req) alarms else alarms in
      (am, Ok (mkAlarmResponse (header s) alarms))
  | AlarmActivate =>
      let alarm := mkAlarm (aq_MemberID req) (aq_Alarm req) in
      (Activate am alarm, Ok (mkAlarmResponse (header s) [alarm]))
  | AlarmDeactivate => (Deactivate am (aq_MemberID req) (aq_Alarm req), Ok (mkAlarmResponse (header s) []))
  | AlarmOther _ => (am, Err (toGRPCError PlainError))
  end.

Definition Status_ (s : S) : StatusResponse :=
  let dbSize := match mt_GetSnapshot s with Ok snapshot => str_len snapshot | Err _ => 0 end in
  let raftStatus := st_GetRaftStatus s in
  mkStatusResponse (header s) "3.6.0-compatible" dbSize (rs_LeaderID raftStatus) (wrap_u64 (st_CurrentRevision s)) (rs_Term raftStatus).

Definition Defragment (s : S) : ResponseHeader := header s.

Definition Hash (s : S) : result Code (ResponseHeader * Z) :=
  match mt_GetSnapshot s with Err e => Err (toGRPCError e) | Ok snapshot => Ok (header s, ChecksumIEEE snapshot) end.

(** The keys and values go into one checksum, with nothing between them. *)
Definition hashRecords (kvs : list KeyValue) : Z :=
  Z.lxor (fold_left (fun c kv => crcUpdate (crcUpdate c (Key kv)) (Value kv)) kvs crcMask) crcMask.

Definition HashKV (s : S) (revision : Z) : result Code HashKVResponse :=
  match st_Range s "" ShardedMap.nulKey 0 revision with
  | Err e => Err (toGRPCError PlainError)
  | Ok resp => Ok (mkHashKVResponse (header s) (hashRecords (rr_Kvs resp)) (st_CurrentRevision s))
  end.

(** The loop that sends a snapshot from offset [i] on, until a [Send] fails: [ok]
    says for each whether it succeeds.  [None]: the fuel is used up. *)
Fixpoint sendChunks (fuel : nat) (s : S) (snapshot : string) (chunkSize i : Z) (ok : nat -> bool) (k : nat) :
    option (list SnapshotResponse * bool) :=
  match fuel with
  | O => None
  | Datatypes.S fuel' =>
      if i <? str_len snapshot then
        let end_ := if i + chunkSize >? str_len snapshot then str_len snapshot else i + chunkSize in
        let resp := mkSnapshotResponse (header s) (str_len snapshot - end_)
                      (str_take (Z.to_nat (end_ - i)) (str_drop (Z.to_nat i) snapshot)) in
        if ok k then
          match sendChunks fuel' s snapshot chunkSize (i + chunkSize) ok (k + 1) with
          | Some (resps, r) => Some (resp :: resps, r)
          | None => None
          end
        else Some ([resp], false)
      else Some ([], true)
  end.

Definition Snapshot_ (fuel : nat) (s : S) (snapshotChunkSize : Z) (ok : nat -> bool) :
    option (result Code (list SnapshotResponse * bool)) :=
  match mt_GetSnapshot s with
  | Err e => Some (Err (toGRPCError e))
  | Ok snapshot => Ok <$> sendChunks fuel s snapshot snapshotChunkSize 0 ok 0
  end.

Definition MoveLeader (s : S) (targetID : Z) : result Code ResponseHeader :=
  if negb (rs_LeaderID (st_GetRaftStatus s) =? memberID) then Err (toGRPCError PlainError)
  else if targetID =? 0 then Err (toGRPCError PlainError)
  else match mt_TransferLeadership s targetID with Err e => Err (toGRPCError e) | Ok _ => Ok (header s) end.

Definition Downgrade : Code := toGRPCError PlainError.

(** *** Members *)

Definition MemberList (s : S) (mgr : option ClusterManager) (clusterPeers : list string) : ResponseHeader * list Member :=
  (header s,
   match mgr with
   | None =>
       match clusterPeers with
       | [] => [mkPbMember memberID ("node-" +:+ pretty memberID) ["http://127.0.0.1:902" +:+ pretty memberID]
                  ["http://127.0.0.1:912" +:+ pretty memberID] false]
       | _ => pbMember <$> imap peerMember clusterPeers
       end
   | Some cm => pbMember <$> ListMembers cm
   end).

(** [None] for the manager is answered with an error. *)
Definition withManager {A} (mgr : option ClusterManager) (f : ClusterManager -> ClusterManager * result Code A) :
    option ClusterManager * result Code A :=
  match mgr with
  | None => (None, Err (toGRPCError PlainError))
  | Some cm => let '(cm', r) := f cm in (Some cm', r)
  end.

Definition answered {A B} (s : S) (r : result ClusterError A) (f : A -> B) : result Code (ResponseHeader * B) :=
  match r with Err _ => Err (toGRPCError PlainError) | Ok a => Ok (header s, f a) end.

Definition MemberAdd (newID : Z) (ready : bool) (s : S) (mgr : option ClusterManager) (peerURLs : list string) (isLearner : bool) :
    option ClusterManager * result Code (ResponseHeader * Member) :=
  withManager mgr (fun cm => let '(cm', r) := AddMember newID ready cm peerURLs isLearner in (cm', answered s r pbMember)).

(** The number of members is looked at first, under a lock of its own. *)
Definition MemberRemove_check (cm : ClusterManager) : bool := Z.of_nat (length (ListMembers cm)) <=? 1.

Definition MemberRemove (ready : bool) (s : S) (mgr : option ClusterManager) (id : Z) :
    option ClusterManager * result Code (ResponseHeader * unit) :=
  withManager mgr (fun cm =>
    if MemberRemove_check cm then (cm, Err (toGRPCError PlainError))
    else let '(cm', r) := RemoveMember ready cm id in (cm', answered s r (fun _ => tt))).

Definition MemberUpdate (ready : bool) (s : S) (mgr : option ClusterManager) (id : Z) (peerURLs : list string) :
    option ClusterManager * result Code (ResponseHeader * unit) :=
  withManager mgr (fun cm => let '(cm', r) := UpdateMember ready cm id peerURLs in (cm', answered s r (fun _ => tt))).

Definition MemberPromote (ready : bool) (s : S) (mgr : option ClusterManager) (id : Z) :
    option ClusterManager * result Code (ResponseHeader * unit) :=
  withManager mgr (fun cm => let '(cm', r) := PromoteMember ready cm id in (cm', answered s r (fun _ => tt))).

End maintenance.

(** *** Snapshots are sent whole *)

Section snapshots.
Context {S : Type} `{!Store S, !Maint S}.
Variables (clusterID memberID : Z).

Abbreviation sendChunks := (sendChunks clusterID memberID).

Definition blobs (resps : list SnapshotResponse) : string := foldr (fun r s => sr_Blob r +:+ s) "" resps.

(** Each response has some bytes, at most a chunk, and says how many are left. *)
Fixpoint chunked (chunkSize : Z) (resps : list SnapshotResponse) : Prop :=
  match resps with
  | [] => True
  | r :: resps' => 0 < str_len (sr_Blob r) <= chunkSize /\ sr_RemainingBytes r = str_len (blobs resps') /\ chunked chunkSize resps'
  end.

Lemma str_drop_end n s : (String.length s <= n)%nat -> str_drop n s = "".
Proof. intros Hn. pose proof (str_drop_length n s) as Hl. destruct (str_drop n s); [done|]. cbn in Hl. lia. Qed.

Lemma sendChunks_spec fuel (s : S) snapshot chunkSize : forall i k,
  0 < chunkSize -> 0 <= i -> str_len snapshot - i < Z.of_nat fuel -> (0 < fuel)%nat ->
  exists resps, sendChunks fuel s snapshot chunkSize i (fun _ => true) k = Some (resps, true) /\
    blobs resps = str_drop (Z.to_nat i) snapshot /\ chunked chunkSize resps.
Proof.
  induction fuel as [|fuel IH]; intros i k Hc Hi Hf H0; [lia|]. cbn [Cluster.sendChunks].
  destruct (Z.ltb_spec i (str_len snapshot)) as [Hlt|Hge].
  2:{ exists []. split; [done|]. split; [|done]. symmetry. apply str_drop_end. unfold str_len in *. lia. }
  set (e := if _ >? _ then _ else _).
  assert (He : i < e <= str_len snapshot /\ e <= i + chunkSize /\ (e = i + chunkSize \/ e = str_len snapshot /\ e <= i + chunkSize)).
  { subst e. destruct (Z.gtb_spec (i + chunkSize) (str_len snapshot)); lia. }
  clearbody e. destruct (IH (i + chunkSize) (k + 1)%nat) as (resps & -> & Hb & Hch); [lia..|].
  eexists. split; [done|]. cbn [blobs foldr sr_Blob chunked]. fold (blobs resps).
  assert (Hrest : blobs resps = str_drop (Z.to_nat (e - i)) (str_drop (Z.to_nat i) snapshot)).
  { rewrite Hb, str_drop_drop. destruct He as (? & ? & [->|[-> ?]]); [f_equal; lia|].
    rewrite !str_drop_end; [done|unfold str_len in *; lia..]. }
  assert (Hlen : String.length (str_drop (Z.to_nat i) snapshot) = (String.length snapshot - Z.to_nat i)%nat) by apply str_drop_length.
  assert (Htake : str_len (str_take (Z.to_nat (e - i)) (str_drop (Z.to_nat i) snapshot)) = e - i).
  { unfold str_len. rewrite str_take_length by (unfold str_len in *; lia). lia. }
  split; [rewrite Hrest; apply str_take_drop|]. split; [lia|]. split; [|done].
  rewrite Hrest. unfold str_len in *. rewrite str_drop_length, Hlen. cbn [sr_RemainingBytes]. lia.
Qed.

(** C28: a snapshot is sent in full and ends: with a positive chunk size the loop
    returns, the blobs put together are the snapshot, none is empty or longer than
    a chunk, and each response says how many bytes are still to come.  With a chunk
    size of 0 the loop never ends. *)
Theorem snapshot_sent_whole (s : S) (snapshot : string) (chunkSize : Z) (Hs : mt_GetSnapshot s = Ok snapshot) :
  (0 < chunkSize -> exists resps,
    Snapshot_ clusterID memberID (Datatypes.S (String.length snapshot)) s chunkSize (fun _ => true) = Some (Ok (resps, true)) /\
    blobs resps = snapshot /\ chunked chunkSize resps) /\
  (chunkSize = 0 -> snapshot <> "" -> forall fuel, Snapshot_ clusterID memberID fuel s chunkSize (fun _ => true) = None).
Proof.
  unfold Snapshot_. rewrite Hs. split.
  - intros Hc. destruct (sendChunks_spec (Datatypes.S (String.length snapshot)) s snapshot chunkSize 0 0) as (resps & -> & Hb & Hch);
      [done|lia|unfold str_len; lia|lia|]. exists resps. split; [done|]. by split.
  - intros -> Hne fuel. assert (Hpos : 0 < str_len snapshot) by (destruct snapshot; [done|unfold str_len; cbn; lia]).
    assert (H : forall k, sendChunks fuel s snapshot 0 0 (fun _ => true) k = None); [|by rewrite H].
    induction fuel as [|fuel IH]; intros k; [done|]. cbn [Cluster.sendChunks].
    destruct (Z.ltb_spec 0 (str_len snapshot)); [|lia]. change (0 + 0) with 0. by rewrite IH.
Qed.

End snapshots.

(** *** Members of the command line *)

Lemma initial_members ms : forall t : gmap Z MemberInfo,
  NoDup (mi_ID <$> ms) -> (forall m, m ∈ ms -> t !! mi_ID m = None) ->
  (map_to_list (fold_left (fun t m => <[mi_ID m := m]> t) ms t)).*2 ≡ₚ (map_to_list t).*2 ++ ms.
Proof.
  induction ms as [|m ms IH]; intros t Hnd Ht; [by rewrite app_nil_r|]. cbn [fold_left].
  apply NoDup_cons in Hnd as [Hm Hnd]. rewrite IH; [|done|].
  - rewrite map_to_list_insert by (apply Ht; set_solver). cbn. apply Permutation_middle.
  - intros m' Hm'. rewrite lookup_insert_ne; [apply Ht; set_solver|]. intros He. apply Hm. rewrite He.
    apply list_elem_of_fmap. by exists m'.
Qed.

Lemma imap_peer_ids peers : forall n, NoDup (mi_ID <$> imap (fun i => peerMember (n + i)) peers) /\
  forall m, m ∈ imap (fun i => peerMember (n + i)) peers -> Z.of_nat n < mi_ID m.
Proof.
  induction peers as [|p peers IH]; intros n; [split; [constructor|by intros m ?%elem_of_nil]|].
  cbn [imap]. assert (Heq : imap ((fun i => peerMember (n + i)) ∘ Datatypes.S) peers = imap (fun i => peerMember (Datatypes.S n + i)) peers).
  { apply imap_ext. intros i x _. cbn. f_equal. lia. }
  rewrite Heq. destruct (IH (Datatypes.S n)) as [Hnd Hlt]. split.
  - cbn. constructor; [|done]. intros (m & Hm & Hin)%list_elem_of_fmap. apply Hlt in Hin. lia.
  - intros m [->|Hin]%elem_of_cons; [cbn; lia|]. apply Hlt in Hin. lia.
Qed.

(** The list is the same with and without a channel for changes, up to its order. *)
Lemma members_of_command_line {S : Type} `{!Store S} clusterID memberID (s : S) (peers : list string) : peers <> [] ->
  (MemberList clusterID memberID s (newClusterMgr true peers) peers).2 ≡ₚ
  (MemberList clusterID memberID s (newClusterMgr false peers) peers).2.
Proof.
  intros Hp. cbn [MemberList newClusterMgr snd]. destruct peers as [|p peers]; [done|]. apply fmap_Permutation.
  unfold ListMembers, InitialMembers. cbn [members setMembers NewClusterManager].
  destruct (imap_peer_ids (p :: peers) 0) as [Hnd _]. apply initial_members; [exact Hnd|]. by intros.
Qed.

(** *** What goes wrong *)

(** Two removals at the same time both find two members. *)
Example last_members_removed :
  MemberRemove_check twoMembers = false /\
  members (RemoveMember true (RemoveMember true twoMembers 1).1 2).1 = ∅.
Proof. split; reflexivity. Qed.

(** Stores with other contents have the same hash. *)
Example hash_collision :
  hashRecords [mkKeyValue "a" "bc" 1 1 1 0] = hashRecords [mkKeyValue "ab" "c" 1 1 1 0].
Proof. vm_compute. reflexivity. Qed.

#[local] Instance demo_maint : Maint (MemoryEtcd ShardedMap.ShardedMap) := {
  mt_GetSnapshot m := Ok (GetSnapshot m);
  mt_TransferLeadership m id := Err PlainError;
}.

Definition snapshotStore : MemoryEtcd ShardedMap.ShardedMap := (PutWithLease 0 NewMemoryEtcd "key" "value" 0).1.

Lemma snapshot_sent_whole_witness :
  exists resps, Snapshot_ 1 1 11 snapshotStore 4 (fun _ => true) = Some (Ok (resps, true)) /\ blobs resps = GetSnapshot snapshotStore /\
    length resps = 3%nat.
Proof.
  assert (Hs : mt_GetSnapshot snapshotStore = Ok (GetSnapshot snapshotStore)) by reflexivity.
  assert (Hl : Datatypes.S (String.length (GetSnapshot snapshotStore)) = 11%nat) by (vm_compute; reflexivity).
  destruct (snapshot_sent_whole 1 1 snapshotStore (GetSnapshot snapshotStore) 4 Hs) as [H _].
  destruct (H ltac:(lia)) as (resps & Hr & Hb & _). rewrite Hl in Hr. exists resps. split; [exact Hr|]. split; [exact Hb|].
  assert (He : (fun r => match r with Some (Ok (l, _)) => length l | _ => O end)
    (Snapshot_ 1 1 11 snapshotStore 4 (fun _ => true)) = 3%nat) by (vm_compute; reflexivity).
  rewrite Hr in He. exact He.
Defined.

Lemma members_follow_changes_witness :
  exists ccs, roles (fold_left ApplyConfChange ccs twoMembers) = {[1 := false; 2 := false; 3 := false]}.
Proof.
  destruct (members_follow_changes twoMembers twoMembers [OpAdd 3 true ["u3"] true; OpPromote true 3; OpRemove false 2] eq_refl eq_refl)
    as (ccs & _ & H). exists ccs. rewrite H. vm_compute. reflexivity.
Defined.
