(* ===== verification/HttpServer.v ===== *)
(** * The HTTP front end ([api/http/server.go], [internal/http/api.go])

    A request has a method, a URI and a body ([None] when it cannot be read).  A
    [POST] or [DELETE] of a URI that [strconv.ParseUint] takes as a number is about
    a Raft node and sends a configuration change; the other requests are about the
    key that the URI spells.  Sending waits until the node receives the change. *)

From S2P Require Import Prelude GoBytes KvTypes ShardedMap MemoryEtcd EtcdFacts EtcdOps StoreApi RaftNode.

(** ** [strconv.ParseUint(s, 0, 64)] *)

(** [c | ('x' - 'X')] *)
Definition lower (c : ascii) : Z := Z.lor (byte_val c) 32.
Definition isDigit (c : ascii) : bool := (48 <=? byte_val c) && (byte_val c <=? 57).
Definition isByte (z : Z) (c : ascii) : bool := byte_val c =? z.

(** The last byte seen: a digit, an underscore, another, or none. *)
Inductive Seen := SawDigit | SawUnderscore | SawOther | SawNone.

Fixpoint underscoreLoop (hex : bool) (i : Seen) (s : string) : bool :=
  match s with
  | EmptyString => match i with SawUnderscore => false | _ => true end
  | String c s' =>
      if isDigit c || (hex && (97 <=? lower c) && (lower c <=? 102)) then underscoreLoop hex SawDigit s'
      else if isByte 95 c then match i with SawDigit => underscoreLoop hex SawUnderscore s' | _ => false end
      else match i with SawUnderscore => false | _ => underscoreLoop hex SawOther s' end
  end.

Definition underscoreOK (s : string) : bool :=
  let s := match s with String c s' => if isByte 45 c || isByte 43 c then s' else s | _ => s end in
  match s with
  | String c (String d s') =>
      if isByte 48 c && ((lower d =? 98) || (lower d =? 111) || (lower d =? 120)) then underscoreLoop (lower d =? 120) SawDigit s'
      else underscoreLoop false SawNone s
  | _ => underscoreLoop false SawNone s
  end.

(** The digits of [s] in [base] after the number [n]; [None] for an error. *)
Fixpoint parseDigits (base n : Z) (s : string) : option Z :=
  match s with
  | EmptyString => Some n
  | String c s' =>
      if isByte 95 c then parseDigits base n s'
      else
        let d := if isDigit c then Some (byte_val c - 48)
                 else if (97 <=? lower c) && (lower c <=? 122) then Some (lower c - 97 + 10) else None in
        match d with
        | None => None
        | Some d =>
            if d >=? base then None
            else if n >=? (2 ^ 64 - 1) / base + 1 then None
            else if n * base + d >? 2 ^ 64 - 1 then None
            else parseDigits base (n * base + d) s'
        end
  end.

Definition basePrefix (s : string) : Z * string :=
  match s with
  | String c s' =>
      if isByte 48 c then
        match s' with
        | String d (String e s'') =>
            if lower d =? 98 then (2, String e s'')
            else if lower d =? 111 then (8, String e s'')
            else if lower d =? 120 then (16, String e s'')
            else (8, s')
        | _ => (8, s')
        end
      else (10, s)
  | _ => (10, s)
  end.

Definition contains_underscore (s : string) : bool := existsb (isByte 95) (String.list_ascii_of_string s).

Definition ParseUint (s : string) : option Z :=
  if String.eqb s "" then None
  else
    let '(base, digits) := basePrefix s in
    match parseDigits base 0 digits with
    | Some n => if contains_underscore digits && negb (underscoreOK s) then None else Some n
    | None => None
    end.

(** ** Requests *)

Inductive Method := MethodPut | MethodGet | MethodPost | MethodDelete | MethodOther (name : string).
Record HttpRequest := mkHttpRequest { rq_Method : Method; rq_RequestURI : string; rq_Body : option string }.
Record HttpResponse := mkHttpResponse { rp_Code : Z; rp_Body : string; rp_Allow : list string }.

Definition StatusOK : Z := 200.
Definition StatusNoContent : Z := 204.
Definition StatusBadRequest : Z := 400.
Definition StatusNotFound : Z := 404.
Definition StatusMethodNotAllowed : Z := 405.
Definition StatusInternalServerError : Z := 500.

Definition newline : string := String (Ascii.ascii_of_nat 10) "".

(** [http.Error] ends its text with a newline. *)
Definition httpError (text : string) (code : Z) : HttpResponse := mkHttpResponse code (text +:+ newline) [].
Definition noContent : HttpResponse := mkHttpResponse StatusNoContent "" [].
Definition notAllowed : HttpResponse :=
  mkHttpResponse StatusMethodNotAllowed ("Method not allowed" +:+ newline) ["PUT"; "GET"; "POST"; "DELETE"].

(** [strings.TrimPrefix(uri, "/")] *)
Definition trimSlash (uri : string) : string := match uri with String c s => if isByte 47 c then s else uri | _ => uri end.

(** What the front end asks of a store beyond [Store]. *)
Class HttpStore (S : Type) := {
  hs_Lookup : S -> string -> option string;
  hs_Propose : Z -> S -> string -> string -> S;
}.

Section server.
Context {S : Type} `{!Store S, !HttpStore S}.
Variable now : Z.

(** A handler answers with the store, the changes it sends to the node, and a response. *)
Definition Answer : Type := S * list ConfChange * HttpResponse.

Definition handlePut (s : S) (body : option string) (key : string) : Answer :=
  match body with
  | None => (s, [], httpError "Failed on PUT" StatusBadRequest)
  | Some v =>
      match st_PutWithLease now s key v 0 with
      | (s', Err _) => (s', [], httpError "Failed on PUT" StatusInternalServerError)
      | (s', Ok _) => (s', [], noContent)
      end
  end.

Definition handleGet (s : S) (key : string) : Answer :=
  match hs_Lookup s key with
  | Some v => (s, [], mkHttpResponse StatusOK v [])
  | None => (s, [], httpError "Failed to GET" StatusNotFound)
  end.

Definition handleClusterAdd (s : S) (body : option string) (key : string) : Answer :=
  match body with
  | None => (s, [], httpError "Failed on POST" StatusBadRequest)
  | Some url =>
      match ParseUint key with
      | None => (s, [], httpError "Failed on POST" StatusBadRequest)
      | Some nodeID => (s, [mkConfChange 0 ConfChangeAddNode nodeID url], noContent)
      end
  end.

Definition handleClusterDelete (s : S) (key : string) : Answer :=
  match ParseUint key with
  | None => (s, [], httpError "Failed on DELETE" StatusBadRequest)
  | Some nodeID => (s, [mkConfChange 0 ConfChangeRemoveNode nodeID ""], noContent)
  end.

Definition handleKeyDelete (s : S) (key : string) : Answer :=
  match st_DeleteRange s key "" with
  | (s', Err _) => (s', [], httpError "Failed on DELETE" StatusInternalServerError)
  | (s', Ok _) => (s', [], noContent)
  end.

Definition ServeHTTP (s : S) (r : HttpRequest) : Answer :=
  let key := trimSlash (rq_RequestURI r) in
  let isClusterOp := match rq_Method r with
                     | MethodPost | MethodDelete => match ParseUint key with Some _ => true | None => false end
                     | _ => false
                     end in
  match rq_Method r with
  | MethodPut => handlePut s (rq_Body r) key
  | MethodGet => handleGet s key
  | MethodPost =>
      if isClusterOp then handleClusterAdd s (rq_Body r) key
      else (s, [], httpError "POST requires numeric node ID" StatusBadRequest)
  | MethodDelete => if isClusterOp then handleClusterDelete s key else handleKeyDelete s key
  | MethodOther _ => (s, [], notAllowed)
  end.

(** The older handler ([internal/http/api.go]): keys keep their slash, a [PUT] does
    not wait, and a [DELETE] is about nodes only.  [None] is a panic: [key[1:]] of an
    empty URI. *)
Definition httpKVAPI_ServeHTTP (s : S) (r : HttpRequest) : option Answer :=
  let key := rq_RequestURI r in
  let nodeID := match key with EmptyString => None | String _ rest => Some (ParseUint rest) end in
  match rq_Method r with
  | MethodPut =>
      Some match rq_Body r with
           | None => (s, [], httpError "Failed on PUT" StatusBadRequest)
           | Some v => (hs_Propose now s key v, [], noContent)
           end
  | MethodGet => Some (handleGet s key)
  | MethodPost =>
      match rq_Body r with
      | None => Some (s, [], httpError "Failed on POST" StatusBadRequest)
      | Some url =>
          match nodeID with
          | None => None
          | Some None => Some (s, [], httpError "Failed on POST" StatusBadRequest)
          | Some (Some id) => Some (s, [mkConfChange 0 ConfChangeAddNode id url], noContent)
          end
      end
  | MethodDelete =>
      match nodeID with
      | None => None
      | Some None => Some (s, [], httpError "Failed on DELETE" StatusBadRequest)
      | Some (Some id) => Some (s, [mkConfChange 0 ConfChangeRemoveNode id ""], noContent)
      end
  | MethodOther _ => Some (s, [], notAllowed)
  end.

End server.

(** ** Keys and numbers *)

Class HttpStoreLaws (S : Type) `{!Store S, !StoreLaws S, !HttpStore S} := {
  hs_Lookup_spec n s key : st_ready n s -> hs_Lookup s key = valuesOf (st_contents s) !! key;
}.

Definition put (key value : string) : HttpRequest := mkHttpRequest MethodPut (String "/" key) (Some value).
Definition get (key : string) : HttpRequest := mkHttpRequest MethodGet (String "/" key) None.
Definition del (key : string) : HttpRequest := mkHttpRequest MethodDelete (String "/" key) None.

Lemma trimSlash_key key : trimSlash (String "/" key) = key.
Proof. reflexivity. Qed.

Section keys.
Context {S : Type} `{!Store S, !StoreLaws S, !HttpStore S, !HttpStoreLaws S}.
Variable now : Z.

(** A key of the store, as [GET] shows it. *)
Definition shown (v : option string) : HttpResponse :=
  match v with Some v => mkHttpResponse StatusOK v [] | None => httpError "Failed to GET" StatusNotFound end.

Lemma http_get_spec n s key : st_ready n s -> ServeHTTP now s (get key) = (s, [], shown (valuesOf (st_contents s) !! key)).
Proof.
  intros Hs. unfold ServeHTTP, get. cbn [rq_Method rq_RequestURI]. rewrite trimSlash_key. unfold handleGet.
  rewrite (hs_Lookup_spec n) by done. by destruct (valuesOf _ !! key).
Qed.

Lemma http_put_spec n s key value : st_ready (Datatypes.S n) s -> exists s', ServeHTTP now s (put key value) = (s', [], noContent) /\
  st_ready n s' /\ valuesOf (st_contents s') = <[key := value]> (valuesOf (st_contents s)).
Proof.
  intros Hs. destruct (st_Put_spec now n s key value Hs) as (s' & r & E & Hr & Hv). exists s'. split; [|done].
  unfold ServeHTTP, put. cbn [rq_Method rq_RequestURI rq_Body]. rewrite trimSlash_key. unfold handlePut. by rewrite E.
Qed.

Lemma http_del_spec (s : S) key :
  ServeHTTP now s (del key) =
    match ParseUint key with
    | Some id => (s, [mkConfChange 0 ConfChangeRemoveNode id ""], noContent)
    | None => handleKeyDelete s key
    end.
Proof.
  unfold ServeHTTP, del. cbn [rq_Method rq_RequestURI]. rewrite trimSlash_key. unfold handleClusterDelete.
  by destruct (ParseUint key).
Qed.

(** C31: [GET] answers what the last [PUT] of the key stored, also under keys that
    are numbers; [DELETE] takes a key away and leaves the others alone, but only if
    the key is not a number: then the record stays, and the node of that number is
    proposed to be removed from the cluster. *)
Theorem http_keys_and_numbers n (s : S) (key value : string) (Hs : st_ready (Datatypes.S (Datatypes.S n)) s) :
  exists s1, ServeHTTP now s (put key value) = (s1, [], noContent) /\
    ServeHTTP now s1 (get key) = (s1, [], mkHttpResponse StatusOK value []) /\
    (forall key', key' <> key -> (ServeHTTP now s1 (get key')).2 = (ServeHTTP now s (get key')).2) /\
    match ParseUint key with
    | None => exists s2, ServeHTTP now s1 (del key) = (s2, [], noContent) /\
        (ServeHTTP now s2 (get key)).2 = httpError "Failed to GET" StatusNotFound /\
        forall key', key' <> key -> (ServeHTTP now s2 (get key')).2 = (ServeHTTP now s1 (get key')).2
    | Some id => ServeHTTP now s1 (del key) = (s1, [mkConfChange 0 ConfChangeRemoveNode id ""], noContent)
    end.
Proof.
  destruct (http_put_spec _ s key value Hs) as (s1 & E1 & Hr1 & Hv1). exists s1. split; [done|].
  split; [rewrite (http_get_spec _ _ _ Hr1), Hv1, lookup_insert_eq; done|].
  split; [intros key' Hne; rewrite (http_get_spec _ _ _ Hr1), (http_get_spec _ _ _ Hs), Hv1, lookup_insert_ne by done; done|].
  rewrite http_del_spec. destruct (ParseUint key) as [id|]; [done|].
  destruct (st_DeleteRange_spec n s1 key "" Hr1) as (s2 & r & E2 & Hr2 & Hc2). exists s2.
  unfold handleKeyDelete. rewrite E2. split; [done|].
  assert (Hout : valuesOf (st_contents s2) = delete key (valuesOf (st_contents s1))) by (rewrite Hc2; apply valuesOf_outside).
  split; [rewrite (http_get_spec _ _ _ Hr2), Hout, lookup_delete_eq; done|].
  intros key' Hne. rewrite (http_get_spec _ _ _ Hr2), (http_get_spec _ _ _ Hr1), Hout, lookup_delete_ne by done. done.
Qed.

End keys.

Section memory.
Context {M : Type} `{!KvMap M, !KvMapLaws M, !MapOrder}.

#[global] Instance memory_http : HttpStore (MemoryEtcd M) := {
  hs_Lookup m key := match MemoryEtcd.Lookup m key with (v, true) => Some v | _ => None end;
  hs_Propose := MemoryEtcd.Propose;
}.

#[global, refine] Instance memory_http_laws : HttpStoreLaws (MemoryEtcd M) := {}.
Proof.
  intros n m key [Hwf _]. cbn. unfold MemoryEtcd.Lookup, valuesOf. rewrite (Get_contents _ _ (wd_map _ _ (we_data _ Hwf))), lookup_fmap.
  by destruct (contents (kvData m) !! key).
Defined.

End memory.

Definition httpStore : MemoryEtcd ShardedMap := NewMemoryEtcd.

Lemma httpStore_ready : st_ready 2 httpStore.
Proof. split; [apply (wf_NewMemoryEtcd (M := ShardedMap))|done]. Qed.

Lemma http_keys_and_numbers_witness :
  exists s1, ServeHTTP 0 httpStore (put "42" "v") = (s1, [], noContent) /\
    ServeHTTP 0 s1 (get "42") = (s1, [], mkHttpResponse StatusOK "v" []) /\
    ServeHTTP 0 s1 (del "42") = (s1, [mkConfChange 0 ConfChangeRemoveNode 42 ""], noContent).
Proof.
  destruct (http_keys_and_numbers 0 0 httpStore "42" "v" httpStore_ready) as (s1 & H1 & H2 & _ & H3).
  exists s1. split; [exact H1|]. split; [exact H2|]. exact H3.
Defined.

(** Prefixes, underscores, and the largest number. *)
Example ParseUint_values :
  ParseUint <$> ["0"; "42"; "0x1F"; "0b101"; "017"; "1_000"; "18446744073709551615"]%string =
    [Some 0; Some 42; Some 31; Some 5; Some 15; Some 1000; Some (2 ^ 64 - 1)] /\
  ParseUint <$> [""; "key"; "-1"; "09"; "1__0"; "_1"; "18446744073709551616"; "0x"]%string = replicate 8 None.
Proof. vm_compute. by split. Qed.

(** The two front ends do not mean the same key by a URI. *)
Example front_ends_differ :
  let s := (hs_Propose 0 httpStore "/k" "v") in
  ServeHTTP 0 s (get "k") = (s, [], httpError "Failed to GET" StatusNotFound) /\
  httpKVAPI_ServeHTTP 0 s (get "k") = Some (s, [], mkHttpResponse StatusOK "v" []).
Proof. vm_compute. by split. Qed.
