(* ===== verification/Concurrency.v ===== *)
(** * Locks, elections and sessions ([pkg/concurrency])

    What a process does with an etcd client: a key per session under a common
    prefix, ordered by creation.  The calls of the client are the class
    [EtcdServer]; each is one step, and what happens between two of them is not
    known.  [advance] runs one session's calls of a mutex step by step. *)

From Stdlib Require Import Numbers.HexadecimalString Numbers.HexadecimalZ.
From S2P Require Import Prelude GoBytes KvTypes RaftCodec EtcdApi.

(** ** The client *)

(** [client.Get] with [WithFirstCreate] (which includes [WithPrefix]) or without
    options; 0 is no [WithMaxCreateRev]. *)
Record GetOp := mkGetOp { g_Key : string; g_FirstCreate : bool; g_MaxCreateRev : Z }.

Class EtcdServer (S : Type) := {
  es_Txn : S -> TxnRequest -> S * result Code TxnReply;
  es_Get : S -> GetOp -> result Code RangeReply;
  es_Delete : S -> string -> S * result Code unit;
}.

(** [clientv3.NewLease] *)
Class LeaseClient (S : Type) := {
  lc_Grant : S -> Z -> S * result Code Z;
  lc_TimeToLive : S -> Z -> result Code Z;
  lc_Revoke : S -> Z -> S * result Code unit;
}.

(** ["%x"] of an [int64] *)
Definition fmtHex (z : Z) : string := NilZero.string_of_int (Z.to_hex_int z).

Lemma fmtHex_inj a b : fmtHex a = fmtHex b -> a = b.
Proof.
  unfold fmtHex. intros Hs. apply HexadecimalZ.to_int_inj.
  assert (Hn : forall z, Z.to_hex_int z <> Hexadecimal.Pos Hexadecimal.Nil /\ Z.to_hex_int z <> Hexadecimal.Neg Hexadecimal.Nil).
  { intros z. split; intros Hz; apply (f_equal Z.of_hex_int) in Hz as Hz'; rewrite HexadecimalZ.of_to in Hz'; cbn in Hz'; by subst z. }
  destruct (Hn a) as [Ha Ha']. destruct (Hn b) as [Hb Hb'].
  pose proof (NilZero.isi _ Ha Ha') as E. rewrite Hs, (NilZero.isi _ Hb Hb') in E. by injection E.
Qed.

Inductive RecipeError :=
  | ServerError (c : Code) | WatchCanceled | SessionExpired | ContextDone | ErrLocked | ErrElectionNotLeader
  | LeaseGone.

Section recipes.
Context {S : Type} `{!EtcdServer S, !LeaseClient S}.
Implicit Types s : S.

Definition fromServer {A} (r : result Code A) : result RecipeError A :=
  match r with Ok x => Ok x | Err c => Err (ServerError c) end.

(** ** Sessions ([session.go]) *)

(** A context is known by whether it is done. *)
Record sessionOptions := mkSessionOptions { so_ttl : Z; so_leaseID : Z; so_ctx : bool }.

Inductive SessionOption := WithTTL (ttl : Z) | WithLease (leaseID : Z) | WithContext (ctx : bool).

Definition applyOption (so : sessionOptions) (o : SessionOption) : sessionOptions :=
  match o with
  | WithTTL ttl => if ttl >? 0 then mkSessionOptions ttl (so_leaseID so) (so_ctx so) else so
  | WithLease leaseID => mkSessionOptions (so_ttl so) leaseID (so_ctx so)
  | WithContext ctx => mkSessionOptions (so_ttl so) (so_leaseID so) ctx
  end.

(** [cancel] was called, [donec] is closed. *)
Record Session := mkSession { s_id : Z; s_cancelled : bool; s_donec : bool; s_closed : bool }.

Definition NewSession s (opts : list SessionOption) : S * result RecipeError Session :=
  let options := fold_left applyOption opts (mkSessionOptions 60 0 false) in
  if so_leaseID options =? 0 then
    match lc_Grant s (so_ttl options) with
    | (s', Ok id) => (s', Ok (mkSession id (so_ctx options) false false))
    | (s', Err c) => (s', Err (ServerError c))
    end
  else
    match lc_TimeToLive s (so_leaseID options) with
    | Err c => (s, Err (ServerError c))
    | Ok ttl => if ttl <=? 0 then (s, Err LeaseGone) else (s, Ok (mkSession (so_leaseID options) (so_ctx options) false false))
    end.

(** What one round of [keepAliveLoop] receives. *)
Inductive KeepAliveInput := CtxDone | KeepAliveClosed | KeepAliveNil | KeepAliveOk.

(** True once the loop has returned and [donec] is closed. *)
Fixpoint keepAliveLoop (started : bool) (inputs : list KeepAliveInput) : bool :=
  if started then
    match inputs with
    | [] => false
    | CtxDone :: _ | KeepAliveClosed :: _ => true
    | KeepAliveNil :: inputs' | KeepAliveOk :: inputs' => keepAliveLoop started inputs'
    end
  else true.

(** After [cancel] the loop ends, which the caller waits for. *)
Definition endSession (ss : Session) : Session := mkSession (s_id ss) true true true.

Definition Session_Close s (ss : Session) : S * Session * result RecipeError unit :=
  if s_closed ss then (s, ss, Ok tt)
  else let '(s', r) := lc_Revoke s (s_id ss) in (s', endSession ss, fromServer r).

Definition Session_Orphan (ss : Session) : Session := if s_closed ss then ss else endSession ss.

(** ** The key of a session *)

Definition createRequest (key val : string) (lease : Z) : TxnRequest :=
  mkTxnRequest [mkCompareMsg 0 1 key (Some (pb_CreateRevision 0))]
    [RequestPut (mkPutRequest (Some key) val lease false)] [RequestRange (mkRangeRequest (Some key) "" 0 0)].

(** The revision the key was created at; [None] is an index out of range. *)
Definition createdRev (resp : TxnReply) : option Z :=
  if ta_Succeeded resp then Some (h_Revision (ta_Header resp))
  else match ta_Responses resp with
       | ResponseRange r :: _ => CreateRevision <$> head (ra_Kvs r)
       | _ => None
       end.

(** The keys under [pfx] created before [rev]: the first of them. *)
Definition earlier s (pfx : string) (rev : Z) : result Code (option string) :=
  match es_Get s (mkGetOp pfx true (wrap_i64 (rev - 1))) with
  | Err c => Err c
  | Ok r => Ok (Key <$> head (ra_Kvs r))
  end.

(** What a call does next: it returns, or goes on to another call of the client.
    [None] at [createdRev] is a panic. *)
Inductive Pc :=
  | Creating (try_ : bool)
  | Waiting (key : string) (rev : Z)
  | Watching (key : string) (rev : Z) (lastKey : string)
  | Trying (key : string) (rev : Z) (hdr : ResponseHeader)
  | TryCleanup (key : string)
  | Deleting (key : string).

Inductive Next := Return (r : result RecipeError unit) | Go (pc : Pc).

(** The [Get] of [waitDeletes] and of [waitLeader] *)
Definition waitGet s (pfx key : string) (rev : Z) : Next :=
  match earlier s pfx rev with
  | Err c => Return (Err (ServerError c))
  | Ok None => Return (Ok tt)
  | Ok (Some lastKey) => Go (Watching key rev lastKey)
  end.

(** How the watch of [lastKey] ends, and the error the [select] after it takes. *)
Inductive WatchEnd := WatchCancel | WatchDelete | WatchClosed.

Definition waitRetry (w : WatchEnd) (stop : option RecipeError) (key : string) (rev : Z) : Next :=
  match w with
  | WatchCancel => Return (Err WatchCanceled)
  | WatchDelete | WatchClosed => match stop with Some e => Return (Err e) | None => Go (Waiting key rev) end
  end.

(** ** Mutexes ([mutex.go]) *)

(** [m_lease] is [s.Lease()]; an empty [myKey] is the one of a free mutex. *)
Record Mutex := mkMutex { m_lease : Z; m_pfx : string; myKey : string; myRev : Z; hdr : option ResponseHeader }.

Definition NewMutex (lease : Z) (pfx : string) : Mutex := mkMutex lease (pfx +:+ "/") "" 0 None.

Definition setMutex (m : Mutex) (key : string) (rev : Z) (h : ResponseHeader) : Mutex := mkMutex (m_lease m) (m_pfx m) key rev (Some h).

Definition lockKey (m : Mutex) : string := m_pfx m +:+ fmtHex (m_lease m).

Definition held (m : Mutex) : bool := negb (String.eqb (myKey m) "").

Definition Lock_begin (try_ : bool) (m : Mutex) : Next := if held m then Return (Ok tt) else Go (Creating try_).

(** The transaction; [Lock] sets the fields at once, [TryLock] at the end. *)
Definition Lock_create s (try_ : bool) (m : Mutex) : option (S * Mutex * Next) :=
  let key := lockKey m in
  match es_Txn s (createRequest key "" (m_lease m)) with
  | (s', Err c) => Some (s', m, Return (Err (ServerError c)))
  | (s', Ok resp) =>
      rev ← createdRev resp;
      Some (if try_ : bool then (s', m, Go (Trying key rev (ta_Header resp)))
            else (s', setMutex m key rev (ta_Header resp), Go (Waiting key rev)))
  end.

Definition TryLock_get s (m : Mutex) (key : string) (rev : Z) (h : ResponseHeader) : Mutex * Next :=
  match earlier s (m_pfx m) rev with
  | Err c => (m, Return (Err (ServerError c)))
  | Ok (Some _) => (m, Go (TryCleanup key))
  | Ok None => (setMutex m key rev h, Return (Ok tt))
  end.

Definition Unlock_begin (m : Mutex) : Mutex * Next :=
  if held m then (mkMutex (m_lease m) (m_pfx m) "" (myRev m) (hdr m), Go (Deleting (myKey m))) else (m, Return (Ok tt)).

Definition IsOwner (m : Mutex) : bool := held m.
Definition Mutex_Key (m : Mutex) : string := myKey m.
Definition Mutex_Header (m : Mutex) : option ResponseHeader := hdr m.

(** ** Elections ([election.go]) *)

Record Election := mkElection {
  e_lease : Z; e_pfx : string; leaderKey : string; leaderRev : Z; leaderValue : string; e_hdr : option ResponseHeader;
}.

Definition NewElection (lease : Z) (pfx : string) : Election := mkElection lease (pfx +:+ "/") "" 0 "" None.

Definition campaignKey (e : Election) : string := e_pfx e +:+ fmtHex (e_lease e).

Definition IsLeader (e : Election) : bool := negb (String.eqb (leaderKey e) "").

(** [Campaign] up to [waitLeader]: [None] returns nil at once; else the key, the
    revision and the header to wait with. *)
Definition Campaign_create s (e : Election) (val : string) : option (S * result RecipeError (option (string * Z * ResponseHeader))) :=
  if IsLeader e then Some (s, Ok None)
  else
    match es_Txn s (createRequest (campaignKey e) val (e_lease e)) with
    | (s', Err c) => Some (s', Err (ServerError c))
    | (s', Ok resp) => rev ← createdRev resp; Some (s', Ok (Some (campaignKey e, rev, ta_Header resp)))
    end.

(** The end of [Campaign], when [waitLeader] returned nil. *)
Definition Campaign_won (e : Election) (key : string) (rev : Z) (h : ResponseHeader) (val : string) : Election :=
  mkElection (e_lease e) (e_pfx e) key rev val (Some h).

Definition Resign s (e : Election) : S * Election * result RecipeError unit :=
  if IsLeader e then
    let '(s', r) := es_Delete s (leaderKey e) in
    (s', mkElection (e_lease e) (e_pfx e) "" (leaderRev e) (leaderValue e) (e_hdr e), fromServer r)
  else (s, e, Err ErrElectionNotLeader).

Definition Leader s (e : Election) : result Code (option ResponseHeader * string) :=
  match es_Get s (mkGetOp (e_pfx e) true 0) with
  | Err c => Err c
  | Ok r => Ok (ra_Header r, match ra_Kvs r with [] => "" | kv :: _ => Value kv end)
  end.

(** What [Observe] sends: the leader now, and once more after each answer of the
    watch, until one of them is cancelled or a query fails. *)
Fixpoint observeRounds (e : Election) (views : list (S * bool)) : list string :=
  match views with
  | [] => []
  | (s, canceled) :: views' =>
      if canceled : bool then []
      else match Leader s e with Err _ => [] | Ok (_, leader) => leader :: observeRounds e views' end
  end.

Definition Observe s (e : Election) (views : list (S * bool)) : list string := observeRounds e ((s, false) :: views).

Definition Election_Key (e : Election) : string := leaderKey e.
Definition Rev (e : Election) : Z := leaderRev e.
Definition Election_Header (e : Election) : option ResponseHeader := e_hdr e.

(** ** The calls of one mutex, step by step *)

(** The mutex, where its call is, and whether the last [Lock] or [TryLock]
    returned nil with no [Unlock] since. *)
Record Owner := mkOwner { o_mutex : Mutex; o_pc : option Pc; o_holds : bool }.

Inductive Choice := StartLock (try_ : bool) | StartUnlock | Continue | WatchEnds (w : WatchEnd) (stop : option RecipeError).

Definition settle (m : Mutex) (holds : bool) (n : Next) : Owner :=
  match n with
  | Go pc => mkOwner m (Some pc) holds
  | Return (Ok _) => mkOwner m None true
  | Return (Err _) => mkOwner m None holds
  end.

Definition advance s (o : Owner) (c : Choice) : option (S * Owner) :=
  let m := o_mutex o in
  match o_pc o, c with
  | None, StartLock try_ => Some (s, settle m (o_holds o) (Lock_begin try_ m))
  | None, StartUnlock =>
      let '(m', n) := Unlock_begin m in
      Some (s, mkOwner m' match n with Go pc => Some pc | Return _ => None end false)
  | Some (Creating try_), Continue =>
      '(s', m', n) ← Lock_create s try_ m;
      Some (s', settle m' (o_holds o) n)
  | Some (Waiting key rev), Continue => Some (s, settle m (o_holds o) (waitGet s (m_pfx m) key rev))
  | Some (Watching key rev _), WatchEnds w stop => Some (s, settle m (o_holds o) (waitRetry w stop key rev))
  | Some (Trying key rev h), Continue =>
      let '(m', n) := TryLock_get s m key rev h in Some (s, settle m' (o_holds o) n)
  | Some (TryCleanup key), Continue => Some ((es_Delete s key).1, settle m (o_holds o) (Return (Err ErrLocked)))
  | Some (Deleting key), Continue => Some ((es_Delete s key).1, mkOwner m None false)
  | _, _ => None
  end.

(** ** The calls of one election *)

Inductive CampaignPc :=
  | CWaiting (key : string) (rev : Z) (h : ResponseHeader) (val : string)
  | CWatching (key : string) (rev : Z) (h : ResponseHeader) (val : string).

Record Candidate := mkCandidate { c_election : Election; c_pc : option CampaignPc }.

Inductive CampaignChoice := StartCampaign (val : string) | StartResign | CContinue | CWatchEnds (w : WatchEnd) (stop : option RecipeError).

Definition campaign s (cd : Candidate) (c : CampaignChoice) : option (S * Candidate) :=
  let e := c_election cd in
  match c_pc cd, c with
  | None, StartCampaign val =>
      '(s', r) ← Campaign_create s e val;
      Some (s', mkCandidate e match r with Ok (Some (key, rev, h)) => Some (CWaiting key rev h val) | _ => None end)
  | None, StartResign => let '(s', e', _) := Resign s e in Some (s', mkCandidate e' None)
  | Some (CWaiting key rev h val), CContinue =>
      Some (s, match waitGet s (e_pfx e) key rev with
               | Return (Ok _) => mkCandidate (Campaign_won e key rev h val) None
               | Return (Err _) => mkCandidate e None
               | Go _ => mkCandidate e (Some (CWatching key rev h val))
               end)
  | Some (CWatching key rev h val), CWatchEnds w stop =>
      Some (s, match waitRetry w stop key rev with
               | Return _ => mkCandidate e None
               | Go _ => mkCandidate e (Some (CWaiting key rev h val))
               end)
  | _, _ => None
  end.

End recipes.
