(* ===== verification/ConcurrencyTheorems.v ===== *)
(** * Properties of locks and elections

    With a server that orders keys by creation as etcd does, whatever the other
    clients do: an owner whose key is still there is the first in line, so two of
    them are never in conflict; an owner that locks again after a failed call is
    not safe.  With the server of this repository no lock is ever taken. *)

From Stdlib Require Import Numbers.HexadecimalString Numbers.HexadecimalZ.
From S2P Require Import Prelude GoBytes KvTypes RaftCodec EtcdApi Concurrency.

(** ** What the recipes rely on *)

(** The creation revisions of the keys, and the revision of the store. *)
Definition View : Type := gmap string Z * Z.

(** Revisions grow, and keys that appear are newer than all there were. *)
Record evolves (v v' : View) : Prop := {
  ev_rev : v.2 <= v'.2 <= int64_max;
  ev_keys k c : v'.1 !! k = Some c -> v.1 !! k = Some c \/ v.2 < c <= v'.2;
}.

(** No two of the keys [K] that appear have one creation revision.  The server
    gives all that a transaction puts the same revision, so this says of a client
    that it does not create two of the keys in one transaction. *)
Definition apart (K : string -> Prop) (v v' : View) : Prop :=
  forall k1 k2 c, K k1 -> K k2 -> v'.1 !! k1 = Some c -> v'.1 !! k2 = Some c -> v.2 < c -> k1 = k2.

Record wf_view (v : View) : Prop := {
  wv_rev : 0 <= v.2 <= int64_max;
  wv_bound k c : v.1 !! k = Some c -> 0 < c <= v.2;
}.

Definition distinct (K : string -> Prop) (v : View) : Prop :=
  forall k1 k2 c, K k1 -> K k2 -> v.1 !! k1 = Some c -> v.1 !! k2 = Some c -> k1 = k2.

(** What etcd documents of its revisions, whatever the other clients write; the
    transaction of the recipes creates its own key at most. *)
Class EtcdServerLaws (S : Type) `{!EtcdServer S} := {
  es_view : S -> View;
  (** what other clients and the expiry of leases do *)
  es_env : S -> S -> Prop;
  es_env_spec s s' : wf_view (es_view s) -> es_env s s' -> evolves (es_view s) (es_view s');
  es_txn_spec s key val lease s' r :
    wf_view (es_view s) -> es_Txn s (createRequest key val lease) = (s', r) -> evolves (es_view s) (es_view s') /\
      (forall k c, (es_view s').1 !! k = Some c -> (es_view s).1 !! k = Some c \/ k = key) /\
      (forall resp, r = Ok resp -> exists rev, createdRev resp = Some rev /\ 0 < rev <= (es_view s').2);
  es_get_spec s pfx max r :
    es_Get s (mkGetOp pfx true max) = Ok r -> ra_Kvs r = [] ->
      forall x c, (es_view s).1 !! (pfx +:+ x) = Some c -> max <> 0 /\ max < c;
  es_delete_spec s key : wf_view (es_view s) -> evolves (es_view s) (es_view (es_Delete s key).1) /\
    forall k c, (es_view (es_Delete s key).1).1 !! k = Some c -> (es_view s).1 !! k = Some c;
}.

Lemma evolves_refl v : wf_view v -> evolves v v.
Proof. intros [Hr Hb]. constructor; [split; [reflexivity|lia]|by left]. Qed.

Lemma evolves_wf v v' : wf_view v -> evolves v v' -> wf_view v'.
Proof.
  intros [Hv0 Hb] [Hr Hk]. constructor; [lia|]. intros k c Hc. destruct (Hk _ _ Hc) as [Hv|?]; [|lia]. apply Hb in Hv. lia.
Qed.

(** A step that creates at most one key. *)
Lemma apart_one K v v' key :
  wf_view v -> (forall k c, v'.1 !! k = Some c -> v.1 !! k = Some c \/ k = key) -> apart K v v'.
Proof.
  intros [_ Hb] Hone k1 k2 c _ _ Hk1 Hk2 Hc.
  destruct (Hone _ _ Hk1) as [Ho1%Hb| ->]; [lia|]. by destruct (Hone _ _ Hk2) as [Ho2%Hb| ->]; [lia|].
Qed.

Lemma apart_refl K v : wf_view v -> apart K v v.
Proof. intros Hwf. apply (apart_one K v v ""); [done|by left]. Qed.

Lemma apart_distinct K v v' : evolves v v' -> wf_view v -> apart K v v' -> distinct K v -> distinct K v'.
Proof.
  intros [_ Hk] [_ Hb] Ha Hd k1 k2 c HK1 HK2 Hk1 Hk2.
  destruct (Hk _ _ Hk1) as [Hv1|[? _]]; [|by apply (Ha k1 k2 c)].
  destruct (Hk _ _ Hk2) as [Hv2|[? _]]; [by apply (Hd k1 k2 c)|]. by apply (Ha k1 k2 c).
Qed.

(** If the key is the one created at [rev], none under the prefix is older. *)
Definition oldest (v : View) (pfx key : string) (rev : Z) : Prop :=
  v.1 !! key = Some rev -> forall x c, v.1 !! (pfx +:+ x) = Some c -> rev <= c.

Lemma oldest_evolves v v' pfx key rev : rev <= v.2 -> evolves v v' -> oldest v pfx key rev -> oldest v' pfx key rev.
Proof.
  intros Hrev [Hr Hk] Ho Hkey x c Hc. destruct (Hk _ _ Hkey) as [Hv|?]; [|lia].
  destruct (Hk _ _ Hc) as [Hv'|?]; [by apply (Ho Hv x)|lia].
Qed.

Section recipes.
Context {S : Type} `{!EtcdServer S, !EtcdServerLaws S}.
Implicit Types s : S.

Lemma earlier_none s pfx key rev : 0 < rev <= int64_max -> earlier s pfx rev = Ok None -> oldest (es_view s) pfx key rev.
Proof.
  unfold earlier. intros Hr. rewrite wrap_i64_id by (unfold_ints; lia).
  destruct (es_Get s _) as [r|] eqn:E; [|done]. intros [= Hh] _ x c Hc.
  destruct (es_get_spec _ _ _ _ E ltac:(by destruct (ra_Kvs r)) x c Hc). lia.
Qed.

Lemma waitGet_ok s pfx key rev u : waitGet s pfx key rev = Return (Ok u) -> earlier s pfx rev = Ok None.
Proof. unfold waitGet. by destruct (earlier s pfx rev) as [[?|]|]. Qed.

Lemma waitGet_go s pfx key rev pc : waitGet s pfx key rev = Go pc -> exists lastKey, pc = Watching key rev lastKey.
Proof. unfold waitGet. destruct (earlier s pfx rev) as [[?|]|]; [|done|done]. intros [= <-]. by eexists. Qed.

Lemma waitRetry_go w stop key rev pc : waitRetry w stop key rev = Go pc -> pc = Waiting key rev.
Proof. unfold waitRetry. by destruct w, stop; intros; simplify_eq. Qed.

Lemma waitRetry_err w stop key rev u : waitRetry w stop key rev <> Return (Ok u).
Proof. unfold waitRetry. by destruct w, stop. Qed.

(** ** Mutexes *)

(** A revision a session may have got. *)
Definition known (v : View) (rev : Z) : Prop := 0 < rev <= v.2 /\ rev <= int64_max.

Lemma known_evolves v v' rev : evolves v v' -> known v rev -> known v' rev.
Proof. intros [Hr _] [? ?]. split; lia. Qed.

Record owner_ok (v : View) (o : Owner) : Prop := {
  oo_pc : match o_pc o with
          | Some (Waiting key rev) | Some (Watching key rev _) =>
              key = lockKey (o_mutex o) /\ known v rev /\ myRev (o_mutex o) = rev /\ held (o_mutex o) = true
          | Some (Trying key rev _) => key = lockKey (o_mutex o) /\ known v rev
          | _ => True
          end;
  oo_free : o_pc o <> None -> o_holds o = false;
  oo_holds : o_holds o = true ->
    held (o_mutex o) = true /\ known v (myRev (o_mutex o)) /\ oldest v (m_pfx (o_mutex o)) (lockKey (o_mutex o)) (myRev (o_mutex o));
}.

Lemma owner_ok_evolves v v' o : evolves v v' -> owner_ok v o -> owner_ok v' o.
Proof.
  intros He [Hpc Hf Hh]. constructor; [|done|].
  - destruct (o_pc o) as [[]|]; try done; destruct Hpc as (? & Hk & ?); eauto using known_evolves.
    by split; [|apply (known_evolves v)].
  - intros Hd. destruct (Hh Hd) as (? & Hk & Ho). split_and!; [done|by eapply known_evolves|]. eapply oldest_evolves; [|done|done]. apply Hk.
Qed.

Lemma fmtHex_nonempty z : fmtHex z <> "".
Proof.
  unfold fmtHex. intros Hs. assert (Hi : NilZero.int_of_string (NilZero.string_of_int (Z.to_hex_int z)) = NilZero.int_of_string "") by by rewrite Hs.
  rewrite NilZero.isi in Hi; [done|..]; intros Hz; apply (f_equal Z.of_hex_int) in Hz as Hz'; rewrite HexadecimalZ.of_to in Hz'; cbn in Hz'; by subst z.
Qed.

Lemma lockKey_nonempty m : String.eqb (lockKey m) "" = false.
Proof.
  apply String.eqb_neq. unfold lockKey. intros Hk. apply (fmtHex_nonempty (m_lease m)). by destruct (m_pfx m).
Qed.

Definition same_lock (m m' : Mutex) : Prop := m_lease m' = m_lease m /\ m_pfx m' = m_pfx m.

(** The choice is safe: no [Lock] or [TryLock] of a mutex whose fields are left
    from a call that failed. *)
Definition careful (o : Owner) (c : Choice) : Prop :=
  match c with StartLock _ => held (o_mutex o) = false \/ o_holds o = true | _ => True end.

(** A step of one session: what it does to the keys, and that its promise holds. *)
Lemma advance_ok s o c s' o' :
  wf_view (es_view s) -> owner_ok (es_view s) o -> careful o c -> advance s o c = Some (s', o') ->
  evolves (es_view s) (es_view s') /\ owner_ok (es_view s') o' /\ same_lock (o_mutex o) (o_mutex o').
Proof.
  intros Hwf Ho Hc Ha. pose proof (evolves_refl _ Hwf) as Hsame. pose proof Ho as [Hpc Hfree Hhold].
  destruct o as [m pc holds]. unfold advance in Ha. cbn [o_mutex o_pc o_holds] in *.
  assert (Hfail : evolves (es_view s) (es_view s') -> pc <> None -> owner_ok (es_view s') (mkOwner m None holds)).
  { intros He Hp. rewrite (Hfree Hp). by constructor. }
  assert (Hwon : forall m' rev u, s' = s -> known (es_view s) rev -> earlier s (m_pfx m) rev = Ok None -> same_lock m m' ->
    myRev m' = rev -> held m' = true -> o' = settle m' holds (Return (Ok u)) ->
    evolves (es_view s) (es_view s') /\ owner_ok (es_view s') o' /\ same_lock m (o_mutex o')).
  { intros m' rev u -> Hk Hear [Hl Hp] <- Hheld ->. split; [done|]. split; [|done]. constructor; cbn; try done.
    intros _. split_and!; [done|done|]. rewrite Hp. apply earlier_none; [destruct Hk; lia|done]. }
  destruct pc as [[try_|key rev|key rev l|key rev h|key|key]|], c as [try'| | |w stop]; try done.
  - apply bind_Some in Ha as ([[s1 m1] n] & Hl & [= <- <-]). unfold Lock_create in Hl.
    destruct (es_Txn s _) as [s2 [resp|e]] eqn:Et; destruct (es_txn_spec _ _ _ _ _ _ Hwf Et) as (He & _ & Hrev).
    + destruct (Hrev resp eq_refl) as (rev & Hcr & Hk1). rewrite Hcr in Hl. cbn in Hl.
      assert (Hk : known (es_view s2) rev) by (split; [done|destruct He; lia]). pose proof (lockKey_nonempty m) as Hne.
      destruct try_; simplify_eq; (split; [done|]); (split; [|done]); rewrite (Hfree ltac:(done)); constructor; try done.
      cbn. unfold held. cbn. by rewrite Hne.
    + simplify_eq. split; [done|]. split; [by apply Hfail|done].
  - simplify_eq. destruct Hpc as (-> & Hk & Hmr & Hheld). destruct (waitGet s' (m_pfx m) (lockKey m) rev) as [[u|e]|pc] eqn:Ew.
    + apply waitGet_ok in Ew. by apply (Hwon m rev u).
    + split; [done|]. split; [by apply Hfail|done].
    + apply waitGet_go in Ew as [l ->]. split; [done|]. split; [|done]. rewrite (Hfree ltac:(done)). by constructor.
  - simplify_eq. destruct (waitRetry w stop key rev) as [[u|e]|pc] eqn:Ew; [by apply waitRetry_err in Ew|..].
    + split; [done|]. split; [by apply Hfail|done].
    + apply waitRetry_go in Ew as ->. split; [done|]. split; [|done]. rewrite (Hfree ltac:(done)). by constructor.
  - unfold TryLock_get in Ha. destruct (earlier s (m_pfx m) rev) as [[l|]|e] eqn:Ee; simplify_eq; destruct Hpc as (-> & Hk).
    + split; [done|]. split; [|done]. rewrite (Hfree ltac:(done)). by constructor.
    + apply (Hwon (setMutex m (lockKey m) rev h) rev tt); try done. unfold held. cbn. by rewrite lockKey_nonempty.
    + split; [done|]. split; [by apply Hfail|done].
  - simplify_eq. split; [by apply es_delete_spec|]. split; [|done]. rewrite (Hfree ltac:(done)). by constructor.
  - simplify_eq. split; [by apply es_delete_spec|]. split; [|done]. by constructor.
  - simplify_eq. unfold Lock_begin. destruct (held m) eqn:Eh.
    + cbn in Hc. destruct Hc as [Hc|Hc]; [congruence|]. subst holds. split; [done|]. split; [|done].
      constructor; cbn; try done. intros _. by destruct (Hhold eq_refl) as (_ & ? & ?).
    + split; [done|]. split; [|done]. constructor; cbn; try done; [|intros Hh; destruct (Hhold Hh); congruence].
      intros _. destruct holds; [|done]. destruct (Hhold eq_refl); congruence.
  - unfold Unlock_begin in Ha. destruct (held m) eqn:Eh; simplify_eq; (split; [done|]); (split; [|done]); by constructor.
Qed.

Lemma delete_apart K s key : wf_view (es_view s) -> apart K (es_view s) (es_view (es_Delete s key).1).
Proof. intros Hwf. apply (apart_one K _ _ ""); [done|]. intros k c Hk. left. by apply (es_delete_spec s key Hwf). Qed.

Lemma create_apart K s key val lease : wf_view (es_view s) -> apart K (es_view s) (es_view (es_Txn s (createRequest key val lease)).1).
Proof.
  intros Hwf. apply (apart_one K _ _ key); [done|].
  destruct (es_Txn s (createRequest key val lease)) as [s' r] eqn:Et. by destruct (es_txn_spec _ _ _ _ _ _ Hwf Et) as (_ & ? & _).
Qed.

(** A session creates one key at a time. *)
Lemma advance_apart K s o c s' o' : wf_view (es_view s) -> advance s o c = Some (s', o') -> apart K (es_view s) (es_view s').
Proof.
  intros Hwf Ha. destruct o as [m pc holds]. unfold advance in Ha. cbn [o_mutex o_pc o_holds] in Ha.
  destruct pc as [[try_|key rev|key rev l|key rev h|key|key]|], c as [try'| | |w stop]; try done.
  - apply bind_Some in Ha as ([[s1 m1] n] & Hl & [= <- _]). unfold Lock_create in Hl.
    pose proof (create_apart K s (lockKey m) "" (m_lease m) Hwf) as Hap. destruct (es_Txn s _) as [s2 [resp|e]]; [|by simplify_eq].
    apply bind_Some in Hl as (rev & _ & Hl). by destruct try_; simplify_eq.
  - simplify_eq. by apply apart_refl.
  - simplify_eq. by apply apart_refl.
  - destruct (TryLock_get s m key rev h). simplify_eq. by apply apart_refl.
  - simplify_eq. by apply delete_apart.
  - simplify_eq. by apply delete_apart.
  - simplify_eq. by apply apart_refl.
  - destruct (Unlock_begin m). simplify_eq. by apply apart_refl.
Qed.

Section exclusion.
(** The keys of the sessions. *)
Variable K : string -> Prop.

(** Sessions and other clients on one server: the others may write and delete any
    keys, but do not create two of the sessions' keys at one revision. *)
Inductive lock_step (safe : bool) : S * gmap nat Owner -> S * gmap nat Owner -> Prop :=
  | ls_env s s' os : es_env s s' -> apart K (es_view s) (es_view s') -> lock_step safe (s, os) (s', os)
  | ls_call s s' os i o o' c :
      os !! i = Some o -> (safe = true -> careful o c) -> advance s o c = Some (s', o') ->
      lock_step safe (s, os) (s', <[i := o']> os).

(** Free mutexes of different sessions. *)
Definition fresh (os : gmap nat Owner) : Prop :=
  map_Forall (fun _ o => exists lease pfx, o = mkOwner (NewMutex lease pfx) None false) os /\
  forall i j oi oj, os !! i = Some oi -> os !! j = Some oj -> i <> j -> m_lease (o_mutex oi) <> m_lease (o_mutex oj).

Record locks_ok (st : S * gmap nat Owner) : Prop := {
  lo_view : wf_view (es_view st.1);
  lo_distinct : distinct K (es_view st.1);
  lo_owners : map_Forall (fun _ o => owner_ok (es_view st.1) o) st.2;
  lo_keys : map_Forall (fun _ o => K (lockKey (o_mutex o))) st.2;
  lo_leases i j oi oj : st.2 !! i = Some oi -> st.2 !! j = Some oj -> i <> j -> m_lease (o_mutex oi) <> m_lease (o_mutex oj);
}.

Lemma lock_step_ok st st' : lock_step true st st' -> locks_ok st -> locks_ok st'.
Proof.
  intros Hs [Hv Hd Ho Hks Hl]. destruct Hs as [s s' os He Ha|s s' os i o o' c Hi Hc Ha]; cbn [fst snd] in *.
  - apply (es_env_spec _ _ Hv) in He. constructor; cbn; [by eapply evolves_wf|by eapply apart_distinct| |done..].
    intros i o Hi. eapply owner_ok_evolves; [done|]. by apply (Ho i).
  - destruct (advance_ok s o c s' o' Hv (Ho _ _ Hi) (Hc eq_refl) Ha) as (He & Ho' & Hlease & Hpfx).
    constructor; cbn; [by eapply evolves_wf|eapply apart_distinct; [done..|by eapply advance_apart|done]| | |].
    + apply map_Forall_insert_2; [done|]. intros j oj Hj. eapply owner_ok_evolves; [done|]. by apply (Ho j).
    + apply map_Forall_insert_2; [|done]. unfold lockKey. rewrite Hlease, Hpfx. by apply (Hks i).
    + intros j k oj ok Hj Hk Hne. rewrite lookup_insert_Some in Hj, Hk.
      destruct Hj as [[-> <-]|[? Hj]], Hk as [[<- <-]|[? Hk]]; rewrite ?Hlease; [done|by eapply Hl|by eapply Hl|by eapply Hl].
Qed.

Lemma locks_reach st st' : rtc (lock_step true) st st' -> locks_ok st -> locks_ok st'.
Proof. induction 1; eauto using lock_step_ok. Qed.

Lemma fresh_ok s os :
  wf_view (es_view s) -> distinct K (es_view s) -> map_Forall (fun _ o => K (lockKey (o_mutex o))) os -> fresh os -> locks_ok (s, os).
Proof.
  intros Hv Hd Hks [Hf Hl]. constructor; [done|done| |done|done].
  intros i o Hi. destruct (Hf i o Hi) as (lease & pfx & ->). by constructor.
Qed.

End exclusion.

Definition lockKeys (os : gmap nat Owner) (k : string) : Prop := exists i o, os !! i = Some o /\ k = lockKey (o_mutex o).

(** The session has the lock, and its key is the one it was created with. *)
Definition owns s (o : Owner) : Prop :=
  o_holds o = true /\ (es_view s).1 !! lockKey (o_mutex o) = Some (myRev (o_mutex o)).

(** C15: mutual exclusion.  Sessions lock, try and unlock, and other clients write
    and delete any keys, in any order, but do not create the keys of two of the
    sessions in one transaction.  If no mutex is locked again after a call
    on it failed, a session whose call returned nil and whose key is still there
    has the oldest key under the prefix, and no other session is in its place. *)
Theorem mutex_exclusion s0 os0 s os i o
    (Hv : wf_view (es_view s0)) (Hd : distinct (lockKeys os0) (es_view s0)) (Hf : fresh os0)
    (Hr : rtc (lock_step (lockKeys os0) true) (s0, os0) (s, os))
    (Hi : os !! i = Some o) (Ho : owns s o) :
  (forall x c, (es_view s).1 !! (m_pfx (o_mutex o) +:+ x) = Some c -> myRev (o_mutex o) <= c) /\
  (forall j o', os !! j = Some o' -> j <> i -> m_pfx (o_mutex o') = m_pfx (o_mutex o) -> ~ owns s o').
Proof.
  assert (H0 : locks_ok (lockKeys os0) (s0, os0)) by (apply fresh_ok; try done; intros k q Hk; by exists k, q).
  pose proof (locks_reach _ _ _ Hr H0) as [Hw Hdis Hall Hks Hl]. cbn in Hw, Hdis, Hall, Hks, Hl.
  assert (Hold : forall k q, os !! k = Some q -> owns s q -> forall x c, (es_view s).1 !! (m_pfx (o_mutex q) +:+ x) = Some c -> myRev (o_mutex q) <= c).
  { intros k q Hk [Hh Hkey]. destruct (oo_holds _ _ (Hall k q Hk) Hh) as (_ & _ & Hq). by apply Hq. }
  split; [by eapply Hold|]. intros j o' Hj Hne Hp Ho'. destruct (Ho) as [_ Hkey]. destruct (Ho') as [_ Hkey'].
  pose proof (Hold i o Hi Ho _ _ ltac:(rewrite <- Hp; exact Hkey')) as H1.
  pose proof (Hold j o' Hj Ho' _ _ ltac:(rewrite Hp; exact Hkey)) as H2.
  assert (Hrev : myRev (o_mutex o) = myRev (o_mutex o')) by lia. rewrite Hrev in Hkey.
  pose proof (Hdis _ _ _ (Hks i o Hi) (Hks j o' Hj) Hkey Hkey') as Hk. unfold lockKey in Hk. rewrite Hp in Hk.
  apply (inj (String.append _)) in Hk. apply fmtHex_inj in Hk. by apply (Hl j i o' o Hj Hi Hne).
Qed.

(** ** Elections *)

Definition leaderOk (v : View) (e : Election) : Prop :=
  IsLeader e = true -> known v (leaderRev e) /\ oldest v (e_pfx e) (campaignKey e) (leaderRev e).

Record candidate_ok (v : View) (cd : Candidate) : Prop := {
  co_pc : match c_pc cd with
          | Some (CWaiting key rev _ _) | Some (CWatching key rev _ _) => key = campaignKey (c_election cd) /\ known v rev
          | None => True
          end;
  co_leader : leaderOk v (c_election cd);
}.

Lemma candidate_ok_evolves v v' cd : evolves v v' -> candidate_ok v cd -> candidate_ok v' cd.
Proof.
  intros He [Hpc Hl]. constructor.
  - destruct (c_pc cd) as [[]|]; [..|done]; destruct Hpc; eauto using known_evolves.
  - intros Hd. destruct (Hl Hd) as [Hk Ho]. split; [by eapply known_evolves|]. eapply oldest_evolves; [|done|done]. apply Hk.
Qed.

Definition same_election (e e' : Election) : Prop := e_lease e' = e_lease e /\ e_pfx e' = e_pfx e.

Lemma campaign_ok s cd c s' cd' :
  wf_view (es_view s) -> candidate_ok (es_view s) cd -> campaign s cd c = Some (s', cd') ->
  evolves (es_view s) (es_view s') /\ candidate_ok (es_view s') cd' /\ same_election (c_election cd) (c_election cd').
Proof.
  intros Hwf Hok Hc. pose proof (evolves_refl _ Hwf) as Hsame. destruct cd as [e pc]. unfold campaign in Hc. cbn [c_election c_pc] in *.
  assert (Hrest : evolves (es_view s) (es_view s') -> forall pc',
    match pc' with Some (CWaiting key rev _ _) | Some (CWatching key rev _ _) => key = campaignKey e /\ known (es_view s') rev | None => True end ->
    evolves (es_view s) (es_view s') /\ candidate_ok (es_view s') (mkCandidate e pc') /\ same_election e e).
  { intros He pc' Hpc'. split; [done|]. split; [|done]. constructor; [done|]. by apply (candidate_ok_evolves _ _ _ He Hok). }
  pose proof (co_pc _ _ Hok) as Hpc. cbn in Hpc. destruct pc as [[key rev h val|key rev h val]|], c as [val'| | |w stop]; try done.
  - simplify_eq. destruct Hpc as [-> Hk]. destruct (waitGet s' (e_pfx e) (campaignKey e) rev) as [[u|err]|pc'] eqn:Ew; [|by apply Hrest..].
    split; [done|]. split; [|done]. constructor; [done|]. intros _. split; [done|]. apply waitGet_ok in Ew.
    change (oldest (es_view s') (e_pfx e) (campaignKey e) rev). apply earlier_none; [destruct Hk; lia|done].
  - simplify_eq. destruct (waitRetry w stop key rev); by apply Hrest.
  - apply bind_Some in Hc as ([s1 r] & Hcr & [= <- <-]). unfold Campaign_create in Hcr.
    destruct (IsLeader e); simplify_eq; [by apply Hrest|].
    destruct (es_Txn s _) as [s2 [resp|err]] eqn:Et; destruct (es_txn_spec _ _ _ _ _ _ Hwf Et) as (He & _ & Hrev).
    + destruct (Hrev resp eq_refl) as (rev & Hcrv & Hk1). rewrite Hcrv in Hcr. cbn in Hcr. simplify_eq. apply Hrest; [done|].
      split; [done|]. split; [done|]. destruct He; lia.
    + simplify_eq. by apply Hrest.
  - unfold Resign in Hc. destruct (IsLeader e); [|simplify_eq; by apply Hrest].
    pose proof (es_delete_spec s (leaderKey e) Hwf) as [He _]. destruct (es_Delete s (leaderKey e)) as [s2 r2]. simplify_eq.
    split; [done|]. split; [|done]. by constructor.
Qed.

Lemma campaign_apart K s cd c s' cd' : wf_view (es_view s) -> campaign s cd c = Some (s', cd') -> apart K (es_view s) (es_view s').
Proof.
  intros Hwf Hc. destruct cd as [e pc]. unfold campaign in Hc. cbn [c_election c_pc] in Hc.
  destruct pc as [[key rev h val|key rev h val]|], c as [val'| | |w stop]; try done.
  - simplify_eq. by apply apart_refl.
  - simplify_eq. by apply apart_refl.
  - apply bind_Some in Hc as ([s1 r] & Hcr & [= <- _]). unfold Campaign_create in Hcr.
    destruct (IsLeader e); [simplify_eq; by apply apart_refl|].
    pose proof (create_apart K s (campaignKey e) val' (e_lease e) Hwf) as Hap. destruct (es_Txn s _) as [s2 [resp|err]]; [|by simplify_eq].
    apply bind_Some in Hcr as (rev & _ & Hcr). by simplify_eq.
  - unfold Resign in Hc. destruct (IsLeader e); [|simplify_eq; by apply apart_refl].
    pose proof (delete_apart K s (leaderKey e) Hwf) as Hap. destruct (es_Delete s (leaderKey e)). by simplify_eq.
Qed.

Section exclusion.
Variable K : string -> Prop.

Inductive election_step : S * gmap nat Candidate -> S * gmap nat Candidate -> Prop :=
  | es_others s s' cs : es_env s s' -> apart K (es_view s) (es_view s') -> election_step (s, cs) (s', cs)
  | es_call s s' cs i cd cd' c :
      cs !! i = Some cd -> campaign s cd c = Some (s', cd') -> election_step (s, cs) (s', <[i := cd']> cs).

Definition freshElections (cs : gmap nat Candidate) : Prop :=
  map_Forall (fun _ cd => exists lease pfx, cd = mkCandidate (NewElection lease pfx) None) cs /\
  forall i j ci cj, cs !! i = Some ci -> cs !! j = Some cj -> i <> j -> e_lease (c_election ci) <> e_lease (c_election cj).

Record elections_ok (st : S * gmap nat Candidate) : Prop := {
  eo_view : wf_view (es_view st.1);
  eo_distinct : distinct K (es_view st.1);
  eo_all : map_Forall (fun _ cd => candidate_ok (es_view st.1) cd) st.2;
  eo_keys : map_Forall (fun _ cd => K (campaignKey (c_election cd))) st.2;
  eo_leases i j ci cj : st.2 !! i = Some ci -> st.2 !! j = Some cj -> i <> j -> e_lease (c_election ci) <> e_lease (c_election cj);
}.

Lemma election_step_ok st st' : election_step st st' -> elections_ok st -> elections_ok st'.
Proof.
  intros Hs [Hv Hd Ho Hks Hl]. destruct Hs as [s s' cs He Ha|s s' cs i cd cd' c Hi Ha]; cbn [fst snd] in *.
  - apply (es_env_spec _ _ Hv) in He. constructor; cbn; [by eapply evolves_wf|by eapply apart_distinct| |done..].
    intros i cd Hi. eapply candidate_ok_evolves; [done|]. by apply (Ho i).
  - destruct (campaign_ok s cd c s' cd' Hv (Ho _ _ Hi) Ha) as (He & Ho' & Hlease & Hpfx).
    constructor; cbn; [by eapply evolves_wf|eapply apart_distinct; [done..|by eapply campaign_apart|done]| | |].
    + apply map_Forall_insert_2; [done|]. intros j cj Hj. eapply candidate_ok_evolves; [done|]. by apply (Ho j).
    + apply map_Forall_insert_2; [|done]. unfold campaignKey. rewrite Hlease, Hpfx. by apply (Hks i).
    + intros j k cj ck Hj Hk Hne. rewrite lookup_insert_Some in Hj, Hk.
      destruct Hj as [[-> <-]|[? Hj]], Hk as [[<- <-]|[? Hk]]; rewrite ?Hlease; [done|by eapply Hl|by eapply Hl|by eapply Hl].
Qed.

End exclusion.

Definition campaignKeys (cs : gmap nat Candidate) (k : string) : Prop := exists i cd, cs !! i = Some cd /\ k = campaignKey (c_election cd).

(** It believes it leads, and its key is the one it campaigned with. *)
Definition leading s (cd : Candidate) : Prop :=
  IsLeader (c_election cd) = true /\ (es_view s).1 !! campaignKey (c_election cd) = Some (leaderRev (c_election cd)).

(** C22: one leader.  Whatever calls the sessions of an election make, failed ones
    included, and whatever other clients do that do not create the keys of two of
    the sessions in one transaction: of two sessions that believe they lead, one
    has lost its key. *)
Theorem election_exclusion s0 cs0 s cs i j ci cj
    (Hv : wf_view (es_view s0)) (Hd : distinct (campaignKeys cs0) (es_view s0)) (Hf : freshElections cs0)
    (Hr : rtc (election_step (campaignKeys cs0)) (s0, cs0) (s, cs))
    (Hi : cs !! i = Some ci) (Hj : cs !! j = Some cj) (Hne : i <> j) (Hp : e_pfx (c_election ci) = e_pfx (c_election cj)) :
  ~ (leading s ci /\ leading s cj).
Proof.
  assert (H0 : elections_ok (campaignKeys cs0) (s0, cs0)).
  { destruct Hf as [Hf Hl]. constructor; [done|done| |intros k cd Hk; by exists k, cd|done].
    intros k cd Hk. destruct (Hf k cd Hk) as (lease & pfx & ->). by constructor. }
  assert (Hall : elections_ok (campaignKeys cs0) (s, cs)) by (clear -Hr H0; induction Hr; eauto using election_step_ok).
  destruct Hall as [Hw Hdis Hall Hks Hl]. cbn in Hw, Hdis, Hall, Hks, Hl. intros [[Hli Hki] [Hlj Hkj]].
  destruct (co_leader _ _ (Hall i ci Hi) Hli) as [_ Hoi]. destruct (co_leader _ _ (Hall j cj Hj) Hlj) as [_ Hoj].
  pose proof (Hks i ci Hi) as HKi. pose proof (Hks j cj Hj) as HKj. cbn in HKi, HKj.
  unfold campaignKey in *. rewrite Hp in *.
  pose proof (Hoi Hki _ _ Hkj) as H1. pose proof (Hoj Hkj _ _ Hki) as H2.
  assert (Hrev : leaderRev (c_election ci) = leaderRev (c_election cj)) by lia. rewrite Hrev in Hki.
  pose proof (Hdis _ _ _ HKi HKj Hki Hkj) as Hk. apply (inj (String.append _)) in Hk. apply fmtHex_inj in Hk. by apply (Hl i j ci cj).
Qed.

End recipes.
