(* ===== verification/ConcurrencyServers.v ===== *)
(** * Servers for locks and elections

    A key-value server that does what etcd documents, as an instance of the
    interface the recipes are proved against, with concrete runs; and the gRPC
    server of this repository over one of its stores, which ignores how a [Get] is
    to be ordered and which creation revisions it asks for. *)

From S2P Require Import Prelude GoBytes KvTypes ShardedMap MemoryEtcd EtcdFacts EtcdOps RaftCodec StoreApi EtcdApi Concurrency ConcurrencyTheorems.

(** ** The documented server *)

Record EtcdKv := mkEtcdKv { ek_kvs : gmap string KeyValue; ek_rev : Z }.

Definition ekPut (s : EtcdKv) (key val : string) (lease : Z) : EtcdKv :=
  let rev := ek_rev s + 1 in
  if ek_rev s <? int64_max then mkEtcdKv (<[key := nextKv (ek_kvs s !! key) key val lease rev]> (ek_kvs s)) rev else s.

Definition ekDelete (s : EtcdKv) (key : string) : EtcdKv := mkEtcdKv (delete key (ek_kvs s)) (ek_rev s).

Definition ekHeader (s : EtcdKv) : ResponseHeader := mkHeader 1 1 (ek_rev s) 1.

(** A transaction on the creation revision of one key. *)
Definition ekTxn (s : EtcdKv) (req : TxnRequest) : EtcdKv * result Code TxnReply :=
  match tq_Compare req, tq_Success req with
  | [cmp], [RequestPut p] =>
      match ek_kvs s !! cm_Key cmp with
      | Some kv => (s, Ok (mkTxnReply (ekHeader s) false [ResponseRange (mkRangeReply None [kv] false 1)]))
      | None =>
          if ek_rev s <? int64_max then
            let s' := ekPut s (str (pq_Key p)) (pq_Value p) (pq_Lease p) in
            (s', Ok (mkTxnReply (ekHeader s') true [ResponsePut (mkPutReply None None)]))
          else (s, Err Internal)
      end
  | _, _ => (s, Err InvalidArgument)
  end.

Definition older (a b : KeyValue) : KeyValue := if CreateRevision b <? CreateRevision a then b else a.

Definition firstCreated (l : list KeyValue) : list KeyValue :=
  match l with [] => [] | kv :: l' => [fold_left older l' kv] end.

Definition ekGet (s : EtcdKv) (g : GetOp) : result Code RangeReply :=
  let found := (List.filter (fun p => has_prefix (g_Key g) p.1 && ((g_MaxCreateRev g =? 0) || (CreateRevision p.2 <=? g_MaxCreateRev g)))
                  (map_to_list (ek_kvs s))).*2 in
  Ok (mkRangeReply (Some (ekHeader s)) (firstCreated found) false (Z.of_nat (length found))).

#[global] Instance etcdKv : EtcdServer EtcdKv := {
  es_Txn := ekTxn;
  es_Get := ekGet;
  es_Delete s key := (ekDelete s key, Ok tt);
}.

(** A transaction gives all that it puts one revision. *)
Definition ekPuts (s : EtcdKv) (kvs : list (string * string * Z)) : EtcdKv :=
  let rev := ek_rev s + 1 in
  if ek_rev s <? int64_max then
    mkEtcdKv (foldr (fun '(key, val, lease) m => <[key := nextKv (ek_kvs s !! key) key val lease rev]> m) (ek_kvs s) kvs) rev
  else s.

(** The others put, also several keys at once, and delete. *)
Definition ekView (s : EtcdKv) : View := (CreateRevision <$> ek_kvs s, ek_rev s).

Inductive ekEnv (s : EtcdKv) : EtcdKv -> Prop :=
  | ee_puts kvs : ekEnv s (ekPuts s kvs)
  | ee_delete key : ekEnv s (ekDelete s key).

Lemma ekPut_one s key val lease : ekPut s key val lease = ekPuts s [(key, val, lease)].
Proof. done. Qed.

Lemma ekPuts_evolves s kvs : wf_view (ekView s) -> evolves (ekView s) (ekView (ekPuts s kvs)).
Proof.
  intros Hwf. pose proof Hwf as [Hr Hb]. unfold ekPuts. cbn zeta. destruct (Z.ltb_spec (ek_rev s) int64_max) as [Hlt|]; [|by apply evolves_refl].
  unfold ekView in *. cbn in *. constructor; cbn; [lia|]. intros k c. rewrite !lookup_fmap.
  induction kvs as [|[[key val] lease] kvs IH]; cbn; [by left|]. rewrite lookup_insert. case_decide as He; [|done]. subst k. cbn.
  intros [= <-]. destruct (ek_kvs s !! key); cbn; [by left|right; lia].
Qed.

Lemma ekDelete_sub s key k c : (ekView (ekDelete s key)).1 !! k = Some c -> (ekView s).1 !! k = Some c.
Proof. unfold ekView, ekDelete. cbn. rewrite fmap_delete, lookup_delete_Some. by intros []. Qed.

Lemma ekDelete_evolves s key : wf_view (ekView s) -> evolves (ekView s) (ekView (ekDelete s key)).
Proof.
  intros [Hr Hb]. constructor; [cbn in *; lia|]. intros k c Hc. left. by eapply ekDelete_sub.
Qed.

Lemma ekPut_creates s key val lease k c :
  (ekView (ekPut s key val lease)).1 !! k = Some c -> (ekView s).1 !! k = Some c \/ k = key.
Proof.
  unfold ekPut. cbn zeta. destruct (_ <? _); [|by left]. unfold ekView. cbn. rewrite fmap_insert, lookup_insert_Some.
  intros [[<- _]|[_ ?]]; [by right|by left].
Qed.

#[global, refine] Instance etcdKv_laws : EtcdServerLaws EtcdKv := { es_view := ekView; es_env := ekEnv }.
Proof.
  - intros s s' Hwf []; [by apply ekPuts_evolves|by apply ekDelete_evolves].
  - intros s key val lease s' r Hwf Ht. cbn in Ht. unfold ekTxn in Ht. cbn in Ht.
    destruct (ek_kvs s !! key) as [kv|] eqn:Ek.
    + simplify_eq. split; [by apply evolves_refl|]. split; [by left|]. intros resp [= <-]. exists (CreateRevision kv). split; [done|].
      apply (wv_bound _ Hwf key). unfold ekView. cbn. by rewrite lookup_fmap, Ek.
    + destruct (Z.ltb_spec (ek_rev s) int64_max) as [Hlt|Hge]; simplify_eq.
      * split; [rewrite ekPut_one; by apply ekPuts_evolves|]. split; [apply ekPut_creates|]. intros resp [= <-]. exists (ek_rev (ekPut s key val lease)). split; [done|].
        unfold ekPut. cbn zeta. rewrite (proj2 (Z.ltb_lt _ _)) by done. destruct Hwf as [Hr _]. cbn in *. lia.
      * split; [by apply evolves_refl|]. split; [by left|done].
  - intros s pfx max r Hg Hn x c Hc. cbn in Hg. unfold ekGet in Hg. cbn zeta in Hg. injection Hg as <-. cbn in Hn.
    unfold ekView in Hc. cbn in Hc. rewrite lookup_fmap in Hc. destruct (ek_kvs s !! (pfx +:+ x)) as [kv|] eqn:Ek; [|done]. injection Hc as <-.
    set (found := List.filter _ _) in Hn. assert (Hf : found = []) by (destruct found as [|[? ?] ?]; [done|by rewrite fmap_cons in Hn]).
    assert (Hout : (pfx +:+ x, kv) ∉ found) by (rewrite Hf; apply not_elem_of_nil).
    apply (dec_stable (P := max <> 0 /\ max < CreateRevision kv)). intros Hmax. apply Hout.
    apply list_elem_of_In, filter_In. split; [by apply list_elem_of_In, elem_of_map_to_list|]. cbn.
    rewrite has_prefix_app. cbn. apply orb_true_iff. rewrite Z.eqb_eq, Z.leb_le. lia.
  - intros s key Hwf. split; [by apply ekDelete_evolves|apply ekDelete_sub].
Defined.

(** ** Concrete runs *)

Definition noKeys : EtcdKv := mkEtcdKv ∅ 1.

Lemma noKeys_wf : wf_view (es_view noKeys).
Proof. constructor; [done|]. intros *. cbn. by rewrite fmap_empty, lookup_empty. Qed.

Lemma noKeys_distinct K : distinct K (es_view noKeys).
Proof. intros k1 k2 c _ _. cbn. by rewrite fmap_empty, lookup_empty. Qed.

(** Two sessions with a mutex each on the same name. *)
Definition twoLocks : gmap nat Owner :=
  <[0%nat := mkOwner (NewMutex 10 "lock") None false]> (<[1%nat := mkOwner (NewMutex 255 "lock") None false]> ∅).

Lemma twoLocks_fresh : fresh twoLocks.
Proof.
  split.
  - intros i o Hi. unfold twoLocks in Hi. rewrite !lookup_insert_Some, lookup_empty in Hi. naive_solver.
  - intros i j oi oj Hi Hj Hne. unfold twoLocks in *. rewrite !lookup_insert_Some, lookup_empty in Hi, Hj.
    destruct Hi as [[<- <-]|[_ [[<- <-]|[_ ?]]]], Hj as [[<- <-]|[_ [[<- <-]|[_ ?]]]]; try done.
Qed.

Definition carefulb (o : Owner) (c : Choice) : bool :=
  match c with StartLock _ => negb (held (o_mutex o)) || o_holds o | _ => true end.

Fixpoint runCalls (safe : bool) (s : EtcdKv) (os : gmap nat Owner) (calls : list (nat * Choice)) : option (EtcdKv * gmap nat Owner) :=
  match calls with
  | [] => Some (s, os)
  | (i, c) :: calls' =>
      o ← os !! i;
      if safe && negb (carefulb o c) then None
      else '(s', o') ← advance s o c; runCalls safe s' (<[i := o']> os) calls'
  end.

Lemma runCalls_reach K safe calls : forall s os st, runCalls safe s os calls = Some st -> rtc (lock_step K safe) (s, os) st.
Proof.
  induction calls as [|[i c] calls IH]; intros s os st; cbn; [intros [= <-]; apply rtc_refl|].
  intros (o & Hi & Hr)%bind_Some. destruct (safe && negb (carefulb o c)) eqn:Ec; [done|].
  apply bind_Some in Hr as ([s' o'] & Ha & Hr).
  eapply rtc_l; [apply (ls_call K safe s s' os i o o' c Hi); [|done]|by apply IH].
  intros ->. destruct c; try done. cbn in *. apply negb_false_iff, orb_true_iff in Ec as [E%negb_true_iff|E]; [by left|by right].
Qed.

(** The first session has the lock, the second waits for its key to go. *)
Definition firstHolds : list (nat * Choice) := [(0%nat, StartLock false); (0%nat, Continue); (0%nat, Continue)].
Definition secondWaits : list (nat * Choice) := [(1%nat, StartLock false); (1%nat, Continue); (1%nat, Continue)].
Definition secondFails : list (nat * Choice) := [(1%nat, WatchEnds WatchClosed (Some ContextDone)); (1%nat, StartLock false)].

Definition stateAfter (calls : list (nat * Choice)) : EtcdKv * gmap nat Owner := default (noKeys, twoLocks) (runCalls false noKeys twoLocks calls).

Definition ownerOf (st : EtcdKv * gmap nat Owner) (i : nat) : Owner := default (mkOwner (NewMutex 0 "") None false) (st.2 !! i).

Lemma waiting_reach K : rtc (lock_step K true) (noKeys, twoLocks) (stateAfter (firstHolds ++ secondWaits)).
Proof. apply (runCalls_reach K true (firstHolds ++ secondWaits)). vm_compute. reflexivity. Qed.

Lemma mutex_exclusion_witness :
  let st := stateAfter (firstHolds ++ secondWaits) in
  owns st.1 (ownerOf st 0) /\ ~ owns st.1 (ownerOf st 1).
Proof.
  cbn zeta. assert (Ho : owns (stateAfter (firstHolds ++ secondWaits)).1 (ownerOf (stateAfter (firstHolds ++ secondWaits)) 0)).
  { split; vm_compute; reflexivity. }
  split; [exact Ho|].
  destruct (mutex_exclusion noKeys twoLocks (stateAfter (firstHolds ++ secondWaits)).1 (stateAfter (firstHolds ++ secondWaits)).2 0%nat
    (ownerOf (stateAfter (firstHolds ++ secondWaits)) 0)) as [_ Hothers].
  - apply noKeys_wf.
  - apply noKeys_distinct.
  - apply twoLocks_fresh.
  - apply waiting_reach.
  - vm_compute. reflexivity.
  - exact Ho.
  - apply (Hothers 1%nat); [vm_compute; reflexivity|discriminate|vm_compute; reflexivity].
Defined.

(** A mutex is not safe after a failed call.  [Lock] remembers its key before
    it waits; when the wait fails, because its context is done, the next [Lock]
    finds the key and returns nil: both sessions have the lock, and both keys are
    there. *)
Theorem lock_after_failed_lock :
  exists s os a b, rtc (lock_step (lockKeys twoLocks) false) (noKeys, twoLocks) (s, os) /\ os !! 0%nat = Some a /\ os !! 1%nat = Some b /\ owns s a /\ owns s b.
Proof.
  exists (stateAfter (firstHolds ++ secondWaits ++ secondFails)).1, (stateAfter (firstHolds ++ secondWaits ++ secondFails)).2.
  exists (ownerOf (stateAfter (firstHolds ++ secondWaits ++ secondFails)) 0), (ownerOf (stateAfter (firstHolds ++ secondWaits ++ secondFails)) 1).
  split; [apply (runCalls_reach _ false (firstHolds ++ secondWaits ++ secondFails)); vm_compute; reflexivity|].
  split; [vm_compute; reflexivity|]. split; [vm_compute; reflexivity|].
  split; split; vm_compute; reflexivity.
Qed.

(** Why the keys of two sessions must not come from one transaction: another client
    puts both, and each session finds its own key and none older. *)
Lemma keys_of_one_transaction :
  exists s os a b, rtc (lock_step (fun _ => False) true) (noKeys, twoLocks) (s, os) /\ os !! 0%nat = Some a /\ os !! 1%nat = Some b /\ owns s a /\ owns s b.
Proof.
  set (calls := firstHolds ++ [(1%nat, StartLock false); (1%nat, Continue); (1%nat, Continue)]).
  set (s1 := ekPuts noKeys [(lockKey (NewMutex 10 "lock"), ""%string, 0); (lockKey (NewMutex 255 "lock"), ""%string, 0)]).
  set (st := default (s1, twoLocks) (runCalls true s1 twoLocks calls)).
  exists st.1, st.2, (ownerOf st 0), (ownerOf st 1). split; [|by repeat split].
  eapply rtc_l; [apply (ls_env _ true noKeys s1); [constructor|by intros ???[]]|].
  apply (runCalls_reach _ true calls). vm_compute. reflexivity.
Qed.

Definition twoCandidates : gmap nat Candidate :=
  <[0%nat := mkCandidate (NewElection 10 "leader") None]> (<[1%nat := mkCandidate (NewElection 255 "leader") None]> ∅).

Lemma twoCandidates_fresh : freshElections twoCandidates.
Proof.
  split.
  - intros i o Hi. unfold twoCandidates in Hi. rewrite !lookup_insert_Some, lookup_empty in Hi. naive_solver.
  - intros i j oi oj Hi Hj Hne. unfold twoCandidates in *. rewrite !lookup_insert_Some, lookup_empty in Hi, Hj.
    destruct Hi as [[<- <-]|[_ [[<- <-]|[_ ?]]]], Hj as [[<- <-]|[_ [[<- <-]|[_ ?]]]]; try done.
Qed.

Fixpoint runCampaign (s : EtcdKv) (cs : gmap nat Candidate) (calls : list (nat * CampaignChoice)) : option (EtcdKv * gmap nat Candidate) :=
  match calls with
  | [] => Some (s, cs)
  | (i, c) :: calls' =>
      cd ← cs !! i;
      '(s', cd') ← campaign s cd c; runCampaign s' (<[i := cd']> cs) calls'
  end.

Lemma runCampaign_reach K calls : forall s cs st, runCampaign s cs calls = Some st -> rtc (election_step K) (s, cs) st.
Proof.
  induction calls as [|[i c] calls IH]; intros s cs st; cbn; [intros [= <-]; apply rtc_refl|].
  intros (cd & Hi & Hr)%bind_Some. apply bind_Some in Hr as ([s' cd'] & Ha & Hr).
  eapply rtc_l; [by apply (es_call K s s' cs i cd cd' c)|by apply IH].
Qed.

Definition elected : EtcdKv * gmap nat Candidate :=
  default (noKeys, twoCandidates) (runCampaign noKeys twoCandidates [(0%nat, StartCampaign "a"); (0%nat, CContinue); (1%nat, StartCampaign "b"); (1%nat, CContinue)]).

Definition candidateOf (i : nat) : Candidate := default (mkCandidate (NewElection 0 "") None) (elected.2 !! i).

Lemma elected_reach K : rtc (election_step K) (noKeys, twoCandidates) elected.
Proof.
  apply (runCampaign_reach K [(0%nat, StartCampaign "a"); (0%nat, CContinue); (1%nat, StartCampaign "b"); (1%nat, CContinue)]).
  vm_compute. reflexivity.
Qed.

Lemma election_exclusion_witness :
  leading elected.1 (candidateOf 0) /\ ~ (leading elected.1 (candidateOf 0) /\ leading elected.1 (candidateOf 1)).
Proof.
  split; [split; vm_compute; reflexivity|].
  apply (election_exclusion noKeys twoCandidates elected.1 elected.2 0%nat 1%nat).
  - apply noKeys_wf.
  - apply noKeys_distinct.
  - apply twoCandidates_fresh.
  - apply elected_reach.
  - vm_compute. reflexivity.
  - vm_compute. reflexivity.
  - discriminate.
  - vm_compute. reflexivity.
Defined.

(** ** The server of this repository *)

(** [client.Get] over its gRPC server.  [WithFirstCreate] asks for one key of the
    prefix, in order of creation; the handler reads neither the order nor the
    bound on the creation revision.  [prefixRangeEnd] is the client's end of a
    prefix. *)
Definition grpcServer {S : Type} `{!Store S} (prefixRangeEnd : string -> string) (clusterID memberID now : Z) : EtcdServer S := {|
  es_Txn := KV_Txn clusterID memberID now;
  es_Get s g :=
    KV_Range clusterID memberID s
      (if g_FirstCreate g then mkRangeRequest (Some (g_Key g)) (prefixRangeEnd (g_Key g)) 1 0
       else mkRangeRequest (Some (g_Key g)) "" 0 0);
  es_Delete s key :=
    let '(s', r) := KV_DeleteRange clusterID memberID s (mkDeleteRangeRequest (Some key) "" false) in
    (s', match r with Ok _ => Ok tt | Err c => Err c end);
|}.

Section metastore.
Context {M : Type} `{!KvMap M, !KvMapLaws M, !MapOrder}.
Implicit Types m : MemoryEtcd M.
Variables (prefixRangeEnd : string -> string) (clusterID memberID now : Z).
#[local] Abbreviation data m := (contents (kvData m)).

(** What the client documents: the range of a prefix has its keys. *)
Hypothesis prefix_range : forall q x, matchWatch (q +:+ "/" +:+ x) (q +:+ "/") (prefixRangeEnd (q +:+ "/")) = true.

#[local] Instance metastore : EtcdServer (MemoryEtcd M) := grpcServer prefixRangeEnd clusterID memberID now.

(** While some key is under the prefix, a [Get] finds one. *)
Lemma metastore_earlier m q x rev kv :
  wf_etcd m -> data m !! (q +:+ "/" +:+ x) = Some kv -> exists lastKey, earlier m (q +:+ "/") rev = Ok (Some lastKey).
Proof.
  intros Hwf Hk. unfold earlier. cbn [es_Get metastore grpcServer g_FirstCreate g_Key].
  unfold KV_Range. cbn [rq_Key rq_RangeEnd rq_Limit rq_Revision str default st_Range memory_store].
  cbn [ra_Kvs]. rewrite memory_range by done. change (1 >? 0) with true. cbn match.
  assert (Hin : kv ∈ rangeRecords (data m) (q +:+ "/") (prefixRangeEnd (q +:+ "/"))).
  { pose proof (wd_keyed _ _ (we_data _ Hwf)) as Hkeyed. apply elem_of_rangeRecords; [done|].
    pose proof (Hkeyed _ _ Hk) as Hkey. cbn in Hkey. rewrite Hkey. by split. }
  change (id (q +:+ "/")) with (q +:+ "/").
  destruct (rangeRecords (data m) (q +:+ "/") (prefixRangeEnd (q +:+ "/"))) as [|kv0 l]; [exfalso; rewrite elem_of_nil in Hin; done|]. exists (Key kv0). reflexivity.
Qed.

(** With the server of this repository over its in-memory store no mutex is
    ever granted.  On a name nobody uses, with a live lease, the transaction
    creates the key of the session, and the [Get] for older keys returns that same
    key, or another one of the prefix: [Lock] waits for its own key to be deleted,
    and [TryLock] takes it back. *)
Theorem metastore_lock_never_granted m (lease : Z) (name : string) (l : LeaseInfo)
    (Hwf : wf_etcd m) (Hroom : revision m + 1 <= int64_max) (Hl : leases m !! lease = Some l) (Hlive : IsExpired now (Some l) = false)
    (Hlease : lease <> 0) (Hfree : data m !! lockKey (NewMutex lease name) = None) :
  let mx := NewMutex lease name in
  exists m' rev h lastKey,
    Lock_create m false mx = Some (m', setMutex mx (lockKey mx) rev h, Go (Waiting (lockKey mx) rev)) /\
    waitGet m' (m_pfx mx) (lockKey mx) rev = Go (Watching (lockKey mx) rev lastKey) /\
    Lock_create m true mx = Some (m', mx, Go (Trying (lockKey mx) rev h)) /\
    TryLock_get m' mx (lockKey mx) rev h = (mx, Go (TryCleanup (lockKey mx))) /\
    (forall m2, wf_etcd m2 -> is_Some (data m2 !! lockKey mx) -> exists lastKey2, earlier m2 (m_pfx mx) rev = Ok (Some lastKey2)).
Proof.
  cbn zeta. set (mx := NewMutex lease name) in *. set (key := lockKey mx) in *.
  assert (Hkey : key = name +:+ "/" +:+ fmtHex lease).
  { unfold key, lockKey, mx. cbn. by rewrite str_app_assoc. }
  destruct (storeKv_spec m key "" lease Hwf Hroom) as (m' & Hst & Hwf' & Hd & Hr' & _).
  assert (Hput : putUnlocked now m key "" lease = (m', Ok (revision m + 1, None))).
  { unfold putUnlocked. by rewrite (proj2 (Z.eqb_neq lease 0) Hlease), Hl, Hlive, Hst, Hfree. }
  assert (Htxn : es_Txn m (createRequest key "" lease) =
    (m', Ok (mkTxnReply (EtcdApi.setRevision (getResponseHeader clusterID memberID m') (revision m')) true [ResponsePut (mkPutReply None None)]))).
  { cbn [es_Txn metastore grpcServer]. unfold KV_Txn, createRequest. cbn [tq_Compare tq_Success tq_Failure fmap list_fmap].
    cbn [st_Txn memory_store]. unfold Txn, txnUnlocked. cbn [forallb]. unfold evaluateCompare, convertCompare. cbn [cm_Target cm_Result cm_Key cm_TargetUnion cmp_Key].
    rewrite (Get_contents _ _ (wd_map _ _ (we_data _ Hwf))).  rewrite Hfree. cbn [compareRecord cmp_Target].
    lazymatch goal with |- context [if ?b then _ else _] => change b with true end. cbv iota.
    cbn [convertRequestOp]. change (str (pq_Key (mkPutRequest (Some key) "" lease false))) with key.
    unfold txnOps, txnOp. cbn [op_Type op_Key op_Value op_LeaseID pq_Value pq_Lease].
    rewrite Hput. done. }
  assert (Hown : is_Some (data m' !! key)) by (rewrite Hd, lookup_insert_eq; by eexists).
  assert (Hear : forall m2 rev, wf_etcd m2 -> is_Some (data m2 !! key) -> exists lastKey, earlier m2 (m_pfx mx) rev = Ok (Some lastKey)).
  { intros m2 rev Hwf2 [kv Hkv]. rewrite Hkey in Hkv. by apply (metastore_earlier m2 name (fmtHex lease) rev kv). }
  destruct (Hear m' (revision m') Hwf' Hown) as [lastKey Hlast].
  exists m', (revision m'), (EtcdApi.setRevision (getResponseHeader clusterID memberID m') (revision m')), lastKey.
  unfold Lock_create. fold key. change (m_lease mx) with lease. rewrite Htxn. split; [done|].
  split; [by unfold waitGet; rewrite Hlast|]. split; [done|]. split; [by unfold TryLock_get; rewrite Hlast|]. intros m2 Hwf2 Hm2. by apply Hear.
Qed.

End metastore.

(** A name nobody uses, and the client's end of a prefix that ends in a slash. *)
Definition grantedStore : MemoryEtcd ShardedMap := (LeaseGrant 0 NewMemoryEtcd 7 60).1.

Definition slashEnd (p : string) : string := str_take (String.length p - 1) p +:+ "0".

Lemma slashEnd_range q x : matchWatch (q +:+ "/" +:+ x) (q +:+ "/") (slashEnd (q +:+ "/")) = true.
Proof.
  assert (He : slashEnd (q +:+ "/") = q +:+ "0").
  { unfold slashEnd. rewrite str_length_app. cbn [String.length]. replace (String.length q + 1 - 1)%nat with (String.length q) by lia.
    by rewrite str_take_app. }
  rewrite He. unfold matchWatch. replace (String.eqb (q +:+ "0") "") with false.
  2:{ symmetry. apply String.eqb_neq. by destruct q. }
  rewrite <- str_app_assoc, str_leb_prefix. cbn [andb]. apply orb_true_iff. right.
  unfold str_ltb, String.ltb. by rewrite str_app_assoc, str_compare_prefix.
Qed.

Lemma grantedStore_wf : wf_etcd grantedStore.
Proof.
  pose proof (wf_NewMemoryEtcd (M := ShardedMap)) as Hwf. apply wf_setLeases; [done|].
  intros id l Hl. destruct (decide (id = 7)) as [->|Hne].
  - rewrite lookup_insert_eq in Hl. by injection Hl as <-.
  - by rewrite lookup_insert_ne in Hl by done.
Qed.

Lemma metastore_lock_never_granted_witness :
  exists m' rev h, TryLock_get (S := MemoryEtcd ShardedMap) (EtcdServer0 := grpcServer slashEnd 1 1 0) m' (NewMutex 7 "lock") (lockKey (NewMutex 7 "lock")) rev h
    = (NewMutex 7 "lock", Go (TryCleanup (lockKey (NewMutex 7 "lock")))).
Proof.
  destruct (metastore_lock_never_granted slashEnd 1 1 0 slashEnd_range grantedStore 7 "lock" (mkLease 7 60 0 ∅))
    as (m' & rev & h & lastKey & _ & _ & _ & Htry & _).
  - apply grantedStore_wf.
  - vm_compute. discriminate.
  - reflexivity.
  - vm_compute. reflexivity.
  - discriminate.
  - vm_compute. reflexivity.
  - exists m', rev, h. exact Htry.
Defined.
