(* ===== verification/MysqlHandler.v ===== *)
(** * The MySQL front end ([api/mysql/handler.go], [query.go], [auth.go])

    A connection has a handler of its own with at most one transaction; the store
    is shared.  A statement calls the store at most once, so with respect to
    other connections it is one step.  [None] is a panic.  The library that
    builds result sets is the class [MysqlLib]. *)

From stdpp Require Import pretty.
From S2P Require Import Prelude GoBytes GoStrings KvTypes ShardedMap StoreApi.

(** ** The SQL parser

    [parser.go] turns the tree of the TiDB parser into a query plan.  That parser
    and the names of its operators are the class [TidbParser]; of its trees, the
    nodes the code looks at are constructors, with one more for all others. *)

Local Open Scope go_scope.

(** ** Trees of the TiDB parser *)

(** What [GetValue] returns; [VOther] is known by its text only. *)
Inductive GoValue := VNil | VString (s : string) | VInt64 (z : Z) | VUint64 (z : Z) | VOther (text : string).

Inductive Opcode := LogicAnd | LogicOr | EQ | NE | LT | LE | GT | GE | OpcodeOther (n : Z).

(** A column is known by the lower-case form of its name. *)
Inductive ExprNode :=
  | ColumnNameExpr (name : string)
  | ValueExpr (v : GoValue)
  | BinaryOperationExpr (op : Opcode) (L R : ExprNode)
  | PatternInExpr (e : ExprNode) (l : list ExprNode)
  | PatternLikeOrIlikeExpr (e pattern : ExprNode)
  | ParenthesesExpr (e : ExprNode)
  | ExprOther.

Inductive TableRef := TableNameRef (name : string) | TableOther.

Record SelectField := mkSelectField { WildCard : bool; f_Expr : option ExprNode }.
Record LimitNode := mkLimitNode { lim_Count : option ExprNode; lim_Offset : option ExprNode }.

Record SelectStmt := mkSelectStmt {
  From : option TableRef; Fields : option (list SelectField); Where : option ExprNode; s_Limit : option LimitNode;
}.

Inductive StmtNode := Select (s : SelectStmt) | Insert | Update | Delete_ | StmtOther.

Class TidbParser := {
  tidb_Parse : string -> result string (list StmtNode);
  opcode_String : Opcode -> string;
}.

(** ** Query plans ([types.go]) *)

Inductive QueryType := QueryTypeSelect | QueryTypeInsert | QueryTypeUpdate | QueryTypeDelete.
Inductive ConditionType := ConditionTypeSimple | ConditionTypeAnd | ConditionTypeOr | ConditionTypeIn.

Inductive WhereCondition := mkWhereCondition {
  w_Type : ConditionType;
  w_Key : string;
  w_Value : GoValue;
  w_Operator : string;
  w_IsLike : bool;
  w_Prefix : string;
  w_Children : list WhereCondition;
  w_InValues : list GoValue;
}.

Record QueryPlan := mkQueryPlan {
  p_Type : QueryType; TableName : string; Columns : list string; p_Where : option WhereCondition; p_Limit : Z; p_Offset : Z;
}.

Definition QueryType_String (qt : QueryType) : string :=
  match qt with QueryTypeSelect => "SELECT" | QueryTypeInsert => "INSERT" | QueryTypeUpdate => "UPDATE" | QueryTypeDelete => "DELETE" end.

Definition ConditionType_String (ct : ConditionType) : string :=
  match ct with ConditionTypeSimple => "SIMPLE" | ConditionTypeAnd => "AND" | ConditionTypeOr => "OR" | ConditionTypeIn => "IN" end.

(** ** From trees to plans ([parser.go]) *)

Inductive ParseErr :=
  | ParseFailed (e : string) | NoStatement | UnsupportedStatement | NotYetImplemented (qt : QueryType) | WhereFailed (e : ParseErr)
  | UnsupportedWhere | NotAColumn | NotAValue | UnsupportedOperator (op : string).

Definition extractValue (e : ExprNode) : GoValue := match e with ValueExpr v => v | _ => VNil end.

(** ["%v"] *)
Definition fmtV (v : GoValue) : string :=
  match v with
  | VNil => "<nil>" | VString s => s | VInt64 z | VUint64 z => pretty z | VOther text => text
  end.

Definition extractStringValue (e : ExprNode) : string :=
  match extractValue e with VString s => s | v => fmtV v end.

Definition extractIntValue (e : ExprNode) : Z :=
  match extractValue e with VInt64 z => z | VUint64 z => wrap_i64 z | _ => -1 end.

Definition simpleCondition (key : string) (v : GoValue) (op : string) : WhereCondition :=
  mkWhereCondition ConditionTypeSimple key v op false "" [] [].

Section parser.
Context `{!TidbParser}.

Definition parseLikeExpr (e pattern : ExprNode) : result ParseErr WhereCondition :=
  match e with
  | ColumnNameExpr name =>
      let patternStr := extractStringValue pattern in
      Ok (mkWhereCondition ConditionTypeSimple name (VString patternStr) "LIKE" true (TrimRight patternStr ["%"]) [] [])
  | _ => Err NotAColumn
  end.

Definition parseInExpr (e : ExprNode) (l : list ExprNode) : result ParseErr WhereCondition :=
  match e with
  | ColumnNameExpr name =>
      let values := List.filter (fun v => match v with VNil => false | _ => true end) (extractValue <$> l) in
      Ok (mkWhereCondition ConditionTypeIn name VNil "IN" false "" [] values)
  | _ => Err NotAColumn
  end.

(** [parse] is [parseWhereExpr]. *)
Definition parseBinaryOp (parse : ExprNode -> result ParseErr WhereCondition) (op : Opcode) (L R : ExprNode) :
    result ParseErr WhereCondition :=
  let both t name :=
    left <-! parse L; right <-! parse R;
    Ok (mkWhereCondition t "" VNil name false "" [left; right] []) in
  match op with
  | LogicAnd => both ConditionTypeAnd "AND"
  | LogicOr => both ConditionTypeOr "OR"
  | EQ | NE | LT | LE | GT | GE =>
      match L with
      | ColumnNameExpr name =>
          match extractValue R with
          | VNil => Err NotAValue
          | value => Ok (simpleCondition name value (opcode_String op))
          end
      | _ => Err NotAColumn
      end
  | OpcodeOther _ => Err (UnsupportedOperator (opcode_String op))
  end.

Fixpoint parseWhereExpr (e : ExprNode) : result ParseErr WhereCondition :=
  match e with
  | BinaryOperationExpr op L R => parseBinaryOp parseWhereExpr op L R
  | PatternInExpr e l => parseInExpr e l
  | PatternLikeOrIlikeExpr e pattern => parseLikeExpr e pattern
  | ParenthesesExpr e => parseWhereExpr e
  | ColumnNameExpr _ | ValueExpr _ | ExprOther => Err UnsupportedWhere
  end.

(** A wildcard replaces the columns before it and ends the loop. *)
Definition selectColumns (fields : list SelectField) : list string :=
  iter_while (fun cols f =>
    if WildCard f then (["*"], false)
    else match f_Expr f with Some (ColumnNameExpr name) => (cols ++ [name], true) | _ => (cols, true) end) [] fields.

Definition limitOf (e : option ExprNode) : Z :=
  match e with Some e => if 0 <=? extractIntValue e then extractIntValue e else 0 | None => 0 end.

Definition parseSelectStmt (stmt : SelectStmt) : result ParseErr QueryPlan :=
  let name := match From stmt with Some (TableNameRef name) => name | _ => "" end in
  let cols := match Fields stmt with Some fields => selectColumns fields | None => [] end in
  let cols := match cols with [] => ["*"] | _ => cols end in
  where_ <-! match Where stmt with
             | None => Ok None
             | Some e => match parseWhereExpr e with Ok w => Ok (Some w) | Err err => Err (WhereFailed err) end
             end;
  let '(count, offset) := match s_Limit stmt with Some l => (limitOf (lim_Count l), limitOf (lim_Offset l)) | None => (0, 0) end in
  Ok (mkQueryPlan QueryTypeSelect name cols where_ count offset).

(** The other three kinds of statement return an error with their plan. *)
Definition parseStmt (stmt : StmtNode) : result ParseErr QueryPlan :=
  match stmt with
  | Select s => parseSelectStmt s
  | Insert => Err (NotYetImplemented QueryTypeInsert)
  | Update => Err (NotYetImplemented QueryTypeUpdate)
  | Delete_ => Err (NotYetImplemented QueryTypeDelete)
  | StmtOther => Err UnsupportedStatement
  end.

Definition Parse (sql : string) : result ParseErr QueryPlan :=
  match tidb_Parse sql with
  | Err e => Err (ParseFailed e)
  | Ok [] => Err NoStatement
  | Ok (stmt :: _) => parseStmt stmt
  end.

End parser.

(** ** Results and errors *)

Inductive Cell := CellBytes (s : string) | CellString (s : string) | CellInt (z : Z) | CellNil.

Class MysqlLib := {
  Resultset : Type;
  LibError : Type;
  BuildSimpleResultset : list string -> list (list Cell) -> result LibError Resultset;
}.

Inductive ErrorCode := ER_UNKNOWN_ERROR | ER_SYNTAX_ERROR | ER_PARSE_ERROR | ER_UNKNOWN_COM_ERROR | ER_LOCK_DEADLOCK.

(** An error of the protocol, with the store's error its text ends with. *)
Inductive MysqlError (E L : Type) :=
  | NewError (code : ErrorCode) (text : string) (cause : option E)
  | FromLib (e : L).
Arguments NewError {E L}. Arguments FromLib {E L}.

(** ** Parsing statements by hand ([query.go]) *)

Record whereClause := mkWhere { wc_key : string; isLike : bool; likePrefix : string; likePattern : string }.

Definition quote : ascii := "'".
Definition dquote : ascii := Ascii.ascii_of_nat 34.

Definition quotedBy (q : ascii) (s : string) : bool :=
  match str_at 0 s, str_at (String.length s - 1) s with
  | Some a, Some b => Ascii.eqb a q && Ascii.eqb b q
  | _, _ => false
  end.

Definition extractQuotedValue (s : string) : string :=
  let s := TrimSpace s in
  if (2 <=? String.length s)%nat && (quotedBy quote s || quotedBy dquote s)
  then str_take (String.length s - 2) (str_drop 1 s) else s.

Inductive InsertError := MissingVALUES | MissingParentheses | ExpectedKeyValue.
Inductive UpdateError := MissingSET | MissingWHERE | MissingEquals | CannotParseKey.

Section parsing.
Context `{!UnicodeCase}.

(** The key after ["key ="]; "" when there is none. *)
Definition parseKeyFromSelect (query : string) : option string :=
  match Index (ToUpper query) "WHERE" with
  | None => Some ""
  | Some whereIdx =>
      wherePart ← sliceFrom (whereIdx + 5) query;
      match Index (ToUpper wherePart) "KEY" with
      | None => Some ""
      | Some keyIdx =>
          fromKey ← sliceFrom keyIdx wherePart;
          match Index fromKey "=" with
          | None => Some ""
          | Some eqIdx =>
              valuePart ← sliceFrom (keyIdx + eqIdx + 1) wherePart;
              Some (extractQuotedValue (TrimSpace valuePart))
          end
      end
  end.

Definition parseKeyFromDelete := parseKeyFromSelect.

Definition parseKeyValueFromInsert (query : string) : option (result InsertError (string * string)) :=
  match Index (ToUpper query) "VALUES" with
  | None => Some (Err MissingVALUES)
  | Some valuesIdx =>
      rest ← sliceFrom (valuesIdx + 6) query;
      let valuesPart := TrimSpace rest in
      match Index valuesPart "(", Index valuesPart ")" with
      | Some startIdx, Some endIdx =>
          inner ← slice (startIdx + 1) endIdx valuesPart;
          Some match Split inner "," with
               | k :: v :: _ => Ok (extractQuotedValue (TrimSpace k), extractQuotedValue (TrimSpace v))
               | _ => Err ExpectedKeyValue
               end
      | _, _ => Some (Err MissingParentheses)
      end
  end.

Definition parseKeyValueFromUpdate (query : string) : option (result UpdateError (string * string)) :=
  match Index (ToUpper query) "SET", Index (ToUpper query) "WHERE" with
  | None, _ => Some (Err MissingSET)
  | Some _, None => Some (Err MissingWHERE)
  | Some setIdx, Some whereIdx =>
      part ← slice (setIdx + 3) whereIdx query;
      let setPart := TrimSpace part in
      match Index setPart "=" with
      | None => Some (Err MissingEquals)
      | Some eqIdx =>
          rest ← sliceFrom (eqIdx + 1) setPart;
          key ← parseKeyFromSelect query;
          Some (if String.eqb key "" then Err CannotParseKey else Ok (key, extractQuotedValue (TrimSpace rest)))
      end
  end.

Definition allColumns : list string := ["key"; "value"].

Definition parseSelectColumns (query : string) : option (list string) :=
  match Index (ToUpper query) "SELECT", Index (ToUpper query) "FROM" with
  | Some selectIdx, Some fromIdx =>
      if (fromIdx <=? selectIdx)%nat then Some allColumns
      else
        part ← slice (selectIdx + 6) fromIdx query;
        let columnPart := TrimSpace part in
        if String.eqb (TrimSpace (ToUpper columnPart)) "*" then Some allColumns
        else
          let cols := (fun col => TrimSpace (ToLower col)) <$> Split columnPart "," in
          let known := List.filter (fun col => String.eqb col "key" || String.eqb col "value") cols in
          Some match known with [] => allColumns | _ => known end
  | _, _ => Some allColumns
  end.

Definition parseWhereClause (query : string) : option (option whereClause) :=
  match Index (ToUpper query) "WHERE" with
  | None => Some None
  | Some whereIdx =>
      wherePart ← sliceFrom (whereIdx + 5) query;
      match Index (ToUpper wherePart) " LIKE " with
      | Some likeIdx =>
          rest ← sliceFrom (likeIdx + 6) wherePart;
          let pattern := extractQuotedValue (TrimSpace rest) in
          Some (Some (mkWhere "" true (TrimRight pattern ["%"; "*"]) pattern))
      | None =>
          match Index (ToUpper wherePart) "KEY" with
          | None => Some None
          | Some keyIdx =>
              fromKey ← sliceFrom keyIdx wherePart;
              match Index fromKey "=" with
              | None => Some None
              | Some eqIdx =>
                  valuePart ← sliceFrom (keyIdx + eqIdx + 1) wherePart;
                  Some (Some (mkWhere (extractQuotedValue (TrimSpace valuePart)) false "" ""))
              end
          end
      end
  end.

(** A LIKE is taken whatever its column.  [None] is the failed type assertion,
    which the parser's conditions never reach. *)
Definition convertWhereCondition (cond : option WhereCondition) : option (option whereClause) :=
  match cond with
  | None => Some None
  | Some c =>
      match w_Type c with
      | ConditionTypeSimple =>
          if w_IsLike c then
            match w_Value c with VString pattern => Some (Some (mkWhere "" true (w_Prefix c) pattern)) | _ => None end
          else if String.eqb (w_Operator c) "eq" && String.eqb (w_Key c) "key" then
            Some match w_Value c with VString key => Some (mkWhere key false "" "") | _ => None end
          else Some None
      | _ => Some None
      end
  end.

End parsing.

(** The last byte below 255 is incremented, those after it become 0; on the
    reversed prefix. *)
Fixpoint increment (rev : string) : option string :=
  match rev with
  | EmptyString => None
  | String c rev' =>
      if byte_val c <? 255 then Some (String (byte_of (byte_val c + 1)) rev')
      else String (byte_of 0) <$> increment rev'
  end.

Definition getPrefixEndKey (prefix : string) : string :=
  if String.eqb prefix "" then nulKey
  else match increment (str_rev prefix) with
       | Some endKey => str_rev endKey
       | None => prefix +:+ bytes_of [255]
       end.

(** ** Authentication ([auth.go]) *)

Class Sha1 := { sha1 : string -> string }.

Record AuthProvider := mkAuthProvider { ap_username : string; ap_password : string; ap_users : gmap string string }.

Inductive UserError := UserExists (name : string) | UserNotFound (name : string).

Definition NewAuthProvider (username password : string) : AuthProvider :=
  let username := if String.eqb username "" then "root" else username in
  mkAuthProvider username password {[username := password]}.

Definition setUsers (ap : AuthProvider) (u : gmap string string) : AuthProvider := mkAuthProvider (ap_username ap) (ap_password ap) u.

Definition CheckAuth (ap : AuthProvider) (username password : string) : bool :=
  match ap_users ap !! username with
  | None => false
  | Some expectedPass => String.eqb expectedPass "" || String.eqb password expectedPass
  end.

Definition AddUser (ap : AuthProvider) (username password : string) : AuthProvider * result UserError unit :=
  match ap_users ap !! username with
  | Some _ => (ap, Err (UserExists username))
  | None => (setUsers ap (<[username := password]> (ap_users ap)), Ok tt)
  end.

Definition RemoveUser (ap : AuthProvider) (username : string) : AuthProvider * result UserError unit :=
  match ap_users ap !! username with
  | None => (ap, Err (UserNotFound username))
  | Some _ => (setUsers ap (delete username (ap_users ap)), Ok tt)
  end.

Definition UpdatePassword (ap : AuthProvider) (username newPassword : string) : AuthProvider * result UserError unit :=
  match ap_users ap !! username with
  | None => (ap, Err (UserNotFound username))
  | Some _ => (setUsers ap (<[username := newPassword]> (ap_users ap)), Ok tt)
  end.

Definition hexDigit (z : Z) : ascii := byte_of (if z <? 10 then 48 + z else 55 + z).

Fixpoint hexUpper (s : string) : string :=
  match s with
  | EmptyString => ""
  | String c s' => String (hexDigit (byte_val c / 16)) (String (hexDigit (byte_val c mod 16)) (hexUpper s'))
  end.

Definition HashPassword `{!Sha1} (password : string) : string :=
  if String.eqb password "" then "" else hexUpper (sha1 (sha1 password)).

(** ** The handler of a connection ([handler.go]) *)

Inductive TxOpType := TxPUT | TxDELETE.
Record TxOp := mkTxOp { tx_OpType : TxOpType; tx_Key : string; tx_Value : string }.

Record Transaction := mkTransaction {
  active : bool; startRev : Z; operations : list TxOp; readSet : gmap string Z;
}.

Record MySQLHandler := mkHandler { h_user : string; h_password : string; transaction : option Transaction }.

(** The password of a connection is the one the provider was made with. *)
Definition NewMySQLHandler (ap : AuthProvider) : MySQLHandler := mkHandler (ap_username ap) (ap_password ap) None.

Definition setTransaction (h : MySQLHandler) (tx : option Transaction) : MySQLHandler := mkHandler (h_user h) (h_password h) tx.
Definition removeTransaction (h : MySQLHandler) : MySQLHandler := setTransaction h None.

(** The transaction of the connection, if it is active. *)
Definition activeTx (h : MySQLHandler) : option Transaction :=
  match transaction h with Some tx => if active tx then Some tx else None | None => None end.

Definition buffer (tx : Transaction) (op : TxOp) : Transaction :=
  mkTransaction (active tx) (startRev tx) (operations tx ++ [op]) (readSet tx).

Definition trackReads (tx : Transaction) (kvs : list KeyValue) : Transaction :=
  mkTransaction (active tx) (startRev tx) (operations tx)
    (fold_left (fun m kv => <[Key kv := ModRevision kv]> m) kvs (readSet tx)).

Section handler.
Context {S : Type} `{!Store S, !MysqlLib, !TidbParser, !UnicodeCase, !MapOrder}.
Implicit Types (s : S) (h : MySQLHandler).

#[local] Abbreviation Error := (MysqlError StoreErr LibError).

Record Result := mkResult { AffectedRows : Z; rows : option Resultset }.

(** What a statement leaves and answers. *)
#[local] Abbreviation Outcome := (S * MySQLHandler * result Error Result)%type.

Definition done_ (n : Z) : result Error Result := Ok (mkResult n None).

Definition withRows (n : Z) (names : list string) (data : list (list Cell)) : result Error Result :=
  match BuildSimpleResultset names data with
  | Ok rs => Ok (mkResult n (Some rs))
  | Err e => Err (FromLib e)
  end.

Definition storeError (text : string) (e : StoreErr) : Error := NewError ER_UNKNOWN_ERROR text (Some e).

(** *** SELECT *)

Definition handleConstantSelect (query : string) : option (result Error Result) :=
  match Index (ToUpper query) "SELECT" with
  | None => Some (Err (NewError ER_PARSE_ERROR "invalid SELECT query" None))
  | Some selectIdx =>
      rest ← sliceFrom (selectIdx + 6) query;
      let expr := TrimSpace rest in
      Some (withRows 0 [expr] [[CellString expr]])
  end.

Definition handleSystemSelect (query : string) : result Error Result :=
  let queryUpper := ToUpper query in
  let '(columnName, value) :=
    if Contains queryUpper "VERSION()" then ("VERSION()", "8.0.0-MetaStore")
    else if Contains queryUpper "@@VERSION_COMMENT" then ("@@version_comment", "MetaStore MySQL Compatible Server")
    else if Contains queryUpper "@@TX_ISOLATION" || Contains queryUpper "@@TRANSACTION_ISOLATION"
    then ("@@tx_isolation", "REPEATABLE-READ")
    else if Contains queryUpper "$$" then ("$$", "$$")
    else ("value", "") in
  withRows 0 [columnName] [[CellString value]].

(** The columns and the condition: from the plan, or by hand without one. *)
Definition selectPlan (query : string) : option (list string * option whereClause) :=
  '(columns, where_) ←
    match Parse query with
    | Ok plan => w ← convertWhereCondition (p_Where plan); Some (Columns plan, w)
    | Err _ => columns ← parseSelectColumns query; w ← parseWhereClause query; Some (columns, w)
    end;
  Some (match columns with [] => allColumns | _ => columns end, where_).

Definition readRevision (h : MySQLHandler) : Z := match activeTx h with Some tx => startRev tx | None => 0 end.

Definition selectRange s h (where_ : option whereClause) : result StoreErr RangeResponse :=
  match where_ with
  | None => st_Range s "" nulKey 100 (readRevision h)
  | Some w =>
      if isLike w then st_Range s (likePrefix w) (getPrefixEndKey (likePrefix w)) 1000 (readRevision h)
      else st_Range s (wc_key w) "" 1 (readRevision h)
  end.

Definition cellOf (kv : KeyValue) (col : string) : Cell :=
  if String.eqb col "key" then CellBytes (Key kv) else if String.eqb col "value" then CellBytes (Value kv) else CellNil.

Definition handleSelect s h (query : string) : option (MySQLHandler * result Error Result) :=
  let queryUpper := ToUpper query in
  if Contains queryUpper "@@" || Contains queryUpper "VERSION()" || Contains queryUpper "$$" then Some (h, handleSystemSelect query)
  else if negb (Contains queryUpper " FROM ") then r ← handleConstantSelect query; Some (h, r)
  else
    '(columns, where_) ← selectPlan query;
    Some match selectRange s h where_ with
         | Err e => (h, Err (storeError "failed to query: " e))
         | Ok resp =>
             let h' := match activeTx h with Some tx => setTransaction h (Some (trackReads tx (rr_Kvs resp))) | None => h end in
             let data := (fun kv => cellOf kv <$> columns) <$> rr_Kvs resp in
             (h', withRows (Z.of_nat (length data)) columns data)
         end.

(** Not called by [HandleQuery]. *)
Definition handleSelectAll s : result Error Result :=
  match st_Range s "" nulKey 100 0 with
  | Err e => Err (storeError "failed to query: " e)
  | Ok resp =>
      let data := (fun kv => [CellBytes (Key kv); CellBytes (Value kv)]) <$> rr_Kvs resp in
      withRows (Z.of_nat (length data)) allColumns data
  end.

(** *** Writes: kept for COMMIT in a transaction, done at once otherwise *)

Definition insertText (e : InsertError) : string :=
  match e with
  | MissingVALUES => "invalid INSERT syntax: missing VALUES"
  | MissingParentheses => "invalid INSERT syntax: missing parentheses"
  | ExpectedKeyValue => "invalid INSERT syntax: expected (key, value)"
  end.

Definition updateText (e : UpdateError) : string :=
  match e with
  | MissingSET => "invalid UPDATE syntax: missing SET"
  | MissingWHERE => "invalid UPDATE syntax: missing WHERE"
  | MissingEquals => "invalid UPDATE syntax: missing = in SET"
  | CannotParseKey => "invalid UPDATE syntax: cannot parse key"
  end.

(** What [handleInsert] and [handleUpdate] do with a key and a value. *)
Definition putRow (now : Z) s h (key value text : string) : Outcome :=
  match activeTx h with
  | Some tx => (s, setTransaction h (Some (buffer tx (mkTxOp TxPUT key value))), done_ 1)
  | None =>
      match st_PutWithLease now s key value 0 with
      | (s', Ok _) => (s', h, done_ 1)
      | (s', Err e) => (s', h, Err (storeError text e))
      end
  end.

Definition handleInsert (now : Z) s h (query : string) : option Outcome :=
  parsed ← parseKeyValueFromInsert query;
  Some match parsed with
       | Err e => (s, h, Err (NewError ER_SYNTAX_ERROR (insertText e) None))
       | Ok (key, value) => putRow now s h key value "failed to insert: "
       end.

Definition handleUpdate (now : Z) s h (query : string) : option Outcome :=
  parsed ← parseKeyValueFromUpdate query;
  Some match parsed with
       | Err e => (s, h, Err (NewError ER_SYNTAX_ERROR (updateText e) None))
       | Ok (key, value) => putRow now s h key value "failed to update: "
       end.

Definition handleDelete s h (query : string) : option Outcome :=
  key ← parseKeyFromDelete query;
  Some (if String.eqb key "" then (s, h, Err (NewError ER_SYNTAX_ERROR "invalid DELETE syntax" None))
        else match activeTx h with
             | Some tx => (s, setTransaction h (Some (buffer tx (mkTxOp TxDELETE key ""))), done_ 1)
             | None =>
                 match st_DeleteRange s key "" with
                 | (s', Ok (deleted, _, _)) => (s', h, done_ (wrap_u64 deleted))
                 | (s', Err e) => (s', h, Err (storeError "failed to delete: " e))
                 end
             end).

(** *** Transactions *)

(** A comparison per key read, in the order of the map. *)
Definition commitCompares (tx : Transaction) : list Compare :=
  (fun p => mkCompare CompareMod CompareEqual p.1 (mkCompareUnion 0 0 p.2 "" 0)) <$> range_map (readSet tx).

Definition commitOp (op : TxOp) : Op :=
  match tx_OpType op with
  | TxPUT => mkOp OpPut (tx_Key op) "" (tx_Value op) 0 0
  | TxDELETE => mkOp OpDelete (tx_Key op) "" "" 0 0
  end.

Definition createTransaction s h : MySQLHandler := setTransaction h (Some (mkTransaction true (st_CurrentRevision s) [] ∅)).

Definition handleBegin s h : MySQLHandler * result Error Result :=
  match activeTx h with
  | Some _ => (h, Err (NewError ER_UNKNOWN_ERROR "transaction already active" None))
  | None => (createTransaction s h, done_ 0)
  end.

Definition conflictText : string := "transaction conflict: data was modified by another transaction".

Definition handleCommit (now : Z) s h : Outcome :=
  match activeTx h with
  | None => (s, h, done_ 0)
  | Some tx =>
      match operations tx with
      | [] => (s, removeTransaction h, done_ 0)
      | ops =>
          match st_Txn now s (commitCompares tx) (commitOp <$> ops) [] with
          | (s', Err e) => (s', removeTransaction h, Err (storeError "transaction commit failed: " e))
          | (s', Ok resp) =>
              (s', removeTransaction h,
               if negb (tr_Succeeded resp) then Err (NewError ER_LOCK_DEADLOCK conflictText None)
               else done_ (Z.of_nat (length ops)))
          end
      end
  end.

Definition handleRollback h : MySQLHandler * result Error Result :=
  match activeTx h with None => (h, done_ 0) | Some _ => (removeTransaction h, done_ 0) end.

(** *** The rest *)

Definition handleShowDatabases : result Error Result := withRows 0 ["Database"] [[CellString "metastore"]].
Definition handleShowTables : result Error Result := withRows 0 ["Tables_in_metastore"] [[CellString "kv"]].

Definition handleDescribe : result Error Result :=
  withRows 0 ["Field"; "Type"; "Null"; "Key"; "Default"; "Extra"]
    [[CellString "key"; CellString "varchar(1024)"; CellString "NO"; CellString "PRI"; CellNil; CellString ""];
     [CellString "value"; CellString "blob"; CellString "YES"; CellString ""; CellNil; CellString ""]].

(** The error of the library is dropped. *)
Definition handlePing : result Error Result :=
  Ok (mkResult 0 match BuildSimpleResultset ["result"] [[CellInt 1]] with Ok rs => Some rs | Err _ => None end).

(** An answer that changes nothing. *)
Definition answers (s : S) h (r : result Error Result) : option Outcome := Some (s, h, r).

Definition HandleQuery (now : Z) s h (query : string) : option Outcome :=
  let query := TrimSpace query in
  let queryUpper := ToUpper query in
  let starts p := has_prefix p queryUpper in
  if starts "SELECT" then '(h', r) ← handleSelect s h query; Some (s, h', r)
  else if starts "INSERT" then handleInsert now s h query
  else if starts "UPDATE" then handleUpdate now s h query
  else if starts "DELETE" then handleDelete s h query
  else if starts "USE" then answers s h (done_ 0)
  else if starts "BEGIN" || String.eqb queryUpper "START TRANSACTION" then
    let '(h', r) := handleBegin s h in Some (s, h', r)
  else if starts "COMMIT" then Some (handleCommit now s h)
  else if starts "ROLLBACK" then let '(h', r) := handleRollback h in Some (s, h', r)
  else if starts "SHOW DATABASES" then answers s h handleShowDatabases
  else if starts "SHOW TABLES" then answers s h handleShowTables
  else if starts "DESCRIBE" || starts "DESC" then answers s h handleDescribe
  else if String.eqb queryUpper "PING" || starts "SELECT 1" then answers s h handlePing
  else if starts "SET" then answers s h (done_ 0)
  else answers s h (Err (NewError ER_UNKNOWN_COM_ERROR ("unsupported SQL command: " +:+ query) None)).

Definition UseDB (dbName : string) : result Error unit := Ok tt.

Definition HandleStmtPrepare (query : string) : result Error (Z * Z) :=
  Err (NewError ER_UNKNOWN_COM_ERROR "prepared statements not yet supported" None).
Definition HandleStmtExecute (query : string) : result Error Result :=
  Err (NewError ER_UNKNOWN_COM_ERROR "prepared statements not yet supported" None).
Definition HandleStmtClose : result Error unit := Ok tt.

End handler.
