(* ===== verification/MysqlServer.v ===== *)
(** * Starting and stopping the MySQL server ([api/mysql/server.go])

    A server has a goroutine that accepts connections and one for each of them;
    [Stop] cancels the context, closes the listener and the connections it knows,
    and waits for the goroutines.  A step is what a goroutine does between two
    points where another can come in.  What blocks is an event: a peer that
    connects, a handshake or a command that ends.  A connection is known by the
    number it gets; what its commands do is in [MysqlHandler]. *)

From S2P Require Import Prelude.

(** ** Goroutines *)

(** [acceptConnections]: in [Accept], with its error, with a connection that has no
    number yet, before it is stored, before [wg.Add], before its goroutine is started,
    before [wg.Done]. *)
Inductive AcceptPc :=
  | Accepting | AcceptFailed | Numbering | Storing (connID : Z) | Adding (connID : Z) | Spawning (connID : Z)
  | AcceptDone | AcceptEnded.

(** [handleConnection]: in the handshake of [NewConn], at the [select], in
    [HandleCommand], and in the deferred calls. *)
Inductive ConnPc := Greeting | Selecting | Commanding | RollingBack | Closing | Forgetting | Finishing | ConnEnded.

(** The calls of [Start] and [Stop].  [must] has the connections stored when
    [Range] began that it has not come to yet. *)
Inductive CallPc :=
  | StartSwap | StartListen | StartAdd | StartSpawn | StartReturned (ok : bool)
  | StopSwap | StopCancel | StopListener | StopRange (must : gset Z) | StopWait | StopReturned.

Record Server := mkServer {
  running : bool;
  cancelled : bool;
  listening : bool;
  connections : gset Z;
  connCounter : Z;
  wg : Z;
  open : gset Z;
  acceptors : list AcceptPc;
  handlers : list (Z * ConnPc);
  callers : list CallPc;
}.

Definition NewServer : Server := mkServer false false false ∅ 0 0 ∅ [] [] [].

Definition setFlags (s : Server) (r c l : bool) : Server :=
  mkServer r c l (connections s) (connCounter s) (wg s) (open s) (acceptors s) (handlers s) (callers s).
Definition setConnections (s : Server) (cs : gset Z) : Server :=
  mkServer (running s) (cancelled s) (listening s) cs (connCounter s) (wg s) (open s) (acceptors s) (handlers s) (callers s).
Definition setOpen (s : Server) (os : gset Z) : Server :=
  mkServer (running s) (cancelled s) (listening s) (connections s) (connCounter s) (wg s) os (acceptors s) (handlers s) (callers s).
Definition addWg (n : Z) (s : Server) : Server :=
  mkServer (running s) (cancelled s) (listening s) (connections s) (connCounter s) (wg s + n) (open s) (acceptors s) (handlers s) (callers s).
Definition setAcceptors (s : Server) (l : list AcceptPc) : Server :=
  mkServer (running s) (cancelled s) (listening s) (connections s) (connCounter s) (wg s) (open s) l (handlers s) (callers s).
Definition setHandlers (s : Server) (l : list (Z * ConnPc)) : Server :=
  mkServer (running s) (cancelled s) (listening s) (connections s) (connCounter s) (wg s) (open s) (acceptors s) l (callers s).
Definition setCallers (s : Server) (l : list CallPc) : Server :=
  mkServer (running s) (cancelled s) (listening s) (connections s) (connCounter s) (wg s) (open s) (acceptors s) (handlers s) l.

(** [connCounter.Add(1)]; the connection is open. *)
Definition number (s : Server) : Server * Z :=
  let id := wrap_u64 (connCounter s + 1) in
  (mkServer (running s) (cancelled s) (listening s) (connections s) id (wg s) ({[id]} ∪ open s) (acceptors s) (handlers s)
     (callers s), id).

(** The next step of [acceptConnections].  [conn]: whether [Accept] returns a
    connection; without a listener it fails. *)
Definition accept_step (conn : bool) (s : Server) (pc : AcceptPc) : Server * AcceptPc :=
  match pc with
  | Accepting => (s, if conn && listening s then Numbering else AcceptFailed)
  | AcceptFailed => (s, if cancelled s then AcceptDone else Accepting)
  | Numbering => let '(s', id) := number s in (s', Storing id)
  | Storing id => (setConnections s ({[id]} ∪ connections s), Adding id)
  | Adding id => (addWg 1 s, Spawning id)
  | Spawning id => (setHandlers s (handlers s ++ [(id, Greeting)]), Accepting)
  | AcceptDone => (addWg (-1) s, AcceptEnded)
  | AcceptEnded => (s, AcceptEnded)
  end.

(** How a handshake or a command ends; with the connection closed it fails. *)
Inductive ConnResult := Succeeded | TimedOut | Failed.

Definition outcome (s : Server) (id : Z) (r : ConnResult) : ConnResult := if decide (id ∈ open s) then r else Failed.

Definition conn_step (r : ConnResult) (s : Server) (id : Z) (pc : ConnPc) : Server * ConnPc :=
  match pc with
  | Greeting => (s, match outcome s id r with Succeeded => Selecting | _ => Closing end)
  | Selecting => (s, if cancelled s then RollingBack else Commanding)
  | Commanding => (s, match outcome s id r with Failed => RollingBack | _ => Selecting end)
  | RollingBack => (s, Closing)
  | Closing => (setOpen s (open s ∖ {[id]}), Forgetting)
  | Forgetting => (setConnections s (connections s ∖ {[id]}), Finishing)
  | Finishing => (addWg (-1) s, ConnEnded)
  | ConnEnded => (s, ConnEnded)
  end.

(** The next step of a call.  [listen]: whether [net.Listen] succeeds; [id]: the
    connection [Range] comes to.  A connection stored while [Range] runs may be visited
    or not. *)
Definition call_step (listen : bool) (id : Z) (s : Server) (pc : CallPc) : Server * CallPc :=
  match pc with
  | StartSwap => if running s then (s, StartReturned false) else (setFlags s true (cancelled s) (listening s), StartListen)
  | StartListen =>
      if listen then (setFlags s (running s) (cancelled s) true, StartAdd)
      else (setFlags s false (cancelled s) (listening s), StartReturned false)
  | StartAdd => (addWg 1 s, StartSpawn)
  | StartSpawn => (setAcceptors s (acceptors s ++ [Accepting]), StartReturned true)
  | StartReturned ok => (s, StartReturned ok)
  | StopSwap => if running s then (setFlags s false (cancelled s) (listening s), StopCancel) else (s, StopReturned)
  | StopCancel => (setFlags s (running s) true (listening s), StopListener)
  | StopListener => (setFlags s (running s) (cancelled s) false, StopRange (connections s))
  | StopRange must =>
      if decide (id ∈ connections s) then
        (setConnections (setOpen s (open s ∖ {[id]})) (connections s ∖ {[id]}), StopRange (must ∖ {[id]}))
      else if decide (must ∩ connections s = ∅) then (s, StopWait)
      else (s, StopRange must)
  | StopWait => if wg s =? 0 then (s, StopReturned) else (s, StopWait)
  | StopReturned => (s, StopReturned)
  end.

(** ** Runs *)

Inductive Event :=
  | EStart | EStop
  | ECall (i : nat) (listen : bool) (id : Z)
  | EAccept (i : nat) (conn : bool)
  | EConn (i : nat) (r : ConnResult).

Definition step (s : Server) (e : Event) : Server :=
  match e with
  | EStart => setCallers s (callers s ++ [StartSwap])
  | EStop => setCallers s (callers s ++ [StopSwap])
  | ECall i listen id =>
      match callers s !! i with
      | Some pc => let '(s', pc') := call_step listen id s pc in setCallers s' (<[i := pc']> (callers s'))
      | None => s
      end
  | EAccept i conn =>
      match acceptors s !! i with
      | Some pc => let '(s', pc') := accept_step conn s pc in setAcceptors s' (<[i := pc']> (acceptors s'))
      | None => s
      end
  | EConn i r =>
      match handlers s !! i with
      | Some (id, pc) => let '(s', pc') := conn_step r s id pc in setHandlers s' (<[i := (id, pc')]> (handlers s'))
      | None => s
      end
  end.

Definition run (s : Server) (events : list Event) : Server := fold_left step events s.

(** ** Accounting

    The group counts every goroutine, from its [wg.Add] on; a connection that is open
    or stored is in the hands of one of them. *)

Definition acceptWeight (a : AcceptPc) : Z := match a with AcceptEnded => 0 | Spawning _ => 2 | _ => 1 end.
Definition connWeight (p : Z * ConnPc) : Z := match p.2 with ConnEnded => 0 | _ => 1 end.
Definition callWeight (c : CallPc) : Z := match c with StartSpawn => 1 | _ => 0 end.

(** Who is going to close, and to forget, a connection. *)
Definition acceptCloses (id : Z) (a : AcceptPc) : Prop :=
  match a with Storing i | Adding i | Spawning i => i = id | _ => False end.
Definition acceptForgets (id : Z) (a : AcceptPc) : Prop := match a with Adding i | Spawning i => i = id | _ => False end.
Definition connCloses (id : Z) (p : Z * ConnPc) : Prop :=
  p.1 = id /\ match p.2 with Greeting | Selecting | Commanding | RollingBack | Closing => True | _ => False end.
Definition connForgets (id : Z) (p : Z * ConnPc) : Prop := connCloses id p \/ p = (id, Forgetting).

Record inv (s : Server) : Prop := {
  inv_wg : wg s = totalOf acceptWeight (acceptors s) + totalOf connWeight (handlers s) + totalOf callWeight (callers s);
  inv_open id : id ∈ open s -> Exists (acceptCloses id) (acceptors s) \/ Exists (connCloses id) (handlers s);
  inv_stored id : id ∈ connections s -> Exists (acceptForgets id) (acceptors s) \/ Exists (connForgets id) (handlers s);
}.

Lemma mysql_inv_init : inv NewServer.
Proof. split; cbn; [done|set_solver..]. Qed.

Lemma Exists_insert_new {A} (P : A -> Prop) l i x y : l !! i = Some x -> P y -> Exists P (<[i := y]> l).
Proof.
  intros Hi Hy. apply Exists_exists. exists y. split; [|done]. apply list_elem_of_lookup. exists i.
  apply list_lookup_insert_eq. by eapply lookup_lt_Some.
Qed.

(** A step of one entry loses what held for it only. *)
Lemma Exists_insert_or {A} (P : A -> Prop) l i x y : l !! i = Some x -> Exists P l -> P x \/ Exists P (<[i := y]> l).
Proof.
  rewrite !Exists_exists. intros Hi (z & [j Hj]%list_elem_of_lookup & Hz). destruct (decide (i = j)) as [->|Hne].
  - left. congruence.
  - right. exists z. split; [|done]. apply list_elem_of_lookup. exists j. by rewrite list_lookup_insert_ne.
Qed.

Lemma Exists_handover {A B} (P : A -> Prop) (Q : B -> Prop) l m new i x y :
  l !! i = Some x -> (P x -> P y \/ Exists Q new) -> Exists P l \/ Exists Q m -> Exists P (<[i := y]> l) \/ Exists Q (m ++ new).
Proof.
  intros Hi Hxy [H|H]; [|right; apply Exists_app; by left]. destruct (Exists_insert_or P l i x y Hi H) as [Hx|]; [|by left].
  destruct (Hxy Hx); [left; by eapply Exists_insert_new|right; apply Exists_app; by right].
Qed.

Ltac weigh := cbn [wg addWg setAcceptors setHandlers setCallers setOpen setConnections setFlags number acceptors handlers callers
  open connections running cancelled listening connCounter] in *.

(** A step of an acceptor: what it held it goes on holding, or hands over. *)
Lemma inv_accept_frame s s' new i pc pc' :
  inv s -> acceptors s !! i = Some pc -> acceptors s' = acceptors s -> handlers s' = handlers s ++ new -> callers s' = callers s ->
  wg s' = wg s - acceptWeight pc + acceptWeight pc' + totalOf connWeight new ->
  (forall id, id ∈ open s' -> id ∈ open s \/ acceptCloses id pc') ->
  (forall id, id ∈ connections s' -> id ∈ connections s \/ acceptForgets id pc') ->
  (forall id, acceptCloses id pc -> acceptCloses id pc' \/ Exists (connCloses id) new) ->
  (forall id, acceptForgets id pc -> acceptForgets id pc' \/ Exists (connForgets id) new) ->
  inv (setAcceptors s' (<[i := pc']> (acceptors s'))).
Proof.
  intros [Hw Ho Hs] Hi Ha Hh Hcl Hwg Ho' Hs' Hc Hf. split; weigh; rewrite ?Ha, ?Hh, ?Hcl.
  - rewrite (totalOf_insert _ _ _ _ _ Hi), totalOf_app. lia.
  - intros id [Hx|?]%Ho'; [|left; by eapply Exists_insert_new]. eapply Exists_handover; [done|apply Hc|by apply Ho].
  - intros id [Hx|?]%Hs'; [|left; by eapply Exists_insert_new]. eapply Exists_handover; [done|apply Hf|by apply Hs].
Qed.

Lemma inv_accept s i pc conn s' pc' : inv s -> acceptors s !! i = Some pc -> accept_step conn s pc = (s', pc') ->
  inv (setAcceptors s' (<[i := pc']> (acceptors s'))).
Proof.
  intros HI Hi Hstep.
  assert (Hnew : exists new, handlers s' = handlers s ++ new /\ match pc with Spawning id => new = [(id, Greeting)] | _ => new = [] end).
  { destruct pc; cbn in Hstep; injection Hstep as <- _; weigh; eexists; (split; [|reflexivity]); by rewrite ?app_nil_r. }
  destruct Hnew as (new & Hh & Hnew).
  destruct pc as [| | |id|id|id| |]; cbn in Hstep; injection Hstep as <- <-; subst new;
    (eapply inv_accept_frame; [done|done|done|exact Hh|done|weigh; cbn|weigh..]);
    repeat case_match; cbn; try lia; try set_solver; intros x; try (by left); try done; try (by intros ->; left).
  all: intros ->; right; constructor; by (left + idtac).
Qed.

(** A step of a connection. *)
Lemma inv_conn s i id pc r s' pc' : inv s -> handlers s !! i = Some (id, pc) -> conn_step r s id pc = (s', pc') ->
  inv (setHandlers s' (<[i := (id, pc')]> (handlers s'))).
Proof.
  intros [Hw Ho Hs] Hi Hstep.
  assert (Hsame : acceptors s' = acceptors s /\ handlers s' = handlers s /\ callers s' = callers s).
  { destruct pc; cbn in Hstep; injection Hstep as <- _; done. }
  destruct Hsame as (Ha & Hh & Hcl).
  assert (Hwg : wg s' = wg s - connWeight (id, pc) + connWeight (id, pc')).
  { destruct pc; cbn in Hstep; injection Hstep as <- <-; weigh; cbn; repeat case_match; cbn; lia. }
  assert (Hopen : forall x, x ∈ open s' -> x ∈ open s /\ (connCloses x (id, pc) -> connCloses x (id, pc'))).
  { intros x. destruct pc; cbn in Hstep; injection Hstep as <- <-; weigh; repeat case_match; unfold connCloses; set_solver. }
  assert (Hstored : forall x, x ∈ connections s' -> x ∈ connections s /\ (connForgets x (id, pc) -> connForgets x (id, pc'))).
  { intros x. destruct pc; cbn in Hstep; injection Hstep as <- <-; weigh; repeat case_match; unfold connForgets, connCloses; cbn;
      try (intros Hx; split; [done|]; intros [[-> Hf]|Hf]; try done; try (by left); by right); set_solver. }
  split; weigh; rewrite ?Ha, ?Hh, ?Hcl.
  - rewrite (totalOf_insert _ _ _ _ _ Hi). lia.
  - intros x [Hx Hc]%Hopen. destruct (Ho x Hx) as [?|H]; [by left|]. right.
    destruct (Exists_insert_or _ _ _ _ (id, pc') Hi H) as [H'|]; [|done]. eapply Exists_insert_new; [done|by apply Hc].
  - intros x [Hx Hc]%Hstored. destruct (Hs x Hx) as [?|H]; [by left|]. right.
    destruct (Exists_insert_or _ _ _ _ (id, pc') Hi H) as [H'|]; [|done]. eapply Exists_insert_new; [done|by apply Hc].
Qed.

Lemma inv_call s i pc listen id s' pc' : inv s -> callers s !! i = Some pc -> call_step listen id s pc = (s', pc') ->
  inv (setCallers s' (<[i := pc']> (callers s'))).
Proof.
  intros [Hw Ho Hs] Hi Hstep.
  assert (Hsame : handlers s' = handlers s /\ callers s' = callers s /\ open s' ⊆ open s /\ connections s' ⊆ connections s /\
    exists new, acceptors s' = acceptors s ++ new /\
      wg s' = wg s - callWeight pc + callWeight pc' + totalOf acceptWeight new).
  { destruct pc; cbn in Hstep; repeat case_match; simplify_eq; weigh; (split_and!; [done|done|set_solver|set_solver|]);
      ((exists []; rewrite app_nil_r; cbn; split; [done|lia]) || (eexists; split; [reflexivity|cbn; lia])). }
  destruct Hsame as (Hh & Hcl & Hop & Hst & new & Ha & Hwg). split; weigh; rewrite ?Ha, ?Hh, ?Hcl.
  - rewrite (totalOf_insert _ _ _ _ _ Hi), totalOf_app. lia.
  - intros x Hx%Hop. destruct (Ho x Hx); [left; apply Exists_app; by left|by right].
  - intros x Hx%Hst. destruct (Hs x Hx); [left; apply Exists_app; by left|by right].
Qed.

Lemma mysql_inv_step s e : inv s -> inv (step s e).
Proof.
  intros HI. destruct e as [| |i listen id|i conn|i r]; cbn [step].
  1,2: destruct HI as [Hw Ho Hs]; split; weigh; rewrite ?totalOf_app; cbn; [lia|done|done].
  - destruct (callers s !! i) as [pc|] eqn:E; [|done]. destruct (call_step listen id s pc) as [s' pc'] eqn:E'. by eapply inv_call.
  - destruct (acceptors s !! i) as [pc|] eqn:E; [|done]. destruct (accept_step conn s pc) as [s' pc'] eqn:E'. by eapply inv_accept.
  - destruct (handlers s !! i) as [[id pc]|] eqn:E; [|done]. destruct (conn_step r s id pc) as [s' pc'] eqn:E'. by eapply inv_conn.
Qed.

Lemma mysql_inv_run events : forall s, inv s -> inv (run s events).
Proof. induction events as [|e es IH]; intros s HI; [done|]. by apply IH, mysql_inv_step. Qed.

(** Nothing is left when the group is at 0. *)
Lemma inv_zero s : inv s -> 0 <= wg s /\ (wg s = 0 ->
  Forall (fun a => a = AcceptEnded) (acceptors s) /\ Forall (fun p => p.2 = ConnEnded) (handlers s) /\ open s = ∅ /\ connections s = ∅).
Proof.
  intros [Hw Ho Hs].
  destruct (totalOf_zero acceptWeight (acceptors s)) as [Ha0 Ha]; [by intros []|].
  destruct (totalOf_zero connWeight (handlers s)) as [Hh0 Hh]; [by intros [? []]|].
  destruct (totalOf_zero callWeight (callers s)) as [Hc0 _]; [by intros []|].
  split; [lia|]. intros Hz. specialize (Ha ltac:(lia)). specialize (Hh ltac:(lia)).
  assert (Ha' : Forall (fun a => a = AcceptEnded) (acceptors s)) by (eapply Forall_impl; [exact Ha|]; by intros []).
  assert (Hh' : Forall (fun p => p.2 = ConnEnded) (handlers s)) by (eapply Forall_impl; [exact Hh|]; by intros [? []]).
  split; [done|]. split; [done|]. pose proof (proj1 (Forall_forall _ _) Ha') as Ka. pose proof (proj1 (Forall_forall _ _) Hh') as Kh.
  split; apply set_eq; intros x; (split; [|set_solver]).
  - intros [H|H]%Ho; apply Exists_exists in H as (y & Hin & Hy); [by rewrite (Ka y Hin) in Hy|].
    destruct Hy as [_ Hy]. by rewrite (Kh y Hin) in Hy.
  - intros [H|H]%Hs; apply Exists_exists in H as (y & Hin & Hy); [by rewrite (Ka y Hin) in Hy|].
    destruct Hy as [[_ Hy]| ->]; [by rewrite (Kh y Hin) in Hy|]. by specialize (Kh _ Hin).
Qed.

(** ** Stopping *)

Definition goroutine (e : Event) : bool := match e with EAccept _ _ | EConn _ _ => true | _ => false end.

(** The goroutine of the event has not ended. *)
Definition live (s : Server) (e : Event) : bool :=
  match e with
  | EAccept i _ => match acceptors s !! i with Some AcceptEnded | None => false | Some _ => true end
  | EConn i _ => match handlers s !! i with Some (_, ConnEnded) | None => false | Some _ => true end
  | _ => false
  end.

Fixpoint allLive (s : Server) (events : list Event) : Prop :=
  match events with [] => True | e :: es => goroutine e = true /\ live s e = true /\ allLive (step s e) es end.

(** The steps left when the context is cancelled and nobody can connect. *)
Definition connWork (p : Z * ConnPc) : Z :=
  match p.2 with
  | Greeting | Commanding => 6 | Selecting => 5 | RollingBack => 4 | Closing => 3 | Forgetting => 2 | Finishing => 1 | ConnEnded => 0
  end.
Definition acceptWork (a : AcceptPc) : Z :=
  match a with
  | Numbering => 13 | Storing _ => 12 | Adding _ => 11 | Spawning _ => 10 | Accepting => 3 | AcceptFailed => 2 | AcceptDone => 1
  | AcceptEnded => 0
  end.
Definition work (s : Server) : Z := totalOf acceptWork (acceptors s) + totalOf connWork (handlers s).

Definition stopping (s : Server) : Prop := cancelled s = true /\ listening s = false /\ Forall (fun c => callWeight c = 0) (callers s).

Lemma live_step s e : stopping s -> goroutine e = true -> live s e = true ->
  stopping (step s e) /\ work (step s e) < work s /\ callers (step s e) = callers s.
Proof.
  intros (Hc & Hl & Hcl) Hg Hlive. destruct e as [| |i listen id|i conn|i r]; try done; cbn [step live] in *.
  - destruct (acceptors s !! i) as [pc|] eqn:E; [|done].
    assert (Ht : forall pc', totalOf acceptWork (<[i := pc']> (acceptors s)) = totalOf acceptWork (acceptors s) - acceptWork pc + acceptWork pc')
      by (intros pc'; by apply totalOf_insert).
    destruct pc; try done; cbn [accept_step]; rewrite ?Hc, ?Hl, ?andb_false_r; unfold work, stopping; weigh;
      rewrite Ht, ?totalOf_app; cbn; split_and!; done || lia.
  - destruct (handlers s !! i) as [[id pc]|] eqn:E; [|done].
    assert (Ht : forall pc', totalOf connWork (<[i := (id, pc')]> (handlers s)) = totalOf connWork (handlers s) - connWork (id, pc) + connWork (id, pc'))
      by (intros pc'; by apply totalOf_insert).
    destruct pc; try done; cbn [conn_step]; rewrite ?Hc; try destruct (outcome s id r); unfold work, stopping; weigh;
      rewrite Ht; cbn; split_and!; done || lia.
Qed.

Lemma work_nonneg s : 0 <= work s.
Proof.
  unfold work. destruct (totalOf_zero acceptWork (acceptors s)) as [? _]; [by intros []|].
  destruct (totalOf_zero connWork (handlers s)) as [? _]; [by intros [? []]|]. lia.
Qed.

Lemma live_run events : forall s, stopping s -> allLive s events ->
  stopping (run s events) /\ work (run s events) + Z.of_nat (length events) <= work s /\ callers (run s events) = callers s.
Proof.
  induction events as [|e es IH]; intros s Hs; cbn [allLive]; [intros _; split_and!; [done|cbn; lia|done]|].
  intros (Hg & Hl & Hes). destruct (live_step s e Hs Hg Hl) as (Hs' & Hw & Hc). destruct (IH _ Hs' Hes) as (Hs2 & Hw2 & Hc2).
  change (run s (e :: es)) with (run (step s e) es). rewrite length_cons, Hc2. split; [done|]. split; [lia|done].
Qed.

Lemma idle_zero s : stopping s -> inv s -> (forall e, goroutine e = true -> live s e = false) -> wg s = 0.
Proof.
  intros (_ & _ & Hcl) HI Hno. rewrite (inv_wg s HI).
  assert (Ha : totalOf acceptWeight (acceptors s) = 0).
  { assert (H : forall i a, acceptors s !! i = Some a -> a = AcceptEnded).
    { intros i a Hi. specialize (Hno (EAccept i false) eq_refl). cbn in Hno. rewrite Hi in Hno. by destruct a. }
    revert H. generalize (acceptors s). intros l. induction l as [|a l IH]; intros H; [done|]. cbn.
    rewrite (H 0%nat a eq_refl), IH; [done|]. intros i. apply (H (S i)). }
  assert (Hh : totalOf connWeight (handlers s) = 0).
  { assert (H : forall i p, handlers s !! i = Some p -> p.2 = ConnEnded).
    { intros i [id pc] Hi. specialize (Hno (EConn i Failed) eq_refl). cbn in Hno. rewrite Hi in Hno. by destruct pc. }
    revert H. generalize (handlers s). intros l. induction l as [|a l IH]; intros H; [done|]. cbn [totalOf].
    unfold connWeight at 1. rewrite (H 0%nat a eq_refl), IH; [done|]. intros i. apply (H (S i)). }
  assert (Hc : totalOf callWeight (callers s) = 0).
  { revert Hcl. generalize (callers s). intros l. induction 1 as [|c l Hc _ IH]; cbn; lia. }
  lia.
Qed.

(** C29: whatever calls of Start and Stop, peers and connections do: when a Stop
    returns from its wait every goroutine has ended, every connection is closed and
    none is stored.  And once a Stop has cancelled the context and closed the
    listener, with no Start under way, the goroutines take at most [work] steps,
    if their handshakes and commands end; when none has one left, it returns. *)
Theorem mysql_stop (before : list Event) :
  let s := run NewServer before in
  (forall i listen id, callers s !! i = Some StopWait -> callers (step s (ECall i listen id)) !! i = Some StopReturned ->
    Forall (fun a => a = AcceptEnded) (acceptors s) /\ Forall (fun p => p.2 = ConnEnded) (handlers s) /\
    open s = ∅ /\ connections s = ∅) /\
  (stopping s -> forall events, allLive s events ->
    Z.of_nat (length events) <= work s /\
    ((forall e, goroutine e = true -> live (run s events) e = false) ->
      forall i listen id, callers s !! i = Some StopWait ->
        callers (step (run s events) (ECall i listen id)) !! i = Some StopReturned)).
Proof.
  cbn zeta. pose proof (mysql_inv_run before NewServer mysql_inv_init) as HI. set (s := run NewServer before) in *. split.
  - intros i listen id Hi. cbn [step]. rewrite Hi. cbn [call_step]. destruct (Z.eqb_spec (wg s) 0) as [Hz|]; weigh.
    + intros _. by apply inv_zero.
    + rewrite list_lookup_insert_eq by by eapply lookup_lt_Some. done.
  - intros Hs events Hlive. destruct (live_run events s Hs Hlive) as (Hs' & Hw & Hc). pose proof (work_nonneg (run s events)).
    split; [lia|]. intros Hno i listen id Hi. cbn [step]. rewrite Hc, Hi. cbn [call_step].
    rewrite (idle_zero (run s events) Hs' (mysql_inv_run events s HI) Hno). cbn. weigh. rewrite Hc.
    apply list_lookup_insert_eq. by eapply lookup_lt_Some.
Qed.

(** *** After a stop *)

Lemma cancelled_step s e : cancelled s = true ->
  cancelled (step s e) = true /\
  forall i id, handlers (step s e) !! i = Some (id, Commanding) -> handlers s !! i = Some (id, Commanding).
Proof.
  intros Hc. destruct e as [| |i listen id|i conn|i r]; cbn [step]; [done|done|..].
  - destruct (callers s !! i) as [pc|]; [|done].
    assert (H : cancelled (call_step listen id s pc).1 = true /\ handlers (call_step listen id s pc).1 = handlers s)
      by (destruct pc; cbn; repeat case_match; done).
    destruct (call_step listen id s pc) as [s' pc']. cbn in *. destruct H as [-> ->]. done.
  - destruct (acceptors s !! i) as [pc|]; [|done].
    assert (H : cancelled (accept_step conn s pc).1 = true /\ exists new, handlers (accept_step conn s pc).1 = handlers s ++ new /\
      forall id, (id, Commanding) ∉ new).
    { assert (Hnil : forall id, (id, Commanding) ∉ @nil (Z * ConnPc)) by (intros id; apply not_elem_of_nil).
      destruct pc; cbn; (split; [exact Hc|]); try (exists []; split; [by rewrite app_nil_r|exact Hnil]).
      eexists; split; [reflexivity|]. intros x Hx. apply list_elem_of_singleton in Hx. done. }
    destruct (accept_step conn s pc) as [s' pc']. cbn in *. destruct H as (-> & new & -> & Hnew). split; [done|].
    intros j id [?|[_ Hj]]%lookup_app_Some; [done|]. exfalso. by eapply Hnew, list_elem_of_lookup_2.
  - destruct (handlers s !! i) as [[id pc]|] eqn:E; [|done].
    assert (H : cancelled (conn_step r s id pc).1 = true /\ handlers (conn_step r s id pc).1 = handlers s /\
      ((conn_step r s id pc).2 = Commanding -> pc = Commanding)).
    { destruct pc; cbn; rewrite ?Hc; repeat case_match; done. }
    destruct (conn_step r s id pc) as [s' pc']. cbn in *. destruct H as (-> & -> & Hpc). split; [done|].
    intros j id' Hj. apply list_lookup_insert_Some in Hj as [(<- & [= -> ->] & _)|[_ ?]]; [|done]. rewrite E. by rewrite (Hpc eq_refl).
Qed.

(** The context stays cancelled: after a Stop the server can be started again and
    accepts connections, but no connection ever comes to a command; each is closed
    after its handshake. *)
Theorem mysql_restart_serves_nobody (s : Server) (events : list Event) (Hc : cancelled s = true) :
  cancelled (run s events) = true /\
  forall i id, handlers (run s events) !! i = Some (id, Commanding) -> handlers s !! i = Some (id, Commanding).
Proof.
  revert s Hc. induction events as [|e es IH]; intros s Hc; [done|]. destruct (cancelled_step s e Hc) as [Hc' Hs].
  destruct (IH _ Hc') as [Hc2 Hs2]. split; [done|]. intros i id Hi. by apply Hs, Hs2.
Qed.

(** ** Runs *)

Definition calls (i n : nat) : list Event := replicate n (ECall i true 0).

(** Start, a connection that handles a command, and a Stop that closes it. *)
Definition served : list Event :=
  [EStart] ++ calls 0 4 ++ replicate 5 (EAccept 0 true) ++ [EConn 0 Succeeded; EConn 0 Succeeded].
Definition stopped : list Event :=
  served ++ [EStop; ECall 1 true 0; ECall 1 true 0; ECall 1 true 0; ECall 1 true 1; ECall 1 true 0].

Lemma mysql_stop_witness :
  let s := run NewServer stopped in
  let goes := replicate 3 (EAccept 0 true) ++ replicate 5 (EConn 0 Succeeded) in
  callers s !! 1%nat = Some StopWait /\ Z.of_nat (length goes) <= work s /\
  callers (step (run s goes) (ECall 1 true 0)) !! 1%nat = Some StopReturned.
Proof.
  cbn zeta. destruct (mysql_stop stopped) as [_ H]. split; [vm_compute; reflexivity|].
  assert (Hst : stopping (run NewServer stopped)) by (split; [vm_compute; reflexivity|]; split; [vm_compute; reflexivity|]; vm_compute; repeat constructor).
  destruct (H Hst (replicate 3 (EAccept 0 true) ++ replicate 5 (EConn 0 Succeeded))) as [H1 H2]; [vm_compute; repeat split|].
  split; [exact H1|]. apply H2; [|vm_compute; reflexivity].
  intros [| |i l id|i c|i r]; try discriminate; intros _; destruct i as [|[|i]]; vm_compute; reflexivity.
Defined.

(** A Start after this Stop succeeds, and its first connection is closed. *)
Definition restarted : list Event :=
  replicate 3 (EAccept 0 true) ++ replicate 5 (EConn 0 Succeeded) ++ [ECall 1 true 0; EStart] ++ calls 2 4 ++
  replicate 5 (EAccept 1 true) ++ replicate 4 (EConn 1 Succeeded).

Lemma mysql_restart_serves_nobody_witness :
  let s := run (run NewServer stopped) restarted in
  callers s !! 2%nat = Some (StartReturned true) /\ running s = true /\ handlers s !! 1%nat = Some (2, Forgetting) /\
  forall id, handlers s !! 1%nat <> Some (id, Commanding).
Proof.
  cbn zeta. split; [vm_compute; reflexivity|]. split; [vm_compute; reflexivity|]. split; [vm_compute; reflexivity|].
  intros id Hid. destruct (mysql_restart_serves_nobody (run NewServer stopped) restarted) as [_ H]; [vm_compute; reflexivity|].
  apply H in Hid. vm_compute in Hid. discriminate.
Defined.

(** A connection accepted while Stop runs is stored after [Range] has gone by: it
    stays open, and Stop waits until its peer ends the handshake. *)
Definition missed : list Event :=
  [EStart] ++ calls 0 4 ++ [EAccept 0 true; EStop] ++ calls 1 4 ++ replicate 4 (EAccept 0 true).

Example stop_misses_connection :
  let s := run NewServer missed in
  callers s !! 1%nat = Some StopWait /\ handlers s !! 0%nat = Some (1, Greeting) /\ open s = {[1]} /\ wg s = 2.
Proof. vm_compute. by split. Qed.
