(* ===== verification/MysqlTransactions.v ===== *)
(** * Transactions of the MySQL front end

    [SerialStore] is what COMMIT relies on: ranges answer records of the store, a
    record that was modified at a revision already taken has not changed since,
    and the store's own transactions compare and write at once.  A transaction
    runs between any steps of other clients; [reads] is what its statements have
    read last under each key. *)

From S2P Require Import Prelude GoBytes GoStrings KvTypes ShardedMap MemoryEtcd EtcdFacts EtcdOps EtcdTheorems StoreApi MysqlHandler.

(** ** The store *)

Definition applyTxOp (m : gmap string string) (op : TxOp) : gmap string string :=
  match tx_OpType op with TxPUT => <[tx_Key op := tx_Value op]> m | TxDELETE => delete (tx_Key op) m end.

Class SerialStore (S : Type) `{!Store S} := {
  ss_ok : S -> Prop;
  ss_room : nat -> S -> Prop;
  ss_contents : S -> gmap string KeyValue;
  ss_revision : S -> Z;
  ss_step : S -> S -> Prop;
  ss_step_ok s s' : ss_ok s -> ss_step s s' -> ss_ok s';
  ss_keyed s k kv : ss_ok s -> ss_contents s !! k = Some kv -> Key kv = k /\ 0 < ModRevision kv <= ss_revision s;
  ss_grows s s' : ss_ok s -> ss_step s s' -> ss_revision s <= ss_revision s';
  ss_kept s s' k kv : ss_ok s -> ss_step s s' ->
    ss_contents s' !! k = Some kv -> ModRevision kv <= ss_revision s -> ss_contents s !! k = Some kv;
  ss_Range s key rangeEnd limit rev resp kv : ss_ok s ->
    st_Range s key rangeEnd limit rev = Ok resp -> kv ∈ rr_Kvs resp -> ss_contents s !! Key kv = Some kv;
  ss_Txn now s cmps ops s' resp : ss_ok s -> ss_room (length ops) s -> st_Txn now s cmps (commitOp <$> ops) [] = (s', Ok resp) ->
    tr_Succeeded resp = forallb (fun c => compareRecord (ss_contents s !! cmp_Key c) c) cmps /\
    valuesOf (ss_contents s') =
      if tr_Succeeded resp then fold_left applyTxOp ops (valuesOf (ss_contents s)) else valuesOf (ss_contents s);
}.

(** ** What statements read *)

Definition remember (m : gmap string KeyValue) (kvs : list KeyValue) : gmap string KeyValue :=
  fold_left (fun m kv => <[Key kv := kv]> m) kvs m.

Lemma remember_lookup kvs : forall m k kv, remember m kvs !! k = Some kv -> m !! k = Some kv \/ kv ∈ kvs /\ Key kv = k.
Proof.
  induction kvs as [|kv0 kvs IH]; intros m k kv; [by left|]. simpl. intros [Hm|[Hin Hk]]%IH.
  - rewrite lookup_insert_Some in Hm. destruct Hm as [[<- <-]|[_ Hm]]; [right; split; [by left|done]|by left].
  - right. split; [by right|done].
Qed.

Lemma remember_revisions kvs : forall m,
  ModRevision <$> remember m kvs = fold_left (fun r kv => <[Key kv := ModRevision kv]> r) kvs (ModRevision <$> m).
Proof. induction kvs as [|kv kvs IH]; intros m; [done|]. simpl. by rewrite IH, fmap_insert. Qed.

Section transactions.
Context {S : Type} `{!Store S, !SerialStore S, !MysqlLib, !TidbParser, !UnicodeCase, !MapOrder}.
Implicit Types (s : S) (h : MySQLHandler) (tx : Transaction) (reads : gmap string KeyValue).

(** The records a SELECT takes from the store. *)
Definition selectReads s h (query : string) : list KeyValue :=
  let queryUpper := ToUpper query in
  if Contains queryUpper "@@" || Contains queryUpper "VERSION()" || Contains queryUpper "$$" || negb (Contains queryUpper " FROM ") then []
  else match selectPlan query with
       | Some (_, where_) => match selectRange s h where_ with Ok resp => rr_Kvs resp | Err _ => [] end
       | None => []
       end.

Definition queryReads s h (query : string) : list KeyValue :=
  let query := TrimSpace query in if has_prefix "SELECT" (ToUpper query) then selectReads s h query else [].

Lemma selectReads_range s h query kv : ss_ok s -> kv ∈ queryReads s h query -> ss_contents s !! Key kv = Some kv.
Proof.
  intros Hok. unfold queryReads. destruct (has_prefix _ _); [|by intros ?%elem_of_nil].
  unfold selectReads. destruct (_ || _); [by intros ?%elem_of_nil|].
  destruct (selectPlan _) as [[cols w]|]; [|by intros ?%elem_of_nil].
  destruct (selectRange s h w) as [resp|e] eqn:E; [|by intros ?%elem_of_nil]. intros Hin.
  unfold selectRange in E. destruct w as [w|]; [destruct (isLike w)|]; by eapply ss_Range.
Qed.

(** ** One statement of an active transaction *)

Lemma activeTx_set h tx : active tx = true -> activeTx (setTransaction h (Some tx)) = Some tx.
Proof. intros Ha. unfold activeTx. simpl. by rewrite Ha. Qed.

Lemma activeTx_active h tx : activeTx h = Some tx -> active tx = true.
Proof. unfold activeTx. destruct (transaction h) as [t|]; [|done]. destruct (active t) eqn:E; [|done]. by intros [= <-]. Qed.

(** The handler keeps its transaction, with what the statement read. *)
Definition continues s h tx (query : string) (h' : MySQLHandler) : Prop :=
  exists tx', activeTx h' = Some tx' /\
    readSet tx' = fold_left (fun r kv => <[Key kv := ModRevision kv]> r) (queryReads s h query) (readSet tx).

Lemma handleSelect_active s h tx query h' r : activeTx h = Some tx -> handleSelect s h query = Some (h', r) ->
  exists tx', activeTx h' = Some tx' /\
    readSet tx' = fold_left (fun r kv => <[Key kv := ModRevision kv]> r) (selectReads s h query) (readSet tx).
Proof.
  intros Htx. unfold handleSelect, selectReads. destruct (_ || _) eqn:Hsys; cbn [orb].
  - intros [= <- _]. by exists tx.
  - destruct (negb _).
    + destruct (handleConstantSelect query); [|done]. intros [= <- _]. by exists tx.
    + destruct (selectPlan query) as [[cols w]|]; [|done]. cbn [mbind option_bind].
      destruct (selectRange s h w) as [resp|e]; [|intros [= <- _]; by exists tx].
      rewrite Htx. intros [= <- _]. eexists. rewrite activeTx_set by (exact (activeTx_active h tx Htx)). by split.
Qed.

Lemma putRow_active now s h tx key value text s' h' r : activeTx h = Some tx -> putRow now s h key value text = (s', h', r) ->
  s' = s /\ exists tx', activeTx h' = Some tx' /\ readSet tx' = readSet tx.
Proof.
  intros Htx. unfold putRow. rewrite Htx. intros [= <- <- _]. split; [done|]. eexists.
  rewrite activeTx_set by (exact (activeTx_active h tx Htx)). by split.
Qed.

(** A statement ends the transaction, or leaves the store alone and continues it. *)
Lemma HandleQuery_active now s h tx query s' h' r : activeTx h = Some tx ->
  HandleQuery now s h query = Some (s', h', r) -> activeTx h' = None \/ s' = s /\ continues s h tx query h'.
Proof.
  intros Htx. unfold HandleQuery, continues, queryReads. cbn zeta.
  set (q := TrimSpace query). destruct (has_prefix "SELECT" (ToUpper q)) eqn:Hsel.
  { destruct (handleSelect s h q) as [[h1 r1]|] eqn:E; [|done]. intros [= <- <- _]. right. split; [done|]. by eapply handleSelect_active. }
  assert (Hsame : forall r0, answers s h r0 = Some (s', h', r) -> activeTx h' = None \/ s' = s /\
    exists tx', activeTx h' = Some tx' /\ readSet tx' = readSet tx).
  { intros r0 [= <- <- _]. right. split; [done|]. by exists tx. }
  cbn [fold_left].
  destruct (has_prefix "INSERT" _).
  { unfold handleInsert. destruct (parseKeyValueFromInsert q) as [[[k v]|e]|]; [|exact (Hsame _)|done].
    intros [= E]. right. by eapply putRow_active. }
  destruct (has_prefix "UPDATE" _).
  { unfold handleUpdate. destruct (parseKeyValueFromUpdate q) as [[[k v]|e]|]; [|exact (Hsame _)|done].
    intros [= E]. right. by eapply putRow_active. }
  destruct (has_prefix "DELETE" _).
  { unfold handleDelete. destruct (parseKeyFromDelete q) as [k|]; [|done]. cbn [mbind option_bind]. rewrite Htx.
    destruct (String.eqb k ""); intros [= <- <- _]; right; (split; [done|]); [by exists tx|].
    eexists. rewrite activeTx_set by (exact (activeTx_active h tx Htx)). by split. }
  destruct (has_prefix "USE" _); [apply Hsame|]. destruct (_ || _).
  { unfold handleBegin. rewrite Htx. intros [= <- <- _]. right. split; [done|]. by exists tx. }
  destruct (has_prefix "COMMIT" _).
  { unfold handleCommit. rewrite Htx. destruct (operations tx); [intros [= _ <- _]; by left|].
    destruct (st_Txn _ _ _ _ _) as [s1 [resp|e]]; intros [= _ <- _]; by left. }
  destruct (has_prefix "ROLLBACK" _).
  { unfold handleRollback. rewrite Htx. intros [= _ <- _]. by left. }
  repeat match goal with |- context [if ?b then _ else _] => destruct b end; apply Hsame.
Qed.

(** ** A transaction among other clients *)

Inductive in_transaction : S -> MySQLHandler -> gmap string KeyValue -> Prop :=
  | it_begin s h : ss_ok s -> activeTx h = None -> in_transaction s (handleBegin s h).1 ∅
  | it_other s s' h reads : in_transaction s h reads -> ss_step s s' -> in_transaction s' h reads
  | it_query now s h reads query s' h' r :
      in_transaction s h reads -> HandleQuery now s h query = Some (s', h', r) -> is_Some (activeTx h') ->
      in_transaction s' h' (remember reads (queryReads s h query)).

Record tx_ok s h reads : Prop := {
  to_ok : ss_ok s;
  to_reads tx : activeTx h = Some tx -> readSet tx = ModRevision <$> reads;
  to_active : is_Some (activeTx h);
  to_same k kv : reads !! k = Some kv -> Key kv = k /\ 0 < ModRevision kv <= ss_revision s /\
    forall kv', ss_contents s !! k = Some kv' -> ModRevision kv' = ModRevision kv -> kv' = kv;
}.

Lemma in_transaction_ok s h reads : in_transaction s h reads -> tx_ok s h reads.
Proof.
  induction 1 as [s h Hok Hno|s s' h reads _ IH Hs|now s h reads query s' h' r _ IH Hq [tx' Hact]].
  - unfold handleBegin. rewrite Hno. split; [done|intros tx [= <-]; by rewrite fmap_empty|by eexists|].
    intros k kv. by rewrite lookup_empty.
  - pose proof (to_ok _ _ _ IH) as Hok. split; [by eapply ss_step_ok|apply IH|apply IH|]. intros k kv Hr.
    destruct (to_same _ _ _ IH k kv Hr) as (Hk & Hb & Hsame). pose proof (ss_grows _ _ Hok Hs).
    split; [done|]. split; [lia|]. intros kv' Hkv' Hrev. apply Hsame; [|done]. apply (ss_kept s s'); [done..|lia].
  - destruct (to_active _ _ _ IH) as [tx Htx].
    destruct (HandleQuery_active _ _ _ _ _ _ _ _ Htx Hq) as [Hnone|[-> (tx1 & Htx1 & Hr1)]]; [congruence|].
    split; [apply IH| |by exists tx'|].
    + intros t Ht. rewrite Ht in Htx1. injection Htx1 as ->. by rewrite Hr1, remember_revisions, (to_reads _ _ _ IH tx Htx).
    + intros k kv [Hr|[Hin <-]]%remember_lookup; [by apply IH|].
      apply (selectReads_range _ _ _ _ (to_ok _ _ _ IH)) in Hin as Hc. destruct (ss_keyed s (Key kv) kv) as [_ Hb]; [apply IH|done|].
      split; [done|]. split; [done|]. intros kv' Hkv' _. congruence.
Qed.

(** The comparisons hold when everything read is as it was read. *)
Lemma commit_compares s h reads tx : tx_ok s h reads -> activeTx h = Some tx ->
  forallb (fun c => compareRecord (ss_contents s !! cmp_Key c) c) (commitCompares tx) = true <->
  map_Forall (fun k kv => ss_contents s !! k = Some kv) reads.
Proof.
  intros Hok Htx. rewrite forallb_forall. unfold commitCompares. rewrite (to_reads _ _ _ Hok tx Htx).
  assert (Hiff : forall k kv, reads !! k = Some kv ->
    compareRecord (ss_contents s !! k) (mkCompare CompareMod CompareEqual k (mkCompareUnion 0 0 (ModRevision kv) "" 0)) = true <->
    ss_contents s !! k = Some kv).
  { intros k kv Hr. destruct (to_same _ _ _ Hok k kv Hr) as (_ & Hb & Hsame). unfold compareRecord. cbn.
    destruct (ss_contents s !! k) as [kv'|] eqn:E; rewrite Z.eqb_eq; split.
    - intros Hrev. by rewrite (Hsame kv').
    - by intros [= ->].
    - intros. lia.
    - done. }
  split.
  - intros Hall k kv Hr. apply (Hiff k kv Hr), (Hall (mkCompare CompareMod CompareEqual k _)).
    apply list_elem_of_In, list_elem_of_fmap. exists (k, ModRevision kv). split; [done|].
    apply elem_of_range_map. by rewrite lookup_fmap, Hr.
  - intros Hall c [[k rev] [-> Hin]]%list_elem_of_In%list_elem_of_fmap. apply elem_of_range_map in Hin.
    rewrite lookup_fmap_Some in Hin. destruct Hin as (kv & <- & Hr). cbn. by apply (Hiff k kv Hr), Hall.
Qed.

(** C14: A COMMIT with writes that succeeds finds every record its transaction
    has read, as last read, still in the store, and applies the writes to that
    store at once, in order; a conflict is reported only if one of the records
    has changed, and then nothing is written.  Either way the transaction is
    over. *)
Theorem mysql_commit_validates_reads (now : Z) s h reads tx s' h' r
    (Hin : in_transaction s h reads) (Htx : activeTx h = Some tx) (Hops : operations tx <> [])
    (Hroom : ss_room (length (operations tx)) s) (Hc : handleCommit now s h = (s', h', r)) :
  transaction h' = None /\
  match r with
  | Ok res =>
      AffectedRows res = Z.of_nat (length (operations tx)) /\
      (forall k kv, reads !! k = Some kv -> ss_contents s !! k = Some kv) /\
      valuesOf (ss_contents s') = fold_left applyTxOp (operations tx) (valuesOf (ss_contents s))
  | Err (NewError ER_LOCK_DEADLOCK _ _) =>
      (exists k kv, reads !! k = Some kv /\ ss_contents s !! k <> Some kv) /\
      valuesOf (ss_contents s') = valuesOf (ss_contents s)
  | Err _ => exists e, (st_Txn now s (commitCompares tx) (commitOp <$> operations tx) []).2 = Err e
  end.
Proof.
  pose proof (in_transaction_ok _ _ _ Hin) as Hok. unfold handleCommit in Hc. rewrite Htx in Hc.
  destruct (operations tx) as [|op ops] eqn:Eops; [done|]. rewrite <- Eops in *.
  destruct (st_Txn now s _ _ []) as [s1 [resp|e]] eqn:Et; injection Hc as <- <- <-; (split; [done|]); [|by eexists].
  destruct (ss_Txn now s _ (operations tx) s1 resp (to_ok _ _ _ Hok) Hroom Et) as [Hs Hv].
  pose proof (commit_compares s h reads tx Hok Htx) as Hiff. rewrite <- Hs in Hiff.
  destruct (tr_Succeeded resp); cbn [negb].
  - split_and!; [done|by apply Hiff|done].
  - split; [|done]. assert (Hn : ~ map_Forall (fun k kv => ss_contents s !! k = Some kv) reads) by (intros ?%Hiff; done).
    apply map_not_Forall in Hn; [done|]. intros k kv. apply _.
Qed.

End transactions.

(** ** Over the in-memory store

    An operation leaves each record as it is, or modified at a new revision, or
    gone. *)

Section memory.
Context {M : Type} `{!KvMap M, !KvMapLaws M, !MapOrder}.
Implicit Types (m : MemoryEtcd M).

#[local] Abbreviation data m := (contents (kvData m)).

(** ** Records change at new revisions only *)

Definition keeps (r : Z) (d d' : gmap string KeyValue) : Prop :=
  forall k kv, d' !! k = Some kv -> ModRevision kv <= r -> d !! k = Some kv.

Lemma keeps_refl r d : keeps r d d.
Proof. by intros k kv. Qed.

Lemma keeps_trans r r' d d' d'' : r <= r' -> keeps r d d' -> keeps r' d' d'' -> keeps r d d''.
Proof. intros Hr H1 H2 k kv Hk Hrev. apply H1; [|done]. apply H2; [done|lia]. Qed.

Lemma keeps_insert r d k kv : r < ModRevision kv -> keeps r d (<[k := kv]> d).
Proof. intros Hr k' kv'. rewrite lookup_insert_Some. intros [[_ <-]|[_ Hk]] Hrev; [lia|done]. Qed.

Lemma keeps_without r d ks : keeps r d (without ks d).
Proof. intros k kv. rewrite without_lookup. by case_decide. Qed.

Lemma keeps_delete r d key rangeEnd : keyed d -> keeps r d (outside key rangeEnd d).
Proof. intros Hk. rewrite <- without_range by done. apply keeps_without. Qed.

Lemma nextKv_rev prev key value lid r : ModRevision (nextKv prev key value lid r) = r.
Proof. unfold nextKv. by destruct prev. Qed.

#[local] Hint Resolve keeps_refl keeps_without : core.

Lemma txnOp_keeps now m op : wf_etcd m -> revision m + 1 <= int64_max -> keeps (revision m) (data m) (data (txnOp now m op).1).
Proof.
  intros Hwf Hr. unfold txnOp. destruct (op_Type op); try done.
  - unfold putUnlocked. cbn zeta.
    destruct (storeKv_spec m (op_Key op) (op_Value op) (op_LeaseID op) Hwf Hr) as (m' & -> & _ & Hd & _).
    assert (Hk : keeps (revision m) (data m) (data m')) by (rewrite Hd; apply keeps_insert; rewrite nextKv_rev; lia).
    destruct (op_LeaseID op =? 0); [done|]. destruct (leases m !! _) as [l|]; [|done]. by destruct (IsExpired now (Some l)).
  - unfold deleteUnlocked.
    destruct (deleteUnlockedEvents_spec m (op_Key op) (op_RangeEnd op) Hwf Hr) as (m' & evs & -> & _ & Hd & _). simpl.
    rewrite Hd. apply keeps_delete, Hwf.
Qed.

Lemma txnOps_keeps now ops : forall m, wf_etcd m -> revision m + Z.of_nat (length ops) <= int64_max ->
  keeps (revision m) (data m) (data (txnOps now m ops).1).
Proof.
  induction ops as [|op ops IH]; intros m Hwf Hr; cbn [txnOps length] in *; [done|].
  destruct (txnOp_spec now m op Hwf ltac:(lia)) as (Hwf1 & Hr1 & _).
  pose proof (txnOp_keeps now m op Hwf ltac:(lia)) as Hk1.
  destruct (txnOp now m op) as [m1 [resp|e]]; simpl in *; [|done]. specialize (IH m1 Hwf1 ltac:(lia)).
  destruct (txnOps now m1 ops) as [m2 rs]. eapply keeps_trans; [|done..]. lia.
Qed.

Lemma apply_keeps now m o : wf_etcd m -> revision m + cost m o <= int64_max -> keeps (revision m) (data m) (data (apply now m o)).
Proof.
  intros Hwf Hc. pose proof (wd_keyed _ _ (we_data _ Hwf)) as Hkeyed.
  assert (Hput : forall key value lid, revision m + 1 <= int64_max -> exists m', storeKv m key value lid =
    (m', nextKv (data m !! key) key value lid (revision m + 1), data m !! key, revision m + 1) /\ keeps (revision m) (data m) (data m')).
  { intros key value lid Hr. destruct (storeKv_spec m key value lid Hwf Hr) as (m' & Hm' & _ & Hd & _). exists m'.
    split; [done|]. rewrite Hd. apply keeps_insert. rewrite nextKv_rev. lia. }
  destruct o; cbn [apply cost] in *; try done.
  - unfold PutWithLease. cbn zeta. destruct (Hput key value leaseID Hc) as (m' & -> & Hk).
    destruct (leaseID =? 0); [done|]. destruct (leases m !! leaseID) as [l|]; [|done]. by destruct (IsExpired now (Some l)).
  - unfold DeleteRange. destruct (deleteUnlockedEvents_spec m key rangeEnd Hwf Hc) as (m' & evs & -> & _ & Hd & _). simpl.
    destruct (notifyAll_data evs m') as (-> & _). rewrite Hd. by apply keeps_delete.
  - unfold Txn, txnUnlocked. pose proof (txnOps_keeps now (if forallb (evaluateCompare m) cmps then thenOps else elseOps) m Hwf) as Hk.
    destruct (txnOps now m _) as [m' rs]. apply Hk. destruct (forallb _ _); lia.
  - unfold LeaseGrant. by destruct (leases m !! id).
  - destruct (leases m !! id) as [l|] eqn:E; [|unfold LeaseRevoke; by rewrite E].
    destruct (LeaseRevoke_spec m id l Hwf E Hc) as (m' & -> & _ & Hd & _). simpl. rewrite Hd. done.
  - unfold LeaseRenew. by destruct (leases m !! id).
  - unfold WatchWithOptions. by destruct (watches m !! watchID).
  - unfold CancelWatch. destruct (watches m !! watchID) as [sub|]; [|done]. by destruct (ws_closed sub).
  - unfold slowSendTimeout, CancelWatch. destruct (watches m !! watchID) as [sub|]; [|done]. by destruct (ws_closed sub).
  - unfold receive. destruct (watches m !! watchID) as [sub|]; [|done]. by destruct (ws_eventCh sub).
  - unfold putDirect. destruct (Hput key value leaseID Hc) as (m' & -> & Hk). done.
  - unfold deleteDirect. destruct (deleteDirect_spec m key rangeEnd Hwf Hc) as (m' & Hm' & _ & Hd & _).
    unfold deleteDirect in Hm'. rewrite Hm'. simpl. rewrite Hd. by apply keeps_delete.
  - destruct op; simpl; [done|]. destruct (leases m !! id) as [l|] eqn:E; [|done].
    assert (Hwf1 : wf_etcd (setLeases m (delete id (leases m)))).
    { apply wf_setLeases; [done|]. intros id' l' [_ Hl]%lookup_delete_Some. by apply (we_leases _ Hwf). }
    destruct (revokeDirect_loop (range_map (l_Keys l)).*1 _ Hwf1) as (? & -> & _);
      [apply range_map_nodup|by rewrite lease_keys_length|]. done.
Qed.

(** ** A committed transaction *)

Lemma txnOp_commit now m op : wf_etcd m -> revision m + 1 <= int64_max ->
  exists m' resp, txnOp now m (commitOp op) = (m', Ok resp) /\ wf_etcd m' /\ revision m' <= revision m + 1 /\
    valuesOf (data m') = applyTxOp (valuesOf (data m)) op.
Proof.
  intros Hwf Hr. unfold txnOp, commitOp, applyTxOp. destruct (tx_OpType op); cbn [op_Type op_Key op_RangeEnd op_Value op_LeaseID].
  - unfold putUnlocked. cbn zeta.
    destruct (storeKv_spec m (tx_Key op) (tx_Value op) 0 Hwf Hr) as (m' & -> & Hwf' & Hd & Hrev & _). cbn [Z.eqb].
    eexists _, _. split; [done|]. split; [done|]. split; [lia|]. rewrite Hd. unfold valuesOf. rewrite fmap_insert.
    f_equal. unfold nextKv. by destruct (data m !! _).
  - unfold deleteUnlocked.
    destruct (deleteUnlockedEvents_spec m (tx_Key op) "" Hwf Hr) as (m' & evs & -> & Hwf' & Hd & Hrev & _).
    eexists _, _. split; [done|]. split; [done|]. split; [destruct (rangeRecords _ _ _); lia|]. rewrite Hd. apply valuesOf_outside.
Qed.

Lemma txnOps_commit now ops : forall m, wf_etcd m -> revision m + Z.of_nat (length ops) <= int64_max ->
  exists m' resps, txnOps now m (commitOp <$> ops) = (m', Ok resps) /\
    valuesOf (data m') = fold_left applyTxOp ops (valuesOf (data m)).
Proof.
  induction ops as [|op ops IH]; intros m Hwf Hr; cbn [length] in *; [by eexists _, _|].
  destruct (txnOp_commit now m op Hwf ltac:(lia)) as (m1 & resp & E1 & Hwf1 & Hr1 & Hv1).
  destruct (IH m1 Hwf1 ltac:(lia)) as (m2 & resps & E2 & Hv2). rewrite fmap_cons. cbn [txnOps fold_left].
  rewrite E1, E2, <- Hv1. by eexists _, _.
Qed.

#[global, refine] Instance memory_serial : SerialStore (MemoryEtcd M) := {
  ss_ok m := wf_etcd m;
  ss_room n m := revision m + Z.of_nat n <= int64_max;
  ss_contents m := data m;
  ss_revision m := revision m;
  ss_step m m' := exists now o, revision m + cost m o <= int64_max /\ m' = apply now m o;
}.
Proof.
  - intros m m' Hwf (now & o & Hc & ->). by apply apply_wf.
  - intros m k kv Hwf Hk. destruct (wd_kv _ _ (we_data _ Hwf) k kv Hk) as (H1 & H2 & _).
    split; [exact (wd_keyed _ _ (we_data _ Hwf) k kv Hk)|lia].
  - intros m m' Hwf (now & o & Hc & ->). by apply apply_wf.
  - intros m m' k kv Hwf (now & o & Hc & ->). by apply apply_keeps.
  - intros m key rangeEnd limit rev resp kv Hwf [= <-] Hin. rewrite memory_range in Hin by done.
    assert (Hin' : kv ∈ rangeRecords (data m) key rangeEnd)
      by (destruct (limit >? 0); [by eapply elem_of_take in Hin as (? & ?%list_elem_of_lookup_2 & _)|done]).
    by apply elem_of_rangeRecords in Hin' as [Hk _]; [|apply (wd_keyed _ _ (we_data _ Hwf))].
  - intros now m cmps ops m' resp Hwf Hroom. cbn [st_Txn memory_store]. unfold Txn, txnUnlocked.
    assert (Heq : forallb (evaluateCompare m) cmps = forallb (fun c => compareRecord (data m !! cmp_Key c) c) cmps).
    { induction cmps as [|c cmps IH]; [done|]. simpl. rewrite IH. unfold evaluateCompare. by rewrite (Get_contents _ _ (wd_map _ _ (we_data _ Hwf))). }
    rewrite <- Heq. destruct (forallb (evaluateCompare m) cmps).
    + destruct (txnOps_commit now ops m Hwf Hroom) as (m1 & resps & -> & Hv). by intros [= <- <-].
    + cbn [txnOps]. by intros [= <- <-].
Defined.

End memory.
