(* ===== verification/MysqlStatements.v ===== *)
(** * What SQL statements do

    Statements with plain keys and values do what they say; LIKE reads exactly the
    keys with a prefix that does not end in byte 255. *)

From S2P Require Import Prelude GoBytes GoStrings KvTypes ShardedMap MemoryEtcd EtcdFacts StoreApi MysqlHandler.

(** ** Plain words *)

(** Letters, digits, dot, dash, slash, colon and underscore. *)
Definition plainByte (c : ascii) : bool :=
  let b := byte_val c in
  (45 <=? b) && (b <=? 58) || (65 <=? b) && (b <=? 90) || (b =? 95) || (97 <=? b) && (b <=? 122).

Definition plain (s : string) : bool := all_bytes plainByte s.

Lemma plain_ascii s : plain s = true -> all_bytes isAscii s = true.
Proof.
  apply all_bytes_impl. unfold plainByte, isAscii. intros c H.
  repeat match goal with H : _ || _ = true |- _ => apply orb_true_iff in H as [H|H] | H : _ && _ = true |- _ => apply andb_true_iff in H as [? H] end;
  bool_to_prop; apply Z.ltb_lt; lia.
Qed.

(** No byte of [bad] is in a plain word, nor in its upper case. *)
Definition absent (c : ascii) : bool := negb (plainByte c) && (byte_val c <? 128).

Lemma plain_missing c s : absent c = true -> plain s = true -> all_bytes (isNot c) s = true.
Proof.
  intros [Hc%negb_true_iff _]%andb_true_iff. apply all_bytes_impl. unfold isNot. intros d Hd.
  destruct (Ascii.eqb_spec c d) as [->|]; [congruence|done].
Qed.

Lemma plain_upper s : plain s = true -> plain (str_map upperByte s) = true.
Proof.
  unfold plain. rewrite all_bytes_map. apply all_bytes_impl. intros c. revert c.
  assert (H : forallb (fun n => implb (plainByte (Ascii.ascii_of_nat n)) (plainByte (upperByte (Ascii.ascii_of_nat n)))) (seq 0 256) = true)
    by (vm_compute; reflexivity).
  rewrite forallb_forall in H. intros c Hc. specialize (H (Ascii.nat_of_ascii c)).
  rewrite Ascii.ascii_nat_embedding in H. rewrite Hc in H. apply H. apply in_seq.
  pose proof (Ascii.nat_ascii_bounded c). lia.
Qed.

Lemma Index_cons c s sub : String.prefix sub (String c s) = false -> Index (String c s) sub = S <$> Index s sub.
Proof. unfold Index. cbn [String.index]. intros ->. by destruct (String.index 0 sub s). Qed.

Lemma str_rev_length s : String.length (str_rev s) = String.length s.
Proof. induction s as [|c s IH]; [done|]. simpl. rewrite str_length_app. simpl. lia. Qed.

(** ** Quoted words *)

Definition quoted (s : string) : string := String quote (s +:+ String quote "").

Lemma str_get_app s t : str_at (String.length s) (s +:+ t) = str_at 0 t.
Proof. unfold str_at. induction s as [|c s IH]; [done|]. simpl. exact IH. Qed.

Lemma TrimSpace_quoted s : TrimSpace (quoted s) = quoted s.
Proof. by apply TrimSpace_framed. Qed.

Lemma extract_quoted s : extractQuotedValue (quoted s) = s.
Proof.
  unfold extractQuotedValue. rewrite TrimSpace_quoted. cbv zeta.
  assert (Hlen : String.length (quoted s) = S (S (String.length s))) by (unfold quoted; simpl; rewrite str_length_app; simpl; lia).
  assert (Hq : quotedBy quote (quoted s) = true).
  { unfold quotedBy. rewrite Hlen. replace (S (S (String.length s)) - 1)%nat with (S (String.length s)) by lia.
    unfold quoted. cbn [str_at String.get]. change (String.get (String.length s) (s +:+ String quote "")) with
      (str_at (String.length s) (s +:+ String quote "")). rewrite str_get_app. reflexivity. }
  rewrite Hq, Hlen. cbn [Nat.leb andb orb]. replace (S (S (String.length s)) - 2)%nat with (String.length s) by lia.
  unfold quoted. cbn [str_drop]. apply str_take_app.
Qed.

(** ** INSERT *)

Definition insertQuery (k v : string) : string :=
  "INSERT INTO kv (key, value) VALUES" +:+ String " " (String "(" (quoted k +:+ String "," (String " " (quoted v +:+ String ")" "")))).

Section statements.
Context `{!UnicodeCase, !UnicodeCaseLaws}.

Lemma missing_quoted c s : absent c = true -> c <> quote -> plain s = true -> all_bytes (isNot c) (quoted s) = true.
Proof.
  intros Hc Hq Hs. unfold quoted. rewrite all_bytes_cons, all_bytes_app, (plain_missing c) by done. simpl.
  unfold isNot. by destruct (Ascii.eqb_spec c quote).
Qed.

Lemma insert_parsed k v : plain k = true -> plain v = true -> parseKeyValueFromInsert (insertQuery k v) = Some (Ok (k, v)).
Proof.
  intros Hk Hv. unfold parseKeyValueFromInsert, insertQuery.
  set (rest := String "(" (quoted k +:+ String "," (String " " (quoted v +:+ String ")" "")))).
  rewrite ToUpper_app by (vm_compute; reflexivity).
  replace (Index _ "VALUES") with (Some 28%nat).
  2:{ symmetry. assert (Hu : exists u, ToUpper (String " " rest) = String " " u).
      { exists (ToUpper rest). change (String " " rest) with (String " " "" +:+ rest). by rewrite ToUpper_app by done. }
      destruct Hu as [u ->]. vm_compute. reflexivity. }
  change (28 + 6)%nat with (String.length "INSERT INTO kv (key, value) VALUES"). rewrite sliceFrom_app. cbn [mbind option_bind].
  rewrite TrimSpace_lead. unfold rest.
  assert (Hshape : String "(" (quoted k +:+ String "," (String " " (quoted v +:+ String ")" ""))) =
    String "(" ((quoted k +:+ String "," (String " " (quoted v))) +:+ String ")" "")) by (f_equal; by rewrite str_app_assoc).
  rewrite Hshape, TrimSpace_framed by (vm_compute; reflexivity).
  set (inner := quoted k +:+ String "," (String " " (quoted v))).
  assert (Hin : all_bytes (isNot ")") inner = true).
  { unfold inner. by rewrite all_bytes_app, !all_bytes_cons, !missing_quoted by done. }
  replace (Index _ "(") with (Some 0%nat) by reflexivity.
  replace (Index (String "(" (inner +:+ String ")" "")) ")") with (Some (1 + String.length inner)%nat)
    by (symmetry; apply (Index_byte ")" (String "(" inner) ""); by rewrite all_bytes_cons).
  change (String "(" (inner +:+ String ")" "")) with (String "(" "" +:+ (inner +:+ String ")" "")).
  change (0 + 1)%nat with (String.length (String "(" "")). change (1 + String.length inner)%nat with (String.length (String "(" "") + String.length inner)%nat.
  rewrite slice_mid. cbn [mbind option_bind]. unfold inner. rewrite Split_app by (by apply missing_quoted).
  change (String " " (quoted v)) with (String " " "" +:+ quoted v). rewrite Split_none by (change (String " " "" +:+ quoted v) with (String " " (quoted v)); by rewrite all_bytes_cons, missing_quoted).
  change (String " " "" +:+ quoted v) with (String " " (quoted v)).
  by rewrite TrimSpace_lead, !TrimSpace_quoted, !extract_quoted.
Qed.

(** ** Conditions on the key *)

Definition keyIs (k : string) : string := String " " ("key =" +:+ String " " (quoted k)).

Lemma quoted_upper k : str_map upperByte (quoted k) = quoted (str_map upperByte k).
Proof. unfold quoted. cbn [str_map]. by rewrite str_map_app. Qed.

Lemma upper_keyIs k : plain k = true -> ToUpper (keyIs k) = " KEY = " +:+ quoted (str_map upperByte k).
Proof.
  intros Hk. assert (Ha : all_bytes isAscii (keyIs k) = true).
  { unfold keyIs, quoted. rewrite all_bytes_cons, all_bytes_app, !all_bytes_cons, all_bytes_app, (plain_ascii k) by done. reflexivity. }
  rewrite ToUpper_ascii by done. unfold keyIs. cbn [str_map]. rewrite str_map_app. cbn [str_map]. by rewrite quoted_upper.
Qed.

(** A statement up to its first WHERE. *)
Record endsInWhere (P : string) : Prop := {
  ew_ascii : all_bytes isAscii P = true;
  ew_index u : exists n, Index (str_map upperByte P +:+ String " " u) "WHERE" = Some n /\ (n + 5)%nat = String.length P;
}.

Lemma where_found P k : endsInWhere P -> plain k = true ->
  exists n, Index (ToUpper (P +:+ keyIs k)) "WHERE" = Some n /\ sliceFrom (n + 5) (P +:+ keyIs k) = Some (keyIs k).
Proof.
  intros HP Hk. rewrite ToUpper_app, upper_keyIs by (done || apply HP).
  destruct (ew_index P HP ("KEY = " +:+ quoted (str_map upperByte k))) as (n & Hn & Hlen).
  exists n. split; [exact Hn|]. rewrite Hlen. apply sliceFrom_app.
Qed.

Lemma key_found k : plain k = true -> Index (ToUpper (keyIs k)) "KEY" = Some 1%nat /\
  (fromKey ← sliceFrom 1 (keyIs k); Index fromKey "=") = Some 4%nat /\
  (valuePart ← sliceFrom (1 + 4 + 1) (keyIs k); Some (extractQuotedValue (TrimSpace valuePart))) = Some k.
Proof.
  intros Hk. split; [by rewrite upper_keyIs|]. split.
  - change (keyIs k) with (String " " "" +:+ ("key =" +:+ String " " (quoted k))).
    change 1%nat with (String.length (String " " "")). rewrite sliceFrom_app. reflexivity.
  - change (keyIs k) with (" key =" +:+ String " " (quoted k)). change (1 + 4 + 1)%nat with (String.length " key =").
    rewrite sliceFrom_app. cbn [mbind option_bind]. by rewrite TrimSpace_lead, TrimSpace_quoted, extract_quoted.
Qed.

Lemma key_parsed P k : endsInWhere P -> plain k = true -> parseKeyFromSelect (P +:+ keyIs k) = Some k.
Proof.
  intros HP Hk. destruct (where_found P k HP Hk) as (n & Hn & Hs). destruct (key_found k Hk) as (H1 & H2 & H3).
  unfold parseKeyFromSelect. rewrite Hn, Hs. cbn [mbind option_bind]. rewrite H1.
  destruct (sliceFrom 1 (keyIs k)); [|done]. cbn [mbind option_bind] in *. rewrite H2. exact H3.
Qed.

Lemma no_like k : plain k = true -> Index (ToUpper (keyIs k)) " LIKE " = None.
Proof.
  intros Hk. rewrite upper_keyIs by done. change (" KEY = " +:+ quoted (str_map upperByte k)) with
    (String " " (String "K" (String "E" (String "Y" (String " " (String "=" (String " " (quoted (str_map upperByte k))))))))).
  do 7 (rewrite Index_cons by reflexivity). rewrite (Index_missing " "); [done|done|].
  apply missing_quoted; [done|done|by apply plain_upper].
Qed.

Lemma where_parsed P k : endsInWhere P -> plain k = true ->
  parseWhereClause (P +:+ keyIs k) = Some (Some (mkWhere k false "" "")).
Proof.
  intros HP Hk. destruct (where_found P k HP Hk) as (n & Hn & Hs). destruct (key_found k Hk) as (H1 & H2 & H3).
  unfold parseWhereClause. rewrite Hn, Hs. cbn [mbind option_bind]. rewrite no_like, H1 by done.
  destruct (sliceFrom 1 (keyIs k)); [|done]. cbn [mbind option_bind] in *. rewrite H2.
  destruct (sliceFrom (1 + 4 + 1) (keyIs k)); [|done]. cbn [mbind option_bind] in *. by injection H3 as ->.
Qed.

(** ** SELECT and DELETE *)

Definition selectQuery (k : string) : string := "SELECT value FROM kv WHERE" +:+ keyIs k.
Definition deleteQuery (k : string) : string := "DELETE FROM kv WHERE" +:+ keyIs k.

Lemma select_ends : endsInWhere "SELECT value FROM kv WHERE".
Proof. split; [done|]. intros u. exists 21%nat. by split; [vm_compute|]. Qed.

Lemma delete_ends : endsInWhere "DELETE FROM kv WHERE".
Proof. split; [done|]. intros u. exists 15%nat. by split; [vm_compute|]. Qed.

Lemma trim_statement c P k : frames c quote = true -> TrimSpace (String c P +:+ keyIs k) = String c P +:+ keyIs k.
Proof.
  intros Hf. unfold keyIs, quoted.
  assert (E : String c P +:+ String " " ("key =" +:+ String " " (String quote (k +:+ String quote ""))) =
    String c ((P +:+ (" key = " +:+ String quote k)) +:+ String quote "")).
  { change (String c P +:+ ?x) with (String c (P +:+ x)). f_equal. rewrite str_app_assoc. f_equal. }
  rewrite E. by apply TrimSpace_framed.
Qed.

Lemma select_contains c sub k : all_bytes (isNot c) sub = false -> absent c = true -> c <> quote -> plain k = true ->
  all_bytes (isNot c) "SELECT VALUE FROM KV WHERE KEY = " = true -> Contains (ToUpper (selectQuery k)) sub = false.
Proof.
  intros Hsub Hc Hq Hk Hp. unfold Contains, selectQuery. rewrite ToUpper_app, upper_keyIs by done.
  rewrite (Index_missing c); [done|done|].
  change (str_map upperByte "SELECT value FROM kv WHERE" +:+ (" KEY = " +:+ quoted (str_map upperByte k))) with
    ("SELECT VALUE FROM KV WHERE KEY = " +:+ quoted (str_map upperByte k)).
  rewrite all_bytes_app, Hp. apply missing_quoted; [done|done|by apply plain_upper].
Qed.

Lemma select_columns k : plain k = true -> parseSelectColumns (selectQuery k) = Some ["value"].
Proof.
  intros Hk. unfold parseSelectColumns, selectQuery. rewrite ToUpper_app, upper_keyIs by done.
  replace (Index _ "SELECT") with (Some 0%nat) by (vm_compute; reflexivity).
  replace (Index _ "FROM") with (Some 13%nat) by (vm_compute; reflexivity).
  cbn [Nat.leb]. change ("SELECT value FROM kv WHERE" +:+ keyIs k) with ("SELECT" +:+ (" value " +:+ ("FROM kv WHERE" +:+ keyIs k))).
  change (0 + 6)%nat with (String.length "SELECT"). change 13%nat with (String.length "SELECT" + String.length " value ")%nat.
  rewrite slice_mid. cbn [mbind option_bind]. replace (TrimSpace " value ") with "value" by (vm_compute; reflexivity).
  rewrite ToUpper_ascii by done. replace (String.eqb (TrimSpace (str_map upperByte "value")) "*") with false by (vm_compute; reflexivity).
  replace (Split "value" ",") with ["value"] by reflexivity. cbn [fmap list_fmap]. rewrite ToLower_ascii by done.
  by replace (TrimSpace (str_map lowerByte "value")) with "value" by (vm_compute; reflexivity).
Qed.

End statements.

(** ** Statements outside a transaction *)

Section effects.
Context {S : Type} `{!Store S, !StoreLaws S, !MysqlLib, !TidbParser, !UnicodeCase, !UnicodeCaseLaws, !MapOrder}.
Implicit Types (s : S) (h : MySQLHandler).

Lemma trim_insert k v : TrimSpace (insertQuery k v) = insertQuery k v.
Proof.
  assert (E : insertQuery k v = String "I" (("NSERT INTO kv (key, value) VALUES (" +:+ (quoted k +:+ ", " +:+ quoted v)) +:+ String ")" "")).
  { unfold insertQuery. rewrite !str_app_assoc. reflexivity. }
  rewrite E. by apply TrimSpace_framed.
Qed.

Lemma insert_runs now s h k v : plain k = true -> plain v = true ->
  HandleQuery now s h (insertQuery k v) = Some (putRow now s h k v "failed to insert: ").
Proof.
  intros Hk Hv. unfold HandleQuery. cbv zeta. rewrite trim_insert.
  assert (Hu : exists u, ToUpper (insertQuery k v) = "INSERT INTO KV" +:+ String " " u).
  { unfold insertQuery. rewrite ToUpper_app by (vm_compute; reflexivity). by eexists. }
  destruct Hu as [u ->]. cbn [has_prefix String.prefix]. unfold handleInsert. by rewrite insert_parsed.
Qed.

Lemma delete_runs now s h k : plain k = true -> k <> "" -> activeTx h = None ->
  HandleQuery now s h (deleteQuery k) =
    Some match st_DeleteRange s k "" with
         | (s', Ok (deleted, _, _)) => (s', h, done_ (wrap_u64 deleted))
         | (s', Err e) => (s', h, Err (storeError "failed to delete: " e))
         end.
Proof.
  intros Hk Hne Hno. unfold HandleQuery. cbv zeta. unfold deleteQuery.
  rewrite (trim_statement "D" "ELETE FROM kv WHERE") by done.
  assert (Hu : exists u, ToUpper ("DELETE FROM kv WHERE" +:+ keyIs k) = "DELETE FROM KV" +:+ String " " u).
  { rewrite ToUpper_app by done. by eexists. }
  destruct Hu as [u ->]. cbn [has_prefix String.prefix]. unfold handleDelete, parseKeyFromDelete.
  change (String "D" "ELETE FROM kv WHERE") with "DELETE FROM kv WHERE". rewrite key_parsed by (done || apply delete_ends).
  apply String.eqb_neq in Hne. cbn [mbind option_bind]. by rewrite Hne, Hno.
Qed.

Lemma trim_select k : TrimSpace (selectQuery k) = selectQuery k.
Proof. unfold selectQuery. rewrite (trim_statement "S" "ELECT value FROM kv WHERE" k) by done. done. Qed.

Lemma upper_select k : exists u, ToUpper (selectQuery k) = "SELECT VALUE FROM KV" +:+ String " " u.
Proof. unfold selectQuery. rewrite ToUpper_app by done. by eexists. Qed.

Lemma select_head k : has_prefix "SELECT" (ToUpper (selectQuery k)) = true.
Proof. destruct (upper_select k) as [u ->]. reflexivity. Qed.

Lemma select_from k : Contains (ToUpper (selectQuery k)) " FROM " = true.
Proof. destruct (upper_select k) as [u ->]. unfold Contains. by replace (Index _ " FROM ") with (Some 12%nat) by (vm_compute; reflexivity). Qed.

Lemma select_where k : plain k = true -> parseWhereClause (selectQuery k) = Some (Some (mkWhere k false "" "")).
Proof. apply where_parsed, select_ends. Qed.

Lemma select_planned k : plain k = true -> (exists e, Parse (selectQuery k) = Err e) ->
  selectPlan (selectQuery k) = Some (["value"], Some (mkWhere k false "" "")).
Proof. intros Hk [e He]. unfold selectPlan. by rewrite He, select_columns, select_where by done. Qed.

Lemma select_runs now s h k resp : plain k = true -> activeTx h = None -> (exists e, Parse (selectQuery k) = Err e) ->
  st_Range s k "" 1 0 = Ok resp ->
  HandleQuery now s h (selectQuery k) =
    Some (s, h, withRows (Z.of_nat (length (rr_Kvs resp))) ["value"] ((fun kv => [CellBytes (Value kv)]) <$> rr_Kvs resp)).
Proof.
  intros Hk Hno He Hr. unfold HandleQuery. cbv zeta. rewrite trim_select, select_head. unfold handleSelect. cbv zeta.
  rewrite (select_contains "@" "@@"), (select_contains "(" "VERSION()"), (select_contains "$" "$$") by done. cbn [orb].
  rewrite select_from, select_planned by done. cbn [negb mbind option_bind].
  unfold selectRange, readRevision. rewrite Hno. cbn [isLike wc_key]. rewrite Hr, length_fmap. done.
Qed.

(** C25: On a store that works, and for a plain key and value, an INSERT outside
    a transaction stores the value, a SELECT of the key then answers one row with
    it, and after a DELETE of the key a SELECT answers no row.  [key] is a
    reserved word, which the TiDB parser rejects in the SELECT. *)
Theorem mysql_write_read (now : Z) s h (k v : string)
    (Hready : st_ready 2 s) (Hno : activeTx h = None) (Hk : plain k = true) (Hne : k <> "") (Hv : plain v = true)
    (Hreserved : exists e, Parse (selectQuery k) = Err e) :
  exists s1 s2 n,
    HandleQuery now s h (insertQuery k v) = Some (s1, h, done_ 1) /\
    valuesOf (st_contents s1) = <[k := v]> (valuesOf (st_contents s)) /\
    HandleQuery now s1 h (selectQuery k) = Some (s1, h, withRows 1 ["value"] [[CellBytes v]]) /\
    HandleQuery now s1 h (deleteQuery k) = Some (s2, h, done_ n) /\
    st_contents s2 = outside k "" (st_contents s1) /\
    HandleQuery now s2 h (selectQuery k) = Some (s2, h, withRows 0 ["value"] []).
Proof.
  destruct (st_Put_spec now 1 s k v Hready) as (s1 & r & Ep & Hready1 & Hv1).
  destruct (st_DeleteRange_spec 0 s1 k "" Hready1) as (s2 & [[n kvs] rev] & Ed & Hready2 & Hc2).
  assert (Hrec : exists kv, st_contents s1 !! k = Some kv /\ Value kv = v).
  { assert (E : valuesOf (st_contents s1) !! k = Some v) by (rewrite Hv1; apply lookup_insert_eq).
    unfold valuesOf in E. rewrite lookup_fmap_Some in E. destruct E as (kv & Hval & Hk1). by exists kv. }
  destruct Hrec as (kv & Hk1 & Hval).
  destruct (st_Range_spec 1 s1 k "" 1 Hready1) as (resp1 & Er1 & Hkvs1).
  destruct (st_Range_spec 0 s2 k "" 1 Hready2) as (resp2 & Er2 & Hkvs2).
  exists s1, s2, (wrap_u64 n). split_and!; [|done| | |done|].
  - rewrite insert_runs by done. unfold putRow. by rewrite Hno, Ep.
  - rewrite (select_runs now s1 h k resp1) by done. assert (E : rr_Kvs resp1 = [kv]) by (rewrite Hkvs1; unfold rangeRecords; cbn; by rewrite Hk1).
    rewrite E. by rewrite <- Hval.
  - rewrite delete_runs by done. by rewrite Ed.
  - rewrite (select_runs now s2 h k resp2) by done. assert (E : rr_Kvs resp2 = []); [|by rewrite E].
    rewrite Hkvs2, Hc2. unfold rangeRecords. cbn. replace (outside k "" (st_contents s1) !! k) with (@None KeyValue); [done|]. symmetry. unfold outside.
    apply map_lookup_filter_None_2. right. intros x _ Hm. simpl in Hm. unfold matchWatch in Hm. cbn in Hm.
    by rewrite String.eqb_refl in Hm.
Qed.

End effects.

(** ** LIKE *)

(** The last byte of a prefix. *)
Definition endsBelow255 (p : string) : bool :=
  match str_rev p with EmptyString => false | String c _ => byte_val c <? 255 end.

Lemma getPrefixEndKey_snoc q c : byte_val c < 255 ->
  getPrefixEndKey (q +:+ String c "") = q +:+ String (byte_of (byte_val c + 1)) "".
Proof.
  intros Hc. unfold getPrefixEndKey. replace (String.eqb (q +:+ String c "") "") with false by (symmetry; apply String.eqb_neq; by destruct q).
  rewrite str_rev_app. change (str_rev (String c "") +:+ str_rev q) with (String c (str_rev q)). cbn [increment].
  replace (byte_val c <? 255) with true by (symmetry; apply Z.ltb_lt; lia). cbn [str_rev]. by rewrite str_rev_involutive.
Qed.

Lemma str_compare_cons a b s t : String.compare (String a s) (String b t) =
  match Ascii.compare a b with Eq => String.compare s t | c => c end.
Proof. done. Qed.

Lemma prefix_cons a b s t : String.prefix (String a s) (String b t) = Ascii.eqb a b && String.prefix s t.
Proof. simpl. destruct (Ascii.ascii_dec a b) as [->|Hn]; [by rewrite Ascii.eqb_refl|]. by apply Ascii.eqb_neq in Hn as ->. Qed.

Lemma in_prefix_range q c key : byte_val c < 255 ->
  str_leb (q +:+ String c "") key && str_ltb key (q +:+ String (byte_of (byte_val c + 1)) "") = has_prefix (q +:+ String c "") key.
Proof.
  intros Hc. unfold str_leb, str_ltb, String.leb, String.ltb, has_prefix. revert key.
  induction q as [|e q IH]; intros [|d key].
  - done.
  - change ("" +:+ ?x) with x. rewrite !str_compare_cons, prefix_cons, !ascii_compare_val, byte_val_of.
    pose proof (byte_val_range c). rewrite Z.mod_small by lia.
    replace (String.prefix "" key) with true by (by destruct key). rewrite andb_true_r.
    destruct (Z.compare_spec (byte_val c) (byte_val d)) as [Heq|Hlt|Hgt].
    + assert (Ec : c = d) by (by rewrite <- (byte_of_val c), Heq, byte_of_val). subst d. rewrite Ascii.eqb_refl.
      destruct (Z.compare_spec (byte_val c) (byte_val c + 1)); [lia| |lia]. by destruct key.
    + replace (Ascii.eqb c d) with false by (symmetry; apply Ascii.eqb_neq; intros ->; lia).
      destruct (Z.compare_spec (byte_val d) (byte_val c + 1)); [by destruct key|lia|done].
    + by replace (Ascii.eqb c d) with false by (symmetry; apply Ascii.eqb_neq; intros ->; lia).
  - done.
  - change (String e q +:+ ?x) with (String e (q +:+ x)). rewrite !str_compare_cons, prefix_cons, !ascii_compare_val.
    destruct (Z.compare_spec (byte_val e) (byte_val d)) as [Heq|Hlt|Hgt].
    + assert (Ec : e = d) by (by rewrite <- (byte_of_val e), Heq, byte_of_val). subst d.
      rewrite Z.compare_refl, Ascii.eqb_refl. exact (IH key).
    + replace (Ascii.eqb e d) with false by (symmetry; apply Ascii.eqb_neq; intros ->; lia).
      destruct (Z.compare_spec (byte_val d) (byte_val e)); [lia|lia|done].
    + by replace (Ascii.eqb e d) with false by (symmetry; apply Ascii.eqb_neq; intros ->; lia).
Qed.

(** The range a LIKE asks the store for names exactly the keys with the
    prefix, if the prefix is empty or does not end in byte 255. *)
Theorem like_range_exact (prefix key : string) (Hp : prefix = "" \/ endsBelow255 prefix = true) :
  matchWatch key prefix (getPrefixEndKey prefix) = has_prefix prefix key.
Proof.
  destruct Hp as [->|Hp].
  - unfold matchWatch, has_prefix. replace (str_leb "" key) with true by (by destruct key). by destruct key.
  - unfold endsBelow255 in Hp. destruct (str_rev prefix) as [|c r] eqn:E; [done|]. apply Z.ltb_lt in Hp.
    assert (Eq : prefix = str_rev r +:+ String c "") by (by rewrite <- (str_rev_involutive prefix), E).
    rewrite Eq, getPrefixEndKey_snoc by done. set (q := str_rev r). unfold matchWatch.
    replace (String.eqb (q +:+ String (byte_of (byte_val c + 1)) "") "") with false by (symmetry; apply String.eqb_neq; by destruct q).
    replace (String.eqb (q +:+ String (byte_of (byte_val c + 1)) "") nulKey) with false; [by rewrite orb_false_l, in_prefix_range|].
    symmetry. apply String.eqb_neq. intros En. destruct q as [|d q].
    + change ("" +:+ ?x) with x in En. unfold nulKey in En. injection En as En. apply (f_equal byte_val) in En.
      rewrite byte_val_of in En. pose proof (byte_val_range c). rewrite Z.mod_small in En by lia. change (byte_val Ascii.zero) with 0 in En. lia.
    + change (String d q +:+ ?x) with (String d (q +:+ x)) in En. unfold nulKey in En. injection En as _ En. by destruct q.
Qed.

Lemma like_range_exact_witness : matchWatch "user:7" "user:" (getPrefixEndKey "user:") = true.
Proof. rewrite (like_range_exact "user:" "user:7" (or_intror eq_refl)). reflexivity. Defined.

(** A prefix that ends in byte 255 reads another key, one of such bytes only
    misses keys. *)
Example like_range_255 :
  matchWatch "b" ("a" +:+ bytes_of [255]) (getPrefixEndKey ("a" +:+ bytes_of [255])) = true /\
  matchWatch (bytes_of [255; 255; 1]) (bytes_of [255]) (getPrefixEndKey (bytes_of [255])) = false.
Proof. by vm_compute. Qed.
