(* ===== verification/MysqlExamples.v ===== *)
(** * Where SQL statements go wrong, and concrete runs

    What the front end does with conditions it does not know, with statements
    that are cut out of bounds, and with transactions that read keys nobody has
    written; libraries that make these runs concrete. *)

From S2P Require Import Prelude GoBytes GoStrings KvTypes ShardedMap MemoryEtcd EtcdFacts EtcdOps StoreApi MysqlHandler MysqlTransactions MysqlStatements.

(** ** Conditions that are dropped *)

(** Conditions [convertWhereCondition] makes nothing of. *)
Definition unknownCondition (w : WhereCondition) : bool :=
  match w_Type w with
  | ConditionTypeSimple => negb (w_IsLike w) && negb (String.eqb (w_Operator w) "eq" && String.eqb (w_Key w) "key")
  | _ => true
  end.

Section where_.
Context {S : Type} `{!Store S, !MysqlLib, !TidbParser, !UnicodeCase}.
Implicit Types (s : S) (h : MySQLHandler).

(** Trees with such a condition: AND, OR, IN, and comparisons but for equality
    of the key. *)
Lemma unknown_parsed e w : parseWhereExpr e = Ok w ->
  match e with
  | BinaryOperationExpr (LogicAnd | LogicOr) _ _ | PatternInExpr _ _ => unknownCondition w = true
  | BinaryOperationExpr op (ColumnNameExpr name) _ =>
      String.eqb (opcode_String op) "eq" && String.eqb name "key" = false -> unknownCondition w = true
  | _ => True
  end.
Proof.
  destruct e as [| |op l r|e l| | |]; try done; cbn [parseWhereExpr].
  - destruct op; cbn [parseBinaryOp].
    1,2: unfold result_bind; destruct (parseWhereExpr l); [|done]; destruct (parseWhereExpr r); [|done]; by intros [= <-].
    all: destruct l; try done; destruct (extractValue r); try done; intros [= <-] Hno; unfold unknownCondition; cbn in *; by rewrite Hno.
  - unfold parseInExpr. destruct e; try done. by intros [= <-].
Qed.

(** A SELECT the parser understands, with a condition the front end does not,
    answers the first hundred keys of the store, whatever the condition says. *)
Theorem unknown_condition_reads_everything s h (query : string) (plan : QueryPlan) (w : WhereCondition) (resp : RangeResponse)
    (Hparse : Parse query = Ok plan) (Hw : p_Where plan = Some w) (Hun : unknownCondition w = true)
    (Hcols : Columns plan <> []) (Hno : activeTx h = None)
    (Hsys : Contains (ToUpper query) "@@" || Contains (ToUpper query) "VERSION()" || Contains (ToUpper query) "$$" = false)
    (Hfrom : Contains (ToUpper query) " FROM " = true) (Hr : st_Range s "" nulKey 100 0 = Ok resp) :
  handleSelect s h query =
    Some (h, withRows (Z.of_nat (length (rr_Kvs resp))) (Columns plan) ((fun kv => cellOf kv <$> Columns plan) <$> rr_Kvs resp)).
Proof.
  unfold handleSelect. cbv zeta. rewrite Hsys, Hfrom. cbn [negb]. unfold selectPlan. rewrite Hparse, Hw.
  assert (Hc : convertWhereCondition (Some w) = Some None).
  { unfold unknownCondition in Hun. unfold convertWhereCondition. destruct (w_Type w); try done.
    apply andb_true_iff in Hun as [Hl%negb_true_iff He%negb_true_iff]. by rewrite Hl, He. }
  rewrite Hc. cbn [mbind option_bind]. destruct (Columns plan) as [|c cols]; [done|].
  unfold selectRange, readRevision. by rewrite Hno, Hr, length_fmap.
Qed.

(** A parsed SELECT of all columns answers a column named by a star, and nothing in it. *)
Lemma star_reads_nothing (kvs : list KeyValue) :
  (fun kv => cellOf kv <$> ["*"]) <$> kvs = replicate (length kvs) [CellNil].
Proof. induction kvs as [|kv kvs IH]; [done|]. rewrite fmap_cons, IH. done. Qed.

End where_.

(** ** Statements that panic *)

Section panics.
Context {S : Type} `{!Store S, !MysqlLib, !TidbParser, !UnicodeCase, !UnicodeCaseLaws, !MapOrder}.
Implicit Types (s : S) (h : MySQLHandler).

Definition closesFirst : string := "INSERT INTO kv VALUES )(".
Definition whereFirst : string := "UPDATE kv WHERE key = 'a' SET value = 'b'".

(** On any store and connection, an INSERT whose parentheses are in the wrong
    order and an UPDATE whose WHERE comes before SET slice out of range: the
    goroutine of the connection panics, in or out of a transaction. *)
Theorem statements_panic (now : Z) s h :
  HandleQuery now s h closesFirst = None /\ HandleQuery now s h whereFirst = None.
Proof.
  split.
  - unfold HandleQuery. cbv zeta. replace (TrimSpace closesFirst) with closesFirst by (vm_compute; reflexivity).
    assert (Hu : ToUpper closesFirst = "INSERT INTO KV VALUES )(") by (rewrite ToUpper_ascii by (vm_compute; reflexivity); reflexivity).
    rewrite Hu. cbn [has_prefix String.prefix]. unfold handleInsert, parseKeyValueFromInsert. rewrite Hu. reflexivity.
  - unfold HandleQuery. cbv zeta. replace (TrimSpace whereFirst) with whereFirst by (vm_compute; reflexivity).
    assert (Hu : ToUpper whereFirst = "UPDATE KV WHERE KEY = 'A' SET VALUE = 'B'") by (rewrite ToUpper_ascii by (vm_compute; reflexivity); reflexivity).
    rewrite Hu. cbn [has_prefix String.prefix]. unfold handleUpdate, parseKeyValueFromUpdate. rewrite Hu. reflexivity.
Qed.

(** U+0250 takes two bytes and its upper case, U+2C6F, three: the place of WHERE
    in the upper-case statement is past the end of the statement itself. *)
Definition turnedA : string := bytes_of [201; 144].
Definition longUpper : string := "DELETE FROM " +:+ turnedA +:+ turnedA +:+ turnedA +:+ turnedA +:+ turnedA +:+ turnedA +:+ " WHERE".

Lemma non_ascii_panic (now : Z) s h : unicode_ToUpper 592 = 11375 -> HandleQuery now s h longUpper = None.
Proof.
  intros Hup. unfold HandleQuery. cbv zeta. replace (TrimSpace longUpper) with longUpper by (vm_compute; reflexivity).
  assert (Hmap : forall t, ToUpper (turnedA +:+ t) = bytes_of [226; 177; 175] +:+ ToUpper t).
  { intros t. unfold ToUpper. change (turnedA +:+ t) with (String (byte_of 201) (String (byte_of 144) t)). cbn [goMap].
    replace (decodeRune _) with (592, 2%nat) by (vm_compute; reflexivity). cbn [goMap Nat.sub]. by rewrite Hup. }
  assert (Hu : ToUpper longUpper = "DELETE FROM " +:+ bytes_of [226; 177; 175; 226; 177; 175; 226; 177; 175; 226; 177; 175; 226; 177; 175; 226; 177; 175] +:+ " WHERE").
  { unfold longUpper. rewrite ToUpper_app by (vm_compute; reflexivity). rewrite !Hmap. rewrite ToUpper_ascii by (vm_compute; reflexivity). reflexivity. }
  rewrite Hu. unfold handleDelete, parseKeyFromDelete, parseKeyFromSelect. rewrite Hu. vm_compute. reflexivity.
Qed.

End panics.

(** ** Two connections *)

Section isolation.
Context {M : Type} `{!KvMap M, !KvMapLaws M, !MapOrder, !MysqlLib, !TidbParser, !UnicodeCase, !UnicodeCaseLaws}.
Implicit Types (s : MemoryEtcd M) (h : MySQLHandler).

#[local] Abbreviation data s := (contents (kvData s)).

(** Statements of the two, in the order the store sees them, and the answers. *)
Fixpoint run2 (now : Z) s h1 h2 (l : list (bool * string)) :
    option (MemoryEtcd M * list (result (MysqlError EtcdError LibError) Result)) :=
  match l with
  | [] => Some (s, [])
  | (first, query) :: l' =>
      '(s', h', r) ← HandleQuery now s (if first : bool then h1 else h2) query;
      '(s'', rs) ← (if first then run2 now s' h' h2 l' else run2 now s' h1 h' l');
      Some (s'', r :: rs)
  end.

Definition A (query : string) : bool * string := (true, query).
Definition B (query : string) : bool * string := (false, query).

(** The answer to a SELECT of one key that found these records. *)
Definition rowsOf (kvs : list KeyValue) : result (MysqlError EtcdError LibError) Result :=
  withRows (Z.of_nat (length kvs)) ["value"] ((fun kv => [CellBytes (Value kv)]) <$> kvs).

Lemma begin_runs now s h : activeTx h = None -> HandleQuery now s h "BEGIN" = Some (s, createTransaction s h, done_ 0).
Proof.
  intros Hno. unfold HandleQuery. cbv zeta. replace (TrimSpace "BEGIN") with "BEGIN" by (vm_compute; reflexivity).
  rewrite ToUpper_ascii by done. cbn. unfold handleBegin. by rewrite Hno.
Qed.

Lemma commit_runs now s h : HandleQuery now s h "COMMIT" = Some (handleCommit now s h).
Proof.
  unfold HandleQuery. cbv zeta. replace (TrimSpace "COMMIT") with "COMMIT" by (vm_compute; reflexivity).
  rewrite ToUpper_ascii by done. done.
Qed.

(** A SELECT of a key in a transaction answers the record that is in the store
    now, whatever the transaction has seen before. *)
Lemma select_runs_in now s h tx k : wf_etcd s -> plain k = true -> active tx = true -> (exists e, Parse (selectQuery k) = Err e) ->
  let kvs := option_list (data s !! k) in
  HandleQuery now s (setTransaction h (Some tx)) (selectQuery k) = Some (s, setTransaction h (Some (trackReads tx kvs)), rowsOf kvs).
Proof.
  intros Hwf Hk Htx He kvs. unfold HandleQuery. cbv zeta. rewrite trim_select, select_head. unfold handleSelect. cbv zeta.
  rewrite (select_contains "@" "@@"), (select_contains "(" "VERSION()"), (select_contains "$" "$$") by done. cbn [orb].
  rewrite select_from, select_planned by done. cbn [negb mbind option_bind].
  unfold selectRange. cbn [isLike wc_key st_Range memory_store]. rewrite (activeTx_set h tx Htx), length_fmap.
  assert (E : rr_Kvs (RangeQuery s k "" 1 (readRevision (setTransaction h (Some tx)))) = kvs).
  { rewrite memory_range by done. cbn. unfold rangeRecords, kvs. cbn. by destruct (data s !! k). }
  rewrite E. done.
Qed.

Lemma insert_runs_in now s h tx k v : plain k = true -> plain v = true -> active tx = true ->
  HandleQuery now s (setTransaction h (Some tx)) (insertQuery k v) = Some (s, setTransaction h (Some (buffer tx (mkTxOp TxPUT k v))), done_ 1).
Proof. intros Hk Hv Htx. rewrite insert_runs by done. unfold putRow. by rewrite (activeTx_set h tx Htx). Qed.

Lemma commit_current s tx : wf_etcd s ->
  (forall k r, readSet tx !! k = Some r -> exists kv, data s !! k = Some kv /\ ModRevision kv = r) ->
  forallb (evaluateCompare s) (commitCompares tx) = true.
Proof.
  intros Hwf Hread. apply forallb_forall. intros c Hc. apply list_elem_of_In, list_elem_of_fmap in Hc as ([k r] & -> & Hin).
  apply elem_of_range_map, Hread in Hin as (kv & Hk & <-). unfold evaluateCompare. cbn [cmp_Key].
  cbn [fst snd]. rewrite (Get_contents _ _ (wd_map _ _ (we_data _ Hwf))), Hk. unfold compareRecord. cbn. apply Z.eqb_refl.
Qed.

(** A COMMIT whose comparisons hold writes. *)
Lemma commit_one_runs now s h tx op : wf_etcd s -> revision s + 1 <= int64_max -> activeTx h = Some tx -> operations tx = [op] ->
  forallb (evaluateCompare s) (commitCompares tx) = true ->
  exists s', handleCommit now s h = (s', removeTransaction h, done_ 1) /\ wf_etcd s' /\ revision s' <= revision s + 1 /\
    valuesOf (data s') = applyTxOp (valuesOf (data s)) op.
Proof.
  intros Hwf Hr Htx Hop Hc. destruct (txnOp_commit now s op Hwf Hr) as (s' & resp & E & Hwf' & Hr' & Hv). exists s'.
  split; [|done]. unfold handleCommit. rewrite Htx, Hop. cbn [st_Txn memory_store]. unfold Txn, txnUnlocked. rewrite Hc.
  cbn [fmap list_fmap txnOps]. rewrite E. done.
Qed.

Lemma put_runs now s h k v : wf_etcd s -> revision s + 1 <= int64_max -> plain k = true -> plain v = true -> activeTx h = None ->
  exists s' kv, HandleQuery now s h (insertQuery k v) = Some (s', h, done_ 1) /\ wf_etcd s' /\ revision s' = revision s + 1 /\
    data s' = <[k := kv]> (data s) /\ Value kv = v.
Proof.
  intros Hwf Hr Hk Hv Hno. destruct (storeKv_spec s k v 0 Hwf Hr) as (s' & E & Hwf' & Hd & Hr' & _).
  eexists (notifyWatches s' _), _. split; [|split; [by apply wf_notifyWatches|split; [exact Hr'|split; [exact Hd|by destruct (data s !! k)]]]].
  rewrite insert_runs by done. unfold putRow. rewrite Hno. cbn [st_PutWithLease memory_store]. unfold PutWithLease. cbn zeta.
  rewrite E. done.
Qed.

(** C40: On the in-memory store, whatever it holds, and for all plain keys and
    values, with a parser that refuses the SELECT (KEY is a reserved word),
    transactions are not isolated.  A key that is not there leaves no trace
    in the read set: two transactions that both find it missing and both insert it
    both commit, and the second value stays.  And a transaction that reads a key,
    written by somebody else in between, a second time sees the new value, forgets
    the first read, and commits. *)
Theorem mysql_transactions_not_isolated (now : Z) s h1 h2 (k k' v1 v2 : string)
    (Hwf : wf_etcd s) (Hr : revision s + 2 <= int64_max) (Hn1 : activeTx h1 = None) (Hn2 : activeTx h2 = None)
    (Hk : plain k = true) (Hk' : plain k' = true) (Hv1 : plain v1 = true) (Hv2 : plain v2 = true)
    (Hreserved : exists e, Parse (selectQuery k) = Err e) :
  (data s !! k = None ->
   exists s', run2 now s h1 h2
     [A "BEGIN"; B "BEGIN"; A (selectQuery k); B (selectQuery k); A (insertQuery k v1); B (insertQuery k v2); A "COMMIT"; B "COMMIT"] =
     Some (s', [done_ 0; done_ 0; rowsOf []; rowsOf []; done_ 1; done_ 1; done_ 1; done_ 1]) /\
     valuesOf (data s') = <[k := v2]> (valuesOf (data s))) /\
  (exists s' kv, run2 now s h1 h2
     [A "BEGIN"; A (selectQuery k); B (insertQuery k v1); A (selectQuery k); A (insertQuery k' v2); A "COMMIT"] =
     Some (s', [done_ 0; rowsOf (option_list (data s !! k)); done_ 1; rowsOf [kv]; done_ 1; done_ 1]) /\
     Value kv = v1 /\ valuesOf (data s') = <[k' := v2]> (<[k := v1]> (valuesOf (data s)))).
Proof.
  split.
  - intros Hnone. destruct (commit_one_runs now s (setTransaction h1 (Some (mkTransaction true (CurrentRevision s) [mkTxOp TxPUT k v1] ∅)))
      _ (mkTxOp TxPUT k v1) Hwf ltac:(lia) eq_refl eq_refl) as (s1 & E1 & Hwf1 & Hr1 & Hval1); [by apply commit_current|].
    destruct (commit_one_runs now s1 (setTransaction h2 (Some (mkTransaction true (CurrentRevision s) [mkTxOp TxPUT k v2] ∅)))
      _ (mkTxOp TxPUT k v2) Hwf1 ltac:(lia) eq_refl eq_refl) as (s2 & E2 & _ & _ & Hval2); [by apply commit_current|].
    exists s2. split; [|by rewrite Hval2, Hval1; apply insert_insert_eq].
    cbn [run2 A B]. rewrite (begin_runs now s h1) by done. cbn [mbind option_bind]. rewrite (begin_runs now s h2) by done. cbn [mbind option_bind]. unfold createTransaction.
    rewrite (select_runs_in now s h1) by done; rewrite ?Hnone. cbn [mbind option_bind option_list].
    rewrite (select_runs_in now s h2) by done; rewrite ?Hnone. cbn [mbind option_bind option_list].
    rewrite (insert_runs_in now s h1) by done. cbn [mbind option_bind].
    rewrite (insert_runs_in now s h2) by done. cbn [mbind option_bind].
    rewrite commit_runs. match goal with |- context [handleCommit now s ?h] => change h with
      (setTransaction h1 (Some (mkTransaction true (CurrentRevision s) [mkTxOp TxPUT k v1] ∅))) end. rewrite E1. cbn [mbind option_bind].
    rewrite commit_runs. match goal with |- context [handleCommit now s1 ?h] => change h with
      (setTransaction h2 (Some (mkTransaction true (CurrentRevision s) [mkTxOp TxPUT k v2] ∅))) end. rewrite E2. done.
  - destruct (put_runs now s h2 k v1 Hwf ltac:(lia) Hk Hv1 Hn2) as (s1 & kv & E1 & Hwf1 & Hr1 & Hd1 & Hval).
    set (tx := trackReads (trackReads (mkTransaction true (CurrentRevision s) [] ∅) (option_list (data s !! k))) [kv]).
    assert (Hkey : Key kv = k) by (apply (wd_keyed _ _ (we_data _ Hwf1)); rewrite Hd1; apply lookup_insert_eq).
    destruct (commit_one_runs now s1 (setTransaction h1 (Some (buffer tx (mkTxOp TxPUT k' v2)))) _ (mkTxOp TxPUT k' v2) Hwf1 ltac:(lia)
      eq_refl eq_refl) as (s2 & E2 & _ & _ & Hval2).
    { apply commit_current; [done|]. intros j r. cbn [buffer tx trackReads readSet fold_left]. rewrite Hkey, lookup_insert_Some.
      intros [[<- <-]|[Hne Hj]]; [exists kv; by rewrite Hd1, lookup_insert_eq|].
      destruct (data s !! k) as [kv0|] eqn:E0; cbn in Hj; [|done].
      rewrite (wd_keyed _ _ (we_data _ Hwf) k kv0 E0), lookup_insert_ne in Hj by done. done. }
    exists s2, kv. split; [|split; [exact Hval|rewrite Hval2, Hd1; unfold valuesOf; by rewrite fmap_insert, Hval]].
    cbn [run2 A B]. rewrite (begin_runs now s h1) by done. cbn [mbind option_bind]. unfold createTransaction.
    rewrite (select_runs_in now s h1) by done. cbn [mbind option_bind].
    rewrite E1. cbn [mbind option_bind].
    rewrite (select_runs_in now s1 h1) by done; rewrite Hd1, lookup_insert_eq. cbn [mbind option_bind option_list].
    rewrite (insert_runs_in now s1 h1) by done. cbn [mbind option_bind].
    rewrite commit_runs. match goal with |- context [handleCommit now s1 ?h] => change h with
      (setTransaction h1 (Some (buffer tx (mkTxOp TxPUT k' v2)))) end. rewrite E2. done.
Qed.

End isolation.

(** ** Libraries for concrete runs *)

#[export] Instance asciiCase : UnicodeCase := {
  unicode_ToUpper r := if (97 <=? r) && (r <=? 122) then r - 32 else r;
  unicode_ToLower r := if (65 <=? r) && (r <=? 90) then r + 32 else r;
}.

#[export] Instance asciiCase_laws : UnicodeCaseLaws.
Proof. by split. Qed.

#[export] Instance listRows : MysqlLib := {
  Resultset := list string * list (list Cell);
  LibError := string;
  BuildSimpleResultset names data := Ok (names, data);
}.

Definition opcodeName (op : Opcode) : string :=
  match op with
  | LogicAnd => "and" | LogicOr => "or" | EQ => "eq" | NE => "ne" | LT => "lt" | LE => "le" | GT => "gt" | GE => "ge"
  | OpcodeOther _ => "other"
  end.

(** A parser that rejects every statement, as TiDB's does one that uses [key]
    as a name, and one for a single tree. *)
Definition rejecting : TidbParser := {| tidb_Parse _ := Err "syntax error"; opcode_String := opcodeName |}.
Definition knowing (stmt : StmtNode) : TidbParser := {| tidb_Parse _ := Ok [stmt]; opcode_String := opcodeName |}.

#[local] Existing Instance rejecting.

Definition emptyStore : MemoryEtcd ShardedMap := NewMemoryEtcd.
Definition connection : MySQLHandler := NewMySQLHandler (NewAuthProvider "root" "").

Lemma mysql_write_read_witness : exists s1,
  HandleQuery 0 s1 connection (selectQuery "user:1") = Some (s1, connection, withRows 1 ["value"] [[CellBytes "anna"]]).
Proof.
  destruct (mysql_write_read 0 emptyStore connection "user:1" "anna") as (s1 & s2 & n & _ & _ & Hsel & _).
  - split; [apply wf_NewMemoryEtcd|vm_compute; discriminate].
  - reflexivity.
  - reflexivity.
  - discriminate.
  - reflexivity.
  - exists (ParseFailed "syntax error"). reflexivity.
  - exists s1. exact Hsel.
Defined.

(** ** Two connections, concretely *)

Definition wrote (n : Z) : result (MysqlError EtcdError string) (Result (H := listRows)) := Ok (mkResult n None).
Definition saw (values : list string) : result (MysqlError EtcdError string) (Result (H := listRows)) :=
  Ok (mkResult (Z.of_nat (length values)) (Some (["value"], (fun v => [CellBytes v]) <$> values))).

Lemma mysql_transactions_not_isolated_witness :
  (exists s, run2 0 emptyStore connection connection
     [A "BEGIN"; B "BEGIN"; A (selectQuery "a"); B (selectQuery "a"); A (insertQuery "a" "1"); B (insertQuery "a" "2"); A "COMMIT"; B "COMMIT"] =
     Some (s, [wrote 0; wrote 0; saw []; saw []; wrote 1; wrote 1; wrote 1; wrote 1]) /\
     valuesOf (contents (kvData s)) = {["a" := "2"%string]}) /\
  (exists s kv, run2 0 emptyStore connection connection
     [A "BEGIN"; A (selectQuery "a"); B (insertQuery "a" "1"); A (selectQuery "a"); A (insertQuery "b" "2"); A "COMMIT"] =
     Some (s, [wrote 0; saw []; wrote 1; rowsOf [kv]; wrote 1; wrote 1]) /\ Value kv = "1"%string).
Proof.
  destruct (mysql_transactions_not_isolated 0 emptyStore connection connection "a" "b" "1" "2") as [H1 H2].
  - apply wf_NewMemoryEtcd.
  - vm_compute. discriminate.
  - reflexivity.
  - reflexivity.
  - reflexivity.
  - reflexivity.
  - reflexivity.
  - reflexivity.
  - exists (ParseFailed "syntax error"). reflexivity.
  - assert (E0 : contents (kvData emptyStore) !! "a" = None) by (vm_compute; reflexivity). split.
    + destruct (H1 E0) as (s & E & Hv). exists s. split; [exact E|]. rewrite Hv. vm_compute. reflexivity.
    + destruct H2 as (s & kv & E & Hv & _). exists s, kv. rewrite E0 in E. split; [exact E|exact Hv].
Defined.

(** A conflict is found when the record that was read has changed. *)
Example mysql_conflict :
  exists s, run2 0 emptyStore connection connection
    [A (insertQuery "a" "1"); A "BEGIN"; A (selectQuery "a"); B (insertQuery "a" "2"); A (insertQuery "b" "3"); A "COMMIT"] =
    Some (s, [wrote 1; wrote 0; saw ["1"]; wrote 1; wrote 1; Err (NewError ER_LOCK_DEADLOCK conflictText None)]).
Proof. eexists. vm_compute. reflexivity. Qed.

(** Values are cut at the first comma and at the first closing parenthesis, and
    the order of the columns in the statement is not looked at. *)
Example insert_cut :
  parseKeyValueFromInsert "INSERT INTO kv (key, value) VALUES ('a', 'x,y')" = Some (Ok ("a", "'x")) /\
  parseKeyValueFromInsert "INSERT INTO kv (key, value) VALUES ('a', 'f(x)')" = Some (Ok ("a", "'f(x")) /\
  parseKeyValueFromInsert "INSERT INTO kv (value, key) VALUES ('v', 'k')" = Some (Ok ("v", "k")).
Proof. by vm_compute. Qed.

(** A transaction that reads one key and writes another while a third changes. *)
Definition store1 : MemoryEtcd ShardedMap := apply 0 emptyStore (OPut "a" "1" 0).
Definition begun : MySQLHandler := (handleBegin store1 connection).1.
Definition store2 : MemoryEtcd ShardedMap := apply 0 store1 (OPut "c" "9" 0).

Definition handlerAfter (s : MemoryEtcd ShardedMap) (h : MySQLHandler) (query : string) : MySQLHandler :=
  match HandleQuery 0 s h query with Some (_, h', _) => h' | None => h end.

Definition hasRead : MySQLHandler := handlerAfter store1 begun (selectQuery "a").
Definition hasWritten : MySQLHandler := handlerAfter store2 hasRead (insertQuery "b" "2").
Definition readRecords : gmap string KeyValue := remember ∅ (queryReads store1 begun (selectQuery "a")).

Lemma emptyStore_wf : wf_etcd emptyStore.
Proof. apply wf_NewMemoryEtcd. Qed.

Lemma hasWritten_in_transaction : in_transaction store2 hasWritten readRecords.
Proof.
  assert (Hwf1 : wf_etcd store1) by (apply (apply_wf 0 emptyStore (OPut "a" "1" 0) emptyStore_wf); vm_compute; discriminate).
  assert (H1 : in_transaction store1 begun ∅) by (apply it_begin; [exact Hwf1|reflexivity]).
  assert (H2 : in_transaction store1 hasRead readRecords).
  { destruct (HandleQuery 0 store1 begun (selectQuery "a")) as [[[s' h'] r]|] eqn:E; [|vm_compute in E; discriminate].
    assert (Es : s' = store1) by (vm_compute in E; injection E as <- _ _; vm_compute; reflexivity).
    assert (Eh : h' = hasRead) by (unfold hasRead, handlerAfter; by rewrite E). rewrite Es, Eh in E.
    refine (it_query 0 store1 begun ∅ _ store1 hasRead r H1 E _). vm_compute. by eexists. }
  assert (H3 : in_transaction store2 hasRead readRecords).
  { apply (it_other store1); [exact H2|]. exists 0, (OPut "c" "9" 0). split; [vm_compute; discriminate|reflexivity]. }
  destruct (HandleQuery 0 store2 hasRead (insertQuery "b" "2")) as [[[s' h'] r]|] eqn:E; [|vm_compute in E; discriminate].
  assert (Es : s' = store2) by (vm_compute in E; injection E as <- _ _; vm_compute; reflexivity).
  assert (Eh : h' = hasWritten) by (unfold hasWritten, handlerAfter; by rewrite E). rewrite Es, Eh in E.
  refine (it_query 0 store2 hasRead readRecords _ store2 hasWritten r H3 E _). vm_compute. by eexists.
Qed.

Lemma mysql_commit_validates_reads_witness : exists s',
  handleCommit 0 store2 hasWritten = (s', connection, wrote 1) /\
  valuesOf (contents (kvData s')) = fold_left applyTxOp [mkTxOp TxPUT "b" "2"] (valuesOf (contents (kvData store2))).
Proof.
  destruct (handleCommit 0 store2 hasWritten) as [[s' h'] r] eqn:E.
  assert (Er : r = wrote 1) by (vm_compute in E; injection E as _ _ <-; reflexivity).
  assert (Eh : h' = connection) by (vm_compute in E; injection E as _ <- _; reflexivity).
  destruct (activeTx hasWritten) as [tx|] eqn:Etx; [|vm_compute in Etx; discriminate].
  assert (Eops : operations tx = [mkTxOp TxPUT "b" "2"]) by (vm_compute in Etx; injection Etx as <-; reflexivity).
  destruct (mysql_commit_validates_reads 0 store2 hasWritten readRecords tx s' h' r hasWritten_in_transaction Etx
    ltac:(rewrite Eops; discriminate) ltac:(rewrite Eops; vm_compute; discriminate) E) as [_ H].
  rewrite Er in H. cbn in H. destruct H as (_ & _ & Hv). exists s'. rewrite Er, Eh. split; [reflexivity|].
  rewrite Eops in Hv. exact Hv.
Defined.

(** [SELECT value FROM kv WHERE c = 'x' AND d = 'y'] as a tree. *)
Definition andStmt : StmtNode := Select (mkSelectStmt (Some (TableNameRef "kv"))
  (Some [mkSelectField false (Some (ColumnNameExpr "value"))])
  (Some (BinaryOperationExpr LogicAnd (BinaryOperationExpr EQ (ColumnNameExpr "c") (ValueExpr (VString "x")))
                                      (BinaryOperationExpr EQ (ColumnNameExpr "d") (ValueExpr (VString "y"))))) None).

Definition andQuery : string := "SELECT value FROM kv WHERE c = 'x' AND d = 'y'".

Lemma unknown_condition_reads_everything_witness :
  handleSelect (H0 := knowing andStmt) store1 connection andQuery =
    Some (connection, withRows 1 ["value"] [[CellBytes "1"]]).
Proof.
  destruct (Parse (H := knowing andStmt) andQuery) as [plan|e] eqn:Ep; [|vm_compute in Ep; discriminate].
  destruct (p_Where plan) as [w|] eqn:Ew; [|vm_compute in Ep; injection Ep as <-; discriminate Ew].
  destruct (st_Range store1 "" nulKey 100 0) as [resp|e] eqn:Er; [|vm_compute in Er; discriminate].
  rewrite (unknown_condition_reads_everything (H0 := knowing andStmt) store1 connection andQuery plan w resp Ep Ew).
  - assert (Ecols : Columns plan = ["value"]) by (vm_compute in Ep; injection Ep as <-; reflexivity).
    rewrite Ecols. vm_compute in Er. injection Er as <-. vm_compute. reflexivity.
  - vm_compute in Ep. injection Ep as <-. vm_compute in Ew. injection Ew as <-. reflexivity.
  - vm_compute in Ep. injection Ep as <-. discriminate.
  - reflexivity.
  - vm_compute. reflexivity.
  - vm_compute. reflexivity.
  - exact Er.
Defined.
